(* ===== verification/_CoqProject ===== *)
-Q . S2P
Prelude.v
GoStrings.v
GoTime.v
Errors.v
Codec.v
NetIP.v
AesGcm.v
FileSystem.v
Json.v
Uuid.v
Message.v
ContentStore.v
ContentStoreFacts.v
ContentStoreSpec.v
Reconcile.v
Tar.v
FileTree.v
Archive.v
ArchiveFacts.v
ArchiveTrip.v
Mail.v
Database.v
DatabaseFacts.v
DeliveryRepo.v
MailboxRepo.v
ParseRepo.v
ParserJob.v
System.v
ParserSystem.v
MailParser.v
MailParserFacts.v
ParseChecks.v
Retention.v
Token.v
Scope.v
CapabilityRepo.v
Capability.v
CapabilityDb.v
Cursor.v
LmtpData.v
LmtpCommand.v
LmtpSession.v
MailboxService.v
BrowserSession.v
CreateQuota.v
Http.v
Catalog.v
Bundle.v
BundleFacts.v
BundleRun.v
BackupTool.v
BackupToolFacts.v
Lease.v
Supervisor.v
HttpApi.v
HttpFacts.v
CompatRepo.v
CompatFacts.v
DuckMail.v
Adapters.v
CompatView.v
CompatApi.v
CompatApiFacts.v
CompatPages.v
Config.v
App.v
Commands.v
