(* ===== verification/Prelude.v ===== *)
(** * MailWisp: a verified model of the mail path

    MailWisp receives mail over LMTP into temporary inboxes.  This library
    models the parts of the Go program that carry its guarantees and proves
    them correct.  File and function names below are under src/internal.

    ** The program and the files that model it

    - _Bytes, errors, codecs._  [Prelude] (this file) has the notations,
      tactics and generic lemmas; [GoStrings] the string functions of the
      standard library the code uses, on bytes and UTF-8; [GoTime] [float64]
      and durations as text; [Errors] the
      sentinel errors, [fmt.Errorf("%w")], [errors.Is] and [errors.As];
      [Codec] hexadecimal, base64url, big-endian integers and SHA-256;
      [NetIP] IP addresses and HMAC, [AesGcm] AES-256-GCM, both checked
      against published test vectors; [Uuid] the interface of the UUID library with a concrete instance;
      [Json] what [encoding/json] writes, with the calendar of [time.Format].
    - _LMTP_ (lmtp/data_reader.go, session.go, server.go).  [LmtpData] is the
      DATA stream, [LmtpCommand] the parsing of commands and addresses and
      message/address.go, [LmtpSession] the state machine: one definition per
      command, composed by [dispatch], [step] and [run].
    - _Receiver_ (message/delivery.go, receiver.go).  [Message] validates
      deliveries and runs [Receive] against two classes, a content store with
      lifecycle leases and a repository.
    - _Content store_ (contentstore/store.go, sync_nonwindows.go,
      disk_space_linux.go, reconcile.go).  [FileSystem] is a POSIX file system
      with visible and durable directory entries, a failure oracle consulted
      by every system call, and power failures ([crash]); [ContentStore] the
      operations; [ContentStoreFacts] their frame conditions;
      [ContentStoreSpec] the theorems; [Reconcile] the consistency check,
      against the classes [ContentCatalog] and [CatalogSpec].
    - _Archives_ (contentstore/archive.go).  [Tar] is what is used of
      [archive/tar] and [compress/gzip], two classes with their laws and an
      instance with stored blocks; [FileTree] the calls on whole directories;
      [Archive] writes and restores archives, [ArchiveFacts] has the safety of
      a restore, [ArchiveTrip] the round trip.
    - _Backups_ (backup/bundle.go, restore.go, postgres/backup_tool.go,
      maintenance_lease.go, app/backup.go, reconcile.go, cleanup.go).  [Bundle]
      creates, verifies and restores bundles, against the classes
      [DatabaseDumper], [DatabaseRestorer] and [ManifestCodec]; [BundleFacts]
      has their theorems, [BundleRun] instances and a backup that is made and
      restored.  [BackupTool] drives [pg_dump] and [pg_restore], the class
      [PgTools]; [BackupToolFacts] shows that it keeps the promises of the two
      database classes.  [Lease] is the advisory lock with the processes that
      compete for it, [Commands] the commands that run under it.
    - _PostgreSQL_ (postgres/delivery_repository.go, mailbox_repository.go,
      content_parse_repository.go, inbox_capability_repository.go).
      [Database] has the tables as finite maps with the constraints of the
      migrations, statements that may fail, and transactions whose commit may
      be lost; [DatabaseFacts] the inversion lemmas; [DeliveryRepo],
      [MailboxRepo], [ParseRepo] and [CapabilityRepo] one definition per
      repository method; [Catalog] the paged catalog (content_catalog.go),
      which discharges [CatalogSpec], and the scan of app/reconcile.go.
    - _Credentials_ (auth/token.go, scope.go, capability.go, session.go).
      [Token], [Scope], and [Capability], which is proved against the class
      [CapabilitySpec] that [CapabilityDb] discharges for the database;
      [BrowserSession] the encrypted cookies a capability is exchanged for.
    - _Admission_ (abuse/create_quota.go, postgres/create_quota_repository.go).
      [CreateQuota] counts creation requests per client identity and day.
    - _Services and jobs_ (mailbox/service.go, httpapi/message_cursor.go,
      jobs/retention.go, jobs/parser.go).  [MailboxService], [Cursor],
      [Retention], and [ParserJob], whose host interface [ParserSystem]
      instantiates.
    - _HTTP_ (httpapi/server.go).  [Http] is the transport: requests, the
      client's address, the token bucket in [float64], error responses;
      [HttpApi] one definition per handler of the canonical API, composed by
      [serve]; [HttpFacts] the isolation of inboxes.
    - _Compatibility_ (duckmail, yyds, cloudflaretemp and their
      repositories).  [CompatRepo] has the tables beside the database and
      their methods, [CompatFacts] the stability of the identifiers,
      [DuckMail] password accounts, [Adapters] the other two services.
      [CompatView] and [CompatApi] are httpapi/duckmail.go, yyds.go and
      cloudflare_temp.go: what is presented, and one definition per handler,
      composed by [cserve]; [CompatApiFacts] has their isolation, [CompatPages]
      their pages and bounds.
    - _MIME_ (mail/limits.go, normalize.go, parser.go, attachment.go).
      [MailParser] is the parse over the parts that the go-message library
      reports (the class [MessageLib], what is relied on in [MessageSpec]);
      [MailParserFacts] its bounds, and that it is a parser for the worker;
      [ParseChecks] the constraints of the table that results are stored in.
    - _Configuration and wiring_ (config/config.go, app/app.go, app/postgres.go,
      postgres/pool.go).  [Config] reads and validates the settings, [App]
      builds the process from them, [Supervisor] is its run.
    - _The whole_.  [System] puts the store, the database and the deliveries
      in flight side by side; every operation above is a step.

    ** What is proved

    - [System.system_refines]: any interleaving of the operations, with any
      failures, refines a map of letters that grows by deliveries and shrinks
      by discards, and every letter is readable after a power failure at any
      moment; [System.receive_delivers] is the receiver, end to end.
    - LMTP: replies match deliveries one to one, sessions keep their
      invariant and always end, DATA is decoded byte for byte, bounded, and
      resynchronised after every error.
    - Content store: an acknowledged object is durable and content addressed,
      capacity accounting is exact, deletion, pruning, verification and
      reconciliation do exactly what they report;
      [ContentStoreSpec.concurrent_put_gap] is a schedule of two concurrent
      puts that breaks durability (see the findings of the manifest).
    - Archives: a restore touches nothing outside its target and installs what
      was read, or cleans up ([ArchiveFacts.restore_archive_safe]); it gives back
      the objects of the store, unless the archive ends on a window of the
      decompressor ([ArchiveTrip.archive_roundtrip], see the findings).
    - Backups: a bundle is published whole or not at all
      ([BundleFacts.create_atomic]), verification is exact
      ([BundleFacts.verify_bundle_exact]), a restore verifies first and claims
      only what it did ([BundleFacts.restore_guarded],
      [BackupToolFacts.tool_restore_guarded]); the tools are given the
      connection of the DSN and nothing else
      ([BackupToolFacts.tool_environment_isolated]).
    - The lease: at most one process has the lock, however sessions end
      ([Lease.lease_exclusive]; [Lease.lost_lease_unnoticed] is what it does not
      give), and the maintenance commands change nothing without it
      ([Commands.commands_exclusive]).
    - Database: deliveries are atomic and respect quotas, deletions collect
      exactly the unreferenced content, claims are exclusive and fenced,
      outcomes final.
    - Maintenance: the catalog walk is one pass over the table, and a
      reconciliation of the whole system never harms a referenced object and
      repairs completely ([Catalog.reconcile_system]).
    - Credentials: encoding is canonical, authentication exact, issued
      capabilities usable, rotation exclusive, revocation final, a browser
      session equivalent to its capability until it expires.
    - Admission: a client is admitted exactly up to its daily limit.
    - HTTP: [HttpFacts.inbox_isolation], a request touches and shows rows of
      the inbox of its credential only, and a cookie changes nothing without
      the anti-forgery token.
    - Compatibility: integer identifiers are stable and resolve to their
      message only, and a password account admits exactly its password;
      [CompatApiFacts.compat_isolation] extends the isolation of inboxes to the
      three APIs and their tables; numbered pages are complete, and mail
      answers bounded in number, slots and bytes.
    - MIME: [MailParserFacts.parse_bounded], a parse ends and its result
      respects every limit; [ParseChecks.refused_result_reclaimed], a result
      that the table refuses is parsed again without end (see the findings).
    - Configuration: [App.loaded_configuration_composes], what loads can be
      composed, and the limits of the parts fit together;
      [Supervisor.run_supervised], a process serves under its lease only, ends,
      and reports an error unless its shutdown was orderly.
    - Services and jobs: paging is complete, creation usable, cursors round
      trip, sweeps and worker iterations end and are justified.

    ** Conventions, bounds and fuel

    Go strings and byte slices are [bytes] (lists of [ascii]); integers are
    [Z], with [wrap64] or [w32] where the code can overflow; times and
    durations are nanoseconds, [pg_time] the microseconds PostgreSQL keeps.
    A fallible function returns [res]; a stateful one passes its state.
    Failures of the environment are lists of verdicts consumed one per call
    ([d_oracle], [db_oracle], [lk_oracle]), so a theorem without a hypothesis on them holds
    for every pattern of failures.  Loops that are not structural take fuel,
    computed from the input so that it suffices, which is proved: the reads a
    source has left ([rd_fuel]) for copying, hashing, draining and finishing,
    the input bytes for the session loop, the inboxes for a sweep, the rows
    for the catalog walk, the attempt number for the retry delay, the limit on
    parts for the walk over a message and the reads a body has left, the
    length of the stream for a restore ([restore_loop_fuel]).

    Repository methods, [put] and the other store operations are atomic steps
    of [System]; [ContentStoreSpec.concurrent_put_gap] is the one place that
    looks inside.  A repository transaction runs alone, as its row locks
    enforce; a statement outside a transaction that fails was not executed.
    UUID casts of PostgreSQL are taken to accept what the UUID library
    accepts.  [uuidv7()] yields identifiers that were not used before.

    ** Not modelled

    The programs [pg_dump] and [pg_restore] and the parsing of connection
    strings, which are parameters of the backup tool; the command lines and the
    load generator; telemetry and migrations; listening, routing by path, the decoding
    of JSON and the middleware of [net/http], so a request carries what the
    decoder returns; the go-message library
    and [net/mail], which are parameters of the MIME parser; [net/url] and the
    driver, parameters of the configuration;
    sockets, timers and goroutines around the session loop, the sweep and the
    worker iteration; the Windows variants of the file system calls. *)

From Stdlib Require Export ZArith Ascii Lia.
From stdpp Require Export base option list gmap strings sorting.

Declare Scope mailwisp_scope.
Delimit Scope mailwisp_scope with mw.
Open Scope Z_scope.

(** ** Byte strings

    A Go [string] and a Go [[]byte] are sequences of bytes: lists of [ascii]
    (eight bits).  [str] turns a literal into one. *)

Abbreviation bytes := (list ascii).

Definition str (s : string) : bytes := String.list_ascii_of_string s.

(** [len(s)], an integer. *)
Definition zlen {A} (l : list A) : Z := Z.of_nat (length l).

(** The value of a byte, [0..255]. *)
Definition code (c : ascii) : Z := Z.of_N (N_of_ascii c).

(** The byte of a value, truncated like Go's conversion to [byte]. *)
Definition byte_of (z : Z) : ascii := ascii_of_N (Z.to_N (z mod 256)).

Definition in_range (lo hi : Z) (c : ascii) : bool :=
  (lo <=? code c) && (code c <=? hi).

(** ** Results of fallible Go functions: a value or an error. *)

Inductive result (E A : Type) : Type :=
| Ok (a : A)
| Err (e : E).
Arguments Ok {E A} a.
Arguments Err {E A} e.

Definition rbind {E A B} (r : result E A) (k : A -> result E B) : result E B :=
  match r with Ok a => k a | Err e => Err e end.

Definition is_ok {E A} (r : result E A) : bool :=
  match r with Ok _ => true | Err _ => false end.

Notation "'let*' x ':=' r 'in' k" := (rbind r (fun x => k))
  (at level 10, x pattern, r at level 200, k at level 200) : mailwisp_scope.

#[global] Instance result_eq_dec {E A} `{EqDecision E} `{EqDecision A} : EqDecision (result E A).
Proof. solve_decision. Defined.

(** ** Generic lemmas *)

Lemma zlen_nonneg {A} (l : list A) : 0 <= zlen l.
Proof. unfold zlen. lia. Qed.

Lemma zlen_nil {A} : zlen (@nil A) = 0.
Proof. reflexivity. Qed.

Lemma zlen_cons {A} (x : A) l : zlen (x :: l) = 1 + zlen l.
Proof. unfold zlen. cbn [length]. lia. Qed.

Lemma zlen_app {A} (l1 l2 : list A) : zlen (l1 ++ l2) = zlen l1 + zlen l2.
Proof. unfold zlen. rewrite length_app. lia. Qed.

Lemma code_range c : 0 <= code c < 256.
Proof.
  unfold code. split; [apply N2Z.is_nonneg|].
  pose proof (N_ascii_bounded c). lia.
Qed.

Lemma code_inj c d : code c = code d -> c = d.
Proof.
  unfold code. intros H%N2Z.inj.
  by rewrite <- (ascii_N_embedding c), <- (ascii_N_embedding d), H.
Qed.

Lemma code_byte_of z : code (byte_of z) = z mod 256.
Proof.
  unfold code, byte_of. pose proof (Z.mod_pos_bound z 256 ltac:(lia)).
  rewrite N_ascii_embedding by lia. lia.
Qed.

Lemma byte_of_code c : byte_of (code c) = c.
Proof.
  apply code_inj. rewrite code_byte_of. apply Z.mod_small, code_range.
Qed.

(** Filters that agree on the elements of a list. *)
Lemma filter_agree {A} (P Q : A -> Prop) `{!forall x, Decision (P x)} `{!forall x, Decision (Q x)} (l : list A) :
  (forall x, x ∈ l -> P x <-> Q x) -> filter P l = filter Q l.
Proof.
  induction l as [|y l IH]; [done|]. intros HPQ. rewrite !filter_cons, IH by (intros x Hx; apply HPQ; by right).
  pose proof (HPQ y ltac:(by left)). repeat case_decide; tauto.
Qed.

Lemma filter_all {A} (P : A -> Prop) `{!forall x, Decision (P x)} (l : list A) : (forall x, x ∈ l -> P x) -> filter P l = l.
Proof.
  induction l as [|y l IH]; [done|]. intros HP. rewrite filter_cons, decide_True by (apply HP; by left).
  f_equal. apply IH. intros x Hx. apply HP. by right.
Qed.

Lemma filter_none {A} (P : A -> Prop) `{!forall x, Decision (P x)} (l : list A) : (forall x, x ∈ l -> ~ P x) -> filter P l = [].
Proof.
  induction l as [|y l IH]; [done|]. intros HP. rewrite filter_cons, decide_False by (apply HP; by left).
  apply IH. intros x Hx. apply HP. by right.
Qed.

(** All bytes, to check a property of a byte by evaluation. *)
Definition all_ascii : list ascii := (λ n, ascii_of_nat n) <$> seq 0 256.

Lemma ascii_all (P : ascii -> bool) :
  forallb P all_ascii = true -> forall c, P c = true.
Proof.
  rewrite forallb_forall. intros H c. apply H.
  apply list_elem_of_In, list_elem_of_fmap. exists (nat_of_ascii c).
  split; [by rewrite ascii_nat_embedding|].
  apply elem_of_seq. pose proof (nat_ascii_bounded c). lia.
Qed.

(** [byte_check P c] closes a goal that is [P c = true] for a computable [P]. *)
Ltac byte_check P c :=
  revert c; apply (ascii_all P); vm_compute; reflexivity.

(** ** The development's tactics and hint database *)

Create HintDb mw.

Lemma andb_true_elim b1 b2 : b1 && b2 = true -> b1 = true /\ b2 = true.
Proof. apply andb_true_iff. Qed.

Ltac bool_to_prop :=
  repeat match goal with
  | H : _ && _ = true |- _ => apply andb_true_elim in H; destruct H
  | H : _ || _ = false |- _ => apply orb_false_iff in H; destruct H
  | H : negb _ = true |- _ => apply negb_true_iff in H
  | H : negb _ = false |- _ => apply negb_false_iff in H
  | H : (_ <? _) = true |- _ => apply Z.ltb_lt in H
  | H : (_ <? _) = false |- _ => apply Z.ltb_ge in H
  | H : (_ <=? _) = true |- _ => apply Z.leb_le in H
  | H : (_ <=? _) = false |- _ => apply Z.leb_gt in H
  | H : (_ =? _) = true |- _ => apply Z.eqb_eq in H
  | H : (_ =? _) = false |- _ => apply Z.eqb_neq in H
  | H : bool_decide _ = true |- _ => apply bool_decide_eq_true in H
  | H : bool_decide _ = false |- _ => apply bool_decide_eq_false in H
  end.

(** Split every [if], [match] on the way to the head of an equation [H]. *)
Ltac split_match H :=
  repeat match type of H with
  | context [match ?x with _ => _ end] =>
      let E := fresh "E" in destruct x eqn:E; simplify_eq/=
  end.

(** Split on the condition of the outermost [if] of a hypothesis. *)
Ltac if_in H E :=
  match type of H with
  | context C [if ?b then _ else _] => destruct b eqn:E
  end.

Ltac zl := unfold zlen in *; rewrite ?length_app in *; cbn [length] in *; lia.

#[export] Hint Resolve zlen_nonneg code_range : mw.
