(* ===== verification/GoStrings.v ===== *)
(** * The parts of Go's [strings], [unicode/utf8] and [strconv] packages the program uses

    Byte strings are decoded to runes exactly as [utf8.DecodeRuneInString]
    does: an ill-formed byte is one segment of width one holding
    [utf8.RuneError].  Trimming and field splitting work on that
    segmentation with [unicode.IsSpace].  Case mapping covers every ASCII
    letter and the four non-ASCII code points whose simple case mapping is an
    ASCII letter; the program compares mapped strings with ASCII constants or
    with strings mapped the same way. *)

From S2P Require Import Prelude.

(** ** UTF-8 *)

Definition rune_error : Z := 65533.

(** One decoded rune: its value, the bytes it came from, and whether they
    were well-formed. *)
Record seg := Seg { seg_rune : Z; seg_raw : bytes; seg_valid : bool }.

#[global] Instance seg_eq_dec : EqDecision seg.
Proof. solve_decision. Defined.

Definition cont (c : ascii) : bool := in_range 128 191 c.

Definition utf8_two (a b : ascii) : bool := in_range 194 223 a && cont b.

Definition utf8_three (a b c : ascii) : bool :=
  ((code a =? 224) && in_range 160 191 b
   || in_range 225 236 a && cont b
   || (code a =? 237) && in_range 128 159 b
   || in_range 238 239 a && cont b) && cont c.

Definition utf8_four (a b c d : ascii) : bool :=
  ((code a =? 240) && in_range 144 191 b
   || in_range 241 243 a && cont b
   || (code a =? 244) && in_range 128 143 b) && cont c && cont d.

Definition rune2 (a b : ascii) : Z := (code a - 192) * 64 + (code b - 128).
Definition rune3 (a b c : ascii) : Z :=
  ((code a - 224) * 64 + (code b - 128)) * 64 + (code c - 128).
Definition rune4 (a b c d : ascii) : Z :=
  (((code a - 240) * 64 + (code b - 128)) * 64 + (code c - 128)) * 64 + (code d - 128).

(** The runes of a string, as [range s] and the [utf8] package see them. *)
Fixpoint runes (s : bytes) : list seg :=
  match s with
  | [] => []
  | a :: s1 =>
    if code a <? 128 then Seg (code a) [a] true :: runes s1
    else match s1 with
    | b :: s2 =>
      if utf8_two a b then Seg (rune2 a b) [a; b] true :: runes s2
      else match s2 with
      | c :: s3 =>
        if utf8_three a b c then Seg (rune3 a b c) [a; b; c] true :: runes s3
        else match s3 with
        | d :: s4 =>
          if utf8_four a b c d then Seg (rune4 a b c d) [a; b; c; d] true :: runes s4
          else Seg rune_error [a] false :: runes s1
        | [] => Seg rune_error [a] false :: runes s1
        end
      | [] => Seg rune_error [a] false :: runes s1
      end
    | [] => Seg rune_error [a] false :: runes s1
    end
  end.

Definition unrunes (l : list seg) : bytes := concat (seg_raw <$> l).

(** [utf8.ValidString] *)
Definition valid_utf8 (s : bytes) : bool := forallb seg_valid (runes s).

(** [strings.ToValidUTF8(s, "")]: ill-formed bytes are dropped. *)
Definition to_valid_utf8 (s : bytes) : bytes :=
  unrunes (filter (λ g, seg_valid g = true) (runes s)).

(** [unicode.IsSpace] *)
Definition is_space (r : Z) : bool :=
  ((9 <=? r) && (r <=? 13)) || (r =? 32) || (r =? 133) || (r =? 160) || (r =? 5760)
  || ((8192 <=? r) && (r <=? 8202)) || (r =? 8232) || (r =? 8233) || (r =? 8239)
  || (r =? 8287) || (r =? 12288).

(** [unicode.IsControl]: the category Cc. *)
Definition is_control (r : Z) : bool :=
  ((0 <=? r) && (r <=? 31)) || ((127 <=? r) && (r <=? 159)).

Fixpoint drop_while {A} (p : A -> bool) (l : list A) : list A :=
  match l with
  | [] => []
  | x :: l' => if p x then drop_while p l' else l
  end.

(** [strings.TrimFunc]: both ends, rune by rune. *)
Definition trim_segs (p : Z -> bool) (l : list seg) : list seg :=
  reverse (drop_while (λ g, p (seg_rune g))
    (reverse (drop_while (λ g, p (seg_rune g)) l))).

Definition trim_func (p : Z -> bool) (s : bytes) : bytes :=
  unrunes (trim_segs p (runes s)).

Definition trim_space (s : bytes) : bytes := trim_func is_space s.

(** [strings.TrimLeft(s, c)] for a one-byte cut set. *)
Definition trim_left_byte (c : ascii) (s : bytes) : bytes :=
  drop_while (λ d, bool_decide (d = c)) s.

(** [strings.Fields] *)
Fixpoint fields_go (cur : bytes) (l : list seg) : list bytes :=
  match l with
  | [] => if bool_decide (cur = []) then [] else [cur]
  | g :: l' =>
    if is_space (seg_rune g)
    then (if bool_decide (cur = []) then [] else [cur]) ++ fields_go [] l'
    else fields_go (cur ++ seg_raw g) l'
  end.

Definition fields (s : bytes) : list bytes := fields_go [] (runes s).

(** ** Case mapping *)

Definition lower_byte (c : ascii) : ascii :=
  if in_range 65 90 c then byte_of (code c + 32) else c.

Definition upper_byte (c : ascii) : ascii :=
  if in_range 97 122 c then byte_of (code c - 32) else c.

Definition lower_seg (g : seg) : bytes :=
  if seg_rune g =? 8490 then ["k"%char]        (* KELVIN SIGN *)
  else if seg_rune g =? 304 then ["i"%char]    (* LATIN CAPITAL LETTER I WITH DOT ABOVE *)
  else lower_byte <$> seg_raw g.

Definition upper_seg (g : seg) : bytes :=
  if seg_rune g =? 383 then ["S"%char]         (* LATIN SMALL LETTER LONG S *)
  else if seg_rune g =? 305 then ["I"%char]    (* LATIN SMALL LETTER DOTLESS I *)
  else upper_byte <$> seg_raw g.

Definition to_lower (s : bytes) : bytes := concat (lower_seg <$> runes s).
Definition to_upper (s : bytes) : bytes := concat (upper_seg <$> runes s).

(** [strings.EqualFold] against a constant without the letters K and S, the
    only ASCII letters with a non-ASCII case folding. *)
Definition equal_fold (s t : bytes) : bool :=
  bool_decide (lower_byte <$> s = lower_byte <$> t).

(** ** Searching *)

Fixpoint has_prefix (s p : bytes) {struct p} : bool :=
  match p, s with
  | [], _ => true
  | _ :: _, [] => false
  | y :: p', x :: s' => bool_decide (x = y) && has_prefix s' p'
  end.

Definition has_suffix (s p : bytes) : bool := has_prefix (reverse s) (reverse p).

(** [strings.TrimPrefix] *)
Definition trim_prefix (s p : bytes) : bytes :=
  if has_prefix s p then drop (length p) s else s.

(** [strings.IndexByte]; [None] is the -1 of Go. *)
Fixpoint index_byte (s : bytes) (c : ascii) : option nat :=
  match s with
  | [] => None
  | d :: s' => if bool_decide (d = c) then Some 0%nat else S <$> index_byte s' c
  end.

(** [strings.Cut] at a one-byte separator: before, after, found. *)
Definition cut (s : bytes) (c : ascii) : bytes * bytes * bool :=
  match index_byte s c with
  | Some i => (take i s, drop (S i) s, true)
  | None => (s, [], false)
  end.

(** [strings.Count] of a one-byte substring. *)
Definition count_byte (s : bytes) (c : ascii) : Z :=
  zlen (filter (λ d, d = c) s).

(** [strings.Contains] *)
Fixpoint contains (s p : bytes) : bool :=
  has_prefix s p || match s with [] => false | _ :: s' => contains s' p end.

(** [strings.Split] at a byte. *)
Fixpoint split_at (c : ascii) (s : bytes) : list bytes :=
  match s with
  | [] => [[]]
  | d :: s =>
    let l := split_at c s in
    if bool_decide (d = c) then [] :: l else match l with [] => [[d]] | p :: l => (d :: p) :: l end
  end.

(** ** Integers *)

Definition min_int64 : Z := - 2 ^ 63.
Definition max_int64 : Z := 2 ^ 63 - 1.

(** [int64] arithmetic wraps around. *)
Definition wrap64 (z : Z) : Z := (z + 2 ^ 63) mod 2 ^ 64 - 2 ^ 63.

Lemma wrap64_small z : min_int64 <= z <= max_int64 -> wrap64 z = z.
Proof. unfold wrap64, min_int64, max_int64. intros. rewrite Z.mod_small; lia. Qed.

Definition is_digit (c : ascii) : bool := in_range 48 57 c.

Definition digits_value (s : bytes) : Z :=
  fold_left (λ acc c, acc * 10 + (code c - 48)) s 0.

(** [strconv.ParseInt(s, 10, 64)] *)
Definition parse_int64 (s : bytes) : option Z :=
  let '(neg, ds) := match s with
    | "+"%char :: r => (false, r)
    | "-"%char :: r => (true, r)
    | _ => (false, s) end in
  if bool_decide (ds = []) || negb (forallb is_digit ds) then None
  else
    let v := (if neg : bool then - digits_value ds else digits_value ds) in
    if (min_int64 <=? v) && (v <=? max_int64) then Some v else None.

Fixpoint digits_rev (fuel : nat) (z : Z) : bytes :=
  match fuel with
  | O => []
  | S fuel' => byte_of (48 + z mod 10) :: (if z <? 10 then [] else digits_rev fuel' (z / 10))
  end.

(** [strconv.FormatInt(z, 10)]; 64 digits of fuel hold any 64-bit value. *)
Definition format_int (z : Z) : bytes :=
  if z <? 0 then "-"%char :: reverse (digits_rev 64 (- z)) else reverse (digits_rev 64 z).

(** ** Lemmas *)


(** ** Lemmas on runes *)

(** Induction on the length of a string, the shape of [runes]' recursion. *)
Lemma bytes_strong_ind (P : bytes -> Prop) :
  (forall s, (forall t, (length t < length s)%nat -> P t) -> P s) -> forall s, P s.
Proof. apply (induction_ltof1 _ (@length ascii)). Qed.

(** One case per branch of [runes], with the induction hypothesis applied. *)
Ltac runes_ind s IH :=
  induction s as [s IH] using bytes_strong_ind;
  destruct s as [|?a s]; [|cbn [runes];
  repeat match goal with
  | |- context [if ?b then _ else _] => destruct b eqn:?
  | |- context [match ?l with [] => _ | _ :: _ => _ end] => destruct l as [|? ?]
  end].

Lemma unrunes_runes s : unrunes (runes s) = s.
Proof.
  unfold unrunes. runes_ind s IH; try reflexivity;
    cbn -[runes]; rewrite IH by (cbn; lia); reflexivity.
Qed.

Lemma unrunes_app l1 l2 : unrunes (l1 ++ l2) = unrunes l1 ++ unrunes l2.
Proof. unfold unrunes. by rewrite fmap_app, concat_app. Qed.

Definition ascii_seg (c : ascii) : seg := Seg (code c) [c] true.

Definition is_ascii (c : ascii) : bool := code c <? 128.

Lemma runes_ascii_cons c s : is_ascii c = true -> runes (c :: s) = ascii_seg c :: runes s.
Proof. unfold is_ascii. intros H. cbn [runes]. by rewrite H. Qed.

Lemma runes_ascii s : forallb is_ascii s = true -> runes s = ascii_seg <$> s.
Proof.
  induction s as [|c s IH]; [done|]. cbn [forallb]. intros [Hc Hs]%andb_true_iff.
  rewrite runes_ascii_cons by done. cbn. by rewrite IH.
Qed.

Lemma unrunes_ascii s : unrunes (ascii_seg <$> s) = s.
Proof. unfold unrunes. induction s as [|c s IH]; cbn; [done|]. by rewrite IH. Qed.

(** The segment at the head of a decoded string is well-formed exactly as the
    first bytes say, whatever follows. *)
Lemma runes_valid_head s g l :
  runes s = g :: l -> seg_valid g = true -> forall t, runes (seg_raw g ++ t) = g :: runes t.
Proof.
  destruct s as [|a s]; [done|]. cbn [runes]. intros H Hv t.
  split_match H; try done; cbn [seg_raw app runes];
    repeat match goal with Hb : ?b = _ |- context [if ?b then _ else _] => rewrite Hb end;
    done.
Qed.

Lemma runes_tail s g l : runes s = g :: l -> exists t, s = seg_raw g ++ t /\ runes t = l.
Proof.
  destruct s as [|a s]; [done|]. cbn [runes]. intros H.
  split_match H; cbn [seg_raw]; eexists; (split; [reflexivity|]); reflexivity.
Qed.

(** Dropping the ill-formed segments leaves a string that decodes to the
    remaining ones. *)
Lemma runes_filter_valid s :
  runes (to_valid_utf8 s) = filter (λ g, seg_valid g = true) (runes s).
Proof.
  unfold to_valid_utf8.
  induction s as [s IH] using bytes_strong_ind.
  destruct (runes s) as [|g l] eqn:E; [done|].
  destruct (runes_tail _ _ _ E) as (t & -> & <-).
  assert (length t < length (seg_raw g ++ t))%nat as Hlt.
  { assert (seg_raw g <> []).
    { intros H0. destruct (seg_raw g ++ t) as [|a s'] eqn:E2; [done|].
      cbn [runes] in E. split_match E; done. }
    rewrite length_app. destruct (seg_raw g); cbn; [done|lia]. }
  rewrite filter_cons. destruct (decide (seg_valid g = true)) as [Hv|Hv].
  - unfold unrunes. cbn. rewrite (runes_valid_head _ _ _ E Hv). f_equal. apply (IH t Hlt).
  - apply (IH t Hlt).
Qed.

Lemma to_valid_utf8_valid s : valid_utf8 (to_valid_utf8 s) = true.
Proof.
  unfold valid_utf8. rewrite runes_filter_valid. apply forallb_forall.
  intros g Hg%list_elem_of_In. by apply list_elem_of_filter in Hg as [? _].
Qed.

Lemma unrunes_length_filter l : (length (unrunes (filter (λ g, seg_valid g = true) l)) <= length (unrunes l))%nat.
Proof.
  unfold unrunes. induction l as [|g l IH]; [done|].
  rewrite filter_cons. destruct (decide _); cbn; rewrite ?length_app; lia.
Qed.

Lemma to_valid_utf8_length s : zlen (to_valid_utf8 s) <= zlen s.
Proof.
  unfold zlen, to_valid_utf8. pose proof (unrunes_length_filter (runes s)).
  rewrite unrunes_runes in H. lia.
Qed.

(** ** Lemmas on trimming *)

Lemma drop_while_suffix {A} (p : A -> bool) l : exists k, l = k ++ drop_while p l.
Proof.
  induction l as [|x l [k IH]]; [by exists []|]. cbn. destruct (p x).
  - exists (x :: k). cbn. by rewrite <- IH.
  - by exists [].
Qed.

Lemma drop_while_head {A} (p : A -> bool) l x k : drop_while p l = x :: k -> p x = false.
Proof.
  induction l as [|y l IH]; [done|]. cbn. destruct (p y) eqn:E; [done|].
  intros [= <- <-]. done.
Qed.

Lemma drop_while_false {A} (p : A -> bool) l :
  match l with [] => true | x :: _ => negb (p x) end = true -> drop_while p l = l.
Proof. destruct l as [|x l]; [done|]. cbn. by intros ->%negb_true_iff. Qed.

Lemma trim_segs_infix p l : exists k1 k2, l = k1 ++ trim_segs p l ++ k2.
Proof.
  unfold trim_segs.
  destruct (drop_while_suffix (λ g, p (seg_rune g)) l) as [k1 H1].
  set (m := drop_while _ l) in *.
  destruct (drop_while_suffix (λ g, p (seg_rune g)) (reverse m)) as [k2 H2].
  exists k1, (reverse k2). rewrite H1 at 1. f_equal.
  by rewrite <- reverse_app, <- H2, reverse_involutive.
Qed.

Lemma trim_func_infix p s : exists k1 k2, s = k1 ++ trim_func p s ++ k2.
Proof.
  unfold trim_func. destruct (trim_segs_infix p (runes s)) as (k1 & k2 & H).
  exists (unrunes k1), (unrunes k2). by rewrite <- !unrunes_app, <- H, unrunes_runes.
Qed.

Lemma trim_func_length p s : zlen (trim_func p s) <= zlen s.
Proof.
  destruct (trim_func_infix p s) as (k1 & k2 & H). rewrite H at 2. rewrite !zlen_app.
  pose proof (zlen_nonneg k1). pose proof (zlen_nonneg k2). lia.
Qed.

(** ** Lemmas on ASCII strings and case mapping *)

Lemma rune2_big a b : utf8_two a b = true -> 128 <= rune2 a b.
Proof. unfold utf8_two, cont, in_range, rune2. intros H. bool_to_prop. lia. Qed.

Lemma rune3_big a b c : utf8_three a b c = true -> 128 <= rune3 a b c.
Proof.
  unfold utf8_three, cont, in_range, rune3. intros H.
  pose proof (code_range a). pose proof (code_range b). pose proof (code_range c).
  rewrite !andb_true_iff, !orb_true_iff, !andb_true_iff, !Z.leb_le, !Z.eqb_eq in H. lia.
Qed.

Lemma rune4_big a b c d : utf8_four a b c d = true -> 128 <= rune4 a b c d.
Proof.
  unfold utf8_four, cont, in_range, rune4. intros H.
  pose proof (code_range a). pose proof (code_range b).
  rewrite !andb_true_iff, !orb_true_iff, !andb_true_iff, !Z.leb_le, !Z.eqb_eq in H. lia.
Qed.

(** Only a one-byte segment has a rune below 128. *)
Lemma runes_small s : forallb (λ g, seg_rune g <? 128) (runes s) = true -> forallb is_ascii s = true.
Proof.
  runes_ind s IH; try done; cbn -[runes Z.ltb]; intros [H1 H2]%andb_true_iff;
    try (unfold is_ascii; rewrite ?Heqb; cbn; apply IH; [cbn; lia|done]);
    exfalso; clear H2; unfold rune_error in *; bool_to_prop;
    repeat match goal with
    | H : utf8_two _ _ = true |- _ => apply rune2_big in H
    | H : utf8_three _ _ _ = true |- _ => apply rune3_big in H
    | H : utf8_four _ _ _ _ = true |- _ => apply rune4_big in H
    end; lia.
Qed.

Lemma to_lower_ascii s : forallb is_ascii s = true -> to_lower s = lower_byte <$> s.
Proof.
  intros H. unfold to_lower. rewrite runes_ascii by done.
  induction s as [|c s IH]; [done|]. cbn [forallb] in H. apply andb_true_iff in H as [Hc Hs].
  cbn [fmap list_fmap concat]. rewrite IH by done.
  unfold lower_seg, ascii_seg, is_ascii in *. cbn [seg_rune seg_raw]. bool_to_prop.
  rewrite !(proj2 (Z.eqb_neq _ _)) by lia. done.
Qed.

Lemma lower_byte_idemp c : lower_byte (lower_byte c) = lower_byte c.
Proof.
  apply (bool_decide_unpack _). apply Is_true_true_2.
  byte_check (λ c, bool_decide (lower_byte (lower_byte c) = lower_byte c)) c.
Qed.

Lemma is_ascii_lower c : is_ascii (lower_byte c) = is_ascii c.
Proof.
  apply (bool_decide_unpack _), Is_true_true_2.
  byte_check (λ c, bool_decide (is_ascii (lower_byte c) = is_ascii c)) c.
Qed.

(** A map on bytes that neither creates nor removes the byte [d]. *)
Definition fixes_byte (f : ascii -> ascii) (d : ascii) : Prop := forall c, f c = d <-> c = d.

Section FixedByte.
Context (f : ascii -> ascii) (d : ascii) (Hf : fixes_byte f d).

Lemma index_byte_fmap s : index_byte (f <$> s) d = index_byte s d.
Proof using Hf.
  induction s as [|c s IH]; [done|]. cbn. rewrite IH.
  by rewrite (bool_decide_ext (f c = d) (c = d)) by apply Hf.
Qed.

Lemma count_byte_fmap s : count_byte (f <$> s) d = count_byte s d.
Proof using Hf.
  unfold count_byte. induction s as [|c s IH]; [done|].
  cbn [fmap list_fmap]. rewrite !filter_cons.
  destruct (decide (f c = d)) as [H|H], (decide (c = d)) as [H'|H'].
  - rewrite !zlen_cons. lia.
  - by apply (Hf c) in H.
  - by apply (Hf c) in H'.
  - done.
Qed.

Lemma has_prefix_fmap s n : has_prefix (f <$> s) (replicate n d) = has_prefix s (replicate n d).
Proof using Hf.
  revert s. induction n as [|n IH]; [by intros []|]. intros [|c s]; [done|]. cbn.
  rewrite IH. by rewrite (bool_decide_ext (f c = d) (c = d)) by apply Hf.
Qed.

Lemma contains_fmap s n : contains (f <$> s) (replicate n d) = contains s (replicate n d).
Proof using Hf.
  induction s as [|c s IH]; [by destruct n|].
  change (has_prefix (f <$> (c :: s)) (replicate n d) || contains (f <$> s) (replicate n d) =
          has_prefix (c :: s) (replicate n d) || contains s (replicate n d)).
  by rewrite IH, has_prefix_fmap.
Qed.

Lemma cut_fmap s :
  cut (f <$> s) d = let '(a, b, found) := cut s d in (f <$> a, f <$> b, found).
Proof using Hf.
  unfold cut. rewrite index_byte_fmap. destruct (index_byte s d); [|done].
  by rewrite fmap_take, fmap_drop.
Qed.
End FixedByte.

Lemma lower_fixes d : (code d < 65 \/ 122 < code d \/ 90 < code d < 97) -> fixes_byte lower_byte d.
Proof.
  intros Hd c. unfold lower_byte, in_range.
  destruct ((65 <=? code c) && (code c <=? 90)) eqn:E; [|done]. bool_to_prop.
  split; intros Hx; exfalso; apply (f_equal code) in Hx; rewrite ?code_byte_of in Hx;
    rewrite ?Z.mod_small in Hx by lia; lia.
Qed.

(** ** Trimming an ASCII string whose ends are not white space *)

Definition ascii_space (c : ascii) : bool := is_space (code c).

Lemma trim_space_clean s :
  forallb is_ascii s = true ->
  match head s with Some c => negb (ascii_space c) | None => true end = true ->
  match last s with Some c => negb (ascii_space c) | None => true end = true ->
  trim_space s = s.
Proof.
  intros Ha Hh Hl. unfold trim_space, trim_func, trim_segs. rewrite runes_ascii by done.
  rewrite (drop_while_false _ (ascii_seg <$> s)) by (by destruct s).
  rewrite drop_while_false; [by rewrite reverse_involutive, unrunes_ascii|].
  destruct s as [|c s _] using rev_ind; [done|]. rewrite last_snoc in Hl.
  rewrite fmap_app. cbn [fmap list_fmap]. by rewrite reverse_snoc.
Qed.

Lemma index_byte_found l c rest : c ∉ l -> index_byte (l ++ c :: rest) c = Some (length l).
Proof.
  induction l as [|d l IH]; cbn; intros H.
  - by rewrite bool_decide_eq_true_2.
  - rewrite not_elem_of_cons in H. destruct H as [Hd Hl].
    rewrite bool_decide_eq_false_2 by congruence. by rewrite IH.
Qed.

Lemma count_byte_app s t c : count_byte (s ++ t) c = count_byte s c + count_byte t c.
Proof. unfold count_byte. by rewrite filter_app, zlen_app. Qed.

Lemma count_byte_0 s c : c ∉ s -> count_byte s c = 0.
Proof.
  unfold count_byte. induction s as [|d s IH]; [done|].
  rewrite not_elem_of_cons. intros [Hd Hs]. rewrite filter_cons, decide_False by congruence.
  by apply IH.
Qed.

Lemma cut_found l c rest : c ∉ l -> cut (l ++ c :: rest) c = (l, rest, true).
Proof.
  intros H. unfold cut. rewrite index_byte_found by done.
  rewrite take_app_length. do 2 f_equal.
  replace (S (length l)) with (length (l ++ [c])) by (rewrite length_app; cbn; lia).
  change (c :: rest) with ([c] ++ rest). by rewrite app_assoc, drop_app_length.
Qed.

Lemma has_prefix_app p s : has_prefix (p ++ s) p = true.
Proof. induction p as [|c p IH]; cbn; [by destruct s|]. rewrite IH. by rewrite bool_decide_eq_true_2. Qed.

Lemma trim_prefix_app p s : trim_prefix (p ++ s) p = s.
Proof. unfold trim_prefix. by rewrite has_prefix_app, drop_app_length. Qed.

(** ** Decimal integers *)

Lemma digits_value_snoc s c : digits_value (s ++ [c]) = digits_value s * 10 + (code c - 48).
Proof. unfold digits_value. by rewrite fold_left_app. Qed.

Lemma code_digit z : 0 <= z < 10 -> code (byte_of (48 + z)) = 48 + z.
Proof. intros Hz. rewrite code_byte_of, Z.mod_small; lia. Qed.

Lemma digits_rev_spec n z :
  0 <= z < 10 ^ Z.of_nat n -> (0 < n)%nat ->
  forallb is_digit (digits_rev n z) = true /\ digits_value (reverse (digits_rev n z)) = z /\ digits_rev n z <> [].
Proof.
  revert z. induction n as [|n IH]; intros z Hz Hn; [lia|]. cbn [digits_rev forallb].
  pose proof (Z.mod_pos_bound z 10 ltac:(lia)) as Hm. pose proof (Z.div_mod z 10 ltac:(lia)) as Hd.
  assert (is_digit (byte_of (48 + z mod 10)) = true) as ->.
  { unfold is_digit, in_range. rewrite code_digit by done. apply andb_true_iff. rewrite !Z.leb_le. lia. }
  cbn [andb]. destruct (z <? 10) eqn:E; bool_to_prop.
  - split; [done|]. split; [|done]. cbn. unfold digits_value. cbn. rewrite code_digit by done. rewrite Z.mod_small by lia. lia.
  - rewrite Nat2Z.inj_succ, Z.pow_succ_r in Hz by lia. destruct n as [|n]; [cbn in Hz; lia|].
    destruct (IH (z / 10)) as (H1 & H2 & _); [split; [apply Z.div_pos; lia|apply Z.div_lt_upper_bound; lia]|lia|].
    split; [done|]. split; [|done]. rewrite reverse_cons, digits_value_snoc, H2, code_digit by done. lia.
Qed.

Lemma digits_rev_length n z k : 0 <= z < 10 ^ Z.of_nat k -> (0 < k)%nat -> (length (digits_rev n z) <= k)%nat.
Proof.
  revert z k. induction n as [|n IH]; intros z k Hz Hk; cbn [digits_rev length]; [lia|].
  destruct (z <? 10) eqn:E; bool_to_prop; cbn [length]; [lia|]. destruct k as [|k]; [lia|].
  rewrite Nat2Z.inj_succ, Z.pow_succ_r in Hz by lia. destruct k as [|k]; [cbn in Hz; lia|].
  specialize (IH (z / 10) (S k)). apply le_n_S, IH; [|lia].
  split; [apply Z.div_pos; lia|apply Z.div_lt_upper_bound; lia].
Qed.

Lemma forallb_reverse {A} (p : A -> bool) l : forallb p (reverse l) = forallb p l.
Proof.
  induction l as [|x l IH]; [done|]. rewrite reverse_cons, forallb_app, IH. cbn. by rewrite andb_true_r, andb_comm.
Qed.

(** What [strconv.FormatInt] prints of a natural number, [ParseInt] reads. *)
Lemma format_int_nonneg z :
  0 <= z <= max_int64 ->
  parse_int64 (format_int z) = Some z /\ forallb is_digit (format_int z) = true /\
  format_int z <> [] /\ (length (format_int z) <= 19)%nat.
Proof.
  intros Hz. unfold max_int64 in Hz. unfold format_int. rewrite (proj2 (Z.ltb_ge _ _)) by lia.
  destruct (digits_rev_spec 64 z) as (H1 & H2 & H3); [split; [lia|]|lia|].
  { apply (Z.le_lt_trans _ (2 ^ 63)); [lia|]. vm_compute. done. }
  rewrite <- forallb_reverse in H1.
  assert (reverse (digits_rev 64 z) <> []) as H4 by (intros E%(f_equal reverse); rewrite reverse_involutive in E; done).
  split; [|split; [done|split; [done|]]].
  2:{ rewrite length_reverse. apply digits_rev_length; [|lia]. split; [lia|]. apply (Z.le_lt_trans _ (2 ^ 63)); [lia|]. vm_compute. done. }
  unfold parse_int64. destruct (reverse (digits_rev 64 z)) as [|c s] eqn:E; [done|].
  assert (c <> "+"%char /\ c <> "-"%char) as [Hp Hm].
  { cbn in H1. apply andb_prop in H1 as [Hc _]. split; intros ->; done. }
  assert ((match c :: s with "+"%char :: r => (false, r) | "-"%char :: r => (true, r) | _ => (false, c :: s) end) = (false, c :: s)) as ->.
  { destruct c as [[] [] [] [] [] [] [] []]; try done; congruence. }
  rewrite bool_decide_eq_false_2, H1, H2 by done. cbn [negb orb].
  rewrite (proj2 (Z.leb_le min_int64 z)), (proj2 (Z.leb_le z max_int64)) by (unfold min_int64, max_int64; lia). done.
Qed.

(** ** Splitting *)

Lemma split_at_cons c p s : c ∉ p -> split_at c (p ++ c :: s) = p :: split_at c s.
Proof.
  induction p as [|d p IH]; intros Hc; cbn [app split_at]; [by rewrite bool_decide_eq_true_2|].
  apply not_elem_of_cons in Hc as [Hd Hp]. rewrite bool_decide_eq_false_2 by done. by rewrite IH.
Qed.

Lemma split_at_last c p : c ∉ p -> split_at c p = [p].
Proof.
  induction p as [|d p IH]; intros Hc; cbn [split_at]; [done|]. apply not_elem_of_cons in Hc as [Hd Hp].
  rewrite bool_decide_eq_false_2 by done. by rewrite IH.
Qed.

Lemma free_of (c : ascii) (p : bytes) : existsb (λ d, bool_decide (d = c)) p = false -> c ∉ p.
Proof.
  intros He Hin. assert (existsb (λ d, bool_decide (d = c)) p = true); [|congruence]. apply existsb_exists. exists c.
  by rewrite <- list_elem_of_In, bool_decide_eq_true_2.
Qed.
