(* ===== verification/GoTime.v ===== *)
(** * Durations and floating point

    [float64] arithmetic by the Standard Library's specification of IEEE 754,
    [time.Time.Sub], [Duration.Seconds], [Duration.String] and
    [time.ParseDuration]. *)

From Stdlib Require Import SpecFloat.
From S2P Require Import Prelude GoStrings.

(** ** [float64] *)

Definition float64 : Type := spec_float.
Definition of_Z (z : Z) : float64 := binary_normalize 53 1024 z 0 false.
Definition fadd : float64 -> float64 -> float64 := SFadd 53 1024.
Definition fsub : float64 -> float64 -> float64 := SFsub 53 1024.
Definition fmul : float64 -> float64 -> float64 := SFmul 53 1024.
Definition fdiv : float64 -> float64 -> float64 := SFdiv 53 1024.
Definition flt : float64 -> float64 -> bool := SFltb.

(** [time.Time.Sub] saturates. *)
Definition time_sub (t u : Z) : Z := Z.max min_int64 (Z.min max_int64 (t - u)).

(** [Duration.Seconds] *)
Definition seconds (d : Z) : float64 :=
  fadd (of_Z (Z.quot d 1000000000)) (fdiv (of_Z (Z.rem d 1000000000)) (of_Z 1000000000)).

(** The conversion of a [float64] to an integer, towards zero. *)
Definition trunc (f : float64) : Z :=
  match f with
  | S754_finite s m e =>
    let z := if 0 <=? e then Zpos m * 2 ^ e else Zpos m / 2 ^ (- e) in
    if s then - z else z
  | _ => 0
  end.

(** ** [Duration.String] *)

(** [fmtFrac]: the last [prec] digits of [v] as a fraction without trailing
    zeros, and the rest of [v]. *)
Fixpoint fmt_frac (prec : nat) (v : Z) (print : bool) (buf : bytes) : bytes * Z :=
  match prec with
  | O => (if print then "."%char :: buf else buf, v)
  | S prec =>
    let digit := v mod 10 in
    let print := print || negb (digit =? 0) in
    fmt_frac prec (v / 10) print (if print then byte_of (48 + digit) :: buf else buf)
  end.

Definition duration_string (d : Z) : bytes :=
  let u := Z.abs d in
  let text :=
    if u =? 0 then str "0s"
    else if u <? 1000 then format_int u ++ str "ns"
    else if u <? 1000000 then let '(frac, v) := fmt_frac 3 u false [] in format_int v ++ frac ++ [byte_of 194; byte_of 181] ++ str "s"
    else if u <? 1000000000 then let '(frac, v) := fmt_frac 6 u false [] in format_int v ++ frac ++ str "ms"
    else
      let '(frac, v) := fmt_frac 9 u false [] in
      let seconds := format_int (v mod 60) ++ frac ++ str "s" in
      let v := v / 60 in
      if v <=? 0 then seconds
      else
        let minutes := format_int (v mod 60) ++ str "m" ++ seconds in
        let v := v / 60 in
        if v <=? 0 then minutes else format_int v ++ str "h" ++ minutes in
  if d <? 0 then "-"%char :: text else text.

(** ** [time.ParseDuration] *)

Definition two63 : Z := 2 ^ 63.

(** [leadingInt]; [None] is an overflow. *)
Fixpoint leadingInt (x : Z) (s : bytes) : option (Z * bytes) :=
  match s with
  | c :: s' =>
    if is_digit c then
      if two63 / 10 <? x then None
      else
        let x := x * 10 + (code c - 48) in
        if two63 <? x then None else leadingInt x s'
    else Some (x, s)
  | [] => Some (x, [])
  end.

(** [leadingFraction]: the digits as an integer, their scale and the rest. *)
Fixpoint leadingFraction (x : Z) (scale : float64) (overflow : bool) (s : bytes) : Z * float64 * bytes :=
  match s with
  | c :: s' =>
    if is_digit c then
      if overflow then leadingFraction x scale true s'
      else if (two63 - 1) / 10 <? x then leadingFraction x scale true s'
      else
        let y := x * 10 + (code c - 48) in
        if two63 <? y then leadingFraction x scale true s' else leadingFraction y (fmul scale (of_Z 10)) false s'
    else (x, scale, s)
  | [] => (x, scale, [])
  end.

Definition unit_of (u : bytes) : option Z :=
  if bool_decide (u = str "ns") then Some 1
  else if bool_decide (u = str "us") || bool_decide (u = [byte_of 194; byte_of 181; "s"%char]) || bool_decide (u = [byte_of 206; byte_of 188; "s"%char])
  then Some 1000
  else if bool_decide (u = str "ms") then Some 1000000
  else if bool_decide (u = str "s") then Some 1000000000
  else if bool_decide (u = str "m") then Some 60000000000
  else if bool_decide (u = str "h") then Some 3600000000000
  else None.

Definition number_char (c : ascii) : bool := is_digit c || bool_decide (c = "."%char).

(** The bytes of a unit, up to the next number. *)
Fixpoint take_unit (s : bytes) : bytes * bytes :=
  match s with
  | c :: s' => if number_char c then ([], s) else let '(u, rest) := take_unit s' in (c :: u, rest)
  | [] => ([], [])
  end.

(** One number with its unit: nanoseconds and the rest. *)
Definition duration_term (s : bytes) : option (Z * bytes) :=
  match head s with
  | None => None
  | Some c =>
    if negb (number_char c) then None
    else match leadingInt 0 s with
    | None => None
    | Some (v, s1) =>
      let pre := negb (length s =? length s1)%nat in
      let '(f, scale, s2, post) :=
        match s1 with
        | "."%char :: s' => let '(f, scale, s2) := leadingFraction 0 (of_Z 1) false s' in (f, scale, s2, negb (length s' =? length s2)%nat)
        | _ => (0, of_Z 1, s1, false)
        end in
      if negb pre && negb post then None
      else
        let '(u, rest) := take_unit s2 in
        if bool_decide (u = []) then None
        else match unit_of u with
        | None => None
        | Some unit =>
          if two63 / unit <? v then None
          else
            let v := v * unit in
            if 0 <? f then
              let v := (v + trunc (fmul (of_Z f) (fdiv (of_Z unit) scale))) mod 2 ^ 64 in
              if two63 <? v then None else Some (v, rest)
            else Some (v, rest)
        end
    end
  end.

(** The loop over the terms; every term consumes a byte. *)
Fixpoint duration_terms (fuel : nat) (d : Z) (s : bytes) : option Z :=
  match s, fuel with
  | [], _ => Some d
  | _, O => None
  | _, S fuel =>
    match duration_term s with
    | None => None
    | Some (v, rest) => let d := d + v in if two63 <? d then None else duration_terms fuel d rest
    end
  end.

Definition ParseDuration (s : bytes) : option Z :=
  let '(neg, s) := match s with
    | "-"%char :: r => (true, r)
    | "+"%char :: r => (false, r)
    | _ => (false, s) end in
  if bool_decide (s = str "0") then Some 0
  else if bool_decide (s = []) then None
  else match duration_terms (length s) 0 s with
  | None => None
  | Some d => if neg : bool then Some (- d) else if two63 - 1 <? d then None else Some d
  end.

Example durations_parsed :
  ParseDuration <$> [str "1h30m"; str "1.5h"; str "-2m3.25s"; str "100ms"; str "9223372036854775807ns"; str "9223372036854775808ns"; str "3"; str ".s"; str "0"] =
  [Some 5400000000000; Some 5400000000000; Some (-123250000000); Some 100000000; Some 9223372036854775807; None; None; None; Some 0].
Proof. vm_compute. reflexivity. Qed.

Example durations_printed :
  duration_string <$> [86400000000000; 1500000000; 2500000; 90000000001] = [str "24h0m0s"; str "1.5s"; str "2.5ms"; str "1m30.000000001s"].
Proof. vm_compute. reflexivity. Qed.
