(* ===== verification/Errors.v ===== *)
(** * Go errors

    The sentinel values of the packages, the ways the code wraps them
    ([fmt.Errorf] with one or two [%w], [errors.Join], the two typed errors of
    the parser worker) and [errors.Is]. *)

From S2P Require Import Prelude.

(** The package-level sentinel errors the program tests with [errors.Is]. *)
Inductive sentinel : Type :=
(* internal/message *)
| ErrInvalidDelivery | ErrInboxNotFound | ErrContentTooLarge
| ErrInboxMessageQuotaExceeded | ErrInboxStorageQuotaExceeded | ErrInsufficientStorage
(* internal/lmtp *)
| ErrDataTooLarge | ErrDataLineTooLong | ErrCommandLineTooLong
(* internal/contentstore *)
| ErrInvalidKey | ErrContentCorrupt | ErrInconsistentContent
(* internal/auth *)
| ErrInvalidToken | ErrUnauthenticated | ErrForbidden | ErrCapabilityNotFound
| ErrCapabilityKIDConflict | ErrCapabilitySubjectUnavailable | ErrCapabilityLifetime
| ErrCapabilityAlreadyRotated | ErrBrowserSessionDisabled | ErrCSRF
(* internal/mailbox *)
| ErrMailboxInboxNotFound | ErrMessageNotFound | ErrAddressConflict
| ErrInvalidDomain | ErrInvalidLifetime | ErrInvalidLocalPart
(* internal/mail *)
| ErrMessageTooLarge | ErrHeaderTooLarge | ErrTooManyHeaders | ErrTooManyParts
| ErrNestingTooDeep | ErrPartTooLarge | ErrDecodedContentTooLarge
(* internal/jobs, internal/postgres, internal/abuse *)
| ErrStaleParseClaim | ErrContentMetadataConflict
| ErrDailyCreateQuotaExceeded | ErrInvalidClientAddress | ErrServiceActive
(* internal/duckmail, internal/yyds, internal/cloudflaretemp *)
| ErrInvalidAccount | ErrAccountConflict | ErrLoginFailed | ErrPermanentUnsupported
| ErrInvalidRequest | ErrAddressMismatch | ErrInvalidAddressName | ErrMessageIDNotFound
(* internal/httpapi *)
| ErrCloudflareTempPayloadTooLarge
(* the standard library and the drivers *)
| HttpErrServerClosed
| IoEOF | IoErrClosedPipe | OsErrNotExist | OsErrExist | DiskFull
| ContextCanceled | DeadlineExceeded | PgxErrNoRows.

#[global] Instance sentinel_eq_dec : EqDecision sentinel.
Proof. solve_decision. Defined.

Inductive goerr : Type :=
| ESentinel (s : sentinel)
| ENew (text : string)                    (* errors.New, or an opaque library error *)
| EWrap (text : string) (inner : goerr)   (* fmt.Errorf("text: %w", inner) *)
| EWrap2 (text : string) (e1 e2 : goerr)  (* fmt.Errorf("%w: text: %w", e1, e2), errors.Join *)
| ERawSource (inner : goerr)              (* jobs.rawSourceError, which unwraps *)
| ERawCorrupt (text : string).            (* jobs.rawContentCorruptError *)

Coercion ESentinel : sentinel >-> goerr.

#[global] Instance goerr_eq_dec : EqDecision goerr.
Proof. solve_decision. Defined.

(** [errors.Is(err, target)] for a sentinel target: the whole unwrap tree. *)
Fixpoint errors_is (e : goerr) (target : sentinel) : bool :=
  match e with
  | ESentinel s => bool_decide (s = target)
  | ENew _ | ERawCorrupt _ => false
  | EWrap _ i | ERawSource i => errors_is i target
  | EWrap2 _ a b => errors_is a target || errors_is b target
  end.

(** [errors.Is] on a possibly nil error. *)
Definition errors_is_opt (e : option goerr) (target : sentinel) : bool :=
  match e with Some e => errors_is e target | None => false end.

(** [errors.As] for the two typed errors. *)
Fixpoint as_raw_source (e : goerr) : bool :=
  match e with
  | ERawSource _ => true
  | EWrap _ i => as_raw_source i
  | EWrap2 _ a b => as_raw_source a || as_raw_source b
  | _ => false
  end.

Fixpoint as_raw_corrupt (e : goerr) : bool :=
  match e with
  | ERawCorrupt _ => true
  | EWrap _ i | ERawSource i => as_raw_corrupt i
  | EWrap2 _ a b => as_raw_corrupt a || as_raw_corrupt b
  | _ => false
  end.

(** A Go function that fails with an error. *)
Abbreviation res := (result goerr).

(** [errors.Join] *)
Fixpoint errors_join (l : list goerr) : option goerr :=
  match l with
  | [] => None
  | e :: l => Some match errors_join l with None => e | Some e' => EWrap2 "join" e e' end
  end.
