(* ===== verification/Codec.v ===== *)
(** * Encodings of the standard library the program relies on

    [encoding/hex], [encoding/base64] ([RawURLEncoding], strict and lenient),
    big-endian integers of [encoding/binary], and [crypto/sha256]. *)

From S2P Require Import Prelude GoStrings.

(** ** Hexadecimal *)

Definition hex_char (n : Z) : ascii :=
  if n <? 10 then byte_of (48 + n) else byte_of (87 + n).

Definition hex_value (c : ascii) : option Z :=
  if in_range 48 57 c then Some (code c - 48)
  else if in_range 97 102 c then Some (code c - 87)
  else if in_range 65 70 c then Some (code c - 55)
  else None.

(** [hex.EncodeToString] *)
Definition hex_encode (s : bytes) : bytes :=
  concat ((λ c, [hex_char (code c / 16); hex_char (code c mod 16)]) <$> s).

(** [hex.DecodeString] *)
Fixpoint hex_decode (s : bytes) : option bytes :=
  match s with
  | [] => Some []
  | [_] => None
  | a :: b :: s' =>
    match hex_value a, hex_value b, hex_decode s' with
    | Some x, Some y, Some r => Some (byte_of (x * 16 + y) :: r)
    | _, _, _ => None
    end
  end.

Definition lower_hex (c : ascii) : bool := in_range 48 57 c || in_range 97 102 c.

(** ** Base64, URL alphabet, no padding *)

Definition b64_char (n : Z) : ascii :=
  if n <? 26 then byte_of (65 + n)
  else if n <? 52 then byte_of (71 + n)
  else if n <? 62 then byte_of (n - 4)
  else if n =? 62 then "-"%char else "_"%char.

Definition b64_value (c : ascii) : option Z :=
  if in_range 65 90 c then Some (code c - 65)
  else if in_range 97 122 c then Some (code c - 71)
  else if in_range 48 57 c then Some (code c + 4)
  else if bool_decide (c = "-"%char) then Some 62
  else if bool_decide (c = "_"%char) then Some 63
  else None.

(** [base64.RawURLEncoding.EncodeToString] *)
Fixpoint b64_encode (s : bytes) : bytes :=
  match s with
  | [] => []
  | [a] => [b64_char (code a / 4); b64_char (code a mod 4 * 16)]
  | [a; b] =>
    [b64_char (code a / 4); b64_char (code a mod 4 * 16 + code b / 16);
     b64_char (code b mod 16 * 4)]
  | a :: b :: c :: s' =>
    b64_char (code a / 4) :: b64_char (code a mod 4 * 16 + code b / 16) ::
    b64_char (code b mod 16 * 4 + code c / 64) :: b64_char (code c mod 64) :: b64_encode s'
  end.

(** The quanta of [DecodeString]; [strict] rejects non-zero trailing bits. *)
Fixpoint b64_quanta (strict : bool) (s : bytes) : option bytes :=
  match s with
  | [] => Some []
  | [_] => None
  | [a; b] =>
    match b64_value a, b64_value b with
    | Some x, Some y =>
      if strict && negb (y mod 16 =? 0) then None else Some [byte_of (x * 4 + y / 16)]
    | _, _ => None
    end
  | [a; b; c] =>
    match b64_value a, b64_value b, b64_value c with
    | Some x, Some y, Some z =>
      if strict && negb (z mod 4 =? 0) then None
      else Some [byte_of (x * 4 + y / 16); byte_of (y mod 16 * 16 + z / 4)]
    | _, _, _ => None
    end
  | a :: b :: c :: d :: s' =>
    match b64_value a, b64_value b, b64_value c, b64_value d, b64_quanta strict s' with
    | Some x, Some y, Some z, Some v, Some r =>
      Some (byte_of (x * 4 + y / 16) :: byte_of (y mod 16 * 16 + z / 4) ::
            byte_of (z mod 4 * 64 + v) :: r)
    | _, _, _, _, _ => None
    end
  end.

Definition newline (c : ascii) : bool := (code c =? 10) || (code c =? 13).

(** [RawURLEncoding.DecodeString] and [RawURLEncoding.Strict().DecodeString]:
    carriage returns and line feeds are ignored. *)
Definition b64_decode (strict : bool) (s : bytes) : option bytes :=
  b64_quanta strict (filter (λ c, newline c = false) s).

(** ** Base64, standard alphabet *)

Definition to_std (c : ascii) : ascii :=
  if bool_decide (c = "-"%char) then "+"%char else if bool_decide (c = "_"%char) then "/"%char else c.
Definition of_std (c : ascii) : ascii :=
  if bool_decide (c = "+"%char) then "-"%char else if bool_decide (c = "/"%char) then "_"%char else c.

(** The URL alphabet with its last two digits exchanged. *)
Definition b64std_encode (s : bytes) : bytes := to_std <$> b64_encode s.
Definition b64std_decode (s : bytes) : option bytes :=
  if existsb (λ c, bool_decide (c = "-"%char) || bool_decide (c = "_"%char)) s then None else b64_decode true (of_std <$> s).

(** [base64.StdEncoding.Strict()], with its padding. *)
Definition b64pad_decode (s : bytes) : option bytes :=
  let t := filter (λ c, newline c = false) s in
  if negb (zlen t mod 4 =? 0) then None
  else if has_suffix t (str "==") then b64std_decode (take (length t - 2) t)
  else if has_suffix t (str "=") then b64std_decode (take (length t - 1) t)
  else b64std_decode t.

(** ** Big-endian integers *)

Fixpoint be_encode (n : nat) (z : Z) : bytes :=
  match n with
  | O => []
  | S n' => byte_of (z / 256 ^ Z.of_nat n') :: be_encode n' z
  end.

Definition be_decode (s : bytes) : Z := fold_left (λ acc c, acc * 256 + code c) s 0.

(** The two's complement reading of an unsigned 64-bit value. *)
Definition int64_of (z : Z) : Z := if z <? 2 ^ 63 then z else z - 2 ^ 64.

(** ** SHA-256 *)

Module Sha256.
Definition w32 (z : Z) : Z := z mod 2 ^ 32.
Definition add32 (a b : Z) : Z := w32 (a + b).
Definition rotr (n x : Z) : Z := Z.lor (Z.shiftr x n) (w32 (Z.shiftl x (32 - n))).
Definition ch (x y z : Z) : Z := Z.lxor (Z.land x y) (Z.land (Z.lxor x (2 ^ 32 - 1)) z).
Definition maj (x y z : Z) : Z := Z.lxor (Z.lxor (Z.land x y) (Z.land x z)) (Z.land y z).
Definition big0 (x : Z) : Z := Z.lxor (Z.lxor (rotr 2 x) (rotr 13 x)) (rotr 22 x).
Definition big1 (x : Z) : Z := Z.lxor (Z.lxor (rotr 6 x) (rotr 11 x)) (rotr 25 x).
Definition small0 (x : Z) : Z := Z.lxor (Z.lxor (rotr 7 x) (rotr 18 x)) (Z.shiftr x 3).
Definition small1 (x : Z) : Z := Z.lxor (Z.lxor (rotr 17 x) (rotr 19 x)) (Z.shiftr x 10).

(** The constants come from the first primes: the fractional bits of their
    cube roots (per round) and of their square roots (initial values). *)
Definition is_prime (n : nat) : bool := forallb (λ k, negb (Nat.eqb (Nat.modulo n k) 0)) (seq 2 (n - 2)).

Definition primes : list Z := Z.of_nat <$> filter (λ n, is_prime n = true) (seq 2 310).

(** The integer cube root of [n], bit by bit from [r]. *)
Fixpoint cube_root (bits : nat) (n r : Z) : Z :=
  match bits with
  | O => r
  | S b => let r' := r + 2 ^ Z.of_nat b in cube_root b n (if r' * r' * r' <=? n then r' else r)
  end.

Definition K : list Z := Eval vm_compute in (λ p, w32 (cube_root 36 (p * 2 ^ 96) 0)) <$> primes.

Definition H0 : list Z := Eval vm_compute in (λ p, w32 (Z.sqrt (p * 2 ^ 64))) <$> take 8 primes.

(** The working variables. *)
Record state := St { sa : Z; sb : Z; sc : Z; sd : Z; se : Z; sf : Z; sg : Z; sh : Z }.

Definition init : state :=
  let h i := nth i H0 0 in St (h 0%nat) (h 1%nat) (h 2%nat) (h 3%nat) (h 4%nat) (h 5%nat) (h 6%nat) (h 7%nat).

Definition round (s : state) (k w : Z) : state :=
  let t1 := w32 (sh s + big1 (se s) + ch (se s) (sf s) (sg s) + k + w) in
  let t2 := add32 (big0 (sa s)) (maj (sa s) (sb s) (sc s)) in
  St (add32 t1 t2) (sa s) (sb s) (sc s) (add32 (sd s) t1) (se s) (sf s) (sg s).

(** The rounds, with the last sixteen words of the message schedule. *)
Fixpoint rounds (ks ws : list Z) (s : state) : state :=
  match ks with
  | [] => s
  | k :: ks' =>
    match ws with
    | w0 :: ws' =>
      let w16 := w32 (small1 (nth 13 ws' 0) + nth 8 ws' 0 + small0 (nth 0 ws' 0) + w0) in
      rounds ks' (ws' ++ [w16]) (round s k w0)
    | [] => s
    end
  end.

Fixpoint words (s : bytes) : list Z :=
  match s with
  | a :: b :: c :: d :: s' => (((code a * 256 + code b) * 256 + code c) * 256 + code d) :: words s'
  | _ => []
  end.

Definition block (s : state) (ws : list Z) : state :=
  let r := rounds K ws s in
  St (add32 (sa s) (sa r)) (add32 (sb s) (sb r)) (add32 (sc s) (sc r)) (add32 (sd s) (sd r))
     (add32 (se s) (se r)) (add32 (sf s) (sf r)) (add32 (sg s) (sg r)) (add32 (sh s) (sh r)).

Definition pad (s : bytes) : bytes :=
  s ++ byte_of 128 :: replicate (Z.to_nat ((55 - zlen s) mod 64)) (byte_of 0) ++ be_encode 8 (8 * zlen s).

Fixpoint blocks (fuel : nat) (ws : list Z) (s : state) : state :=
  match fuel, ws with
  | S fuel', _ :: _ => blocks fuel' (drop 16 ws) (block s (take 16 ws))
  | _, _ => s
  end.

Definition output (s : state) : bytes :=
  be_encode 4 (sa s) ++ be_encode 4 (sb s) ++ be_encode 4 (sc s) ++ be_encode 4 (sd s) ++
  be_encode 4 (se s) ++ be_encode 4 (sf s) ++ be_encode 4 (sg s) ++ be_encode 4 (sh s).
End Sha256.

(** [sha256.Sum256]; a padded message has at most one word per byte. *)
Definition sha256 (s : bytes) : bytes :=
  let p := Sha256.pad s in
  Sha256.output (Sha256.blocks (length p) (Sha256.words p) Sha256.init).

Example sha256_empty :
  hex_encode (sha256 []) = str "e3b0c44298fc1c149afbf4c8996fb92427ae41e4649b934ca495991b7852b855".
Proof. vm_compute. reflexivity. Qed.

Example sha256_abc :
  hex_encode (sha256 (str "abc")) = str "ba7816bf8f01cfea414140de5dae2223b00361a396177a9cb410ff61f20015ad".
Proof. vm_compute. reflexivity. Qed.

Example sha256_two_blocks :
  hex_encode (sha256 (str "abcdbcdecdefdefgefghfghighijhijkijkljklmklmnlmnomnopnopq"))
  = str "248d6a61d20638b8e5c026930c3e6039a33ce45964ff2167f6ecedd419db06c1".
Proof. vm_compute. reflexivity. Qed.

(** ** Lemmas *)

Ltac div_mod_lia := Z.to_euclidean_division_equations; lia.

Lemma length_be_encode n z : length (be_encode n z) = n.
Proof. revert z. induction n as [|n IH]; intros z; cbn; [done|]. by rewrite IH. Qed.

Lemma sha256_length s : length (sha256 s) = 32%nat.
Proof. unfold sha256, Sha256.output. rewrite !length_app, !length_be_encode. done. Qed.

Lemma fold_be acc s :
  fold_left (λ acc c, acc * 256 + code c) s acc = acc * 256 ^ zlen s + be_decode s.
Proof.
  unfold be_decode. revert acc. induction s as [|c s IH]; intros acc; cbn [fold_left].
  - rewrite zlen_nil. lia.
  - rewrite IH, (IH (0 * 256 + code c)), zlen_cons, Z.pow_add_r by (pose proof (zlen_nonneg s); lia). lia.
Qed.

Lemma be_decode_cons c s : be_decode (c :: s) = code c * 256 ^ zlen s + be_decode s.
Proof. unfold be_decode at 1. cbn [fold_left]. by rewrite fold_be. Qed.

Lemma be_decode_range s : 0 <= be_decode s < 256 ^ zlen s.
Proof.
  induction s as [|c s IH]; [by vm_compute|].
  rewrite be_decode_cons, zlen_cons, Z.pow_add_r by (pose proof (zlen_nonneg s); lia).
  pose proof (code_range c). nia.
Qed.

Lemma be_decode_encode n z : be_decode (be_encode n z) = z mod 256 ^ Z.of_nat n.
Proof.
  induction n as [|n IH]; cbn [be_encode].
  - unfold be_decode. cbn. by rewrite Z.mod_1_r.
  - rewrite be_decode_cons, IH, code_byte_of. unfold zlen. rewrite length_be_encode.
    rewrite Nat2Z.inj_succ, Z.pow_succ_r by lia.
    assert (0 < 256 ^ Z.of_nat n) by (apply Z.pow_pos_nonneg; lia).
    rewrite (Z.mul_comm 256), (Z.rem_mul_r z (256 ^ Z.of_nat n) 256) by lia. lia.
Qed.

Lemma be_encode_range n z x : 0 <= z < 256 ^ Z.of_nat n -> 0 <= x ->
  be_encode n (x * 256 ^ Z.of_nat n + z) = be_encode n z.
Proof.
  intros Hz Hx. enough (forall m, (m <= n)%nat -> be_encode m (x * 256 ^ Z.of_nat n + z) = be_encode m z) by auto.
  intros m. induction m as [|m IH]; intros Hm; [done|]. cbn [be_encode].
  rewrite IH by lia. f_equal. apply code_inj. rewrite !code_byte_of.
  assert (0 < 256 ^ Z.of_nat m) by (apply Z.pow_pos_nonneg; lia).
  replace (x * 256 ^ Z.of_nat n) with ((x * 256 ^ (Z.of_nat n - Z.of_nat m)) * 256 ^ Z.of_nat m)
    by (rewrite <- Z.mul_assoc, <- Z.pow_add_r by lia; do 2 f_equal; lia).
  rewrite Z.div_add_l by lia.
  replace (Z.of_nat n - Z.of_nat m) with (1 + (Z.of_nat n - Z.of_nat m - 1)) by lia.
  rewrite Z.pow_add_r by lia. change (256 ^ 1) with 256.
  set (P := 256 ^ (_ - 1)). set (q := z / _).
  replace (x * (256 * P) + q) with (q + (x * P) * 256) by ring. by apply Z.mod_add.
Qed.

Lemma be_encode_decode s : be_encode (length s) (be_decode s) = s.
Proof.
  induction s as [|c s IH]; [done|]. cbn [length be_encode]. rewrite be_decode_cons.
  pose proof (be_decode_range s) as Hr. pose proof (code_range c) as Hc. unfold zlen in *.
  f_equal.
  - apply code_inj. rewrite code_byte_of.
    rewrite Z.div_add_l, (Z.div_small (be_decode s)) by lia. rewrite Z.add_0_r. by apply Z.mod_small.
  - rewrite be_encode_range by (done || lia). done.
Qed.

(** *** Hexadecimal *)

Lemma hex_value_char n : 0 <= n < 16 -> hex_value (hex_char n) = Some n.
Proof.
  intros Hn.
  assert (forallb (λ k, bool_decide (hex_value (hex_char (Z.of_nat k)) = Some (Z.of_nat k))) (seq 0 16) = true) as H
    by (vm_compute; reflexivity).
  rewrite forallb_forall in H. specialize (H (Z.to_nat n) ltac:(apply in_seq; lia)).
  bool_to_prop. by rewrite Z2Nat.id in H by lia.
Qed.

Lemma lower_hex_char n : 0 <= n < 16 -> lower_hex (hex_char n) = true.
Proof.
  intros Hn.
  assert (forallb (λ k, lower_hex (hex_char (Z.of_nat k))) (seq 0 16) = true) as H
    by (vm_compute; reflexivity).
  rewrite forallb_forall in H. specialize (H (Z.to_nat n) ltac:(apply in_seq; lia)).
  by rewrite Z2Nat.id in H by lia.
Qed.

Lemma hex_encode_cons c s :
  hex_encode (c :: s) = hex_char (code c / 16) :: hex_char (code c mod 16) :: hex_encode s.
Proof. done. Qed.

Lemma length_hex_encode s : length (hex_encode s) = (2 * length s)%nat.
Proof. induction s as [|c s IH]; [done|]. rewrite hex_encode_cons. cbn [length]. lia. Qed.

Lemma hex_decode_encode s : hex_decode (hex_encode s) = Some s.
Proof.
  induction s as [|c s IH]; [done|]. rewrite hex_encode_cons. cbn [hex_decode].
  pose proof (code_range c).
  rewrite !hex_value_char by div_mod_lia. rewrite IH. do 2 f_equal.
  apply code_inj. rewrite code_byte_of. div_mod_lia.
Qed.

Lemma hex_encode_lower s : forallb lower_hex (hex_encode s) = true.
Proof.
  induction s as [|c s IH]; [done|]. rewrite hex_encode_cons. cbn [forallb].
  pose proof (code_range c). rewrite !lower_hex_char by div_mod_lia. by rewrite IH.
Qed.

(** *** Base64 *)

Lemma b64_value_char n : 0 <= n < 64 -> b64_value (b64_char n) = Some n.
Proof.
  intros Hn.
  assert (forallb (λ k, bool_decide (b64_value (b64_char (Z.of_nat k)) = Some (Z.of_nat k))) (seq 0 64) = true) as H
    by (vm_compute; reflexivity).
  rewrite forallb_forall in H. specialize (H (Z.to_nat n) ltac:(apply in_seq; lia)).
  bool_to_prop. by rewrite Z2Nat.id in H by lia.
Qed.

Lemma b64_value_inv c n : b64_value c = Some n -> 0 <= n < 64 /\ b64_char n = c.
Proof.
  assert (match b64_value c with Some n => (0 <=? n) && (n <? 64) && bool_decide (b64_char n = c) | None => true end = true) as H.
  { byte_check (λ c, match b64_value c with Some n => (0 <=? n) && (n <? 64) && bool_decide (b64_char n = c) | None => true end) c. }
  intros E. rewrite E in H. by bool_to_prop.
Qed.

Lemma b64_char_no_newline n : 0 <= n < 64 -> newline (b64_char n) = false.
Proof.
  intros Hn.
  assert (forallb (λ k, negb (newline (b64_char (Z.of_nat k)))) (seq 0 64) = true) as H
    by (vm_compute; reflexivity).
  rewrite forallb_forall in H. specialize (H (Z.to_nat n) ltac:(apply in_seq; lia)).
  bool_to_prop. by rewrite Z2Nat.id in H by lia.
Qed.

(** Induction by groups of three or four bytes. *)
Lemma list_ind3 {A} (P : list A -> Prop) :
  P [] -> (forall a, P [a]) -> (forall a b, P [a; b]) ->
  (forall a b c l, P l -> P (a :: b :: c :: l)) -> forall l, P l.
Proof.
  intros H0 H1 H2 H3. fix go 1. intros [|a [|b [|c l]]]; [exact H0|apply H1|apply H2|].
  apply H3, go.
Qed.

Lemma list_ind4 {A} (P : list A -> Prop) :
  P [] -> (forall a, P [a]) -> (forall a b, P [a; b]) -> (forall a b c, P [a; b; c]) ->
  (forall a b c d l, P l -> P (a :: b :: c :: d :: l)) -> forall l, P l.
Proof.
  intros H0 H1 H2 H3 H4. fix go 1. intros [|a [|b [|c [|d l]]]]; [exact H0|apply H1|apply H2|apply H3|].
  apply H4, go.
Qed.

Ltac code_facts :=
  repeat match goal with
  | c : ascii |- _ => lazymatch goal with
      | _ : 0 <= code c < 256 |- _ => fail
      | _ => pose proof (code_range c)
      end
  end.

Lemma b64_quanta_encode strict s : b64_quanta strict (b64_encode s) = Some s.
Proof.
  induction s as [|a|a b|a b c s IH] using list_ind3; cbn [b64_encode b64_quanta]; [done|..];
    code_facts; rewrite !b64_value_char by div_mod_lia; rewrite ?IH.
  - replace (code a mod 4 * 16 mod 16) with 0 by div_mod_lia. rewrite andb_false_r.
    do 2 f_equal. apply code_inj. rewrite code_byte_of. div_mod_lia.
  - replace (code b mod 16 * 4 mod 4) with 0 by div_mod_lia. rewrite andb_false_r.
    f_equal; f_equal; [|f_equal]; apply code_inj; rewrite code_byte_of; div_mod_lia.
  - f_equal. f_equal; [|f_equal; [|f_equal]]; apply code_inj; rewrite code_byte_of; div_mod_lia.
Qed.

Lemma b64_encode_chars s : forallb (λ c, negb (newline c)) (b64_encode s) = true.
Proof.
  induction s as [|a|a b|a b c s IH] using list_ind3; cbn [b64_encode forallb]; [done|..];
    code_facts; rewrite !b64_char_no_newline by div_mod_lia; rewrite ?IH; done.
Qed.

Lemma no_newline_filter s :
  forallb (λ c, negb (newline c)) s = true -> filter (λ c, newline c = false) s = s.
Proof.
  induction s as [|c s IH]; [done|]. cbn [forallb]. intros [Hc Hs]%andb_true_iff. bool_to_prop.
  rewrite filter_cons, decide_True by done. by rewrite IH.
Qed.

Lemma b64_decode_encode strict s : b64_decode strict (b64_encode s) = Some s.
Proof.
  unfold b64_decode. rewrite no_newline_filter by apply b64_encode_chars. apply b64_quanta_encode.
Qed.

(** The strict decoder accepts only what the encoder produces. *)
Lemma b64_encode_quanta s r : b64_quanta true s = Some r -> b64_encode r = s.
Proof.
  revert r. induction s as [|a|a b|a b c|a b c d s IH] using list_ind4; intros r; cbn [b64_quanta]; intros H.
  - by simplify_eq.
  - done.
  - destruct (b64_value a) as [x|] eqn:Ea; [|done]. destruct (b64_value b) as [y|] eqn:Eb; [|done].
    apply b64_value_inv in Ea as [Hx <-], Eb as [Hy <-].
    destruct (y mod 16 =? 0) eqn:E; [|done]. cbn in H. simplify_eq. bool_to_prop. cbn [b64_encode].
    rewrite code_byte_of. f_equal; [|f_equal]; f_equal; div_mod_lia.
  - destruct (b64_value a) as [x|] eqn:Ea; [|done]. destruct (b64_value b) as [y|] eqn:Eb; [|done].
    destruct (b64_value c) as [z|] eqn:Ec; [|done].
    apply b64_value_inv in Ea as [Hx <-], Eb as [Hy <-], Ec as [Hz <-].
    destruct (z mod 4 =? 0) eqn:E; [|done]. cbn in H. simplify_eq. bool_to_prop. cbn [b64_encode].
    rewrite !code_byte_of. f_equal; [|f_equal; [|f_equal]]; f_equal; div_mod_lia.
  - destruct (b64_value a) as [x|] eqn:Ea; [|done]. destruct (b64_value b) as [y|] eqn:Eb; [|done].
    destruct (b64_value c) as [z|] eqn:Ec; [|done]. destruct (b64_value d) as [v|] eqn:Ed; [|done].
    destruct (b64_quanta true s) as [r'|]; [|done].
    apply b64_value_inv in Ea as [Hx <-], Eb as [Hy <-], Ec as [Hz <-], Ed as [Hv <-].
    simplify_eq. cbn [b64_encode]. rewrite !code_byte_of, (IH r' eq_refl).
    f_equal; [|f_equal; [|f_equal; [|f_equal]]]; f_equal; div_mod_lia.
Qed.

Lemma length_b64_encode s : zlen (b64_encode s) = (zlen s * 4 + 2) / 3.
Proof.
  induction s as [|a|a b|a b c s IH] using list_ind3; cbn [b64_encode]; [done..|].
  rewrite !zlen_cons, IH. div_mod_lia.
Qed.
