(* ===== verification/NetIP.v ===== *)
(** * IP addresses and keyed digests of the standard library

    [net.ParseIP], [IP.To4] and [crypto/hmac] over SHA-256, as the admission
    control and the HTTP server use them. *)

From S2P Require Import Prelude GoStrings Codec.

(** ** [net.ParseIP] *)

(** Dotted decimal: four fields of at most 255 without leading zeros. *)
Fixpoint ipv4_loop (prev : option ascii) (s : bytes) (val digLen : Z) (fields : bytes) : option bytes :=
  match s with
  | [] => if (length fields <? 3)%nat then None else Some (fields ++ [byte_of val])
  | c :: s' =>
    if is_digit c then
      if (digLen =? 1) && (val =? 0) then None
      else
        let val := val * 10 + (code c - 48) in
        if 255 <? val then None else ipv4_loop (Some c) s' val (digLen + 1) fields
    else if bool_decide (c = "."%char) then
      if bool_decide (prev = None) || bool_decide (s' = []) || bool_decide (prev = Some "."%char) then None
      else if bool_decide (length fields = 3%nat) then None
      else ipv4_loop (Some c) s' 0 0 (fields ++ [byte_of val])
    else None
  end.

Definition parseIPv4Fields (s : bytes) : option bytes := ipv4_loop None s 0 0 [].

Fixpoint take_hex (s : bytes) : bytes :=
  match s with
  | c :: s' => match hex_value c with Some _ => c :: take_hex s' | None => [] end
  | [] => []
  end.

Definition hex_number (s : bytes) : Z := fold_left (λ acc c, acc * 16 + default 0 (hex_value c)) s 0.

(** Groups of hex digits followed by colons, [n] of them left; what is left
    of the text, the bytes so far and the place of the [::]. *)
Fixpoint ipv6_loop (n : nat) (s ip : bytes) (ellipsis : option nat) : option (bytes * bytes * option nat) :=
  match n with
  | O => Some (s, ip, ellipsis)
  | S n =>
    let digits := take_hex s in
    if (4 <? length digits)%nat || bool_decide (digits = []) then None
    else match drop (length digits) s with
    | [] => Some ([], ip ++ be_encode 2 (hex_number digits), ellipsis)
    | c :: rest =>
      if bool_decide (c = "."%char) then
        if bool_decide (ellipsis = None) && negb (bool_decide (length ip = 12%nat)) then None
        else if (16 <? length ip + 4)%nat then None
        else (λ fields, ([], ip ++ fields, ellipsis)) <$> parseIPv4Fields s
      else if negb (bool_decide (c = ":"%char)) then None
      else
        let ip := ip ++ be_encode 2 (hex_number digits) in
        match rest with
        | [] => None
        | c2 :: rest' =>
          if bool_decide (c2 = ":"%char) then
            match ellipsis, rest' with
            | Some _, _ => None
            | None, [] => Some ([], ip, Some (length ip))
            | None, _ => ipv6_loop n rest' ip (Some (length ip))
            end
          else ipv6_loop n rest ip ellipsis
        end
    end
  end.

Definition parseIPv6 (s : bytes) : option bytes :=
  let '(s, ellipsis) := match s with
    | ":"%char :: ":"%char :: rest => (rest, Some 0%nat)
    | _ => (s, None) end in
  if bool_decide (ellipsis = Some 0%nat) && bool_decide (s = []) then Some (replicate 16 (byte_of 0))
  else match ipv6_loop 8 s [] ellipsis with
  | None => None
  | Some (rest, ip, ellipsis) =>
    if negb (bool_decide (rest = [])) then None
    else if (length ip <? 16)%nat then
      (λ e, take e ip ++ replicate (16 - length ip) (byte_of 0) ++ drop e ip) <$> ellipsis
    else match ellipsis with Some _ => None | None => Some ip end
  end.

Definition v4InV6Prefix : bytes := replicate 10 (byte_of 0) ++ replicate 2 (byte_of 255).

(** [net.ParseIP]: sixteen bytes.  A zone, marked by a percent sign, is
    refused wherever it is. *)
Definition ParseIP (s : bytes) : option bytes :=
  if bool_decide ("%"%char ∈ s) then None
  else match index_byte s "."%char, index_byte s ":"%char with
  | Some i, Some j => if (i <? j)%nat then (λ f, v4InV6Prefix ++ f) <$> parseIPv4Fields s else parseIPv6 s
  | Some i, None => (λ f, v4InV6Prefix ++ f) <$> parseIPv4Fields s
  | None, Some j => parseIPv6 s
  | None, None => None
  end.

(** [IP.To4] of a sixteen-byte address. *)
Definition To4 (ip : bytes) : option bytes :=
  if bool_decide (take 12 ip = v4InV6Prefix) then Some (drop 12 ip) else None.

(** ** [hmac.New(sha256.New, key)] for keys of at most one block *)

Definition xor_byte (n : Z) (c : ascii) : ascii := byte_of (Z.lxor (code c) n).

Definition hmac_sha256 (key msg : bytes) : bytes :=
  let block := key ++ replicate (64 - length key) (byte_of 0) in
  sha256 ((xor_byte 92 <$> block) ++ sha256 ((xor_byte 54 <$> block) ++ msg)).

(** The second test case of RFC 4231. *)
Example hmac_rfc4231 :
  hmac_sha256 (str "Jefe") (str "what do ya want for nothing?") =
  default [] (hex_decode (str "5bdcc146bf60754e6a042426089575c75a003f089d2739839dec58b964ec3843")).
Proof. vm_compute. reflexivity. Qed.

Lemma length_hmac key msg : length (hmac_sha256 key msg) = 32%nat.
Proof. apply sha256_length. Qed.

Example parse_samples :
  ParseIP <$> [str "192.0.2.7"; str "::ffff:192.0.2.7"; str "2001:db8::1"; str "::"; str "1.2.3"; str "1.02.3.4"; str "fe80::1%eth0"] =
  [Some (v4InV6Prefix ++ (byte_of <$> [192; 0; 2; 7])); Some (v4InV6Prefix ++ (byte_of <$> [192; 0; 2; 7]));
   Some (byte_of <$> [32; 1; 13; 184; 0; 0; 0; 0; 0; 0; 0; 0; 0; 0; 0; 1]); Some (replicate 16 (byte_of 0)); None; None; None].
Proof. vm_compute. reflexivity. Qed.

(** ** An IPv4 address is the same address in its mapped form *)

Definition dotted (c : ascii) : bool := is_digit c || bool_decide (c = "."%char).

Lemma ipv4_loop_chars prev s val digLen fields f :
  ipv4_loop prev s val digLen fields = Some f -> forallb dotted s = true.
Proof.
  revert prev val digLen fields. induction s as [|c s IH]; intros prev val digLen fields; [done|]. cbn.
  unfold dotted at 1. destruct (is_digit c); cbn [orb andb].
  - destruct (_ && _); [done|]. destruct (255 <? _); [done|]. apply IH.
  - case_bool_decide; [|done]. destruct (_ || _); [done|]. case_bool_decide; [done|]. apply IH.
Qed.

Lemma ipv4_loop_length prev s val digLen fields f :
  (length fields <= 3)%nat -> ipv4_loop prev s val digLen fields = Some f -> length f = 4%nat.
Proof.
  revert prev val digLen fields. induction s as [|c s IH]; intros prev val digLen fields Hl; cbn.
  - destruct (length fields) as [|[|[|[|n]]]] eqn:E; try done; [|lia]. intros [= <-]. rewrite length_app, E. done.
  - destruct (is_digit c).
    + destruct (_ && _); [done|]. destruct (255 <? _); [done|]. by apply IH.
    + case_bool_decide; [|done]. destruct (_ || _); [done|]. case_bool_decide; [done|]. apply IH.
      rewrite length_app. cbn. lia.
Qed.

(** The number read so far has as many digits as were read. *)
Definition octet (digLen val : Z) : Prop :=
  digLen = 0 /\ val = 0 \/ digLen = 1 /\ 0 <= val <= 9 \/ digLen = 2 /\ 10 <= val <= 99 \/ digLen = 3 /\ 100 <= val <= 255.

Lemma digit_range c : is_digit c = true -> 48 <= code c <= 57.
Proof. unfold is_digit, in_range. intros H%andb_prop. destruct H. bool_to_prop. lia. Qed.

Lemma octet_digit digLen val c :
  octet digLen val -> is_digit c = true -> (digLen =? 1) && (val =? 0) = false -> val * 10 + (code c - 48) <= 255 ->
  octet (digLen + 1) (val * 10 + (code c - 48)).
Proof.
  intros Ho Hc%digit_range Hz Hv. rewrite andb_false_iff, !Z.eqb_neq in Hz. unfold octet in *.
  destruct Ho as [[-> ->]|[[-> Hr]|[[-> Hr]|[-> Hr]]]]; lia.
Qed.

Lemma ipv4_loop_first s : forall prev val digLen f,
  octet digLen val -> ipv4_loop prev s val digLen [] = Some f ->
  exists ds rest, s = ds ++ "."%char :: rest /\ forallb is_digit ds = true /\ digLen + zlen ds <= 3 /\ (prev = None -> ds <> []).
Proof.
  induction s as [|c s IH]; intros prev val digLen f Ho; cbn; [done|].
  destruct (is_digit c) eqn:Ec.
  - destruct (_ && _) eqn:Ez; [done|]. destruct (255 <? _) eqn:Ev; [done|]. bool_to_prop. intros H.
    destruct (IH _ _ _ _ (octet_digit _ _ _ Ho Ec Ez Ev) H) as (ds & rest & -> & Hd & Hl & _).
    exists (c :: ds), rest. cbn [forallb]. rewrite Ec, Hd, zlen_cons. split; [done|]. split; [done|]. split; [lia|done].
  - case_bool_decide as Hc; [|done]. destruct (_ || _) eqn:Ep; [done|]. intros _. exists [], s. subst c.
    split; [done|]. split; [done|]. unfold octet in Ho. rewrite zlen_nil. split; [lia|]. intros ->. done.
Qed.

Lemma digit_hex c : is_digit c = true -> is_Some (hex_value c).
Proof. unfold is_digit, hex_value. intros ->. by eexists. Qed.

Lemma take_hex_digits ds c rest :
  forallb is_digit ds = true -> hex_value c = None -> take_hex (ds ++ c :: rest) = ds.
Proof.
  intros Hd Hc. induction ds as [|x ds IH]; cbn; [by rewrite Hc|]. cbn in Hd. apply andb_prop in Hd as [Hx Hd].
  destruct (digit_hex x Hx) as [v ->]. by rewrite IH.
Qed.

Lemma dotted_not c s : dotted c = false -> forallb dotted s = true -> c ∉ s.
Proof.
  intros Hc Hs Hin. rewrite forallb_forall in Hs. apply list_elem_of_In, Hs in Hin. congruence.
Qed.

Lemma index_byte_absent s c : c ∉ s -> index_byte s c = None.
Proof.
  induction s as [|x s IH]; [done|]. rewrite not_elem_of_cons. intros [Hne Hin]. cbn.
  rewrite bool_decide_eq_false_2 by congruence. by rewrite IH.
Qed.

Lemma index_byte_present s c : c ∈ s -> is_Some (index_byte s c).
Proof.
  induction s as [|x s IH]; [by intros ?%elem_of_nil|]. cbn. case_bool_decide as Hx; [by eexists|].
  intros [->|Hin]%elem_of_cons; [done|]. destruct (IH Hin) as [n ->]. by eexists.
Qed.

Lemma ParseIP_v4 s f : parseIPv4Fields s = Some f -> ParseIP s = Some (v4InV6Prefix ++ f).
Proof.
  intros H. pose proof (ipv4_loop_chars _ _ _ _ _ _ H) as Hc.
  destruct (ipv4_loop_first s None 0 0 f ltac:(by left) H) as (ds & rest & Hs & _).
  unfold ParseIP. rewrite bool_decide_eq_false_2 by (by apply dotted_not).
  destruct (index_byte_present s "."%char) as [i ->]; [rewrite Hs; apply elem_of_app; right; by left|].
  rewrite (index_byte_absent s ":"%char) by (by apply dotted_not). by rewrite H.
Qed.

(** The dotted tail of an address with an ellipsis. *)
Lemma ipv6_loop_tail n s f ip e :
  parseIPv4Fields s = Some f -> (length ip + 4 <= 16)%nat ->
  ipv6_loop (S n) s ip (Some e) = Some ([], ip ++ f, Some e) /\ exists x s', s = x :: s' /\ is_digit x = true.
Proof.
  intros H Hip. destruct (ipv4_loop_first s None 0 0 f ltac:(by left) H) as (ds & rest & Hs & Hd & Hn & Hne). specialize (Hne eq_refl).
  assert (take_hex s = ds) as Ht by (rewrite Hs; by apply take_hex_digits).
  assert (drop (length ds) s = "."%char :: rest) as Hdr by (rewrite Hs; by apply drop_app_length).
  split.
  - cbn [ipv6_loop]. rewrite Ht, Hdr. rewrite (proj2 (Nat.ltb_ge 4 _)) by (unfold zlen in Hn; lia).
    rewrite (bool_decide_eq_false_2 (ds = [])) by done. cbn [orb]. rewrite bool_decide_eq_true_2 by done.
    rewrite bool_decide_eq_false_2 by done. cbn [andb]. rewrite (proj2 (Nat.ltb_ge 16 _)) by lia. by rewrite H.
  - destruct ds as [|x ds]; [done|]. exists x, (ds ++ "."%char :: rest). split; [done|].
    cbn in Hd. by apply andb_prop in Hd as [? _].
Qed.

(** One group followed by a colon and the next group. *)
Lemma ipv6_loop_group n g x s ip e :
  take_hex (g ++ ":"%char :: x :: s) = g -> (0 < length g <= 4)%nat -> x <> ":"%char ->
  ipv6_loop (S n) (g ++ ":"%char :: x :: s) ip e = ipv6_loop n (x :: s) (ip ++ be_encode 2 (hex_number g)) e.
Proof.
  intros Ht Hg Hx. cbn [ipv6_loop]. rewrite Ht, drop_app_length, (proj2 (Nat.ltb_ge 4 _)) by lia.
  rewrite (bool_decide_eq_false_2 (g = [])) by (by intros ->; cbn in Hg; lia). cbn [orb].
  rewrite bool_decide_eq_false_2, bool_decide_eq_true_2 by done. cbn [negb].
  by rewrite bool_decide_eq_false_2 by done.
Qed.

Lemma parseIPv6_mapped s f : parseIPv4Fields s = Some f -> parseIPv6 (str "::ffff:" ++ s) = Some (v4InV6Prefix ++ f).
Proof.
  intros H. pose proof (ipv4_loop_length _ _ _ _ [] _ ltac:(cbn; lia) H) as Hl.
  destruct (ipv6_loop_tail 6 s f (be_encode 2 65535) 0 H ltac:(cbn; lia)) as (Ht & x & s' & Hs & Hx).
  assert (ipv6_loop 8 (str "ffff:" ++ s) [] (Some 0%nat) = Some ([], be_encode 2 65535 ++ f, Some 0%nat)) as E.
  { rewrite <- Ht, Hs. apply (ipv6_loop_group 7 (str "ffff") x s' [] (Some 0%nat)); [done|cbn; lia|by intros ->]. }
  unfold parseIPv6. change (str "::ffff:" ++ s) with (":"%char :: ":"%char :: str "ffff:" ++ s).
  cbv beta iota. rewrite (bool_decide_eq_false_2 (str "ffff:" ++ s = [])) by done. rewrite andb_false_r, E.
  rewrite bool_decide_eq_true_2 by done. cbn [negb]. rewrite length_app, length_be_encode, Hl.
  cbn -[be_encode]. f_equal.
Qed.

Lemma ParseIP_mapped s f : parseIPv4Fields s = Some f -> ParseIP (str "::ffff:" ++ s) = Some (v4InV6Prefix ++ f).
Proof.
  intros H. pose proof (ipv4_loop_chars _ _ _ _ _ _ H) as Hc. unfold ParseIP.
  rewrite bool_decide_eq_false_2.
  2:{ rewrite not_elem_of_app. split; [by apply (bool_decide_unpack ("%"%char ∉ str "::ffff:"))|by apply dotted_not]. }
  rewrite (parseIPv6_mapped s f H). cbn. by destruct (index_byte s "."%char).
Qed.

Lemma To4_mapped f : To4 (v4InV6Prefix ++ f) = Some f.
Proof. done. Qed.
