(* ===== verification/AesGcm.v ===== *)
(** * AES-256-GCM: [crypto/aes] and [cipher.NewGCM] of the standard library

    The block cipher of FIPS 197 and the mode of NIST SP 800-38D with a
    twelve-byte nonce, a sixteen-byte tag and no additional data, as the
    browser sessions use it. *)

From S2P Require Import Prelude GoStrings Codec.

Module Aes.
(** Multiplication in GF(2^8). *)
Definition xtime (a : Z) : Z := if a <? 128 then 2 * a else Z.lxor (2 * a - 256) 27.

Fixpoint gmul (n : nat) (a b : Z) : Z :=
  match n with
  | O => 0
  | S n => Z.lxor (if Z.odd b then a else 0) (gmul n (xtime a) (b / 2))
  end.

Fixpoint gpow (a : Z) (n : nat) : Z := match n with O => 1 | S n => gmul 8 a (gpow a n) end.

Definition rotl8 (a : Z) (n : Z) : Z := (a * 2 ^ n) mod 256 + a / 2 ^ (8 - n).

(** The substitution box: the inverse in the field, then the affine map. *)
Definition sbox_at (x : Z) : Z :=
  let b := gpow x 254 in
  Z.lxor 99 (Z.lxor b (Z.lxor (rotl8 b 1) (Z.lxor (rotl8 b 2) (Z.lxor (rotl8 b 3) (rotl8 b 4))))).

Definition sbox_table : list Z := Eval vm_compute in sbox_at ∘ Z.of_nat <$> seq 0 256.

Definition sub (x : Z) : Z := nth (Z.to_nat x) sbox_table 0.

Definition xor : list Z -> list Z -> list Z := zip_with Z.lxor.

(** The key schedule: the sixty words, the latest first. *)
Definition next_word (i : nat) (ws : list (list Z)) : list Z :=
  let temp := nth 0 ws [] in
  let temp :=
    if (i mod 8 =? 0)%nat then
      xor (sub <$> (drop 1 temp ++ take 1 temp)) [gpow 2 (i / 8 - 1); 0; 0; 0]
    else if (i mod 8 =? 4)%nat then sub <$> temp
    else temp in
  xor (nth 7 ws []) temp.

Fixpoint chunks (n : nat) (k : nat) (s : list Z) : list (list Z) :=
  match n with O => [] | S n => take k s :: chunks n k (drop k s) end.

Definition schedule (key : list Z) : list (list Z) :=
  let ws := fold_left (λ ws i, next_word i ws :: ws) (seq 8 52) (reverse (chunks 8 4 key)) in
  chunks 15 16 (concat (reverse ws)).

Definition shift_rows (s : list Z) : list Z :=
  (λ j, nth ((j + 4 * (j mod 4)) mod 16)%nat s 0) <$> seq 0 16.

Definition mix_column (a : list Z) : list Z :=
  (λ i, let at_ j := nth ((i + j) mod 4)%nat a 0 in
    Z.lxor (xtime (at_ 0%nat)) (Z.lxor (Z.lxor (xtime (at_ 1%nat)) (at_ 1%nat)) (Z.lxor (at_ 2%nat) (at_ 3%nat)))) <$> seq 0 4.

Definition mix_columns (s : list Z) : list Z := concat (mix_column <$> chunks 4 4 s).

Fixpoint rounds (ks : list (list Z)) (s : list Z) : list Z :=
  match ks with
  | [] => s
  | [k] => xor (shift_rows (sub <$> s)) k
  | k :: ks => rounds ks (xor (mix_columns (shift_rows (sub <$> s))) k)
  end.

Definition encrypt (key block : bytes) : bytes :=
  match schedule (code <$> key) with
  | k0 :: ks => byte_of <$> rounds ks (xor (code <$> block) k0)
  | [] => []
  end.
End Aes.

(** ** The mode, over any block cipher *)

Module Gcm.
Section Mode.
Context (E : bytes -> bytes).

(** Multiplication in GF(2^128), bit 0 the most significant. *)
Fixpoint gf_mul (n : nat) (x v z : Z) : Z :=
  match n with
  | O => z
  | S n =>
    let z := if Z.testbit x (Z.of_nat n) then Z.lxor z v else z in
    gf_mul n x (if Z.odd v then Z.lxor (v / 2) (225 * 2 ^ 120) else v / 2) z
  end.

Fixpoint blocks (fuel : nat) (s : bytes) : list bytes :=
  match fuel, s with
  | S fuel, _ :: _ => take 16 s :: blocks fuel (drop 16 s)
  | _, _ => []
  end.

Definition padded (s : bytes) : bytes := s ++ replicate (16 - length s) (byte_of 0).

Definition ghash (s : bytes) : Z :=
  let h := be_decode (E (replicate 16 (byte_of 0))) in
  let bs := (λ b, be_decode (padded b)) <$> blocks (length s) s in
  fold_left (λ y b, gf_mul 128 (Z.lxor y b) h 0) (bs ++ [8 * zlen s]) 0.

(** The key stream from counter value [i] on. *)
Fixpoint stream (n : nat) (nonce : bytes) (i : Z) : bytes :=
  match n with
  | O => []
  | S n => E (nonce ++ be_encode 4 i) ++ stream n nonce (i + 1)
  end.

Definition xor_bytes : bytes -> bytes -> bytes := zip_with (λ a b, byte_of (Z.lxor (code a) (code b))).

Definition crypt (nonce s : bytes) : bytes := xor_bytes s (stream (S (length s / 16)) nonce 2).

Definition tag (nonce ciphertext : bytes) : bytes :=
  xor_bytes (be_encode 16 (ghash ciphertext)) (E (nonce ++ be_encode 4 1)).

(** [aead.Seal(dst, nonce, plaintext, nil)] *)
Definition Seal (dst nonce plaintext : bytes) : bytes :=
  let c := crypt nonce plaintext in dst ++ c ++ tag nonce c.

(** [aead.Open(nil, nonce, ciphertext, nil)] *)
Definition Open (nonce sealed : bytes) : option bytes :=
  if (length sealed <? 16)%nat then None
  else
    let c := take (length sealed - 16) sealed in
    if bool_decide (drop (length sealed - 16) sealed = tag nonce c) then Some (crypt nonce c) else None.
End Mode.

Definition NonceSize : nat := 12.
Definition Overhead : nat := 16.
End Gcm.

(** The vectors of FIPS 197, appendix C.3, and of the GCM specification,
    test cases 13 and 14. *)
Example aes_256_fips197 :
  Aes.encrypt (byte_of ∘ Z.of_nat <$> seq 0 32) (default [] (hex_decode (str "00112233445566778899aabbccddeeff"))) =
  default [] (hex_decode (str "8ea2b7ca516745bfeafc49904b496089")).
Proof. vm_compute. reflexivity. Qed.

Example gcm_case_13 :
  Gcm.Seal (Aes.encrypt (replicate 32 (byte_of 0))) [] (replicate 12 (byte_of 0)) [] =
  default [] (hex_decode (str "530f8afbc74536b9a963b4f1c4cb738b")).
Proof. vm_compute. reflexivity. Qed.

Example gcm_case_14 :
  Gcm.Seal (Aes.encrypt (replicate 32 (byte_of 0))) [] (replicate 12 (byte_of 0)) (replicate 16 (byte_of 0)) =
  default [] (hex_decode (str "cea7403d4d606b6e074ec5d3baf39d18d0d1c8a799996bf0265b98b5d48ab919")).
Proof. vm_compute. reflexivity. Qed.

(** ** Block length *)

Module AesFacts.
Import Aes.

Lemma length_xor a b : length (xor a b) = Nat.min (length a) (length b).
Proof. apply length_zip_with. Qed.

Lemma Forall_chunks (P : list Z -> Prop) n k s :
  (forall c, length c = k -> P c) -> (n * k <= length s)%nat -> Forall P (chunks n k s) /\ length (chunks n k s) = n.
Proof.
  intros HP. revert s. induction n as [|n IH]; intros s Hs; [by split; [constructor|]|]. cbn [chunks].
  destruct (IH (drop k s)) as [H1 H2]; [rewrite length_drop; lia|].
  split; [|cbn; lia]. constructor; [|done]. apply HP. rewrite length_take. lia.
Qed.

(** Every word of the schedule has four bytes. *)
Definition words_ok (ws : list (list Z)) : Prop := Forall (λ w, length w = 4%nat) ws /\ (8 <= length ws)%nat.

Lemma nth_word ws i : words_ok ws -> (i < 8)%nat -> length (nth i ws []) = 4%nat.
Proof.
  intros [Hf Hl] Hi. rewrite Forall_forall in Hf. apply Hf, list_elem_of_In, nth_In. lia.
Qed.

Lemma next_word_ok i ws : words_ok ws -> words_ok (next_word i ws :: ws).
Proof.
  intros Hw. pose proof (nth_word ws 0 Hw ltac:(lia)) as H0. pose proof (nth_word ws 7 Hw ltac:(lia)) as H7.
  destruct Hw as [Hf Hl]. split; [|cbn; lia]. constructor; [|done]. unfold next_word. rewrite length_xor, H7.
  destruct (i mod 8 =? 0)%nat; [|destruct (i mod 8 =? 4)%nat; rewrite ?length_fmap, H0; done].
  rewrite length_xor, length_fmap, length_app, length_drop, length_take, H0. done.
Qed.

Lemma schedule_words l ws : words_ok ws ->
  words_ok (fold_left (λ ws i, next_word i ws :: ws) l ws) /\
  length (fold_left (λ ws i, next_word i ws :: ws) l ws) = (length ws + length l)%nat.
Proof.
  revert ws. induction l as [|i l IH]; intros ws Hw; cbn [fold_left length]; [rewrite Nat.add_0_r; by split|].
  destruct (IH _ (next_word_ok i ws Hw)) as [H1 H2]. split; [done|]. rewrite H2. cbn. lia.
Qed.

Lemma length_concat_words ws : Forall (λ w : list Z, length w = 4%nat) ws -> length (concat ws) = (4 * length ws)%nat.
Proof. induction 1; cbn; [done|]. rewrite length_app. lia. Qed.

Lemma schedule_ok key :
  length key = 32%nat -> Forall (λ k, length k = 16%nat) (schedule key) /\ length (schedule key) = 15%nat.
Proof.
  intros Hk. unfold schedule. apply Forall_chunks; [done|].
  destruct (Forall_chunks (λ w, length w = 4%nat) 8 4 key ltac:(done) ltac:(lia)) as [H1 H2].
  destruct (schedule_words (seq 8 52) (reverse (chunks 8 4 key))) as [[H3 _] H4].
  { split; [by apply Forall_reverse|]. rewrite length_reverse. lia. }
  rewrite length_concat_words by (by apply Forall_reverse). rewrite length_reverse, H4, length_reverse, H2, length_seq. lia.
Qed.

Lemma length_mix_columns s : length (mix_columns s) = 16%nat.
Proof. reflexivity. Qed.

Lemma length_rounds ks s : Forall (λ k, length k = 16%nat) ks -> length s = 16%nat -> length (rounds ks s) = 16%nat.
Proof.
  intros Hk. revert s. induction Hk as [|k ks Hk Hks IH]; intros s Hs; [done|]. cbn [rounds].
  destruct ks; [by rewrite length_xor, Hk|]. apply IH. by rewrite length_xor, length_mix_columns, Hk.
Qed.

Lemma length_encrypt key block : length key = 32%nat -> length block = 16%nat -> length (encrypt key block) = 16%nat.
Proof.
  intros Hk Hb. unfold encrypt. destruct (schedule_ok (code <$> key)) as [H1 H2]; [by rewrite length_fmap|].
  destruct (schedule _) as [|k0 ks]; [done|]. apply Forall_cons in H1 as [H0 H1].
  rewrite length_fmap. apply length_rounds; [done|]. by rewrite length_xor, length_fmap, Hb, H0.
Qed.
End AesFacts.

(** ** Opening what was sealed *)

Module GcmFacts.
Import Gcm.
Section Facts.
Context (E : bytes -> bytes) (HE : forall b, length b = 16%nat -> length (E b) = 16%nat).

Lemma length_stream n nonce i : length nonce = 12%nat -> length (stream E n nonce i) = (16 * n)%nat.
Proof.
  intros Hn. revert i. induction n as [|n IH]; intros i; [done|]. cbn [stream].
  rewrite length_app, IH, HE by (by rewrite length_app, length_be_encode, Hn). lia.
Qed.

Lemma log2_byte x : Z.log2 (code x) < 8.
Proof.
  pose proof (code_range x). destruct (Z.eq_dec (code x) 0) as [Hx|]; [by rewrite Hx|]. apply Z.log2_lt_pow2; lia.
Qed.

Lemma xor_bytes_twice a k : (length a <= length k)%nat -> xor_bytes (xor_bytes a k) k = a.
Proof.
  revert k. induction a as [|x a IH]; intros [|y k] Hl; try done; [cbn in Hl; lia|]. cbn [xor_bytes zip_with].
  f_equal; [|apply IH; cbn in Hl; lia].
  rewrite code_byte_of, Z.mod_small, Z.lxor_assoc, Z.lxor_nilpotent, Z.lxor_0_r; [apply byte_of_code|].
  pose proof (code_range x). pose proof (code_range y). split; [apply Z.lxor_nonneg; lia|].
  apply (Z.log2_lt_cancel _ 256). change (Z.log2 256) with 8.
  eapply Z.le_lt_trans; [apply Z.log2_lxor; lia|]. apply Z.max_lub_lt; apply log2_byte.
Qed.

Lemma stream_enough (nonce s : bytes) : length nonce = 12%nat -> (length s <= length (stream E (S (length s / 16)) nonce 2))%nat.
Proof.
  intros Hn. rewrite length_stream by done. pose proof (Nat.div_mod_eq (length s) 16).
  pose proof (Nat.mod_upper_bound (length s) 16 ltac:(lia)). lia.
Qed.

Lemma length_crypt nonce s : length nonce = 12%nat -> length (crypt E nonce s) = length s.
Proof.
  intros Hn. unfold crypt, xor_bytes. rewrite length_zip_with. pose proof (stream_enough nonce s Hn). lia.
Qed.

Lemma crypt_twice nonce s : length nonce = 12%nat -> crypt E nonce (crypt E nonce s) = s.
Proof.
  intros Hn. unfold crypt at 1. rewrite length_crypt by done. apply xor_bytes_twice. by apply stream_enough.
Qed.

Lemma length_tag nonce c : length nonce = 12%nat -> length (tag E nonce c) = 16%nat.
Proof.
  intros Hn. unfold tag, xor_bytes. rewrite length_zip_with, length_be_encode, HE; [done|].
  by rewrite length_app, length_be_encode, Hn.
Qed.

Lemma Open_Seal nonce plaintext : length nonce = 12%nat -> Open E nonce (Seal E [] nonce plaintext) = Some plaintext.
Proof.
  intros Hn. unfold Open, Seal. rewrite app_nil_l.
  pose proof (length_tag nonce (crypt E nonce plaintext) Hn) as Ht. rewrite length_app, Ht.
  rewrite (proj2 (Nat.ltb_ge _ _)) by lia. rewrite Nat.add_sub, take_app_length, drop_app_length.
  by rewrite bool_decide_eq_true_2, crypt_twice by done.
Qed.

(** What opens is the sealing of what it opens to. *)
Lemma Open_inv nonce sealed plaintext :
  length nonce = 12%nat -> Open E nonce sealed = Some plaintext -> sealed = Seal E [] nonce plaintext.
Proof.
  intros Hn. unfold Open, Seal. destruct (length sealed <? 16)%nat; [done|]. case_bool_decide as Ht; [|done].
  intros [= <-]. rewrite app_nil_l, crypt_twice by done. rewrite <- Ht. symmetry. apply take_drop.
Qed.
End Facts.
End GcmFacts.
