(* ===== verification/FileSystem.v ===== *)
(** * The file system the content store runs on

    A tree of directories and hard links to inodes, with what an [fsync] has
    made durable kept apart from what is merely visible, and the system calls
    of [os] and [golang.org/x/sys/unix] the program issues on it.  Every call
    may fail: [d_oracle] lists the outcome of the coming calls (an exhausted
    list means success), so a theorem for every disk is one for every
    sequence of failures.  [io.Reader], [io.LimitReader] and [io.CopyBuffer]
    are here as well. *)

From S2P Require Import Prelude GoStrings Errors.

(** ** Paths

    A clean absolute path is the list of its components, leaf first: joining
    is consing and [filepath.Dir] is the tail. *)

Abbreviation path := (list bytes).

Definition dir (p : path) : path := tail p.

Fixpoint strip_common (a b : list bytes) : list bytes * list bytes :=
  match a, b with
  | x :: a', y :: b' => if bool_decide (x = y) then strip_common a' b' else (a, b)
  | _, _ => (a, b)
  end.

(** [filepath.Rel(root, p)] as its components; the empty list is ["."]. *)
Definition Rel (root p : path) : list bytes :=
  let '(up, down) := strip_common (reverse root) (reverse p) in
  replicate (length up) (str "..") ++ down.

(** ** The disk *)

Record file := File {
  f_data : bytes;
  f_synced : bool;     (* the bytes have been fsynced since the last write *)
  f_mtime : Z
}.

Inductive node : Type :=
| NFile (inode : nat)
| NDir.

#[global] Instance node_eq_dec : EqDecision node.
Proof. solve_decision. Defined.

Record disk := Disk {
  d_inodes : gmap nat file;
  d_tree : gmap path node;       (* the directory entries processes see *)
  d_durable : gmap path node;    (* the directory entries on the medium *)
  d_next : nat;                  (* next inode number and temporary name *)
  d_clock : Z;
  d_statfs : Z * Z;              (* block size and available blocks *)
  d_oracle : list (option goerr)
}.

Definition set_inodes (d : disk) (m : gmap nat file) : disk :=
  Disk m (d_tree d) (d_durable d) (d_next d) (d_clock d) (d_statfs d) (d_oracle d).
Definition set_tree (d : disk) (t : gmap path node) : disk :=
  Disk (d_inodes d) t (d_durable d) (d_next d) (d_clock d) (d_statfs d) (d_oracle d).
Definition set_durable (d : disk) (t : gmap path node) : disk :=
  Disk (d_inodes d) (d_tree d) t (d_next d) (d_clock d) (d_statfs d) (d_oracle d).
Definition set_oracle (d : disk) (l : list (option goerr)) : disk :=
  Disk (d_inodes d) (d_tree d) (d_durable d) (d_next d) (d_clock d) (d_statfs d) l.

(** ** Effects: a disk computation may fail. *)

Definition IO (A : Type) : Type := disk -> disk * res A.

Definition ret {A} (a : A) : IO A := λ d, (d, Ok a).
Definition throw {A} (e : goerr) : IO A := λ d, (d, Err e).
Definition bind {A B} (m : IO A) (k : A -> IO B) : IO B := λ d,
  match m d with
  | (d', Ok a) => k a d'
  | (d', Err e) => (d', Err e)
  end.
(** [return ..., f(err)] *)
Definition wrap {A} (f : goerr -> goerr) (m : IO A) : IO A := λ d,
  match m d with
  | (d', Ok a) => (d', Ok a)
  | (d', Err e) => (d', Err (f e))
  end.
(** [_ = f()] *)
Definition ignore {A} (m : IO A) : IO unit := λ d, ((m d).1, Ok tt).

Notation "x <- m ;; k" := (bind m (λ x, k))
  (at level 100, m at next level, right associativity, only parsing) : mailwisp_scope.
Notation "m ;;; k" := (bind m (λ _, k)) (at level 100, right associativity, only parsing) : mailwisp_scope.
Open Scope mailwisp_scope.

(** The environment's verdict on one system call, or on [ctx.Err()]. *)
Definition attempt : IO unit := λ d,
  match d_oracle d with
  | [] => (d, Ok tt)
  | None :: l => (set_oracle d l, Ok tt)
  | Some e :: l => (set_oracle d l, Err e)
  end.

(** [ctx.Err()] is one of two errors. *)
Definition ctx_err : IO unit :=
  wrap (λ e, if bool_decide (e = ESentinel DeadlineExceeded) then e else ESentinel ContextCanceled) attempt.

Definition is_dir (d : disk) (p : path) : bool := bool_decide (d_tree d !! p = Some NDir).

(** The bytes of the file at [p]. *)
Definition read_at (d : disk) (p : path) : option bytes :=
  match d_tree d !! p with
  | Some (NFile i) => f_data <$> d_inodes d !! i
  | _ => None
  end.

(** [os.CreateTemp(dir, pre + "*" + post)]: a new empty file under an unused
    name, opened exclusively; its name and its inode. *)
Definition create_temp (at_dir : path) (pre post : bytes) : IO (path * nat) :=
  attempt ;;; λ d,
    let p := (pre ++ format_int (Z.of_nat (d_next d)) ++ post) :: at_dir in
    if negb (is_dir d at_dir) then (d, Err (ESentinel OsErrNotExist))
    else match d_tree d !! p with
    | Some _ => (d, Err (ESentinel OsErrExist))
    | None =>
      (Disk (<[d_next d := File [] false (d_clock d)]> (d_inodes d)) (<[p := NFile (d_next d)]> (d_tree d))
         (d_durable d) (S (d_next d)) (d_clock d) (d_statfs d) (d_oracle d),
       Ok (p, d_next d))
    end.

(** [File.Write] appends, [File.Sync] makes the bytes durable. *)
Definition write_file (i : nat) (data : bytes) : IO unit :=
  attempt ;;; λ d,
    (set_inodes d (alter (λ f, File (f_data f ++ data) false (d_clock d)) i (d_inodes d)), Ok tt).

Definition sync_file (i : nat) : IO unit :=
  attempt ;;; λ d,
    (set_inodes d (alter (λ f, File (f_data f) true (f_mtime f)) i (d_inodes d)), Ok tt).

Definition close_file : IO unit := attempt.
Definition chmod_file : IO unit := attempt.

(** [os.MkdirAll]: create the missing ancestors, root first. *)
Fixpoint mkdir_tree (p : path) (t : gmap path node) : option (gmap path node) :=
  match (match p with [] => Some t | _ :: parent => mkdir_tree parent t end) with
  | None => None
  | Some t' =>
    match t' !! p with
    | Some (NFile _) => None
    | Some NDir => Some t'
    | None => Some (<[p := NDir]> t')
    end
  end.

Definition mkdir_all (p : path) : IO unit :=
  attempt ;;; λ d,
    match mkdir_tree p (d_tree d) with
    | Some t => (set_tree d t, Ok tt)
    | None => (d, Err (ENew "not a directory"))
    end.

(** [Sync] of a directory: its entries on the medium become the visible ones. *)
Definition entry_of (p : path) (kv : path * node) : Prop := kv.1 <> [] /\ dir kv.1 = p.

Definition sync_entries (p : path) (t durable : gmap path node) : gmap path node :=
  filter (entry_of p) t ∪ filter (λ kv, ~ entry_of p kv) durable.

Definition sync_dir (p : path) : IO unit :=
  attempt ;;; λ d,
    if is_dir d p then (set_durable d (sync_entries p (d_tree d) (d_durable d)), Ok tt)
    else (d, Err (ESentinel OsErrNotExist)).

(** [os.Link(src, dst)] *)
Definition link (src dst : path) : IO unit :=
  attempt ;;; λ d,
    match d_tree d !! src with
    | None => (d, Err (ESentinel OsErrNotExist))
    | Some n =>
      if negb (is_dir d (dir dst)) then (d, Err (ESentinel OsErrNotExist))
      else match d_tree d !! dst with
      | Some _ => (d, Err (ESentinel OsErrExist))
      | None => (set_tree d (<[dst := n]> (d_tree d)), Ok tt)
      end
    end.

(** [os.Remove] of a file. *)
Definition remove (p : path) : IO unit :=
  attempt ;;; λ d,
    match d_tree d !! p with
    | None => (d, Err (ESentinel OsErrNotExist))
    | Some NDir => (d, Err (ENew "directory not empty"))
    | Some (NFile _) => (set_tree d (delete p (d_tree d)), Ok tt)
    end.

(** [os.Stat] *)
Definition stat (p : path) : IO node :=
  attempt ;;; λ d,
    match d_tree d !! p with
    | None => (d, Err (ESentinel OsErrNotExist))
    | Some n => (d, Ok n)
    end.

(** The size and modification time [Stat] reports of a file. *)
Definition file_of (d : disk) (n : node) : file :=
  match n with
  | NFile i => default (File [] false 0) (d_inodes d !! i)
  | NDir => File [] false 0
  end.

(** [os.Open] for reading; the handle keeps the inode whatever happens to the
    name afterwards. *)
Definition open_file (p : path) : IO nat :=
  attempt ;;; λ d,
    match d_tree d !! p with
    | Some (NFile i) => (d, Ok i)
    | Some NDir => (d, Err (ENew "is a directory"))
    | None => (d, Err (ESentinel OsErrNotExist))
    end.

(** Lexical order of names, the order of [os.ReadDir]. *)
Fixpoint bytes_leb (a b : bytes) : bool :=
  match a, b with
  | [], _ => true
  | _ :: _, [] => false
  | x :: a', y :: b' => (code x <? code y) || ((code x =? code y) && bytes_leb a' b')
  end.

Definition entry_le (a b : bytes * node) : Prop := bytes_leb a.1 b.1 = true.

#[global] Instance entry_le_dec a b : Decision (entry_le a b).
Proof. unfold entry_le. apply _. Defined.

Definition entries (d : disk) (p : path) : list (bytes * node) :=
  merge_sort entry_le
    (omap (λ kv : path * node,
       match kv.1 with
       | name :: parent => if bool_decide (parent = p) then Some (name, kv.2) else None
       | [] => None
       end) (map_to_list (d_tree d))).

Definition read_dir (p : path) : IO (list (bytes * node)) :=
  attempt ;;; λ d,
    if is_dir d p then (d, Ok (entries d p)) else (d, Err (ESentinel OsErrNotExist)).

(** ** Power failure

    Every directory entry is the durable or the visible one; the bytes of an
    inode that was not synced are anything. *)
Definition crash (d d' : disk) : Prop :=
  (forall p, d_tree d' !! p = d_tree d !! p \/ d_tree d' !! p = d_durable d !! p) /\
  (forall i f, d_inodes d !! i = Some f -> f_synced f = true ->
     exists f', d_inodes d' !! i = Some f' /\ f_data f' = f_data f).

(** ** Readers *)

Class Reader (R : Type) := {
  rd_read : R -> nat -> R * bytes * option goerr;
  (** a bound on the reads that still succeed *)
  rd_fuel : R -> nat
}.

(** The [io.Reader] contract the copy loops rely on: at most [n] bytes, and
    progress towards an error or the end. *)
Class ReaderSpec (R : Type) `{Reader R} : Prop := {
  rd_bound : forall r n r' out e, rd_read r n = (r', out, e) -> (length out <= n)%nat;
  rd_progress : forall r n r' out, (0 < n)%nat -> rd_read r n = (r', out, None) ->
    (rd_fuel r' < rd_fuel r)%nat
}.

(** A reader over bytes in memory ([bytes.Reader], an open file). *)
#[global] Instance bytes_reader : Reader bytes := {
  rd_read s n := match s with [] => ([], [], Some (ESentinel IoEOF)) | _ => (drop n s, take n s, None) end;
  rd_fuel s := length s
}.

#[global] Instance bytes_reader_spec : ReaderSpec bytes.
Proof.
  split.
  - intros [|c s] n r' out e; cbn [rd_read bytes_reader]; intros [= <- <- <-]; [cbn; lia|].
    rewrite length_take. lia.
  - intros [|c s] n r' out Hn; cbn [rd_read rd_fuel bytes_reader]; [done|]. intros [= <- <-].
    rewrite length_drop. cbn. lia.
Qed.
