(* ===== verification/Json.v ===== *)
(** * JSON: [encoding/json] as the HTTP API uses it

    Values, the encoder's text with its escapes, the objects of Go maps
    (sorted by key) and structs (in order), and the calendar behind the
    textual times of one of the compatibility APIs. *)

From S2P Require Import Prelude GoStrings Errors Codec FileSystem.

(** ** Values *)

(** A [time.Time] is a value of its own: its text depends on its location. *)
#[local] Unset Elimination Schemes.
Inductive json : Type :=
| JNull
| JBool (b : bool)
| JInt (z : Z)
| JString (s : bytes)
| JTime (t : Z)
| JArray (l : list json)
| JObject (fields : list (bytes * json)).
#[local] Set Elimination Schemes.

(** A field of a struct, with the tag [omitempty] when [present] is false. *)
Definition field (name : string) (v : json) : bytes * json := (str name, v).
Definition optional (present : bool) (name : string) (v : json) : list (bytes * json) := if present then [field name v] else [].

(** ** Maps *)

Definition key_before (a b : bytes * json) : Prop := bytes_leb a.1 b.1 = true.

#[global] Instance key_before_dec a b : Decision (key_before a b).
Proof. unfold key_before. apply _. Defined.

(** A Go map with string keys; the encoder sorts them. *)
Definition jmap (fields : list (bytes * json)) : json := JObject (merge_sort key_before fields).

(** [m[key] = value] *)
Definition jset (name : string) (v : json) (fields : list (bytes * json)) : list (bytes * json) :=
  filter (λ f : bytes * json, f.1 <> str name) fields ++ [field name v].

(** ** Text *)

(** The replacement character, which is put for ill-formed bytes. *)
Definition replacement : bytes := [byte_of 239; byte_of 191; byte_of 189].

(** What a reader of the text gets for a string. *)
Definition json_text (s : bytes) : bytes := concat ((λ g, if seg_valid g then seg_raw g else replacement) <$> runes s).

Definition quote : ascii := byte_of 34.
Definition backslash : ascii := byte_of 92.

Definition unicode_escape (r : Z) : bytes :=
  backslash :: "u"%char :: [hex_char (r / 4096 mod 16); hex_char (r / 256 mod 16); hex_char (r / 16 mod 16); hex_char (r mod 16)].

(** [htmlSafeSet] *)
Definition html_safe (c : ascii) : bool :=
  (32 <=? code c) && negb (code c =? 34) && negb (code c =? 92) && negb (code c =? 60) && negb (code c =? 62) && negb (code c =? 38).

(** The character behind a backslash. *)
Definition short_escape (c : ascii) : option ascii :=
  if (code c =? 34) || (code c =? 92) then Some c
  else if code c =? 8 then Some "b"%char else if code c =? 12 then Some "f"%char else if code c =? 10 then Some "n"%char
  else if code c =? 13 then Some "r"%char else if code c =? 9 then Some "t"%char else None.

Definition escape_byte (c : ascii) : bytes :=
  if html_safe c then [c]
  else match short_escape c with Some e => [backslash; e] | None => unicode_escape (code c) end.

Definition escape_seg (g : seg) : bytes :=
  if negb (seg_valid g) then unicode_escape rune_error
  else match seg_raw g with
  | [c] => escape_byte c
  | raw => if (seg_rune g =? 8232) || (seg_rune g =? 8233) then unicode_escape (seg_rune g) else raw
  end.

(** [appendString] between its quotes, with HTML escapes. *)
Definition escape (s : bytes) : bytes := concat (escape_seg <$> runes s).
Definition json_string (s : bytes) : bytes := quote :: escape s ++ [quote].

Fixpoint separated (l : list bytes) : bytes :=
  match l with [] => [] | [x] => x | x :: l => x ++ str "," ++ separated l end.

(** The text of a value; [time_text] is [Time.MarshalJSON]. *)
Fixpoint encode (time_text : Z -> bytes) (j : json) : bytes :=
  match j with
  | JNull => str "null"
  | JBool b => if b then str "true" else str "false"
  | JInt z => format_int z
  | JString s => json_string s
  | JTime t => time_text t
  | JArray l => str "[" ++ separated (map (encode time_text) l) ++ str "]"
  | JObject l => str "{" ++ separated (map (λ f, json_string f.1 ++ str ":" ++ encode time_text f.2) l) ++ str "}"
  end.

(** [Encoder.Encode] writes the value and a newline in one call. *)
Definition encoder_text (time_text : Z -> bytes) (j : json) : bytes := encode time_text j ++ [byte_of 10].

(** ** Reading strings back *)

(** UTF-8 of a rune up to 0xFFFF. *)
Definition rune_bytes (r : Z) : bytes :=
  if r <? 128 then [byte_of r]
  else if r <? 2048 then [byte_of (192 + r / 64); byte_of (128 + r mod 64)]
  else [byte_of (224 + r / 4096); byte_of (128 + r / 64 mod 64); byte_of (128 + r mod 64)].

Definition short_meaning (c : ascii) : option ascii :=
  if (code c =? 34) || (code c =? 92) || (code c =? 47) then Some c
  else if code c =? 98 then Some (byte_of 8) else if code c =? 102 then Some (byte_of 12) else if code c =? 110 then Some (byte_of 10)
  else if code c =? 114 then Some (byte_of 13) else if code c =? 116 then Some (byte_of 9) else None.

(** What the text between the quotes means by the grammar of JSON (escapes of
    surrogates, which the encoder never writes, are refused). *)
Fixpoint unescape (s : bytes) : option bytes :=
  match s with
  | [] => Some []
  | x :: s1 =>
    if (code x =? 34) || (code x <? 32) then None
    else if negb (code x =? 92) then cons x <$> unescape s1
    else match s1 with
    | [] => None
    | y :: s2 =>
      if negb (code y =? 117) then match short_meaning y with Some z => cons z <$> unescape s2 | None => None end
      else match s2 with
      | a :: b :: c :: d :: s3 =>
        match hex_value a, hex_value b, hex_value c, hex_value d with
        | Some a, Some b, Some c, Some d =>
          let r := ((a * 16 + b) * 16 + c) * 16 + d in
          if (55296 <=? r) && (r <=? 57343) then None else app (rune_bytes r) <$> unescape s3
        | _, _, _, _ => None
        end
      | _ => None
      end
    end
  end.

Lemma unescape_unicode r t :
  0 <= r < 65536 -> (55296 <=? r) && (r <=? 57343) = false ->
  unescape (unicode_escape r ++ t) = app (rune_bytes r) <$> unescape t.
Proof.
  intros Hr Hs. unfold unicode_escape. cbn [app unescape]. change (code backslash) with 92. cbn [Z.eqb Z.ltb Z.compare Pos.eqb Pos.compare Pos.compare_cont orb negb].
  change (code "u"%char =? 117) with true. cbn [negb]. rewrite !hex_value_char by div_mod_lia.
  replace (((r / 4096 mod 16 * 16 + r / 256 mod 16) * 16 + r / 16 mod 16) * 16 + r mod 16) with r by div_mod_lia.
  by rewrite Hs.
Qed.

Lemma rune_bytes_small c : (code c <? 128) = true -> rune_bytes (code c) = [c].
Proof. intros H. unfold rune_bytes. rewrite H. by rewrite byte_of_code. Qed.

Lemma rune_bytes_three a b c : utf8_three a b c = true -> rune_bytes (rune3 a b c) = [a; b; c].
Proof.
  intros H. pose proof (rune3_big _ _ _ H). unfold utf8_three, cont, in_range in H. unfold rune_bytes.
  rewrite !andb_true_iff, !orb_true_iff, !andb_true_iff, !Z.leb_le, !Z.eqb_eq in H.
  assert (2048 <= rune3 a b c) as Hbig by (unfold rune3; lia).
  rewrite !(proj2 (Z.ltb_ge _ _)) by lia. unfold rune3. repeat f_equal; apply code_inj; rewrite code_byte_of; div_mod_lia.
Qed.

Lemma short_escape_meaning c e : short_escape c = Some e -> (code e =? 117) = false /\ short_meaning e = Some c.
Proof.
  assert (match short_escape c with Some e => negb (code e =? 117) && bool_decide (short_meaning e = Some c) | None => true end = true) as Hx
    by byte_check (λ c, match short_escape c with Some e => negb (code e =? 117) && bool_decide (short_meaning e = Some c) | None => true end) c.
  intros Es. rewrite Es in Hx. apply andb_true_iff in Hx as [?%negb_true_iff ?%bool_decide_eq_true]. done.
Qed.

Lemma unescape_byte c t : (code c <? 128) = true -> unescape (escape_byte c ++ t) = cons c <$> unescape t.
Proof.
  intros Hc. unfold escape_byte. destruct (html_safe c) eqn:Eh.
  - unfold html_safe in Eh. rewrite !andb_true_iff, !negb_true_iff, Z.leb_le in Eh. destruct Eh as [[[[[H1 H2] H3] _] _] _].
    cbn [app unescape]. rewrite H2, H3. cbn [orb negb]. by rewrite (proj2 (Z.ltb_ge _ _) H1).
  - destruct (short_escape c) as [e|] eqn:Es; [|rewrite unescape_unicode; [by rewrite rune_bytes_small|pose proof (code_range c); lia|lia]].
    apply short_escape_meaning in Es as [H1 H2]. cbn [app unescape]. change (code backslash) with 92.
    cbn [Z.eqb Z.ltb Z.compare Pos.eqb Pos.compare Pos.compare_cont orb negb]. by rewrite H1, H2.
Qed.

Lemma unescape_high s t : forallb (λ c, 128 <=? code c) s = true -> unescape (s ++ t) = app s <$> unescape t.
Proof.
  induction s as [|c s IH]; [by cbn; destruct (unescape t)|]. cbn [forallb app unescape]. intros [Hc Hs]%andb_true_iff. apply Z.leb_le in Hc.
  rewrite (proj2 (Z.eqb_neq _ 34)), (proj2 (Z.eqb_neq _ 92)), (proj2 (Z.ltb_ge _ _)) by lia. cbn [orb negb]. rewrite IH by done.
  by destruct (unescape t).
Qed.

(** The reader's bytes for one rune. *)
Definition seg_text (g : seg) : bytes := if seg_valid g then seg_raw g else replacement.

Lemma unescape_seg s g t : g ∈ runes s -> unescape (escape_seg g ++ t) = app (seg_text g) <$> unescape t.
Proof.
  runes_ind s IH; cbn -[runes]; [by intros ?%not_elem_of_nil|..];
    (intros [->|Hg]%elem_of_cons; [|by (eapply IH; [|exact Hg]; cbn; lia)]);
    unfold escape_seg, seg_text; cbn -[unicode_escape]; try (by rewrite unescape_unicode by (unfold rune_error; lia)).
  - by apply unescape_byte.
  - unfold utf8_two, cont, in_range, rune2 in *. rewrite !andb_true_iff, !Z.leb_le in *.
    rewrite !(proj2 (Z.eqb_neq _ _)) by lia. cbn [orb]. apply (unescape_high [a; a0]). cbn. rewrite !(proj2 (Z.leb_le _ _)) by lia. done.
  - destruct (_ || _) eqn:Er.
    + rewrite orb_true_iff, !Z.eqb_eq in Er. rewrite unescape_unicode by lia. by rewrite rune_bytes_three.
    + apply (unescape_high [a; a0; a1]). unfold utf8_three, cont, in_range in *.
      match goal with Hx : _ && _ = true |- _ => rewrite !andb_true_iff, !orb_true_iff, !andb_true_iff, !Z.leb_le, !Z.eqb_eq in Hx end.
      cbn. rewrite !(proj2 (Z.leb_le _ _)) by lia. done.
  - match goal with Hx : utf8_four _ _ _ _ = true |- _ =>
      unfold utf8_four, cont, in_range in Hx; rewrite !andb_true_iff, !orb_true_iff, !andb_true_iff, !Z.leb_le, !Z.eqb_eq in Hx end.
    rewrite !(proj2 (Z.eqb_neq _ _)) by (unfold rune4; lia). cbn [orb]. apply (unescape_high [a; a0; a1; a2]).
    cbn. rewrite !(proj2 (Z.leb_le _ _)) by lia. done.
Qed.

Lemma unescape_escape s : unescape (escape s) = Some (json_text s).
Proof.
  unfold escape, json_text. assert (forall g, g ∈ runes s -> g ∈ runes s) as Hin by done. revert Hin. generalize (runes s) at 1 3 4 as l.
  induction l as [|g l IH]; intros Hin; [done|]. cbn [fmap list_fmap concat]. rewrite (unescape_seg s) by (apply Hin; by left).
  change (list_fmap _ _ escape_seg l) with (escape_seg <$> l). rewrite IH; [done|]. intros g' Hg. apply Hin. by right.
Qed.

(** ** Dates *)

(** Month and day of a day of a year that begins in March. *)
Definition month_day (doy : Z) : Z * Z :=
  let mp := (5 * doy + 2) / 153 in
  (if mp <? 10 then mp + 3 else mp - 9, doy - (153 * mp + 2) / 5 + 1).

(** The proleptic Gregorian date of a day, counted from 1 January 1970:
    an era of 400 years has 146097 days, and years are counted from March. *)
Definition civil (days : Z) : Z * Z * Z :=
  let z := days + 719468 in
  let era := z / 146097 in
  let doe := z mod 146097 in
  let yoe := (doe - doe / 1460 + doe / 36524 - doe / 146096) / 365 in
  let '(month, day) := month_day (doe - (365 * yoe + yoe / 4 - yoe / 100)) in
  (yoe + era * 400 + (if month <=? 2 then 1 else 0), month, day).

(** [appendInt] of the package [time]. *)
Definition padded (width : nat) (z : Z) : bytes :=
  let digits := format_int (Z.abs z) in
  (if z <? 0 then str "-" else []) ++ replicate (width - length digits) "0"%char ++ digits.

(** [t.UTC().Format("2006-01-02 15:04:05")] *)
Definition date_time (t : Z) : bytes :=
  let secs := t / 1000000000 in
  let '(year, month, day) := civil (secs / 86400) in
  let clock := secs mod 86400 in
  padded 4 year ++ str "-" ++ padded 2 month ++ str "-" ++ padded 2 day ++ str " " ++
  padded 2 (clock / 3600) ++ str ":" ++ padded 2 (clock / 60 mod 60) ++ str ":" ++ padded 2 (clock mod 60).

Example date_times :
  date_time <$> [0; 951782400 * 1000000000; 1709164799999999999; 1709164800 * 1000000000; 4107542399 * 1000000000; -1000000000] =
  [str "1970-01-01 00:00:00"; str "2000-02-29 00:00:00"; str "2024-02-28 23:59:59"; str "2024-02-29 00:00:00"; str "2100-02-28 23:59:59";
   str "1969-12-31 23:59:59"].
Proof. vm_compute. reflexivity. Qed.

(** The calendar: leap years, and the day after a date. *)
Definition leap (y : Z) : bool := (y mod 4 =? 0) && (negb (y mod 100 =? 0) || (y mod 400 =? 0)).
Definition month_days (y m : Z) : Z :=
  if m =? 2 then (if leap y then 29 else 28) else if (m =? 4) || (m =? 6) || (m =? 9) || (m =? 11) then 30 else 31.
Definition next_day (date : Z * Z * Z) : Z * Z * Z :=
  let '(y, m, d) := date in
  if d <? month_days y m then (y, m, d + 1) else if m <? 12 then (y, m + 1, 1) else (y + 1, 1, 1).

(** The days of an era before a year of it. *)
Definition era_start (y : Z) : Z := 365 * y + y / 4 - y / 100 + y / 400.

Lemma era_year doe : 0 <= doe < 146097 ->
  let yoe := (doe - doe / 1460 + doe / 36524 - doe / 146096) / 365 in
  0 <= yoe < 400 /\ era_start yoe <= doe < era_start (yoe + 1).
Proof. intros H. unfold era_start. cbv zeta. div_mod_lia. Qed.

Lemma era_start_next y : 0 <= y -> era_start y + 365 <= era_start (y + 1) <= era_start y + 366.
Proof. unfold era_start. intros H. div_mod_lia. Qed.

Lemma era_year_unique a b doe :
  0 <= a -> 0 <= b -> era_start a <= doe < era_start (a + 1) -> era_start b <= doe < era_start (b + 1) -> a = b.
Proof. unfold era_start. intros. div_mod_lia. Qed.

(** Month and day of the next day, in a year whose February has [february]
    days. *)
Definition next_month_day (february : Z) (md : Z * Z) : Z * Z :=
  let '(m, d) := md in
  if d <? (if m =? 2 then february else month_days 1 m) then (m, d + 1) else if m <? 12 then (m + 1, 1) else (1, 1).

Lemma month_day_next doy february : (february = 28 \/ february = 29) -> 0 <= doy < 365 -> (doy = 364 -> february = 29) ->
  month_day (doy + 1) = next_month_day february (month_day doy).
Proof.
  intros Hf Hd Hl.
  assert (forallb (λ k : nat, let d := Z.of_nat k in
    bool_decide (month_day (d + 1) = next_month_day 29 (month_day d)) &&
    ((d =? 364) || bool_decide (month_day (d + 1) = next_month_day 28 (month_day d)))) (seq 0 365) = true) as Hx by (vm_compute; reflexivity).
  rewrite forallb_forall in Hx. specialize (Hx (Z.to_nat doy) ltac:(apply in_seq; lia)). cbv zeta in Hx. rewrite Z2Nat.id in Hx by lia.
  apply andb_true_iff in Hx as [H1%bool_decide_eq_true [H2%Z.eqb_eq|H2%bool_decide_eq_true]%orb_true_iff]; destruct Hf as [->| ->]; try done.
  by specialize (Hl H2).
Qed.

Definition march_date (era yoe doy : Z) : Z * Z * Z :=
  let '(month, day) := month_day doy in (yoe + era * 400 + (if month <=? 2 then 1 else 0), month, day).

Lemma civil_at days era yoe doy :
  0 <= yoe < 400 -> 0 <= doy < era_start (yoe + 1) - era_start yoe -> days + 719468 = era * 146097 + era_start yoe + doy ->
  civil days = march_date era yoe doy.
Proof.
  intros Hy Hd E. unfold civil, march_date. cbv zeta.
  assert (0 <= era_start yoe + doy < 146097) as Hb by (clear E; unfold era_start in *; div_mod_lia).
  assert ((days + 719468) / 146097 = era) as -> by (rewrite E; div_mod_lia).
  assert ((days + 719468) mod 146097 = era_start yoe + doy) as -> by (rewrite E; div_mod_lia).
  destruct (era_year _ Hb) as [Hr Hs]. set (y := (_ / 365)) in *. clearbody y.
  assert (y = yoe) as -> by (eapply era_year_unique; [lia..|exact Hs|lia]).
  replace (era_start yoe + doy - (365 * yoe + yoe / 4 - yoe / 100)) with doy; [done|]. unfold era_start.
  rewrite (Z.div_small yoe 400) by lia. lia.
Qed.

Lemma civil_parts days : exists era yoe doy,
  0 <= yoe < 400 /\ 0 <= doy < era_start (yoe + 1) - era_start yoe /\ days + 719468 = era * 146097 + era_start yoe + doy.
Proof.
  pose proof (era_year ((days + 719468) mod 146097) (Z.mod_pos_bound _ 146097 eq_refl)) as Hx. cbv zeta in Hx.
  set (yoe := (_ / 365)) in Hx. clearbody yoe. destruct Hx as [Hr Hs].
  exists ((days + 719468) / 146097), yoe, ((days + 719468) mod 146097 - era_start yoe). split; [done|]. split; [lia|].
  rewrite (Z.div_mod (days + 719468) 146097) at 1 by lia. lia.
Qed.

Lemma leap_length era yoe : 0 <= yoe < 400 ->
  leap (yoe + era * 400 + 1) = (era_start (yoe + 1) - era_start yoe =? 366).
Proof.
  intros H. unfold leap. replace ((yoe + era * 400 + 1) mod 4) with ((yoe + 1) mod 4) by div_mod_lia.
  replace ((yoe + era * 400 + 1) mod 100) with ((yoe + 1) mod 100) by div_mod_lia.
  replace ((yoe + era * 400 + 1) mod 400) with ((yoe + 1) mod 400) by div_mod_lia.
  unfold era_start. destruct (_ =? 366) eqn:E; [apply Z.eqb_eq in E|apply Z.eqb_neq in E].
  - rewrite andb_true_iff, orb_true_iff, negb_true_iff, !Z.eqb_eq, Z.eqb_neq. div_mod_lia.
  - apply andb_false_iff. rewrite orb_false_iff, negb_false_iff, !Z.eqb_neq, Z.eqb_eq. div_mod_lia.
Qed.

Lemma month_day_range doy : 0 <= doy < 366 ->
  1 <= (month_day doy).1 <= 12 /\ 1 <= (month_day doy).2 <= 31 /\ ((month_day doy).1 = 2 -> (month_day doy).2 = doy - 336).
Proof. intros H. unfold month_day. cbn [fst snd]. destruct (_ <? 10) eqn:E; [apply Z.ltb_lt in E|apply Z.ltb_ge in E]; div_mod_lia. Qed.

(** Every day is followed by the next of the calendar, and the first is
    1 January 1970: [civil] counts the days of the calendar. *)
Theorem civil_next days : civil (days + 1) = next_day (civil days).
Proof.
  destruct (civil_parts days) as (era & yoe & doy & Hy & Hd & E). rewrite (civil_at _ _ _ _ Hy Hd E).
  pose proof (era_start_next yoe (proj1 Hy)) as Hn. pose proof (leap_length era yoe Hy) as Hl.
  destruct (decide (doy + 1 < era_start (yoe + 1) - era_start yoe)) as [Hlt|Hge].
  - rewrite (civil_at _ era yoe (doy + 1)) by lia. unfold march_date.
    set (february := if leap (yoe + era * 400 + 1) then 29 else 28).
    assert (doy < 365 /\ (doy = 364 -> february = 29)) as [H1 H2].
    { split; [lia|]. intros ->. unfold february. rewrite Hl. by rewrite (proj2 (Z.eqb_eq _ _)) by lia. }
    rewrite (month_day_next doy february); [|unfold february; case_match; auto|lia|done].
    pose proof (month_day_range doy ltac:(lia)) as (Hm & Hr & Hfeb). destruct (month_day doy) as [m d]. cbn [fst snd] in *.
    assert (month_days (yoe + era * 400 + (if m <=? 2 then 1 else 0)) m = if m =? 2 then february else month_days 1 m) as Hmd.
    { unfold month_days, february. destruct (m =? 2) eqn:E2; [apply Z.eqb_eq in E2; by subst|done]. }
    assert (m = 2 -> d < february) as Hin.
    { intros Hm2. specialize (Hfeb Hm2). unfold february. rewrite Hl. destruct (_ =? 366) eqn:E6; [apply Z.eqb_eq in E6|apply Z.eqb_neq in E6]; lia. }
    unfold next_month_day, next_day. rewrite Hmd. destruct (d <? _) eqn:E1; [done|].
    assert (m <> 2) as Hm2 by (intros Hm2; rewrite (proj2 (Z.eqb_eq _ _) Hm2) in E1; specialize (Hin Hm2); lia).
    destruct (m <? 12) eqn:E12; [|replace (m <=? 2) with false by lia; by rewrite Z.add_0_r].
    destruct (m <=? 2) eqn:E3; [replace (m + 1 <=? 2) with true by lia|replace (m + 1 <=? 2) with false by lia]; done.
  - assert (doy = era_start (yoe + 1) - era_start yoe - 1) as -> by lia.
    set (era' := if yoe =? 399 then era + 1 else era). set (yoe' := if yoe =? 399 then 0 else yoe + 1).
    assert (civil (days + 1) = march_date era' yoe' 0) as ->.
    { unfold era', yoe'. apply civil_at; destruct (yoe =? 399) eqn:E9; try lia;
        try (pose proof (era_start_next (yoe + 1)); unfold era_start in *; div_mod_lia). }
    assert (yoe' + era' * 400 = yoe + era * 400 + 1) as Hyear by (unfold era', yoe'; destruct (yoe =? 399) eqn:E9; lia).
    unfold march_date. change (month_day 0) with (3, 1). cbn [Z.leb Z.compare Pos.compare Pos.compare_cont]. rewrite Hyear.
    assert (era_start (yoe + 1) - era_start yoe = 365 \/ era_start (yoe + 1) - era_start yoe = 366) as [E5|E5] by lia; rewrite E5 in *;
      [change (month_day (365 - 1)) with (2, 28)|change (month_day (366 - 1)) with (2, 29)];
      unfold next_day, month_days; cbn [Z.leb Z.eqb Z.compare Pos.compare Pos.compare_cont Pos.eqb]; rewrite Hl; by rewrite Z.add_0_r.
Qed.
