(* ===== verification/Uuid.v ===== *)
(** * UUIDs

    [github.com/google/uuid] is a dependency: the program only uses [Parse],
    [UUID.String], [FromBytes] and [UUID.Version].  They are an interface
    here, with the documented facts the program relies on, and one concrete
    implementation (the canonical 36-character form) for the witnesses. *)

From S2P Require Import Prelude GoStrings Codec.

Class UUIDLib := {
  (** [uuid.Parse]: the sixteen bytes of a textual UUID. *)
  uuid_parse : bytes -> option bytes;
  (** [UUID.String]: the canonical text of sixteen bytes. *)
  uuid_string : bytes -> bytes
}.

(** The documented behaviour: a parsed UUID has sixteen bytes, printing a
    UUID and parsing the text gives it back, and the empty text is no UUID. *)
Class UUIDSpec (U : UUIDLib) : Prop := {
  uuid_parse_length : forall s u, uuid_parse s = Some u -> length u = 16%nat;
  uuid_parse_string : forall u, length u = 16%nat -> uuid_parse (uuid_string u) = Some u;
  uuid_parse_empty : uuid_parse [] = None
}.

(** [UUID.Version]: the high nibble of the seventh byte. *)
Definition uuid_version (u : bytes) : Z :=
  match u !! 6%nat with Some c => Z.shiftr (code c) 4 | None => 0 end.

(** ** The canonical form *)

Module Canonical.
Definition dash (s : bytes) : bytes :=
  take 8 s ++ str "-" ++ take 4 (drop 8 s) ++ str "-" ++ take 4 (drop 12 s) ++ str "-" ++
  take 4 (drop 16 s) ++ str "-" ++ drop 20 s.

Definition undash (s : bytes) : bytes :=
  take 8 s ++ take 4 (drop 9 s) ++ take 4 (drop 14 s) ++ take 4 (drop 19 s) ++ drop 24 s.

Definition print (u : bytes) : bytes := dash (hex_encode u).

Definition parse (s : bytes) : option bytes :=
  if bool_decide (length s = 36%nat) && bool_decide (dash (undash s) = s)
  then hex_decode (undash s) else None.

Lemma undash_dash (s : bytes) : length s = 32%nat -> undash (dash s) = s.
Proof.
  intros H. do 32 (destruct s as [|? s]; [done|]). destruct s; [|done]. reflexivity.
Qed.

Lemma length_dash (s : bytes) : length s = 32%nat -> length (dash s) = 36%nat.
Proof.
  intros H. do 32 (destruct s as [|? s]; [done|]). destruct s; [|done]. reflexivity.
Qed.

Lemma length_undash (s : bytes) : length s = 36%nat -> length (undash s) = 32%nat.
Proof.
  intros H. do 36 (destruct s as [|? s]; [done|]). destruct s; [|done]. reflexivity.
Qed.

Lemma hex_decode_length s r : hex_decode s = Some r -> length s = (2 * length r)%nat.
Proof.
  revert r. induction s as [s IH] using bytes_strong_ind. destruct s as [|a [|b s]]; intros r.
  - intros [= <-]. done.
  - done.
  - cbn [hex_decode]. destruct (hex_value a); [|done]. destruct (hex_value b); [|done].
    destruct (hex_decode s) as [r'|] eqn:E; [|done]. intros [= <-]. cbn.
    rewrite (IH s ltac:(cbn; lia) r' E). lia.
Qed.

#[global] Instance lib : UUIDLib := {| uuid_parse := parse; uuid_string := print |}.

#[global] Instance spec : UUIDSpec lib.
Proof.
  split.
  - intros s u. cbn. unfold parse. destruct (bool_decide (length s = _)) eqn:E; [|done].
    rewrite andb_true_l. destruct (bool_decide (dash (undash s) = s)); [|done]. intros H%hex_decode_length. bool_to_prop.
    rewrite length_undash in H by done. lia.
  - intros u Hu. cbn. unfold parse, print.
    assert (length (hex_encode u) = 32%nat) by (rewrite length_hex_encode; lia).
    rewrite undash_dash, length_dash, !bool_decide_eq_true_2 by done. cbn. apply hex_decode_encode.
  - done.
Qed.
End Canonical.
