(* ===== verification/Message.v ===== *)
(** * Deliveries and the receiver: [internal/message]

    The values of delivery.go with their validation, and [Receiver.Receive]
    of receiver.go against the two interfaces it composes: a content store
    that hands out a lifecycle lease and a repository that commits. *)

From S2P Require Import Prelude GoStrings Errors Codec Uuid.

Abbreviation InboxID := bytes.
Abbreviation MessageID := bytes.

(** Times are nanoseconds since 1970; [time.Time{}] is the year 1. *)
Definition zero_time : Z := -62135596800 * 1000000000.

Record ContentRef := MkContentRef { Key : bytes; SizeBytes : Z }.

Record ContentDeletion := MkContentDeletion { cd_Content : ContentRef; Generation : Z }.

Record Delivery := MkDelivery {
  d_Content : ContentRef;
  d_EnvelopeSender : bytes;
  d_Recipients : list InboxID;
  d_ReceivedAt : Z
}.

Record StoredMessage := MkStoredMessage { sm_ID : MessageID; sm_InboxID : InboxID }.

#[global] Instance ContentRef_eq_dec : EqDecision ContentRef.
Proof. solve_decision. Defined.
#[global] Instance StoredMessage_eq_dec : EqDecision StoredMessage.
Proof. solve_decision. Defined.

Definition sha256_prefix : bytes := str "sha256/".
Definition sha256HexLength : Z := 64.

Definition invalid (text : string) : goerr := EWrap text ErrInvalidDelivery.

(** [ContentRef.Validate] *)
Definition ContentRef_Validate (r : ContentRef) : option goerr :=
  if negb (has_prefix (Key r) sha256_prefix) then Some (invalid "content key must use sha256")
  else
    let digest := trim_prefix (Key r) sha256_prefix in
    if negb (zlen digest =? sha256HexLength) || negb (bool_decide (to_lower digest = digest))
    then Some (invalid "content digest must be 64 lowercase hexadecimal characters")
    else match hex_decode digest with
    | None => Some (invalid "content digest is invalid")
    | Some decoded =>
      if negb (zlen decoded =? sha256HexLength / 2) then Some (invalid "content digest is invalid")
      else if SizeBytes r <? 0 then Some (invalid "content size must not be negative")
      else None
    end.

Section Validate.
Context `{!UUIDLib}.

(** The recipient loop of [validateEnvelope]. *)
Fixpoint validate_recipients (seen : gset InboxID) (recipients : list InboxID) : option goerr :=
  match recipients with
  | [] => None
  | r :: rest =>
    match uuid_parse r with
    | None => Some (invalid "recipient is not a valid UUID")
    | Some _ =>
      if bool_decide (r ∈ seen) then Some (invalid "duplicate recipient")
      else validate_recipients ({[r]} ∪ seen) rest
    end
  end.

Definition validateEnvelope (sender : bytes) (recipients : list InboxID) : option goerr :=
  if 320 <? zlen sender then Some (invalid "envelope sender exceeds 320 bytes")
  else if bool_decide (recipients = []) then Some (invalid "at least one recipient is required")
  else validate_recipients ∅ recipients.

(** [Delivery.Validate] *)
Definition Delivery_Validate (d : Delivery) : option goerr :=
  match ContentRef_Validate (d_Content d) with
  | Some e => Some e
  | None =>
    if bool_decide (d_ReceivedAt d = zero_time) then Some (invalid "received time is required")
    else validateEnvelope (d_EnvelopeSender d) (d_Recipients d)
  end.

Definition valid_recipients (recipients : list InboxID) : Prop :=
  recipients <> [] /\ NoDup recipients /\ Forall (λ r, is_Some (uuid_parse r)) recipients.

Lemma validate_recipients_ok seen rs :
  validate_recipients seen rs = None <->
  NoDup rs /\ Forall (λ r, is_Some (uuid_parse r)) rs /\ Forall (λ r, r ∉ seen) rs.
Proof.
  revert seen. induction rs as [|r rs IH]; intros seen; cbn [validate_recipients].
  - split; [intros _; repeat constructor|done].
  - rewrite NoDup_cons, !Forall_cons. destruct (uuid_parse r) as [u|] eqn:E; cycle 1.
    { split; [done|]. intros (_ & [[? [=]] _] & _). }
    case_bool_decide as Hs.
    { split; [done|]. by intros (_ & _ & ? & _). }
    rewrite IH. rewrite !Forall_forall. split.
    + intros (Hnd & Hu & Hn). split; [split; [|done]|split; [by eauto|split; [done|]]].
      * intros Hin. apply (Hn r Hin), elem_of_union_l. by apply elem_of_singleton.
      * intros x Hx Hin. by apply (Hn x Hx), elem_of_union_r.
    + intros ([Hr Hnd] & [_ Hu] & _ & Hn). split; [done|]. split; [done|].
      intros x Hx. specialize (Hn x Hx). intros [->%elem_of_singleton|]%elem_of_union; done.
Qed.

Lemma validateEnvelope_ok sender rs :
  validateEnvelope sender rs = None <-> zlen sender <= 320 /\ valid_recipients rs.
Proof.
  unfold validateEnvelope, valid_recipients.
  destruct (320 <? zlen sender) eqn:E; bool_to_prop; [split; [done|lia]|].
  case_bool_decide as Hn; [split; [done|]; intros (_ & ? & _); done|].
  rewrite validate_recipients_ok, !Forall_forall. split; [intros (? & ? & ?); auto|].
  intros (_ & _ & ? & ?). split; [done|]. split; [done|]. intros x _. apply not_elem_of_empty.
Qed.
End Validate.

(** A canonical content key: the digest of some sixty-four lowercase
    hexadecimal digits. *)
Definition canonical_digest (digest : bytes) : Prop :=
  length digest = 64%nat /\ forallb lower_hex digest = true.

Lemma has_prefix_split s p : has_prefix s p = true -> s = p ++ trim_prefix s p.
Proof.
  intros H. unfold trim_prefix. rewrite H. revert s H. induction p as [|c p IH]; intros [|d s]; cbn; try done.
  case_bool_decide as Hc; [|done]. subst. cbn. intros H%IH. by f_equal.
Qed.

Lemma lower_hex_ascii c : lower_hex c = true -> is_ascii c = true /\ lower_byte c = c.
Proof.
  intros H. assert (implb (lower_hex c) (is_ascii c && bool_decide (lower_byte c = c)) = true) as Hc.
  { clear H. byte_check (λ c, implb (lower_hex c) (is_ascii c && bool_decide (lower_byte c = c))) c. }
  rewrite H in Hc. cbn [implb] in Hc. by bool_to_prop.
Qed.

Lemma lower_hex_lower s : forallb lower_hex s = true -> to_lower s = s.
Proof.
  intros H. rewrite to_lower_ascii.
  - induction s as [|c s IH]; [done|]. cbn in H. bool_to_prop. cbn.
    rewrite (proj2 (lower_hex_ascii c ltac:(done))). f_equal. by apply IH.
  - induction s as [|c s IH]; [done|]. cbn in H. bool_to_prop. cbn.
    rewrite (proj1 (lower_hex_ascii c ltac:(done))). by apply IH.
Qed.

Lemma hex_decode_chars s r :
  hex_decode s = Some r -> forallb (λ c, bool_decide (is_Some (hex_value c))) s = true /\ length s = (2 * length r)%nat.
Proof.
  revert r. induction s as [s IH] using bytes_strong_ind. destruct s as [|a [|b s]]; intros r; [by intros [= <-]|done|].
  cbn [hex_decode]. destruct (hex_value a) eqn:Ea; [|done]. destruct (hex_value b) eqn:Eb; [|done].
  destruct (hex_decode s) as [r'|] eqn:E; [|done]. intros [= <-].
  destruct (IH s ltac:(cbn; lia) r' E) as [H1 H2]. cbn. rewrite Ea, Eb.
  rewrite !bool_decide_eq_true_2 by eauto. split; [done|]. lia.
Qed.

Lemma hex_value_lower c : is_Some (hex_value c) -> lower_byte c = c -> lower_hex c = true.
Proof.
  intros H1 H2.
  assert (implb (bool_decide (is_Some (hex_value c)) && bool_decide (lower_byte c = c)) (lower_hex c) = true) as Hc.
  { clear H1 H2. byte_check (λ c, implb (bool_decide (is_Some (hex_value c)) && bool_decide (lower_byte c = c)) (lower_hex c)) c. }
  by rewrite !bool_decide_eq_true_2 in Hc.
Qed.

Lemma hex_value_ascii c : is_Some (hex_value c) -> is_ascii c = true.
Proof.
  intros H. assert (implb (bool_decide (is_Some (hex_value c))) (is_ascii c) = true) as Hc.
  { clear H. byte_check (λ c, implb (bool_decide (is_Some (hex_value c))) (is_ascii c)) c. }
  by rewrite bool_decide_eq_true_2 in Hc.
Qed.

Lemma hex_decode_lower s r :
  hex_decode s = Some r -> to_lower s = s -> forallb lower_hex s = true.
Proof.
  intros [H _]%hex_decode_chars. rewrite forallb_forall in H. intros Hl. rewrite to_lower_ascii in Hl.
  - apply forallb_forall. intros c Hc. specialize (H c Hc) as H'. bool_to_prop.
    apply hex_value_lower; [done|]. apply list_elem_of_In, list_elem_of_lookup in Hc as [i Hi].
    pose proof (f_equal (lookup i) Hl) as Hl'. rewrite list_lookup_fmap, Hi in Hl'. by injection Hl'.
  - apply forallb_forall. intros c Hc. specialize (H c Hc). bool_to_prop. by apply hex_value_ascii.
Qed.

Lemma lower_hex_value c : lower_hex c = true -> is_Some (hex_value c).
Proof.
  intros H. assert (implb (lower_hex c) (bool_decide (is_Some (hex_value c))) = true) as Hc.
  { clear H. byte_check (λ c, implb (lower_hex c) (bool_decide (is_Some (hex_value c)))) c. }
  rewrite H in Hc. cbn [implb] in Hc. by bool_to_prop.
Qed.

Lemma lower_hex_decode s n :
  forallb lower_hex s = true -> length s = (2 * n)%nat -> exists r, hex_decode s = Some r /\ length r = n.
Proof.
  revert n. induction s as [s IH] using bytes_strong_ind. destruct s as [|a [|b s]]; intros n H Hl; cbn in Hl.
  - exists []. split; [done|]. cbn. lia.
  - lia.
  - cbn [forallb] in H. bool_to_prop. destruct n as [|n]; [lia|].
    destruct (IH s ltac:(cbn; lia) n) as (r & Hr & Hn); [done|lia|].
    destruct (lower_hex_value a) as [x Hx]; [done|]. destruct (lower_hex_value b) as [y Hy]; [done|].
    cbn [hex_decode]. rewrite Hx, Hy, Hr. eexists. split; [done|]. cbn. lia.
Qed.

Lemma ContentRef_Validate_ok r :
  ContentRef_Validate r = None <->
  0 <= SizeBytes r /\ exists digest, Key r = sha256_prefix ++ digest /\ canonical_digest digest.
Proof.
  unfold ContentRef_Validate, canonical_digest, sha256HexLength. split.
  - destruct (has_prefix (Key r) sha256_prefix) eqn:Hp; [|done]. cbn [negb].
    set (digest := trim_prefix (Key r) sha256_prefix).
    destruct (zlen digest =? 64) eqn:E1; [|done]. cbn [negb orb].
    case_bool_decide as E2; [|done]. cbn [negb].
    destruct (hex_decode digest) as [decoded|] eqn:E3; [|done].
    destruct (zlen decoded =? _); [|done]. destruct (SizeBytes r <? 0) eqn:E5; [done|]. intros _. bool_to_prop.
    split; [done|]. exists digest. split; [by apply has_prefix_split|]. split; [unfold zlen in E1; lia|].
    by eapply hex_decode_lower.
  - intros (Hs & digest & -> & Hl & Hx). rewrite has_prefix_app, trim_prefix_app. cbn [negb].
    rewrite (proj2 (Z.eqb_eq _ _)) by (unfold zlen; lia).
    rewrite bool_decide_eq_true_2 by (by apply lower_hex_lower). cbn [negb orb].
    destruct (lower_hex_decode digest 32) as (d & -> & Hd); [done|lia|].
    rewrite (proj2 (Z.eqb_eq _ _)) by (unfold zlen; rewrite Hd; done). cbn [negb].
    destruct (SizeBytes r <? 0) eqn:E; bool_to_prop; [lia|done].
Qed.

(** ** The receiver *)

(** receiver.go's [ContentStore]: [PutLeased] consumes a reader and, on
    success, leaves a lifecycle lease held until [release]. *)
Class ContentStore (W R : Type) := {
  cs_CheckCapacity : W -> W * option goerr;
  cs_PutLeased : W -> R -> W * R * res ContentRef;
  cs_release : W -> W;
  cs_leases : W -> nat
}.

Class DeliveryRepository (W : Type) := {
  CommitDelivery : W -> Delivery -> W * res (list StoredMessage)
}.

(** What the receiver relies on: leases are counted, and committing metadata
    does not touch them. *)
Class LeaseSpec (W R : Type) `{!ContentStore W R} `{!DeliveryRepository W} : Prop := {
  put_lease : forall w r w' r' x, cs_PutLeased w r = (w', r', x) ->
    cs_leases w' = (if is_ok x then S (cs_leases w) else cs_leases w);
  release_lease : forall w, cs_leases (cs_release w) = pred (cs_leases w);
  commit_lease : forall w d, cs_leases (CommitDelivery w d).1 = cs_leases w
}.

Record ReceiveRequest (R : Type) := MkReceiveRequest {
  rq_EnvelopeSender : bytes;
  rq_Recipients : list InboxID;
  rq_Raw : option R              (* [None] is a nil reader *)
}.
Arguments MkReceiveRequest {R}.
Arguments rq_EnvelopeSender {R}.
Arguments rq_Recipients {R}.
Arguments rq_Raw {R}.

Record Receipt := MkReceipt { rp_Content : ContentRef; rp_Messages : list StoredMessage }.

Module Receiver.
Section Receive.
Context {W R : Type} `{!UUIDLib} `{!ContentStore W R} `{!DeliveryRepository W}.
Context (now : W -> Z).

Definition CheckCapacity (w : W) : W * option goerr := cs_CheckCapacity w.

(** What runs between [PutLeased] and the deferred [release]. *)
Definition commit_stored (w : W) (delivery : Delivery) : W * res Receipt :=
  match Delivery_Validate delivery with
  | Some e => (w, Err e)
  | None =>
    match CommitDelivery w delivery with
    | (w, Err e) => (w, Err (EWrap "commit delivery metadata" e))
    | (w, Ok messages) => (w, Ok (MkReceipt (d_Content delivery) messages))
    end
  end.

(** [Receiver.Receive]; the last component is the consumed reader. *)
Definition Receive (w : W) (request : ReceiveRequest R) : W * option R * res Receipt :=
  match rq_Raw request with
  | None => (w, None, Err (invalid "raw content is required"))
  | Some raw =>
    match validateEnvelope (rq_EnvelopeSender request) (rq_Recipients request) with
    | Some e => (w, Some raw, Err e)
    | None =>
      let receivedAt := now w in
      match cs_PutLeased w raw with
      | (w, raw, Err e) => (w, Some raw, Err (EWrap "store raw message" e))
      | (w, raw, Ok content) =>
        let '(w, r) := commit_stored w
          (MkDelivery content (rq_EnvelopeSender request) (rq_Recipients request) receivedAt) in
        (cs_release w, Some raw, r)
      end
    end
  end.

Lemma commit_stored_leases `{!LeaseSpec W R} w delivery : cs_leases (commit_stored w delivery).1 = cs_leases w.
Proof.
  unfold commit_stored. destruct (Delivery_Validate delivery); [done|].
  pose proof (commit_lease w delivery) as Hl. by destruct (CommitDelivery w delivery) as [w2 [?|?]].
Qed.

(** The receiver stores before it commits and commits before it lets go
    of the lease, and it balances its leases on every path.  An accepted
    message was put into the content store and then committed, for exactly
    the requested sender and recipients and the stored reference, by a
    transaction that ran while the lease was held; a rejected envelope
    touches neither the store nor the reader. *)
Lemma receive_protocol `{!LeaseSpec W R} (w w' : W) (request : ReceiveRequest R) rest r :
  Receive w request = (w', rest, r) ->
  cs_leases w' = cs_leases w /\
  match r with
  | Ok receipt =>
    exists raw w1 raw' w2,
      rq_Raw request = Some raw /\ cs_PutLeased w raw = (w1, raw', Ok (rp_Content receipt)) /\
      CommitDelivery w1 (MkDelivery (rp_Content receipt) (rq_EnvelopeSender request)
        (rq_Recipients request) (now w)) = (w2, Ok (rp_Messages receipt)) /\
      cs_leases w2 = S (cs_leases w) /\ w' = cs_release w2 /\
      valid_recipients (rq_Recipients request) /\ ContentRef_Validate (rp_Content receipt) = None
  | Err _ =>
    validateEnvelope (rq_EnvelopeSender request) (rq_Recipients request) <> None ->
    w' = w /\ rest = rq_Raw request
  end.
Proof.
  unfold Receive. destruct (rq_Raw request) as [raw|]; [|by intros [= <- <- <-]].
  destruct (validateEnvelope _ _) eqn:Ev; [by intros [= <- <- <-]|].
  apply validateEnvelope_ok in Ev as Hv.
  destruct (cs_PutLeased w raw) as [[w1 raw'] [content|e]] eqn:Ep.
  2:{ intros [= <- <- <-]. by rewrite (put_lease _ _ _ _ _ Ep). }
  destruct (commit_stored w1 _) as [w2 r2] eqn:Ec. intros [= <- <- <-].
  assert (cs_leases w2 = S (cs_leases w)) as H2.
  { pose proof (commit_stored_leases w1 (MkDelivery content (rq_EnvelopeSender request) (rq_Recipients request) (now w))) as Hl.
    rewrite Ec in Hl. cbn [fst] in Hl. by rewrite Hl, (put_lease _ _ _ _ _ Ep). }
  rewrite release_lease, H2. split; [done|]. destruct r2 as [receipt|e]; [|done].
  unfold commit_stored in Ec. destruct (Delivery_Validate _) eqn:Ed; [done|].
  destruct (CommitDelivery w1 _) as [w3 [ms|]] eqn:Ecd; [|done]. injection Ec as <- <-.
  unfold Delivery_Validate in Ed. cbn [d_Content] in Ed.
  destruct (ContentRef_Validate content) eqn:Er; [done|].
  exists raw, w1, raw', w3. cbn. by destruct Hv.
Qed.
End Receive.
End Receiver.
