(* ===== verification/ContentStore.v ===== *)
(** * The content store: [internal/contentstore/store.go]

    Immutable objects named by the SHA-256 of their bytes under
    [root/objects/sha256], written through [root/staging].  [put] is split
    into the phases other deliveries can interleave with ([put_staged],
    [put_prepare], [link_object], [put_linked]); reservations and lifecycle
    leases are part of the [Store] value. *)

From S2P Require Import Prelude GoStrings Errors Codec Uuid FileSystem Message.

Definition digestBytes : Z := 32.
Definition digestHexLength : Z := 64.
Definition copyBufferBytes : nat := Z.to_nat (32 * 1024).

(** [Options] and the root, fixed when the store is opened. *)
Record config := MkConfig { root : path; maxBytes : Z; minFreeBytes : Z }.

Definition objectsRoot (c : config) : path := str "sha256" :: str "objects" :: root c.
Definition stagingRoot (c : config) : path := str "staging" :: root c.

(** The mutable part of [Store]: the disk, [reservedBytes] and the readers
    of [lifecycleMu]. *)
Record Store := MkStore { st_disk : disk; reservedBytes : Z; leases : nat }.

Definition with_disk (s : Store) (d : disk) : Store := MkStore d (reservedBytes s) (leases s).

(** ** Names *)

Definition relativePathForKey (key : bytes) : res path :=
  if negb (has_prefix key sha256_prefix) then Err (ESentinel ErrInvalidKey)
  else
    let digest := trim_prefix key sha256_prefix in
    if negb (zlen digest =? digestHexLength) || negb (bool_decide (to_lower digest = digest))
    then Err (ESentinel ErrInvalidKey)
    else match hex_decode digest with
    | None => Err (ESentinel ErrInvalidKey)
    | Some decoded =>
      if negb (zlen decoded =? digestBytes) then Err (ESentinel ErrInvalidKey)
      else Ok [digest; take 2 (drop 2 digest); take 2 digest]
    end.

Definition pathForKey (c : config) (key : bytes) : res path :=
  match relativePathForKey key with
  | Err e => Err e
  | Ok relativePath => Ok (relativePath ++ objectsRoot c)
  end.

Definition isWithinRoot (root candidate : path) : bool :=
  match Rel root candidate with
  | [] => true
  | c :: _ => negb (bool_decide (c = str ".."))
  end.

(** ** Directory durability: sync_nonwindows.go and [syncDirectoryTree] *)

(** After a successful [chmod] to [0700] the permission check cannot fail. *)
Definition secureDirectory (p : path) : IO unit :=
  wrap (EWrap "secure content store directory") attempt ;;;
  n <- wrap (EWrap "inspect directory permissions") (stat p) ;;
  match n with
  | NDir => ret tt
  | NFile _ => throw (ENew "content store path: invalid argument")
  end.

Definition syncDirectory (p : path) : IO unit :=
  wrap (EWrap "open directory root for sync") attempt ;;;
  wrap (EWrap "open scoped directory for sync") attempt ;;;
  wrap (EWrap "sync directory") (sync_dir p).

Fixpoint syncDirectoryTree (root current : path) : IO unit :=
  secureDirectory current ;;;
  syncDirectory current ;;;
  if bool_decide (current = root) then ret tt
  else match current with
  | [] => throw (ENew "directory tree escapes content store root")
  | _ :: parent =>
    if negb (isWithinRoot root parent) then throw (ENew "directory tree escapes content store root")
    else syncDirectoryTree root parent
  end.

(** [Open]: the checks, then the three directories and their durability. *)
Definition Open_check (name : bytes) (c : config) : option string :=
  if bool_decide (trim_space name = []) then Some "content store root is required"%string
  else if maxBytes c <=? 0 then Some "content store max bytes must be positive"%string
  else if minFreeBytes c <? 0 then Some "content store minimum free bytes must not be negative"%string
  else None.

Definition Open (c : config) : IO Store :=
  wrap (EWrap "create content store directory") (mkdir_all (root c)) ;;;
  wrap (EWrap "create content store directory") (mkdir_all (objectsRoot c)) ;;;
  wrap (EWrap "create content store directory") (mkdir_all (stagingRoot c)) ;;;
  wrap (EWrap "sync content store staging directory") (syncDirectoryTree (root c) (stagingRoot c)) ;;;
  wrap (EWrap "sync content store objects directory") (syncDirectoryTree (root c) (objectsRoot c)) ;;;
  λ d, (d, Ok (MkStore d 0 0)).

(** ** Capacity *)

Definition max_uint64 : Z := 2 ^ 64 - 1.

(** disk_space_linux.go *)
Definition filesystemAvailableBytes : IO Z :=
  attempt ;;; λ d,
    let '(bsize, bavail) := d_statfs d in
    if bsize <=? 0 then (d, Err (ENew "filesystem reported invalid block size"))
    else if max_uint64 / bsize <? bavail then (d, Ok max_uint64)
    else (d, Ok (bavail * bsize)).

Definition isDiskFull (e : goerr) : bool := errors_is e DiskFull.

Definition wrapStorageError (operation : string) (e : goerr) : goerr :=
  if isDiskFull e then EWrap2 operation ErrInsufficientStorage e else EWrap operation e.

Definition checkCapacityLocked (c : config) (reserved requestedBytes : Z) : IO unit :=
  available <- wrap (EWrap "read content store free space") filesystemAvailableBytes ;;
  ctx_err ;;;
  if (minFreeBytes c <? 0) || (requestedBytes <? 0) || (reserved <? 0)
  then throw (ENew "content capacity accounting invariant violated")
  else
    let availableBytes := if available <=? max_int64 then available else max_int64 in
    if (availableBytes <? minFreeBytes c) || (availableBytes - minFreeBytes c <? reserved)
       || (availableBytes - minFreeBytes c - reserved <? requestedBytes)
    then throw (EWrap "available, reserved, required, floor" ErrInsufficientStorage)
    else ret tt.

Definition CheckCapacity (c : config) (s : Store) : Store * option goerr :=
  match (ctx_err ;;; checkCapacityLocked c (reservedBytes s) (maxBytes c)) (st_disk s) with
  | (d, Err e) => (with_disk s d, Some e)
  | (d, Ok _) => (with_disk s d, None)
  end.

(** [reserve] adds one maximum-size message to [reservedBytes]; the function
    it returns is [unreserve]. *)
Definition reserve (c : config) (s : Store) : Store * res unit :=
  match (ctx_err ;;; checkCapacityLocked c (reservedBytes s) (maxBytes c)) (st_disk s) with
  | (d, Err e) => (with_disk s d, Err e)
  | (d, Ok _) => (MkStore d (wrap64 (reservedBytes s + maxBytes c)) (leases s), Ok tt)
  end.

Definition unreserve (c : config) (s : Store) : Store :=
  MkStore (st_disk s) (wrap64 (reservedBytes s - maxBytes c)) (leases s).

(** ** Reading back *)

Definition OpenContent (c : config) (ref : ContentRef) : IO nat :=
  match relativePathForKey (Key ref) with
  | Err e => throw e
  | Ok relativePath =>
    wrap (EWrap "open content objects root") attempt ;;;
    wrap (EWrap "open content object") (open_file (relativePath ++ objectsRoot c))
  end.

Definition OpenRaw (c : config) (ref : ContentRef) : IO nat :=
  ctx_err ;;; OpenContent c ref.

(** [io.CopyBuffer(hash, &contextReader{file}, ...)]: the bytes hashed.  One
    more turn than the file has bytes is enough ([hash_file_ok]). *)
Fixpoint hash_file (fuel : nat) (rest hashed : bytes) : IO bytes :=
  match fuel with
  | O => throw (ENew "out of fuel")
  | S fuel' =>
    ctx_err ;;;
    attempt ;;;
    match rest with
    | [] => ret hashed
    | _ => hash_file fuel' (drop copyBufferBytes rest) (hashed ++ take copyBufferBytes rest)
    end
  end.

Definition Verify (c : config) (ref : ContentRef) : IO unit :=
  if SizeBytes ref <? 0 then throw (ESentinel ErrContentCorrupt)
  else
    i <- OpenContent c ref ;;
    λ d,
      let data := f_data (file_of d (NFile i)) in
      (hashed <- wrap (EWrap "verify content object") (hash_file (S (length data)) data []) ;;
       if negb (zlen hashed =? SizeBytes ref) then throw (EWrap "stored size" ErrContentCorrupt)
       else if negb (bool_decide (Key ref = sha256_prefix ++ hex_encode (sha256 hashed)))
         then throw (EWrap "digest mismatch" ErrContentCorrupt)
       else ret tt) d.

(** ** Put *)

Section Put.
Context {R : Type} `{!Reader R} (c : config).

(** [io.CopyBuffer(io.MultiWriter(staging, hash), limited, buffer)] with the
    context reader under the limit reader; the bytes written and hashed.
    [None] only when the fuel runs out ([copy_total]). *)
Fixpoint copy_loop (fuel : nat) (i : nat) (remaining : Z) (hashed : bytes) (d : disk) (src : R)
  : option (disk * R * res bytes) :=
  match fuel with
  | O => None
  | S fuel' =>
    if remaining <=? 0 then Some (d, src, Ok hashed)
    else match ctx_err d with
    | (d, Err e) => Some (d, src, Err e)
    | (d, Ok _) =>
      let '(src, out, er) := rd_read src (Nat.min copyBufferBytes (Z.to_nat remaining)) in
      let continue d :=
        match er with
        | None => copy_loop fuel' i (remaining - zlen out) (hashed ++ out) d src
        | Some e => Some (d, src, if bool_decide (e = ESentinel IoEOF) then Ok (hashed ++ out) else Err e)
        end in
      match out with
      | [] => continue d
      | _ =>
        match write_file i out d with
        | (d, Err ew) => Some (d, src, Err ew)
        | (d, Ok _) => continue d
        end
      end
    end
  end.

Definition copy (i : nat) (d : disk) (src : R) : option (disk * R * res bytes) :=
  copy_loop (S (rd_fuel src)) i (wrap64 (maxBytes c + 1)) [] d src.

(** From the open staging file to its closed, synced state; the bytes. *)
Definition put_staged (i : nat) (d : disk) (src : R) : disk * R * res bytes :=
  match chmod_file d with
  | (d, Err e) => ((close_file d).1, src, Err (EWrap "set staging file permissions" e))
  | (d, Ok _) =>
    match copy i d src with
    | None => (d, src, Err (ENew "out of fuel"))
    | Some (d, src, Err e) => ((close_file d).1, src, Err (wrapStorageError "write staging content" e))
    | Some (d, src, Ok data) =>
      let '(d, r) :=
        (if maxBytes c <? zlen data then
           ignore close_file ;;; throw (EWrap "maximum bytes" ErrContentTooLarge)
         else
           (λ d, match ctx_err d with
                 | (d, Err e) => ((close_file d).1, Err e)
                 | (d, Ok _) =>
                   match sync_file i d with
                   | (d, Err e) => ((close_file d).1, Err (wrapStorageError "sync staging content" e))
                   | (d, Ok _) => wrap (wrapStorageError "close staging content") (close_file ;;; ret data) d
                   end
                 end)) d in
      (d, src, r)
    end
  end.

Definition ref_of (data : bytes) : ContentRef :=
  MkContentRef (sha256_prefix ++ hex_encode (sha256 data)) (zlen data).

(** The object's directory exists and is durable. *)
Definition put_prepare (destination : path) : IO unit :=
  wrap (wrapStorageError "create object directory") (mkdir_all (dir destination)) ;;;
  wrap (wrapStorageError "sync object directory tree") (syncDirectoryTree (objectsRoot c) (dir destination)).

(** [os.Link] as a value, for the [switch]. *)
Definition link_object (stagingPath destination : path) : disk -> disk * option goerr := λ d,
  match link stagingPath destination d with
  | (d, Ok _) => (d, None)
  | (d, Err e) => (d, Some e)
  end.

(** The size check and verification of an object that was already there. *)
Definition verify_existing (ref : ContentRef) (destination : path) : IO unit :=
  n <- wrap (EWrap "inspect existing object") (stat destination) ;;
  λ d,
    if negb (zlen (f_data (file_of d n)) =? SizeBytes ref)
    then (d, Err (EWrap "existing size" ErrContentCorrupt))
    else wrap (EWrap "verify existing object") (Verify c ref) d.

(** The [switch] on the link error and what follows; [keepStaging] and the
    result. *)
Definition put_finish (stagingPath : path) (ref : ContentRef) : disk -> disk * (bool * res ContentRef) := λ d,
  match remove stagingPath d with
  | (d, Err e) =>
    if errors_is e OsErrNotExist then
      match wrap (wrapStorageError "sync staging directory") (syncDirectory (stagingRoot c)) d with
      | (d, Err e) => (d, (false, Err e))
      | (d, Ok _) => (d, (false, Ok ref))
      end
    else (d, (true, Err (EWrap "remove installed staging file" e)))
  | (d, Ok _) =>
    match wrap (wrapStorageError "sync staging directory") (syncDirectory (stagingRoot c)) d with
    | (d, Err e) => (d, (false, Err e))
    | (d, Ok _) => (d, (false, Ok ref))
    end
  end.

Definition put_linked (stagingPath destination : path) (ref : ContentRef) (linkErr : option goerr)
  : disk -> disk * (bool * res ContentRef) := λ d,
  match linkErr with
  | None =>
    match wrap (wrapStorageError "sync installed object directory") (syncDirectory (dir destination)) d with
    | (d, Err e) => (d, (true, Err e))
    | (d, Ok _) => put_finish stagingPath ref d
    end
  | Some e =>
    if errors_is e OsErrExist then
      match verify_existing ref destination d with
      | (d, Err e) => (d, (false, Err e))
      | (d, Ok _) => put_finish stagingPath ref d
      end
    else (d, (false, Err (wrapStorageError "install content object" e)))
  end.

(** Everything after the staging file is closed. *)
Definition put_install (stagingPath : path) (data : bytes) : disk -> disk * (bool * res ContentRef) := λ d,
  let ref := ref_of data in
  match pathForKey c (Key ref) with
  | Err e => (d, (false, Err e))
  | Ok destination =>
    match put_prepare destination d with
    | (d, Err e) => (d, (false, Err e))
    | (d, Ok _) =>
      let '(d, linkErr) := link_object stagingPath destination d in
      put_linked stagingPath destination ref linkErr d
    end
  end.

(** From [os.CreateTemp] on, with the deferred removal of the staging file. *)
Definition put_reserved (d : disk) (src : R) : disk * R * res ContentRef :=
  match create_temp (stagingRoot c) (str "content-") (str ".stage") d with
  | (d, Err e) => (d, src, Err (wrapStorageError "create staging file" e))
  | (d, Ok (stagingPath, i)) =>
    match put_staged i d src with
    | (d, src, Err e) => ((ignore (remove stagingPath) d).1, src, Err e)
    | (d, src, Ok data) =>
      let '(d, (keepStaging, r)) := put_install stagingPath data d in
      ((if keepStaging : bool then d else (ignore (remove stagingPath) d).1), src, r)
    end
  end.

(** [Store.put] *)
Definition put (s : Store) (src : R) : Store * R * res ContentRef :=
  match ctx_err (st_disk s) with
  | (d, Err e) => (with_disk s d, src, Err e)
  | (d, Ok _) =>
    match reserve c (with_disk s d) with
    | (s, Err e) => (s, src, Err e)
    | (s, Ok _) =>
      let '(d, src, r) := put_reserved (st_disk s) src in
      (unreserve c (with_disk s d), src, r)
    end
  end.

(** [Store.PutLeased]: on success the read lock stays held. *)
Definition PutLeased (s : Store) (src : R) : Store * R * res ContentRef :=
  let s := MkStore (st_disk s) (reservedBytes s) (S (leases s)) in
  match put s src with
  | (s, src, Err e) => (MkStore (st_disk s) (reservedBytes s) (pred (leases s)), src, Err e)
  | (s, src, Ok ref) => (s, src, Ok ref)
  end.

Definition release (s : Store) : Store := MkStore (st_disk s) (reservedBytes s) (pred (leases s)).

(** [Store.Put] *)
Definition Put (s : Store) (src : R) : Store * R * res ContentRef :=
  match PutLeased s src with
  | (s, src, Err e) => (s, src, Err e)
  | (s, src, Ok ref) => (release s, src, Ok ref)
  end.
End Put.

(** ** Deletion and pruning *)

Definition deleteLocked (c : config) (ref : ContentRef) : IO unit :=
  match pathForKey c (Key ref) with
  | Err e => throw e
  | Ok p => λ d,
    match remove p d with
    | (d, Err e) => if errors_is e OsErrNotExist then (d, Ok tt) else (d, Err (EWrap "delete content object" e))
    | (d, Ok _) => wrap (EWrap "sync deleted object directory") (syncDirectory (dir p)) d
    end
  end.

(** [Store.Delete]; [None] while [lifecycleMu] is held by a reader. *)
Definition Delete (c : config) (s : Store) (ref : ContentRef) : option (Store * res unit) :=
  match leases s with
  | O => Some (let '(d, r) := deleteLocked c ref (st_disk s) in (with_disk s d, r))
  | S _ => None
  end.

(** [Store.DeleteUnreferenced] with the caller's reference check. *)
Definition DeleteUnreferenced (c : config) (s : Store) (ref : ContentRef) (referenced : bytes -> res bool)
  : option (Store * res bool) :=
  match leases s with
  | S _ => None
  | O => Some
    match referenced (Key ref) with
    | Err e => (s, Err e)
    | Ok true => (s, Ok false)
    | Ok false =>
      match deleteLocked c ref (st_disk s) with
      | (d, Err e) => (with_disk s d, Err e)
      | (d, Ok _) => (with_disk s d, Ok true)
      end
    end
  end.

Definition is_staging_name (name : bytes) : bool :=
  has_prefix name (str "content-") && has_suffix name (str ".stage").

(** The loop of [PruneStaging]: the number removed and the error. *)
Fixpoint prune_loop (c : config) (cutoff : Z) (l : list (bytes * node)) (removed : Z) (d : disk)
  : disk * Z * option goerr :=
  match l with
  | [] => (d, removed, None)
  | (name, n) :: l =>
    match ctx_err d with
    | (d, Err e) => (d, removed, Some e)
    | (d, Ok _) =>
      if bool_decide (n = NDir) || negb (is_staging_name name) then prune_loop c cutoff l removed d
      else match stat (name :: stagingRoot c) d with
      | (d, Err e) => (d, removed, Some (EWrap "inspect staging file" e))
      | (d, Ok n) =>
        if negb (f_mtime (file_of d n) <? cutoff) then prune_loop c cutoff l removed d
        else match remove (name :: stagingRoot c) d with
        | (d, Err e) =>
          if errors_is e OsErrNotExist then prune_loop c cutoff l (removed + 1) d
          else (d, removed, Some (EWrap "remove staging file" e))
        | (d, Ok _) => prune_loop c cutoff l (removed + 1) d
        end
      end
    end
  end.

Definition PruneStaging (c : config) (cutoff : Z) (d : disk) : disk * Z * option goerr :=
  match read_dir (stagingRoot c) d with
  | (d, Err e) => (d, 0, Some (EWrap "read staging directory" e))
  | (d, Ok l) =>
    match prune_loop c cutoff l 0 d with
    | (d, removed, Some e) => (d, removed, Some e)
    | (d, removed, None) =>
      if 0 <? removed then
        match syncDirectory (stagingRoot c) d with
        | (d, Err e) => (d, removed, Some (EWrap "sync pruned staging directory" e))
        | (d, Ok _) => (d, removed, None)
        end
      else (d, removed, None)
    end
  end.
