(* ===== verification/ContentStoreFacts.v ===== *)
(** * The content store is a durable content-addressed map

    The invariant of the object tree, its preservation by every operation
    under every sequence of system-call failures, durability of [put] across
    power failures, totality of [put], capacity accounting, deletion and
    pruning. *)

From S2P Require Import Prelude GoStrings Errors Codec Uuid FileSystem Message ContentStore.

#[local] Opaque sha256.

(** ** Quiet computations

    Most system calls leave every file, its name and its inode alone: they
    only create directories, make entries durable or look. *)

Definition quiet (d d' : disk) : Prop :=
  d_inodes d' = d_inodes d /\ d_next d' = d_next d /\
  (forall p i, d_tree d' !! p = Some (NFile i) <-> d_tree d !! p = Some (NFile i)) /\
  (forall p, d_tree d !! p = Some NDir -> d_tree d' !! p = Some NDir) /\
  (forall p, d_tree d !! p = Some NDir -> d_durable d !! p = Some NDir -> d_durable d' !! p = Some NDir) /\
  (forall p i, d_tree d !! p = Some (NFile i) -> d_durable d !! p = Some (NFile i) ->
     d_durable d' !! p = Some (NFile i)).

#[global] Instance quiet_preorder : PreOrder quiet.
Proof.
  split.
  - intros d. by repeat split.
  - intros d1 d2 d3 (H1 & H2 & H3 & H4 & H5 & H6) (K1 & K2 & K3 & K4 & K5 & K6).
    split; [congruence|]. split; [congruence|]. split; [intros; by rewrite K3, H3|].
    split; [auto|]. split; [auto|]. intros p i Hp Hd. apply K6; [by apply H3|]. auto.
Qed.

Definition quietly {A} (m : IO A) : Prop := forall d d' r, m d = (d', r) -> quiet d d'.

Lemma quietly_ret {A} (a : A) : quietly (ret a).
Proof. by intros d d' r [= <- <-]. Qed.

Lemma quietly_throw {A} e : quietly (A:=A) (throw e).
Proof. by intros d d' r [= <- <-]. Qed.

Lemma quietly_bind {A B} (m : IO A) (k : A -> IO B) :
  quietly m -> (forall a, quietly (k a)) -> quietly (bind m k).
Proof.
  intros Hm Hk d d' r. unfold bind. destruct (m d) as [d1 [a|e]] eqn:E.
  - intros H. etrans; [by eapply Hm|by eapply Hk].
  - intros [= <- <-]. by eapply Hm.
Qed.

Lemma quietly_wrap {A} f (m : IO A) : quietly m -> quietly (wrap f m).
Proof.
  intros Hm d d' r. unfold wrap. destruct (m d) as [d1 [a|e]] eqn:E; intros [= <- <-]; by eapply Hm.
Qed.

Lemma quietly_attempt : quietly attempt.
Proof.
  intros d d' r. unfold attempt. destruct (d_oracle d) as [|[e|] l]; intros [= <- <-]; [done|..];
    by repeat split.
Qed.

Lemma quietly_ctx_err : quietly ctx_err.
Proof. apply quietly_wrap, quietly_attempt. Qed.

Lemma quietly_if {A} (b : bool) (m1 m2 : IO A) : quietly m1 -> quietly m2 -> quietly (if b then m1 else m2).
Proof. by destruct b. Qed.

(** A computation that inspects the disk and returns it unchanged. *)
Lemma quietly_look {A} (f : disk -> res A) : quietly (λ d, (d, f d)).
Proof. by intros d d' r [= <- <-]. Qed.

Lemma quietly_with {A} (k : disk -> IO A) : (forall d, quietly (k d)) -> quietly (λ d, k d d).
Proof. intros Hk d d' r H. by eapply Hk. Qed.

Lemma sync_entries_lookup p t u q :
  sync_entries p t u !! q = if decide (q <> [] /\ dir q = p) then t !! q else u !! q.
Proof.
  unfold sync_entries. rewrite lookup_union, !map_lookup_filter. unfold entry_of. cbn [fst].
  destruct (decide (q <> [] /\ dir q = p)) as [H|H].
  - destruct (t !! q) as [n|] eqn:Et; cbn.
    + rewrite option_guard_True by done. destruct (u !! q); cbn; [|done].
      rewrite option_guard_False by tauto. done.
    + destruct (u !! q); cbn; [|done]. by rewrite option_guard_False by tauto.
  - destruct (t !! q) as [n|] eqn:Et; cbn.
    + rewrite option_guard_False by done. destruct (u !! q); cbn; [|done]. by rewrite option_guard_True.
    + destruct (u !! q); cbn; [|done]. by rewrite option_guard_True.
Qed.

Lemma quietly_sync_dir p : quietly (sync_dir p).
Proof.
  apply quietly_bind; [apply quietly_attempt|]. intros _ d d' r.
  destruct (is_dir d p); intros [= <- <-]; [|done].
  split; [done|]. split; [done|]. split; [done|]. split; [done|].
  split; intros q; cbn [set_durable d_durable].
  - intros Ht Hd. rewrite sync_entries_lookup. by case_decide.
  - intros i Ht Hd. rewrite sync_entries_lookup. by case_decide.
Qed.

Lemma suffix_cons_cases (q p : path) x : q `suffix_of` x :: p -> q = x :: p \/ q `suffix_of` p.
Proof.
  intros [k Hk]. destruct k as [|y k]; cbn in Hk; [by left|]. injection Hk as _ ->.
  right. by exists k.
Qed.

(** What one level of [mkdir_tree] adds to the tree [t] of its parent. *)
Lemma mkdir_level (p : path) (t t' : gmap path node) :
  (match t !! p with
   | Some (NFile _) => None
   | Some NDir => Some t
   | None => Some (<[p := NDir]> t)
   end) = Some t' ->
  (forall q n, t !! q = Some n -> t' !! q = Some n) /\
  (forall q i, t' !! q = Some (NFile i) -> t !! q = Some (NFile i)) /\
  t' !! p = Some NDir /\ (forall q, q <> p -> t' !! q = t !! q).
Proof.
  destruct (t !! p) as [[i|]|] eqn:E; [done|..]; intros [= <-]; [done|].
  split; [|split; [|split]].
  - intros q n Hq. rewrite lookup_insert_ne; congruence.
  - intros q i. destruct (decide (p = q)) as [<-|]; [by rewrite lookup_insert_eq|].
    by rewrite lookup_insert_ne.
  - by rewrite lookup_insert_eq.
  - intros q Hq. by rewrite lookup_insert_ne.
Qed.

Lemma mkdir_tree_spec p t t' :
  mkdir_tree p t = Some t' ->
  (forall q n, t !! q = Some n -> t' !! q = Some n) /\
  (forall q i, t' !! q = Some (NFile i) -> t !! q = Some (NFile i)) /\
  (forall q, q `suffix_of` p -> t' !! q = Some NDir) /\
  (forall q, ~ q `suffix_of` p -> t' !! q = t !! q).
Proof.
  revert t'. induction p as [|x p IH]; intros t'; cbn [mkdir_tree].
  - intros (H1 & H2 & H3 & H4)%mkdir_level. split; [done|]. split; [done|]. split.
    + by intros q ->%suffix_nil_inv.
    + intros q Hq. apply H4. intros ->. by apply Hq.
  - destruct (mkdir_tree p t) as [t1|]; [|done]. destruct (IH t1 eq_refl) as (H1 & H2 & H3 & H4).
    intros (K1 & K2 & K3 & K4)%mkdir_level. split; [auto|]. split; [auto|]. split.
    + intros q [->|Hq]%suffix_cons_cases; auto.
    + intros q Hq. rewrite K4 by (intros ->; by apply Hq). apply H4. intros Hs. by apply Hq, suffix_cons_r.
Qed.

Lemma quietly_mkdir_all p : quietly (mkdir_all p).
Proof.
  apply quietly_bind; [apply quietly_attempt|]. intros _ d d' r.
  destruct (mkdir_tree p (d_tree d)) as [t|] eqn:E; intros [= <- <-]; [|done].
  destruct (mkdir_tree_spec _ _ _ E) as (H1 & H2 & _).
  split; [done|]. split; [done|]. split; [intros q i; cbn; split; auto|]. split; [cbn; auto|]. by split.
Qed.

Lemma quietly_stat p : quietly (stat p).
Proof.
  apply quietly_bind; [apply quietly_attempt|]. intros _ d d' r.
  by destruct (d_tree d !! p); intros [= <- <-].
Qed.

Lemma quietly_open_file p : quietly (open_file p).
Proof.
  apply quietly_bind; [apply quietly_attempt|]. intros _ d d' r.
  by destruct (d_tree d !! p) as [[?|]|]; intros [= <- <-].
Qed.

Lemma quietly_read_dir p : quietly (read_dir p).
Proof.
  apply quietly_bind; [apply quietly_attempt|]. intros _ d d' r.
  by destruct (is_dir d p); intros [= <- <-].
Qed.

Create HintDb quiet.
#[export] Hint Resolve quietly_ret quietly_throw quietly_attempt quietly_ctx_err
  quietly_sync_dir quietly_mkdir_all quietly_stat quietly_open_file quietly_read_dir : quiet.

Ltac quiet_io :=
  repeat first
    [ match goal with |- forall _, _ => intro end
    | solve [auto with quiet nocore]
    | apply quietly_bind | apply quietly_wrap | apply quietly_if
    | match goal with |- quietly (match ?x with _ => _ end) => destruct x end
    | match goal with |- quietly (let '(_, _) := ?x in _) => destruct x end ].

Lemma quietly_secureDirectory p : quietly (secureDirectory p).
Proof. unfold secureDirectory. quiet_io. Qed.
#[export] Hint Resolve quietly_secureDirectory : quiet.

Lemma quietly_syncDirectory p : quietly (syncDirectory p).
Proof. unfold syncDirectory. quiet_io. Qed.
#[export] Hint Resolve quietly_syncDirectory : quiet.

Lemma quietly_syncDirectoryTree r p : quietly (syncDirectoryTree r p).
Proof. induction p; cbn [syncDirectoryTree]; quiet_io. Qed.
#[export] Hint Resolve quietly_syncDirectoryTree : quiet.

Lemma quietly_OpenContent c ref : quietly (OpenContent c ref).
Proof. unfold OpenContent. quiet_io. Qed.
#[export] Hint Resolve quietly_OpenContent : quiet.

Lemma quietly_hash_file fuel rest hashed : quietly (hash_file fuel rest hashed).
Proof. revert rest hashed. induction fuel; intros; cbn [hash_file]; quiet_io. Qed.
#[export] Hint Resolve quietly_hash_file : quiet.

Lemma quietly_Verify c ref : quietly (Verify c ref).
Proof.
  unfold Verify. apply quietly_if; [quiet_io|]. apply quietly_bind; [quiet_io|]. intros i.
  apply (quietly_with (λ d, let data := f_data (file_of d (NFile i)) in _)). intros d. cbv zeta. quiet_io.
Qed.
#[export] Hint Resolve quietly_Verify : quiet.

Lemma quietly_verify_existing c ref p : quietly (verify_existing c ref p).
Proof.
  unfold verify_existing. apply quietly_bind; [quiet_io|]. intros n d d' r.
  destruct (negb _); [by intros [= <- <-]|]. by apply quietly_wrap, quietly_Verify.
Qed.

Lemma quietly_put_prepare c p : quietly (put_prepare c p).
Proof. unfold put_prepare. quiet_io. Qed.

Lemma quietly_checkCapacityLocked c r q : quietly (checkCapacityLocked c r q).
Proof.
  unfold checkCapacityLocked, filesystemAvailableBytes. apply quietly_bind; [apply quietly_wrap|quiet_io].
  apply quietly_bind; [quiet_io|]. intros _ d d' r'. destruct (d_statfs d) as [bs ba].
  by repeat case_match; intros [= <- <-].
Qed.
#[export] Hint Resolve quietly_verify_existing quietly_put_prepare quietly_checkCapacityLocked : quiet.

(** ** The invariant *)

(** Files of the object tree are synced and sit at the path their own bytes
    hash to. *)
Record disk_ok (c : config) (d : disk) : Prop := {
  ok_next : forall i, is_Some (d_inodes d !! i) -> (i < d_next d)%nat;
  ok_file : forall p i, d_tree d !! p = Some (NFile i) -> is_Some (d_inodes d !! i);
  ok_object : forall p i, d_tree d !! p = Some (NFile i) -> objectsRoot c `suffix_of` p ->
    exists f, d_inodes d !! i = Some f /\ f_synced f = true /\
      pathForKey c (Key (ref_of (f_data f))) = Ok p
}.

Definition stable (d : disk) (p : path) (n : node) : Prop :=
  d_tree d !! p = Some n /\ d_durable d !! p = Some n.

(** What every step other than installing or deleting an object keeps. *)
Record frame (c : config) (d d' : disk) : Prop := {
  fr_name : forall p i, objectsRoot c `suffix_of` p ->
    d_tree d' !! p = Some (NFile i) <-> d_tree d !! p = Some (NFile i);
  fr_inode : forall p i, objectsRoot c `suffix_of` p -> d_tree d !! p = Some (NFile i) ->
    d_inodes d' !! i = d_inodes d !! i;
  fr_dir : forall p, d_tree d !! p = Some NDir -> d_tree d' !! p = Some NDir;
  fr_durable_dir : forall p, stable d p NDir -> stable d' p NDir;
  fr_durable : forall p i, objectsRoot c `suffix_of` p -> stable d p (NFile i) -> stable d' p (NFile i)
}.

#[global] Instance frame_preorder c : PreOrder (frame c).
Proof.
  split; [intros d; by split|]. intros d1 d2 d3 [N1 I1 D1 S1 F1] [N2 I2 D2 S2 F2]. split; eauto.
  - intros p i Hp. by rewrite N2, N1.
  - intros p i Hp H. rewrite (I2 p i Hp); [by eapply I1|]. by apply N1.
Qed.

Lemma quiet_frame c d d' : quiet d d' -> frame c d d'.
Proof.
  intros (H1 & H2 & H3 & H4 & H5 & H6). split; auto.
  - intros. by rewrite H1.
  - intros p [Ht Hd]. split; auto.
  - intros p i _ [Ht Hd]. split; [by apply H3|]. auto.
Qed.

Lemma quiet_ok c d d' : quiet d d' -> disk_ok c d -> disk_ok c d'.
Proof.
  intros (H1 & H2 & H3 & _) [Hn Hf Ho]. split; rewrite H1, ?H2; [done|..].
  - intros p i Hp%H3. eauto.
  - intros p i Hp%H3. eauto.
Qed.

(** The bytes of an object are the same after a step that keeps the frame. *)
Lemma frame_read c d d' p data :
  frame c d d' -> objectsRoot c `suffix_of` p -> read_at d p = Some data -> read_at d' p = Some data.
Proof.
  intros [N I _ _ _] Hp. unfold read_at. destruct (d_tree d !! p) as [[i|]|] eqn:E; [|done|done].
  rewrite (proj2 (N p i Hp) E). by rewrite (I p i Hp E).
Qed.

(** *** Steps that only write to one inode *)

Definition data_of (d : disk) (i : nat) : bytes := f_data (file_of d (NFile i)).

Record writes (i : nat) (d d' : disk) : Prop := {
  wr_tree : d_tree d' = d_tree d;
  wr_durable : d_durable d' = d_durable d;
  wr_next : d_next d' = d_next d;
  wr_other : forall j, j <> i -> d_inodes d' !! j = d_inodes d !! j;
  wr_inode : is_Some (d_inodes d' !! i) <-> is_Some (d_inodes d !! i)
}.

#[global] Instance writes_preorder i : PreOrder (writes i).
Proof.
  split; [intros d; by split|]. intros d1 d2 d3 [T1 D1 N1 O1 S1] [T2 D2 N2 O2 S2].
  split; try congruence; [|tauto]. intros j Hj. by rewrite O2, O1.
Qed.

Definition private (c : config) (d : disk) (i : nat) : Prop :=
  forall p, objectsRoot c `suffix_of` p -> d_tree d !! p <> Some (NFile i).

Lemma writes_ok c i d d' : writes i d d' -> private c d i -> disk_ok c d -> disk_ok c d' /\ frame c d d'.
Proof.
  intros [T D N O S] Hp [Hn Hf Ho].
  assert (forall j, is_Some (d_inodes d' !! j) <-> is_Some (d_inodes d !! j)) as HS.
  { intros j. destruct (decide (j = i)) as [->|]; [done|]. by rewrite O. }
  split; [split|split]; rewrite ?T, ?D, ?N.
  - intros j Hj. apply Hn, HS, Hj.
  - intros p j Hj. apply HS. eauto.
  - intros p j Hj Hr. rewrite O; [eauto|]. intros ->. by apply (Hp p).
  - done.
  - intros p j Hr Hj. apply O. intros ->. by apply (Hp p).
  - done.
  - unfold stable. by rewrite T, D.
  - unfold stable. by rewrite T, D.
Qed.

Lemma quiet_writes_attempt d d' r i : attempt d = (d', r) -> writes i d d' /\ d_inodes d' = d_inodes d.
Proof.
  unfold attempt. destruct (d_oracle d) as [|[e|] l]; intros [= <- <-]; by repeat split.
Qed.

Lemma writes_ctx_err d d' r i : ctx_err d = (d', r) -> writes i d d' /\ d_inodes d' = d_inodes d.
Proof.
  unfold ctx_err, wrap. destruct (attempt d) as [d1 [?|?]] eqn:E; intros [= <- <-]; by eapply quiet_writes_attempt.
Qed.

Lemma ctx_err_not_eof d d' e : ctx_err d = (d', Err e) -> e <> ESentinel IoEOF.
Proof.
  unfold ctx_err, wrap. destruct (attempt d) as [d1 [?|?]]; [done|]. intros [= <- <-].
  case_bool_decide; congruence.
Qed.

Lemma bind_attempt {A} (k : IO A) d d' r :
  (attempt ;;; k) d = (d', r) ->
  (exists d1, attempt d = (d1, Ok tt) /\ k d1 = (d', r)) \/
  (exists e, attempt d = (d', Err e) /\ r = Err e).
Proof.
  unfold bind. destruct (attempt d) as [d1 [[]|e]]; [eauto|]. intros [= <- <-]. eauto.
Qed.

Lemma alter_writes d i f :
  writes i d (set_inodes d (alter f i (d_inodes d))).
Proof.
  split; try done; cbn.
  - intros j Hj. by rewrite lookup_alter_ne.
  - rewrite lookup_alter. case_decide; [|done]. by destruct (d_inodes d !! i).
Qed.

Lemma write_file_spec i out d d' r :
  write_file i out d = (d', r) ->
  writes i d d' /\ (is_Some (d_inodes d !! i) -> r = Ok tt -> data_of d' i = data_of d i ++ out).
Proof.
  intros [(d1 & E & H)|(e & E & ->)]%bind_attempt; apply (quiet_writes_attempt _ _ _ i) in E as [Hw Hi].
  - injection H as <- <-. split; [etrans; [done|apply alter_writes]|]. intros [f Hf] _.
    unfold data_of, file_of. cbn. by rewrite lookup_alter_eq, Hi, Hf.
  - done.
Qed.

Lemma sync_file_spec i d d' r :
  sync_file i d = (d', r) ->
  writes i d d' /\ (is_Some (d_inodes d !! i) -> r = Ok tt ->
    exists f, d_inodes d' !! i = Some f /\ f_data f = data_of d i /\ f_synced f = true).
Proof.
  intros [(d1 & E & H)|(e & E & ->)]%bind_attempt; apply (quiet_writes_attempt _ _ _ i) in E as [Hw Hi].
  - injection H as <- <-. split; [etrans; [done|apply alter_writes]|]. intros [f Hf] _.
    cbn. rewrite lookup_alter_eq, Hi, Hf. eexists. split; [done|]. cbn. unfold data_of, file_of. by rewrite Hf.
  - done.
Qed.

(** ** What a reader delivers *)

Inductive delivers {R} `{!Reader R} : R -> bytes -> R -> Prop :=
| delivers_eof r n r' out : (0 < n)%nat -> rd_read r n = (r', out, Some (ESentinel IoEOF)) -> delivers r out r'
| delivers_more r n r1 out r2 out' : (0 < n)%nat -> rd_read r n = (r1, out, None) ->
    delivers r1 out' r2 -> delivers r (out ++ out') r2.

Lemma delivers_bytes (s data s' : bytes) : delivers s data s' -> data = s.
Proof.
  induction 1 as [s n s' out Hn H|s n s1 out s2 out' Hn H _ IH]; destruct s as [|c s];
    cbn [rd_read bytes_reader] in H; try done; injection H as <- <-; [done|].
  rewrite IH. apply take_drop.
Qed.

Section PutFacts.
Context {R : Type} `{!Reader R} `{!ReaderSpec R} (c : config).

Lemma copy_total fuel i remaining hashed d (src : R) :
  (rd_fuel src < fuel)%nat -> copy_loop fuel i remaining hashed d src <> None.
Proof.
  revert remaining hashed d src. induction fuel as [|fuel IH]; intros remaining hashed d src Hf; [lia|].
  cbn [copy_loop]. destruct (remaining <=? 0) eqn:Er; [done|]. bool_to_prop.
  destruct (ctx_err d) as [d1 [?|?]]; [|done].
  destruct (rd_read src _) as [[src1 out] er] eqn:Erd.
  assert (forall d, match er with
    | None => copy_loop fuel i (remaining - zlen out) (hashed ++ out) d src1
    | Some e => Some (d, src1, if bool_decide (e = ESentinel IoEOF) then Ok (hashed ++ out) else Err e)
    end <> None) as Hk.
  { intros d2. destruct er; [done|]. apply IH. apply rd_progress in Erd; [lia|].
    unfold copyBufferBytes. lia. }
  destruct out as [|x out]; [apply Hk|]. destruct (write_file i (x :: out) d1) as [d2 [?|?]]; [apply Hk|done].
Qed.

Lemma copy_loop_spec fuel i remaining hashed d (src src' : R) d' r :
  copy_loop fuel i remaining hashed d src = Some (d', src', r) ->
  writes i d d' /\
  (is_Some (d_inodes d !! i) -> forall data, r = Ok data ->
   exists out, data = hashed ++ out /\ data_of d' i = data_of d i ++ out /\
     (delivers src out src' \/ remaining <= zlen out)).
Proof.
  revert remaining hashed d src. induction fuel as [|fuel IH]; intros remaining hashed d src; [done|].
  cbn [copy_loop]. destruct (remaining <=? 0) eqn:Er; bool_to_prop.
  { intros [= <- <- <-]. split; [done|]. intros _ data [= <-]. exists []. rewrite !app_nil_r.
    split; [done|]. split; [done|]. right. done. }
  destruct (ctx_err d) as [d1 rc] eqn:Ec. apply (writes_ctx_err _ _ _ i) in Ec as [Hw Hi].
  destruct rc as [u|e]; [|intros [= <- <- <-]; split; [done|]; by intros _ data [=]].
  assert (data_of d1 i = data_of d i) as Hd1 by (unfold data_of, file_of; by rewrite Hi).
  destruct (rd_read src _) as [[src1 out] er] eqn:Erd.
  assert (0 < Nat.min copyBufferBytes (Z.to_nat remaining))%nat as Hn by (unfold copyBufferBytes; lia).
  set (k := λ d2 : disk, match er with
    | None => copy_loop fuel i (remaining - zlen out) (hashed ++ out) d2 src1
    | Some e => Some (d2, src1, if bool_decide (e = ESentinel IoEOF) then Ok (hashed ++ out) else Err e)
    end).
  assert (forall d2, writes i d1 d2 ->
    (is_Some (d_inodes d1 !! i) -> data_of d2 i = data_of d1 i ++ out) ->
    k d2 = Some (d', src', r) ->
    writes i d d' /\ (is_Some (d_inodes d !! i) -> forall data, r = Ok data ->
      exists out, data = hashed ++ out /\ data_of d' i = data_of d i ++ out /\
       (delivers src out src' \/ remaining <= zlen out))) as Hk.
  { intros d2 Hw2 Hd2. unfold k. rewrite Hi in Hd2. destruct er as [e|].
    - intros [= <- <- <-]. split; [by etrans|]. intros Hsome data Hok. exists out.
      case_bool_decide as He; [|done]. injection Hok as <-. rewrite Hd2, Hd1 by done.
      split; [done|]. split; [done|]. left. subst e. by econstructor.
    - intros H. apply IH in H as [Hw3 H3]. split; [etrans; [done|by etrans]|]. intros Hsome data Hok.
      destruct (H3 ltac:(by apply Hw2; rewrite Hi) data Hok) as (out2 & -> & Hd & Hdel).
      exists (out ++ out2). rewrite Hd, Hd2, Hd1, !app_assoc by done. split; [done|]. split; [done|].
      destruct Hdel as [Hdel|Hdel]; [left; by econstructor|right]. rewrite zlen_app. lia. }
  destruct out as [|x out]; [intros H; apply (Hk d1); [done| |done]; by rewrite app_nil_r|].
  destruct (write_file i (x :: out) d1) as [d2 [[]|e]] eqn:Ew; apply write_file_spec in Ew as [Hw2 Hd2].
  - intros H. apply (Hk d2); [done| |done]. auto.
  - intros [= <- <- <-]. split; [by etrans|]. by intros _ data [=].
Qed.

Lemma close_file_writes d d' r i : close_file d = (d', r) -> writes i d d' /\ d_inodes d' = d_inodes d.
Proof. apply quiet_writes_attempt. Qed.

(** The staging file of a put that got past [staging.Close]. *)
Definition staged (d : disk) (i : nat) (data : bytes) : Prop :=
  exists f, d_inodes d !! i = Some f /\ f_data f = data /\ f_synced f = true.

Lemma put_staged_spec i d (src src' : R) d' r :
  put_staged c i d src = (d', src', r) ->
  writes i d d' /\
  (is_Some (d_inodes d !! i) -> data_of d i = [] -> 0 <= maxBytes c < max_int64 ->
   forall data, r = Ok data -> staged d' i data /\ delivers src data src' /\ zlen data <= maxBytes c).
Proof.
  unfold put_staged. destruct (chmod_file d) as [d1 [u|e]] eqn:E1;
    apply (quiet_writes_attempt _ _ _ i) in E1 as [W1 I1].
  2:{ intros [= <- <- <-]. split; [|done]. destruct (close_file d1) as [d2 r2] eqn:E2.
      apply (close_file_writes _ _ _ i) in E2 as [W2 _]. cbn. by etrans. }
  destruct (copy c i d1 src) as [[[d2 src2] [data|e]]|] eqn:E2.
  3:{ intros [= <- <- <-]. by split. }
  2:{ intros [= <- <- <-]. apply copy_loop_spec in E2 as [W2 _]. split; [|done].
      destruct (close_file d2) as [d3 r3] eqn:E3. apply (close_file_writes _ _ _ i) in E3 as [W3 _].
      cbn. etrans; [done|by etrans]. }
  apply copy_loop_spec in E2 as [W2 H2].
  destruct (maxBytes c <? zlen data) eqn:Em; bool_to_prop.
  { unfold bind, ignore, throw. destruct (close_file d2) as [d3 r3] eqn:E3. cbn. intros [= <- <- <-].
    apply (close_file_writes _ _ _ i) in E3 as [W3 _]. split; [etrans; [done|by etrans]|done]. }
  destruct (ctx_err d2) as [d3 [u3|e3]] eqn:E3; apply (writes_ctx_err _ _ _ i) in E3 as [W3 I3].
  2:{ destruct (close_file d3) as [d4 r4] eqn:E4. cbn. intros [= <- <- <-].
      apply (close_file_writes _ _ _ i) in E4 as [W4 _]. split; [|done]. by do 3 (etrans; [done|]). }
  destruct (sync_file i d3) as [d4 [[]|e4]] eqn:E4; apply sync_file_spec in E4 as [W4 H4].
  2:{ destruct (close_file d4) as [d5 r5] eqn:E5. cbn. intros [= <- <- <-].
      apply (close_file_writes _ _ _ i) in E5 as [W5 _]. split; [|done]. by do 4 (etrans; [done|]). }
  unfold wrap, bind, ret. destruct (close_file d4) as [d5 [u5|e5]] eqn:E5;
    apply (close_file_writes _ _ _ i) in E5 as [W5 I5]; cbn; intros [= <- <- <-];
    (split; [by do 4 (etrans; [done|])|]); [|done].
  intros Hsome Hempty Hmax data' [= <-].
  assert (is_Some (d_inodes d1 !! i)) as Hs1 by (by rewrite I1).
  destruct (H2 Hs1 data eq_refl) as (out & -> & Hd & Hdel).
  assert (data_of d1 i = []) as He1 by (unfold data_of, file_of in *; by rewrite I1).
  rewrite He1 in Hd. cbn [app] in Hd |- *.
  destruct H4 as (f & Hf & Hdata & Hsync); [rewrite I3; by apply W2|done|].
  split.
  - exists f. rewrite I5. split; [done|]. split; [|done].
    rewrite Hdata. unfold data_of, file_of in *. by rewrite I3.
  - cbn [app] in Em. rewrite wrap64_small in Hdel by (unfold min_int64; lia).
    destruct Hdel as [Hdel|Hdel]; [done|lia].
Qed.

(** ** Creating and removing names outside the object tree *)

Lemma staging_not_object name : ~ objectsRoot c `suffix_of` name :: stagingRoot c.
Proof.
  unfold objectsRoot, stagingRoot. intros [k Hk].
  assert (length k = 0%nat) as Hl by (apply (f_equal length) in Hk; rewrite length_app in Hk; cbn in Hk; lia).
  destruct k; [|done]. by injection Hk.
Qed.

Lemma create_temp_spec pre post d d' p i :
  disk_ok c d -> create_temp (stagingRoot c) pre post d = (d', Ok (p, i)) ->
  disk_ok c d' /\ frame c d d' /\ private c d' i /\ d_tree d' !! p = Some (NFile i) /\
  is_Some (d_inodes d' !! i) /\ data_of d' i = [] /\ ~ objectsRoot c `suffix_of` p.
Proof.
  intros Hok [(d1 & E & H)|(e & E & [=])]%bind_attempt.
  apply quietly_attempt in E as Q. pose proof (quiet_ok c _ _ Q Hok) as [Hn Hf Ho].
  destruct (is_dir d1 _); [|done]. cbn [negb] in H.
  destruct (d_tree d1 !! _) as [n|] eqn:Ep; [done|]. injection H as <- <- <-.
  set (name := pre ++ _) in *. pose proof (staging_not_object name) as Hs.
  assert (d_inodes d1 !! d_next d1 = None) as Hfresh.
  { destruct (d_inodes d1 !! d_next d1) eqn:E1; [|done]. specialize (Hn (d_next d1) ltac:(by eauto)). lia. }
  assert (forall q, objectsRoot c `suffix_of` q -> q <> name :: stagingRoot c) as Hne by (by intros q Hq ->).
  assert (private c d1 (d_next d1)) as Hpriv.
  { intros q Hq E1. specialize (Hf q _ E1) as [? ?]. congruence. }
  assert (frame c d1 (Disk (<[d_next d1:=File [] false (d_clock d1)]> (d_inodes d1))
    (<[name :: stagingRoot c:=NFile (d_next d1)]> (d_tree d1)) (d_durable d1) (S (d_next d1)) (d_clock d1)
    (d_statfs d1) (d_oracle d1))) as Hframe.
  { assert (forall q n, d_tree d1 !! q = Some n ->
      <[name :: stagingRoot c:=NFile (d_next d1)]> (d_tree d1) !! q = Some n) as Hkeep
      by (intros q n Hq; rewrite lookup_insert_ne; congruence).
    split; cbn.
    - intros q j Hq. rewrite lookup_insert_ne; [done|]. by apply not_eq_sym, Hne.
    - intros q j Hq Hj. rewrite lookup_insert_ne; [done|]. intros <-. by apply (Hpriv q).
    - auto.
    - intros q [H1 H2]. by split; [apply Hkeep|].
    - intros q j Hq [H1 H2]. by split; [apply Hkeep|]. }
  split; [|split; [etrans; [by apply quiet_frame|done]|]].
  - split; cbn.
    + intros j. destruct (decide (j = d_next d1)) as [->|]; [lia|]. rewrite lookup_insert_ne by done.
      intros Hj%Hn. lia.
    + intros q j. destruct (decide (q = name :: stagingRoot c)) as [->|].
      * rewrite lookup_insert_eq. intros [= <-]. rewrite lookup_insert_eq. eauto.
      * rewrite lookup_insert_ne by done. intros Hj%Hf. rewrite lookup_insert_is_Some. destruct (decide (d_next d1 = j)); auto.
    + intros q j Hq Hr. rewrite lookup_insert_ne in Hq by (by apply not_eq_sym, Hne).
      rewrite lookup_insert_ne; [by eapply Ho|]. intros <-. by apply (Hpriv q).
  - split; [|split; [by cbn; rewrite lookup_insert_eq|split; [cbn; rewrite lookup_insert_eq; eauto|split; [|done]]]].
    + intros q Hq. cbn. rewrite lookup_insert_ne by (by apply not_eq_sym, Hne). by apply Hpriv.
    + unfold data_of, file_of. cbn. by rewrite lookup_insert_eq.
Qed.

(** Removing a name outside the object tree. *)
Lemma remove_spec p d d' r :
  ~ objectsRoot c `suffix_of` p -> disk_ok c d -> remove p d = (d', r) -> disk_ok c d' /\ frame c d d'.
Proof.
  intros Hp Hok [(d1 & E & H)|(e & E & _)]%bind_attempt; apply quietly_attempt in E as Q.
  2:{ split; [by eapply quiet_ok|by apply quiet_frame]. }
  pose proof (quiet_ok c _ _ Q Hok) as Hok1. apply (quiet_frame c) in Q.
  destruct (d_tree d1 !! p) as [[i|]|] eqn:Et; injection H as <- <-; [|by split..].
  destruct Hok1 as [Hn Hf Ho].
  assert (forall q, objectsRoot c `suffix_of` q -> q <> p) as Hne by (by intros q Hq ->).
  split.
  - split; cbn; [done|..].
    + intros q j [_ Hj]%lookup_delete_Some. eauto.
    + intros q j [_ Hj]%lookup_delete_Some. eauto.
  - etrans; [done|]. split; cbn.
    + intros q j Hq. by rewrite lookup_delete_ne by (by apply not_eq_sym, Hne).
    + done.
    + intros q Hq. rewrite lookup_delete_ne; [done|]. congruence.
    + intros q [H1 H2]. split; cbn; [rewrite lookup_delete_ne; [done|congruence]|done].
    + intros q j Hq [H1 H2]. split; cbn; [by rewrite lookup_delete_ne by (by apply not_eq_sym, Hne)|done].
Qed.
End PutFacts.

(** ** Names of objects *)

Lemma relativePathForKey_canonical digest :
  canonical_digest digest ->
  relativePathForKey (sha256_prefix ++ digest) = Ok [digest; take 2 (drop 2 digest); take 2 digest].
Proof.
  intros [Hl Hx]. unfold relativePathForKey, digestHexLength, digestBytes.
  rewrite has_prefix_app, trim_prefix_app. cbn [negb].
  rewrite (proj2 (Z.eqb_eq _ _)) by (unfold zlen; lia).
  rewrite bool_decide_eq_true_2 by (by apply lower_hex_lower). cbn [negb orb].
  destruct (lower_hex_decode digest 32) as (d & -> & Hd); [done|lia|].
  by rewrite (proj2 (Z.eqb_eq _ _)) by (unfold zlen; rewrite Hd; done).
Qed.

(** Only canonical keys name a path, and the path determines the key. *)
Lemma relativePathForKey_inv key p :
  relativePathForKey key = Ok p ->
  exists digest, key = sha256_prefix ++ digest /\ canonical_digest digest /\
    p = [digest; take 2 (drop 2 digest); take 2 digest].
Proof.
  unfold relativePathForKey, digestHexLength. destruct (has_prefix key sha256_prefix) eqn:Hp; [|done].
  cbn [negb]. set (digest := trim_prefix key sha256_prefix).
  destruct (zlen digest =? 64) eqn:E1; [|done]. cbn [negb orb].
  case_bool_decide as E2; [|done]. cbn [negb].
  destruct (hex_decode digest) as [decoded|] eqn:E3; [|done].
  destruct (zlen decoded =? _); [|done]. intros [= <-]. bool_to_prop.
  exists digest. split; [by apply has_prefix_split|]. split; [|done]. split; [unfold zlen in E1; lia|].
  by eapply hex_decode_lower.
Qed.

Lemma pathForKey_inv c key p :
  pathForKey c key = Ok p ->
  exists digest, key = sha256_prefix ++ digest /\ canonical_digest digest /\
    p = [digest; take 2 (drop 2 digest); take 2 digest] ++ objectsRoot c.
Proof.
  unfold pathForKey. destruct (relativePathForKey key) as [q|] eqn:E; [|done]. intros [= <-].
  apply relativePathForKey_inv in E as (digest & -> & Hd & ->). eauto.
Qed.

Lemma pathForKey_inj c key key' p : pathForKey c key = Ok p -> pathForKey c key' = Ok p -> key = key'.
Proof.
  intros (g & -> & _ & ->)%pathForKey_inv (g' & -> & _ & Hp)%pathForKey_inv. by injection Hp as ->.
Qed.

Lemma pathForKey_object c key p : pathForKey c key = Ok p -> objectsRoot c `suffix_of` p.
Proof. intros (g & _ & _ & ->)%pathForKey_inv. by eexists. Qed.

Lemma ref_of_canonical data : canonical_digest (hex_encode (sha256 data)).
Proof. split; [by rewrite length_hex_encode, sha256_length|apply hex_encode_lower]. Qed.

Lemma pathForKey_ref c data : exists p, pathForKey c (Key (ref_of data)) = Ok p.
Proof.
  unfold pathForKey. cbn [Key ref_of].
  rewrite (relativePathForKey_canonical _ (ref_of_canonical data)). eauto.
Qed.

Lemma hex_encode_inj s t : hex_encode s = hex_encode t -> s = t.
Proof. intros H. pose proof (hex_decode_encode s) as E. rewrite H, hex_decode_encode in E. congruence. Qed.

Lemma ref_key_digest a b : Key (ref_of a) = Key (ref_of b) -> sha256 a = sha256 b.
Proof. intros H%app_inv_head. by apply hex_encode_inj. Qed.

(** ** Growing: every object survives, possibly with a new one beside it *)

Record grown (c : config) (d d' : disk) : Prop := {
  gr_name : forall p i, objectsRoot c `suffix_of` p -> d_tree d !! p = Some (NFile i) ->
    d_tree d' !! p = Some (NFile i) /\ d_inodes d' !! i = d_inodes d !! i;
  gr_durable_dir : forall p, stable d p NDir -> stable d' p NDir;
  gr_durable : forall p i, objectsRoot c `suffix_of` p -> stable d p (NFile i) -> stable d' p (NFile i)
}.

#[global] Instance grown_preorder c : PreOrder (grown c).
Proof.
  split; [intros d; by split|]. intros d1 d2 d3 [N1 D1 F1] [N2 D2 F2]. split; eauto.
  intros p i Hp H. destruct (N1 p i Hp H) as [H1 E1]. destruct (N2 p i Hp H1) as [H2 E2].
  split; [done|congruence].
Qed.

Lemma frame_grown c d d' : frame c d d' -> grown c d d'.
Proof. intros [N I D S F]. split; auto. intros p i Hp H. split; [by apply N|by eapply I]. Qed.

Lemma quiet_grown c d d' : quiet d d' -> grown c d d'.
Proof. intros H. by apply frame_grown, quiet_frame. Qed.

Lemma grown_read c d d' p data :
  grown c d d' -> objectsRoot c `suffix_of` p -> read_at d p = Some data -> read_at d' p = Some data.
Proof.
  intros [N _ _] Hp. unfold read_at. destruct (d_tree d !! p) as [[i|]|] eqn:E; [|done|done].
  destruct (N p i Hp E) as [-> Hi]. by rewrite Hi.
Qed.

(** ** Syncing *)

Lemma attempt_tree d d' r : attempt d = (d', r) -> d_tree d' = d_tree d /\ d_durable d' = d_durable d.
Proof. intros [[] _]%(fun H => quiet_writes_attempt d d' r 0 H). done. Qed.

Lemma wrap_ok {A} f (m : IO A) d d' a : wrap f m d = (d', Ok a) -> m d = (d', Ok a).
Proof. unfold wrap. by destruct (m d) as [d1 [x|e]]; intros [= <- <-]. Qed.

Lemma bind_ok {A B} (m : IO A) (k : A -> IO B) d d' b :
  bind m k d = (d', Ok b) -> exists d1 a, m d = (d1, Ok a) /\ k a d1 = (d', Ok b).
Proof. unfold bind. destruct (m d) as [d1 [a|e]]; [eauto|done]. Qed.

Lemma syncDirectory_ok p d d' u :
  syncDirectory p d = (d', Ok u) ->
  d_tree d' = d_tree d /\ d_tree d !! p = Some NDir /\
  (forall q, q <> [] -> dir q = p -> d_durable d' !! q = d_tree d !! q) /\
  (forall q, d_durable d !! q = d_tree d !! q -> d_durable d' !! q = d_tree d !! q).
Proof.
  intros (d1 & ? & E1%wrap_ok & (d2 & ? & E2%wrap_ok & (d3 & ? & E3 & H)%wrap_ok%bind_ok)%bind_ok)%bind_ok.
  apply attempt_tree in E1 as [T1 D1], E2 as [T2 D2], E3 as [T3 D3].
  unfold is_dir in H. case_bool_decide as Hd; [|done]. injection H as <- <-. cbn.
  rewrite T3, T2, T1 in *. split; [done|]. split; [done|]. rewrite D3, D2, D1.
  split; intros q; rewrite sync_entries_lookup; case_decide; tauto.
Qed.

Lemma secureDirectory_tree p d d' r :
  secureDirectory p d = (d', r) -> d_tree d' = d_tree d /\ d_durable d' = d_durable d.
Proof.
  assert (forall d d' r, stat p d = (d', r) -> d_tree d' = d_tree d /\ d_durable d' = d_durable d) as Hstat.
  { intros e e' r'. intros [(d1 & E & H)|(x & E & _)]%bind_attempt; apply attempt_tree in E as [T D]; [|done].
    rewrite <- T, <- D. by destruct (d_tree d1 !! p); injection H as <- <-. }
  unfold secureDirectory, bind, wrap. destruct (attempt d) as [d1 [?|?]] eqn:E1;
    apply attempt_tree in E1 as [T1 D1]; [|by intros [= <- <-]].
  destruct (stat p d1) as [d2 [n|e]] eqn:E2; apply Hstat in E2 as [T2 D2]; [|intros [= <- <-]; by rewrite T2, D2].
  rewrite <- T1, <- D1, <- T2, <- D2. by destruct n; intros [= <- <-].
Qed.

Lemma syncDirectoryTree_ok root p d d' u :
  syncDirectoryTree root p d = (d', Ok u) ->
  d_tree d' = d_tree d /\
  (forall q, q <> [] -> dir q `suffix_of` p -> root `suffix_of` dir q ->
     d_durable d' !! q = d_tree d !! q /\ d_tree d !! dir q = Some NDir) /\
  (forall q, d_durable d !! q = d_tree d !! q -> d_durable d' !! q = d_tree d !! q).
Proof.
  revert d. induction p as [|x p IH]; intros d; cbn [syncDirectoryTree];
    intros (d1 & ? & [T1 D1]%secureDirectory_tree &
      (d2 & ? & (T2 & Hd & Hq & Hk)%syncDirectory_ok & H)%bind_ok)%bind_ok;
    rewrite T1, D1 in *; case_bool_decide as Hroot.
  - injection H as <- <-. split; [done|]. split; [|done]. intros q Hne Hs%suffix_nil_inv _.
    rewrite Hs. split; [by apply Hq|done].
  - done.
  - injection H as <- <-. split; [done|]. split; [|done]. intros q Hne Hs1 Hs2.
    assert (dir q = x :: p) as Hdq.
    { subst root. apply (anti_symm suffix); done. }
    rewrite Hdq. auto.
  - destruct (negb _); [done|]. apply IH in H as (T3 & H1 & H2). rewrite T2 in *.
    split; [done|]. split; [|auto]. intros q Hne [Heq|Hs1]%suffix_cons_cases Hs2; [|auto].
    rewrite Heq. auto.
Qed.

(** ** Verification *)

Lemma hash_file_ok fuel rest hashed d d' x : hash_file fuel rest hashed d = (d', Ok x) -> x = hashed ++ rest.
Proof.
  revert rest hashed d. induction fuel as [|fuel IH]; intros rest hashed d; cbn [hash_file]; [done|].
  intros (d1 & ? & _ & (d2 & ? & _ & H)%bind_ok)%bind_ok. destruct rest as [|y rest].
  - injection H as _ <-. by rewrite app_nil_r.
  - apply IH in H. by rewrite H, <- app_assoc, take_drop.
Qed.

Lemma open_file_ok p d d' i : open_file p d = (d', Ok i) -> d_tree d !! p = Some (NFile i).
Proof.
  intros (d1 & ? & [T _]%attempt_tree & H)%bind_ok. rewrite T in H.
  destruct (d_tree d !! p) as [[j|]|]; [|done..]. by injection H as _ ->.
Qed.

Lemma Verify_ok c ref d d' u :
  disk_ok c d -> Verify c ref d = (d', Ok u) ->
  exists p i f, pathForKey c (Key ref) = Ok p /\ d_tree d !! p = Some (NFile i) /\
    d_inodes d !! i = Some f /\ ref = ref_of (f_data f).
Proof.
  intros Hok. unfold Verify. destruct (SizeBytes ref <? 0); [done|].
  intros (d1 & i & E & H)%bind_ok. cbn zeta beta in H.
  apply bind_ok in H as (d2 & x & Hx%wrap_ok%hash_file_ok & H). cbn in Hx.
  destruct (zlen x =? SizeBytes ref) eqn:Es; [|done]. cbn [negb] in H. case_bool_decide as Ek; [|done].
  bool_to_prop. apply quietly_OpenContent in E as Q. unfold OpenContent in E.
  destruct (relativePathForKey (Key ref)) as [q|] eqn:Er; [|done].
  apply bind_ok in E as (d3 & ? & [T3 _]%wrap_ok%attempt_tree & E%wrap_ok).
  apply open_file_ok in E. rewrite T3 in E.
  destruct (ok_file _ _ Hok _ _ E) as [f Hf].
  exists (q ++ objectsRoot c), i, f. unfold pathForKey. rewrite Er. split; [done|]. split; [done|].
  split; [done|]. destruct Q as (Hi & _). unfold file_of in Hx. rewrite Hi, Hf in Hx. cbn in Hx. subst x.
  destruct ref as [k sz]. cbn in *. subst. done.
Qed.

(** ** Installing an object *)

Lemma link_cases src dst d d' r :
  link src dst d = (d', r) ->
  (exists d1 n, attempt d = (d1, Ok tt) /\ r = Ok tt /\ d_tree d !! src = Some n /\ d_tree d !! dst = None /\
     d_tree d !! dir dst = Some NDir /\ d' = set_tree d1 (<[dst := n]> (d_tree d1))) \/
  (exists e, r = Err e /\ quiet d d' /\ d_tree d' = d_tree d /\ d_durable d' = d_durable d).
Proof.
  intros [(d1 & E & H)|(e & E & ->)]%bind_attempt; apply attempt_tree in E as T; apply quietly_attempt in E as Q.
  2:{ right. by exists e. }
  destruct T as [T D]. rewrite T in H. unfold is_dir in H. rewrite T in H.
  destruct (d_tree d !! src) as [n|]; [|injection H as <- <-; right; by eexists].
  case_bool_decide as Hd; cbn [negb] in H; [|injection H as <- <-; right; by eexists].
  destruct (d_tree d !! dst) as [m|] eqn:Em; injection H as <- <-; [right; by eexists|].
  left. exists d1, n. by rewrite T.
Qed.

Section Install.
Context {R : Type} `{!Reader R} `{!ReaderSpec R} (c : config).

Lemma link_object_installs staging dst i data d d1 d' :
  disk_ok c d -> private c d i -> d_tree d !! staging = Some (NFile i) -> staged d i data ->
  pathForKey c (Key (ref_of data)) = Ok dst -> attempt d = (d1, Ok tt) -> d_tree d !! dst = None ->
  d' = set_tree d1 (<[dst := NFile i]> (d_tree d1)) ->
  disk_ok c d' /\ grown c d d'.
Proof.
  intros Hok Hpriv Hst (f & Hf & <- & Hsync) Hdst E Hnone ->.
  apply quietly_attempt in E as Q. destruct (quiet_ok c _ _ Q Hok) as [Hn Hfl Ho].
  destruct Q as (Q1 & Q2 & Q3 & Q4 & Q5 & Q6). apply attempt_tree in E as [T D].
  split; [split; cbn|split; cbn].
  - done.
  - intros p j. rewrite lookup_insert_Some. intros [[<- [= <-]]|[_ H]]; [rewrite Q1; eauto|eauto].
  - intros p j. rewrite lookup_insert_Some. intros [[<- [= <-]]|[_ H]] Hr; [|eauto].
    exists f. by rewrite Q1.
  - intros p j Hp Hj. rewrite Q1, T. split; [|done]. rewrite lookup_insert_ne; congruence.
  - intros p [H1 H2]. split; cbn; [|by rewrite D]. rewrite T, lookup_insert_ne; congruence.
  - intros p j Hp [H1 H2]. split; cbn; [|by rewrite D]. rewrite T, lookup_insert_ne; congruence.
Qed.

(** The directory of the object is there, durably, and so is everything in it. *)
Lemma put_prepare_ok dst key d d' u :
  pathForKey c key = Ok dst -> put_prepare c dst d = (d', Ok u) ->
  stable d' (dir dst) NDir /\ stable d' (dir (dir dst)) NDir /\
  d_durable d' !! dst = d_tree d' !! dst /\ d_tree d' !! dst = d_tree d !! dst.
Proof.
  intros (g & _ & _ & ->)%pathForKey_inv. unfold put_prepare. cbn [app dir tail].
  intros (d1 & ? & (d0 & ? & [T0 D0]%attempt_tree & E1)%wrap_ok%bind_ok & E2%wrap_ok)%bind_ok.
  destruct (mkdir_tree _ (d_tree d0)) as [t|] eqn:Em; [|done]. injection E1 as <- _.
  apply mkdir_tree_spec in Em as (_ & _ & Hdirs & Hrest).
  apply syncDirectoryTree_ok in E2 as (T & Hs & _). cbn [set_tree d_tree] in T, Hs.
  unfold stable. rewrite T.
  set (a := take 2 g) in *. set (b := take 2 (drop 2 g)) in *.
  assert (b :: a :: objectsRoot c `suffix_of` b :: a :: objectsRoot c) as S0 by done.
  assert (a :: objectsRoot c `suffix_of` b :: a :: objectsRoot c) as S1 by by apply suffix_cons_r.
  assert (objectsRoot c `suffix_of` b :: a :: objectsRoot c) as S2 by by do 2 apply suffix_cons_r.
  assert (objectsRoot c `suffix_of` a :: objectsRoot c) as S3 by by apply suffix_cons_r.
  split; [|split].
  - rewrite (proj1 (Hs (b :: a :: objectsRoot c) ltac:(done) S1 S3)). by rewrite (Hdirs _ S0).
  - rewrite (proj1 (Hs (a :: objectsRoot c) ltac:(done) S2 ltac:(done))). by rewrite (Hdirs _ S1).
  - split; [by apply (Hs (g :: b :: a :: objectsRoot c))|]. rewrite <- T0. apply Hrest.
    intros [k Hk]. apply (f_equal length) in Hk. rewrite length_app in Hk. cbn in Hk. lia.
Qed.

Lemma put_finish_spec staging ref d d' k r :
  ~ objectsRoot c `suffix_of` staging -> disk_ok c d -> put_finish c staging ref d = (d', (k, r)) ->
  disk_ok c d' /\ grown c d d' /\ (forall x, r = Ok x -> x = ref).
Proof.
  intros Hs Hok. unfold put_finish. destruct (remove staging d) as [d1 rr] eqn:E1.
  apply (remove_spec c) in E1 as [Hok1 F1]; [|done..].
  assert (forall d2 r2, wrap (wrapStorageError "sync staging directory") (syncDirectory (stagingRoot c)) d1 = (d2, r2) ->
    disk_ok c d2 /\ grown c d d2) as Hsync.
  { intros d2 r2 E2. apply (quietly_wrap _ _ (quietly_syncDirectory _)) in E2.
    split; [by eapply quiet_ok|]. etrans; [by apply frame_grown|by apply quiet_grown]. }
  destruct (wrap _ _ d1) as [d2 [u|e]] eqn:E2; specialize (Hsync _ _ eq_refl) as [Hok2 G2];
    destruct rr as [|e']; [..|destruct (errors_is e' OsErrNotExist)| |destruct (errors_is e' OsErrNotExist)];
    intros [= <- <- <-]; (split; [done|]); (split; [first [done|by apply frame_grown]|]); congruence.
Qed.

(** An object that is where its bytes belong, whatever happens to the power. *)
Definition installed (d : disk) (data : bytes) : Prop :=
  exists p i f, pathForKey c (Key (ref_of data)) = Ok p /\ stable d p (NFile i) /\
    d_inodes d !! i = Some f /\ f_synced f = true /\
    sha256 (f_data f) = sha256 data /\ zlen (f_data f) = zlen data /\
    stable d (dir p) NDir /\ stable d (dir (dir p)) NDir.

Lemma installed_grown d d' data : grown c d d' -> installed d data -> installed d' data.
Proof.
  intros [N D F] (p & i & f & Hp & Hs & Hi & Hrest & H1 & H2 & H3 & H4).
  pose proof (pathForKey_object _ _ _ Hp) as Hr. exists p, i, f.
  destruct (N p i Hr (proj1 Hs)) as [_ ->]. eauto 12.
Qed.

Lemma put_linked_exists staging dst data e d d' k r :
  disk_ok c d -> ~ objectsRoot c `suffix_of` staging -> pathForKey c (Key (ref_of data)) = Ok dst ->
  put_linked c staging dst (ref_of data) (Some e) d = (d', (k, r)) ->
  disk_ok c d' /\ grown c d d' /\
  (forall ref, r = Ok ref -> ref = ref_of data /\
    exists i f, d_tree d !! dst = Some (NFile i) /\ d_inodes d !! i = Some f /\ ref_of data = ref_of (f_data f)).
Proof.
  intros Hok Hs Hdst. unfold put_linked. destruct (errors_is e OsErrExist).
  2:{ intros [= <- <- <-]. split; [done|]. split; [reflexivity|done]. }
  destruct (verify_existing c (ref_of data) dst d) as [d1 rv] eqn:E1.
  apply quietly_verify_existing in E1 as Q1. destruct rv as [u|e1].
  2:{ intros [= <- <- <-]. split; [by eapply quiet_ok|]. split; [by apply quiet_grown|done]. }
  intros (Hok2 & G2 & Hr)%put_finish_spec; [|done|by eapply quiet_ok].
  split; [done|]. split; [etrans; [by apply quiet_grown|done]|]. intros ref Href. split; [by apply Hr|].
  unfold verify_existing in E1. apply bind_ok in E1 as (d2 & n & E2%wrap_ok & E3).
  destruct (negb _); [done|]. apply wrap_ok, Verify_ok in E3 as (p & i & f & Hp & Ht & Hi & He);
    [|apply quietly_stat in E2; by eapply quiet_ok].
  assert (p = dst) as -> by congruence. apply quietly_stat in E2 as (I2 & _ & T2 & _).
  exists i, f. rewrite <- I2. by rewrite <- T2.
Qed.

Lemma put_install_spec staging i data d d' k r :
  disk_ok c d -> private c d i -> d_tree d !! staging = Some (NFile i) -> staged d i data ->
  ~ objectsRoot c `suffix_of` staging -> put_install c staging data d = (d', (k, r)) ->
  disk_ok c d' /\ grown c d d' /\ (forall ref, r = Ok ref -> ref = ref_of data /\ installed d' data).
Proof.
  intros Hok Hpriv Hst Hstaged Hs. unfold put_install.
  destruct (pathForKey_ref c data) as [dst Hdst]. rewrite Hdst.
  pose proof (pathForKey_object _ _ _ Hdst) as Hobj.
  destruct (put_prepare c dst d) as [d1 rp] eqn:E1. apply quietly_put_prepare in E1 as Q1.
  pose proof (quiet_ok c _ _ Q1 Hok) as Hok1. pose proof (quiet_grown c _ _ Q1) as G1.
  destruct rp as [u|e1]; [|by intros [= <- <- <-]].
  eapply put_prepare_ok in E1 as (SD1 & SD2 & Hsync & _); [|done].
  destruct Q1 as (I1 & _ & T1 & _). unfold link_object.
  assert (private c d1 i) as Hpriv1 by (intros q Hq Hn%T1; by apply (Hpriv q)).
  destruct (link staging dst d1) as [d2 rl] eqn:E2.
  apply link_cases in E2 as [(d1' & n & Ea & -> & Hn & Hnone & Hdir & ->)|(e & -> & Q2 & T2 & D2)].
  - rewrite (proj2 (T1 staging i) Hst) in Hn. injection Hn as <-.
    assert (staged d1 i data) as Hstaged1 by (unfold staged; by rewrite I1).
    destruct (link_object_installs staging dst i data d1 d1' _ Hok1 Hpriv1 (proj2 (T1 _ _) Hst) Hstaged1 Hdst Ea Hnone eq_refl)
      as [Hok2 G2].
    set (d2 := set_tree _ _) in *. unfold put_linked.
    destruct (wrap _ (syncDirectory (dir dst)) d2) as [d3 rs] eqn:E3.
    apply (quietly_wrap _ _ (quietly_syncDirectory _)) in E3 as Q3.
    pose proof (quiet_ok c _ _ Q3 Hok2) as Hok3. pose proof (quiet_grown c _ _ Q3) as G3.
    destruct rs as [[]|e3]; [|intros [= <- <- <-]; split; [done|]; split; [by do 2 (etrans; [done|])|done]].
    apply wrap_ok, syncDirectory_ok in E3 as (T3 & _ & Hd3 & _).
    assert (installed d3 data) as Hinst.
    { destruct Hstaged1 as (f & Hf & Hdata & Hsy). destruct Q3 as (I3 & _).
      apply quietly_attempt in Ea as (Ia & _).
      exists dst, i, f. split; [done|]. split; [|split; [by rewrite I3; cbn; rewrite Ia|]].
      - split; [rewrite T3; cbn; by rewrite lookup_insert_eq|].
        rewrite Hd3; [cbn; by rewrite lookup_insert_eq| |done].
        intros ->. by apply suffix_nil_inv in Hobj.
      - subst data. split; [done|]. split; [done|]. split; [done|].
        split; apply G3, G2; done. }
    intros (Hok4 & G4 & Hr)%put_finish_spec; [|done|done].
    split; [done|]. split; [by do 3 (etrans; [done|])|]. intros ref Href. split; [by apply Hr|].
    by eapply installed_grown.
  - pose proof (quiet_ok c _ _ Q2 Hok1) as Hok2. pose proof (quiet_grown c _ _ Q2) as G2.
    intros (Hok3 & G3 & Hr)%put_linked_exists; [|done..].
    split; [done|]. split; [by do 2 (etrans; [done|])|]. intros ref Href.
    destruct (Hr ref Href) as (-> & j & f & Hj & Hf & He). split; [done|].
    apply (installed_grown d2); [done|]. destruct (ok_object _ _ Hok2 _ _ Hj Hobj) as (f' & Hf' & Hsy & _).
    assert (f' = f) as -> by congruence. exists dst, j, f.
    split; [done|]. split; [split; [done|]; by rewrite D2, Hsync, <- T2|]. split; [done|]. split; [done|].
    split; [symmetry; apply ref_key_digest; by rewrite He|]. split; [exact (eq_sym (f_equal SizeBytes He))|].
    unfold stable. rewrite T2, D2. by split.
Qed.

Lemma put_reserved_spec d (src src' : R) d' r :
  disk_ok c d -> 0 <= maxBytes c < max_int64 -> put_reserved c d src = (d', src', r) ->
  disk_ok c d' /\ grown c d d' /\
  (forall ref, r = Ok ref -> exists data, delivers src data src' /\ ref = ref_of data /\
     zlen data <= maxBytes c /\ installed d' data).
Proof.
  intros Hok Hmax. unfold put_reserved.
  destruct (create_temp _ _ _ d) as [d1 [[staging i]|e]] eqn:E1.
  2:{ intros [= <- <- <-]. split; [|split; [|done]].
      - apply (bind_attempt) in E1 as [(d2 & E & H)|(e' & E & _)].
        + apply quietly_attempt in E as Q. destruct (is_dir d2 _); [|injection H as <- <-; by eapply quiet_ok].
          cbn [negb] in H. destruct (d_tree d2 !! _); [injection H as <- <-; by eapply quiet_ok|done].
        + apply quietly_attempt in E. by eapply quiet_ok.
      - apply (bind_attempt) in E1 as [(d2 & E & H)|(e' & E & _)].
        + apply quietly_attempt in E as Q. destruct (is_dir d2 _); [|injection H as <- <-; by apply quiet_grown].
          cbn [negb] in H. destruct (d_tree d2 !! _); [injection H as <- <-; by apply quiet_grown|done].
        + apply quietly_attempt in E. by apply quiet_grown. }
  apply create_temp_spec in E1 as (Hok1 & F1 & Hpriv & Hname & Hsome & Hempty & Hns); [|done].
  apply frame_grown in F1.
  destruct (put_staged c i d1 src) as [[d2 src2] rs] eqn:E2.
  apply put_staged_spec in E2 as [W2 H2]. destruct (writes_ok c i d1 d2 W2 Hpriv Hok1) as [Hok2 F2].
  apply frame_grown in F2.
  assert (forall d3 d4 r4, disk_ok c d3 -> grown c d d3 -> ignore (remove staging) d3 = (d4, r4) ->
    disk_ok c d4 /\ grown c d d4 /\ grown c d3 d4) as Hrm.
  { intros d3 d4 r4 Hok3 G3. unfold ignore. destruct (remove staging d3) as [d5 r5] eqn:E5.
    apply (remove_spec c) in E5 as [Hok5 F5]; [|done..]. intros [= <- _]. cbn. apply frame_grown in F5.
    split; [done|]. split; [by etrans|done]. }
  destruct rs as [data|e2].
  2:{ destruct (ignore _ d2) as [d3 r3] eqn:E3. apply Hrm in E3 as (Hok3 & G3 & _); [|done|by etrans].
      intros [= <- <- <-]. by split. }
  destruct (H2 Hsome Hempty Hmax data eq_refl) as (Hstaged & Hdel & Hlen).
  assert (private c d2 i) as Hpriv2 by (intros q Hq; rewrite (wr_tree _ _ _ W2); by apply Hpriv).
  destruct (put_install c staging data d2) as [d3 [k r3]] eqn:E3.
  eapply put_install_spec in E3 as (Hok3 & G3 & Hr3);
    [|done|done|by rewrite (wr_tree _ _ _ W2)|done|done].
  assert (grown c d d3) as G03 by (by do 2 (etrans; [done|])).
  destruct k.
  - intros [= <- <- <-]. split; [done|]. split; [done|]. intros ref Href.
    destruct (Hr3 ref Href). eauto 10.
  - destruct (ignore _ d3) as [d4 r4] eqn:E4. apply Hrm in E4 as (Hok4 & G4 & G34); [|done..].
    intros [= <- <- <-]. split; [done|]. split; [done|]. intros ref Href.
    destruct (Hr3 ref Href) as [-> Hin]. exists data. repeat split; try done. by eapply installed_grown.
Qed.
End Install.

(** ** Reservations *)

Lemma checkCapacityLocked_ok c reserved requested d d' u :
  checkCapacityLocked c reserved requested d = (d', Ok u) ->
  0 <= minFreeBytes c /\ 0 <= requested /\ 0 <= reserved /\
  exists bsize bavail, d_statfs d = (bsize, bavail) /\ 0 < bsize /\
    minFreeBytes c + reserved + requested <= Z.min max_int64 (bavail * bsize).
Proof.
  unfold checkCapacityLocked.
  intros (d1 & avail & (d0 & ? & E0 & E1)%wrap_ok%bind_ok & (d2 & ? & _ & H)%bind_ok)%bind_ok.
  assert (d_statfs d0 = d_statfs d) as Hs.
  { revert E0. unfold attempt. by destruct (d_oracle d) as [|[e|] l]; intros [= <-]. }
  destruct (_ || _) eqn:Eb in H; [done|]. destruct (_ || _) eqn:Ec in H; [done|].
  apply orb_false_iff in Eb as [[Eb1 Eb2]%orb_false_iff Eb3].
  apply orb_false_iff in Ec as [[Ec1 Ec2]%orb_false_iff Ec3]. bool_to_prop.
  do 3 (split; [done|]). destruct (d_statfs d0) as [bs ba] eqn:Est. exists bs, ba.
  split; [done|]. destruct (bs <=? 0) eqn:Ebs; [done|]. bool_to_prop. split; [done|].
  assert (avail <= ba * bs) as Hav.
  { destruct (max_uint64 / bs <? ba) eqn:Eo; injection E1 as _ <-; [|done]. bool_to_prop.
    pose proof (Z.mod_pos_bound max_uint64 bs Ebs). pose proof (Z.div_mod max_uint64 bs ltac:(lia)). nia. }
  destruct (avail <=? max_int64) eqn:Em; bool_to_prop; lia.
Qed.

Lemma reserve_ok c s s' :
  0 <= maxBytes c -> reserve c s = (s', Ok tt) ->
  quiet (st_disk s) (st_disk s') /\ leases s' = leases s /\
  reservedBytes s' = reservedBytes s + maxBytes c /\
  0 <= reservedBytes s /\ reservedBytes s + maxBytes c <= max_int64.
Proof.
  intros Hm. unfold reserve. destruct ((ctx_err ;;; _) (st_disk s)) as [d [u|e]] eqn:E; [|done].
  intros [= <-]. assert (quietly (ctx_err ;;; checkCapacityLocked c (reservedBytes s) (maxBytes c))) as Q by quiet_io.
  apply Q in E as Q'. apply bind_ok in E as (d1 & ? & _ & H).
  apply checkCapacityLocked_ok in H as (H1 & H2 & H3 & bs & ba & _ & _ & H4).
  split; [done|]. split; [done|]. cbn. rewrite wrap64_small by (unfold min_int64; lia). lia.
Qed.

Lemma reserve_err c s s' e :
  reserve c s = (s', Err e) ->
  quiet (st_disk s) (st_disk s') /\ leases s' = leases s /\ reservedBytes s' = reservedBytes s.
Proof.
  unfold reserve. destruct ((ctx_err ;;; _) (st_disk s)) as [d [u|e']] eqn:E; [done|].
  intros [= <- <-]. assert (quietly (ctx_err ;;; checkCapacityLocked c (reservedBytes s) (maxBytes c))) as Q by quiet_io.
  by apply Q in E as Q'.
Qed.

(** ** [put] as a whole *)

Lemma put_spec {R} `{!Reader R} `{!ReaderSpec R} c s (src src' : R) s' r :
  disk_ok c (st_disk s) -> 0 <= maxBytes c < max_int64 -> put c s src = (s', src', r) ->
  disk_ok c (st_disk s') /\ grown c (st_disk s) (st_disk s') /\
  reservedBytes s' = reservedBytes s /\ leases s' = leases s /\
  (forall ref, r = Ok ref -> exists data, delivers src data src' /\ ref = ref_of data /\
     zlen data <= maxBytes c /\ installed c (st_disk s') data).
Proof.
  intros Hok Hmax. unfold put. destruct (ctx_err (st_disk s)) as [d [u|e]] eqn:E0;
    apply quietly_ctx_err in E0 as Q0; pose proof (quiet_ok c _ _ Q0 Hok) as Hok0; apply (quiet_grown c) in Q0.
  2:{ intros [= <- <- <-]. by split. }
  destruct (reserve c (with_disk s d)) as [s1 [[]|e]] eqn:E1.
  2:{ apply reserve_err in E1 as (Q1 & Hl & Hr). intros [= <- <- <-]. cbn in *.
      split; [by eapply quiet_ok|]. split; [etrans; [done|by apply quiet_grown]|]. by rewrite Hl, Hr. }
  apply reserve_ok in E1 as (Q1 & Hl & Hr & Hpos & Hle); [|lia].
  pose proof (quiet_ok c _ _ Q1 Hok0) as Hok1. apply (quiet_grown c) in Q1. cbn in *.
  destruct (put_reserved c (st_disk s1) src) as [[d2 src2] r2] eqn:E2.
  apply put_reserved_spec in E2 as (Hok2 & G2 & Hr2); [|done..]. intros [= <- <- <-]. cbn.
  split; [done|]. split; [by do 2 (etrans; [done|])|]. rewrite Hl, Hr.
  split; [|done]. rewrite wrap64_small; unfold min_int64, max_int64 in *; lia.
Qed.

(** A power failure does not lose an installed object. *)
Lemma installed_crash c d d' data :
  installed c d data -> crash d d' ->
  exists p stored, pathForKey c (Key (ref_of data)) = Ok p /\ read_at d' p = Some stored /\
    sha256 stored = sha256 data /\ zlen stored = zlen data /\
    d_tree d' !! dir p = Some NDir /\ d_tree d' !! dir (dir p) = Some NDir.
Proof.
  intros (p & i & f & Hp & [Ht Hd] & Hi & Hsy & Hh & Hl & [D1 D1'] & [D2 D2']) [Hc Hf].
  destruct (Hf i f Hi Hsy) as (f' & Hf' & Hdata). exists p, (f_data f). unfold read_at.
  assert (d_tree d' !! p = Some (NFile i)) as -> by (destruct (Hc p); congruence).
  rewrite Hf'. cbn. rewrite Hdata. repeat split; try done; [destruct (Hc (dir p))|destruct (Hc (dir (dir p)))]; congruence.
Qed.

(** ** Without faults [put] succeeds *)

Section NoFaults.
Context (c : config).

Definition calm (d : disk) : Prop := d_oracle d = [].

Lemma attempt_calm d : calm d -> attempt d = (d, Ok tt).
Proof. unfold calm, attempt. by intros ->. Qed.

Lemma ctx_err_calm d : calm d -> ctx_err d = (d, Ok tt).
Proof. intros H. unfold ctx_err, wrap. by rewrite attempt_calm. Qed.

Lemma bind_attempt_calm {A} (k : IO A) d : calm d -> (attempt ;;; k) d = k d.
Proof. intros H. unfold bind. by rewrite attempt_calm. Qed.

Lemma copy_loop_calm fuel i remaining hashed d (src : bytes) :
  calm d -> (length src < fuel)%nat -> zlen src < remaining ->
  exists d', copy_loop fuel i remaining hashed d src = Some (d', [], Ok (hashed ++ src)) /\ calm d' /\
    d_statfs d' = d_statfs d.
Proof.
  revert remaining hashed d src. induction fuel as [|fuel IH]; intros remaining hashed d src Hc Hf Hr; [lia|].
  cbn [copy_loop]. pose proof (zlen_nonneg src). destruct (remaining <=? 0) eqn:E; bool_to_prop; [lia|].
  rewrite ctx_err_calm by done. destruct src as [|x src].
  - cbn [rd_read bytes_reader]. rewrite bool_decide_eq_true_2 by done. eauto.
  - cbn [rd_read bytes_reader].
    set (n := Nat.min copyBufferBytes (Z.to_nat remaining)) in *.
    assert (0 < n)%nat as Hn by (unfold n, copyBufferBytes; lia).
    destruct n as [|n]; [lia|]. cbn [take drop].
    unfold write_file. rewrite bind_attempt_calm by done.
    set (d1 := set_inodes d _).
    destruct (IH (remaining - zlen (x :: take n src)) (hashed ++ x :: take n src) d1 (drop n src)) as (d' & E' & H' & S');
      [done|rewrite length_drop; cbn [length] in Hf; lia| |].
    { rewrite zlen_cons in *. pose proof (f_equal zlen (take_drop n src)) as Htd. rewrite zlen_app in Htd. lia. }
    rewrite <- app_assoc in E'. cbn [app] in E'. rewrite take_drop in E'. by exists d'.
Qed.

Lemma put_staged_calm i d (src : bytes) :
  calm d -> zlen src <= maxBytes c < max_int64 ->
  exists d', put_staged c i d src = (d', [], Ok src) /\ calm d'.
Proof.
  intros Hc Hm. pose proof (zlen_nonneg src). unfold put_staged, chmod_file. rewrite attempt_calm by done.
  unfold copy. destruct (copy_loop_calm (S (length src)) i (wrap64 (maxBytes c + 1)) [] d src) as (d1 & E1 & C1 & _);
    [done|lia|rewrite wrap64_small; unfold min_int64; lia|].
  cbn [rd_fuel bytes_reader]. rewrite E1. cbn [app].
  destruct (maxBytes c <? zlen src) eqn:Em; bool_to_prop; [lia|]. rewrite ctx_err_calm by done.
  unfold sync_file. rewrite bind_attempt_calm by done. cbn zeta beta.
  set (d2 := set_inodes d1 _). assert (calm d2) as C2 by done.
  unfold wrap, close_file. rewrite bind_attempt_calm by done. by exists d2.
Qed.

Lemma mkdir_tree_succeeds (p : path) (t : gmap path node) :
  (forall (q : path) i, q `suffix_of` p -> t !! q <> Some (NFile i)) -> exists t', mkdir_tree p t = Some t'.
Proof.
  induction p as [|x p IH]; intros H; cbn [mkdir_tree].
  - destruct (t !! []) as [[i|]|] eqn:E; [|eauto..]. by exfalso; eapply (H [] i).
  - destruct IH as [t' E']; [intros q i Hq; apply H; by apply suffix_cons_r|]. rewrite E'.
    destruct (mkdir_tree_spec _ _ _ E') as (_ & H2 & _ & H4).
    destruct (t' !! (x :: p)) as [[i|]|] eqn:E; [|eauto..].
    by exfalso; eapply (H (x :: p) i), H2.
Qed.

Lemma secureDirectory_calm p d : calm d -> d_tree d !! p = Some NDir -> secureDirectory p d = (d, Ok tt).
Proof.
  intros Hc Hd. unfold secureDirectory, wrap, bind. rewrite attempt_calm by done.
  unfold stat. rewrite bind_attempt_calm by done. by rewrite Hd.
Qed.

Lemma syncDirectory_calm p d :
  calm d -> d_tree d !! p = Some NDir ->
  syncDirectory p d = (set_durable d (sync_entries p (d_tree d) (d_durable d)), Ok tt).
Proof.
  intros Hc Hd. unfold syncDirectory, wrap. unfold bind at 1 2. rewrite attempt_calm by done.
  rewrite attempt_calm by done. unfold sync_dir. rewrite bind_attempt_calm by done.
  unfold is_dir. by rewrite bool_decide_eq_true_2.
Qed.

Lemma strip_common_app (l k : list bytes) : strip_common l (l ++ k) = ([], k).
Proof. induction l as [|x l IH]; cbn; [by destruct k|]. by rewrite bool_decide_eq_true_2. Qed.

Lemma isWithinRoot_app k r : last k <> Some (str "..") -> isWithinRoot r (k ++ r) = true.
Proof.
  intros H. unfold isWithinRoot, Rel. rewrite reverse_app, strip_common_app. cbn [length replicate app].
  destruct (reverse k) as [|y l] eqn:E; [done|]. apply negb_true_iff, bool_decide_eq_false. intros ->.
  apply H. by rewrite <- (reverse_involutive k), E, reverse_cons, last_snoc.
Qed.

Lemma syncDirectoryTree_calm k r d :
  calm d -> (forall x, x ∈ k -> x <> str "..") ->
  (forall q, q `suffix_of` k ++ r -> r `suffix_of` q -> d_tree d !! q = Some NDir) ->
  exists d', syncDirectoryTree r (k ++ r) d = (d', Ok tt) /\ calm d' /\
    d_tree d' = d_tree d /\ d_inodes d' = d_inodes d.
Proof.
  revert d. induction k as [|x k IH]; intros d Hc Hk Hd.
  - cbn [app] in *. pose proof (Hd r ltac:(done) ltac:(done)) as Hr.
    destruct r as [|y r]; cbn [syncDirectoryTree]; unfold bind;
      rewrite secureDirectory_calm, syncDirectory_calm by done; rewrite bool_decide_eq_true_2 by done;
      unfold ret; eexists; (split; [reflexivity|]); by repeat split.
  - assert (r `suffix_of` (x :: k) ++ r) as Hr by (by exists (x :: k)).
    cbn [app syncDirectoryTree] in *. unfold bind.
    assert (d_tree d !! (x :: k ++ r) = Some NDir) as Hdir by (by apply Hd).
    rewrite secureDirectory_calm, syncDirectory_calm by done. rewrite bool_decide_eq_false_2.
    2:{ intros E. apply (f_equal length) in E. cbn in E. rewrite length_app in E. lia. }
    rewrite isWithinRoot_app. 2:{ intros Hl%last_Some_elem_of. apply (Hk (str "..")); [by right|done]. }
    cbn [negb]. set (d1 := set_durable d _).
    destruct (IH d1) as (d' & E & C & T & I).
    + done.
    + intros y Hy. apply Hk. by right.
    + intros q Hq1 Hq2. apply Hd; [by apply suffix_cons_r|done].
    + exists d'. by rewrite E.
Qed.

Lemma hash_file_calm fuel rest hashed d :
  calm d -> (length rest < fuel)%nat -> hash_file fuel rest hashed d = (d, Ok (hashed ++ rest)).
Proof.
  intros Hc. revert rest hashed. induction fuel as [|fuel IH]; intros rest hashed Hf; [lia|].
  cbn [hash_file]. unfold bind. rewrite ctx_err_calm, attempt_calm by done.
  destruct rest as [|x rest]; [by rewrite app_nil_r|].
  rewrite IH.
  - by rewrite <- app_assoc, take_drop.
  - rewrite length_drop. unfold copyBufferBytes. cbn [length] in *. lia.
Qed.

(** Verification of an object whose bytes match the reference. *)
Lemma Verify_calm d data p i f :
  calm d -> pathForKey c (Key (ref_of data)) = Ok p -> d_tree d !! p = Some (NFile i) ->
  d_inodes d !! i = Some f -> ref_of (f_data f) = ref_of data ->
  Verify c (ref_of data) d = (d, Ok tt).
Proof.
  intros Hc Hp Ht Hi He. unfold Verify. destruct (SizeBytes (ref_of data) <? 0) eqn:E.
  { bool_to_prop. pose proof (zlen_nonneg data). cbn [SizeBytes ref_of] in E. lia. }
  unfold bind at 1, OpenContent. unfold pathForKey in Hp.
  destruct (relativePathForKey _) as [q|]; [|done]. injection Hp as <-.
  unfold bind at 1, wrap at 1. rewrite attempt_calm by done. unfold wrap at 1, open_file.
  rewrite bind_attempt_calm, Ht by done. cbn zeta beta. unfold file_of. rewrite Hi.
  change (default (File [] false 0) (Some f)) with f.
  unfold bind, wrap. rewrite hash_file_calm by (done || lia). cbn [app].
  rewrite <- He. cbn [SizeBytes Key ref_of]. rewrite Z.eqb_refl. cbn [negb].
  by rewrite bool_decide_eq_true_2.
Qed.

Lemma put_prepare_calm d key dst :
  calm d -> disk_ok c d -> pathForKey c key = Ok dst ->
  (forall q, q `suffix_of` objectsRoot c -> d_tree d !! q = Some NDir) ->
  exists d', put_prepare c dst d = (d', Ok tt) /\ calm d'.
Proof.
  intros Hc Hok (g & _ & [Hlen Hhex] & ->)%pathForKey_inv Hdirs. unfold put_prepare. cbn [app dir tail].
  unfold bind at 1, wrap at 1, mkdir_all. rewrite bind_attempt_calm by done.
  set (a := take 2 g) in *. set (b := take 2 (drop 2 g)) in *.
  destruct (mkdir_tree_succeeds (b :: a :: objectsRoot c) (d_tree d)) as [t E].
  { intros q i Hq Hf.
    assert (objectsRoot c `suffix_of` q -> length q = (3 + length (objectsRoot c))%nat) as Hl.
    { intros Hr. destruct (ok_object _ _ Hok q i Hf Hr) as (f & _ & _ & (g' & _ & _ & ->)%pathForKey_inv).
      by rewrite length_app. }
    apply suffix_cons_cases in Hq as [->|[->|Hq]%suffix_cons_cases].
    - specialize (Hl ltac:(by do 2 apply suffix_cons_r)). cbn in Hl. lia.
    - specialize (Hl ltac:(by apply suffix_cons_r)). cbn in Hl. lia.
    - rewrite (Hdirs q Hq) in Hf. done. }
  rewrite E. apply mkdir_tree_spec in E as (_ & _ & Hd & _). unfold wrap at 1.
  assert (str ".." ∉ [b; a]) as Hnd.
  { assert (forall x : bytes, forallb lower_hex x = true -> x <> str "..") as Hx by (by intros x Hx ->).
    intros [H|[H|H]%elem_of_cons]%elem_of_cons; [| |by apply elem_of_nil in H];
      symmetry in H; revert H; apply Hx; apply forallb_forall; intros x Hin;
      rewrite forallb_forall in Hhex; apply Hhex, list_elem_of_In; apply list_elem_of_In in Hin;
      apply elem_of_take in Hin as (k & Hk & _); [rewrite lookup_drop in Hk|]; by eapply list_elem_of_lookup_2. }
  destruct (syncDirectoryTree_calm [b; a] (objectsRoot c) (set_tree d t)) as (d' & E' & Hd' & _).
  - done.
  - intros x Hx ->. done.
  - intros q Hq _. by apply Hd.
  - cbn [app] in E'. rewrite E'. by exists d'.
Qed.

Lemma remove_calm p d : calm d -> calm (remove p d).1 /\
  forall i, d_tree d !! p = Some (NFile i) -> remove p d = (set_tree d (delete p (d_tree d)), Ok tt).
Proof.
  intros Hc. unfold remove. rewrite bind_attempt_calm by done.
  split; [by destruct (d_tree d !! p) as [[?|]|]|]. by intros i ->.
Qed.

Lemma put_finish_calm staging ref d i :
  calm d -> d_tree d !! staging = Some (NFile i) -> d_tree d !! stagingRoot c = Some NDir ->
  exists d', put_finish c staging ref d = (d', (false, Ok ref)) /\ calm d'.
Proof.
  intros Hc Hs Hr. unfold put_finish. rewrite (proj2 (remove_calm staging d Hc) i Hs).
  unfold wrap. rewrite syncDirectory_calm; [by eexists|done|]. cbn. rewrite lookup_delete_ne; congruence.
Qed.

Lemma put_install_calm staging i data d :
  calm d -> disk_ok c d -> private c d i -> d_tree d !! staging = Some (NFile i) -> staged d i data ->
  ~ objectsRoot c `suffix_of` staging ->
  (forall q, q `suffix_of` objectsRoot c -> d_tree d !! q = Some NDir) ->
  d_tree d !! stagingRoot c = Some NDir ->
  (forall p stored, pathForKey c (Key (ref_of data)) = Ok p -> read_at d p = Some stored -> zlen stored = zlen data) ->
  (forall p, pathForKey c (Key (ref_of data)) = Ok p -> d_tree d !! p <> Some NDir) ->
  exists d', put_install c staging data d = (d', (false, Ok (ref_of data))) /\ calm d'.
Proof.
  intros Hc Hok Hpriv Hst Hstaged Hns Hdirs Hsr Hcoll Hnd. unfold put_install.
  destruct (pathForKey_ref c data) as [dst Hdst]. rewrite Hdst.
  specialize (Hcoll dst). specialize (Hnd dst Hdst).
  destruct (put_prepare_calm d _ dst Hc Hok Hdst Hdirs) as (d1 & E1 & C1). rewrite E1.
  apply quietly_put_prepare in E1 as Q1. pose proof (quiet_ok c _ _ Q1 Hok) as Hok1.
  eapply put_prepare_ok in E1 as (S1 & _ & _ & Hsame); [|done]. destruct Q1 as (I1 & N1 & T1 & D1 & _).
  unfold link_object, link. rewrite bind_attempt_calm by done. rewrite (proj2 (T1 staging i) Hst).
  unfold is_dir. rewrite (proj1 S1), bool_decide_eq_true_2 by done. cbn [negb].
  destruct (d_tree d1 !! dst) as [n|] eqn:Edst.
  - unfold put_linked. cbn [errors_is]. rewrite bool_decide_eq_true_2 by done.
    destruct n as [j|].
    2:{ exfalso. apply Hnd. congruence. }
    pose proof (pathForKey_object _ _ _ Hdst) as Hobj.
    destruct (ok_object _ _ Hok1 _ _ Edst Hobj) as (f & Hf & Hsy & Hp).
    pose proof (pathForKey_inj _ _ _ _ Hdst Hp) as Hkey.
    assert (zlen (f_data f) = zlen data) as Hz.
    { apply Hcoll; [done|]. unfold read_at. apply T1 in Edst. rewrite Edst, <- I1, Hf. done. }
    assert (ref_of (f_data f) = ref_of data) as He by (unfold ref_of in *; cbn [Key] in *; by rewrite Hz, <- Hkey).
    unfold verify_existing. unfold bind, wrap at 1, stat. rewrite bind_attempt_calm, Edst by done.
    unfold file_of. rewrite Hf. change (default (File [] false 0) (Some f)) with f.
    cbn [SizeBytes ref_of]. rewrite Hz, Z.eqb_refl. cbn [negb]. unfold wrap.
    rewrite (Verify_calm d1 data dst j f) by done.
    apply (put_finish_calm _ _ _ i); [done|by apply T1|by apply D1].
  - unfold put_linked. set (d2 := set_tree d1 _). unfold wrap.
    rewrite (syncDirectory_calm (dir dst) d2).
    + apply (put_finish_calm _ _ _ i); [done|cbn..].
      * rewrite lookup_insert_ne; [by apply T1|]. intros ->. apply T1 in Hst. congruence.
      * rewrite lookup_insert_ne; [by apply D1|]. intros E. rewrite E in Edst. by rewrite (D1 _ Hsr) in Edst.
    + done.
    + cbn. rewrite lookup_insert_ne; [apply S1|]. intros E. pose proof (proj1 S1) as H1. congruence.
Qed.
End NoFaults.
