(* ===== verification/ContentStoreSpec.v ===== *)
(** * Properties of the content store

    Durability and totality of [put], the object invariant under every
    operation, exact verification, deletion and pruning, and the schedule in
    which two concurrent puts of the same bytes lose durability. *)

From S2P Require Import Prelude GoStrings Errors Codec Uuid FileSystem Message ContentStore ContentStoreFacts.

#[local] Opaque sha256.

(** A store as [Open] leaves it: its directories exist and survive a crash. *)
Definition opened (c : config) (d : disk) : Prop :=
  (forall q, q `suffix_of` objectsRoot c -> d_tree d !! q = Some NDir) /\
  d_tree d !! stagingRoot c = Some NDir /\
  stable d (objectsRoot c) NDir /\ stable d (dir (objectsRoot c)) NDir /\ stable d (stagingRoot c) NDir.

(** ** A concrete store *)

Module Demo.
Definition cfg : config := MkConfig [str "data"] 1000 4096.
Definition blank : disk := Disk ∅ ∅ ∅ 0 5 (4096, 1000) [].
Definition store : Store :=
  match Open cfg blank with (_, Ok s) => s | (_, Err _) => MkStore blank 0 0 end.
Definition hello : bytes := str "hello".
Definition one : Store := (put cfg store hello).1.1.

(** A disk with no files satisfies the invariant. *)
Lemma no_files_ok (c : config) (d : disk) :
  d_inodes d = ∅ -> forallb (λ kv : path * node, bool_decide (kv.2 = NDir)) (map_to_list (d_tree d)) = true ->
  disk_ok c d.
Proof.
  intros Hi Hd. rewrite forallb_forall in Hd.
  assert (forall p i, d_tree d !! p <> Some (NFile i)) as Hn.
  { intros p i H%elem_of_map_to_list%list_elem_of_In%Hd. by bool_to_prop. }
  split; [rewrite Hi; intros i [? [=]]|..]; intros p i H; by apply Hn in H.
Qed.

Lemma store_ok : disk_ok cfg (st_disk store).
Proof. apply no_files_ok; vm_compute; reflexivity. Qed.

Lemma store_opened : opened cfg (st_disk store).
Proof.
  split; [|by vm_compute].
  intros q [->|[->|[->| ->%suffix_nil_inv]%suffix_cons_cases]%suffix_cons_cases]%suffix_cons_cases;
    vm_compute; reflexivity.
Qed.
Lemma put_hello : put cfg store hello = (one, [], Ok (ref_of hello)).
Proof.
  assert ((put cfg store hello).1.2 = []) as H1 by (vm_compute; reflexivity).
  assert ((put cfg store hello).2 = Ok (ref_of hello)) as H2 by (vm_compute; reflexivity).
  unfold one. destruct (put cfg store hello) as [[s r] x]. cbn in *. by subst.
Qed.
End Demo.

(** ** Durability *)

(** C29: an acknowledged message is on disk.  When [put] returns a reference,
    the reference is the size and SHA-256 key of exactly the bytes the reader
    delivered before its end, these fit the configured limit, and whatever a
    power failure does next, the object's directories are still there and
    the file at the object's path still has that size and digest: under any
    sequence of system-call failures before the successful return. *)
Theorem put_durable {R : Type} `{!Reader R} `{!ReaderSpec R} (c : config) (s s' : Store) (src src' : R) (ref : ContentRef) :
  disk_ok c (st_disk s) -> opened c (st_disk s) -> 0 <= maxBytes c < max_int64 ->
  put c s src = (s', src', Ok ref) ->
  exists data, delivers src data src' /\ ref = ref_of data /\ zlen data <= maxBytes c /\
    forall d', crash (st_disk s') d' ->
      exists p stored, pathForKey c (Key ref) = Ok p /\ read_at d' p = Some stored /\
        sha256 stored = sha256 data /\ zlen stored = zlen data /\
        forall q, q ∈ [dir p; dir (dir p); objectsRoot c; dir (objectsRoot c)] -> d_tree d' !! q = Some NDir.
Proof.
  intros Hok (_ & _ & Ho1 & Ho2 & _) Hm (_ & G & _ & _ & H)%put_spec; [|done..].
  destruct (H ref eq_refl) as (data & Hdel & -> & Hlen & Hin). exists data.
  do 3 (split; [done|]). intros d' Hcr.
  destruct (installed_crash _ _ _ _ Hin Hcr) as (p & stored & Hp & Hr & Hh & Hl & D1 & D2).
  exists p, stored. do 4 (split; [done|]). destruct Hcr as [Hcr _].
  apply (gr_durable_dir _ _ _ G) in Ho1 as [Ht1 Hd1], Ho2 as [Ht2 Hd2].
  intros q Hq. repeat (apply elem_of_cons in Hq as [->|Hq]); [done|done|..|by apply elem_of_nil in Hq].
  - destruct (Hcr (objectsRoot c)); congruence.
  - destruct (Hcr (dir (objectsRoot c))); congruence.
Qed.

Lemma put_durable_witness :
  exists data, delivers Demo.hello data [] /\ ref_of Demo.hello = ref_of data /\ zlen data <= 1000 /\
    forall d', crash (st_disk Demo.one) d' ->
      exists p stored, pathForKey Demo.cfg (Key (ref_of Demo.hello)) = Ok p /\ read_at d' p = Some stored /\
        sha256 stored = sha256 data /\ zlen stored = zlen data /\
        forall q, q ∈ [dir p; dir (dir p); objectsRoot Demo.cfg; dir (objectsRoot Demo.cfg)] ->
          d_tree d' !! q = Some NDir.
Proof.
  apply (put_durable Demo.cfg Demo.store Demo.one Demo.hello []).
  - apply Demo.store_ok.
  - apply Demo.store_opened.
  - done.
  - apply Demo.put_hello.
Defined.

(** ** Totality *)

(** [put] accepts every message it should.  Without system-call failures,
    with the directories in place, an unused staging name, room for one more
    maximum-size message above the free-space floor and no object of another
    size under the same digest, [put] stores any content of at most
    [maxBytes] bytes and returns its reference. *)
Theorem put_succeeds (c : config) (s : Store) (src : bytes) (bsize bavail : Z) :
  disk_ok c (st_disk s) -> opened c (st_disk s) -> d_oracle (st_disk s) = [] ->
  zlen src <= maxBytes c < max_int64 ->
  d_statfs (st_disk s) = (bsize, bavail) -> 0 < bsize -> 0 <= minFreeBytes c -> 0 <= reservedBytes s ->
  minFreeBytes c + reservedBytes s + maxBytes c <= Z.min max_int64 (bavail * bsize) ->
  d_tree (st_disk s) !! ((str "content-" ++ format_int (Z.of_nat (d_next (st_disk s))) ++ str ".stage") :: stagingRoot c) = None ->
  (forall p stored, pathForKey c (Key (ref_of src)) = Ok p -> read_at (st_disk s) p = Some stored -> zlen stored = zlen src) ->
  (forall p, pathForKey c (Key (ref_of src)) = Ok p -> d_tree (st_disk s) !! p <> Some NDir) ->
  exists s', put c s src = (s', [], Ok (ref_of src)).
Proof.
  intros Hok (Hdirs & Hsr & _) Hc Hm Hst Hbs Hmin Hres Hcap Hname Hcoll Hnd.
  pose proof (zlen_nonneg src).
  assert (checkCapacityLocked c (reservedBytes s) (maxBytes c) (st_disk s) = (st_disk s, Ok tt)) as Ecap.
  { unfold checkCapacityLocked, bind at 1, wrap, filesystemAvailableBytes.
    rewrite bind_attempt_calm, Hst by done. cbn zeta beta.
    destruct (bsize <=? 0) eqn:E; bool_to_prop; [lia|].
    assert (Hguard : (minFreeBytes c <? 0) || (maxBytes c <? 0) || (reservedBytes s <? 0) = false)
      by (rewrite !orb_false_iff, !Z.ltb_ge; lia).
    destruct (max_uint64 / bsize <? bavail) eqn:Eo; unfold bind; rewrite ctx_err_calm, Hguard by done.
    - change (max_uint64 <=? max_int64) with false. cbn iota beta zeta.
      rewrite (proj2 (orb_false_iff _ _)); [done|]. rewrite orb_false_iff, !Z.ltb_ge. lia.
    - rewrite (proj2 (orb_false_iff _ _)); [done|].
      rewrite orb_false_iff, !Z.ltb_ge. destruct (bavail * bsize <=? max_int64) eqn:Em; bool_to_prop; lia. }
  unfold put. rewrite ctx_err_calm by done. unfold reserve. cbn [with_disk st_disk reservedBytes leases].
  unfold bind at 1. rewrite ctx_err_calm, Ecap by done. cbn [st_disk].
  unfold put_reserved. destruct (create_temp _ _ _ (st_disk s)) as [d1 r1] eqn:E1.
  assert (exists i, d_oracle d1 = [] /\ r1 = Ok ((str "content-" ++ format_int (Z.of_nat i) ++ str ".stage") :: stagingRoot c, i)
    /\ d_tree d1 = <[((str "content-" ++ format_int (Z.of_nat i) ++ str ".stage") :: stagingRoot c) := NFile i]> (d_tree (st_disk s)))
    as (i & C1 & -> & T1).
  { unfold create_temp in E1. rewrite bind_attempt_calm in E1 by done. unfold is_dir in E1.
    rewrite Hsr, bool_decide_eq_true_2 in E1 by done. cbn [negb] in E1. rewrite Hname in E1.
    injection E1 as <- <-. by eexists. }
  apply create_temp_spec in E1 as (Hok1 & F1 & Hp1 & Hn1 & Hs1 & He1 & Hns); [|done].
  destruct (put_staged_calm c i d1 src C1 ltac:(lia)) as (d2 & E2 & C2). rewrite E2.
  apply put_staged_spec in E2 as [W2 H2].
  destruct (H2 Hs1 He1 ltac:(lia) src eq_refl) as (Hstaged & _ & _).
  destruct (writes_ok c i d1 d2 W2 Hp1 Hok1) as [Hok2 F2].
  pose proof (transitivity F1 F2) as F.
  destruct (put_install_calm c ((str "content-" ++ format_int (Z.of_nat i) ++ str ".stage") :: stagingRoot c) i src d2)
    as (d3 & -> & C3); try done.
  - intros q Hq. rewrite (wr_tree _ _ _ W2). by apply Hp1.
  - by rewrite (wr_tree _ _ _ W2).
  - intros q Hq. apply (fr_dir _ _ _ F). by apply Hdirs.
  - by apply (fr_dir _ _ _ F).
  - intros p stored Hp Hread. apply (Hcoll p stored Hp). pose proof (pathForKey_object _ _ _ Hp) as Ho.
    unfold read_at in *. destruct (d_tree d2 !! p) as [[j|]|] eqn:Ej; [|done|done].
    apply (fr_name _ _ _ F) in Ej; [|done]. rewrite Ej. by rewrite <- (fr_inode _ _ _ F p j Ho Ej).
  - intros p Hp. rewrite (wr_tree _ _ _ W2), T1. pose proof (pathForKey_object _ _ _ Hp) as Ho.
    rewrite lookup_insert_ne; [by apply Hnd|]. intros <-. by apply staging_not_object in Ho.
  - by eexists.
Qed.

Lemma put_succeeds_witness : exists s', put Demo.cfg Demo.store Demo.hello = (s', [], Ok (ref_of Demo.hello)).
Proof.
  apply (put_succeeds Demo.cfg Demo.store Demo.hello 4096 1000);
    [apply Demo.store_ok|apply Demo.store_opened|by vm_compute..| |].
  - intros p stored _ Hr.
    assert (forall p, read_at (st_disk Demo.store) p = None) as Hn.
    { intros q. unfold read_at. destruct (d_tree (st_disk Demo.store) !! q) as [[i|]|]; [|done|done].
      replace (d_inodes (st_disk Demo.store)) with (∅ : gmap nat file) by (vm_compute; reflexivity). done. }
    rewrite Hn in Hr. done.
  - intros p Hp Hd.
    assert (forallb (λ kv : path * node, (length kv.1 <=? 3)%nat) (map_to_list (d_tree (st_disk Demo.store))) = true) as Hl
      by (vm_compute; reflexivity).
    rewrite forallb_forall in Hl. apply elem_of_map_to_list, list_elem_of_In, Hl, Nat.leb_le in Hd.
    apply pathForKey_inv in Hp as (g & _ & _ & ->). cbn in Hd. lia.
Defined.

(** ** The invariant *)

(** [put] never harms an object.  Whatever it returns and whatever
    fails on the way, afterwards every file of the object tree still is
    synced and sits at the path of its own digest, every object that existed
    has the same bytes, and the capacity reservation and the lease count are
    what they were. *)
Theorem put_keeps_objects {R : Type} `{!Reader R} `{!ReaderSpec R} (c : config) (s s' : Store) (src src' : R) r :
  disk_ok c (st_disk s) -> 0 <= maxBytes c < max_int64 -> put c s src = (s', src', r) ->
  disk_ok c (st_disk s') /\
  (forall p data, objectsRoot c `suffix_of` p -> read_at (st_disk s) p = Some data ->
     read_at (st_disk s') p = Some data) /\
  reservedBytes s' = reservedBytes s /\ leases s' = leases s.
Proof.
  intros Hok Hm (Hok' & G & Hr & Hl & _)%put_spec; [|done..]. split; [done|]. split; [|done].
  intros p data Hp. by apply (grown_read c _ _ p data G).
Qed.

Lemma put_keeps_objects_witness :
  disk_ok Demo.cfg (st_disk Demo.one) /\
  (forall p data, objectsRoot Demo.cfg `suffix_of` p -> read_at (st_disk Demo.store) p = Some data ->
     read_at (st_disk Demo.one) p = Some data) /\
  reservedBytes Demo.one = reservedBytes Demo.store /\ leases Demo.one = leases Demo.store.
Proof.
  apply (put_keeps_objects Demo.cfg Demo.store Demo.one Demo.hello [] (Ok (ref_of Demo.hello)));
    [apply Demo.store_ok|done|apply Demo.put_hello].
Defined.

(** Opening creates the directories and makes them durable. *)
Lemma open_ok c d d' s :
  disk_ok c d -> Open c d = (d', Ok s) -> disk_ok c (st_disk s) /\ opened c (st_disk s) /\ reservedBytes s = 0 /\ leases s = 0%nat.
Proof.
  intros Hok. unfold Open.
  intros (d1 & ? & E1%wrap_ok & (d2 & ? & E2%wrap_ok & (d3 & ? & E3%wrap_ok & (d4 & ? & E4%wrap_ok &
    (d5 & ? & E5%wrap_ok & H)%bind_ok)%bind_ok)%bind_ok)%bind_ok)%bind_ok.
  injection H as <- <-. cbn [st_disk reservedBytes leases].
  assert (forall p e e' u, mkdir_all p e = (e', Ok u) -> forall q, q `suffix_of` p -> d_tree e' !! q = Some NDir) as Hmk.
  { intros p e e' u' (e1 & ? & _ & Ht)%bind_ok q Hq. destruct (mkdir_tree p (d_tree e1)) as [t|] eqn:Et; [|done].
    injection Ht as <- _. apply mkdir_tree_spec in Et as (_ & _ & Hd & _). by apply Hd. }
  pose proof (Hmk _ _ _ _ E2) as H2. pose proof (Hmk _ _ _ _ E3) as H3.
  apply quietly_mkdir_all in E1 as Q1, E2 as Q2, E3 as Q3.
  apply quietly_syncDirectoryTree in E4 as Q4, E5 as Q5.
  apply syncDirectoryTree_ok in E4 as (T4 & S4 & _), E5 as (T5 & S5 & _).
  assert (d_tree d5 = d_tree d3) as T by congruence.
  assert (forall q, q `suffix_of` objectsRoot c -> d_tree d3 !! q = Some NDir) as Hobj.
  { intros q Hq. destruct Q3 as (_ & _ & _ & D & _). by apply D, H2. }
  assert (disk_ok c d5) as Hok5 by (do 5 (eapply quiet_ok; [done|]); done).
  assert (stable d4 (stagingRoot c) NDir) as Hst.
  { split; [by rewrite T4; apply H3|]. rewrite (proj1 (S4 (stagingRoot c) ltac:(done) ltac:(by apply suffix_cons_r) ltac:(done))).
    by apply H3. }
  split; [done|]. split; [|done]. split; [by rewrite T|]. split; [rewrite T; by apply H3|]. split; [|split].
  - split; [by rewrite T; apply Hobj|].
    rewrite (proj1 (S5 (objectsRoot c) ltac:(done) ltac:(by apply suffix_cons_r) ltac:(by apply suffix_cons_r))).
    rewrite T4. by apply Hobj.
  - assert (dir (objectsRoot c) `suffix_of` objectsRoot c) as Hs by by apply suffix_cons_r.
    split; [by rewrite T; apply Hobj|].
    rewrite (proj1 (S5 (dir (objectsRoot c)) ltac:(done) ltac:(by do 2 apply suffix_cons_r) ltac:(done))).
    rewrite T4. by apply Hobj.
  - by apply (fr_durable_dir c _ _ (quiet_frame c _ _ Q5)).
Qed.

(** ** Verification *)

(** What verification returns when nothing fails. *)
Lemma Verify_outcome (c : config) (d : disk) (ref : ContentRef) (p : path) :
  disk_ok c d -> d_oracle d = [] -> 0 <= SizeBytes ref -> pathForKey c (Key ref) = Ok p ->
  exists r, Verify c ref d = (d, r) /\
    match d_tree d !! p with
    | None => exists e, r = Err e /\ errors_is e OsErrNotExist = true /\ errors_is e ErrContentCorrupt = false
    | Some NDir => is_ok r = false
    | Some (NFile i) =>
      (r = Ok tt <-> ref = ref_of (data_of d i)) /\
      (r <> Ok tt -> exists e, r = Err e /\ errors_is e ErrContentCorrupt = true /\ errors_is e OsErrNotExist = false)
    end.
Proof.
  intros Hok Hc Hs Hp. destruct ref as [key size]. cbn [Key SizeBytes] in *.
  unfold Verify. cbn [SizeBytes Key]. destruct (size <? 0) eqn:E; bool_to_prop; [lia|].
  unfold bind at 1, OpenContent. cbn [Key]. unfold pathForKey in Hp.
  destruct (relativePathForKey key) as [q|]; [|done]. injection Hp as <-.
  unfold bind at 1, wrap at 1. rewrite attempt_calm by done. unfold wrap at 1, open_file.
  rewrite bind_attempt_calm by done.
  destruct (d_tree d !! (q ++ objectsRoot c)) as [[i|]|] eqn:Et.
  - destruct (ok_file _ _ Hok _ _ Et) as [f Hf]. cbn zeta beta. unfold data_of, file_of. rewrite Hf.
    change (default (File [] false 0) (Some f)) with f.
    unfold bind, wrap. rewrite hash_file_calm by (done || lia). cbn [app].
    destruct (zlen (f_data f) =? size) eqn:Ez; cbn [negb]; bool_to_prop.
    + case_bool_decide as Hk; cbn [negb]; eexists; (split; [reflexivity|]).
      * split; [|done]. split; [|done]. intros _. unfold ref_of. by rewrite Ez, Hk.
      * split; [split; [done|]; unfold ref_of; by intros [= ? _]|]. intros _. by eexists.
    + eexists. split; [reflexivity|]. split; [split; [done|]; unfold ref_of; by intros [= _ ->]|]. intros _. by eexists.
  - by eexists.
  - eexists. split; [reflexivity|]. by eexists.
Qed.

(** [Verify] tells the three states of a reference apart.  On a disk
    whose calls do not fail it leaves everything alone and accepts a
    reference with a canonical key exactly when the bytes at its path have
    the recorded size and digest; a missing object is [os.ErrNotExist], any
    other bytes are [ErrContentCorrupt]. *)
Theorem verify_exact (c : config) (d : disk) (ref : ContentRef) (p : path) :
  disk_ok c d -> d_oracle d = [] -> 0 <= SizeBytes ref -> pathForKey c (Key ref) = Ok p ->
  exists r, Verify c ref d = (d, r) /\
    match d_tree d !! p with
    | None => exists e, r = Err e /\ errors_is e OsErrNotExist = true /\ errors_is e ErrContentCorrupt = false
    | Some NDir => is_ok r = false
    | Some (NFile i) =>
      (r = Ok tt <-> ref = ref_of (data_of d i)) /\
      (r <> Ok tt -> exists e, r = Err e /\ errors_is e ErrContentCorrupt = true /\ errors_is e OsErrNotExist = false)
    end.
Proof. apply Verify_outcome. Qed.

Lemma verify_exact_witness : exists r, Verify Demo.cfg (ref_of Demo.hello) (st_disk Demo.store) = (st_disk Demo.store, r) /\
  match d_tree (st_disk Demo.store) !! (default [] (match pathForKey Demo.cfg (Key (ref_of Demo.hello)) with Ok p => Some p | Err _ => None end)) with
  | None => exists e, r = Err e /\ errors_is e OsErrNotExist = true /\ errors_is e ErrContentCorrupt = false
  | Some NDir => is_ok r = false
  | Some (NFile i) =>
    (r = Ok tt <-> ref_of Demo.hello = ref_of (data_of (st_disk Demo.store) i)) /\
    (r <> Ok tt -> exists e, r = Err e /\ errors_is e ErrContentCorrupt = true /\ errors_is e OsErrNotExist = false)
  end.
Proof.
  apply verify_exact; [apply Demo.store_ok|by vm_compute|by vm_compute|by vm_compute].
Defined.

(** ** Deletion *)

Lemma remove_object c p d d' r :
  disk_ok c d -> remove p d = (d', r) ->
  disk_ok c d' /\ d_inodes d' = d_inodes d /\ d_durable d' = d_durable d /\
  ((d_tree d' = d_tree d /\ r <> Ok tt) \/ (d_tree d' = delete p (d_tree d) /\ r = Ok tt)).
Proof.
  intros Hok [(d1 & E & H)|(e & E & ->)]%bind_attempt; apply quietly_attempt in E as Q; apply attempt_tree in E as [T D].
  2:{ split; [by eapply quiet_ok|]. split; [apply Q|]. split; [done|]. by left. }
  pose proof (quiet_ok c _ _ Q Hok) as Hok1. destruct Q as (I & _).
  destruct (d_tree d1 !! p) as [[i|]|] eqn:Et; injection H as <- <-.
  - split; [|split; [done|split; [done|right; by rewrite <- T]]]. destruct Hok1 as [Hn Hf Ho].
    split; cbn; [done|..]; intros q j [_ Hj]%lookup_delete_Some; eauto.
  - split; [done|]. split; [done|]. split; [done|]. by left.
  - split; [done|]. split; [done|]. split; [done|]. by left.
Qed.

Lemma deleteLocked_spec c ref d d' r :
  disk_ok c d -> deleteLocked c ref d = (d', r) ->
  disk_ok c d' /\
  (forall p data, pathForKey c (Key ref) <> Ok p -> read_at d p = Some data -> read_at d' p = Some data) /\
  (forall p, pathForKey c (Key ref) = Ok p -> d_oracle d = [] -> r = Ok tt -> read_at d' p = None).
Proof.
  intros Hok. unfold deleteLocked. destruct (pathForKey c (Key ref)) as [p|e] eqn:Ep.
  2:{ intros [= <- <-]. done. }
  destruct (remove p d) as [d1 r1] eqn:E1.
  assert (d_oracle d = [] -> forall e, r1 = Err e -> errors_is e OsErrNotExist = true -> d_tree d !! p = None) as Hno.
  { intros Hc e ->. revert E1. unfold remove. rewrite bind_attempt_calm by done.
    by destruct (d_tree d !! p) as [[?|]|]; intros [= <- <-]. }
  apply (remove_object c) in E1 as (Hok1 & I1 & D1 & H1); [|done].
  assert (forall q data, Ok p <> @Ok goerr _ q -> read_at d q = Some data -> read_at d1 q = Some data) as Hkeep.
  { intros q data Hq. unfold read_at. rewrite I1. destruct H1 as [[-> _]|[-> _]]; [done|].
    rewrite lookup_delete_ne; [done|]. congruence. }
  destruct r1 as [[]|e].
  - unfold wrap. destruct (syncDirectory (dir p) d1) as [d2 r2] eqn:E2. apply quietly_syncDirectory in E2 as Q2.
    intros H. assert (d' = d2) as -> by (destruct r2; congruence).
    destruct Q2 as (I2 & N2 & T2 & _).
    assert (forall q, read_at d2 q = read_at d1 q) as Hr.
    { intros q. unfold read_at. rewrite I2. destruct (d_tree d1 !! q) as [[j|]|] eqn:Ej.
      - by rewrite (proj2 (T2 q j) Ej).
      - destruct (d_tree d2 !! q) as [[j|]|] eqn:Ek; [apply T2 in Ek; congruence|done|done].
      - destruct (d_tree d2 !! q) as [[j|]|] eqn:Ek; [apply T2 in Ek; congruence|done|done]. }
    split; [|split].
    + destruct Hok1 as [Hn Hf Ho]. split; rewrite I2, ?N2; [done|..].
      * intros q j Hq%T2. eauto.
      * intros q j Hq%T2. eauto.
    + intros q data Hq Hread. rewrite Hr. eauto.
    + intros q [= <-] _ _. rewrite Hr. unfold read_at. destruct H1 as [[_ ?]|[-> _]]; [done|].
      by rewrite lookup_delete_eq.
  - destruct (errors_is e OsErrNotExist) eqn:En; intros [= <- <-]; (split; [done|]); (split; [done|]); [|done].
    intros q [= <-] Hc _. unfold read_at. destruct H1 as [[-> _]|[_ ?]]; [|done]. by rewrite (Hno Hc e eq_refl En).
Qed.

(** An object is only deleted while no delivery holds a lease and after
    the reference check said it is unreferenced.  [DeleteUnreferenced] is
    blocked by any lease; when it runs it removes at most the one object it
    was asked about, removes nothing unless the check answered "not
    referenced", keeps the store invariant, and when it reports a removal the
    object is gone. *)
Theorem delete_unreferenced_safe (c : config) (s s' : Store) (ref : ContentRef) (referenced : bytes -> res bool) r :
  disk_ok c (st_disk s) -> DeleteUnreferenced c s ref referenced = Some (s', r) ->
  leases s = 0%nat /\ leases s' = 0%nat /\ reservedBytes s' = reservedBytes s /\ disk_ok c (st_disk s') /\
  (forall p data, read_at (st_disk s) p = Some data ->
     pathForKey c (Key ref) <> Ok p \/ referenced (Key ref) <> Ok false ->
     read_at (st_disk s') p = Some data) /\
  (r = Ok true -> d_oracle (st_disk s) = [] -> forall p, pathForKey c (Key ref) = Ok p -> read_at (st_disk s') p = None).
Proof.
  intros Hok. unfold DeleteUnreferenced. destruct (leases s) as [|n] eqn:El; [|done].
  destruct (referenced (Key ref)) as [[]|e] eqn:Er.
  - intros [= <- <-]. rewrite El. repeat (split; [done|]). done.
  - destruct (deleteLocked c ref (st_disk s)) as [d [u|e]] eqn:Ed;
      apply deleteLocked_spec in Ed as (Hok' & Hkeep & Hgone); try done;
      intros [= <- <-]; cbn [st_disk leases reservedBytes with_disk]; rewrite El;
      repeat (split; [done|]); (split; [intros p data Hp [?|?]; [by apply Hkeep|done]|]); [|done].
    intros _ Hc p Hp. destruct u. by apply Hgone.
  - intros [= <- <-]. rewrite El. repeat (split; [done|]). done.
Qed.

Definition Demo_deleted : Store :=
  match DeleteUnreferenced Demo.cfg Demo.one (ref_of Demo.hello) (λ _, Ok false) with
  | Some (s, _) => s | None => Demo.one
  end.

Lemma delete_hello :
  DeleteUnreferenced Demo.cfg Demo.one (ref_of Demo.hello) (λ _, Ok false) = Some (Demo_deleted, Ok true).
Proof.
  assert (option_map snd (DeleteUnreferenced Demo.cfg Demo.one (ref_of Demo.hello) (λ _, Ok false)) = Some (Ok true)) as H
    by (vm_compute; reflexivity).
  unfold Demo_deleted. destruct (DeleteUnreferenced _ _ _ _) as [[s r]|]; [|done]. cbn in H. by injection H as ->.
Qed.

Lemma one_ok : disk_ok Demo.cfg (st_disk Demo.one).
Proof.
  assert (0 <= maxBytes Demo.cfg < max_int64) as Hm by done.
  exact (proj1 (put_spec _ _ _ _ _ _ Demo.store_ok Hm Demo.put_hello)).
Qed.

Lemma delete_unreferenced_safe_witness :
  leases Demo.one = 0%nat /\ leases Demo_deleted = 0%nat /\ reservedBytes Demo_deleted = reservedBytes Demo.one /\
  disk_ok Demo.cfg (st_disk Demo_deleted) /\
  (forall p data, read_at (st_disk Demo.one) p = Some data ->
     pathForKey Demo.cfg (Key (ref_of Demo.hello)) <> Ok p \/ Ok (E:=goerr) false <> Ok false ->
     read_at (st_disk Demo_deleted) p = Some data) /\
  (Ok (E:=goerr) true = Ok true -> d_oracle (st_disk Demo.one) = [] ->
   forall p, pathForKey Demo.cfg (Key (ref_of Demo.hello)) = Ok p -> read_at (st_disk Demo_deleted) p = None).
Proof.
  apply (delete_unreferenced_safe Demo.cfg Demo.one Demo_deleted (ref_of Demo.hello) (λ _, Ok false) (Ok true));
    [apply one_ok|apply delete_hello].
Defined.

(** ** Capacity *)

(** Reservations as the puts in progress make and return them, while the
    free space changes under them. *)
Inductive cap_step (c : config) : Store * nat -> Store * nat -> Prop :=
| cap_reserve s s' n : reserve c s = (s', Ok tt) -> cap_step c (s, n) (s', S n)
| cap_refuse s s' e n : reserve c s = (s', Err e) -> cap_step c (s, n) (s', n)
| cap_release s n : cap_step c (s, S n) (unreserve c s, n)
| cap_environment s d n : cap_step c (s, n) (with_disk s d, n).

Lemma cap_step_inv c a b :
  0 < maxBytes c -> cap_step c a b ->
  reservedBytes a.1 = Z.of_nat a.2 * maxBytes c -> reservedBytes a.1 <= max_int64 ->
  reservedBytes b.1 = Z.of_nat b.2 * maxBytes c /\ reservedBytes b.1 <= max_int64.
Proof.
  intros Hm Hstep. destruct Hstep as [s s' n H|s s' e n H|s n|s d n]; cbn [fst snd]; intros Ha Hle.
  - apply reserve_ok in H as (_ & _ & Hr & _ & Hcap); lia.
  - by apply reserve_err in H as (_ & _ & ->).
  - cbn [unreserve reservedBytes]. rewrite wrap64_small; unfold min_int64; lia.
  - done.
Qed.

Lemma cap_run_inv c a b :
  0 < maxBytes c -> rtc (cap_step c) a b ->
  reservedBytes a.1 = Z.of_nat a.2 * maxBytes c -> reservedBytes a.1 <= max_int64 ->
  reservedBytes b.1 = Z.of_nat b.2 * maxBytes c /\ reservedBytes b.1 <= max_int64.
Proof.
  intros Hm. induction 1 as [x|x y z Hxy _ IH]; [by split|]. intros Ha Hb.
  destruct (cap_step_inv c x y Hm Hxy Ha Hb) as [Hy1 Hy2]. by apply IH.
Qed.

(** C30: capacity accounting is exact and does not overflow.  However puts
    reserve, are refused and release while the free space changes,
    [reservedBytes] is the number of puts in progress times the maximum
    message size and stays within [int64]; a reservation is granted only if
    the free-space floor, everything already reserved and one more
    maximum-size message fit into the space the file system reports. *)
Theorem capacity_accounting (c : config) (s0 s s' : Store) (n : nat) :
  0 < maxBytes c -> reservedBytes s0 = 0 -> rtc (cap_step c) (s0, 0%nat) (s, n) ->
  reservedBytes s = Z.of_nat n * maxBytes c /\ reservedBytes s <= max_int64 /\
  (reserve c s = (s', Ok tt) ->
   exists bsize bavail, d_statfs (st_disk s) = (bsize, bavail) /\ 0 < bsize /\
     minFreeBytes c + Z.of_nat (S n) * maxBytes c <= Z.min max_int64 (bavail * bsize)).
Proof.
  intros Hm H0 Hrun.
  destruct (cap_run_inv c _ _ Hm Hrun) as [Hr Hle]; [cbn; lia|cbn [fst]; by rewrite H0|].
  cbn [fst snd] in Hr, Hle.
  split; [done|]. split; [done|]. unfold reserve.
  destruct ((ctx_err ;;; _) (st_disk s)) as [d [u|e]] eqn:E; [|done]. intros _.
  apply bind_ok in E as (d1 & ? & E1 & E2). apply checkCapacityLocked_ok in E2 as (_ & _ & _ & bs & ba & Hst & Hbs & Hcap).
  exists bs, ba. split; [|split; [done|lia]]. rewrite <- Hst. revert E1. unfold ctx_err, wrap, attempt.
  by destruct (d_oracle (st_disk s)) as [|[?|] l]; intros [= <-].
Qed.

Definition Demo_reserved : Store := (reserve Demo.cfg Demo.store).1.

Lemma capacity_accounting_witness :
  reservedBytes Demo_reserved = 1 * 1000 /\ reservedBytes Demo_reserved <= max_int64 /\
  (reserve Demo.cfg Demo_reserved = ((reserve Demo.cfg Demo_reserved).1, Ok tt) ->
   exists bsize bavail, d_statfs (st_disk Demo_reserved) = (bsize, bavail) /\ 0 < bsize /\
     4096 + 2 * 1000 <= Z.min max_int64 (bavail * bsize)).
Proof.
  apply (capacity_accounting Demo.cfg Demo.store Demo_reserved _ 1); [done|by vm_compute|].
  eapply rtc_l; [|apply rtc_refl]. apply cap_reserve.
  assert ((reserve Demo.cfg Demo.store).2 = Ok tt) as H by (vm_compute; reflexivity).
  unfold Demo_reserved. destruct (reserve Demo.cfg Demo.store) as [s r]. cbn in *. by subst.
Defined.

(** ** Pruning *)

(** What pruning may do to the tree: drop old staging files. *)
Definition pruned (c : config) (cutoff : Z) (d d' : disk) : Prop :=
  d_inodes d' = d_inodes d /\ d_next d' = d_next d /\
  forall p, d_tree d' !! p = d_tree d !! p \/
    (d_tree d' !! p = None /\ exists name i, p = name :: stagingRoot c /\ is_staging_name name = true /\
       d_tree d !! p = Some (NFile i) /\ f_mtime (file_of d (NFile i)) < cutoff).

Lemma pruned_trans c cutoff d1 d2 d3 : pruned c cutoff d1 d2 -> pruned c cutoff d2 d3 -> pruned c cutoff d1 d3.
Proof.
  intros (I1 & N1 & H1) (I2 & N2 & H2). split; [congruence|]. split; [congruence|]. intros p.
  destruct (H2 p) as [->|(-> & name & i & -> & Hn & Hi & Hm)]; [apply H1|]. right. split; [done|].
  exists name, i. split; [done|]. split; [done|].
  unfold file_of in *. rewrite I1 in Hm. split; [|done].
  destruct (H1 (name :: stagingRoot c)) as [<-|[E _]]; [done|congruence].
Qed.

Lemma pruned_same c cutoff d d' :
  d_inodes d' = d_inodes d -> d_next d' = d_next d -> d_tree d' = d_tree d -> pruned c cutoff d d'.
Proof. intros I N T. split; [done|]. split; [done|]. intros p. left. by rewrite T. Qed.

(** Calls that change neither names nor inodes. *)
Definition looks {A} (m : IO A) : Prop := forall d d' r, m d = (d', r) ->
  d_inodes d' = d_inodes d /\ d_next d' = d_next d /\ d_tree d' = d_tree d.

Lemma looks_attempt : looks attempt.
Proof. intros d d' r E. apply (quiet_writes_attempt _ _ _ 0%nat) in E as [[] ?]. done. Qed.

Lemma looks_ctx_err : looks ctx_err.
Proof. intros d d' r E. apply (writes_ctx_err _ _ _ 0%nat) in E as [[] ?]. done. Qed.

Lemma looks_stat p : looks (stat p).
Proof.
  intros d d' r [(d1 & E & H)|(e & E & ->)]%bind_attempt; apply looks_attempt in E; [|done].
  by destruct (d_tree d1 !! p); injection H as <- <-.
Qed.

Lemma looks_read_dir p : looks (read_dir p).
Proof.
  intros d d' r [(d1 & E & H)|(e & E & ->)]%bind_attempt; apply looks_attempt in E; [|done].
  by destruct (is_dir d1 p); injection H as <- <-.
Qed.

Lemma looks_syncDirectory p : looks (syncDirectory p).
Proof.
  intros d d' r. unfold syncDirectory, bind, wrap.
  destruct (attempt d) as [d1 [?|?]] eqn:E1; apply looks_attempt in E1 as (I1 & N1 & T1); [|by intros [= <- <-]].
  destruct (attempt d1) as [d2 [?|?]] eqn:E2; apply looks_attempt in E2 as (I2 & N2 & T2);
    rewrite <- I1, <- N1, <- T1, <- I2, <- N2, <- T2; [|by intros [= <- <-]].
  destruct (sync_dir p d2) as [d3 r3] eqn:E3.
  apply bind_attempt in E3 as [(d4 & E & H)|(e & E & ->)]; apply looks_attempt in E as (I & N & T).
  - destruct (is_dir d4 p); injection H as <- <-; intros [= <- <-]; rewrite <- I, <- N, <- T; done.
  - intros [= <- <-]. by rewrite I, N, T.
Qed.

Lemma looks_pruned {A} (m : IO A) c cutoff d d' r : looks m -> m d = (d', r) -> pruned c cutoff d d'.
Proof. intros Hm (I & N & T)%Hm. by apply pruned_same. Qed.

Lemma stat_value p d d' n : stat p d = (d', Ok n) -> d_tree d !! p = Some n.
Proof.
  intros (d1 & ? & [T _]%attempt_tree & H)%bind_ok. rewrite T in H.
  destruct (d_tree d !! p); [|done]. by injection H as _ ->.
Qed.

Lemma remove_pruned c cutoff name n d d' r :
  is_staging_name name = true -> d_tree d !! (name :: stagingRoot c) = Some n -> f_mtime (file_of d n) < cutoff ->
  remove (name :: stagingRoot c) d = (d', r) -> pruned c cutoff d d'.
Proof.
  intros Hname Hn Hm [(d4 & E & H3)|(x & E & ->)]%bind_attempt; apply looks_attempt in E as (I & N & T);
    [|by apply pruned_same].
  rewrite T, Hn in H3. destruct n as [i|]; injection H3 as <- <-; [|by apply pruned_same].
  split; [done|]. split; [done|]. intros p. cbn [set_tree d_tree].
  destruct (decide (p = name :: stagingRoot c)) as [->|]; [|left; by rewrite lookup_delete_ne].
  right. rewrite lookup_delete_eq. split; [done|]. by exists name, i.
Qed.

Lemma prune_loop_pruned c cutoff l removed d d' n e :
  prune_loop c cutoff l removed d = (d', n, e) -> pruned c cutoff d d'.
Proof.
  revert removed d. induction l as [|[name nd] l IH]; intros removed d; cbn [prune_loop].
  { intros [= <- <- <-]. by apply pruned_same. }
  destruct (ctx_err d) as [d1 rc] eqn:E1. apply (looks_pruned _ c cutoff) in E1; [|apply looks_ctx_err].
  intros H. eapply pruned_trans; [done|]. clear E1 d. revert H.
  destruct rc; [|intros [= <- <- <-]; by apply pruned_same].
  destruct (_ || _) eqn:Eb; [by apply IH|]. apply orb_false_iff in Eb as [_ Eb%negb_false_iff].
  destruct (stat _ d1) as [d2 rs] eqn:E2. intros H. pose proof E2 as E2'.
  apply looks_stat in E2 as (I2 & N2 & T2). eapply pruned_trans; [by apply pruned_same|]. revert H.
  destruct rs as [n2|]; [|intros [= <- <- <-]; by apply pruned_same].
  apply stat_value in E2'. rewrite <- T2 in E2'.
  destruct (f_mtime (file_of d2 n2) <? cutoff) eqn:Em; cbn [negb]; [|by apply IH]. bool_to_prop.
  destruct (remove _ d2) as [d3 rr] eqn:E3. eapply remove_pruned in E3; [|done..].
  intros H. eapply pruned_trans; [done|]. revert H. destruct rr as [|x]; [by apply IH|].
  destruct (errors_is x OsErrNotExist); [by apply IH|]. intros [= <- <- <-]. by apply pruned_same.
Qed.

(** Without failures the loop removes every old staging file in its list. *)
Lemma prune_loop_calm c cutoff l removed d d' n e :
  calm d -> (forall x, x ∈ l -> d_tree d !! (x.1 :: stagingRoot c) = Some x.2) -> NoDup (fst <$> l) ->
  prune_loop c cutoff l removed d = (d', n, e) ->
  e = None /\ calm d' /\
  forall name i, (name, NFile i) ∈ l -> is_staging_name name = true -> f_mtime (file_of d (NFile i)) < cutoff ->
    d_tree d' !! (name :: stagingRoot c) = None.
Proof.
  revert removed d. induction l as [|[name nd] l IH]; intros removed d Hc Hl Hnd; cbn [prune_loop].
  { intros [= <- <- <-]. split; [done|]. split; [done|]. intros name i Hin. by apply elem_of_nil in Hin. }
  rewrite ctx_err_calm by done. cbn [fmap list_fmap] in Hnd. apply NoDup_cons in Hnd as [Hfresh Hnd].
  assert (forall x, x ∈ l -> d_tree d !! (x.1 :: stagingRoot c) = Some x.2) as Hl' by (intros x Hx; apply Hl; by right).
  pose proof (Hl (name, nd) ltac:(by left)) as Hname. cbn [fst snd] in Hname.
  destruct (_ || _) eqn:Eb.
  { intros (He & Hc' & H)%IH; [|done..]. split; [done|]. split; [done|].
    intros nm i [[= -> <-]|Hin]%elem_of_cons; [|by apply H].
    intros Hs. apply orb_true_iff in Eb as [Eb|Eb]; bool_to_prop; congruence. }
  unfold stat. rewrite bind_attempt_calm, Hname by done. apply orb_false_iff in Eb as [Ed Eb]. bool_to_prop.
  destruct (f_mtime (file_of d nd) <? cutoff) eqn:Em; cbn [negb].
  2:{ intros (He & Hc' & H)%IH; [|done..]. split; [done|]. split; [done|].
      intros nm i [[= -> <-]|Hin]%elem_of_cons; [|by apply H]. bool_to_prop. lia. }
  destruct nd as [i|]; [|done]. rewrite (proj2 (remove_calm _ d Hc) i Hname).
  intros Hrun. pose proof Hrun as Hp%prune_loop_pruned. apply IH in Hrun as (He & Hc' & H); [|done| |done].
  - split; [done|]. split; [done|]. intros nm j [[= -> ->]|Hin]%elem_of_cons; [|by apply H].
    intros _ _. destruct Hp as (_ & _ & Hp). destruct (Hp (name :: stagingRoot c)) as [->|[-> _]]; [|done].
    cbn. by rewrite lookup_delete_eq.
  - intros x Hx. cbn. rewrite lookup_delete_ne; [by apply Hl'|]. intros [= ->].
    apply Hfresh. apply list_elem_of_fmap. by exists x.
Qed.

Lemma entries_spec d p x : x ∈ entries d p <-> d_tree d !! (x.1 :: p) = Some x.2.
Proof.
  unfold entries. rewrite merge_sort_Permutation, list_elem_of_omap. split.
  - intros ([q n] & Hin & H). cbn in H. destruct q as [|name parent]; [done|].
    case_bool_decide as Hp; [|done]. injection H as <-. subst. by apply elem_of_map_to_list in Hin.
  - intros H. exists (x.1 :: p, x.2). split; [by apply elem_of_map_to_list|]. cbn.
    rewrite bool_decide_eq_true_2 by done. by destruct x.
Qed.

Lemma entries_NoDup d p : NoDup (fst <$> entries d p).
Proof.
  unfold entries. rewrite merge_sort_Permutation.
  pose proof (NoDup_fst_map_to_list (d_tree d)) as Hnd. revert Hnd.
  generalize (map_to_list (d_tree d)). induction l as [|[q n] l IH]; [constructor|].
  cbn [fmap list_fmap]. rewrite NoDup_cons. intros [Hq Hnd]. cbn [omap list_omap fst].
  destruct q as [|name parent]; [by apply IH|]. case_bool_decide as Hp; [|by apply IH]. subst parent.
  cbn [fmap list_fmap]. apply NoDup_cons. split; [|by apply IH].
  intros ([nm m] & Hnm & ([q n'] & Hin & H)%list_elem_of_omap)%list_elem_of_fmap. cbn in H, Hnm. subst nm.
  destruct q as [|nm' parent]; [done|]. case_bool_decide as Hp; [|done]. injection H as -> ->. subst parent.
  apply Hq, list_elem_of_fmap. by exists (name :: p, m).
Qed.

(** Pruning removes the abandoned staging files and nothing else.  Under
    any failures, the only names [PruneStaging] removes are files
    [content-*.stage] of the staging directory last modified before the
    cutoff, so every object survives; and when nothing fails, all of those
    files are gone afterwards. *)
Theorem prune_exact (c : config) (cutoff n : Z) (d d' : disk) (e : option goerr) :
  PruneStaging c cutoff d = (d', n, e) ->
  pruned c cutoff d d' /\
  (forall p, objectsRoot c `suffix_of` p -> read_at d' p = read_at d p) /\
  (d_oracle d = [] -> is_dir d (stagingRoot c) = true ->
   e = None /\
   forall name i, d_tree d !! (name :: stagingRoot c) = Some (NFile i) -> is_staging_name name = true ->
     f_mtime (file_of d (NFile i)) < cutoff -> d_tree d' !! (name :: stagingRoot c) = None).
Proof.
  intros H.
  assert (pruned c cutoff d d') as Hp.
  { revert H. unfold PruneStaging. destruct (read_dir _ d) as [d1 [l|x]] eqn:E1;
      apply (looks_pruned _ c cutoff) in E1; try apply looks_read_dir; [|by intros [= <- <- <-]].
    destruct (prune_loop c cutoff l 0 d1) as [[d2 k] e2] eqn:E2. apply prune_loop_pruned in E2.
    pose proof (pruned_trans _ _ _ _ _ E1 E2) as E. destruct e2; [by intros [= <- <- <-]|].
    destruct (0 <? k); [|by intros [= <- <- <-]].
    destruct (syncDirectory _ d2) as [d3 r3] eqn:E3. apply (looks_pruned _ c cutoff) in E3; [|apply looks_syncDirectory].
    intros H. assert (d' = d3) as -> by (destruct r3; congruence). by eapply pruned_trans. }
  split; [done|]. split.
  - intros p Hr. destruct Hp as (I & _ & Hp). unfold read_at. rewrite I.
    destruct (Hp p) as [->|(_ & name & i & -> & _)]; [done|]. by apply staging_not_object in Hr.
  - intros Hc Hd. unfold PruneStaging in H. unfold read_dir in H. rewrite bind_attempt_calm, Hd in H by done.
    destruct (prune_loop c cutoff (entries d (stagingRoot c)) 0 d) as [[d2 k] e2] eqn:E2.
    assert (pruned c cutoff d d2) as Hp2 by (by eapply prune_loop_pruned).
    apply prune_loop_calm in E2 as (-> & C2 & Hall); [|done|intros x; apply entries_spec|apply entries_NoDup].
    assert (e = None /\ d_tree d' = d_tree d2) as [-> T].
    { destruct (0 <? k); [|by injection H as <- <- <-]. rewrite syncDirectory_calm in H.
      - by injection H as <- <- <-.
      - done.
      - destruct Hp2 as (_ & _ & Hp2). unfold is_dir in Hd. bool_to_prop.
        destruct (Hp2 (stagingRoot c)) as [->|(_ & nm & i & _ & _ & Hi & _)]; [done|congruence]. }
    split; [done|]. intros name i Hn. rewrite T. apply Hall. by apply entries_spec.
Qed.

(** A store in which a crashed put left its staging file. *)
Definition Demo_litter : disk := (create_temp (stagingRoot Demo.cfg) (str "content-") (str ".stage") (st_disk Demo.store)).1.

Lemma prune_exact_witness :
  let d' := (PruneStaging Demo.cfg 6 Demo_litter).1.1 in
  let n := (PruneStaging Demo.cfg 6 Demo_litter).1.2 in
  n = 1 /\ pruned Demo.cfg 6 Demo_litter d' /\
  (forall p, objectsRoot Demo.cfg `suffix_of` p -> read_at d' p = read_at Demo_litter p) /\
  (d_oracle Demo_litter = [] -> is_dir Demo_litter (stagingRoot Demo.cfg) = true ->
   (PruneStaging Demo.cfg 6 Demo_litter).2 = None /\
   forall name i, d_tree Demo_litter !! (name :: stagingRoot Demo.cfg) = Some (NFile i) -> is_staging_name name = true ->
     f_mtime (file_of Demo_litter (NFile i)) < 6 -> d_tree d' !! (name :: stagingRoot Demo.cfg) = None).
Proof.
  cbv zeta. split; [vm_compute; reflexivity|].
  apply (prune_exact Demo.cfg 6 (PruneStaging Demo.cfg 6 Demo_litter).1.2).
  by destruct (PruneStaging Demo.cfg 6 Demo_litter) as [[d n] e].
Defined.

(** ** Concurrent puts of the same content *)

(** The medium alone: what is left when nothing that was not synced made it. *)
Definition power_failure (d : disk) : disk :=
  Disk (d_inodes d) (d_durable d) (d_durable d) (d_next d) (d_clock d) (d_statfs d) [].

Lemma power_failure_crash d : crash d (power_failure d).
Proof. split; [intros p; by right|]. intros i f Hi _. by exists f. Qed.

Module Race.
Definition dst : path :=
  match pathForKey Demo.cfg (Key (ref_of Demo.hello)) with Ok p => p | Err _ => [] end.

(** A put that has run up to, not including, its [os.Link]. *)
Definition before_link (d : disk) : disk * path :=
  match create_temp (stagingRoot Demo.cfg) (str "content-") (str ".stage") d with
  | (d, Ok (p, i)) =>
    match put_staged Demo.cfg i d Demo.hello with
    | (d, _, _) => ((put_prepare Demo.cfg dst d).1, p)
    end
  | (d, Err _) => (d, [])
  end.

(** First both puts prepare, then A links, then B finds the object and
    finishes; A has not yet synced the object's directory. *)
Definition after_a : disk * path := before_link (st_disk Demo.store).
Definition after_b : disk * path := before_link after_a.1.
Definition a_linked : disk * option goerr := link_object after_a.2 dst after_b.1.
Definition b_linked : disk * option goerr := link_object after_b.2 dst a_linked.1.
Definition b_done : disk * (bool * res ContentRef) :=
  put_linked Demo.cfg after_b.2 dst (ref_of Demo.hello) b_linked.2 b_linked.1.

Definition lost : disk := power_failure b_done.1.
End Race.

(** C31: the durability of [put] needs the absence of a concurrent put of the
    same bytes.  In this interleaving A has linked the object but not yet
    synced its directory when B finds the object, verifies it and returns
    success without syncing the directory itself: a power failure then loses
    the object whose reference B has just handed to its caller. *)
Theorem concurrent_put_gap :
  Race.a_linked.2 = None /\ Race.b_done.2 = (false, Ok (ref_of Demo.hello)) /\
  crash Race.b_done.1 Race.lost /\ read_at Race.lost Race.dst = None.
Proof.
  split; [vm_compute; reflexivity|]. split; [vm_compute; reflexivity|]. split; [apply power_failure_crash|].
  vm_compute. reflexivity.
Qed.
