(* ===== verification/Reconcile.v ===== *)
(** * Reconciling the catalog with the object tree

    [internal/contentstore/reconcile.go]: every catalogued reference is
    verified, then the object tree is walked and looked up in the catalog in
    bounded batches, repairing orphans on request.  The catalog is the
    [ContentCatalog] interface with its laws; maintenance holds the exclusive
    lease, so it does not change during the scan. *)

From S2P Require Import Prelude GoStrings Errors Codec Uuid FileSystem Message ContentStore ContentStoreFacts ContentStoreSpec.

#[local] Opaque sha256.

Inductive FindingKind : Type := FindingMissing | FindingCorrupt | FindingOrphan.

Record Finding := MkFinding { fd_Kind : FindingKind; fd_Content : ContentRef; fd_Repaired : bool }.

Record ReconcileSummary := MkSummary {
  DatabaseRefs : Z; StoredObjects : Z; Missing : Z; Corrupt : Z; Orphans : Z; RepairedOrphans : Z
}.

Definition Unresolved (s : ReconcileSummary) : Z := Missing s + Corrupt s + Orphans s - RepairedOrphans s.

Record ReconcileOptions := MkReconcileOptions { BatchSize : Z; RepairOrphans : bool }.

(** Visit the elements in order until one fails. *)
Fixpoint visit_all {A S} (f : A -> S -> S * option goerr) (l : list A) (s : S) : S * option goerr :=
  match l with
  | [] => (s, None)
  | x :: l =>
    match f x s with
    | (s, Some e) => (s, Some e)
    | (s, None) => visit_all f l s
    end
  end.

(** The [ContentCatalog] interface, on a catalog state [K].  The visitor of
    [WalkContentRefs] acts on a state of its own; a walk that does not come to
    an end gives [None]. *)
Class ContentCatalog (K : Type) := {
  cat_walk : forall S, Z -> (ContentRef -> S -> S * option goerr) -> K -> S -> option (K * S * option goerr);
  cat_existing : list bytes -> K -> K * res (gset bytes)
}.

(** What a catalog promises: a walk visits its references in order up to the
    visitor's first error, a lookup finds exactly its keys, and both leave it
    as it is.  They fail on their own only when a query fails. *)
Class CatalogSpec (K : Type) `{!ContentCatalog K} := {
  catalog_refs : K -> list ContentRef;
  catalog_wf : K -> Prop;
  catalog_calm : K -> Prop;
  catalog_same : K -> K -> Prop;
  catalog_same_pre :: PreOrder catalog_same;
  catalog_same_spec : forall k k', catalog_same k k' -> catalog_wf k -> catalog_wf k' /\ catalog_refs k' = catalog_refs k;
  catalog_kept (k k' : K) : Prop := catalog_same k k' /\ (catalog_calm k -> catalog_calm k');
  cat_walk_spec : forall S n (visit : ContentRef -> S -> S * option goerr) k s, 1 <= n <= 10000 -> catalog_wf k ->
    exists k' s' e, cat_walk S n visit k s = Some (k', s', e) /\ catalog_kept k k' /\
      (visit_all visit (catalog_refs k) s = (s', e) \/
       ~ catalog_calm k /\ is_Some e /\
       exists pre, pre `prefix_of` catalog_refs k /\ visit_all visit pre s = (s', None));
  cat_existing_spec : forall keys k, catalog_wf k ->
    exists k' r, cat_existing keys k = (k', r) /\ catalog_kept k k' /\
      match r with
      | Ok existing => forall key, key ∈ existing <-> key ∈ keys /\ key ∈ Key <$> catalog_refs k
      | Err _ => 10000 < zlen keys \/ ~ catalog_calm k
      end
}.

(** What the two scans thread: the disk, the catalog, the summary, the
    pending batch and the findings emitted so far. *)
Record scan (K : Type) := Scan {
  sc_disk : disk; sc_catalog : K; sc_summary : ReconcileSummary; sc_objects : list ContentRef; sc_out : list Finding
}.
Arguments Scan {K}.
Arguments sc_disk {K}.
Arguments sc_catalog {K}.
Arguments sc_summary {K}.
Arguments sc_objects {K}.
Arguments sc_out {K}.

Definition on_disk {K} (s : scan K) (d : disk) : scan K := Scan d (sc_catalog s) (sc_summary s) (sc_objects s) (sc_out s).
Definition on_catalog {K} (s : scan K) (k : K) : scan K := Scan (sc_disk s) k (sc_summary s) (sc_objects s) (sc_out s).
Definition on_summary {K} (s : scan K) (f : ReconcileSummary -> ReconcileSummary) : scan K :=
  Scan (sc_disk s) (sc_catalog s) (f (sc_summary s)) (sc_objects s) (sc_out s).

(** Run a disk computation inside the scan. *)
Definition lift {K A} (m : IO A) (s : scan K) : scan K * res A :=
  let '(d, r) := m (sc_disk s) in (on_disk s d, r).

(** The caller's [emit], which may fail. *)
Definition emit {K} (f : Finding) (s : scan K) : scan K * option goerr :=
  match lift attempt s with
  | (s, Err e) => (s, Some e)
  | (s, Ok _) => (Scan (sc_disk s) (sc_catalog s) (sc_summary s) (sc_objects s) (sc_out s ++ [f]), None)
  end.

Definition count_ref (m : ReconcileSummary) : ReconcileSummary :=
  MkSummary (DatabaseRefs m + 1) (StoredObjects m) (Missing m) (Corrupt m) (Orphans m) (RepairedOrphans m).
Definition count_object (m : ReconcileSummary) : ReconcileSummary :=
  MkSummary (DatabaseRefs m) (StoredObjects m + 1) (Missing m) (Corrupt m) (Orphans m) (RepairedOrphans m).
Definition count_missing (m : ReconcileSummary) : ReconcileSummary :=
  MkSummary (DatabaseRefs m) (StoredObjects m) (Missing m + 1) (Corrupt m) (Orphans m) (RepairedOrphans m).
Definition count_corrupt (m : ReconcileSummary) : ReconcileSummary :=
  MkSummary (DatabaseRefs m) (StoredObjects m) (Missing m) (Corrupt m + 1) (Orphans m) (RepairedOrphans m).
Definition count_orphan (m : ReconcileSummary) : ReconcileSummary :=
  MkSummary (DatabaseRefs m) (StoredObjects m) (Missing m) (Corrupt m) (Orphans m + 1) (RepairedOrphans m).
Definition count_repaired (m : ReconcileSummary) : ReconcileSummary :=
  MkSummary (DatabaseRefs m) (StoredObjects m) (Missing m) (Corrupt m) (Orphans m) (RepairedOrphans m + 1).

(** ** Walking the objects *)

Definition validDigestPrefix (value : bytes) : bool :=
  if negb (zlen value =? 2) || negb (bool_decide (to_lower value = value)) then false
  else forallb (λ g, let r := seg_rune g in
    negb (((r <? 48) || (57 <? r)) && ((r <? 97) || (102 <? r)))) (runes value).

(** The entries below a directory in the order [filepath.WalkDir] visits
    them: lexical by component, a directory before what it contains.  A
    repair only deletes files already visited, so the listing taken before
    the walk is the one it sees. *)
Fixpoint parts_leb (a b : list bytes) : bool :=
  match a, b with
  | [], _ => true
  | _ :: _, [] => false
  | x :: a', y :: b' => if bool_decide (x = y) then parts_leb a' b' else bytes_leb x y
  end.

Definition walk_le (a b : list bytes * node) : Prop := parts_leb a.1 b.1 = true.

#[global] Instance walk_le_dec a b : Decision (walk_le a b).
Proof. unfold walk_le. apply _. Defined.

Definition below (r p : path) : option (list bytes) :=
  let k := (length p - length r)%nat in
  if bool_decide (drop k p = r) && (0 <? k)%nat then Some (reverse (take k p)) else None.

Definition walk_list (d : disk) (r : path) : list (list bytes * node) :=
  merge_sort walk_le (omap (λ kv : path * node, (λ parts, (parts, kv.2)) <$> below r kv.1) (map_to_list (d_tree d))).

Section Walk.
(** The state of a caller, disk computations inside it, and what it does with
    an object. *)
Context (c : config) {T : Type} (run : forall A, IO A -> T -> T * res A) (disk_of : T -> disk) (visit : ContentRef -> T -> T * option goerr).

(** The callback of [filepath.WalkDir] on one entry below the objects root,
    its relative path split into [parts]; after a directory, its listing is
    read. *)
Definition walk_entry (entry : list bytes * node) (s : T) : T * option goerr :=
  let '(parts, n) := entry in
  match run _ ctx_err s with
  | (s, Err e) => (s, Some e)
  | (s, Ok _) =>
    match n with
    | NDir =>
      if bool_decide (2 < length parts)%nat || negb (validDigestPrefix (default [] (last parts)))
      then (s, Some (ENew "invalid content object directory"))
      else match run _ attempt s with
      | (s, Err e) => (s, Some e)
      | (s, Ok _) => (s, None)
      end
    | NFile _ =>
      match parts with
      | [a; b; digest] =>
        if negb (zlen digest =? digestHexLength) || negb (bool_decide (a = take 2 digest))
           || negb (bool_decide (b = take 2 (drop 2 digest)))
        then (s, Some (ENew "non-canonical content object path"))
        else match relativePathForKey (sha256_prefix ++ digest) with
        | Err e => (s, Some (EWrap "invalid content object path" e))
        | Ok _ =>
          match run _ (stat (reverse parts ++ objectsRoot c)) s with
          | (s, Err e) => (s, Some (EWrap "inspect content object" e))
          | (s, Ok n) =>
            visit (MkContentRef (sha256_prefix ++ digest) (zlen (f_data (file_of (disk_of s) n)))) s
          end
        end
      | _ => (s, Some (ENew "invalid content object path"))
      end
    end
  end.

Definition walkObjects (s : T) : T * option goerr :=
  match run _ (stat (objectsRoot c)) s with
  | (s, Err e) => (s, Some e)
  | (s, Ok _) =>
    match run _ ctx_err s with
    | (s, Err e) => (s, Some e)
    | (s, Ok _) =>
      match run _ attempt s with
      | (s, Err e) => (s, Some e)
      | (s, Ok _) => visit_all walk_entry (walk_list (disk_of s) (objectsRoot c)) s
      end
    end
  end.

End Walk.

Section Reconcile.
Context (c : config) {K : Type} `{!ContentCatalog K} (o : ReconcileOptions).

(** The visitor of the metadata scan. *)
Definition visit_ref (ref : ContentRef) (s : scan K) : scan K * option goerr :=
  let s := on_summary s count_ref in
  match lift (Verify c ref) s with
  | (s, Ok _) => (s, None)
  | (s, Err e) =>
    if errors_is e OsErrNotExist then emit (MkFinding FindingMissing ref false) (on_summary s count_missing)
    else if errors_is e ErrContentCorrupt then emit (MkFinding FindingCorrupt ref false) (on_summary s count_corrupt)
    else (s, Some (EWrap "verify catalog content" e))
  end.

(** One object of a batch whose key was looked up. *)
Definition settle_object (existing : gset bytes) (ref : ContentRef) (s : scan K) : scan K * option goerr :=
  if bool_decide (Key ref ∈ existing) then (s, None)
  else
    let s := on_summary s count_orphan in
    if RepairOrphans o then
      match lift (deleteLocked c ref) s with
      | (s, Err e) => (s, Some (EWrap "delete orphan content" e))
      | (s, Ok _) =>
        match emit (MkFinding FindingOrphan ref true) (on_summary s count_repaired) with
        | (s, Some e) => (s, Some (EWrap "emit orphan finding" e))
        | (s, None) => (s, None)
        end
      end
    else match emit (MkFinding FindingOrphan ref false) s with
    | (s, Some e) => (s, Some (EWrap "emit orphan finding" e))
    | (s, None) => (s, None)
    end.

(** [flush] *)
Definition flush (s : scan K) : scan K * option goerr :=
  match sc_objects s with
  | [] => (s, None)
  | objects =>
    let '(k, r) := cat_existing (Key <$> objects) (sc_catalog s) in
    let s := on_catalog s k in
    match r with
    | Err e => (s, Some (EWrap "find existing content keys" e))
    | Ok existing =>
      match visit_all (settle_object existing) objects s with
      | (s, Some e) => (s, Some e)
      | (s, None) => (Scan (sc_disk s) (sc_catalog s) (sc_summary s) [] (sc_out s), None)
      end
    end
  end.

(** The visitor of the object scan. *)
Definition visit_object (ref : ContentRef) (s : scan K) : scan K * option goerr :=
  let s := on_summary s count_object in
  let s := Scan (sc_disk s) (sc_catalog s) (sc_summary s) (sc_objects s ++ [ref]) (sc_out s) in
  if zlen (sc_objects s) =? BatchSize o then flush s else (s, None).

(** [Store.Reconcile]: the summary so far and the error; [None] when the
    catalog's walk does not end. *)
Definition Reconcile (d : disk) (k : K) : option (scan K * option goerr) :=
  let s := Scan d k (MkSummary 0 0 0 0 0 0) [] [] in
  if (BatchSize o <=? 0) || (10000 <? BatchSize o)
  then Some (s, Some (ENew "reconcile batch size must be between 1 and 10000"))
  else match cat_walk _ (BatchSize o) visit_ref k s with
  | None => None
  | Some (k, s, Some e) => Some (on_catalog s k, Some (EWrap "scan content metadata" e))
  | Some (k, s, None) =>
    match walkObjects c (@lift K) sc_disk visit_object (on_catalog s k) with
    | (s, Some e) => Some (s, Some (EWrap "scan stored content" e))
    | (s, None) =>
      match flush s with
      | (s, Some e) => Some (s, Some (EWrap "scan stored content batch" e))
      | (s, None) => Some (s, None)
      end
    end
  end.
End Reconcile.

Abbreviation scan_entry c o := (walk_entry c (@lift _) sc_disk (visit_object c o)).
Abbreviation scan_objects c o := (walkObjects c (@lift _) sc_disk (visit_object c o)).

(** ** The reference: what a scan should report *)

Section Facts.
Context (c : config) {K : Type} `{!ContentCatalog K} `{!CatalogSpec K} (o : ReconcileOptions) (d : disk) (cat : K).

(** The objects of the tree in walk order. *)
Definition objects_of (l : list (list bytes * node)) : list ContentRef :=
  omap (λ e : list bytes * node,
    match e.2 with
    | NFile i => Some (MkContentRef (sha256_prefix ++ default [] (last e.1)) (zlen (data_of d i)))
    | NDir => None
    end) l.

Definition is_orphan (ref : ContentRef) : Prop := Key ref ∉ Key <$> catalog_refs cat.

#[global] Instance is_orphan_dec ref : Decision (is_orphan ref).
Proof. unfold is_orphan. apply _. Defined.

Definition orphans (refs : list ContentRef) : list ContentRef := filter is_orphan refs.

(** What is wrong with one catalogued reference. *)
Definition ref_state (ref : ContentRef) : option FindingKind :=
  match pathForKey c (Key ref) with
  | Err _ => None
  | Ok p =>
    match d_tree d !! p with
    | None => Some FindingMissing
    | Some (NFile i) => if bool_decide (ref = ref_of (data_of d i)) then None else Some FindingCorrupt
    | Some NDir => None
    end
  end.

Definition ref_findings (refs : list ContentRef) : list Finding :=
  omap (λ ref, (λ k, MkFinding k ref false) <$> ref_state ref) refs.

Definition of_kind (k : FindingKind) (f : Finding) : bool :=
  match k, fd_Kind f with
  | FindingMissing, FindingMissing | FindingCorrupt, FindingCorrupt | FindingOrphan, FindingOrphan => true
  | _, _ => false
  end.

Definition tally (k : FindingKind) (l : list Finding) : Z := zlen (filter (λ f, of_kind k f = true) l).

(** The layout [put] produces and [walkObjects] insists on. *)
Definition layout_ok : Prop :=
  d_tree d !! objectsRoot c = Some NDir /\
  (forall parts, parts <> [] -> d_tree d !! (reverse parts ++ objectsRoot c) = Some NDir ->
     (length parts <= 2)%nat /\ validDigestPrefix (default [] (last parts)) = true) /\
  (forall p i, objectsRoot c `suffix_of` p -> d_tree d !! p = Some (NFile i) -> d_tree d !! dir p = Some NDir).

Definition catalog_ok : Prop :=
  forall ref, ref ∈ catalog_refs cat -> 0 <= SizeBytes ref /\
    exists p, pathForKey c (Key ref) = Ok p /\ d_tree d !! p <> Some NDir.

Hypothesis (Hok : disk_ok c d) (Hcalm : calm d) (Hlayout : layout_ok) (Hcat : catalog_ok).
Hypothesis (Hwf : catalog_wf cat) (Hquery : catalog_calm cat).

(** *** The metadata scan *)

Definition add_findings (s : scan K) (n : Z) (l : list Finding) : scan K :=
  Scan (sc_disk s) (sc_catalog s)
    (MkSummary (DatabaseRefs (sc_summary s) + n) (StoredObjects (sc_summary s))
       (Missing (sc_summary s) + tally FindingMissing l) (Corrupt (sc_summary s) + tally FindingCorrupt l)
       (Orphans (sc_summary s)) (RepairedOrphans (sc_summary s)))
    (sc_objects s) (sc_out s ++ l).

Lemma tally_cons k f l : tally k (f :: l) = (if of_kind k f then 1 else 0) + tally k l.
Proof.
  unfold tally. destruct (of_kind k f) eqn:E.
  - rewrite filter_cons_True by done. apply zlen_cons.
  - rewrite filter_cons_False by congruence. lia.
Qed.

Lemma visit_ref_exact ref s :
  sc_disk s = d -> ref ∈ catalog_refs cat ->
  visit_ref c ref s = (add_findings s 1 (ref_findings [ref]), None).
Proof.
  intros Hs Hin. destruct (Hcat ref Hin) as (Hsz & p & Hp & Hnd).
  destruct (Verify_outcome c d ref p Hok Hcalm Hsz Hp) as (r & Hv & Hr).
  unfold visit_ref, lift, on_summary. cbn [sc_disk]. rewrite Hs, Hv. unfold on_disk. cbn [sc_catalog sc_summary sc_objects sc_out].
  unfold ref_findings. cbn [omap list_omap]. unfold ref_state. rewrite Hp.
  assert (forall f m, emit f (Scan d (sc_catalog s) m (sc_objects s) (sc_out s)) = (Scan d (sc_catalog s) m (sc_objects s) (sc_out s ++ [f]), None)) as Hemit.
  { intros f m. unfold emit, lift. cbn [sc_disk]. by rewrite attempt_calm. }
  destruct s as [sd ct [a b m g og rp] ob out]. cbn [sc_disk] in Hs. subst sd.
  destruct (d_tree d !! p) as [[i|]|] eqn:Et; [|done|].
  - destruct Hr as [Hiff Hcor]. case_bool_decide as He.
    + rewrite (proj2 Hiff He). unfold add_findings, tally. cbn. by rewrite app_nil_r, !Z.add_0_r.
    + destruct Hcor as (e & -> & E1 & E2); [intros E; by apply He, Hiff|]. rewrite E1, E2.
      rewrite Hemit. unfold add_findings. cbn [fmap option_fmap option_map sc_disk sc_catalog sc_summary sc_objects sc_out].
      rewrite !tally_cons. unfold tally. cbn. by rewrite !Z.add_0_r.
  - destruct Hr as (e & -> & E1 & E2). rewrite E1. cbn [on_summary sc_disk sc_catalog sc_summary sc_objects sc_out].
    rewrite Hemit. unfold add_findings. cbn [fmap option_fmap option_map sc_disk sc_catalog sc_summary sc_objects sc_out].
    rewrite !tally_cons. unfold tally. cbn. by rewrite !Z.add_0_r.
Qed.

Lemma tally_app k l1 l2 : tally k (l1 ++ l2) = tally k l1 + tally k l2.
Proof. unfold tally. by rewrite filter_app, zlen_app. Qed.

Lemma add_findings_add s n l n' l' :
  add_findings (add_findings s n l) n' l' = add_findings s (n + n') (l ++ l').
Proof.
  unfold add_findings. cbn [sc_disk sc_catalog sc_summary sc_objects sc_out DatabaseRefs StoredObjects Missing Corrupt Orphans RepairedOrphans].
  by rewrite !tally_app, !Z.add_assoc, app_assoc.
Qed.

Lemma visit_refs_exact refs s :
  sc_disk s = d -> refs ⊆ catalog_refs cat ->
  visit_all (visit_ref c) refs s = (add_findings s (zlen refs) (ref_findings refs), None).
Proof.
  revert s. induction refs as [|ref refs IH]; intros s Hs Hsub; cbn [visit_all].
  - unfold add_findings, ref_findings, tally. destruct s as [sd ? [] ? ?]. cbn. by rewrite app_nil_r, !Z.add_0_r.
  - rewrite visit_ref_exact by (done || (apply Hsub; by left)).
    rewrite IH; [|done|intros x Hx; apply Hsub; by right].
    rewrite add_findings_add, zlen_cons. do 2 f_equal. unfold ref_findings. cbn [omap list_omap].
    by destruct (ref_state ref).
Qed.

(** *** The object scan *)

(** The paths a repair of the objects [S] deletes. *)
Definition repaired (S : list ContentRef) (q : path) : bool :=
  RepairOrphans o && existsb (λ ref, bool_decide (pathForKey c (Key ref) = Ok q)) (orphans S).

(** The state after the objects [S] have been settled. *)
Record settled (m0 : ReconcileSummary) (out0 : list Finding) (S : list ContentRef) (s : scan K) : Prop := {
  st_calm : calm (sc_disk s);
  st_catalog : catalog_kept cat (sc_catalog s);
  st_ok : disk_ok c (sc_disk s);
  st_inodes : d_inodes (sc_disk s) = d_inodes d;
  st_tree : forall q, d_tree (sc_disk s) !! q =
    if repaired S q then None else d_tree d !! q;
  st_out : sc_out s = out0 ++ ((λ ref, MkFinding FindingOrphan ref (RepairOrphans o)) <$> orphans S);
  st_refs : DatabaseRefs (sc_summary s) = DatabaseRefs m0 /\ Missing (sc_summary s) = Missing m0 /\
    Corrupt (sc_summary s) = Corrupt m0;
  st_orphans : Orphans (sc_summary s) = Orphans m0 + zlen (orphans S);
  st_repaired : RepairedOrphans (sc_summary s) =
    RepairedOrphans m0 + (if RepairOrphans o then zlen (orphans S) else 0)
}.

Lemma orphans_app S T : orphans (S ++ T) = orphans S ++ orphans T.
Proof. apply filter_app. Qed.

Lemma repaired_app S T q : repaired (S ++ T) q = repaired S q || repaired T q.
Proof. unfold repaired. rewrite orphans_app, existsb_app. by destruct (RepairOrphans o). Qed.

(** Objects as the walk finds them. *)
Definition listed (refs : list ContentRef) : Prop :=
  NoDup (Key <$> refs) /\
  forall ref, ref ∈ refs -> exists p i, pathForKey c (Key ref) = Ok p /\ d_tree d !! p = Some (NFile i).

Lemma repaired_fresh S ref p :
  listed (S ++ [ref]) -> pathForKey c (Key ref) = Ok p -> repaired S p = false.
Proof.
  intros [Hnd _] Hp. unfold repaired. apply andb_false_iff. right. apply not_true_iff_false.
  intros (x & Hx & Hq)%existsb_exists. bool_to_prop. apply list_elem_of_In in Hx.
  apply list_elem_of_filter in Hx as [_ Hx].
  rewrite fmap_app in Hnd. apply NoDup_app in Hnd as (_ & Hdis & _).
  apply (Hdis (Key x)); [by apply list_elem_of_fmap_2|].
  rewrite (pathForKey_inj _ _ _ _ Hq Hp). by apply list_elem_of_here.
Qed.

Lemma settle_kept m0 out0 S ref s :
  settled m0 out0 S s -> ~ is_orphan ref -> settled m0 out0 (S ++ [ref]) s.
Proof.
  intros [] Hn.
  assert (orphans [ref] = []) as E by (unfold orphans; by rewrite filter_cons_False).
  split; rewrite ?orphans_app, ?E, ?app_nil_r; try done.
  intros q. rewrite repaired_app. unfold repaired at 2. rewrite E. cbn [existsb]. by rewrite andb_false_r, orb_false_r.
Qed.

Lemma emit_calm f (s : scan K) : calm (sc_disk s) ->
  emit f s = (Scan (sc_disk s) (sc_catalog s) (sc_summary s) (sc_objects s) (sc_out s ++ [f]), None).
Proof. intros Hc. unfold emit, lift. rewrite attempt_calm by done. by destruct s. Qed.

(** Deleting an object that is there, when nothing fails. *)
Lemma deleteLocked_calm ref p i d1 :
  calm d1 -> pathForKey c (Key ref) = Ok p -> d_tree d1 !! p = Some (NFile i) -> d_tree d1 !! dir p = Some NDir ->
  exists d2, deleteLocked c ref d1 = (d2, Ok tt) /\ calm d2 /\ d_inodes d2 = d_inodes d1 /\
    d_tree d2 = delete p (d_tree d1).
Proof.
  intros Hc Hp Ht Hd. unfold deleteLocked. rewrite Hp, (proj2 (remove_calm p d1 Hc) i Ht).
  unfold wrap. rewrite syncDirectory_calm; [by eexists|done|].
  cbn. rewrite lookup_delete_ne; [done|]. intros E. rewrite <- E in Hd. congruence.
Qed.

Lemma settle_object_exact m0 out0 existing S ref s :
  (Key ref ∈ existing <-> Key ref ∈ Key <$> catalog_refs cat) -> settled m0 out0 S s -> listed (S ++ [ref]) ->
  exists s', settle_object c o existing ref s = (s', None) /\ settled m0 out0 (S ++ [ref]) s' /\
    sc_objects s' = sc_objects s /\ StoredObjects (sc_summary s') = StoredObjects (sc_summary s).
Proof.
  intros Hex Hs Hl. unfold settle_object. case_bool_decide as Hk.
  { exists s. split; [done|]. split; [|done]. apply settle_kept; [done|]. unfold is_orphan. tauto. }
  rewrite Hex in Hk.
  assert (orphans [ref] = [ref]) as E by (unfold orphans; by rewrite filter_cons_True).
  destruct (proj2 Hl ref) as (p & i & Hp & Ht); [apply elem_of_app; right; by left|].
  pose proof (repaired_fresh S ref p Hl Hp) as Hfresh.
  pose proof (pathForKey_object _ _ _ Hp) as Hobj.
  destruct Hs as [Hc Hct Hd Hi Htree Hout (R1 & R2 & R3) Ho Hr]. destruct s as [sd ct m ob out].
  cbn [sc_disk sc_catalog sc_summary sc_objects sc_out] in *.
  assert (forall q, repaired (S ++ [ref]) q = repaired S q || (RepairOrphans o && bool_decide (pathForKey c (Key ref) = Ok q))) as Hrep.
  { intros q. rewrite repaired_app. unfold repaired at 2. rewrite E. cbn [existsb]. by rewrite orb_false_r. }
  unfold on_summary. cbn [sc_disk sc_catalog sc_summary sc_objects sc_out]. destruct (RepairOrphans o) eqn:Erep.
  - assert (d_tree sd !! p = Some (NFile i)) as Htp by (by rewrite Htree, Hfresh).
    assert (d_tree sd !! dir p = Some NDir) as Hdp.
    { rewrite Htree. destruct Hlayout as (_ & _ & Hpar). rewrite (Hpar p i Hobj Ht).
      replace (repaired S (dir p)) with false; [done|]. symmetry. apply not_true_iff_false. unfold repaired.
      intros (_ & (x & Hx & Hq)%existsb_exists)%andb_prop. bool_to_prop. apply pathForKey_inv in Hq as (g & _ & _ & Hg).
      apply pathForKey_inv in Hp as (g' & _ & _ & ->). apply (f_equal length) in Hg. cbn in Hg. lia. }
    destruct (deleteLocked_calm ref p i sd Hc Hp Htp Hdp) as (d2 & Edel & C2 & I2 & T2).
    unfold lift. cbn [sc_disk]. rewrite Edel. unfold on_disk. cbn [sc_disk sc_catalog sc_summary sc_objects sc_out].
    rewrite emit_calm by done. cbn [sc_disk sc_catalog sc_summary sc_objects sc_out].
    eexists. split; [reflexivity|]. split; [|done].
    apply deleteLocked_spec in Edel as (Hd2 & _); [|done].
    split; cbn [sc_disk sc_catalog sc_summary sc_objects sc_out]; try done.
    + congruence.
    + intros q. rewrite T2, Hrep. cbn [andb]. case_bool_decide as Hq.
      * assert (q = p) as -> by congruence. by rewrite lookup_delete_eq, orb_true_r.
      * rewrite lookup_delete_ne by congruence. by rewrite orb_false_r.
    + by rewrite orphans_app, E, fmap_app, app_assoc, Hout, Erep.
    + rewrite orphans_app, E, zlen_app, zlen_cons, zlen_nil.
      cbn [Orphans count_orphan count_repaired]. rewrite Ho. lia.
    + rewrite orphans_app, E, zlen_app, zlen_cons, zlen_nil, Erep.
      cbn [RepairedOrphans count_orphan count_repaired]. rewrite Hr. lia.
  - rewrite emit_calm by done. cbn [sc_disk sc_catalog sc_summary sc_objects sc_out].
    eexists. split; [reflexivity|]. split; [|done].
    split; cbn [sc_disk sc_catalog sc_summary sc_objects sc_out]; try done.
    + intros q. rewrite Hrep. cbn [andb]. by rewrite orb_false_r.
    + by rewrite orphans_app, E, fmap_app, app_assoc, Hout, Erep.
    + rewrite orphans_app, E, zlen_app, zlen_cons, zlen_nil.
      cbn [Orphans count_orphan count_repaired]. rewrite Ho. lia.
    + rewrite Erep. cbn [RepairedOrphans count_orphan]. rewrite Hr. lia.
Qed.

Lemma listed_prefix S T : listed (S ++ T) -> listed S.
Proof.
  intros [H1 H2]. split.
  - rewrite fmap_app in H1. by apply NoDup_app in H1 as [? _].
  - intros ref Hin. apply H2, elem_of_app. by left.
Qed.

Lemma settle_all_exact m0 out0 existing S T s :
  (forall ref, ref ∈ T -> Key ref ∈ existing <-> Key ref ∈ Key <$> catalog_refs cat) ->
  settled m0 out0 S s -> listed (S ++ T) ->
  exists s', visit_all (settle_object c o existing) T s = (s', None) /\ settled m0 out0 (S ++ T) s' /\
    sc_objects s' = sc_objects s /\ StoredObjects (sc_summary s') = StoredObjects (sc_summary s).
Proof.
  revert S s. induction T as [|ref T IH]; intros S s Hex Hs Hl; cbn [visit_all].
  - exists s. by rewrite app_nil_r.
  - change (ref :: T) with ([ref] ++ T) in Hl |- *. rewrite app_assoc in Hl |- *.
    destruct (settle_object_exact m0 out0 existing S ref s (Hex ref ltac:(by left)) Hs (listed_prefix _ _ Hl)) as (s1 & -> & H1 & O1 & C1).
    destruct (IH _ s1 (λ x Hx, Hex x ltac:(by right)) H1 Hl) as (s2 & -> & H2 & O2 & C2). exists s2. split; [done|]. split; [done|]. by split; congruence.
Qed.

Lemma flush_exact m0 out0 S s :
  settled m0 out0 S s -> zlen (sc_objects s) <= 10000 -> listed (S ++ sc_objects s) ->
  exists s', flush c o s = (s', None) /\ settled m0 out0 (S ++ sc_objects s) s' /\ sc_objects s' = [] /\
    StoredObjects (sc_summary s') = StoredObjects (sc_summary s).
Proof.
  intros Hs Hb Hl. unfold flush. destruct (sc_objects s) as [|ref B] eqn:EB.
  { exists s. by rewrite app_nil_r. }
  destruct (st_catalog _ _ _ _ Hs) as (S1 & C1). destruct (catalog_same_spec _ _ S1 Hwf) as [W1 E1].
  destruct (cat_existing_spec (Key <$> (ref :: B)) (sc_catalog s)) as (k' & r & Ex & (S2 & C2) & Hr); [done|].
  rewrite Ex. destruct r as [existing|e].
  2:{ exfalso. destruct Hr as [Hr|Hr]; [unfold zlen in *; rewrite length_fmap in Hr; lia|by apply Hr, C1]. }
  assert (settled m0 out0 S (on_catalog s k')) as Hs'.
  { destruct Hs. split; try done. split; [by etrans|]. cbn. auto. }
  destruct (settle_all_exact m0 out0 existing S (ref :: B) (on_catalog s k')) as (s1 & -> & H1 & _ & C3); [|done|done|].
  { intros x Hx. rewrite Hr, E1. split; [by intros [_ ?]|]. intros ?. split; [by apply list_elem_of_fmap_2|done]. }
  eexists. split; [reflexivity|]. split; [|done]. destruct H1. by split.
Qed.

(** *** The walk *)

Lemma below_spec (r p : path) parts : below r p = Some parts <-> parts <> [] /\ p = reverse parts ++ r.
Proof.
  unfold below. split.
  - destruct (bool_decide _) eqn:E1; [|done]. cbn [andb]. destruct (0 <? _)%nat eqn:E2; [|done].
    intros [= <-]. bool_to_prop. apply Nat.ltb_lt in E2. rewrite reverse_involutive. split.
    + intros Hn%(f_equal length). rewrite length_reverse, length_take in Hn. cbn in Hn. lia.
    + set (k := (length p - length r)%nat) in *. clearbody k. subst r. by rewrite take_drop.
  - intros [Hne ->].
    assert (length (reverse parts ++ r) - length r = length parts)%nat as -> by (rewrite length_app, length_reverse; lia).
    assert (drop (length parts) (reverse parts ++ r) = r) as -> by (apply drop_app_length'; by rewrite length_reverse).
    assert (take (length parts) (reverse parts ++ r) = reverse parts) as -> by (apply take_app_length'; by rewrite length_reverse).
    rewrite bool_decide_eq_true_2 by done.
    rewrite (proj2 (Nat.ltb_lt _ _)) by (destruct parts; cbn; [done|lia]). by rewrite reverse_involutive.
Qed.

Lemma walk_list_spec d0 r parts n :
  (parts, n) ∈ walk_list d0 r <-> parts <> [] /\ d_tree d0 !! (reverse parts ++ r) = Some n.
Proof.
  unfold walk_list. rewrite merge_sort_Permutation, list_elem_of_omap. split.
  - intros ([p m] & Hin & Hx). cbn in Hx. destruct (below r p) as [q|] eqn:E; [|done]. injection Hx as -> ->.
    apply below_spec in E as [Hne ->]. split; [done|]. by apply elem_of_map_to_list.
  - intros [Hne Ht]. exists (reverse parts ++ r, n). split; [by apply elem_of_map_to_list|]. cbn.
    by rewrite (proj2 (below_spec r (reverse parts ++ r) parts)).
Qed.

Lemma walk_list_NoDup d0 r : NoDup (fst <$> walk_list d0 r).
Proof.
  unfold walk_list. rewrite merge_sort_Permutation.
  pose proof (NoDup_fst_map_to_list (d_tree d0)) as Hnd. revert Hnd.
  generalize (map_to_list (d_tree d0)). induction l as [|[q n] l IH]; [constructor|].
  cbn [fmap list_fmap]. rewrite NoDup_cons. intros [Hq Hnd]. cbn [omap list_omap fst].
  destruct (below r q) as [parts|] eqn:E; cbn [option_fmap option_map fmap]; [|by apply IH].
  apply NoDup_cons. split; [|by apply IH].
  intros ([ps m] & Hps & ([q' n'] & Hin & Hx)%list_elem_of_omap)%list_elem_of_fmap. cbn in Hx, Hps. subst ps.
  destruct (below r q') as [ps'|] eqn:E'; [|done]. injection Hx as -> ->.
  apply below_spec in E as [_ ->], E' as [_ ->].
  apply Hq, list_elem_of_fmap. by exists (reverse parts ++ r, m).
Qed.

(** A file of the object tree, as the walk sees it. *)
Lemma file_parts parts i :
  d_tree d !! (reverse parts ++ objectsRoot c) = Some (NFile i) ->
  exists digest, parts = [take 2 digest; take 2 (drop 2 digest); digest] /\ canonical_digest digest.
Proof using Hok.
  intros Ht. destruct (ok_object _ _ Hok _ _ Ht) as (f & _ & _ & (g & _ & Hg & Hp)%pathForKey_inv); [by eexists|].
  apply app_inj_2 in Hp as [Hp _]; [|done]. exists g. split; [|done].
  by rewrite <- (reverse_involutive parts), Hp.
Qed.

Lemma objects_of_cons e l : objects_of (e :: l) = objects_of [e] ++ objects_of l.
Proof. unfold objects_of. cbn. by destruct (e.2). Qed.

(** Every entry but those of the visited objects looks as it did at first. *)
Lemma walk_loop_exact m0 out0 l : forall S s,
  settled m0 out0 S s -> zlen (sc_objects s) < BatchSize o -> BatchSize o <= 10000 ->
  (forall e, e ∈ l -> e.1 <> [] /\ d_tree d !! (reverse e.1 ++ objectsRoot c) = Some e.2) ->
  listed (S ++ sc_objects s ++ objects_of l) ->
  exists S' s', visit_all (scan_entry c o) l s = (s', None) /\ settled m0 out0 S' s' /\
    S' ++ sc_objects s' = S ++ sc_objects s ++ objects_of l /\ zlen (sc_objects s') < BatchSize o /\
    StoredObjects (sc_summary s') = StoredObjects (sc_summary s) + zlen (objects_of l).
Proof.
  induction l as [|[parts n] l IH]; intros S s Hs Hb Hmax Hl Hlist; cbn [visit_all].
  { exists S, s. unfold objects_of. cbn. by rewrite app_nil_r, Z.add_0_r. }
  destruct (Hl (parts, n) ltac:(by left)) as [Hne Ht]. cbn [fst snd] in Hne, Ht.
  assert (forall e, e ∈ l -> e.1 <> [] /\ d_tree d !! (reverse e.1 ++ objectsRoot c) = Some e.2) as Hl'
    by (intros e He; apply Hl; by right).
  rewrite objects_of_cons in Hlist |- *.
  assert (forall s : scan K, on_disk s (sc_disk s) = s) as Hid by (by intros []).
  unfold walk_entry at 1. unfold lift at 1. rewrite ctx_err_calm, Hid by apply Hs.
  destruct n as [i|].
  - destruct (file_parts parts i Ht) as (g & -> & [Hg1 Hg2]).
    rewrite (proj2 (Z.eqb_eq _ _)) by (unfold digestHexLength, zlen; lia).
    rewrite !bool_decide_eq_true_2 by done. cbn [negb orb].
    rewrite relativePathForKey_canonical by done.
    set (ref := MkContentRef (sha256_prefix ++ g) (zlen (data_of d i))).
    assert (objects_of [([take 2 g; take 2 (drop 2 g); g], NFile i)] = [ref]) as Eo by done.
    rewrite Eo in Hlist |- *.
    assert (pathForKey c (Key ref) = Ok (reverse [take 2 g; take 2 (drop 2 g); g] ++ objectsRoot c)) as Hp.
    { unfold pathForKey. cbn [Key ref]. by rewrite relativePathForKey_canonical. }
    assert (repaired S (reverse [take 2 g; take 2 (drop 2 g); g] ++ objectsRoot c) = false) as Hfresh.
    { apply (repaired_fresh S ref); [|done]. split.
      - destruct Hlist as [Hnd _]. rewrite !fmap_app in Hnd |- *. apply NoDup_app in Hnd as (N1 & N2 & N3).
        apply NoDup_app. split; [done|]. split; [|apply NoDup_singleton].
        intros x Hx Hin. apply (N2 x Hx). rewrite !fmap_app. apply elem_of_app. right. apply elem_of_app. by left.
      - intros x Hx. apply (proj2 Hlist). apply elem_of_app in Hx as [Hx|Hx]; apply elem_of_app; [by left|right].
        apply elem_of_app. right. apply elem_of_app. by left. }
    unfold lift, stat. rewrite bind_attempt_calm by apply Hs.
    rewrite (st_tree _ _ _ _ Hs), Hfresh, Ht, Hid.
    assert (zlen (f_data (file_of (sc_disk s) (NFile i))) = zlen (data_of d i)) as ->
      by (unfold data_of, file_of; by rewrite (st_inodes _ _ _ _ Hs)).
    change (MkContentRef _ (zlen (data_of d i))) with ref.
    unfold visit_object. set (s1 := Scan _ _ _ _ _).
    assert (settled m0 out0 S s1) as Hs1 by (destruct Hs; by split).
    assert (sc_objects s1 = sc_objects s ++ [ref]) as O1 by done.
    assert (StoredObjects (sc_summary s1) = StoredObjects (sc_summary s) + 1) as C1 by done.
    clearbody s1.
    assert (S ++ sc_objects s ++ [ref] ++ objects_of l = S ++ sc_objects s1 ++ objects_of l) as EL
      by (by rewrite O1, <- !app_assoc).
    rewrite EL in Hlist |- *.
    destruct (zlen (sc_objects s1) =? BatchSize o) eqn:Eb; bool_to_prop.
    + destruct (flush_exact m0 out0 S s1 Hs1) as (s2 & -> & H2 & O2 & C2); [lia|..].
      { apply (listed_prefix _ (objects_of l)). by rewrite <- app_assoc. }
      destruct (IH (S ++ sc_objects s1) s2 H2) as (S' & s' & E' & H' & L' & B' & C'); [|done|done| |].
      * rewrite O2, zlen_nil. pose proof (zlen_nonneg (sc_objects s)). lia.
      * rewrite O2. cbn [app]. by rewrite <- app_assoc.
      * exists S', s'. split; [done|]. split; [done|]. rewrite L', O2. rewrite app_nil_l, <- app_assoc.
        split; [done|]. split; [done|]. rewrite C', C2, C1, zlen_app, zlen_cons, zlen_nil. lia.
    + destruct (IH S s1 Hs1) as (S' & s' & E' & H' & L' & B' & C'); [|done|done|done|].
      * pose proof (f_equal zlen O1) as HO. rewrite zlen_app, zlen_cons, zlen_nil in HO. lia.
      * exists S', s'. split; [done|]. split; [done|]. rewrite L'.
        split; [done|]. split; [done|]. rewrite C', C1, zlen_app, zlen_cons, zlen_nil. lia.
  - destruct Hlayout as (_ & Hdirs & _). destruct (Hdirs parts Hne Ht) as [Hlen Hv]. rewrite Hv.
    rewrite bool_decide_eq_false_2 by lia. cbn [negb orb]. unfold lift. rewrite attempt_calm, Hid by apply Hs.
    apply IH; done.
Qed.

Lemma objects_of_listed : listed (objects_of (walk_list d (objectsRoot c))).
Proof using Hok.
  split.
  - pose proof (walk_list_NoDup d (objectsRoot c)) as Hnd.
    assert (forall e, e ∈ walk_list d (objectsRoot c) -> e.1 <> [] /\ d_tree d !! (reverse e.1 ++ objectsRoot c) = Some e.2) as Hl.
    { intros [ps n]. apply walk_list_spec. }
    revert Hnd Hl. generalize (walk_list d (objectsRoot c)).
    induction l as [|[ps n] l IH]; intros Hnd Hl; [constructor|].
    cbn [fmap list_fmap] in Hnd. apply NoDup_cons in Hnd as [Hx Hnd].
    assert (NoDup (Key <$> objects_of l)) as IH' by (apply IH; [done|]; intros e He; apply Hl; by right).
    unfold objects_of. cbn [omap list_omap snd fst]. destruct n as [i|]; [|done].
    cbn [fmap list_fmap Key]. apply NoDup_cons. split; [|done].
    destruct (Hl (ps, NFile i) ltac:(by left)) as [_ Ht].
    cbn [fst snd] in Ht. apply file_parts in Ht as (g & -> & _). cbn [last default].
    intros (ref & Hk & ([ps' n'] & Hin & Ho)%list_elem_of_omap)%list_elem_of_fmap. cbn [fst snd] in Ho.
    destruct n' as [j|]; [|done]. injection Ho as <-. cbn [Key] in Hk.
    destruct (Hl (ps', NFile j) ltac:(by right)) as [_ Ht'].
    cbn [fst snd] in Ht'. apply file_parts in Ht' as (g' & -> & _).
    change (sha256_prefix ++ g = sha256_prefix ++ g') in Hk. apply app_inv_head in Hk. subst g'.
    apply Hx, list_elem_of_fmap. eexists. split; [|exact Hin]. done.
  - intros ref ([ps n] & [Hne Ht]%walk_list_spec & Ho)%list_elem_of_omap. cbn [fst snd] in Ho.
    destruct n as [i|]; [|done]. injection Ho as <-. destruct (file_parts _ _ Ht) as (g & -> & Hg).
    eexists _, i. split; [|exact Ht]. change (pathForKey c (sha256_prefix ++ g) = Ok ([g; take 2 (drop 2 g); take 2 g] ++ objectsRoot c)).
    unfold pathForKey. by rewrite relativePathForKey_canonical.
Qed.

(** The walk over the whole tree, from the state before any repair. *)
Lemma walkObjects_calm m0 out0 s :
  settled m0 out0 [] s -> sc_disk s = d -> sc_objects s = [] -> 1 <= BatchSize o <= 10000 ->
  exists S s', scan_objects c o s = (s', None) /\ settled m0 out0 S s' /\
    S ++ sc_objects s' = sc_objects s ++ objects_of (walk_list d (objectsRoot c)) /\ zlen (sc_objects s') < BatchSize o /\
    StoredObjects (sc_summary s') = StoredObjects (sc_summary s) + zlen (objects_of (walk_list d (objectsRoot c))).
Proof using Hok Hlayout Hwf Hquery.
  intros Hs D0 O0 Hb. assert (forall s : scan K, on_disk s (sc_disk s) = s) as Hid by (by intros []).
  unfold walkObjects, lift at 1 2 3. unfold stat. rewrite bind_attempt_calm by apply Hs.
  rewrite D0, (proj1 Hlayout). rewrite <- D0, Hid. rewrite ctx_err_calm, Hid by apply Hs.
  rewrite attempt_calm, Hid by apply Hs. rewrite D0.
  destruct (walk_loop_exact m0 out0 (walk_list d (objectsRoot c)) [] s) as (S & s1 & -> & H1 & L1 & B1 & C1).
  - done.
  - rewrite O0, zlen_nil. lia.
  - lia.
  - intros [parts n]. apply walk_list_spec.
  - rewrite O0. by apply objects_of_listed.
  - exists S, s1. by rewrite O0 in L1 |- *.
Qed.
End Facts.

(** ** The scan as a whole *)

(** The scan when nothing fails. *)
Lemma Reconcile_calm (c : config) {K} `{!ContentCatalog K} `{!CatalogSpec K} (o : ReconcileOptions) (d : disk) (k : K) :
  disk_ok c d -> calm d -> layout_ok c d -> catalog_ok c d k -> 1 <= BatchSize o <= 10000 ->
  catalog_wf k -> catalog_calm k ->
  let refs := ref_findings c d (catalog_refs k) in
  let objects := objects_of d (walk_list d (objectsRoot c)) in
  exists s, Reconcile c o d k = Some (s, None) /\
    sc_out s = refs ++ ((λ ref, MkFinding FindingOrphan ref (RepairOrphans o)) <$> orphans k objects) /\
    sc_summary s = MkSummary (zlen (catalog_refs k)) (zlen objects) (tally FindingMissing refs) (tally FindingCorrupt refs)
      (zlen (orphans k objects)) (if RepairOrphans o then zlen (orphans k objects) else 0) /\
    (forall q, d_tree (sc_disk s) !! q = if repaired c o k objects q then None else d_tree d !! q) /\
    d_inodes (sc_disk s) = d_inodes d /\ disk_ok c (sc_disk s).
Proof.
  intros Hok Hc Hlay Hcat Hb Hwf Hq refs objects. unfold Reconcile.
  assert ((BatchSize o <=? 0) || (10000 <? BatchSize o) = false) as ->
    by (rewrite orb_false_iff, Z.leb_gt, Z.ltb_ge; lia).
  destruct (cat_walk_spec _ (BatchSize o) (visit_ref c) k (Scan d k (MkSummary 0 0 0 0 0 0) [] []) Hb Hwf)
    as (k1 & s0 & e & -> & K1 & Hw).
  destruct Hw as [Hw|(Hn & _)]; [|done].
  rewrite (visit_refs_exact c d k Hok Hc Hcat) in Hw by done. fold refs in Hw. injection Hw as Hs0 <-.
  set (s1 := on_catalog s0 k1).
  assert (sc_disk s1 = d /\ sc_objects s1 = [] /\ sc_out s1 = refs /\ sc_catalog s1 = k1 /\
    sc_summary s1 = MkSummary (zlen (catalog_refs k)) 0 (tally FindingMissing refs) (tally FindingCorrupt refs) 0 0)
    as (D0 & O0 & U0 & G0 & M0) by (subst s0 s1; done).
  clearbody s1. clear s0 Hs0.
  assert (settled c o d k (sc_summary s1) refs [] s1) as Hs1.
  { split; rewrite ?D0, ?G0, ?U0; try done; cbn; rewrite ?app_nil_r, ?Z.add_0_r; try done.
    - intros q. unfold repaired. by rewrite andb_false_r.
    - by destruct (RepairOrphans o); rewrite ?Z.add_0_r. }
  destruct (walkObjects_calm c o d k Hok Hlay Hwf Hq (sc_summary s1) refs s1 Hs1 D0 O0 Hb) as (S & s2 & -> & H2 & L2 & B2 & C2).
  rewrite O0 in L2. cbn [app] in L2. fold objects in L2, C2.
  destruct (flush_exact c o d k Hlay Hwf Hq (sc_summary s1) refs S s2 H2) as (s3 & -> & H3 & O3 & C3);
    [lia|rewrite L2; by apply objects_of_listed|].
  rewrite L2 in H3. destruct H3 as [Hcalm Hct Hok2 Hi Ht Hout (R1 & R2 & R3) Ho Hr].
  exists s3. split; [done|]. split; [done|]. split; [|done].
  destruct (sc_summary s3) as [a b m g og rp]. rewrite M0 in *.
  cbn [DatabaseRefs StoredObjects Missing Corrupt Orphans RepairedOrphans] in *. subst. f_equal; lia.
Qed.

(** Reconciliation reports the truth, whatever the batch size.  On a
    consistent layout, without system-call failures and with a catalog of
    canonical references, [Reconcile] succeeds; its findings are exactly the
    catalogued references whose object is missing or differs, followed by the
    stored objects the catalog does not have, in catalog and walk order; the
    counters are their numbers; and afterwards the object tree is the
    original one less, if repair was asked for, exactly the orphans.  None of
    this depends on the batch size. *)
Theorem reconcile_exact (c : config) {K} `{!ContentCatalog K} `{!CatalogSpec K} (o : ReconcileOptions) (d : disk) (k : K) :
  disk_ok c d -> d_oracle d = [] -> layout_ok c d -> catalog_ok c d k -> 1 <= BatchSize o <= 10000 ->
  catalog_wf k -> catalog_calm k ->
  let refs := ref_findings c d (catalog_refs k) in
  let objects := objects_of d (walk_list d (objectsRoot c)) in
  exists s, Reconcile c o d k = Some (s, None) /\
    sc_out s = refs ++ ((λ ref, MkFinding FindingOrphan ref (RepairOrphans o)) <$> orphans k objects) /\
    sc_summary s = MkSummary (zlen (catalog_refs k)) (zlen objects) (tally FindingMissing refs) (tally FindingCorrupt refs)
      (zlen (orphans k objects)) (if RepairOrphans o then zlen (orphans k objects) else 0) /\
    (forall q, d_tree (sc_disk s) !! q = if repaired c o k objects q then None else d_tree d !! q) /\
    d_inodes (sc_disk s) = d_inodes d /\ disk_ok c (sc_disk s).
Proof. intros. by apply Reconcile_calm. Qed.

(** The two layout conditions are decidable. *)
Lemma layout_check (c : config) (d : disk) :
  d_tree d !! objectsRoot c = Some NDir ->
  forallb (λ e : list bytes * node, match e.2 with
    | NDir => (length e.1 <=? 2)%nat && validDigestPrefix (default [] (last e.1))
    | NFile _ => true end) (walk_list d (objectsRoot c)) = true ->
  forallb (λ kv : path * node, match kv.2 with
    | NFile _ => bool_decide (d_tree d !! dir kv.1 = Some NDir)
    | NDir => true end) (map_to_list (d_tree d)) = true ->
  layout_ok c d.
Proof.
  rewrite !forallb_forall. intros Hr Hd Hf. split; [done|]. split.
  - intros parts Hne Ht. specialize (Hd (parts, NDir)). cbn [fst snd] in Hd.
    assert (In (parts, NDir) (walk_list d (objectsRoot c))) as Hin by (by apply list_elem_of_In, walk_list_spec).
    apply Hd, andb_true_elim in Hin as [H1 H2]. split; [by apply Nat.leb_le|done].
  - intros p i _ Ht. specialize (Hf (p, NFile i)). cbn [fst snd] in Hf.
    assert (In (p, NFile i) (map_to_list (d_tree d))) as Hin by (by apply list_elem_of_In, elem_of_map_to_list).
    apply Hf in Hin. by bool_to_prop.
Qed.

Lemma catalog_check (c : config) {K} `{!ContentCatalog K} `{!CatalogSpec K} (d : disk) (k : K) :
  forallb (λ ref, (0 <=? SizeBytes ref) && match pathForKey c (Key ref) with
    | Ok p => bool_decide (d_tree d !! p <> Some NDir)
    | Err _ => false end) (catalog_refs k) = true ->
  catalog_ok c d k.
Proof.
  rewrite forallb_forall. intros Hc ref Hin%list_elem_of_In%Hc. apply andb_true_elim in Hin as [H1 H2].
  bool_to_prop. split; [done|]. destruct (pathForKey c (Key ref)) as [p|]; [|done]. exists p. by bool_to_prop.
Qed.

(** A fixed list of references is a catalog. *)
Module Fixed.
#[export] Instance catalog : ContentCatalog (list ContentRef) := {|
  cat_walk S n visit k s := let '(s, e) := visit_all visit k s in Some (k, s, e);
  cat_existing keys k := (k, Ok (list_to_set (filter (λ key, key ∈ Key <$> k) keys)))
|}.

#[export, refine] Instance spec : CatalogSpec (list ContentRef) := {|
  catalog_refs := id; catalog_wf _ := True; catalog_calm _ := True; catalog_same := eq
|}.
Proof.
  - by intros k k' ->.
  - intros S n visit k s _ _. cbn. destruct (visit_all visit k s) as [s' e] eqn:E. exists k, s', e. split; [done|].
    split; [done|]. by left.
  - intros keys k _. eexists k, _. split; [reflexivity|]. split; [done|]. intros key.
    rewrite elem_of_list_to_set, list_elem_of_filter. unfold id. tauto.
Defined.
End Fixed.

(** A store with one catalogued object, and a catalogued object that is gone. *)
Module Demo.
Import Fixed.
Definition d : disk := st_disk ContentStoreSpec.Demo.one.
Definition c : config := ContentStoreSpec.Demo.cfg.
Definition k : list ContentRef := [ref_of ContentStoreSpec.Demo.hello; ref_of (str "gone")].
Definition o : ReconcileOptions := MkReconcileOptions 1 true.

Lemma layout : layout_ok c d.
Proof. apply layout_check; vm_compute; reflexivity. Qed.

Lemma catalog_canonical : catalog_ok c d k.
Proof. apply catalog_check. vm_compute. reflexivity. Qed.
End Demo.

Lemma reconcile_exact_witness :
  let refs := ref_findings Demo.c Demo.d Demo.k in
  let objects := objects_of Demo.d (walk_list Demo.d (objectsRoot Demo.c)) in
  exists s, @Reconcile Demo.c _ Fixed.catalog Demo.o Demo.d Demo.k = Some (s, None) /\
    sc_out s = refs ++ ((λ ref, MkFinding FindingOrphan ref true) <$> @orphans _ _ Fixed.spec Demo.k objects) /\
    sc_summary s = MkSummary 2 (zlen objects) (tally FindingMissing refs) (tally FindingCorrupt refs)
      (zlen (@orphans _ _ Fixed.spec Demo.k objects)) (zlen (@orphans _ _ Fixed.spec Demo.k objects)) /\
    (forall q, d_tree (sc_disk s) !! q = if @repaired Demo.c _ _ Fixed.spec Demo.o Demo.k objects q then None else d_tree Demo.d !! q) /\
    d_inodes (sc_disk s) = d_inodes Demo.d /\ disk_ok Demo.c (sc_disk s).
Proof.
  apply (@reconcile_exact Demo.c _ Fixed.catalog Fixed.spec Demo.o Demo.d Demo.k);
    [apply ContentStoreSpec.one_ok|vm_compute; reflexivity|apply Demo.layout|apply Demo.catalog_canonical|done|done|done].
Defined.
