(* ===== verification/Tar.v ===== *)
(** * Archives: [archive/tar] and [compress/gzip]

    What a backup uses of the two packages.  The writer is concrete: the
    512-byte headers of the USTAR format and the calls that emit them.  DEFLATE
    and the tolerant reader of [archive/tar] are classes with the laws the
    program relies on; [Stored] instantiates both.  How [gzip.Reader] hands out
    what it decompresses is modelled, because the end of the stream is only
    noticed with the right window ([end_noticed]). *)

From S2P Require Import Prelude GoStrings Errors Codec.

Definition blockSize : nat := 512.
Definition zeros (n : nat) : bytes := replicate n (byte_of 0).

(** The number of bytes that fill the last block. *)
Definition blockPadding (size : Z) : nat := Z.to_nat ((- size) mod 512).

(** ** Headers *)

(** [formatOctal] into a field of [n + 1] bytes. *)
Fixpoint octal (n : nat) (x : Z) : bytes :=
  match n with
  | O => []
  | S n => octal n (x / 8) ++ [byte_of (48 + x mod 8)]
  end.

Definition octal_field (n : nat) (x : Z) : bytes := octal n x ++ [byte_of 0].

(** A string in a field of [n] bytes. *)
Definition text_field (n : nat) (s : bytes) : bytes := s ++ zeros (n - length s).

Definition byte_sum (s : bytes) : Z := foldr (λ c n, code c + n) 0 s.

(** The fields before and after the checksum: mode [0600], no owner, the time
    zero, and a regular file. *)
Definition ustar_before (name : bytes) (size : Z) : bytes :=
  text_field 100 name ++ octal_field 7 384 ++ octal_field 7 0 ++ octal_field 7 0 ++ octal_field 11 size ++ octal_field 11 0.

Definition ustar_after : bytes :=
  str "0" ++ zeros 100 ++ str "ustar" ++ zeros 1 ++ str "00" ++ zeros 64 ++ octal_field 7 0 ++ octal_field 7 0 ++ zeros 167.

(** The checksum counts its own field as spaces. *)
Definition checksum (before after : bytes) : Z := byte_sum before + 8 * 32 + byte_sum after.

Definition ustar_header (name : bytes) (size : Z) : bytes :=
  let before := ustar_before name size in
  before ++ octal_field 6 (checksum before ustar_after) ++ str " " ++ ustar_after.

(** A size that the format can hold. *)
Definition ustar_size (size : Z) : bool := (0 <=? size) && (size <? 8 ^ 11).

(** ** Reading archives *)

(** What [Reader.Next] finds in the rest of a stream, which ends with [io.EOF]
    or with an error. *)
Inductive tar_step : Type :=
| TarEntry (name : bytes) (regular : bool) (size : Z) (rest : bytes)
| TarEnd (rest : bytes)          (* two blocks of zeros *)
| TarExhausted                   (* the stream ended instead *)
| TarFail (e : goerr).

Class TarLib := { tar_next : bytes -> option goerr -> tar_step }.

(** An entry takes at least its header; headers as they are written, and the
    end, are read back. *)
Class TarSpec (T : TarLib) : Prop := {
  tar_entry_shorter : forall s e name regular size rest, tar_next s e = TarEntry name regular size rest -> (length rest < length s)%nat;
  tar_next_header : forall name size rest e, (length name <= 100)%nat -> name <> [] -> forallb (in_range 33 126) name = true -> ustar_size size = true ->
    tar_next (ustar_header name size ++ rest) e = TarEntry name true size rest;
  tar_next_end : forall rest e, tar_next (zeros 1024 ++ rest) e = TarEnd rest
}.

(** A compressed stream: the bytes in it, the error of the decompressor behind
    them, the error in the trailer, and the source behind that. *)
Record gz_stream := MkGz { gz_payload : bytes; gz_error : option goerr; gz_trailer : option goerr; gz_rest : bytes }.

Class GzipLib := {
  (** what a writer has passed on after some calls of [Write], and in all *)
  gz_sent : list bytes -> bytes;
  gz_closed : list bytes -> bytes;
  (** [gzip.NewReader] and reading on *)
  gz_open : bytes -> res gz_stream
}.

Class GzipSpec (G : GzipLib) : Prop := {
  gz_sent_nil : gz_sent [] = [];
  gz_sent_grows : forall l x, gz_sent l `prefix_of` gz_sent (l ++ [x]);
  gz_sent_closed : forall l, gz_sent l `prefix_of` gz_closed l;
  gz_roundtrip : forall l rest, gz_open (gz_closed l ++ rest) = Ok (MkGz (concat l) None None rest)
}.

(** The error a reader of the stream sees at its end. *)
Definition stream_end (z : gz_stream) : option goerr := match gz_error z with Some e => Some e | None => gz_trailer z end.

(** The window in which the decompressor hands out its output. *)
Definition flate_window : Z := 32768.

(** Whether a reader that stopped at [step] has met the end of the compressed
    stream, and with it the trailer.  The end comes with the last bytes, unless
    these fill the window: then another read would be needed to notice it. *)
Definition end_noticed (z : gz_stream) (step : tar_step) : bool :=
  match step with
  | TarExhausted => true
  | TarEnd rest => bool_decide (rest = []) && negb (zlen (gz_payload z) mod flate_window =? 0)
  | _ => false
  end.

(** ** A concrete instance *)

Module Stored.
(** *** gzip with stored blocks *)

Definition le16 (n : Z) : bytes := [byte_of n; byte_of (n / 256)].
Definition le32 (n : Z) : bytes := le16 n ++ le16 (n / 65536).
Definition of_le16 (s : bytes) : Z := match s with [a; b] => code a + 256 * code b | _ => 0 end.

Fixpoint crc_bits (n : nat) (c : Z) : Z :=
  match n with
  | O => c
  | S n => crc_bits n (if Z.odd c then Z.lxor (Z.shiftr c 1) 3988292384 else Z.shiftr c 1)
  end.
Definition crc32 (s : bytes) : Z :=
  Z.lxor (foldl (λ c b, crc_bits 8 (Z.lxor c (code b))) 4294967295 s) 4294967295.

Definition block (final : bool) (data : bytes) : bytes :=
  byte_of (if final then 1 else 0) :: le16 (zlen data) ++ le16 (65535 - zlen data) ++ data.

Definition chunk : nat := Z.to_nat 65535.

Fixpoint deflate (fuel : nat) (s : bytes) : bytes :=
  match fuel, s with
  | S fuel, _ :: _ => block false (take chunk s) ++ deflate fuel (drop chunk s)
  | _, _ => block true []
  end.

Definition gzip_header : bytes := byte_of <$> [31; 139; 8; 0; 0; 0; 0; 0; 4; 255].

Definition gzip (s : bytes) : bytes := gzip_header ++ deflate (length s) s ++ le32 (crc32 s) ++ le32 (zlen s).

(** The output, and the source behind the last block. *)
Fixpoint inflate (fuel : nat) (s out : bytes) : bytes * option goerr * bytes :=
  match fuel with
  | O => (out, Some (ENew "unexpected EOF"), [])
  | S fuel =>
    match s with
    | kind :: s =>
      let n := of_le16 (take 2 s) in
      if (length s <? 4)%nat || negb (of_le16 (take 2 (drop 2 s)) =? 65535 - n) || (1 <? code kind)
      then (out, Some (ENew "flate: corrupt input"), s)
      else
        let s := drop 4 s in
        if zlen s <? n then (out ++ s, Some (ENew "unexpected EOF"), [])
        else
          let out := out ++ take (Z.to_nat n) s in
          let s := drop (Z.to_nat n) s in
          if code kind =? 1 then (out, None, s) else inflate fuel s out
    | [] => (out, Some (ENew "unexpected EOF"), [])
    end
  end.

Definition gunzip (s : bytes) : res gz_stream :=
  if negb (bool_decide (take 10 s = gzip_header)) then Err (ENew "gzip: invalid header")
  else
    let '(out, e, rest) := inflate (length s) (drop 10 s) [] in
    Ok (MkGz out e
      (if bool_decide (take 8 rest = le32 (crc32 out) ++ le32 (zlen out)) then None else Some (ENew "gzip: invalid checksum"))
      (drop 8 rest)).

#[global] Instance gzip_lib : GzipLib := {| gz_sent l := []; gz_closed l := gzip (concat l); gz_open := gunzip |}.

(** *** USTAR *)

Definition octal_value (s : bytes) : Z := foldl (λ n c, n * 8 + (code c - 48)) 0 s.

Fixpoint until_nul (s : bytes) : bytes :=
  match s with
  | c :: s => if code c =? 0 then [] else c :: until_nul s
  | [] => []
  end.

Definition ustar_next (s : bytes) (e : option goerr) : tar_step :=
  match s with
  | [] => match e with None => TarExhausted | Some e => TarFail e end
  | _ =>
    if bool_decide (take 1024 s = zeros 1024) then TarEnd (drop 1024 s)
    else
      let header := take 512 s in
      let before := take 148 header in
      let after := drop 156 header in
      if (length header <? 512)%nat || negb (octal_value (take 6 (drop 148 header)) =? checksum before after)
      then TarFail (ENew "archive/tar: invalid tar header")
      else TarEntry (until_nul (take 100 header)) (bool_decide (take 1 after = str "0")) (octal_value (take 11 (drop 124 header))) (drop 512 s)
  end.

#[global] Instance tar_lib : TarLib := {| tar_next := ustar_next |}.
End Stored.

(** ** The laws of the instance *)

Lemma length_octal n x : length (octal n x) = n.
Proof. revert x. induction n as [|n IH]; intros x; [done|]. cbn [octal]. rewrite length_app, IH. cbn. lia. Qed.

Lemma octal_value_snoc s c : Stored.octal_value (s ++ [c]) = Stored.octal_value s * 8 + (code c - 48).
Proof. unfold Stored.octal_value. by rewrite foldl_app. Qed.

Lemma octal_octal n x : 0 <= x < 8 ^ Z.of_nat n -> Stored.octal_value (octal n x) = x.
Proof.
  revert x. induction n as [|n IH]; intros x Hx.
  { change (8 ^ Z.of_nat 0) with 1 in Hx. cbn. lia. }
  rewrite Nat2Z.inj_succ, Z.pow_succ_r in Hx by lia. cbn [octal]. rewrite octal_value_snoc, IH, code_byte_of by div_mod_lia.
  rewrite (Z.mod_small (48 + _)) by div_mod_lia. div_mod_lia.
Qed.

Lemma length_text_field n s : (length s <= n)%nat -> length (text_field n s) = n.
Proof. intros Hs. unfold text_field, zeros. rewrite length_app, length_replicate. lia. Qed.

Lemma length_ustar_before name size : (length name <= 100)%nat -> length (ustar_before name size) = 148%nat.
Proof.
  intros Hn. unfold ustar_before, octal_field. rewrite !length_app, length_text_field, !length_octal by done. done.
Qed.

Lemma length_ustar_after : length ustar_after = 356%nat.
Proof. vm_compute. reflexivity. Qed.

Lemma length_ustar_header name size : (length name <= 100)%nat -> length (ustar_header name size) = 512%nat.
Proof.
  intros Hn. unfold ustar_header, octal_field. rewrite !length_app, length_ustar_before, length_ustar_after, length_octal by done. done.
Qed.

Lemma byte_sum_app s t : byte_sum (s ++ t) = byte_sum s + byte_sum t.
Proof. induction s as [|c s IH]; [done|]. cbn [byte_sum foldr app] in *. unfold byte_sum in *. lia. Qed.

Lemma byte_sum_bound s : 0 <= byte_sum s <= 255 * zlen s.
Proof.
  induction s as [|c s IH]; [done|]. rewrite zlen_cons. unfold byte_sum in *. cbn [foldr]. pose proof (code_range c). lia.
Qed.

Lemma until_nul_zeros s k : forallb (in_range 33 126) s = true -> Stored.until_nul (s ++ zeros k) = s.
Proof.
  induction s as [|c s IH]; [by destruct k|]. cbn [forallb]. intros [Hc Hs]%andb_true_iff. cbn [app Stored.until_nul].
  unfold in_range in Hc. apply andb_true_iff in Hc as [Hc _]. apply Z.leb_le in Hc. destruct (code c =? 0) eqn:E; [bool_to_prop; lia|]. by rewrite IH.
Qed.

(** A header does not begin like the end of an archive. *)
Lemma header_not_zeros name size rest :
  name <> [] -> forallb (in_range 33 126) name = true -> take 1024 (ustar_header name size ++ rest) <> zeros 1024.
Proof.
  destruct name as [|c name]; [done|]. intros _. cbn [forallb]. intros [Hc _]%andb_true_iff Hz%(f_equal head). injection Hz as ->. by vm_compute in Hc.
Qed.

(** The parts of a header, as a reader finds them. *)
Lemma header_parts name size (h := ustar_header name size) (sum := checksum (ustar_before name size) ustar_after) :
  (length name <= 100)%nat ->
  take 148 h = ustar_before name size /\ drop 156 h = ustar_after /\ take 6 (drop 148 h) = octal 6 sum /\
  take 100 h = text_field 100 name /\ take 11 (drop 124 h) = octal 11 size.
Proof.
  intros Hn. pose proof (length_ustar_before name size Hn) as Hb. unfold h, ustar_header. cbv zeta. fold sum.
  pose proof (length_octal 6 sum) as H6. split_and!.
  - by apply take_app_length'.
  - unfold octal_field. rewrite <- !app_assoc. rewrite (drop_app_ge (ustar_before name size)) by lia. rewrite Hb.
    rewrite (drop_app_ge (octal 6 sum)) by lia. by rewrite H6.
  - rewrite drop_app_length' by done. unfold octal_field. rewrite <- !app_assoc. by apply take_app_length'.
  - unfold ustar_before. rewrite <- !app_assoc. apply take_app_length'. by rewrite length_text_field.
  - unfold ustar_before, octal_field. rewrite <- !app_assoc. rewrite drop_app_ge by (rewrite length_text_field; lia). rewrite length_text_field by done.
    do 6 (rewrite drop_app_ge by (rewrite ?length_octal; cbn; lia); rewrite ?length_octal; cbn [length Nat.sub]).
    apply take_app_length'. by rewrite length_octal.
Qed.

#[global] Instance ustar_spec : TarSpec Stored.tar_lib.
Proof.
  split.
  - intros s e name regular size rest. cbn [tar_next Stored.tar_lib]. unfold Stored.ustar_next. destruct s as [|c s]; [by destruct e|].
    destruct (bool_decide _); [done|]. cbv zeta. destruct (_ || _); [done|]. intros [= _ _ _ <-]. rewrite length_drop. cbn [length]. lia.
  - intros name size rest e Hn Hne Hs Hz. cbn [tar_next Stored.tar_lib]. unfold Stored.ustar_next.
    pose proof (length_ustar_header name size Hn) as Hlen. destruct (ustar_header name size ++ rest) as [|c l] eqn:El.
    { apply app_eq_nil in El as [El _]. by rewrite El in Hlen. }
    rewrite <- El. clear El c l. rewrite bool_decide_eq_false_2 by by apply header_not_zeros.
    rewrite (take_app_length' (ustar_header name size) rest 512) by done. rewrite (drop_app_length' (ustar_header name size) rest 512) by done.
    rewrite Hlen. change (512 <? 512)%nat with false. cbn [orb].
    destruct (header_parts name size Hn) as (-> & -> & -> & -> & ->). cbv zeta.
    unfold ustar_size in Hz. bool_to_prop. rewrite !octal_octal, Z.eqb_refl; [|done|].
    2:{ unfold checksum. pose proof (byte_sum_bound (ustar_before name size)) as Hb. unfold zlen in Hb. rewrite length_ustar_before in Hb by done.
        vm_compute (byte_sum ustar_after). change (8 ^ Z.of_nat 6) with 262144. lia. }
    unfold text_field. by rewrite until_nul_zeros.
  - intros rest e. cbn [tar_next Stored.tar_lib]. unfold Stored.ustar_next. rewrite take_app_length', drop_app_length' by by vm_compute.
    rewrite bool_decide_eq_true_2 by done. done.
Qed.

Lemma of_le16_le16 n rest : 0 <= n <= 65535 -> Stored.of_le16 (take 2 (Stored.le16 n ++ rest)) = n.
Proof. intros Hn. rewrite take_app_length' by done. cbn [Stored.le16 Stored.of_le16]. rewrite !code_byte_of, (Z.mod_small (n / 256)) by div_mod_lia. div_mod_lia. Qed.

Lemma inflate_block fuel final data rest out :
  zlen data <= 65535 ->
  Stored.inflate (S fuel) (Stored.block final data ++ rest) out =
    if final then (out ++ data, None, rest) else Stored.inflate fuel rest (out ++ data).
Proof.
  intros Hd. pose proof (zlen_nonneg data). unfold Stored.block. cbn [app Stored.inflate]. rewrite <- !app_assoc, of_le16_le16 by lia.
  rewrite (drop_app_length' (Stored.le16 _)) by done. rewrite of_le16_le16, Z.eqb_refl by lia.
  assert (code (byte_of (if final then 1 else 0)) = if final then 1 else 0) as -> by (by destruct final; vm_compute).
  rewrite !length_app. replace (_ <? 4)%nat with false by (symmetry; apply Nat.ltb_ge; cbn [Stored.le16 length]; lia).
  replace (1 <? _) with false by (by destruct final). cbn [negb orb].
  change (drop 4 (Stored.le16 (zlen data) ++ Stored.le16 (65535 - zlen data) ++ data ++ rest)) with (data ++ rest).
  rewrite zlen_app. replace (_ <? zlen data) with false by (symmetry; apply Z.ltb_ge; pose proof (zlen_nonneg rest); lia).
  rewrite (take_app_length' data), (drop_app_length' data) by (unfold zlen; lia). by destruct final.
Qed.

Lemma inflate_deflate fuel s : forall fuel' out rest, (length s <= fuel)%nat -> (length s < fuel')%nat ->
  Stored.inflate fuel' (Stored.deflate fuel s ++ rest) out = (out ++ s, None, rest).
Proof.
  revert s. induction fuel as [|fuel IH]; intros s [|fuel'] out rest Hf Hf'; [lia|..|lia|].
  - destruct s; [|cbn in Hf; lia]. cbn [Stored.deflate]. by rewrite inflate_block.
  - destruct s as [|c s]; [cbn [Stored.deflate]; by rewrite inflate_block|]. cbn [Stored.deflate]. rewrite <- app_assoc, inflate_block.
    + rewrite IH; [by rewrite <- app_assoc, take_drop|..]; rewrite length_drop; unfold Stored.chunk; cbn [length] in *; lia.
    + unfold zlen, Stored.chunk. rewrite length_take. lia.
Qed.

Lemma length_deflate fuel s : (length s <= fuel)%nat -> (length s < length (Stored.deflate fuel s))%nat.
Proof.
  revert s. induction fuel as [|fuel IH]; intros [|c s] Hf; [cbn; lia|cbn in Hf; lia|cbn; lia|]. cbn [Stored.deflate]. rewrite length_app.
  assert (length (drop Stored.chunk (c :: s)) < length (Stored.deflate fuel (drop Stored.chunk (c :: s))))%nat as Hd.
  { apply IH. rewrite length_drop. unfold Stored.chunk. cbn [length] in *. lia. }
  rewrite length_drop in Hd. unfold Stored.block. cbn [length]. rewrite !length_app, length_take. cbn [length] in *. lia.
Qed.

#[global] Instance stored_spec : GzipSpec Stored.gzip_lib.
Proof.
  split; [done|done| |].
  - intros l. apply prefix_nil.
  - intros l rest. cbn [gz_open gz_closed Stored.gzip_lib]. unfold Stored.gunzip, Stored.gzip. rewrite <- !app_assoc.
    rewrite take_app_length', drop_app_length', bool_decide_eq_true_2 by done. cbn [negb].
    rewrite inflate_deflate; [|done|].
    2:{ rewrite !length_app. pose proof (length_deflate (length (concat l)) (concat l) ltac:(lia)). lia. }
    cbn [app]. rewrite (app_assoc (Stored.le32 _)), take_app_length', drop_app_length' by done. by rewrite bool_decide_eq_true_2.
Qed.

(** The check value of CRC-32, and a stream that fills the window. *)
Lemma crc32_check : Stored.crc32 (str "123456789") = 3421780262.
Proof. vm_compute. reflexivity. Qed.
