(* ===== verification/FileTree.v ===== *)
(** * Whole directories: the calls of [os] that backups make

    Exclusive creation, [os.Mkdir], [os.RemoveAll] and [os.Rename] of a
    directory, on the disks of [FileSystem]. *)

From S2P Require Import Prelude GoStrings Errors Codec Uuid FileSystem Message ContentStore ContentStoreFacts.

(** [os.Mkdir] *)
Definition mkdir (p : path) : IO unit :=
  FileSystem.attempt ;;; λ d,
    if negb (is_dir d (dir p)) then (d, Err (ESentinel OsErrNotExist))
    else match d_tree d !! p with
    | Some _ => (d, Err (ESentinel OsErrExist))
    | None => (set_tree d (<[p := NDir]> (d_tree d)), Ok tt)
    end.

(** [OpenFile] with [O_WRONLY], [O_CREATE] and [O_EXCL]. *)
Definition create_file (p : path) : IO nat :=
  FileSystem.attempt ;;; λ d,
    if negb (is_dir d (dir p)) then (d, Err (ESentinel OsErrNotExist))
    else match d_tree d !! p with
    | Some _ => (d, Err (ESentinel OsErrExist))
    | None =>
      (Disk (<[d_next d := File [] false (d_clock d)]> (d_inodes d)) (<[p := NFile (d_next d)]> (d_tree d))
         (d_durable d) (S (d_next d)) (d_clock d) (d_statfs d) (d_oracle d), Ok (d_next d))
    end.

(** ** [os.RemoveAll]

    The names below a directory and the directory itself, contents first; what
    cannot be removed is left, and the first error returned. *)

Definition deeper (a b : path) : Prop := (length b <= length a)%nat.

#[global] Instance deeper_dec a b : Decision (deeper a b).
Proof. unfold deeper. apply _. Defined.

Definition paths_below (d : disk) (r : path) : list path :=
  merge_sort deeper (filter (λ p, r `suffix_of` p) (map_to_list (d_tree d)).*1).

Definition remove_name (p : path) : IO unit :=
  FileSystem.attempt ;;; λ d,
    match d_tree d !! p, entries d p with
    | Some NDir, _ :: _ => (d, Err (ENew "directory not empty"))
    | _, _ => (set_tree d (delete p (d_tree d)), Ok tt)
    end.

Fixpoint remove_each (l : list path) (d : disk) : disk * option goerr :=
  match l with
  | [] => (d, None)
  | p :: l =>
    match remove_name p d with
    | (d, Ok _) => remove_each l d
    | (d, Err e) => let '(d, _) := remove_each l d in (d, Some e)
    end
  end.

Definition remove_all (r : path) : disk -> disk * option goerr := λ d, remove_each (paths_below d r) d.

(** ** [os.Rename] of a directory

    The names in it are found under the new name; those that were durable are
    durable in whichever place the directory turns up. *)

Definition rebase (from to p : path) : path := take (length p - length from) p ++ to.

Definition moved (src dst : path) (kv : path * node) : path * node :=
  (if bool_decide (src `suffix_of` kv.1) then rebase src dst kv.1 else kv.1, kv.2).

Definition inside (r p : path) : Prop := r `suffix_of` p /\ p <> r.

#[global] Instance inside_dec r p : Decision (inside r p).
Proof. unfold inside. apply _. Defined.

Definition move_tree (src dst : path) (t : gmap path node) : gmap path node := list_to_map (moved src dst <$> map_to_list t).

Definition move_durable (src dst : path) (t : gmap path node) : gmap path node :=
  move_tree src dst (filter (λ kv, inside src kv.1) t) ∪ filter (λ kv, ~ inside dst kv.1) t.

(** [os.Rename] of a directory.  The callers have seen that the new name is free;
    an entry that is there makes it fail. *)
Definition rename (src dst : path) : IO unit :=
  FileSystem.attempt ;;; λ d,
    if negb (is_dir d src) || negb (is_dir d (dir dst)) then (d, Err (ESentinel OsErrNotExist))
    else match d_tree d !! dst with
    | Some _ => (d, Err (ESentinel OsErrExist))
    | None => (set_durable (set_tree d (move_tree src dst (d_tree d))) (move_durable src dst (d_durable d)), Ok tt)
    end.
