(* ===== verification/Archive.v ===== *)
(** * Content archives: [internal/contentstore/archive.go]

    [WriteArchive] packs the objects of a store into a compressed tar stream,
    [RestoreArchive] unpacks one into an empty directory, checking every object
    against its name. *)

From S2P Require Import Prelude GoStrings Errors Codec Uuid FileSystem Message ContentStore ContentStoreFacts Reconcile Tar FileTree.

#[local] Opaque sha256.

Definition archiveObjectPrefix : bytes := str "objects/sha256/".

Record ArchiveStats := MkStats { ar_Objects : Z; ar_Bytes : Z }.

#[global] Instance stats_eq_dec : EqDecision ArchiveStats.
Proof. solve_decision. Defined.

(** [filepath.ToSlash] of a relative path. *)
Fixpoint join_slash (parts : list bytes) : bytes :=
  match parts with
  | [] => []
  | [x] => x
  | x :: parts => x ++ str "/" ++ join_slash parts
  end.

Definition to_slash (relative : path) : bytes := join_slash (reverse relative).

(** [errors.Join] of errors that may be nil. *)
Definition join (a b : option goerr) : option goerr :=
  match a, b with
  | None, e => e
  | e, None => e
  | Some e, Some e' => Some (EWrap2 "join" e e')
  end.

(** ** Writing *)

(** An [io.Writer] whose writes reach the disk. *)
Class Writer (W : Type) := { wr_write : bytes -> W -> disk -> disk * W * option goerr }.

(** The [hashingWriter] of a backup (bundle.go): a file, and what was written to
    it and to the hash. *)
Record hashingWriter := HashingWriter { hw_file : nat; hw_hashed : bytes }.

#[global] Instance hashing_writer : Writer hashingWriter := {|
  wr_write data w d :=
    match write_file (hw_file w) data d with
    | (d, Err e) => (d, w, Some e)
    | (d, Ok _) => (d, HashingWriter (hw_file w) (hw_hashed w ++ data), None)
    end
|}.

(** [tar.Writer] over [gzip.Writer]: what was given to the compressor, the
    bytes missing in the current entry and behind it, and the errors that the
    two writers keep. *)
Record awriter (W : Type) := AWriter {
  aw_disk : disk; aw_dest : W; aw_given : list bytes; aw_gzip_err : option goerr;
  aw_left : Z; aw_pad : nat; aw_tar_err : option goerr; aw_stats : ArchiveStats
}.
Arguments AWriter {W}.
Arguments aw_disk {W}.
Arguments aw_dest {W}.
Arguments aw_given {W}.
Arguments aw_gzip_err {W}.
Arguments aw_left {W}.
Arguments aw_pad {W}.
Arguments aw_tar_err {W}.
Arguments aw_stats {W}.

Definition aw_run {W A} (m : IO A) (s : awriter W) : awriter W * res A :=
  let '(d, r) := m (aw_disk s) in
  (AWriter d (aw_dest s) (aw_given s) (aw_gzip_err s) (aw_left s) (aw_pad s) (aw_tar_err s) (aw_stats s), r).

Section Write.
Context `{!GzipLib} {W : Type} `{!Writer W} (c : config).

Abbreviation state := (awriter W).

(** Pass bytes on to the destination. *)
Definition send (out : bytes) (given : list bytes) (s : state) : state * option goerr :=
  match out with
  | [] => (AWriter (aw_disk s) (aw_dest s) given None (aw_left s) (aw_pad s) (aw_tar_err s) (aw_stats s), None)
  | _ =>
    let '(d, w, e) := wr_write out (aw_dest s) (aw_disk s) in
    (AWriter d w given e (aw_left s) (aw_pad s) (aw_tar_err s) (aw_stats s), e)
  end.

(** [gzip.Writer.Write] and [Close] *)
Definition gzip_write (data : bytes) (s : state) : state * option goerr :=
  match aw_gzip_err s with
  | Some e => (s, Some e)
  | None => send (drop (length (gz_sent (aw_given s))) (gz_sent (aw_given s ++ [data]))) (aw_given s ++ [data]) s
  end.

Definition gzip_close (s : state) : state * option goerr :=
  match aw_gzip_err s with
  | Some e => (s, Some e)
  | None => send (drop (length (gz_sent (aw_given s))) (gz_closed (aw_given s))) (aw_given s) s
  end.

Definition tar_fail (e : option goerr) (s : state) : state :=
  AWriter (aw_disk s) (aw_dest s) (aw_given s) (aw_gzip_err s) (aw_left s) (aw_pad s) e (aw_stats s).
Definition tar_entry (left : Z) (pad : nat) (s : state) : state :=
  AWriter (aw_disk s) (aw_dest s) (aw_given s) (aw_gzip_err s) left pad (aw_tar_err s) (aw_stats s).

(** [tar.Writer.Flush]: the padding of the entry. *)
Definition tar_flush (s : state) : state * option goerr :=
  match aw_tar_err s with
  | Some e => (s, Some e)
  | None =>
    if 0 <? aw_left s then (s, Some (ENew "archive/tar: missed writing bytes"))
    else match gzip_write (zeros (aw_pad s)) s with
    | (s, Some e) => (tar_fail (Some e) s, Some e)
    | (s, None) => (tar_entry 0 0 s, None)
    end
  end.

(** [WriteHeader] of a regular file in the format USTAR. *)
Definition tar_header (name : bytes) (size : Z) (s : state) : state * option goerr :=
  match tar_flush s with
  | (s, Some e) => (s, Some e)
  | (s, None) =>
    if negb (ustar_size size) then (s, Some (ENew "archive/tar: cannot encode header"))
    else match gzip_write (ustar_header name size) s with
    | (s, Some e) => (tar_fail (Some e) s, Some e)
    | (s, None) => (tar_entry size (blockPadding size) s, None)
    end
  end.

(** [Write]: no more than the entry has left. *)
Definition tar_write (data : bytes) (s : state) : state * option goerr :=
  match aw_tar_err s with
  | Some e => (s, Some e)
  | None =>
    let taken := if aw_left s <? zlen data then take (Z.to_nat (aw_left s)) data else data in
    let '(s, e) :=
      match taken with
      | [] => (s, None)
      | _ =>
        match gzip_write taken s with
        | (s, Some e) => (tar_fail (Some e) s, Some e)
        | (s, None) => (tar_entry (aw_left s - zlen taken) (aw_pad s) s, None)
        end
      end in
    match e with
    | Some e => (s, Some e)
    | None => (s, if zlen taken <? zlen data then Some (ENew "archive/tar: write too long") else None)
    end
  end.

(** [Close]: the padding and two blocks of zeros. *)
Definition tar_close (s : state) : state * option goerr :=
  match tar_flush s with
  | (s, Some e) => (s, Some e)
  | (s, None) =>
    match gzip_write (zeros blockSize) s with
    | (s, Some e) => (s, Some e)
    | (s, None) => gzip_write (zeros blockSize) s
    end
  end.

(** [io.CopyBuffer] of an open object into the archive and a hash: the bytes
    that were copied. *)
Fixpoint archive_copy (fuel : nat) (rest hashed : bytes) (s : state) : state * res bytes :=
  match fuel with
  | O => (s, Err (ENew "out of fuel"))
  | S fuel =>
    match aw_run (ctx_err ;;; FileSystem.attempt) s with
    | (s, Err e) => (s, Err e)
    | (s, Ok _) =>
      match rest with
      | [] => (s, Ok hashed)
      | _ =>
        match tar_write (take copyBufferBytes rest) s with
        | (s, Some e) => (s, Err e)
        | (s, None) => archive_copy fuel (drop copyBufferBytes rest) (hashed ++ take copyBufferBytes rest) s
        end
      end
    end
  end.

(** The visitor of the walk over the objects. *)
Definition archive_object (ref : ContentRef) (s : state) : state * option goerr :=
  match aw_run ctx_err s with
  | (s, Err e) => (s, Some e)
  | (s, Ok _) =>
    match relativePathForKey (Key ref) with
    | Err e => (s, Some e)
    | Ok relative =>
      match tar_header (archiveObjectPrefix ++ to_slash relative) (SizeBytes ref) s with
      | (s, Some e) => (s, Some (EWrap "write content archive header" e))
      | (s, None) =>
        match aw_run (OpenContent c ref) s with
        | (s, Err e) => (s, Some e)
        | (s, Ok file) =>
          let data := f_data (file_of (aw_disk s) (NFile file)) in
          let '(s, copied) := archive_copy (S (length data)) data [] s in
          let '(s, closed) := aw_run close_file s in
          let copyErr := match copied with Err e => Some (EWrap "archive content object" e) | Ok _ => None end in
          let closeErr := match closed with Err e => Some e | Ok _ => None end in
          match join copyErr closeErr, copied with
          | Some e, _ => (s, Some e)
          | None, Err e => (s, Some e)
          | None, Ok written =>
            if negb (zlen written =? SizeBytes ref) then (s, Some (EWrap "archive source size" ErrContentCorrupt))
            else if negb (bool_decide (Key ref = sha256_prefix ++ hex_encode (sha256 written)))
            then (s, Some (EWrap "archive source digest mismatch" ErrContentCorrupt))
            else
              (AWriter (aw_disk s) (aw_dest s) (aw_given s) (aw_gzip_err s) (aw_left s) (aw_pad s) (aw_tar_err s)
                 (MkStats (ar_Objects (aw_stats s) + 1) (ar_Bytes (aw_stats s) + zlen written)), None)
          end
        end
      end
    end
  end.

Definition WriteArchive (d : disk) (destination : W) : state * option goerr :=
  let '(s, walkErr) := walkObjects c (@aw_run W) aw_disk archive_object (AWriter d destination [] None 0 0 None (MkStats 0 0)) in
  let '(s, closeTarErr) := tar_close s in
  let '(s, closeGzipErr) := gzip_close s in
  (s, join walkErr (join closeTarErr closeGzipErr)).
End Write.

(** ** Names *)

(** [filepath.Clean] of a slash-separated path. *)
Fixpoint clean_parts (rooted : bool) (parts kept : list bytes) : list bytes :=
  match parts with
  | [] => reverse kept
  | part :: parts =>
    if bool_decide (part = []) || bool_decide (part = str ".") then clean_parts rooted parts kept
    else if bool_decide (part = str "..") then
      match kept with
      | last :: kept' => if bool_decide (last = str "..") then clean_parts rooted parts (part :: kept) else clean_parts rooted parts kept'
      | [] => clean_parts rooted parts (if rooted then [] else [part])
      end
    else clean_parts rooted parts (part :: kept)
  end.

Definition Clean (s : bytes) : bytes :=
  let rooted := has_prefix s (str "/") in
  let cleaned := join_slash (clean_parts rooted (split_at "/"%char s) []) in
  if rooted then str "/" ++ cleaned else if bool_decide (cleaned = []) then str "." else cleaned.

(** [archiveEntryReference]: the key of an entry and the path of its object. *)
Definition archiveEntryReference (name : bytes) : res (bytes * path) :=
  if contains name (str "\") || negb (has_prefix name archiveObjectPrefix) || has_prefix name (str "/")
  then Err (ENew "invalid content archive path")
  else
    let relativeSlash := trim_prefix name archiveObjectPrefix in
    let clean := Clean relativeSlash in
    if negb (bool_decide (clean = relativeSlash)) || bool_decide (clean = str ".") || has_prefix clean (str "../")
    then Err (ENew "invalid content archive path")
    else match split_at "/"%char relativeSlash with
    | [_; _; digest] =>
      let key := sha256_prefix ++ digest in
      match relativePathForKey key with
      | Err _ => Err (ENew "non-canonical content archive path")
      | Ok expected =>
        if negb (bool_decide (to_slash expected = relativeSlash)) then Err (ENew "non-canonical content archive path")
        else Ok (key, expected)
      end
    | _ => Err (ENew "invalid content archive path")
    end.

(** ** Restoring *)

(** [Root.MkdirAll]: the missing directories below an open directory. *)
Fixpoint mkdir_below (r : path) (k : list bytes) (t : gmap path node) : option (gmap path node) :=
  match k with
  | [] => if bool_decide (t !! r = Some NDir) then Some t else None
  | x :: k' =>
    match mkdir_below r k' t with
    | None => None
    | Some t' =>
      match t' !! (k ++ r) with
      | Some (NFile _) => None
      | Some NDir => Some t'
      | None => Some (<[k ++ r := NDir]> t')
      end
    end
  end.

Definition root_mkdir_all (r : path) (k : list bytes) : IO unit :=
  FileSystem.attempt ;;; λ d,
    match mkdir_below r k (d_tree d) with
    | Some t => (set_tree d t, Ok tt)
    | None => (d, Err (ENew "not a directory"))
    end.

(** [io.CopyBuffer] of an entry into a new file and a hash; [ends] is what the
    reader returns behind the bytes it has. *)
Fixpoint restore_copy (fuel : nat) (i : nat) (rest : bytes) (ends : option goerr) (hashed : bytes) : IO bytes :=
  match fuel with
  | O => throw (ENew "out of fuel")
  | S fuel =>
    ctx_err ;;;
    FileSystem.attempt ;;;
    match rest with
    | [] => match ends with None => ret hashed | Some e => throw e end
    | _ =>
      write_file i (take copyBufferBytes rest) ;;;
      restore_copy fuel i (drop copyBufferBytes rest) ends (hashed ++ take copyBufferBytes rest)
    end
  end.

Definition error_of {A} (r : res A) : option goerr := match r with Ok _ => None | Err e => Some e end.

(** The file of an entry: created, written, synced and closed; its bytes. *)
Definition restore_file (p : path) (data : bytes) (ends : option goerr) : IO bytes :=
  i <- wrap (EWrap "create restored content object") (create_file p) ;;
  λ d,
    let '(d, copied) := restore_copy (S (length data)) i data ends [] d in
    let '(d, synced) := sync_file i d in
    let '(d, closed) := close_file d in
    match join (EWrap "restore content object" <$> error_of copied) (join (error_of synced) (error_of closed)), copied with
    | Some e, _ => (d, Err e)
    | None, r => (d, r)
    end.

Section Restore.
Context `{!GzipLib} `{!TarLib} (targetRoot : path) (expected : ArchiveStats).

Definition restore_entry (name : bytes) (regular : bool) (size : Z) (rest : bytes) (stats : ArchiveStats) : IO ArchiveStats :=
  if negb regular || (size <? 0) then throw (ENew "content archive entry is not a regular file")
  else match archiveEntryReference name with
  | Err e => throw e
  | Ok (key, objectRelative) =>
    let relative := objectRelative ++ [str "sha256"; str "objects"] in
    if (ar_Objects expected <=? ar_Objects stats) || (ar_Bytes expected - ar_Bytes stats <? size)
    then throw (ENew "content archive exceeds manifest statistics")
    else
      let parent := tail relative in
      let data := take (Z.to_nat size) rest in
      wrap (EWrap "create restored object directory") (root_mkdir_all targetRoot parent) ;;;
      written <- restore_file (relative ++ targetRoot) data (if zlen data <? size then Some (ENew "unexpected EOF") else None) ;;
      if negb (zlen written =? size) then throw (ENew "content archive object size")
      else if negb (bool_decide (key = sha256_prefix ++ hex_encode (sha256 written)))
      then throw (EWrap "restored object digest mismatch" ErrContentCorrupt)
      else
        wrap (EWrap "sync restored object directory") (syncDirectoryTree targetRoot (parent ++ targetRoot)) ;;;
        ret (MkStats (ar_Objects stats + 1) (ar_Bytes stats + zlen written))
  end.

(** The loop over the entries; how the archive ended.  An entry is shorter than
    the stream, so its length is enough fuel. *)
Fixpoint restore_loop (fuel : nat) (z : gz_stream) (s : bytes) (stats : ArchiveStats) : IO (tar_step * ArchiveStats) :=
  match fuel with
  | O => throw (ENew "out of fuel")
  | S fuel =>
    ctx_err ;;;
    wrap (EWrap "read content archive header") FileSystem.attempt ;;;
    match tar_next s (stream_end z) with
    | TarFail e => throw (EWrap "read content archive header" e)
    | TarEntry name regular size rest =>
      stats <- restore_entry name regular size rest stats ;;
      restore_loop fuel z (drop (Z.to_nat size + blockPadding size) rest) stats
    | last => ret (last, stats)
    end
  end.

(** From the open root on. *)
Definition restore_body (source : bytes) : IO ArchiveStats :=
  wrap (EWrap "open content restore root") FileSystem.attempt ;;;
  wrap (EWrap "open content gzip archive") FileSystem.attempt ;;;
  match gz_open source with
  | Err e => throw (EWrap "open content gzip archive" e)
  | Ok z =>
    ended <- restore_loop (S (length (gz_payload z))) z (gz_payload z) (MkStats 0 0) ;;
    if negb (bool_decide (ended.2 = expected)) then throw (ENew "content archive statistics")
    else match gz_error z with
    | Some e => throw (EWrap "close content gzip archive" e)
    | None =>
      wrap (EWrap "inspect content archive trailing data") FileSystem.attempt ;;;
      if negb (end_noticed z ended.1) || negb (bool_decide (gz_rest z = [])) then throw (ENew "content archive contains trailing data")
      else
        wrap (EWrap "sync content restore root") (syncDirectory targetRoot) ;;;
        ret ended.2
    end
  end.

Fixpoint remove_entries (l : list (bytes * node)) (d : disk) : disk * option goerr :=
  match l with
  | [] => (d, None)
  | (name, _) :: l =>
    let '(d, e) := remove_all (name :: targetRoot) d in
    let '(d, e') := remove_entries l d in
    (d, join e e')
  end.

Definition removeDirectoryContents : disk -> disk * option goerr := λ d,
  match read_dir targetRoot d with
  | (d, Err e) => (d, Some e)
  | (d, Ok l) => remove_entries l d
  end.

(** The root is a directory with nothing in it, or is not there. *)
Definition inspect_root : IO bool := λ d,
  match stat targetRoot d with
  | (d, Ok NDir) =>
    match read_dir targetRoot d with
    | (d, Err e) => (d, Err (EWrap "inspect content restore root entries" e))
    | (d, Ok []) => (d, Ok true)
    | (d, Ok _) => (d, Err (ENew "content restore root is not empty"))
    end
  | (d, Ok (NFile _)) => (d, Err (ENew "content restore root is not a directory"))
  | (d, Err e) => if errors_is e OsErrNotExist then (d, Ok false) else (d, Err (EWrap "inspect content restore root" e))
  end.

Definition RestoreArchive (source : bytes) : IO ArchiveStats :=
  if (ar_Objects expected <? 0) || (ar_Bytes expected <? 0) then throw (ENew "content archive expected stats must not be negative")
  else
    rootExisted <- inspect_root ;;
    (if rootExisted : bool then ret tt else wrap (EWrap "create content restore root") (mkdir targetRoot)) ;;;
    wrap (EWrap "secure content restore root") (secureDirectory targetRoot) ;;;
    λ d,
      match restore_body source d with
      | (d, Ok stats) => (d, Ok stats)
      | (d, Err e) =>
        let '(d, cleanupErr) := (if rootExisted : bool then removeDirectoryContents d else remove_all targetRoot d) in
        (d, Err match cleanupErr with Some e' => EWrap2 "join" e (EWrap "clean incomplete content restore" e') | None => e end)
      end.
End Restore.
