(* ===== verification/ArchiveFacts.v ===== *)
(** * Archives restore what was archived

    The names of entries, the frame of a restore, what it leaves behind when
    it fails, and the round trip of a store through an archive. *)

From S2P Require Import Prelude GoStrings Errors Codec Uuid FileSystem Message ContentStore ContentStoreFacts ContentStoreSpec Reconcile Tar FileTree Archive.

#[local] Opaque sha256.

(** ** Names of entries *)

Lemma contains_byte (c : ascii) s : c ∉ s -> contains s [c] = false.
Proof.
  induction s as [|x s IH]; [done|]. intros [Hx Hs]%not_elem_of_cons. cbn [contains has_prefix]. rewrite bool_decide_eq_false_2 by congruence.
  by apply IH.
Qed.

Lemma lower_hex_free c s : lower_hex c = false -> forallb lower_hex s = true -> c ∉ s.
Proof. intros Hc Hs He. rewrite forallb_forall in Hs. rewrite list_elem_of_In in He. apply Hs in He. congruence. Qed.

Lemma forallb_take_drop {A} (f : A -> bool) n l : forallb f l = true -> forallb f (take n l) = true /\ forallb f (drop n l) = true.
Proof. intros Hf. rewrite <- (take_drop n l), forallb_app in Hf. by apply andb_true_iff. Qed.

(** The components of a canonical path. *)
Definition parts_of (digest : bytes) : list bytes := [take 2 digest; take 2 (drop 2 digest); digest].

Lemma parts_of_spec digest : canonical_digest digest -> forall x, x ∈ parts_of digest -> x <> [] /\ forallb lower_hex x = true.
Proof.
  intros [Hl Hx] x Hin. destruct (forallb_take_drop lower_hex 2 digest Hx) as [H1 H2]. destruct (forallb_take_drop lower_hex 2 _ H2) as [H3 _].
  do 64 (destruct digest as [|? digest]; [done|]). unfold parts_of in Hin. rewrite !elem_of_cons, elem_of_nil in Hin. by destruct Hin as [->|[->|[->|[]]]].
Qed.

Lemma slash_parts digest :
  to_slash [digest; take 2 (drop 2 digest); take 2 digest] = take 2 digest ++ "/"%char :: take 2 (drop 2 digest) ++ "/"%char :: digest.
Proof. reflexivity. Qed.

Lemma split_parts digest : canonical_digest digest ->
  split_at "/"%char (to_slash [digest; take 2 (drop 2 digest); take 2 digest]) = parts_of digest.
Proof.
  intros Hd. pose proof (parts_of_spec digest Hd) as Hp. rewrite slash_parts.
  assert (forall x, x ∈ parts_of digest -> "/"%char ∉ x) as Hfree by (intros x [_ ?]%Hp; by apply lower_hex_free).
  rewrite split_at_cons by (apply Hfree; unfold parts_of; rewrite !elem_of_cons; tauto). rewrite split_at_cons by (apply Hfree; unfold parts_of; rewrite !elem_of_cons; tauto).
  by rewrite split_at_last by (apply Hfree; unfold parts_of; rewrite !elem_of_cons; tauto).
Qed.

Lemma clean_hex rooted l kept : (forall x, x ∈ l -> x <> [] /\ forallb lower_hex x = true) -> clean_parts rooted l kept = reverse kept ++ l.
Proof.
  revert kept. induction l as [|x l IH]; intros kept Hl; cbn [clean_parts]; [by rewrite app_nil_r|].
  destruct (Hl x ltac:(by left)) as [Hne Hx]. rewrite !bool_decide_eq_false_2 by (intros ->; by vm_compute in Hx || done). cbn [orb].
  rewrite IH by (intros y Hy; apply Hl; by right). by rewrite reverse_cons, <- app_assoc.
Qed.

(** Names that are written are accepted, and no others. *)
Lemma entry_reference_name digest : canonical_digest digest ->
  archiveEntryReference (archiveObjectPrefix ++ to_slash [digest; take 2 (drop 2 digest); take 2 digest]) =
    Ok (sha256_prefix ++ digest, [digest; take 2 (drop 2 digest); take 2 digest]).
Proof.
  intros Hd. pose proof (parts_of_spec digest Hd) as Hp. pose proof (split_parts digest Hd) as Hsp.
  assert (forall c, lower_hex c = false -> c <> "/"%char -> c ∉ to_slash [digest; take 2 (drop 2 digest); take 2 digest]) as Hfree.
  { intros c Hc Hs. rewrite slash_parts, elem_of_app, elem_of_cons, elem_of_app, elem_of_cons.
    intros [He|[He|[He|[He|He]]]]; try done; revert He; apply lower_hex_free; (done || apply Hp; unfold parts_of; rewrite !elem_of_cons; tauto). }
  unfold archiveEntryReference. change (str "\") with ["\"%char]. rewrite contains_byte, has_prefix_app, trim_prefix_app.
  2:{ intros [He|He]%elem_of_app; [by apply (bool_decide_unpack ("\"%char ∉ archiveObjectPrefix)) in He; [|vm_compute]|]. by apply Hfree in He. }
  change (has_prefix (archiveObjectPrefix ++ ?s) (str "/")) with false. cbn [orb negb].
  assert (Clean (to_slash [digest; take 2 (drop 2 digest); take 2 digest]) = to_slash [digest; take 2 (drop 2 digest); take 2 digest]) as Hclean.
  { unfold Clean. rewrite Hsp, clean_hex by done. cbn [reverse rev_append app].
    destruct (Hp (take 2 digest)) as [Hne Hx]; [unfold parts_of; rewrite !elem_of_cons; tauto|].
    assert (has_prefix (to_slash [digest; take 2 (drop 2 digest); take 2 digest]) (str "/") = false) as ->.
    { rewrite slash_parts. destruct (take 2 digest) as [|c l]; [done|]. cbn [app has_prefix str]. apply andb_false_iff. left. apply bool_decide_eq_false_2. intros ->.
      by vm_compute in Hx. }
    change (join_slash (parts_of digest)) with (to_slash [digest; take 2 (drop 2 digest); take 2 digest]).
    rewrite bool_decide_eq_false_2; [done|]. rewrite slash_parts. by destruct (take 2 digest). }
  rewrite Hclean, bool_decide_eq_true_2 by done. cbn [negb orb].
  assert (has_prefix (to_slash [digest; take 2 (drop 2 digest); take 2 digest]) (str "../") = false /\
    to_slash [digest; take 2 (drop 2 digest); take 2 digest] <> str ".") as [-> Hdot].
  { destruct (Hp (take 2 digest)) as [Hne Hx]; [unfold parts_of; rewrite !elem_of_cons; tauto|]. rewrite slash_parts.
    destruct (take 2 digest) as [|c l]; [done|]. split.
    - cbn [app has_prefix str]. apply andb_false_iff. left. apply bool_decide_eq_false_2. intros ->. by vm_compute in Hx.
    - intros [= -> _]. by vm_compute in Hx. }
  rewrite bool_decide_eq_false_2 by done. cbn [orb]. rewrite Hsp. unfold parts_of. rewrite relativePathForKey_canonical by done.
  by rewrite bool_decide_eq_true_2.
Qed.

Lemma entry_reference_inv name key relative :
  archiveEntryReference name = Ok (key, relative) ->
  relativePathForKey key = Ok relative /\ name = archiveObjectPrefix ++ to_slash relative.
Proof.
  unfold archiveEntryReference. cbv zeta. intros E. if_in E E1; [done|]. if_in E E2; [done|]. clear E2. revert E.
  destruct (split_at _ _) as [|x1 [|x2 [|digest [|x4 l]]]]; try done. destruct (relativePathForKey (sha256_prefix ++ digest)) as [rel|] eqn:Er; [|done].
  destruct (bool_decide _) eqn:Eb; cbn [negb]; [|done]. intros [= <- <-]. apply bool_decide_eq_true in Eb. split; [done|].
  rewrite !orb_false_iff in E1. destruct E1 as [[_ Hpre] _]. apply negb_false_iff in Hpre. rewrite Eb. by apply has_prefix_split.
Qed.

(** ** What stays out of reach *)

(** Whatever is below [r] is in a directory. *)
Definition closed (r : path) (t : gmap path node) : Prop := forall p, inside r p -> is_Some (t !! p) -> t !! dir p = Some NDir.

(** Only names at or below [r], and inodes from [n] on, may change. *)
Record within (r : path) (n : nat) (d d' : disk) : Prop := {
  wi_tree : forall p, ~ r `suffix_of` p -> d_tree d' !! p = d_tree d !! p;
  wi_durable : forall p, ~ r `suffix_of` p -> d_durable d' !! p = d_durable d !! p;
  wi_inodes : forall i, (i < n)%nat -> d_inodes d' !! i = d_inodes d !! i;
  wi_next : (d_next d <= d_next d')%nat;
  wi_closed : closed r (d_tree d) -> closed r (d_tree d')
}.

#[global] Instance within_preorder r n : PreOrder (within r n).
Proof.
  split; [intros d; by split|]. intros d1 d2 d3 [T1 D1 I1 N1 C1] [T2 D2 I2 N2 C2]. split; [..|lia|by auto].
  - intros p Hp. by rewrite T2, T1.
  - intros p Hp. by rewrite D2, D1.
  - intros i Hi. by rewrite I2, I1.
Qed.

Definition confines {A} (r : path) (n : nat) (m : IO A) : Prop := forall d d' x, (n <= d_next d)%nat -> m d = (d', x) -> within r n d d'.

Create HintDb confined.

Section Confined.
Context (r : path) (n : nat).

Lemma confines_ret {A} (a : A) : confines r n (ret a).
Proof. by intros d d' x _ [= <- <-]. Qed.

Lemma confines_throw {A} e : confines (A := A) r n (throw e).
Proof. by intros d d' x _ [= <- <-]. Qed.

Lemma confines_bind {A B} (m : IO A) (k : A -> IO B) : confines r n m -> (forall a, confines r n (k a)) -> confines r n (bind m k).
Proof.
  intros Hm Hk d d' x Hn. unfold bind. destruct (m d) as [d1 [a|e]] eqn:E; [|intros [= <- <-]; by eapply Hm].
  apply Hm in E as H1; [|done]. intros H2%Hk; [by etrans|]. destruct H1. lia.
Qed.

Lemma confines_wrap {A} f (m : IO A) : confines r n m -> confines r n (wrap f m).
Proof. intros Hm d d' x Hn. unfold wrap. destruct (m d) as [d1 [a|e]] eqn:E; intros [= <- <-]; by eapply Hm. Qed.

Lemma confines_if {A} (b : bool) (m1 m2 : IO A) : confines r n m1 -> confines r n m2 -> confines r n (if b then m1 else m2).
Proof. by destruct b. Qed.

Lemma confines_writes {A} i (m : IO A) : (n <= i)%nat -> (forall d d' x, m d = (d', x) -> writes i d d') -> confines r n m.
Proof. intros Hi Hm d d' x _ [T D N O _]%Hm. split; rewrite ?T, ?D, ?N; try done. intros j Hj. apply O. lia. Qed.

Lemma confines_attempt : confines r n FileSystem.attempt.
Proof. apply (confines_writes n); [done|]. intros d d' x Hx. by eapply quiet_writes_attempt. Qed.

Lemma confines_look {A} (f : disk -> res A) : confines r n (FileSystem.attempt ;;; λ d, (d, f d)).
Proof. apply confines_bind; [apply confines_attempt|]. by intros _ d d' x _ [= <- <-]. Qed.

Lemma confines_stat p : confines r n (stat p).
Proof. apply confines_bind; [apply confines_attempt|]. intros _ d d' x _. by destruct (d_tree d !! p); intros [= <- <-]. Qed.

Lemma confines_read_dir p : confines r n (read_dir p).
Proof. apply confines_bind; [apply confines_attempt|]. intros _ d d' x _. by destruct (is_dir d p); intros [= <- <-]. Qed.

(** A change of the names only, at or below [r]. *)
Lemma within_tree (d : disk) (t : gmap path node) :
  (forall p, ~ r `suffix_of` p -> t !! p = d_tree d !! p) -> (closed r (d_tree d) -> closed r t) -> within r n d (set_tree d t).
Proof. intros Ht Hc. by split. Qed.

(** A name that was free is used in a directory. *)
Lemma closed_insert (t : gmap path node) p x : t !! p = None -> t !! dir p = Some NDir -> closed r t -> closed r (<[p := x]> t).
Proof.
  intros Hn Hd Hc q Hq. destruct (decide (p = q)) as [<-|Hne].
  - intros _. rewrite lookup_insert_ne; [done|]. intros E. congruence.
  - rewrite lookup_insert_ne by done. intros Hs%Hc; [|done]. rewrite lookup_insert_ne; [done|]. intros E. congruence.
Qed.

Lemma confines_sync_dir p : r `suffix_of` p -> confines r n (sync_dir p).
Proof.
  intros Hp. apply confines_bind; [apply confines_attempt|]. intros _ d d' x _. destruct (is_dir d p); intros [= <- <-]; [|done].
  split; try done. intros q Hq. cbn. rewrite sync_entries_lookup. rewrite decide_False; [done|]. intros [Hne Hd]. apply Hq.
  destruct q as [|y q]; [done|]. cbn in Hd. subst q. by apply suffix_cons_r.
Qed.
End Confined.

#[export] Hint Resolve confines_ret confines_throw confines_attempt confines_stat confines_read_dir confines_sync_dir : confined.

Ltac confine := repeat first
  [ solve [eauto with confined] | apply confines_bind; [|intros ?] | apply confines_wrap | apply confines_if ].

Lemma confines_ctx_err r n : confines r n ctx_err.
Proof. unfold ctx_err. confine. Qed.
Lemma confines_close r n : confines r n close_file.
Proof. apply confines_attempt. Qed.
#[export] Hint Resolve confines_ctx_err confines_close : confined.

Lemma confines_secure r n p : confines r n (secureDirectory p).
Proof. unfold secureDirectory. apply confines_bind; [confine|intros _]. apply confines_bind; [confine|]. intros [?|]; confine. Qed.
#[export] Hint Resolve confines_secure : confined.

Lemma confines_syncDirectory r n p : r `suffix_of` p -> confines r n (syncDirectory p).
Proof. intros Hp. unfold syncDirectory. confine. Qed.
#[export] Hint Resolve confines_syncDirectory : confined.

Lemma confines_syncTree r n p : r `suffix_of` p -> confines r n (syncDirectoryTree r p).
Proof.
  induction p as [|x p IH]; intros Hp; cbn [syncDirectoryTree]; (apply confines_bind; [confine|intros _]); (apply confines_bind; [confine|intros _]).
  { confine. }
  destruct (bool_decide (x :: p = r)) eqn:E; [confine|]. apply bool_decide_eq_false in E. apply confines_if; [confine|]. apply IH.
  by apply suffix_cons_cases in Hp as [->|?].
Qed.
#[export] Hint Resolve confines_syncTree : confined.

(** ** The calls of a restore *)

Lemma mkdir_below_spec r k t t' :
  mkdir_below r k t = Some t' ->
  (forall q n, t !! q = Some n -> t' !! q = Some n) /\
  (forall q i, t' !! q = Some (NFile i) -> t !! q = Some (NFile i)) /\
  (forall q, q `suffix_of` k ++ r -> r `suffix_of` q -> t' !! q = Some NDir) /\
  (forall q, ~ r `suffix_of` q -> t' !! q = t !! q).
Proof.
  revert t'. induction k as [|x k IH]; intros t'; cbn [mkdir_below].
  - destruct (bool_decide _) eqn:E; [|done]. intros [= <-]. apply bool_decide_eq_true in E. split_and!; try done.
    intros q Hq1 Hq2. by rewrite (anti_symm suffix q r Hq1 Hq2).
  - destruct (mkdir_below r k t) as [t1|]; [|done]. destruct (IH t1 eq_refl) as (H1 & H2 & H3 & H4).
    intros (K1 & K2 & K3 & K4)%mkdir_level. split_and!; [auto|auto|..].
    + intros q [->|Hq]%suffix_cons_cases Hr; [done|]. auto.
    + intros q Hq. rewrite K4; [auto|]. intros ->. apply Hq. by exists (x :: k).
Qed.

Lemma mkdir_below_closed r k t t' : mkdir_below r k t = Some t' -> closed r t -> closed r t'.
Proof.
  revert t'. induction k as [|x k IH]; intros t'; cbn [mkdir_below]; [by destruct (bool_decide _); [intros [= <-]|]|].
  destruct (mkdir_below r k t) as [t1|] eqn:E1; [|done]. specialize (IH t1 eq_refl). apply mkdir_below_spec in E1 as (_ & _ & H3 & _).
  destruct (t1 !! _) as [[i|]|] eqn:E2; [done|..]; intros [= <-]; [done|]. intros Hc%IH. apply closed_insert; [done| |done]. apply H3; [done|by exists k].
Qed.

Lemma root_mkdir_ok r k d d' u :
  root_mkdir_all r k d = (d', Ok u) ->
  d_durable d' = d_durable d /\ d_inodes d' = d_inodes d /\ d_next d' = d_next d /\ mkdir_below r k (d_tree d) = Some (d_tree d').
Proof.
  intros (d1 & ? & Ea & H)%bind_ok. destruct (quiet_writes_attempt _ _ _ 0 Ea) as [[T D N _ _] I].
  rewrite T in H. destruct (mkdir_below _ _ _) as [t|]; [|done]. by injection H as <- <-.
Qed.

Lemma confines_root_mkdir r n k : confines r n (root_mkdir_all r k).
Proof.
  apply confines_bind; [confine|]. intros _ d d' x _. destruct (mkdir_below _ _ _) as [t|] eqn:E; intros [= <- <-]; [|done].
  pose proof (mkdir_below_closed r k _ _ E). apply mkdir_below_spec in E as (_ & _ & _ & E). by apply within_tree.
Qed.
#[export] Hint Resolve confines_root_mkdir : confined.

Lemma create_file_ok p d d' i :
  create_file p d = (d', Ok i) ->
  d_tree d !! p = None /\ d_tree d !! dir p = Some NDir /\ i = d_next d /\ d_tree d' = <[p := NFile i]> (d_tree d) /\
  d_durable d' = d_durable d /\ d_next d' = S (d_next d) /\ exists f, d_inodes d' = <[i := f]> (d_inodes d) /\ f_data f = [].
Proof.
  intros (d1 & ? & Ea & H)%bind_ok. destruct (quiet_writes_attempt _ _ _ 0 Ea) as [[T D N _ _] I].
  unfold is_dir in H. rewrite T in H. destruct (bool_decide _) eqn:E; [|done]. cbn [negb] in H. apply bool_decide_eq_true in E.
  destruct (d_tree d !! p); [done|]. injection H as <- <-. cbn. rewrite D, N, I. split_and!; try done. by eexists.
Qed.

Lemma confines_create_file r n p : r `suffix_of` p -> confines r n (create_file p).
Proof.
  intros Hp. apply confines_bind; [confine|]. intros _ d d' x Hn. unfold is_dir. destruct (bool_decide _) eqn:Ed; cbn [negb]; [|by intros [= <- <-]].
  apply bool_decide_eq_true in Ed. destruct (d_tree d !! p) eqn:Ep; intros [= <- <-]; [done|]. split; cbn; [..|lia|by apply closed_insert].
  - intros q Hq. rewrite lookup_insert_ne; [done|]. by intros <-.
  - done.
  - intros j Hj. rewrite lookup_insert_ne by lia. done.
Qed.
#[export] Hint Resolve confines_create_file : confined.

Lemma restore_copy_spec fuel i rest ends hashed d d' x :
  restore_copy fuel i rest ends hashed d = (d', x) ->
  writes i d d' /\ (is_Some (d_inodes d !! i) -> forall data, x = Ok data -> data = hashed ++ rest /\ ends = None /\ data_of d' i = data_of d i ++ rest).
Proof.
  revert rest hashed d. induction fuel as [|fuel IH]; intros rest hashed d; cbn [restore_copy].
  { intros [= <- <-]. by split. }
  unfold bind at 1. destruct (ctx_err d) as [d1 [[]|e]] eqn:E1; apply (writes_ctx_err _ _ _ i) in E1 as [W1 I1]; [|by intros [= <- <-]].
  unfold bind at 1. destruct (FileSystem.attempt d1) as [d2 [[]|e]] eqn:E2; apply (quiet_writes_attempt _ _ _ i) in E2 as [W2 I2];
    [|intros [= <- <-]; split; [by etrans|done]].
  assert (writes i d d2) as W12 by by etrans. assert (data_of d2 i = data_of d i) as D2 by (unfold data_of, file_of; by rewrite I2, I1).
  destruct rest as [|y rest].
  { destruct ends as [e|]; intros [= <- <-]; (split; [done|]); [done|]. intros _ data [= <-]. by rewrite !app_nil_r. }
  unfold bind. destruct (write_file i _ d2) as [d3 [[]|e]] eqn:E3; apply write_file_spec in E3 as [W3 H3]; [|intros [= <- <-]; split; [by etrans|done]].
  intros [W4 H4]%IH. split; [etrans; [done|by etrans]|]. intros Hi data Hx. destruct (H4 (proj2 (wr_inode _ _ _ W3) (proj2 (wr_inode _ _ _ W12) Hi)) data Hx) as (-> & -> & Hd).
  rewrite <- app_assoc, take_drop. split_and!; [done|done|]. rewrite Hd, (H3 (proj2 (wr_inode _ _ _ W12) Hi) eq_refl), D2. by rewrite <- app_assoc, take_drop.
Qed.

(** A new file with the given bytes, on the medium but for its name. *)
Record new_file (p : path) (data : bytes) (d d' : disk) : Prop := {
  nf_absent : d_tree d !! p = None;
  nf_dir : d_tree d !! dir p = Some NDir;
  nf_tree : d_tree d' = <[p := NFile (d_next d)]> (d_tree d);
  nf_durable : d_durable d' = d_durable d;
  nf_next : d_next d' = S (d_next d);
  nf_other : forall j, j <> d_next d -> d_inodes d' !! j = d_inodes d !! j;
  nf_staged : staged d' (d_next d) data
}.

Lemma restore_file_ok p data ends d d' x : restore_file p data ends d = (d', Ok x) -> x = data /\ ends = None /\ new_file p data d d'.
Proof.
  intros (d1 & i & (Hn & Hd & -> & T1 & D1 & N1 & f & I1 & F1)%wrap_ok%create_file_ok & H)%bind_ok.
  destruct (restore_copy _ _ _ _ _ d1) as [d2 copied] eqn:E2. apply restore_copy_spec in E2 as [W2 H2].
  destruct (sync_file _ d2) as [d3 synced] eqn:E3. apply sync_file_spec in E3 as [W3 H3].
  destruct (close_file d3) as [d4 closed] eqn:E4. apply (close_file_writes _ _ _ (d_next d)) in E4 as [W4 I4].
  destruct copied as [y|e], synced as [[]|e'], closed as [[]|e'']; try done. injection H as <- <-.
  assert (is_Some (d_inodes d1 !! d_next d)) as Hs1 by (rewrite I1, lookup_insert_eq; by eexists).
  destruct (H2 Hs1 y eq_refl) as (-> & -> & Hdata). destruct (H3 (proj2 (wr_inode _ _ _ W2) Hs1) eq_refl) as (g & Hg & Gd & Gs).
  assert (writes (d_next d) d1 d4) as [T D N O _] by (etrans; [done|by etrans]). split_and!; [done|done|]. split; [done|done|congruence..| |].
  - intros j Hj. rewrite O, I1 by done. by rewrite lookup_insert_ne.
  - exists g. rewrite I4. split_and!; [done| |done]. rewrite Gd, Hdata. unfold data_of, file_of. rewrite I1, lookup_insert_eq. cbn. by rewrite F1.
Qed.

Lemma confines_restore_file r n p data ends : r `suffix_of` p -> confines r n (restore_file p data ends).
Proof.
  intros Hp d d' x Hn. unfold restore_file, bind. destruct (wrap _ (create_file p) d) as [d1 [i|e]] eqn:E1.
  all: pose proof (confines_wrap r n _ _ (confines_create_file r n p Hp) _ _ _ Hn E1) as H1.
  2:{ by intros [= <- <-]. }
  apply wrap_ok, create_file_ok in E1 as (_ & _ & -> & _).
  destruct (restore_copy _ _ _ _ _ d1) as [d2 copied] eqn:E2. apply restore_copy_spec in E2 as [W2 _].
  destruct (sync_file _ d2) as [d3 synced] eqn:E3. apply sync_file_spec in E3 as [W3 _].
  destruct (close_file d3) as [d4 closed] eqn:E4. apply (close_file_writes _ _ _ (d_next d)) in E4 as [W4 I4].
  assert (writes (d_next d) d1 d4) as [T D N O _] by (etrans; [done|by etrans]). assert (within r n d1 d4) as H4.
  { split; rewrite ?T, ?D, ?N; try done. intros j Hj. apply O. lia. }
  intros Hx. assert (d' = d4) as -> by (by destruct (join _ _); injection Hx). by etrans.
Qed.
#[export] Hint Resolve confines_restore_file : confined.

(** ** What a restore installs *)

(** The objects with their keys, and the counts of the manifest. *)
Definition total_bytes (l : list (bytes * bytes)) : Z := foldr (λ kv n, zlen kv.2 + n) 0 l.
Definition stats_of (l : list (bytes * bytes)) : ArchiveStats := MkStats (zlen l) (total_bytes l).

Lemma total_bytes_perm l k : l ≡ₚ k -> total_bytes l = total_bytes k.
Proof. induction 1; cbn [total_bytes foldr] in *; unfold total_bytes in *; cbn [foldr] in *; lia. Qed.

Lemma stats_of_perm l k : l ≡ₚ k -> stats_of l = stats_of k.
Proof. intros Hp. unfold stats_of, zlen. by rewrite (Permutation_length Hp), (total_bytes_perm l k Hp). Qed.

(** Every object is named by its digest and durable down from the root, and
    there is no other file. *)
Record installed (c : config) (d : disk) (l : list (bytes * bytes)) : Prop := {
  is_keys : NoDup l.*1;
  is_object : forall key data, (key, data) ∈ l -> key = Key (ref_of data) /\
    exists p i, pathForKey c key = Ok p /\ stable d p (NFile i) /\ staged d i data /\
      forall q, q `suffix_of` dir p -> inside (root c) q -> stable d q NDir;
  is_only : forall p i, root c `suffix_of` p -> d_tree d !! p = Some (NFile i) -> exists key data, (key, data) ∈ l /\ pathForKey c key = Ok p;
  is_next : forall i, is_Some (d_inodes d !! i) -> (i < d_next d)%nat
}.

(** What is durable stays, and files of old inodes too. *)
Lemma installed_kept c d d' l :
  installed c d l -> d_tree d' = d_tree d -> (forall q, d_durable d !! q = d_tree d !! q -> d_durable d' !! q = d_tree d !! q) ->
  d_inodes d' = d_inodes d -> d_next d' = d_next d -> installed c d' l.
Proof.
  intros [Hk Ho Hu Hn] T D I N. assert (forall q n, stable d q n -> stable d' q n) as Hs.
  { intros q n [H1 H2]. split; rewrite ?T; [done|]. rewrite D; congruence. }
  split; rewrite ?T, ?I, ?N; try done. intros key data Hin. destruct (Ho key data Hin) as (Hkey & p & i & Hp & Hst & Hsg & Hd).
  split; [done|]. exists p, i. split_and!; [done|by apply Hs|by unfold staged in *; rewrite I|]. intros q Hq1 Hq2. by apply Hs, Hd.
Qed.

Lemma sync_tree_inodes r p d d' x : syncDirectoryTree r p d = (d', x) -> d_inodes d' = d_inodes d /\ d_next d' = d_next d.
Proof. intros (H1 & H2 & _)%quietly_syncDirectoryTree. done. Qed.

Section Installing.
Context `{!TarLib} (c : config) (expected : ArchiveStats).

Lemma object_below key p : pathForKey c key = Ok p -> inside (root c) p /\ inside (root c) (dir p).
Proof.
  intros (g & _ & _ & ->)%pathForKey_inv. unfold objectsRoot. split.
  - split; [by exists [g; take 2 (drop 2 g); take 2 g; str "sha256"; str "objects"]|]. intros E%(f_equal length). cbn in E. lia.
  - cbn [dir tail app]. split; [by exists [take 2 (drop 2 g); take 2 g; str "sha256"; str "objects"]|]. intros E%(f_equal length). cbn in E. lia.
Qed.

(** One more object, from the directories made for it to their durability. *)
Lemma installed_add d d1 d2 d3 key data p l :
  installed c d l -> pathForKey c key = Ok p -> key = Key (ref_of data) ->
  (forall q n, d_tree d !! q = Some n -> d_tree d1 !! q = Some n) -> (forall q i, d_tree d1 !! q = Some (NFile i) -> d_tree d !! q = Some (NFile i)) ->
  (forall q, q `suffix_of` dir p -> root c `suffix_of` q -> d_tree d1 !! q = Some NDir) ->
  d_durable d1 = d_durable d -> d_inodes d1 = d_inodes d -> d_next d1 = d_next d ->
  new_file p data d1 d2 ->
  d_tree d3 = d_tree d2 -> d_inodes d3 = d_inodes d2 -> d_next d3 = d_next d2 ->
  (forall q, q <> [] -> dir q `suffix_of` dir p -> root c `suffix_of` dir q -> d_durable d3 !! q = d_tree d2 !! q /\ d_tree d2 !! dir q = Some NDir) ->
  (forall q, d_durable d2 !! q = d_tree d2 !! q -> d_durable d3 !! q = d_tree d2 !! q) ->
  installed c d3 ((key, data) :: l).
Proof.
  intros [Hk Ho Hu Hn] Hp Hkey M1 M2 M3 D1 I1 N1 [F1 F2 F3 F4 F5 F6 F7] T3 I3 N3 S3 K3.
  destruct (object_below _ _ Hp) as [[Hr1 Hr2] [Hr3 Hr4]].
  assert (forall q n, stable d q n -> stable d3 q n) as Hs.
  { intros q n [H1 H2]. assert (d_tree d2 !! q = Some n) as Hq.
    { rewrite F3, lookup_insert_ne; [by apply M1|]. intros <-. apply M1 in H1. congruence. }
    split; rewrite ?T3; [done|]. rewrite K3; [done|]. congruence. }
  assert (forall i data, staged d i data -> staged d3 i data) as Hg.
  { intros i x (f & Hi & Hf). exists f. rewrite I3, F6, I1; [done|]. intros ->. rewrite N1 in Hi. assert (d_next d < d_next d)%nat; [|lia]. apply Hn. by eexists. }
  split.
  - cbn. constructor; [|done]. intros ([k x] & Hk' & Hin)%list_elem_of_fmap. cbn in Hk'. subst k. destruct (Ho _ _ Hin) as (_ & p' & i & Hp' & [Ht _] & _).
    assert (p' = p) as -> by congruence. apply M1 in Ht. congruence.
  - intros k x [[= -> ->]|Hin]%elem_of_cons.
    + split; [done|]. exists p, (d_next d1). assert (p <> []) as Hne by (intros ->; apply suffix_nil_inv in Hr1; congruence).
      split_and!; [done|split|unfold staged; by rewrite I3|].
      * by rewrite T3, F3, lookup_insert_eq.
      * rewrite (proj1 (S3 p Hne ltac:(done) Hr3)). by rewrite F3, lookup_insert_eq.
      * intros q Hq [Hq1 Hq2]. assert (d_tree d2 !! q = Some NDir) as Ht.
        { rewrite F3, lookup_insert_ne; [by apply M3|]. intros <-. rewrite (M3 p Hq Hr1) in F1. done. }
        split; [by rewrite T3|]. assert (q <> []) as Hqne by (intros ->; apply suffix_nil_inv in Hq1; congruence).
        rewrite (proj1 (S3 q Hqne ltac:(destruct q; [done|]; by eapply suffix_cons_l) ltac:(destruct q; [done|]; by apply suffix_cons_cases in Hq1 as [?|?]))). done.
    + destruct (Ho k x Hin) as (Hkx & p' & i & Hp' & Hst & Hsg & Hd). split; [done|]. exists p', i. split_and!; [done|by apply Hs|by apply Hg|].
      intros q Hq1 Hq2. by apply Hs, Hd.
  - intros q i Hq. rewrite T3, F3. destruct (decide (p = q)) as [<-|Hne].
    + intros _. exists key, data. split; [by left|done].
    + rewrite lookup_insert_ne by done. intros Ht%M2. destruct (Hu q i Hq Ht) as (k & x & Hin & Hx). exists k, x. split; [by right|done].
  - intros i. rewrite I3, N3, F5. destruct (decide (i = d_next d1)) as [->|Hi]; [lia|]. rewrite F6, I1 by done. intros Hx%Hn. lia.
Qed.

Lemma restore_entry_ok name regular size rest stats d d' stats' l :
  installed c d l -> restore_entry (root c) expected name regular size rest stats d = (d', Ok stats') ->
  exists key relative, regular = true /\ archiveEntryReference name = Ok (key, relative) /\ 0 <= size <= zlen rest /\
    stats' = MkStats (ar_Objects stats + 1) (ar_Bytes stats + size) /\ installed c d' ((key, take (Z.to_nat size) rest) :: l).
Proof.
  intros Hins E. unfold restore_entry in E. destruct regular; [|done]. cbn [negb orb] in E. destruct (size <? 0) eqn:Es; [done|]. apply Z.ltb_ge in Es.
  destruct (archiveEntryReference name) as [[key relative]|] eqn:Er; [|done]. cbv zeta in E. if_in E Eb; [done|]. clear Eb.
  destruct (entry_reference_inv _ _ _ Er) as [Hrel _]. assert (pathForKey c key = Ok (relative ++ objectsRoot c)) as Hpath by (unfold pathForKey; by rewrite Hrel).
  exists key, relative. apply bind_ok in E as (d1 & u & Hmk & E). apply wrap_ok, root_mkdir_ok in Hmk as (D1 & I1 & N1 & (M1 & M2 & M3 & M4)%mkdir_below_spec).
  apply bind_ok in E as (d2 & written & Hf & E).
  replace ((relative ++ [str "sha256"; str "objects"]) ++ root c) with (relative ++ objectsRoot c) in Hf by (unfold objectsRoot; by rewrite <- app_assoc).
  apply restore_file_ok in Hf as (-> & Hends & [F1 F2 F3 F4 F5 F6 F7]).
  destruct (_ =? size) eqn:Ez in E; [|done]. apply Z.eqb_eq in Ez. cbn [negb] in E. destruct (bool_decide _) eqn:Ek in E; [|done]. apply bool_decide_eq_true in Ek. cbn [negb] in E.
  apply bind_ok in E as (d3 & u' & Hsy & E). apply wrap_ok in Hsy. pose proof (sync_tree_inodes _ _ _ _ _ Hsy) as [I3 N3].
  apply syncDirectoryTree_ok in Hsy as (T3 & S3 & K3). injection E as <- <-.
  assert (size <= zlen rest) as Hrest by (unfold zlen in *; rewrite length_take in Ez; lia). rewrite Ez. split_and!; try done.
  destruct (pathForKey_inv _ _ _ Hpath) as (g & _ & _ & Hg). apply app_inv_tail in Hg. subst relative.
  eapply (installed_add d d1 d2 d3 _ _ ([g; take 2 (drop 2 g); take 2 g] ++ objectsRoot c)); by eauto.
Qed.

Lemma confines_entry n name regular size rest stats : confines (root c) n (restore_entry (root c) expected name regular size rest stats).
Proof.
  unfold restore_entry. apply confines_if; [confine|]. destruct (archiveEntryReference name) as [[key relative]|] eqn:Er; [|confine]. cbv zeta.
  destruct (entry_reference_inv _ _ _ Er) as [(g & _ & _ & ->)%relativePathForKey_inv _].
  assert (forall l : list bytes, root c `suffix_of` l ++ root c) as Hsuf by (intros l; by exists l).
  apply confines_if; [confine|]. confine.
Qed.

(** The entries that a reader of the archive finds, and how the archive ends. *)
Inductive reads (e : option goerr) : bytes -> tar_step -> list (bytes * bytes) -> Prop :=
| reads_last s step : tar_next s e = step -> (exists rest, step = TarEnd rest) \/ step = TarExhausted -> reads e s step []
| reads_entry s name size rest key relative step l :
    tar_next s e = TarEntry name true size rest -> archiveEntryReference name = Ok (key, relative) -> 0 <= size <= zlen rest ->
    reads e (drop (Z.to_nat size + blockPadding size) rest) step l -> reads e s step ((key, take (Z.to_nat size) rest) :: l).

Lemma confines_loop n fuel z s stats : confines (root c) n (restore_loop (root c) expected fuel z s stats).
Proof.
  revert s stats. induction fuel as [|fuel IH]; intros s stats; cbn [restore_loop]; [confine|].
  apply confines_bind; [confine|intros _]. apply confines_bind; [confine|intros _].
  destruct (tar_next _ _) as [name regular size rest|rest| |e]; [|confine..]. apply confines_bind; [apply confines_entry|intros stats'; apply IH].
Qed.

Lemma stats_cons key data l : MkStats (ar_Objects (stats_of l) + 1) (ar_Bytes (stats_of l) + zlen data) = stats_of ((key, data) :: l).
Proof. unfold stats_of. cbn [ar_Objects ar_Bytes total_bytes foldr snd]. rewrite zlen_cons. f_equal; unfold total_bytes; lia. Qed.

Lemma restore_loop_ok fuel z s d d' stats step l :
  installed c d l -> restore_loop (root c) expected fuel z s (stats_of l) d = (d', Ok (step, stats)) ->
  exists k, reads (stream_end z) s step k /\ installed c d' (reverse k ++ l) /\ stats = stats_of (reverse k ++ l).
Proof.
  revert s l d. induction fuel as [|fuel IH]; intros s l d Hins; cbn [restore_loop]; [done|].
  intros (d1 & ? & E1 & (d2 & ? & E2 & E)%bind_ok)%bind_ok. apply wrap_ok in E2.
  assert (installed c d2 l) as Hins2.
  { destruct (writes_ctx_err _ _ _ 0 E1) as [[T1 D1 N1 _ _] I1]. destruct (quiet_writes_attempt _ _ _ 0 E2) as [[T2 D2 N2 _ _] I2].
    eapply installed_kept; [done|..]; [congruence| |congruence..]. intros q Hq. congruence. }
  destruct (tar_next s (stream_end z)) as [name regular size rest|rest| |e] eqn:Et; [|..|done].
  - apply bind_ok in E as (d3 & stats1 & E3 & E). destruct (restore_entry_ok _ _ _ _ _ _ _ _ _ Hins2 E3) as (key & rel & -> & Hr & Hs & -> & Hins3).
    assert (zlen (take (Z.to_nat size) rest) = size) as Hz by (unfold zlen in *; rewrite length_take; lia).
    replace (ar_Bytes (stats_of l) + size) with (ar_Bytes (stats_of l) + zlen (take (Z.to_nat size) rest)) in E by lia. rewrite (stats_cons key) in E.
    destruct (IH _ _ _ Hins3 E) as (k & Hk & Hi & Hst). exists ((key, take (Z.to_nat size) rest) :: k). rewrite reverse_cons, <- app_assoc.
    split_and!; [|done|done]. by econstructor.
  - injection E as <- <- <-. exists []. split_and!; [|done|done]. apply reads_last; eauto.
  - injection E as <- <- <-. exists []. split_and!; [|done|done]. apply reads_last; eauto.
Qed.

(** An entry is shorter than the stream, so the fuel of a restore is enough. *)
Lemma restore_loop_fuel `{!TarSpec _} fuel fuel' z s stats d :
  (length s < fuel)%nat -> (length s < fuel')%nat ->
  restore_loop (root c) expected fuel z s stats d = restore_loop (root c) expected fuel' z s stats d.
Proof.
  revert fuel' s stats d. induction fuel as [|fuel IH]; intros [|fuel'] s stats d H1 H2; [lia..|]. cbn [restore_loop]. unfold bind.
  destruct (ctx_err d) as [d1 [?|?]]; [|done]. destruct (wrap _ _ d1) as [d2 [?|?]]; [|done].
  destruct (tar_next s (stream_end z)) as [name regular size rest|rest| |e] eqn:Et; [|done..]. apply tar_entry_shorter in Et.
  destruct (restore_entry _ _ _ _ _ _ _ d2) as [d3 [stats'|?]]; [|done]. apply IH; rewrite length_drop; lia.
Qed.
End Installing.

(** ** Cleaning up *)

Lemma paths_below_spec d r p : p ∈ paths_below d r <-> r `suffix_of` p /\ is_Some (d_tree d !! p).
Proof.
  unfold paths_below. rewrite merge_sort_Permutation, list_elem_of_filter, list_elem_of_fmap. split.
  - intros (Hr & [q n] & -> & Hin%elem_of_map_to_list). split; [done|by eexists].
  - intros (Hr & n & Hn). split; [done|]. exists (p, n). split; [done|]. by apply elem_of_map_to_list.
Qed.

(** A name that nothing is in can go. *)
Lemma remove_name_spec r n p d d' x : r `suffix_of` p -> remove_name p d = (d', x) ->
  within r n d d' /\ d_inodes d' = d_inodes d /\ d_next d' = d_next d /\ (forall q, is_Some (d_tree d' !! q) -> d_tree d' !! q = d_tree d !! q) /\
  (x = Ok tt -> d_tree d' !! p = None).
Proof.
  intros Hp Ex. apply bind_attempt in Ex as [(d1 & E & H)|(e & E & ->)];
    destruct (quiet_writes_attempt _ _ _ 0 E) as [[T D N _ _] I].
  2:{ split_and!; try done; [|intros q _; by rewrite T]. split; rewrite ?T, ?D, ?I, ?N; done. }
  assert (within r n d (set_tree d1 (delete p (d_tree d1))) \/ x = Err (ENew "directory not empty") /\ d' = d1) as Hc.
  { destruct (d_tree d1 !! p) as [[i|]|] eqn:Ep; [|destruct (entries d1 p) as [|y l] eqn:El|]; try (right; by injection H as <- <-); left.
    all: split; cbn; rewrite ?D, ?I, ?N, ?T; try done; [intros q Hq; rewrite lookup_delete_ne; [done|]; intros <-; done|]; intros Hcl q Hq Hs.
    all: destruct (decide (p = q)) as [<-|Hne]; [rewrite lookup_delete_eq in Hs; by destruct Hs|]; rewrite lookup_delete_ne in Hs by done.
    all: pose proof (Hcl q Hq Hs) as Hd; rewrite lookup_delete_ne; [done|]; intros Hpd; rewrite T in *.
    1, 3: congruence.
    destruct q as [|y q]; [by destruct Hq as [->%suffix_nil_inv ?]|]. cbn in Hpd. subst q. destruct Hs as [m Hm].
    assert ((y, m) ∈ entries d1 p) as Hin by (apply entries_spec; by rewrite T). rewrite El in Hin. by apply elem_of_nil in Hin. }
  destruct Hc as [Hw|[-> ->]].
  2:{ split_and!; try done; [split; rewrite ?T, ?D, ?I, ?N; done|intros q _; by rewrite T]. }
  assert (d' = set_tree d1 (delete p (d_tree d1)) \/ d' = d1 /\ x <> Ok tt) as [->|[-> Hx]].
  { destruct (d_tree d1 !! p) as [[i|]|]; [|destruct (entries d1 p)|]; injection H as <- <-; auto. }
  - cbn. split_and!; try done; rewrite ?T. 2:{ intros _. apply lookup_delete_eq. }
    intros q [m Hm]. rewrite Hm. apply lookup_delete_Some in Hm as [_ Hm]. done.
  - split_and!; try done; [split; rewrite ?T, ?D, ?I, ?N; done|intros q _; by rewrite T].
Qed.

Lemma remove_each_spec r n l d d' e : (forall p, p ∈ l -> r `suffix_of` p) -> remove_each l d = (d', e) ->
  within r n d d' /\ d_inodes d' = d_inodes d /\ (forall q, is_Some (d_tree d' !! q) -> d_tree d' !! q = d_tree d !! q) /\
  (e = None -> forall p, p ∈ l -> d_tree d' !! p = None).
Proof.
  revert d d' e. induction l as [|p l IH]; intros d d' e Hl; cbn [remove_each].
  { intros [= <- <-]. split_and!; try done. intros _ p Hp. by apply elem_of_nil in Hp. }
  destruct (remove_name p d) as [d1 x] eqn:E1. apply (remove_name_spec r n) in E1 as (W1 & I1 & N1 & T1 & R1); [|apply Hl; by left].
  assert (forall q, q ∈ l -> r `suffix_of` q) as Hl' by (intros q Hq; apply Hl; by right).
  destruct x as [[]|e1].
  - intros (W2 & I2 & T2 & R2)%IH; [|done]. split_and!; [by etrans|congruence|..].
    + intros q Hq. rewrite T2 by done. apply T1. by rewrite <- T2.
    + intros He q [->|Hq]%elem_of_cons; [|by apply R2]. specialize (R1 eq_refl). destruct (d_tree d' !! p) as [m|] eqn:Em; [|done].
      rewrite T2 in Em by (rewrite Em; by eexists). congruence.
  - destruct (remove_each l d1) as [d2 e2] eqn:E2. intros [= <- <-]. apply IH in E2 as (W2 & I2 & T2 & R2); [|done].
    split_and!; [by etrans|congruence|..|done]. intros q Hq. rewrite T2 by done. apply T1. by rewrite <- T2.
Qed.

Lemma remove_all_spec r n d d' e : remove_all r d = (d', e) ->
  within r n d d' /\ d_inodes d' = d_inodes d /\ (forall q, is_Some (d_tree d' !! q) -> d_tree d' !! q = d_tree d !! q) /\
  (e = None -> forall p, r `suffix_of` p -> d_tree d' !! p = None).
Proof.
  intros (W & I & T & R)%(remove_each_spec r n); [|by intros p [? _]%paths_below_spec]. split_and!; [done|done|done|]. intros He p Hp.
  destruct (d_tree d' !! p) as [m|] eqn:Em; [|done]. rewrite (R He p) in Em; [done|]. apply paths_below_spec. split; [done|].
  rewrite T in Em by (rewrite Em; by eexists). by eexists.
Qed.

(** Below a directory there is something in it. *)
Lemma top_entry (r : path) (t : gmap path node) (p : path) : closed r t -> inside r p -> is_Some (t !! p) -> exists name n, (name :: r) `suffix_of` p /\ t !! (name :: r) = Some n.
Proof.
  intros Hc. induction p as [|y q IH]; intros [Hr Hne] Hs; [by apply suffix_nil_inv in Hr as ->|].
  apply suffix_cons_cases in Hr as [->|Hr]; [done|]. destruct (decide (q = r)) as [->|Hq].
  - destruct Hs as [n Hn]. by exists y, n.
  - assert (t !! q = Some NDir) as Hd by (apply (Hc (y :: q)); [split; [by apply suffix_cons_r|done]|done]).
    destruct IH as (name & n & H1 & H2); [done|by eexists|].
    exists name, n. split; [by apply suffix_cons_r|done].
Qed.

Lemma nothing_inside (r : path) (t : gmap path node) : closed r t -> (forall name, t !! (name :: r) = None) -> forall p, inside r p -> t !! p = None.
Proof.
  intros Hc He p Hp. destruct (t !! p) as [n|] eqn:En; [|done]. destruct (top_entry r t p Hc Hp) as (name & m & _ & Hm); [by eexists|].
  by rewrite He in Hm.
Qed.

Section Restoring.
Context `{!GzipLib} `{!TarLib} (c : config) (expected : ArchiveStats).

Lemma remove_entries_spec n l d d' e : remove_entries (root c) l d = (d', e) ->
  within (root c) n d d' /\ d_inodes d' = d_inodes d /\ (forall q, is_Some (d_tree d' !! q) -> d_tree d' !! q = d_tree d !! q) /\
  (e = None -> forall x p, x ∈ l -> (x.1 :: root c) `suffix_of` p -> d_tree d' !! p = None).
Proof.
  revert d d' e. induction l as [|[name m] l IH]; intros d d' e; cbn [remove_entries].
  { intros [= <- <-]. split_and!; try done. intros _ x p Hx. by apply elem_of_nil in Hx. }
  destruct (remove_all _ d) as [d1 e1] eqn:E1. destruct (remove_entries (root c) l d1) as [d2 e2] eqn:E2. intros [= <- <-].
  destruct (remove_all_spec _ n _ _ _ E1) as (_ & _ & _ & R1).
  unfold remove_all in E1. apply (remove_each_spec (root c) n) in E1 as (W1 & I1 & T1 & _); [|intros p [Hp _]%paths_below_spec; by eapply suffix_cons_l].
  apply IH in E2 as (W2 & I2 & T2 & R2). split_and!; [by etrans|congruence|..].
  - intros q Hq. rewrite T2 by done. apply T1. by rewrite <- T2.
  - intros He x p Hx Hp. destruct e1 as [?|]; [by destruct e2|]. apply elem_of_cons in Hx as [->|Hx]; [|by eapply R2].
    specialize (R1 eq_refl p Hp). destruct (d_tree d2 !! p) as [k|] eqn:Ek; [|done]. rewrite T2 in Ek by (rewrite Ek; by eexists). congruence.
Qed.

Lemma remove_contents_spec n d d' e : (n <= d_next d)%nat -> removeDirectoryContents (root c) d = (d', e) ->
  within (root c) n d d' /\ (e = None -> closed (root c) (d_tree d) -> forall p, inside (root c) p -> d_tree d' !! p = None).
Proof.
  intros Hn. unfold removeDirectoryContents. destruct (read_dir (root c) d) as [d1 [l|e1]] eqn:E1.
  all: pose proof (confines_read_dir (root c) n _ _ _ _ Hn E1) as W1. 2:{ by intros [= <- <-]. }
  intros E2. apply (remove_entries_spec n) in E2 as (W2 & _ & T2 & R2). split; [by etrans|]. intros He Hc p Hp.
  apply bind_ok in E1 as (d0 & u & Ea & E1). destruct (quiet_writes_attempt _ _ _ 0 Ea) as [[T D N _ _] I].
  destruct (is_dir d0 (root c)); [|done]. injection E1 as <- <-. rewrite T in T2. apply (nothing_inside (root c)); [by apply (wi_closed _ _ _ _ W2); rewrite T| |done].
  intros name. destruct (d_tree d' !! (name :: root c)) as [m|] eqn:Em; [|done]. rewrite (R2 He (name, m) (name :: root c)) in Em; [done| |done].
  apply entries_spec. cbn [fst snd]. rewrite T, <- Em. symmetry. apply T2. rewrite Em. by eexists.
Qed.

Lemma installed_perm d l k : l ≡ₚ k -> installed c d l -> installed c d k.
Proof.
  intros Hp [H1 H2 H3 H4]. split; [by rewrite <- Hp| |..|done].
  - intros key data. rewrite <- Hp. apply H2.
  - intros p i Hr Ht. destruct (H3 p i Hr Ht) as (key & data & Hin & Hk). exists key, data. by rewrite <- Hp.
Qed.

(** What the restore of a source must have found. *)
Definition unpacks (source : bytes) (l : list (bytes * bytes)) : Prop :=
  exists z step, gz_open source = Ok z /\ reads (stream_end z) (gz_payload z) step l /\ gz_error z = None /\ end_noticed z step = true /\ gz_rest z = [].

Lemma restore_body_ok source d d' stats :
  installed c d [] -> restore_body (root c) expected source d = (d', Ok stats) ->
  stats = expected /\ exists l, unpacks source l /\ installed c d' l /\ stats = stats_of l.
Proof.
  intros Hins (d1 & ? & E1%wrap_ok & (d2 & ? & E2%wrap_ok & E)%bind_ok)%bind_ok. destruct (gz_open source) as [z|] eqn:Ez; [|done].
  apply bind_ok in E as (d3 & [step stats3] & E3 & E). cbn [fst snd] in E. destruct (bool_decide (stats3 = expected)) eqn:Es; cbn [negb] in E; [|done].
  apply bool_decide_eq_true in Es. subst stats3. destruct (gz_error z) eqn:Ee; [done|]. apply bind_ok in E as (d4 & ? & E4%wrap_ok & E).
  if_in E En; [done|]. apply orb_false_iff in En as [En Er]. apply negb_false_iff in En, Er. apply bool_decide_eq_true in Er.
  apply bind_ok in E as (d5 & ? & E5%wrap_ok & E). injection E as <- <-. split; [done|].
  destruct (quiet_writes_attempt _ _ _ 0 E1) as [[T1 D1 N1 _ _] I1]. destruct (quiet_writes_attempt _ _ _ 0 E2) as [[T2 D2 N2 _ _] I2].
  destruct (quiet_writes_attempt _ _ _ 0 E4) as [[T4 D4 N4 _ _] I4].
  destruct (restore_loop_ok c expected _ z _ d2 d3 _ step [] ltac:(eapply installed_kept; [exact Hins|congruence..]) E3) as (k & Hk & Hi & Hst).
  rewrite app_nil_r in Hi, Hst. exists k. split_and!; [by exists z, step| |by rewrite Hst; apply stats_of_perm, reverse_Permutation].
  apply (installed_perm _ _ _ (reverse_Permutation k)). pose proof (quietly_syncDirectory _ _ _ _ E5) as (I5 & N5 & _). apply syncDirectory_ok in E5 as (T5 & _ & _ & K5).
  eapply installed_kept; [exact Hi|congruence| |congruence..]. intros q Hq. rewrite K5, T4; [done|]. by rewrite D4, T4.
Qed.

Lemma confines_body n source : confines (root c) n (restore_body (root c) expected source).
Proof.
  unfold restore_body. apply confines_bind; [confine|intros _]. apply confines_bind; [confine|intros _]. destruct (gz_open source) as [z|]; [|confine].
  apply confines_bind; [apply confines_loop|]. intros [step stats]. apply confines_if; [confine|]. destruct (gz_error z); confine.
Qed.

Lemma confines_mkdir n p : root c `suffix_of` p -> confines (root c) n (mkdir p).
Proof.
  intros Hp. apply confines_bind; [confine|]. intros _ d d' x _. unfold is_dir. destruct (bool_decide _) eqn:Ed; cbn [negb]; [|by intros [= <- <-]].
  apply bool_decide_eq_true in Ed. destruct (d_tree d !! p) eqn:Ep; intros [= <- <-]; [done|]. apply within_tree; [|by apply closed_insert].
  intros q Hq. rewrite lookup_insert_ne; [done|]. by intros <-.
Qed.

Lemma mkdir_ok p d d' u : mkdir p d = (d', Ok u) -> d_tree d !! p = None /\ d_tree d' = <[p := NDir]> (d_tree d) /\ d_inodes d' = d_inodes d /\ d_next d' = d_next d.
Proof.
  intros (d1 & ? & Ea & Hz)%bind_ok. destruct (quiet_writes_attempt _ _ _ 0 Ea) as [[T D N _ _] I]. destruct (negb _); [done|]. rewrite T in Hz.
  destruct (d_tree d !! p) eqn:Ep; [done|]. injection Hz as <- <-. cbn. by rewrite I, N.
Qed.

Lemma inspect_quiet d d' x : inspect_root (root c) d = (d', x) ->
  d_tree d' = d_tree d /\ d_durable d' = d_durable d /\ d_inodes d' = d_inodes d /\ d_next d' = d_next d /\
  (x = Ok true -> d_tree d !! root c = Some NDir /\ forall name, d_tree d !! (name :: root c) = None).
Proof.
  assert (forall d d' x, stat (root c) d = (d', x) -> writes 0 d d' /\ d_inodes d' = d_inodes d /\ forall n, x = Ok n -> d_tree d !! root c = Some n) as Hstat.
  { intros e e' y [(d1 & Ea & Hz)|(z & Ea & ->)]%bind_attempt; destruct (quiet_writes_attempt _ _ _ 0 Ea) as [W I]; [|by split_and!].
    rewrite (wr_tree _ _ _ W) in Hz. destruct (d_tree e !! root c) eqn:Et; injection Hz as <- <-; split_and!; try done. by intros m [= <-]. }
  assert (forall d d' x, read_dir (root c) d = (d', x) -> writes 0 d d' /\ d_inodes d' = d_inodes d /\ forall l, x = Ok l -> l = entries d (root c)) as Hread.
  { intros e e' y [(d1 & Ea & Hz)|(z & Ea & ->)]%bind_attempt; destruct (quiet_writes_attempt _ _ _ 0 Ea) as [W I]; [|by split_and!].
    destruct (is_dir d1 (root c)); injection Hz as <- <-; split_and!; try done. intros l [= <-]. unfold entries. by rewrite (wr_tree _ _ _ W). }
  unfold inspect_root. destruct (stat _ d) as [d1 [[i|]|e]] eqn:E1; apply Hstat in E1 as ([T1 D1 N1 _ _] & I1 & H1).
  - by intros [= <- <-].
  - destruct (read_dir _ d1) as [d2 [[|y l]|e]] eqn:E2; apply Hread in E2 as ([T2 D2 N2 _ _] & I2 & H2); intros [= <- <-]; rewrite T2, D2, I2, N2; try done.
    split_and!; try done. intros _. split; [by apply H1|]. intros name. destruct (d_tree d !! (name :: root c)) as [m|] eqn:Em; [|done].
    assert ((name, m) ∈ entries d1 (root c)) as Hin by (apply entries_spec; cbn [fst snd]; by rewrite T1). rewrite <- (H2 [] eq_refl) in Hin. by apply elem_of_nil in Hin.
  - destruct (errors_is e _); by intros [= <- <-].
Qed.

(** The root directory is there and has nothing in it. *)
Definition fresh_root (d : disk) : Prop := d_tree d !! root c = Some NDir /\ forall p, inside (root c) p -> d_tree d !! p = None.

Lemma fresh_installed d : fresh_root d -> (forall i, is_Some (d_inodes d !! i) -> (i < d_next d)%nat) -> installed c d [].
Proof.
  intros [Hr Hi] Hn. split; [constructor| |..|done].
  - intros key data Hin. by apply elem_of_nil in Hin.
  - intros p i Hp Ht. destruct (decide (p = root c)) as [->|Hne]; [congruence|]. by rewrite Hi in Ht.
Qed.

(** The cleanup failed, and the error says so. *)
Definition cleanup_failed (e : goerr) : Prop := exists e1 e2, e = EWrap2 "join" e1 (EWrap "clean incomplete content restore" e2).

(** From a fresh root on. *)
Lemma restore_fresh source (existed : bool) d d' x n :
  fresh_root d -> closed (root c) (d_tree d) -> (forall i, is_Some (d_inodes d !! i) -> (i < d_next d)%nat) -> (n <= d_next d)%nat ->
  match restore_body (root c) expected source d with
  | (d, Ok stats) => (d, Ok stats)
  | (d, Err e) =>
    let '(d, cleanupErr) := (if existed then removeDirectoryContents (root c) d else remove_all (root c) d) in
    (d, Err match cleanupErr with Some e' => EWrap2 "join" e (EWrap "clean incomplete content restore" e') | None => e end)
  end = (d', x) ->
  within (root c) n d d' /\
  match x with
  | Ok stats => stats = expected /\ exists l, unpacks source l /\ installed c d' l /\ stats = stats_of l
  | Err e => (forall p, inside (root c) p -> d_tree d' !! p = None) \/ cleanup_failed e
  end.
Proof.
  intros Hf Hc Hi Hn E. destruct (restore_body _ _ _ d) as [d1 [stats|e]] eqn:Eb; pose proof (confines_body n source _ _ _ Hn Eb) as W1.
  { injection E as <- <-. split; [done|]. eapply restore_body_ok; [by apply fresh_installed|done]. }
  assert (n <= d_next d1)%nat as Hn1 by (destruct W1; lia).
  destruct existed.
  - destruct (removeDirectoryContents _ d1) as [d2 e2] eqn:E2. apply (remove_contents_spec n) in E2 as [W2 R2]; [|done].
    assert (within (root c) n d d2) as W by by etrans.
    destruct e2 as [e2|]; injection E as <- <-; (split; [done|]); [right; by eexists _, _|left].
    apply R2; [done|]. by apply (wi_closed _ _ _ _ W1).
  - destruct (remove_all _ d1) as [d2 e2] eqn:E2. apply (remove_all_spec (root c) n) in E2 as (W2 & _ & _ & R2).
    assert (within (root c) n d d2) as W by by etrans.
    destruct e2 as [e2|]; injection E as <- <-; (split; [done|]); [right; by eexists _, _|left]. intros p [Hp _]. by apply R2.
Qed.

Lemma restore_archive_spec source d d' x :
  closed (root c) (d_tree d) -> (forall i, is_Some (d_inodes d !! i) -> (i < d_next d)%nat) ->
  RestoreArchive (root c) expected source d = (d', x) ->
  within (root c) (d_next d) d d' /\
  match x with
  | Ok stats => stats = expected /\ exists l, unpacks source l /\ installed c d' l /\ stats = stats_of l
  | Err e => (forall p, p <> root c -> d_tree d' !! p = d_tree d !! p) \/ cleanup_failed e
  end.
Proof.
  intros Hc Hi E. unfold RestoreArchive in E. if_in E Eneg; [injection E as <- <-; split; [done|by left]|].
  unfold bind in E. destruct (inspect_root _ d) as [d1 [existed|e]] eqn:E1; apply inspect_quiet in E1 as (T1 & D1 & I1 & N1 & H1).
  all: assert (within (root c) (d_next d) d d1) as W1 by (split; rewrite ?T1, ?D1, ?I1, ?N1; done).
  2:{ injection E as <- <-. split; [done|]. left. intros p _. by rewrite T1. }
  destruct ((if existed : bool then ret tt else wrap _ (mkdir (root c))) d1) as [d2 [[]|e]] eqn:E2.
  2:{ assert (within (root c) (d_next d) d1 d') as W2.
      { destruct existed; [done|]. injection E as <- _. eapply (confines_wrap (root c) (d_next d)), E2; [by apply confines_mkdir|lia]. }
      split; [by etrans|]. destruct existed; [done|]. injection E as <- <-. left. unfold wrap in E2. destruct (mkdir _ d1) as [d3 [?|e3]] eqn:E3; [done|].
      injection E2 as <- <-. intros p _. rewrite <- T1. apply bind_attempt in E3 as [(d4 & Ea & Hz)|(z & Ea & _)];
        apply attempt_tree in Ea as [Ta _]; [|by rewrite Ta]. destruct (negb _); [by injection Hz as <- <-; rewrite Ta|].
      destruct (d_tree d4 !! _); [by injection Hz as <- <-; rewrite Ta|done]. }
  assert (fresh_root d2 /\ d_inodes d2 = d_inodes d /\ d_next d2 = d_next d /\ within (root c) (d_next d) d d2 /\
    forall p, p <> root c -> d_tree d2 !! p = d_tree d !! p) as (F2 & I2 & N2 & W2 & S2).
  { destruct existed.
    - injection E2 as <-. destruct (H1 eq_refl) as [Hr He]. rewrite I1, N1. split_and!; try done; [|intros p _; by rewrite T1].
      split; rewrite T1; [done|]. by apply nothing_inside.
    - pose proof (confines_wrap (root c) (d_next d) _ _ (confines_mkdir (d_next d) (root c) ltac:(done)) d1 _ _ ltac:(lia) E2) as Wm.
      apply wrap_ok, mkdir_ok in E2 as (Hn & T2 & I2 & N2). rewrite T1 in *. split_and!; [|congruence..|by etrans|].
      + split; rewrite T2; [by rewrite lookup_insert_eq|]. intros p Hp. rewrite lookup_insert_ne by (by destruct Hp). apply (nothing_inside (root c)); [done| |done].
        intros name. destruct (d_tree d !! (name :: root c)) as [m|] eqn:Em; [|done]. assert (d_tree d !! root c = Some NDir); [|congruence].
        apply (Hc (name :: root c)); [|by eexists]. split; [by apply suffix_cons_r|]. intros Hl%(f_equal length). cbn in Hl. lia.
      + intros p Hp. rewrite T2. by rewrite lookup_insert_ne. }
  destruct (wrap _ (secureDirectory (root c)) d2) as [d3 y] eqn:E3.
  pose proof (confines_wrap (root c) (d_next d) _ _ (confines_secure (root c) (d_next d) (root c)) d2 _ _ ltac:(lia) E3) as W3.
  assert (d_tree d3 = d_tree d2 /\ d_inodes d3 = d_inodes d2 /\ d_next d3 = d_next d2) as (T3 & I3 & N3).
  { unfold wrap in E3. destruct (secureDirectory _ d2) as [d4 z] eqn:E4. assert (d4 = d3) as -> by (by destruct z; injection E3).
    pose proof (quietly_secureDirectory _ _ _ _ E4) as (? & ? & _). by apply secureDirectory_tree in E4 as [? _]. }
  destruct y as [[]|e]; [|injection E as <- <-; split; [by etrans|]; left; intros p Hp; rewrite T3; by apply S2].
  assert (within (root c) (d_next d) d d3) as W13 by by etrans.
  apply (restore_fresh source existed d3 d' x (d_next d)) in E as [W HR]; [|by unfold fresh_root; rewrite T3|by apply (wi_closed _ _ _ _ W13)|by rewrite I3, N3, I2, N2|lia].
  split; [by etrans|]. destruct x as [stats|e]; [done|]. destruct HR as [HR|HR]; [left|by right]. intros p Hp.
  destruct (decide (root c `suffix_of` p)) as [Hs|Hs]; [|by rewrite (wi_tree _ _ _ _ W), (wi_tree _ _ _ _ W13)].
  rewrite HR by done. rewrite <- S2 by done. by rewrite (proj2 F2).
Qed.

(** C8: a restore is safe.  Whatever the archive is and whatever fails, only
    names below the target and new files are touched.  A restore that succeeds
    has installed exactly the objects that a reader of the archive finds, each
    under the name of its digest, once, and on the medium down from the target,
    as many and with as many bytes as the manifest says.  One that fails leaves
    everything but the target directory itself as it was, or reports that the
    cleanup failed too. *)
Theorem restore_archive_safe source d d' x :
  closed (root c) (d_tree d) -> (forall i, is_Some (d_inodes d !! i) -> (i < d_next d)%nat) ->
  RestoreArchive (root c) expected source d = (d', x) ->
  within (root c) (d_next d) d d' /\
  match x with
  | Ok stats => stats = expected /\ exists l, unpacks source l /\ installed c d' l /\ stats = stats_of l
  | Err e => (forall p, p <> root c -> d_tree d' !! p = d_tree d !! p) \/ cleanup_failed e
  end.
Proof. apply restore_archive_spec. Qed.
End Restoring.
