(* ===== verification/ArchiveTrip.v ===== *)
(** * The round trip of a store through an archive

    What [WriteArchive] writes when nothing fails ([write_archive_calm]), what
    [RestoreArchive] makes of it on another disk ([restore_archive_calm]), and
    the two together.  The compressor and the tar reader are any that keep the
    laws of [Tar]. *)

From S2P Require Import Prelude GoStrings Errors Codec Uuid FileSystem Message ContentStore ContentStoreFacts ContentStoreSpec Reconcile Tar FileTree Archive ArchiveFacts.

#[local] Opaque sha256.

Lemma copy_shorter (x : ascii) (l : bytes) : (length (drop copyBufferBytes (x :: l)) < length (x :: l))%nat.
Proof. rewrite length_drop. unfold copyBufferBytes. cbn [length]. lia. Qed.

#[local] Opaque copyBufferBytes.

(** ** What is packed *)

Definition entry_name (key : bytes) : bytes :=
  match relativePathForKey key with Ok relative => archiveObjectPrefix ++ to_slash relative | Err _ => [] end.

Definition entry_bytes (kv : bytes * bytes) : bytes :=
  ustar_header (entry_name kv.1) (zlen kv.2) ++ kv.2 ++ zeros (blockPadding (zlen kv.2)).

Definition packed (l : list (bytes * bytes)) : bytes := concat (entry_bytes <$> l) ++ zeros 1024.

(** The objects of a store, in the order of the walk. *)
Definition stored_of (d : disk) (l : list (list bytes * node)) : list (bytes * bytes) :=
  omap (λ e : list bytes * node,
    match e.2 with
    | NFile i => Some (sha256_prefix ++ default [] (last e.1), data_of d i)
    | NDir => None
    end) l.

Definition stored_list (c : config) (d : disk) : list (bytes * bytes) := stored_of d (walk_list d (objectsRoot c)).

(** No object is too large for the format. *)
Definition sizes_fit (l : list (bytes * bytes)) : Prop := forall kv, kv ∈ l -> ustar_size (zlen kv.2) = true.

Section Writing.
Context `{!GzipLib} `{!GzipSpec _} (c : config) (d0 : disk) (i : nat).
Hypothesis (Hok : disk_ok c d0) (Hlayout : layout_ok c d0) (Hprivate : private c d0 i).

(** An archive is being written to the file [i], which has received [P] before
    compression. *)
Record writing (P : bytes) (s : awriter hashingWriter) : Prop := {
  wg_calm : calm (aw_disk s);
  wg_tree : d_tree (aw_disk s) = d_tree d0;
  wg_durable : d_durable (aw_disk s) = d_durable d0;
  wg_next : d_next (aw_disk s) = d_next d0;
  wg_other : forall j, j <> i -> d_inodes (aw_disk s) !! j = d_inodes d0 !! j;
  wg_inode : is_Some (d_inodes (aw_disk s) !! i);
  wg_file : hw_file (aw_dest s) = i;
  wg_hashed : hw_hashed (aw_dest s) = data_of (aw_disk s) i;
  wg_sent : hw_hashed (aw_dest s) = gz_sent (aw_given s);
  wg_given : concat (aw_given s) = P;
  wg_gzip : aw_gzip_err s = None;
  wg_tar : aw_tar_err s = None
}.

(** The place in the current entry, and the counts. *)
Definition place (s : awriter hashingWriter) : Z * nat * ArchiveStats := (aw_left s, aw_pad s, aw_stats s).

Lemma send_calm P s out given x :
  writing P s -> gz_sent (aw_given s) ++ out = x ->
  exists s', send out given s = (s', None) /\ place s' = place s /\ aw_given s' = given /\ hw_hashed (aw_dest s') = x /\ hw_hashed (aw_dest s') = data_of (aw_disk s') i /\
    calm (aw_disk s') /\ d_tree (aw_disk s') = d_tree d0 /\ d_durable (aw_disk s') = d_durable d0 /\ d_next (aw_disk s') = d_next d0 /\
    (forall j, j <> i -> d_inodes (aw_disk s') !! j = d_inodes d0 !! j) /\ is_Some (d_inodes (aw_disk s') !! i) /\ hw_file (aw_dest s') = i /\
    aw_gzip_err s' = None /\ aw_tar_err s' = None.
Proof.
  intros [C T D N O I F Hh Ss G Eg Et] Hx. unfold send. destruct out as [|y out].
  - rewrite app_nil_r in Hx. eexists. split; [done|]. cbn. split_and!; try done. by rewrite Ss.
  - cbn [wr_write hashing_writer]. unfold write_file. rewrite bind_attempt_calm by done. eexists. split; [done|]. cbn.
    destruct I as [f Hf]. rewrite F. split_and!; try done.
    + by rewrite Ss.
    + rewrite Hh. unfold data_of, file_of. cbn. by rewrite lookup_alter_eq, Hf.
    + intros j Hj. rewrite lookup_alter_ne by done. by apply O.
    + rewrite lookup_alter_eq, Hf. by eexists.
Qed.

Lemma prefix_drop (a b : bytes) : a `prefix_of` b -> a ++ drop (length a) b = b.
Proof. intros [k ->]. by rewrite drop_app_length. Qed.

Lemma gzip_write_calm P s x : writing P s -> exists s', gzip_write x s = (s', None) /\ writing (P ++ x) s' /\ place s' = place s.
Proof.
  intros Hw. unfold gzip_write. rewrite (wg_gzip _ _ Hw).
  destruct (send_calm P s (drop (length (gz_sent (aw_given s))) (gz_sent (aw_given s ++ [x]))) (aw_given s ++ [x]) _ Hw (prefix_drop _ _ (gz_sent_grows _ x)))
    as (s' & E & Hp & Hg & Hh & Hd & ?). exists s'. split; [done|]. split; [|done]. destruct_and!. split; try done; [congruence|].
  rewrite Hg, concat_app, (wg_given _ _ Hw). cbn. by rewrite app_nil_r.
Qed.

Lemma tar_flush_calm P s : writing P s -> aw_left s = 0 ->
  exists s', tar_flush s = (s', None) /\ writing (P ++ zeros (aw_pad s)) s' /\ place s' = (0, 0%nat, aw_stats s).
Proof.
  intros Hw Hl. unfold tar_flush. rewrite (wg_tar _ _ Hw), Hl. cbn [Z.ltb Z.compare].
  destruct (gzip_write_calm P s (zeros (aw_pad s)) Hw) as (s' & -> & Hw' & [= E1 E2 E3]). eexists. split; [done|]. split; [by destruct Hw'|].
  unfold place, tar_entry. cbn. by rewrite E3.
Qed.

Lemma tar_header_calm P s name size : writing P s -> aw_left s = 0 -> ustar_size size = true ->
  exists s', tar_header name size s = (s', None) /\ writing (P ++ zeros (aw_pad s) ++ ustar_header name size) s' /\ place s' = (size, blockPadding size, aw_stats s).
Proof.
  intros Hw Hl Hs. unfold tar_header. destruct (tar_flush_calm P s Hw Hl) as (s1 & -> & Hw1 & [= P1 P2 P3]). rewrite Hs. cbn [negb].
  destruct (gzip_write_calm _ s1 (ustar_header name size) Hw1) as (s2 & -> & Hw2 & [= E1 E2 E3]). rewrite <- app_assoc in Hw2.
  eexists. split; [done|]. split; [by destruct Hw2|]. unfold place, tar_entry. cbn. congruence.
Qed.

Lemma tar_write_calm P s data : writing P s -> zlen data <= aw_left s ->
  exists s', tar_write data s = (s', None) /\ writing (P ++ data) s' /\ place s' = (aw_left s - zlen data, aw_pad s, aw_stats s).
Proof.
  intros Hw Hl. unfold tar_write. rewrite (wg_tar _ _ Hw). replace (aw_left s <? zlen data) with false by (symmetry; apply Z.ltb_ge; lia).
  destruct data as [|y data].
  - exists s. rewrite app_nil_r. split_and!; [done|done|]. unfold place. rewrite zlen_nil. by rewrite Z.sub_0_r.
  - destruct (gzip_write_calm P s (y :: data) Hw) as (s' & -> & Hw' & [= E1 E2 E3]). eexists. split; [by rewrite Z.ltb_irrefl|].
    split; [by destruct Hw'|]. unfold place, tar_entry. cbn. congruence.
Qed.

Lemma aw_run_calm {A} (m : IO A) (s : awriter hashingWriter) a : m (aw_disk s) = (aw_disk s, Ok a) -> aw_run m s = (s, Ok a).
Proof. intros E. unfold aw_run. rewrite E. by destruct s. Qed.

Lemma archive_copy_calm fuel rest hashed P s : writing P s -> (length rest < fuel)%nat -> zlen rest <= aw_left s ->
  exists s', archive_copy fuel rest hashed s = (s', Ok (hashed ++ rest)) /\ writing (P ++ rest) s' /\ place s' = (aw_left s - zlen rest, aw_pad s, aw_stats s).
Proof.
  revert rest hashed P s. induction fuel as [|fuel IH]; intros rest hashed P s Hw Hf Hl; [lia|]. cbn [archive_copy].
  rewrite (aw_run_calm _ s tt).
  2:{ unfold bind. rewrite ctx_err_calm, attempt_calm by apply Hw. done. }
  destruct rest as [|y rest].
  { exists s. rewrite !app_nil_r. split_and!; [done|done|]. unfold place. by rewrite zlen_nil, Z.sub_0_r. }
  pose proof (f_equal zlen (take_drop copyBufferBytes (y :: rest))) as Hz. rewrite zlen_app in Hz.
  destruct (tar_write_calm P s (take copyBufferBytes (y :: rest)) Hw) as (s1 & -> & Hw1 & [= L1 P1 S1]); [pose proof (zlen_nonneg (drop copyBufferBytes (y :: rest))); lia|].
  destruct (IH (drop copyBufferBytes (y :: rest)) (hashed ++ take copyBufferBytes (y :: rest)) _ s1 Hw1) as (s2 & -> & Hw2 & [= L2 P2 S2]).
  - pose proof (copy_shorter y rest). lia.
  - rewrite L1. lia.
  - exists s2. rewrite <- !app_assoc, take_drop in *. split_and!; [done|done|]. unfold place. rewrite L2, P2, S2, P1, S1, L1. f_equal. f_equal. lia.
Qed.

(** The objects [l] have been written, but for the padding of the last one. *)
Definition archived (l : list (bytes * bytes)) (s : awriter hashingWriter) : Prop :=
  exists P, writing P s /\ P ++ zeros (aw_pad s) = concat (entry_bytes <$> l) /\ aw_left s = 0 /\ aw_stats s = stats_of l.

Lemma stats_snoc l kv : stats_of (l ++ [kv]) = MkStats (ar_Objects (stats_of l) + 1) (ar_Bytes (stats_of l) + zlen kv.2).
Proof.
  assert (total_bytes (l ++ [kv]) = total_bytes l + zlen kv.2) as E.
  { induction l as [|x l IH]; cbn [total_bytes foldr app]; unfold total_bytes in *; cbn [foldr app] in *; lia. }
  unfold stats_of. rewrite zlen_app, zlen_cons, zlen_nil, E. done.
Qed.

Lemma archive_object_calm g j s l :
  archived l s -> canonical_digest g -> d_tree d0 !! ([g; take 2 (drop 2 g); take 2 g] ++ objectsRoot c) = Some (NFile j) ->
  ustar_size (zlen (data_of d0 j)) = true ->
  exists s', archive_object c (MkContentRef (sha256_prefix ++ g) (zlen (data_of d0 j))) s = (s', None) /\ archived (l ++ [(sha256_prefix ++ g, data_of d0 j)]) s'.
Proof.
  intros (P & Hw & Hp & Hl & Hs) Hg Ht Hz. set (p := [g; take 2 (drop 2 g); take 2 g] ++ objectsRoot c) in *.
  assert (objectsRoot c `suffix_of` p) as Hsuf by (by eexists).
  assert (j <> i) as Hj by (intros ->; by apply (Hprivate p)).
  destruct (ok_object _ _ Hok p j Ht Hsuf) as (f & Hf & _ & Hpath). 
  assert (data_of d0 j = f_data f) as Hdata by (unfold data_of, file_of; by rewrite Hf).
  unfold archive_object. rewrite (aw_run_calm _ s tt) by (rewrite ctx_err_calm by apply Hw; done). cbn [Key SizeBytes].
  rewrite relativePathForKey_canonical by done.
  destruct (tar_header_calm P s (archiveObjectPrefix ++ to_slash [g; take 2 (drop 2 g); take 2 g]) _ Hw Hl Hz) as (s1 & -> & Hw1 & [= L1 P1 S1]).
  rewrite (aw_run_calm _ s1 j).
  2:{ unfold OpenContent. cbn [Key]. rewrite relativePathForKey_canonical by done. unfold bind, wrap. rewrite attempt_calm by apply Hw1.
      unfold open_file. rewrite bind_attempt_calm by apply Hw1. rewrite (wg_tree _ _ Hw1). fold p. by rewrite Ht. }
  assert (f_data (file_of (aw_disk s1) (NFile j)) = data_of d0 j) as -> by (unfold data_of, file_of; by rewrite (wg_other _ _ Hw1 j Hj)).
  destruct (archive_copy_calm (S (length (data_of d0 j))) (data_of d0 j) [] _ s1 Hw1 ltac:(lia) ltac:(lia)) as (s2 & -> & Hw2 & [= L2 P2 S2]).
  rewrite (aw_run_calm _ s2 tt) by (unfold close_file; rewrite attempt_calm by apply Hw2; done). cbn [join].
  rewrite app_nil_l, Z.eqb_refl. cbn [negb]. rewrite bool_decide_eq_true_2.
  2:{ rewrite Hdata. apply (pathForKey_inj c _ _ p); [|done]. unfold pathForKey. by rewrite relativePathForKey_canonical. }
  cbn [negb]. eexists. split; [done|]. eexists. split_and!.
  - destruct Hw2. by split.
  - cbn [aw_pad]. rewrite P2, P1, fmap_app, concat_app, <- Hp. cbn [fmap list_fmap concat]. rewrite app_nil_r, <- !app_assoc. unfold entry_bytes. cbn [fst snd].
    unfold entry_name. by rewrite relativePathForKey_canonical.
  - cbn [aw_left]. rewrite L2, L1. lia.
  - cbn [aw_stats]. rewrite stats_snoc, S2, S1, Hs. done.
Qed.

Lemma stored_of_cons e l : stored_of d0 (e :: l) = stored_of d0 [e] ++ stored_of d0 l.
Proof. unfold stored_of. cbn. by destruct (e.2). Qed.

Abbreviation archive_entry := (walk_entry c (@aw_run hashingWriter) aw_disk (archive_object c)).

Lemma archive_walk_calm l : forall k s,
  archived k s -> (forall e, e ∈ l -> e.1 <> [] /\ d_tree d0 !! (reverse e.1 ++ objectsRoot c) = Some e.2) -> sizes_fit (stored_of d0 l) ->
  exists s', visit_all archive_entry l s = (s', None) /\ archived (k ++ stored_of d0 l) s'.
Proof.
  induction l as [|[parts n] l IH]; intros k s Hs Hl Hz; cbn [visit_all]; [exists s; by rewrite app_nil_r|].
  destruct (Hl (parts, n) ltac:(by left)) as [Hne Ht]. cbn [fst snd] in Hne, Ht. pose proof Hs as (P & Hw & _).
  rewrite stored_of_cons in Hz |- *. unfold walk_entry at 1. rewrite (aw_run_calm _ s tt) by (rewrite ctx_err_calm by apply Hw; done).
  assert (exists s1, archive_entry (parts, n) s = (s1, None) /\ archived (k ++ stored_of d0 [(parts, n)]) s1) as (s1 & E1 & H1).
  2:{ unfold walk_entry at 1 in E1. rewrite (aw_run_calm _ s tt) in E1 by (rewrite ctx_err_calm by apply Hw; done). rewrite E1, app_assoc.
      apply IH; [done|intros e He; apply Hl; by right|]. intros kv Hkv. apply Hz, elem_of_app. by right. }
  unfold walk_entry. rewrite (aw_run_calm _ s tt) by (rewrite ctx_err_calm by apply Hw; done). destruct n as [j|].
  - destruct (file_parts c d0 Hok parts j Ht) as (g & -> & Hg). pose proof Hg as [Hg1 Hg2].
    rewrite (proj2 (Z.eqb_eq _ _)) by (unfold digestHexLength, zlen; lia). rewrite !bool_decide_eq_true_2 by done. cbn [negb orb].
    rewrite relativePathForKey_canonical by done. rewrite (aw_run_calm _ s (NFile j)).
    2:{ unfold stat. rewrite bind_attempt_calm by apply Hw. by rewrite (wg_tree _ _ Hw), Ht. }
    assert (j <> i) as Hj by (intros ->; eapply Hprivate; [|exact Ht]; by eexists).
    replace (f_data (file_of (aw_disk s) (NFile j))) with (data_of d0 j) by (unfold data_of, file_of; by rewrite (wg_other _ _ Hw j Hj)).
    apply archive_object_calm; [done|done|done|]. apply (Hz (sha256_prefix ++ g, data_of d0 j)), elem_of_app. left. by left.
  - destruct Hlayout as (_ & Hdirs & _). destruct (Hdirs parts Hne Ht) as [Hlen Hv]. rewrite Hv, bool_decide_eq_false_2 by lia. cbn [negb orb].
    rewrite (aw_run_calm _ s tt) by (rewrite attempt_calm by apply Hw; done). exists s. cbn. by rewrite app_nil_r.
Qed.

Lemma gzip_close_calm P s : writing P s -> is_Some (d_inodes d0 !! i) -> exists s', gzip_close s = (s', None) /\ hw_hashed (aw_dest s') = gz_closed (aw_given s) /\
  data_of (aw_disk s') i = gz_closed (aw_given s) /\ aw_stats s' = aw_stats s /\ writes i d0 (aw_disk s') /\ calm (aw_disk s').
Proof.
  intros Hw Hi. unfold gzip_close. rewrite (wg_gzip _ _ Hw).
  destruct (send_calm P s (drop (length (gz_sent (aw_given s))) (gz_closed (aw_given s))) (aw_given s) _ Hw (prefix_drop _ _ (gz_sent_closed _)))
    as (s' & E & [= _ _ E3] & Hg & Hh & Hd & ?). exists s'. destruct_and!. split_and!; first [done|congruence|by split].
Qed.

Lemma tar_close_calm l s : archived l s -> exists s', tar_close s = (s', None) /\ writing (packed l) s' /\ aw_stats s' = stats_of l.
Proof.
  intros (P & Hw & Hp & Hl & Hs). unfold tar_close. destruct (tar_flush_calm P s Hw Hl) as (s1 & -> & Hw1 & [= _ _ S1]). rewrite Hp in Hw1.
  destruct (gzip_write_calm _ s1 (zeros blockSize) Hw1) as (s2 & -> & Hw2 & [= _ _ S2]).
  destruct (gzip_write_calm _ s2 (zeros blockSize) Hw2) as (s3 & -> & Hw3 & [= _ _ S3]). exists s3. split_and!; [done| |congruence].
  rewrite <- app_assoc in Hw3. unfold zeros in Hw3. by rewrite <- replicate_add in Hw3.
Qed.

(** When nothing fails, the file is the compressed archive of the store. *)
Lemma write_archive_calm :
  calm d0 -> (exists f, d_inodes d0 !! i = Some f /\ f_data f = []) -> sizes_fit (stored_list c d0) ->
  exists s chunks, WriteArchive c d0 (HashingWriter i []) = (s, None) /\ concat chunks = packed (stored_list c d0) /\
    hw_hashed (aw_dest s) = gz_closed chunks /\ data_of (aw_disk s) i = gz_closed chunks /\ aw_stats s = stats_of (stored_list c d0) /\
    writes i d0 (aw_disk s) /\ calm (aw_disk s).
Proof.
  intros Hc (f & Hf & Hf0) Hz. unfold WriteArchive, walkObjects. set (s0 := AWriter _ _ _ _ _ _ _ _).
  assert (archived [] s0) as H0.
  { exists []. split_and!; try done. split; try done; [|by rewrite gz_sent_nil]. cbn. unfold data_of, file_of. by rewrite Hf. }
  rewrite (aw_run_calm _ s0 NDir) by (unfold stat; rewrite bind_attempt_calm by done; cbn; by rewrite (proj1 Hlayout)).
  rewrite (aw_run_calm _ s0 tt) by (rewrite ctx_err_calm; done). rewrite (aw_run_calm _ s0 tt) by (rewrite attempt_calm; done).
  destruct (archive_walk_calm (walk_list d0 (objectsRoot c)) [] s0 H0) as (s1 & E1 & H1).
  { intros [parts n]. apply walk_list_spec. }
  { done. }
  change (aw_disk s0) with d0. rewrite E1. destruct (tar_close_calm _ s1 H1) as (s2 & -> & Hw2 & S2).
  destruct (gzip_close_calm _ s2 Hw2 ltac:(by eexists)) as (s3 & -> & Hh & Hd & S3 & W & C). exists s3, (aw_given s2). split_and!; try done; [apply Hw2|by rewrite S3].
Qed.
End Writing.

(** ** Restoring when nothing fails *)

Lemma create_file_calm p d : calm d -> d_tree d !! dir p = Some NDir -> d_tree d !! p = None -> exists d', create_file p d = (d', Ok (d_next d)) /\ calm d'.
Proof. intros Hc Hd Hp. unfold create_file. rewrite bind_attempt_calm by done. unfold is_dir. rewrite bool_decide_eq_true_2, Hp by done. by eexists. Qed.

Lemma restore_copy_calm fuel i rest hashed d : calm d -> (length rest < fuel)%nat ->
  exists d', restore_copy fuel i rest None hashed d = (d', Ok (hashed ++ rest)) /\ calm d'.
Proof.
  revert rest hashed d. induction fuel as [|fuel IH]; intros rest hashed d Hc Hf; [lia|]. cbn [restore_copy]. unfold bind.
  rewrite ctx_err_calm, attempt_calm by done. destruct rest as [|y rest]; [exists d; by rewrite app_nil_r|].
  unfold write_file. rewrite bind_attempt_calm by done. pose proof (copy_shorter y rest).
  destruct (IH (drop copyBufferBytes (y :: rest)) (hashed ++ take copyBufferBytes (y :: rest))
    (set_inodes d (alter (λ f, File (f_data f ++ take copyBufferBytes (y :: rest)) false (d_clock d)) i (d_inodes d)))) as (d' & E & C); [done|lia|].
  exists d'. by rewrite E, <- app_assoc, take_drop.
Qed.

Lemma restore_file_calm p data d : calm d -> d_tree d !! dir p = Some NDir -> d_tree d !! p = None ->
  exists d', restore_file p data None d = (d', Ok data) /\ calm d'.
Proof.
  intros Hc Hd Hp. unfold restore_file, bind, wrap. destruct (create_file_calm p d Hc Hd Hp) as (d1 & -> & C1).
  destruct (restore_copy_calm (S (length data)) (d_next d) data [] d1 C1 ltac:(lia)) as (d2 & -> & C2).
  unfold sync_file. rewrite bind_attempt_calm by done. unfold close_file. rewrite attempt_calm by done. by eexists.
Qed.

Lemma mkdir_below_calm (r : path) (k : list bytes) (t : gmap path node) :
  t !! r = Some NDir -> (forall (q : path) (i : nat), q `suffix_of` k ++ r -> r `suffix_of` q -> t !! q <> Some (NFile i)) ->
  exists t', mkdir_below r k t = Some t' /\ forall q : path, t' !! q = t !! q \/ q `suffix_of` k ++ r.
Proof.
  intros Hr. induction k as [|x k IH]; intros Hk; cbn [mkdir_below].
  { rewrite bool_decide_eq_true_2 by done. exists t. split; [done|by left]. }
  destruct IH as (t1 & E1 & H1); [intros q i Hq; apply Hk; by apply suffix_cons_r|]. rewrite E1. apply mkdir_below_spec in E1 as (_ & M2 & _).
  destruct (t1 !! ((x :: k) ++ r)) as [[i|]|] eqn:Et.
  - exfalso. eapply (Hk _ i); [done|by exists (x :: k)|]. by apply M2.
  - exists t1. split; [done|]. intros q. destruct (H1 q) as [?|?]; [by left|right; by apply suffix_cons_r].
  - eexists. split; [done|]. intros q. destruct (decide (q = (x :: k) ++ r)) as [->|Hq]; [by right|]. rewrite lookup_insert_ne by done.
    destruct (H1 q) as [?|?]; [by left|right; by apply suffix_cons_r].
Qed.

Section Reading.
Context `{!TarLib} `{!TarSpec _} (c : config).

(** Nothing fails, and directories are where those of the objects are. *)
Definition roomy (d : disk) : Prop :=
  calm d /\ d_tree d !! root c = Some NDir /\ forall q, inside (root c) q -> d_tree d !! q = Some NDir -> (length q < 5 + length (root c))%nat.

Lemma free_path d l g : installed c d l -> roomy d -> canonical_digest g -> sha256_prefix ++ g ∉ l.*1 ->
  let p := [g; take 2 (drop 2 g); take 2 g] ++ objectsRoot c in
  d_tree d !! p = None /\ forall q i, q `suffix_of` dir p -> root c `suffix_of` q -> d_tree d !! q <> Some (NFile i).
Proof.
  intros [_ _ Hu _] (_ & _ & Hdirs) Hg Hn p. assert (pathForKey c (sha256_prefix ++ g) = Ok p) as Hp by (unfold pathForKey; by rewrite relativePathForKey_canonical).
  destruct (object_below _ _ _ Hp) as [Hin _]. assert (length p = 5 + length (root c))%nat as Hlen by done. split.
  - destruct (d_tree d !! p) as [[i|]|] eqn:Et; [|apply Hdirs in Et; [lia|done]|done]. destruct (Hu p i (proj1 Hin) Et) as (key & data & Hk & Hkp).
    exfalso. apply Hn. rewrite (pathForKey_inj c _ _ p Hp Hkp). apply (list_elem_of_fmap_2 fst) in Hk. done.
  - intros q i Hq Hr Ht. destruct (Hu q i Hr Ht) as (key & data & _ & (g' & _ & _ & ->)%pathForKey_inv). apply suffix_length in Hq. cbn in Hq. lia.
Qed.

Lemma entry_name_canonical g : canonical_digest g -> entry_name (sha256_prefix ++ g) = archiveObjectPrefix ++ to_slash [g; take 2 (drop 2 g); take 2 g].
Proof. intros Hg. unfold entry_name. by rewrite relativePathForKey_canonical. Qed.

Lemma restore_entry_calm expected g data rest stats d l :
  installed c d l -> roomy d -> canonical_digest g -> sha256_prefix ++ g = Key (ref_of data) -> sha256_prefix ++ g ∉ l.*1 ->
  ar_Objects stats < ar_Objects expected -> ar_Bytes stats + zlen data <= ar_Bytes expected ->
  exists d', restore_entry (root c) expected (entry_name (sha256_prefix ++ g)) true (zlen data) (data ++ rest) stats d =
      (d', Ok (MkStats (ar_Objects stats + 1) (ar_Bytes stats + zlen data))) /\ roomy d' /\ installed c d' ((sha256_prefix ++ g, data) :: l).
Proof.
  intros Hins Hroom Hg Hkey Hnew Ho Hb. destruct (free_path d l g Hins Hroom Hg Hnew) as [Hfree Hfiles]. pose proof (zlen_nonneg data) as Hz.
  assert (exists d', restore_entry (root c) expected (entry_name (sha256_prefix ++ g)) true (zlen data) (data ++ rest) stats d =
      (d', Ok (MkStats (ar_Objects stats + 1) (ar_Bytes stats + zlen data))) /\ roomy d') as (d' & E & Hr).
  2:{ exists d'. split_and!; [done|done|]. rewrite entry_name_canonical in E by done.
      apply (restore_entry_ok c expected _ _ _ _ _ _ _ _ l) in E as (key & rel & _ & Er & _ & _ & Hi); [|done].
      rewrite entry_reference_name in Er by done. injection Er as <- _. rewrite take_app_length' in Hi by (unfold zlen; lia). exact Hi. }
  unfold restore_entry. rewrite (proj2 (Z.ltb_ge _ _)) by lia. cbn [negb orb]. rewrite entry_name_canonical, entry_reference_name by done. cbv zeta.
  rewrite (proj2 (Z.leb_gt _ _)), (proj2 (Z.ltb_ge (_ - _) _)) by lia. cbn [orb].
  rewrite take_app_length' by (unfold zlen; lia). rewrite (proj2 (Z.ltb_ge (zlen data) _)) by lia.
  destruct Hroom as (Hc & Hroot & Hdirs). set (parent := tail _). assert (parent = [take 2 (drop 2 g); take 2 g; str "sha256"; str "objects"]) as Hparent by done.
  set (p := [g; take 2 (drop 2 g); take 2 g] ++ objectsRoot c) in *. assert (parent ++ root c = dir p) as Hdp by done.
  destruct (mkdir_below_calm (root c) parent (d_tree d) Hroot) as (t & Et & Hnewdirs); [by rewrite Hdp|].
  unfold bind at 1, wrap at 1. unfold root_mkdir_all. rewrite bind_attempt_calm, Et by done. apply mkdir_below_spec in Et as (M1 & M2 & M3 & _).
  change (([g; take 2 (drop 2 g); take 2 g] ++ [str "sha256"; str "objects"]) ++ root c) with p.
  assert (root c `suffix_of` dir p) as Hsuf by (rewrite <- Hdp; by eexists).
  assert (t !! p = None) as Htp.
  { destruct (Hnewdirs p) as [->|Hq]; [done|]. rewrite Hdp in Hq. apply suffix_length in Hq. cbn in Hq. lia. }
  destruct (restore_file_calm p data (set_tree d t)) as (d2 & E2 & C2); [done|cbn; apply M3; [by rewrite Hdp|done]|done|].
  unfold bind at 1. rewrite E2, Z.eqb_refl. apply restore_file_ok in E2 as (_ & _ & [_ _ T2 _ _ _ _]). cbn [d_tree set_tree] in T2. cbn [negb].
  rewrite bool_decide_eq_true_2 by done. cbn [negb]. unfold bind, wrap.
  destruct (syncDirectoryTree_calm parent (root c) d2 C2) as (d3 & -> & C3 & T3 & _).
  - intros x Hx ->. rewrite Hparent, !elem_of_cons, elem_of_nil in Hx. destruct Hx as [Hx|[Hx|[Hx|[Hx|[]]]]]; try done;
      (destruct (parts_of_spec g Hg (str "..")) as [_ ?]; [unfold parts_of; rewrite <- Hx, !elem_of_cons; tauto|done]).
  - intros q Hq1 Hq2. rewrite T2. rewrite lookup_insert_ne by (intros <-; apply suffix_length in Hq1; rewrite Hdp in Hq1; cbn in Hq1; lia). by apply M3.
  - exists d3. split; [done|]. split_and!; [done|..]; rewrite T3, T2.
    + rewrite lookup_insert_ne by (intros E%(f_equal length); cbn in E; lia). by apply M1.
    + intros q Hq. destruct (decide (p = q)) as [<-|Hpq]; [by rewrite lookup_insert_eq|]. rewrite lookup_insert_ne by done. intros Ht.
      destruct (Hnewdirs q) as [Hs|Hs]; [rewrite Hs in Ht; by apply Hdirs|]. apply suffix_length in Hs. rewrite Hdp in Hs. cbn in Hs. lia.
Qed.

Lemma forallb_impl {A} (f h : A -> bool) l : (forall x, f x = true -> h x = true) -> forallb f l = true -> forallb h l = true.
Proof. rewrite !forallb_forall. auto. Qed.

Lemma entry_name_fits g (name := entry_name (sha256_prefix ++ g)) :
  canonical_digest g -> (length name <= 100)%nat /\ name <> [] /\ forallb (in_range 33 126) name = true.
Proof.
  intros Hg. unfold name. rewrite entry_name_canonical, slash_parts by done. pose proof (parts_of_spec g Hg) as Hp. destruct Hg as [Hlen _]. split_and!.
  - rewrite !length_app. cbn [length]. rewrite length_app. cbn [length]. rewrite !length_take, length_drop, Hlen. cbn. lia.
  - done.
  - assert (forall x, x ∈ parts_of g -> forallb (in_range 33 126) x = true) as Hx.
    { intros x [_ Hx]%Hp. revert Hx. apply forallb_impl. intros y. unfold lower_hex, in_range. intros Hy. bool_to_prop. lia. }
    rewrite forallb_app. assert (forallb (in_range 33 126) archiveObjectPrefix = true) as -> by done. rewrite forallb_app. cbn [forallb]. rewrite forallb_app. cbn [forallb].
    by rewrite !Hx by (unfold parts_of; rewrite !elem_of_cons; tauto).
Qed.

Lemma total_bytes_nonneg l : 0 <= total_bytes l.
Proof. induction l as [|x l IH]; [done|]. unfold total_bytes in *. cbn [foldr]. pose proof (zlen_nonneg x.2). lia. Qed.

(** Objects as a store has them. *)
Definition objects (l : list (bytes * bytes)) : Prop := NoDup l.*1 /\ forall kv, kv ∈ l -> kv.1 = Key (ref_of kv.2).

Lemma restore_loop_calm expected z l : forall fuel k d,
  installed c d k -> roomy d -> objects (l ++ k) -> sizes_fit l ->
  ar_Objects expected = zlen l + ar_Objects (stats_of k) -> ar_Bytes expected = total_bytes l + ar_Bytes (stats_of k) ->
  (length (packed l) < fuel)%nat ->
  exists d', restore_loop (root c) expected fuel z (packed l) (stats_of k) d = (d', Ok (TarEnd [], stats_of (reverse l ++ k))) /\ roomy d' /\ installed c d' (reverse l ++ k).
Proof.
  induction l as [|[key data] l IH]; intros fuel k d Hins Hroom Hobj Hfit Ho Hb Hf; (destruct fuel as [|fuel]; [lia|]); cbn [restore_loop].
  all: pose proof (proj1 Hroom) as Hc; unfold bind at 1; rewrite ctx_err_calm by done; unfold bind at 1, wrap at 1; rewrite attempt_calm by done.
  { exists d. unfold packed. cbn [fmap list_fmap concat app]. rewrite <- (app_nil_r (zeros 1024)), tar_next_end. done. }
  pose proof Hobj as [Hnd Hkeys]. assert (key = Key (ref_of data)) as Hkey by (apply (Hkeys (key, data)); by left).
  assert (exists g, key = sha256_prefix ++ g /\ canonical_digest g) as (g & -> & Hg) by (eexists; split; [exact Hkey|apply ref_of_canonical]).
  cbn [app fmap list_fmap fst] in Hnd. apply NoDup_cons in Hnd as [Hnew Hnd]. rewrite zlen_cons in Ho. cbn [total_bytes foldr snd] in Hb. fold (total_bytes l) in Hb.
  pose proof (Hfit (sha256_prefix ++ g, data) ltac:(by left)) as Hsize. cbn [snd] in Hsize. pose proof (zlen_nonneg l). pose proof (zlen_nonneg data).
  pose proof (total_bytes_nonneg l).
  assert (packed ((sha256_prefix ++ g, data) :: l) = ustar_header (entry_name (sha256_prefix ++ g)) (zlen data) ++ data ++ zeros (blockPadding (zlen data)) ++ packed l) as Ep.
  { unfold packed. cbn [fmap list_fmap concat]. unfold entry_bytes at 1. cbn [fst snd]. by rewrite <- !app_assoc. }
  destruct (entry_name_fits g Hg) as (N1 & N2 & N3). rewrite Ep in *. rewrite tar_next_header by done.
  destruct (restore_entry_calm expected g data (zeros (blockPadding (zlen data)) ++ packed l) (stats_of k) d k) as (d1 & E1 & R1 & I1); try done; [|lia..|].
  { intros Hin. apply Hnew. rewrite fmap_app, elem_of_app. by right. }
  unfold bind at 1. rewrite E1, (stats_cons (sha256_prefix ++ g)).
  replace (drop _ _) with (packed l).
  2:{ rewrite app_assoc, drop_app_length'; [done|]. unfold zeros. rewrite length_app, length_replicate. unfold zlen. lia. }
  destruct (IH fuel ((sha256_prefix ++ g, data) :: k) d1) as (d2 & E2 & R2 & I2); try done.
  - unfold objects. rewrite fmap_app. split.
    + rewrite fmap_app in Hnd, Hnew. cbn [fmap list_fmap fst]. rewrite <- Permutation_middle. by apply NoDup_cons.
    + intros kv Hin. apply Hkeys. rewrite elem_of_app, elem_of_cons in Hin. cbn [app]. rewrite elem_of_cons, elem_of_app. tauto.
  - intros kv Hin. apply Hfit. by right.
  - rewrite Ho. cbn [stats_of ar_Objects]. rewrite zlen_cons. lia.
  - rewrite Hb. cbn [stats_of ar_Bytes total_bytes foldr snd]. unfold total_bytes. lia.
  - rewrite !length_app, length_ustar_header in Hf by done. lia.
  - exists d2. by rewrite reverse_cons, <- app_assoc.
Qed.

Lemma installed_synced d d' l p : installed c d l -> calm d -> d_tree d !! p = Some NDir -> syncDirectory p d = (d', Ok tt) -> installed c d' l.
Proof.
  intros Hi Hc Hp E. pose proof (quietly_syncDirectory _ _ _ _ E) as (I & N & _). apply syncDirectory_ok in E as (T & _ & _ & K). by eapply installed_kept.
Qed.

Context `{!GzipLib} `{!GzipSpec _}.

Definition trailing : goerr := ENew "content archive contains trailing data".

(** The compressed stream of an archive ends where a window does. *)
Definition aligned (l : list (bytes * bytes)) : bool := zlen (packed l) mod flate_window =? 0.

Lemma restore_body_calm chunks l d :
  installed c d [] -> roomy d -> objects l -> sizes_fit l -> concat chunks = packed l ->
  exists d', restore_body (root c) (stats_of l) (gz_closed chunks) d = (d', if aligned l then Err trailing else Ok (stats_of l)) /\
    (aligned l = false -> installed c d' l).
Proof.
  intros Hins Hroom Hobj Hfit Hch. pose proof (proj1 Hroom) as Hc. unfold restore_body. do 2 (unfold bind at 1, wrap at 1; rewrite attempt_calm by done).
  rewrite <- (app_nil_r (gz_closed chunks)), gz_roundtrip, Hch. cbn [gz_payload gz_error gz_rest].
  destruct (restore_loop_calm (stats_of l) (MkGz (packed l) None None []) l (S (length (packed l))) [] d) as (d1 & E1 & R1 & I1); rewrite ?app_nil_r; try done; [by rewrite Z.add_0_r..|lia|].
  change (MkStats 0 0) with (stats_of []). unfold bind at 1. rewrite E1, app_nil_r. cbn [fst snd].
  rewrite (stats_of_perm _ _ (reverse_Permutation l)), bool_decide_eq_true_2 by done. cbn [negb].
  unfold bind at 1, wrap at 1. rewrite attempt_calm by apply R1. unfold end_noticed. cbn [gz_payload]. fold (aligned l). rewrite !(bool_decide_eq_true_2 ([] = [])) by done. cbn [andb negb].
  rewrite orb_false_r, negb_involutive. destruct (aligned l); [by eexists|]. destruct R1 as (C1 & T1 & _).
  unfold bind, wrap. pose proof (syncDirectory_calm (root c) d1 C1 T1) as E2. rewrite E2. eexists. split; [done|intros _].
  apply (installed_perm _ _ _ _ (reverse_Permutation l)). rewrite app_nil_r in I1. by eapply installed_synced.
Qed.

(** The target is an empty directory, or a name free in a directory. *)
Definition vacant (d : disk) : Prop := fresh_root c d \/ d_tree d !! root c = None /\ d_tree d !! dir (root c) = Some NDir.

(** The error of a refused archive, with the one of the cleanup. *)
Definition refused {A} (x : res A) : Prop := exists e, x = Err e /\ (e = trailing \/ exists e', e = EWrap2 "join" trailing e').

Lemma restore_archive_calm chunks l d d' x :
  calm d -> closed (root c) (d_tree d) -> (forall i, is_Some (d_inodes d !! i) -> (i < d_next d)%nat) -> vacant d ->
  objects l -> sizes_fit l -> concat chunks = packed l -> RestoreArchive (root c) (stats_of l) (gz_closed chunks) d = (d', x) ->
  if aligned l then refused x else x = Ok (stats_of l) /\ installed c d' l.
Proof.
  intros Hc Hcl Hi Hv Hobj Hfit Hch E. unfold RestoreArchive in E. cbn [stats_of ar_Objects ar_Bytes] in E.
  pose proof (zlen_nonneg l). pose proof (total_bytes_nonneg l). rewrite !(proj2 (Z.ltb_ge _ _)) in E by lia. cbn [orb] in E.
  assert (exists existed d1, fresh_root c d1 /\ calm d1 /\ (forall i, is_Some (d_inodes d1 !! i) -> (i < d_next d1)%nat) /\ inspect_root (root c) d = (d, Ok existed) /\
    (if existed : bool then ret tt else wrap (EWrap "create content restore root") (mkdir (root c))) d = (d1, Ok tt)) as (existed & d1 & F1 & C1 & I1 & E1 & E2).
  { unfold inspect_root, stat. rewrite bind_attempt_calm by done. destruct Hv as [[Hr Hn]|[Hr Hd]]; rewrite Hr.
    - exists true, d. split_and!; try done. unfold read_dir. rewrite bind_attempt_calm by done. unfold is_dir. rewrite bool_decide_eq_true_2 by done.
      destruct (entries d (root c)) as [|[name n] k] eqn:Ee; [done|]. exfalso.
      assert ((name, n) ∈ entries d (root c)) as Hin by (rewrite Ee; by left). apply entries_spec in Hin. cbn [fst snd] in Hin.
      rewrite Hn in Hin; [done|]. split; [by apply suffix_cons_r|]. intros El%(f_equal length). cbn in El. lia.
    - exists false, (set_tree d (<[root c := NDir]> (d_tree d))). split_and!; try done.
      + split; cbn; [by rewrite lookup_insert_eq|]. intros p Hp. rewrite lookup_insert_ne by (by destruct Hp). apply (nothing_inside (root c)); [done| |done].
        intros name. destruct (d_tree d !! (name :: root c)) as [m|] eqn:Em; [|done]. assert (d_tree d !! root c = Some NDir); [|congruence].
        apply (Hcl (name :: root c)); [|by eexists]. split; [by apply suffix_cons_r|]. intros El%(f_equal length). cbn in El. lia.
      + unfold wrap, mkdir. rewrite bind_attempt_calm by done. unfold is_dir. by rewrite bool_decide_eq_true_2, Hr. }
  unfold bind at 1 in E. rewrite E1 in E. unfold bind at 1 in E. rewrite E2 in E. unfold bind, wrap in E. rewrite secureDirectory_calm in E by (done || apply F1).
  destruct (restore_body_calm chunks l d1) as (d2 & Hb & Hins); try done; [by apply fresh_installed| |].
  { split_and!; [done|apply F1|]. intros q Hq Ht. by rewrite (proj2 F1 q Hq) in Ht. }
  rewrite Hb in E. destruct (aligned l).
  - destruct (if existed then removeDirectoryContents _ d2 else remove_all _ d2) as [d3 e3]. injection E as <- <-. eexists. split; [done|].
    destruct e3; [right; by eexists|by left].
  - injection E as <- <-. by split; [|apply Hins].
Qed.
End Reading.

Lemma stored_keys d l : (stored_of d l).*1 = Key <$> objects_of d l.
Proof. induction l as [|[parts [i|]] l IH]; [done|..]; unfold stored_of, objects_of in *; cbn; [by f_equal|done]. Qed.

Lemma stored_objects c d : disk_ok c d -> objects (stored_list c d).
Proof.
  intros Hok. split; [unfold stored_list; rewrite stored_keys; by apply (objects_of_listed c d)|].
  intros kv ([parts n] & [_ Ht]%walk_list_spec & Hx)%list_elem_of_omap. cbn [fst snd] in Hx. destruct n as [i|]; [|done]. injection Hx as <-. cbn [fst snd].
  destruct (file_parts c d Hok _ _ Ht) as (g & -> & Hg). destruct (ok_object _ _ Hok _ _ Ht) as (f & Hf & _ & Hp); [by eexists|].
  unfold data_of, file_of. rewrite Hf. apply (pathForKey_inj c _ _ ([g; take 2 (drop 2 g); take 2 g] ++ objectsRoot c)); [|done].
  change (pathForKey c (sha256_prefix ++ g) = Ok ([g; take 2 (drop 2 g); take 2 g] ++ objectsRoot c)). unfold pathForKey. by rewrite relativePathForKey_canonical.
Qed.

(** C7: a backup of the content store can be restored, with one exception.  When
    nothing fails, [WriteArchive] into an empty file packs every object of the
    store once, reports their number and bytes, and hashes what it writes.
    [RestoreArchive] of that file, with the reported statistics, into a vacant
    directory of any disk then installs exactly these objects, durable and under
    their digests, unless the uncompressed archive fills the last 32 KiB window
    of the decompressor: then the reader has not met the end of the compressed
    stream, and the intact archive is refused as one with trailing data. *)
Theorem archive_roundtrip `{!GzipLib} `{!GzipSpec _} `{!TarLib} `{!TarSpec _} (c c' : config) (d d1 : disk) (i : nat) :
  disk_ok c d -> layout_ok c d -> calm d -> private c d i -> (exists f, d_inodes d !! i = Some f /\ f_data f = []) -> sizes_fit (stored_list c d) ->
  calm d1 -> closed (root c') (d_tree d1) -> (forall j, is_Some (d_inodes d1 !! j) -> (j < d_next d1)%nat) -> vacant c' d1 ->
  exists s, WriteArchive c d (HashingWriter i []) = (s, None) /\ aw_stats s = stats_of (stored_list c d) /\
    hw_hashed (aw_dest s) = data_of (aw_disk s) i /\ writes i d (aw_disk s) /\
    forall d2 x, RestoreArchive (root c') (aw_stats s) (data_of (aw_disk s) i) d1 = (d2, x) ->
      if aligned (stored_list c d) then refused x else x = Ok (stats_of (stored_list c d)) /\ installed c' d2 (stored_list c d).
Proof.
  intros Hok Hlay Hc Hpriv Hi Hfit Hc1 Hcl Hn Hv.
  destruct (write_archive_calm c d i Hok Hlay Hpriv Hc Hi Hfit) as (s & chunks & E & Hch & Hh & Hd & Hs & W & _).
  exists s. split_and!; [done|done|congruence|done|]. intros d2 x Er. rewrite Hs, Hd in Er.
  exact (restore_archive_calm c' chunks _ d1 d2 x Hc1 Hcl Hn Hv (stored_objects c d Hok) Hfit Hch Er).
Qed.

(** A store with one message, a file for the archive, and an empty disk. *)
Module Trip.
Definition c : config := ContentStoreSpec.Demo.cfg.
Definition made := create_temp (stagingRoot c) (str "content-") (str ".stage") (st_disk ContentStoreSpec.Demo.one).
Definition d : disk := made.1.
Definition file : nat := match made.2 with Ok (_, i) => i | Err _ => 0%nat end.
Definition c' : config := MkConfig [str "restored"] 1000 4096.
Definition d1 : disk := set_tree ContentStoreSpec.Demo.blank {[ [] := NDir ]}.

Lemma file_spec : disk_ok c d /\ private c d file /\ exists f, d_inodes d !! file = Some f /\ f_data f = [].
Proof.
  assert (exists p, made = (d, Ok (p, file))) as [p E].
  { assert (is_Some (match made.2 with Ok x => Some x | Err _ => None end)) as [[p i] Hx] by (vm_compute; by eexists).
    exists p. unfold d, file. destruct made as [e [[p' i']|]]; [|done]. by injection Hx as <- <-. }
  apply create_temp_spec in E as (Hok & _ & Hp & _ & [f Hf] & Hd & _); [|apply ContentStoreSpec.one_ok]. split_and!; [done|done|].
  exists f. split; [done|]. unfold data_of, file_of in Hd. by rewrite Hf in Hd.
Qed.

Lemma trip_layout : layout_ok c d.
Proof. apply layout_check; vm_compute; reflexivity. Qed.

Lemma stored : stored_list c d = [(Key (ref_of ContentStoreSpec.Demo.hello), ContentStoreSpec.Demo.hello)].
Proof. vm_compute. reflexivity. Qed.

Lemma d1_closed : closed (root c') (d_tree d1).
Proof.
  intros p [Hp Hne] Hs. exfalso. change (d_tree d1) with ({[ [] := NDir ]} : gmap path node) in Hs. destruct (decide (p = [])) as [->|Hn]; [by apply suffix_nil_inv in Hp|].
  rewrite lookup_singleton_ne in Hs by done. by destruct Hs.
Qed.
End Trip.

(** The archive of the message, restored. *)
Definition Trip_source : bytes := data_of (aw_disk (WriteArchive Trip.c Trip.d (HashingWriter Trip.file [])).1) Trip.file.
Definition Trip_restored : disk * res ArchiveStats := RestoreArchive (root Trip.c') (MkStats 1 5) Trip_source Trip.d1.

Lemma restore_archive_safe_witness :
  Trip_restored.2 = Ok (MkStats 1 5) /\ within (root Trip.c') 0 Trip.d1 Trip_restored.1 /\
  exists l, unpacks Trip_source l /\ installed Trip.c' Trip_restored.1 l /\ MkStats 1 5 = stats_of l.
Proof.
  assert (Trip_restored = (Trip_restored.1, Ok (MkStats 1 5))) as E.
  { assert (Trip_restored.2 = Ok (MkStats 1 5)) as E2 by (vm_compute; reflexivity). rewrite <- E2. by destruct Trip_restored. }
  assert (forall j, is_Some (d_inodes Trip.d1 !! j) -> (j < d_next Trip.d1)%nat) as Hn by (intros j [? [=]]).
  destruct (@restore_archive_safe Stored.gzip_lib Stored.tar_lib Trip.c' (MkStats 1 5) Trip_source Trip.d1 Trip_restored.1 (Ok (MkStats 1 5)) Trip.d1_closed Hn E) as [Hw [_ Hl]].
  split_and!; [by rewrite E|exact Hw|exact Hl].
Defined.

Lemma archive_roundtrip_witness : exists s d2,
  WriteArchive Trip.c Trip.d (HashingWriter Trip.file []) = (s, None) /\
  RestoreArchive (root Trip.c') (aw_stats s) (data_of (aw_disk s) Trip.file) Trip.d1 = (d2, Ok (MkStats 1 5)) /\
  installed Trip.c' d2 [(Key (ref_of ContentStoreSpec.Demo.hello), ContentStoreSpec.Demo.hello)].
Proof.
  destruct Trip.file_spec as (Hok & Hp & Hi).
  destruct (@archive_roundtrip Stored.gzip_lib stored_spec Stored.tar_lib ustar_spec Trip.c Trip.c' Trip.d Trip.d1 Trip.file) as (s & E & _ & _ & _ & Hr);
    [exact Hok|apply Trip.trip_layout|vm_compute; reflexivity|exact Hp|exact Hi| |vm_compute; reflexivity|apply Trip.d1_closed| | |].
  - rewrite Trip.stored. intros kv [->|Hn%elem_of_nil]%elem_of_cons; [vm_compute; reflexivity|done].
  - intros j [? [=]].
  - right. vm_compute. by split.
  - exists s. destruct (RestoreArchive _ _ _ _) as [d2 x]. specialize (Hr d2 x eq_refl). exists d2. rewrite Trip.stored in Hr.
    assert (aligned [(Key (ref_of ContentStoreSpec.Demo.hello), ContentStoreSpec.Demo.hello)] = false) as Ha by (vm_compute; reflexivity).
    rewrite Ha in Hr. destruct Hr as [-> Hins]. split_and!; [exact E|vm_compute; reflexivity|exact Hins].
Defined.

(** The exception is met by stores as they are: one message of about thirty
    kilobytes is enough. *)
Lemma one_message_aligned data : 30721 <= zlen data <= 31232 -> aligned [(Key (ref_of data), data)] = true.
Proof.
  intros Hd. unfold aligned, packed, entry_bytes. cbn [fmap list_fmap concat fst snd]. rewrite app_nil_r, !zlen_app. apply Z.eqb_eq.
  destruct (entry_name_fits (hex_encode (sha256 data)) (ref_of_canonical data)) as (Hl & _). unfold zlen at 1. rewrite length_ustar_header by exact Hl.
  assert (zlen (zeros (blockPadding (zlen data))) = 31232 - zlen data) as ->.
  { unfold zlen at 1, zeros. rewrite length_replicate. unfold blockPadding. rewrite Z2Nat.id by div_mod_lia. div_mod_lia. }
  change (zlen (zeros 1024)) with 1024. unfold flate_window. replace (_ + _ + 1024) with 32768 by lia. done.
Qed.
