(* ===== verification/Mail.v ===== *)
(** * Parsed mail: the values of [internal/mail/model.go] *)

From S2P Require Import Prelude GoStrings Errors.

Definition ParserRevision : Z := 1.

Record Address := MkAddress { ad_Name : bytes; ad_Address : bytes }.

Record Attachment := MkAttachment {
  at_PartPath : bytes;
  at_FileName : bytes;
  at_ContentType : bytes;
  at_Disposition : bytes;
  at_ContentID : bytes;
  at_SizeBytes : Z
}.

Inductive WarningCode : Type :=
| WarningUnknownCharset | WarningUnknownTransferEncoding | WarningMalformedContentType
| WarningMalformedDisposition | WarningInvalidSubject | WarningInvalidAddress | WarningInvalidDate
| WarningTextTruncated | WarningHTMLTruncated | WarningFilenameNormalized | WarningListTruncated.

Record Warning := MkWarning { wn_Code : WarningCode; wn_PartPath : bytes; wn_Detail : bytes }.

Record ParsedMessage := MkParsedMessage {
  pm_Subject : bytes;
  pm_MessageID : bytes;
  pm_From : list Address;
  pm_To : list Address;
  pm_Cc : list Address;
  pm_Date : option Z;
  pm_Text : bytes;
  pm_HTMLSource : bytes;
  pm_Attachments : list Attachment;
  pm_Warnings : list Warning
}.

#[global] Instance Address_eq_dec : EqDecision Address.
Proof. solve_decision. Defined.
#[global] Instance Attachment_eq_dec : EqDecision Attachment.
Proof. solve_decision. Defined.
#[global] Instance WarningCode_eq_dec : EqDecision WarningCode.
Proof. solve_decision. Defined.
#[global] Instance Warning_eq_dec : EqDecision Warning.
Proof. solve_decision. Defined.
