(* ===== verification/Database.v ===== *)
(** * The relational state

    The tables of migrations/*.sql as maps from primary keys, the statements'
    effects as functions on them, and transactions.  A repository method runs
    as one atomic transaction: the row locks the code takes serialise the
    conflicting ones.  Any statement may fail ([db_oracle]), and a failed
    commit may or may not have taken effect. *)

From S2P Require Import Prelude GoStrings Errors Codec Uuid FileSystem Message Mail.

(** [timestamptz] has microseconds; the driver truncates. *)
Definition pg_time (t : Z) : Z := t / 1000 * 1000.

(** A UUID in a table is its sixteen bytes. *)
Abbreviation uuid := bytes.

Inductive inbox_status : Type := Active | Expired | Disabled.

#[global] Instance inbox_status_eq_dec : EqDecision inbox_status.
Proof. solve_decision. Defined.

Record inbox_row := InboxRow {
  in_address : bytes; in_status : inbox_status; in_expires : Z; in_created : Z; in_updated : Z
}.

Inductive parse_status : Type := Pending | Processing | Parsed | Failed.

#[global] Instance parse_status_eq_dec : EqDecision parse_status.
Proof. solve_decision. Defined.

Record content_row := ContentRow {
  ct_size : Z; ct_created : Z; ct_status : parse_status; ct_attempts : Z; ct_available : Z;
  ct_token : option uuid; ct_until : option Z; ct_error : option bytes; ct_updated : Z
}.

Record message_row := MessageRow {
  ms_inbox : uuid; ms_content : bytes; ms_sender : bytes; ms_received : Z; ms_created : Z; ms_seen : option Z
}.

Record parse_row := ParseRow { pr_revision : Z; pr_message : ParsedMessage; pr_parsed : Z }.

Record capability_row := CapabilityRow {
  cp_inbox : uuid; cp_kid : bytes; cp_digest : bytes; cp_scope : Z; cp_created : Z; cp_expires : Z;
  cp_used : option Z; cp_revoked : option Z; cp_from : option uuid
}.

Record deletion_row := DeletionRow { dl_size : Z; dl_generation : Z; dl_enqueued : Z }.

Record db := Db {
  inboxes : gmap uuid inbox_row;
  contents : gmap bytes content_row;
  messages : gmap uuid message_row;
  parses : gmap bytes parse_row;
  capabilities : gmap uuid capability_row;
  deletions : gmap bytes deletion_row;
  quotas : gmap (bytes * Z) Z;             (* identity digest and day *)
  db_now : Z;                              (* the transaction's [now()] *)
  db_next : nat;                           (* the next [uuidv7()] *)
  db_cleanup_busy : bool;                  (* another session holds the cleanup advisory lock *)
  db_oracle : list (option goerr)
}.

Definition set_inboxes (d : db) (m : gmap uuid inbox_row) : db :=
  Db m (contents d) (messages d) (parses d) (capabilities d) (deletions d) (quotas d) (db_now d) (db_next d)
    (db_cleanup_busy d) (db_oracle d).
Definition set_contents (d : db) (m : gmap bytes content_row) : db :=
  Db (inboxes d) m (messages d) (parses d) (capabilities d) (deletions d) (quotas d) (db_now d) (db_next d)
    (db_cleanup_busy d) (db_oracle d).
Definition set_messages (d : db) (m : gmap uuid message_row) : db :=
  Db (inboxes d) (contents d) m (parses d) (capabilities d) (deletions d) (quotas d) (db_now d) (db_next d)
    (db_cleanup_busy d) (db_oracle d).
Definition set_parses (d : db) (m : gmap bytes parse_row) : db :=
  Db (inboxes d) (contents d) (messages d) m (capabilities d) (deletions d) (quotas d) (db_now d) (db_next d)
    (db_cleanup_busy d) (db_oracle d).
Definition set_capabilities (d : db) (m : gmap uuid capability_row) : db :=
  Db (inboxes d) (contents d) (messages d) (parses d) m (deletions d) (quotas d) (db_now d) (db_next d)
    (db_cleanup_busy d) (db_oracle d).
Definition set_deletions (d : db) (m : gmap bytes deletion_row) : db :=
  Db (inboxes d) (contents d) (messages d) (parses d) (capabilities d) m (quotas d) (db_now d) (db_next d)
    (db_cleanup_busy d) (db_oracle d).
Definition set_quotas (d : db) (m : gmap (bytes * Z) Z) : db :=
  Db (inboxes d) (contents d) (messages d) (parses d) (capabilities d) (deletions d) m (db_now d) (db_next d)
    (db_cleanup_busy d) (db_oracle d).
Definition set_next (d : db) (n : nat) : db :=
  Db (inboxes d) (contents d) (messages d) (parses d) (capabilities d) (deletions d) (quotas d) (db_now d) n
    (db_cleanup_busy d) (db_oracle d).
Definition set_db_oracle (d : db) (l : list (option goerr)) : db :=
  Db (inboxes d) (contents d) (messages d) (parses d) (capabilities d) (deletions d) (quotas d) (db_now d)
    (db_next d) (db_cleanup_busy d) l.

Definition set_now (d : db) (now : Z) : db :=
  Db (inboxes d) (contents d) (messages d) (parses d) (capabilities d) (deletions d) (quotas d) now (db_next d)
    (db_cleanup_busy d) (db_oracle d).

(** ** Statements and transactions *)

Definition DB (A : Type) : Type := db -> db * res A.

Definition dret {A} (a : A) : DB A := λ d, (d, Ok a).
Definition dthrow {A} (e : goerr) : DB A := λ d, (d, Err e).
Definition dbind {A B} (m : DB A) (k : A -> DB B) : DB B := λ d,
  match m d with
  | (d', Ok a) => k a d'
  | (d', Err e) => (d', Err e)
  end.

Notation "x <-- m ;; k" := (dbind m (λ x, k))
  (at level 100, m at next level, right associativity, only parsing) : mailwisp_scope.
Notation "m ;;* k" := (dbind m (λ _, k)) (at level 100, right associativity, only parsing) : mailwisp_scope.

(** A statement that reaches the server, or fails with a wrapped error. *)
Definition statement (text : string) : DB unit := λ d,
  match db_oracle d with
  | [] => (d, Ok tt)
  | None :: l => (set_db_oracle d l, Ok tt)
  | Some e :: l => (set_db_oracle d l, Err (EWrap text e))
  end.

Definition query {A} (text : string) (f : db -> A) : DB A :=
  statement text ;;* λ d, (d, Ok (f d)).

Definition exec (text : string) (f : db -> db) : DB unit :=
  statement text ;;* λ d, (f d, Ok tt).

(** The state before a transaction, with the failures it met consumed. *)
Definition rollback (d d' : db) : db := set_db_oracle d (db_oracle d').

(** [BeginTx ... Commit] with the deferred rollback: a failed commit either
    did not happen or happened without its acknowledgement arriving. *)
Definition transaction {A} (begin_text commit_text : string) (m : DB A) : DB A := λ d,
  match statement begin_text d with
  | (d1, Err e) => (d1, Err e)
  | (d1, Ok _) =>
    match m d1 with
    | (d2, Err e) => (rollback d d2, Err e)
    | (d2, Ok a) =>
      match statement commit_text d2 with
      | (d3, Err e) => (rollback d d3, Err e)
      | (d3, Ok _) =>
        match statement commit_text d3 with
        | (d4, Err e) => (d4, Err e)
        | (d4, Ok _) => (d4, Ok a)
        end
      end
    end
  end.

(** [uuidv7()]: identifiers that were never used. *)
Definition new_uuid (d : db) : uuid := be_encode 16 (Z.of_nat (db_next d)).

(** An inbox that can be used at the transaction's time. *)
Definition inbox_live (d : db) (id : uuid) : bool :=
  match inboxes d !! id with
  | Some r => bool_decide (in_status r = Active) && (db_now d <? in_expires r)
  | None => false
  end.

Definition messages_of (d : db) (id : uuid) : list (uuid * message_row) :=
  filter (λ kv, ms_inbox kv.2 = id) (map_to_list (messages d)).

Definition size_of (d : db) (key : bytes) : Z :=
  match contents d !! key with Some r => ct_size r | None => 0 end.

(** [count(message.id)] and [sum(content.size_bytes)] of one inbox. *)
Definition usage_of (d : db) (id : uuid) : Z * Z :=
  let l := messages_of d id in
  (zlen l, foldr Z.add 0 ((λ kv, size_of d (ms_content kv.2)) <$> l)).

Definition referenced (d : db) (key : bytes) : bool :=
  existsb (λ kv : uuid * message_row, bool_decide (ms_content kv.2 = key)) (map_to_list (messages d)).

(** [DELETE FROM inboxes WHERE id = ANY(ids)] with its cascades. *)
Definition delete_inboxes (ids : list uuid) (d : db) : db :=
  let gone := filter (λ kv : uuid * message_row, ms_inbox kv.2 ∉ ids) (messages d) in
  let caps := filter (λ kv : uuid * capability_row, cp_inbox kv.2 ∉ ids) (capabilities d) in
  set_capabilities (set_messages (set_inboxes d (filter (λ kv : uuid * inbox_row, kv.1 ∉ ids) (inboxes d))) gone) caps.

(** [DELETE FROM mail_contents ... NOT EXISTS (messages)], cascading to the
    parse; whether a row was deleted. *)
Definition delete_unreferenced_content (key : bytes) (d : db) : db * bool :=
  match contents d !! key with
  | None => (d, false)
  | Some _ =>
    if referenced d key then (d, false)
    else (set_parses (set_contents d (delete key (contents d))) (delete key (parses d)), true)
  end.

(** ** Integrity *)

Definition ref_integrity (d : db) : Prop :=
  (forall id m, messages d !! id = Some m -> is_Some (inboxes d !! ms_inbox m) /\ is_Some (contents d !! ms_content m)) /\
  (forall key p, parses d !! key = Some p -> is_Some (contents d !! key)) /\
  (forall id p, capabilities d !! id = Some p -> is_Some (inboxes d !! cp_inbox p)).

Definition content_check (key : bytes) (r : content_row) : Prop :=
  ContentRef_Validate (MkContentRef key (ct_size r)) = None /\ 0 <= ct_attempts r /\
  (ct_status r = Processing <-> is_Some (ct_token r)) /\ (is_Some (ct_token r) <-> is_Some (ct_until r)) /\
  (ct_status r = Parsed -> ct_error r = None) /\ (ct_status r = Failed -> is_Some (ct_error r)).

Record db_ok (d : db) : Prop := {
  ok_refs : ref_integrity d;
  ok_contents : forall key r, contents d !! key = Some r -> content_check key r;
  ok_addresses : forall i j r s, inboxes d !! i = Some r -> inboxes d !! j = Some s ->
    in_address r = in_address s -> i = j;
  ok_kids : forall i j r s, capabilities d !! i = Some r -> capabilities d !! j = Some s ->
    cp_kid r = cp_kid s -> i = j;
  ok_rotations : forall i j r s x, capabilities d !! i = Some r -> capabilities d !! j = Some s ->
    cp_from r = Some x -> cp_from s = Some x -> i = j;
  ok_scopes : forall id p, capabilities d !! id = Some p ->
    0 < cp_scope p /\ Z.land (cp_scope p) 31 = cp_scope p /\ length (cp_digest p) = 32%nat;
  ok_deletions : forall key r, deletions d !! key = Some r ->
    ContentRef_Validate (MkContentRef key (dl_size r)) = None /\ 0 < dl_generation r;
  ok_quotas : forall k n, quotas d !! k = Some n -> 0 < n
}.
