(* ===== verification/DatabaseFacts.v ===== *)
(** * Facts on the relational state: transactions, usage and integrity *)

From S2P Require Import Prelude GoStrings Errors Codec Uuid FileSystem Message Mail Database.

(** ** The order of keys and identifiers *)

Lemma bytes_leb_refl a : bytes_leb a a = true.
Proof. induction a as [|x a IH]; [done|]. cbn. by rewrite Z.ltb_irrefl, Z.eqb_refl, IH. Qed.

Lemma bytes_leb_cons x a y b :
  bytes_leb (x :: a) (y :: b) = true <-> code x < code y \/ x = y /\ bytes_leb a b = true.
Proof.
  cbn. rewrite orb_true_iff, andb_true_iff, Z.ltb_lt, Z.eqb_eq. split; [|intros [?|[-> ?]]; auto].
  intros [?|[?%code_inj ?]]; auto.
Qed.

Lemma bytes_leb_total a b : bytes_leb a b = true \/ bytes_leb b a = true.
Proof.
  revert b. induction a as [|x a IH]; intros [|y b]; auto. rewrite !bytes_leb_cons.
  destruct (Z.lt_trichotomy (code x) (code y)) as [?|[?%code_inj|?]]; [tauto| |tauto].
  subst. destruct (IH b); tauto.
Qed.

Lemma bytes_leb_trans a b c : bytes_leb a b = true -> bytes_leb b c = true -> bytes_leb a c = true.
Proof.
  revert b c. induction a as [|x a IH]; intros [|y b] [|z c]; try done. rewrite !bytes_leb_cons.
  intros [?|[-> H1]] [?|[-> H2]]; [left; lia|by left|by left|right]. split; [done|]. by eapply IH.
Qed.

Lemma bytes_leb_antisym a b : bytes_leb a b = true -> bytes_leb b a = true -> a = b.
Proof.
  revert b. induction a as [|x a IH]; intros [|y b]; try done. rewrite !bytes_leb_cons.
  intros [?|[-> H1]] [?|[? H2]]; try lia; subst; try lia. f_equal. by apply IH.
Qed.

(** ** Two states with the same tables *)

Record same_tables (d d' : db) : Prop := {
  sm_inboxes : inboxes d' = inboxes d;
  sm_contents : contents d' = contents d;
  sm_messages : messages d' = messages d;
  sm_parses : parses d' = parses d;
  sm_capabilities : capabilities d' = capabilities d;
  sm_deletions : deletions d' = deletions d;
  sm_quotas : quotas d' = quotas d;
  sm_now : db_now d' = db_now d
}.

#[global] Instance same_tables_equiv : Equivalence same_tables.
Proof.
  split.
  - intros d. by split.
  - intros d d' []. by split.
  - intros d1 d2 d3 [] []. split; congruence.
Qed.

Lemma statement_same t d d' r : statement t d = (d', r) -> same_tables d d' /\ db_next d' = db_next d.
Proof. unfold statement. destruct (db_oracle d) as [|[e|] l]; intros [= <- <-]; (split; [by split|done]). Qed.

Lemma statement_busy t d d' r : statement t d = (d', r) -> db_cleanup_busy d' = db_cleanup_busy d.
Proof. unfold statement. by destruct (db_oracle d) as [|[e|] l]; intros [= <- <-]. Qed.

Lemma statement_calm t d : db_oracle d = [] -> statement t d = (d, Ok tt).
Proof. unfold statement. by intros ->. Qed.

Lemma query_calm {A} t (f : db -> A) d : db_oracle d = [] -> query t f d = (d, Ok (f d)).
Proof. intros Hd. unfold query, dbind. by rewrite statement_calm. Qed.

Lemma rollback_same d d' : same_tables d (rollback d d').
Proof. by split. Qed.

Lemma dbind_inv {A B} (m : DB A) (k : A -> DB B) d d' r :
  dbind m k d = (d', r) ->
  (exists d1 a, m d = (d1, Ok a) /\ k a d1 = (d', r)) \/ (exists e, m d = (d', Err e) /\ r = Err e).
Proof. unfold dbind. destruct (m d) as [d1 [a|e]]; [eauto|]. intros [= <- <-]. eauto. Qed.

Lemma query_inv {A} t (f : db -> A) d d' r :
  query t f d = (d', r) -> same_tables d d' /\ db_next d' = db_next d /\
    (r = Ok (f d') \/ exists e, r = Err e).
Proof.
  intros [(d1 & ? & E & H)|(e & E & ->)]%dbind_inv; apply statement_same in E as [S N]; [|by eauto].
  injection H as <- <-. eauto.
Qed.

(** A transaction either leaves the tables alone or has the effect of its
    body; it reports success only in the second case. *)
Lemma transaction_inv {A} bt ct (m : DB A) d d' r :
  transaction bt ct m d = (d', r) ->
  same_tables d d' /\ (exists e, r = Err e) \/
  exists d1 d2 a, same_tables d d1 /\ (db_next d1 = db_next d /\ db_cleanup_busy d1 = db_cleanup_busy d) /\ m d1 = (d2, Ok a) /\ same_tables d2 d' /\
    db_next d' = db_next d2 /\ (r = Ok a \/ exists e, r = Err e).
Proof.
  unfold transaction. destruct (statement bt d) as [d1 [u|e]] eqn:E1; pose proof (statement_busy _ _ _ _ E1) as B1;
    apply statement_same in E1 as [S1 N1].
  2:{ intros [= <- <-]. left. eauto. }
  destruct (m d1) as [d2 [a|e]] eqn:E2.
  2:{ intros [= <- <-]. left. split; [apply rollback_same|eauto]. }
  destruct (statement ct d2) as [d3 [u3|e]] eqn:E3; apply statement_same in E3 as [S3 N3].
  2:{ intros [= <- <-]. left. split; [apply rollback_same|eauto]. }
  destruct (statement ct d3) as [d4 [u4|e]] eqn:E4; apply statement_same in E4 as [S4 N4];
    intros [= <- <-]; right; exists d1, d2, a; (split; [done|]); (split; [done|]); (split; [done|]);
    (split; [by etrans|]); (split; [congruence|]); eauto.
Qed.

(** ** Usage *)

Lemma messages_of_same d d' id : messages d' = messages d -> messages_of d' id = messages_of d id.
Proof. unfold messages_of. by intros ->. Qed.

Lemma foldr_add_perm l1 l2 : l1 ≡ₚ l2 -> foldr Z.add 0 l1 = foldr Z.add 0 l2.
Proof. induction 1; cbn; lia. Qed.

Lemma usage_sum_same d d' l :
  (forall kv, kv ∈ l -> size_of d' (ms_content kv.2) = size_of d (ms_content kv.2)) ->
  foldr Z.add 0 ((λ kv : uuid * message_row, size_of d' (ms_content kv.2)) <$> l) =
  foldr Z.add 0 ((λ kv : uuid * message_row, size_of d (ms_content kv.2)) <$> l).
Proof.
  induction l as [|kv l IH]; [done|]. intros H. cbn. rewrite (H kv) by (by left). f_equal. apply IH.
  intros x Hx. apply H. by right.
Qed.

Lemma usage_insert d k m id :
  messages d !! k = None ->
  usage_of (set_messages d (<[k := m]> (messages d))) id =
  if decide (ms_inbox m = id)
  then ((usage_of d id).1 + 1, (usage_of d id).2 + size_of d (ms_content m)) else usage_of d id.
Proof.
  intros Hk. unfold usage_of, messages_of. cbn [set_messages messages].
  pose proof (map_to_list_insert (messages d) k m Hk) as HP.
  assert (filter (λ kv : uuid * message_row, ms_inbox kv.2 = id) (map_to_list (<[k:=m]> (messages d))) ≡ₚ
    filter (λ kv : uuid * message_row, ms_inbox kv.2 = id) ((k, m) :: map_to_list (messages d))) as HF by (by rewrite HP).
  change (λ kv : uuid * message_row, size_of (set_messages d (<[k:=m]> (messages d))) (ms_content kv.2))
    with (λ kv : uuid * message_row, size_of d (ms_content kv.2)).
  unfold zlen. rewrite (Permutation_length HF).
  rewrite (foldr_add_perm _ _ (fmap_Permutation (λ kv : uuid * message_row, size_of d (ms_content kv.2)) _ _ HF)).
  rewrite filter_cons. cbn [snd]. case_decide; [|done]. cbn. f_equal; lia.
Qed.

(** Losing messages lowers the usage of every inbox. *)
Lemma usage_subset d d' id :
  messages d' ⊆ messages d -> (forall key, 0 <= size_of d key) ->
  (forall k m, messages d' !! k = Some m -> size_of d' (ms_content m) = size_of d (ms_content m)) ->
  (usage_of d' id).1 <= (usage_of d id).1 /\ (usage_of d' id).2 <= (usage_of d id).2.
Proof.
  intros Hsub Hpos Hsz. unfold usage_of. cbn [fst snd].
  rewrite (usage_sum_same d d' (messages_of d' id)).
  2:{ intros [k m] Hin. apply (Hsz k). unfold messages_of in Hin.
      apply list_elem_of_filter in Hin as [_ Hin]. by apply elem_of_map_to_list in Hin. }
  assert (messages_of d' id ⊆+ messages_of d id) as Hs.
  { apply NoDup_submseteq.
    - apply NoDup_filter, NoDup_map_to_list.
    - intros [k m]. unfold messages_of. rewrite !list_elem_of_filter, !elem_of_map_to_list.
      intros [H1 H2]. split; [done|]. by eapply lookup_weaken. }
  split; [unfold zlen; apply submseteq_length in Hs; lia|].
  apply (fmap_submseteq (λ kv : uuid * message_row, size_of d (ms_content kv.2))) in Hs.
  revert Hs. generalize ((λ kv : uuid * message_row, size_of d (ms_content kv.2)) <$> messages_of d' id).
  assert (Forall (λ z, 0 <= z) ((λ kv : uuid * message_row, size_of d (ms_content kv.2)) <$> messages_of d id)) as Hall.
  { apply Forall_fmap, Forall_forall. intros kv _. apply Hpos. }
  revert Hall. generalize ((λ kv : uuid * message_row, size_of d (ms_content kv.2)) <$> messages_of d id).
  intros l Hall l' [k Hk]%submseteq_Permutation. rewrite (foldr_add_perm _ _ Hk), foldr_app.
  assert (Forall (λ z, 0 <= z) k) as Hkpos by (rewrite Hk in Hall; by apply Forall_app in Hall as [_ ?]).
  assert (0 <= foldr Z.add 0 k) as Hge by (clear Hk Hall; induction Hkpos; cbn; lia).
  clear Hk Hall. induction l'; cbn; lia.
Qed.

Lemma usage_same d d' id : same_tables d d' -> usage_of d' id = usage_of d id.
Proof.
  intros []. unfold usage_of, messages_of, size_of. by rewrite sm_messages0, sm_contents0.
Qed.

Lemma inbox_live_same d d' id : same_tables d d' -> inbox_live d' id = inbox_live d id.
Proof. intros []. unfold inbox_live. by rewrite sm_inboxes0, sm_now0. Qed.

Lemma same_tables_ok d d' : same_tables d d' -> db_ok d -> db_ok d'.
Proof.
  destruct d, d'. intros []. cbn in *. subst. intros [R C A K O S D Q]. by split.
Qed.
