(* ===== verification/DeliveryRepo.v ===== *)
(** * Committing deliveries: [internal/postgres/delivery_repository.go]

    Recipient resolution, the locked quota check and the transaction that
    creates one message per recipient. *)

From S2P Require Import Prelude GoStrings Errors Codec Uuid FileSystem Message Mail Database DatabaseFacts.

Record DeliveryLimits := MkDeliveryLimits { MaxInboxMessages : Z; MaxInboxStorageBytes : Z }.

(** The repository: [None] when limits are not enforced. *)
Abbreviation limits_opt := (option DeliveryLimits).

Definition NewDeliveryRepositoryWithLimits (l : DeliveryLimits) : res limits_opt :=
  if (MaxInboxMessages l <=? 0) || (MaxInboxStorageBytes l <=? 0)
  then Err (ENew "delivery Inbox limits must be positive") else Ok (Some l).

(** The row of an address, whatever its state. *)
Definition find_address (d : db) (address : bytes) : option (uuid * inbox_row) :=
  list_find (λ kv : uuid * inbox_row, in_address kv.2 = address) (map_to_list (inboxes d)) ≫= λ x, Some x.2.

Definition live_address (d : db) (address : bytes) : option uuid :=
  match find_address d address with
  | Some (id, _) => if inbox_live d id then Some id else None
  | None => None
  end.

(** The schema version the binary requires. *)
Definition LatestVersion : Z := 8.

(** [Ready] on a database whose schema has the version [schema]. *)
Definition Ready (schema : Z) : DB unit :=
  version <-- query "read postgres schema version" (λ _, schema) ;;
  if negb (version =? LatestVersion) then dthrow (ENew "postgres schema version differs") else dret tt.

Section Repo.
Context `{!UUIDLib} (limits : limits_opt).

Definition resolveInbox (address : bytes) : DB InboxID :=
  found <-- query "resolve inbox by address" (λ d, live_address d address) ;;
  match found with
  | None => dthrow (ESentinel ErrInboxNotFound)
  | Some id => dret (uuid_string id)
  end.

Definition ResolveInboxForDelivery (address : bytes) (declaredSize : Z) : DB InboxID :=
  if declaredSize <? 0 then dthrow (ESentinel ErrInvalidDelivery)
  else match limits with
  | None => resolveInbox address
  | Some l =>
    found <-- query "resolve Inbox quota by address"
      (λ d, (λ id, (id, usage_of d id)) <$> live_address d address) ;;
    match found with
    | None => dthrow (ESentinel ErrInboxNotFound)
    | Some (id, (messageCount, storageBytes)) =>
      if MaxInboxMessages l <=? messageCount then dthrow (ESentinel ErrInboxMessageQuotaExceeded)
      else if (MaxInboxStorageBytes l <=? storageBytes) || (MaxInboxStorageBytes l - storageBytes <? declaredSize)
        then dthrow (ESentinel ErrInboxStorageQuotaExceeded)
      else dret (uuid_string id)
    end
  end.

(** [ResolveInbox] *)
Definition ResolveInbox (address : bytes) : DB InboxID := ResolveInboxForDelivery address 0.

(** The rows [SELECT ... FOR UPDATE] locks. *)
Definition locked_rows (d : db) (ids : list uuid) : list uuid :=
  fst <$> map_to_list (filter (λ kv : uuid * inbox_row, kv.1 ∈ ids /\ inbox_live d kv.1 = true) (inboxes d)).

(** The [GROUP BY inbox_id] usage rows, keyed by the identifier's text. *)
Definition usage_rows (d : db) (ids : list uuid) : gmap bytes (Z * Z) :=
  list_to_map (omap (λ id, match messages_of d id with [] => None | _ => Some (uuid_string id, usage_of d id) end) ids).

Fixpoint check_quotas (l : DeliveryLimits) (byInbox : gmap bytes (Z * Z)) (size : Z) (recipients : list InboxID) : option goerr :=
  match recipients with
  | [] => None
  | inboxID :: rest =>
    let '(messageCount, storageBytes) := default (0, 0) (byInbox !! inboxID) in
    if MaxInboxMessages l <=? messageCount then Some (ESentinel ErrInboxMessageQuotaExceeded)
    else if MaxInboxStorageBytes l - storageBytes <? size then Some (ESentinel ErrInboxStorageQuotaExceeded)
    else check_quotas l byInbox size rest
  end.

Definition lockAndCheckDeliveryRecipients (delivery : Delivery) : DB unit :=
  match mapM uuid_parse (d_Recipients delivery) with
  | None => dthrow (ESentinel ErrInvalidDelivery)
  | Some recipientUUIDs =>
    locked <-- query "lock delivery recipients" (λ d, locked_rows d recipientUUIDs) ;;
    if negb (zlen locked =? zlen (d_Recipients delivery)) then dthrow (ESentinel ErrInboxNotFound)
    else match limits with
    | None => dret tt
    | Some l =>
      byInbox <-- query "read delivery recipient quotas" (λ d, usage_rows d recipientUUIDs) ;;
      match check_quotas l byInbox (SizeBytes (d_Content delivery)) (d_Recipients delivery) with
      | Some e => dthrow e
      | None => dret tt
      end
    end
  end.

(** A foreign-key violation (23503) is reported as a missing inbox. *)
Definition mapDeliveryError (foreign_key : bool) (e : goerr) : goerr :=
  if foreign_key then EWrap "messages foreign key" ErrInboxNotFound else EWrap "insert recipient message" e.

(** [INSERT INTO mail_contents ... ON CONFLICT DO NOTHING]; the rows affected. *)
Definition insert_content (ref : ContentRef) : DB Z :=
  statement "insert content metadata" ;;* λ d,
    match contents d !! Key ref with
    | Some _ => (d, Ok 0)
    | None =>
      (set_contents d (<[Key ref := ContentRow (SizeBytes ref) (pg_time (db_now d)) Pending 0 (pg_time (db_now d))
         None None None (pg_time (db_now d))]> (contents d)), Ok 1)
    end.

(** [INSERT INTO messages ... RETURNING id] for one recipient. *)
Definition insert_message (delivery : Delivery) (inboxID : InboxID) : DB StoredMessage :=
  λ d, match statement "insert recipient message" d with
  | (d, Err e) => (d, Err e)
  | (d, Ok _) =>
    match uuid_parse inboxID with
    | None => (d, Err (mapDeliveryError false (ENew "invalid input syntax for type uuid")))
    | Some inbox =>
      if negb (bool_decide (is_Some (inboxes d !! inbox)) && bool_decide (is_Some (contents d !! Key (d_Content delivery))))
      then (d, Err (mapDeliveryError true (ENew "23503")))
      else match messages d !! new_uuid d with
      | Some _ => (d, Err (mapDeliveryError false (ENew "23505")))
      | None =>
        (set_next (set_messages d (<[new_uuid d := MessageRow inbox (Key (d_Content delivery)) (d_EnvelopeSender delivery)
            (pg_time (d_ReceivedAt delivery)) (pg_time (db_now d)) None]> (messages d))) (S (db_next d)),
         Ok (MkStoredMessage (uuid_string (new_uuid d)) inboxID))
      end
    end
  end.

Fixpoint insert_messages (delivery : Delivery) (recipients : list InboxID) : DB (list StoredMessage) :=
  match recipients with
  | [] => dret []
  | inboxID :: rest =>
    stored <-- insert_message delivery inboxID ;;
    more <-- insert_messages delivery rest ;;
    dret (stored :: more)
  end.

(** The body of the delivery transaction. *)
Definition commit_body (delivery : Delivery) : DB (list StoredMessage) :=
  lockAndCheckDeliveryRecipients delivery ;;*
  affected <-- insert_content (d_Content delivery) ;;
  conflict <-- (if affected =? 0 then
      existing <-- query "read existing content metadata" (λ d, contents d !! Key (d_Content delivery)) ;;
      match existing with
      | None => dthrow (EWrap "read existing content metadata" PgxErrNoRows)
      | Some r => dret (negb (ct_size r =? SizeBytes (d_Content delivery)))
      end
    else dret false) ;;
  (if conflict : bool then dthrow (EWrap "key has another size" ErrContentMetadataConflict)
   else insert_messages delivery (d_Recipients delivery)).

(** [DeliveryRepository.CommitDelivery] *)
Definition CommitDelivery (delivery : Delivery) : DB (list StoredMessage) :=
  match Delivery_Validate delivery with
  | Some e => dthrow e
  | None => transaction "begin delivery transaction" "commit delivery transaction" (commit_body delivery)
  end.
End Repo.

(** ** What a committed delivery did *)

Record inserts (d d' : db) (new : list (uuid * message_row)) : Prop := {
  is_inboxes : inboxes d' = inboxes d;
  is_contents : contents d' = contents d;
  is_parses : parses d' = parses d;
  is_capabilities : capabilities d' = capabilities d;
  is_deletions : deletions d' = deletions d;
  is_quotas : quotas d' = quotas d;
  is_now : db_now d' = db_now d;
  is_messages : messages d' = list_to_map new ∪ messages d;
  is_nodup : NoDup new.*1;
  is_fresh : forall k, k ∈ new.*1 -> messages d !! k = None
}.

Section Facts.
Context `{!UUIDLib}.

(** The row a delivery creates for the inbox [u]. *)
Definition is_row (delivery : Delivery) (u : uuid) (now : Z) (m : message_row) : Prop :=
  m = MessageRow u (Key (d_Content delivery)) (d_EnvelopeSender delivery) (pg_time (d_ReceivedAt delivery)) (pg_time now) None.

Definition stored_as (r : InboxID) (kv : uuid * message_row) : StoredMessage := MkStoredMessage (uuid_string kv.1) r.

Lemma insert_message_ok delivery r d d' sm :
  insert_message delivery r d = (d', Ok sm) ->
  exists u m, uuid_parse r = Some u /\ is_row delivery u (db_now d) m /\ is_Some (inboxes d !! u) /\
    is_Some (contents d !! Key (d_Content delivery)) /\ inserts d d' [(new_uuid d, m)] /\ sm = stored_as r (new_uuid d, m).
Proof.
  unfold insert_message. destruct (statement _ d) as [d1 [u0|e]] eqn:E; [|done].
  apply statement_same in E as [[S1 S2 S3 S4 S5 S6 S7 S8] N].
  destruct (uuid_parse r) as [u|]; [|done]. destruct (bool_decide (is_Some (inboxes d1 !! u))) eqn:Ei; [|done].
  destruct (bool_decide (is_Some (contents d1 !! _))) eqn:Ec; [|done]. cbn [negb andb].
  assert (new_uuid d1 = new_uuid d) as Hu by (unfold new_uuid; by rewrite N).
  rewrite Hu. destruct (messages d1 !! new_uuid d) eqn:Em; [done|]. intros [= <- <-]. bool_to_prop.
  rewrite S1 in Ei. rewrite S2 in Ec. rewrite S3 in Em.
  eexists u, _. split; [done|]. split; [reflexivity|]. split; [done|]. split; [done|]. split; [|done].
  split; cbn; try done.
  - by rewrite S3, S8, insert_empty, <- insert_union_singleton_l.
  - apply NoDup_singleton.
  - intros k ->%list_elem_of_singleton. done.
Qed.

Lemma inserts_trans d1 d2 d3 k m new :
  inserts d1 d2 [(k, m)] -> inserts d2 d3 new -> inserts d1 d3 ((k, m) :: new).
Proof.
  intros [A1 A2 A3 A4 A5 A6 A7 A8 A9 A10] [B1 B2 B3 B4 B5 B6 B7 B8 B9 B10].
  cbn in A8. rewrite insert_empty, <- insert_union_singleton_l in A8.
  assert (k ∉ new.*1) as Hk.
  { intros Hin%B10. rewrite A8, lookup_insert_eq in Hin. done. }
  split; try congruence; cbn [fmap list_fmap].
  - rewrite B8, A8. cbn [list_to_map foldr uncurry]. change (foldr _ _ new) with (list_to_map (M:=gmap uuid message_row) new).
    rewrite <- insert_union_r by (by apply not_elem_of_list_to_map_1). by rewrite insert_union_l.
  - by apply NoDup_cons.
  - intros j [->|Hj]%elem_of_cons; [apply A10; by left|].
    specialize (B10 j Hj). rewrite A8 in B10. by apply lookup_insert_None in B10 as [? _].
Qed.

Lemma insert_messages_ok delivery rs d d' stored :
  insert_messages delivery rs d = (d', Ok stored) ->
  exists new us, mapM uuid_parse rs = Some us /\ Forall2 (λ u kv, is_row delivery u (db_now d) kv.2) us new /\
    Forall (λ u, is_Some (inboxes d !! u)) us /\ (rs <> [] -> is_Some (contents d !! Key (d_Content delivery))) /\
    inserts d d' new /\ stored = zip_with stored_as rs new.
Proof.
  revert d stored. induction rs as [|r rs IH]; intros d stored; cbn [insert_messages].
  { intros [= <- <-]. exists [], []. split; [done|]. split; [constructor|]. split; [constructor|]. split; [done|].
    split; [|done]. split; try done.
    - cbn. by rewrite (left_id_L ∅ (∪)).
    - constructor.
    - intros k Hk. by apply elem_of_nil in Hk. }
  intros [(d1 & sm & E1 & Hx)|(e & _ & [=])]%dbind_inv.
  apply dbind_inv in Hx as [(d2 & more & E2 & Hx)|(e & _ & [=])]. injection Hx as <- <-.
  apply insert_message_ok in E1 as (u & m & Hu & Hm & Hi & Hc & I1 & ->).
  apply IH in E2 as (new & us & Hus & HF & HI & HC & I2 & ->).
  assert (db_now d1 = db_now d) as Hnow by apply I1. assert (inboxes d1 = inboxes d) as Hin by apply I1.
  rewrite Hnow in HF. rewrite Hin in HI.
  exists ((new_uuid d, m) :: new), (u :: us). cbn. rewrite Hu. cbn. rewrite Hus. cbn.
  split; [done|]. split; [by constructor|]. split; [by constructor|]. split; [done|].
  split; [by eapply inserts_trans|done].
Qed.

(** Everything the transaction checked and changed. *)
Record delivered (l : limits_opt) (d d' : db) (delivery : Delivery) (us : list uuid) (new : list (uuid * message_row)) : Prop := {
  dv_parse : mapM uuid_parse (d_Recipients delivery) = Some us;
  dv_nodup : NoDup us;
  dv_live : Forall (λ u, inbox_live d u = true) us;
  dv_quota : forall q, l = Some q ->
    check_quotas q (usage_rows d us) (SizeBytes (d_Content delivery)) (d_Recipients delivery) = None;
  dv_content : exists r, contents d' !! Key (d_Content delivery) = Some r /\ ct_size r = SizeBytes (d_Content delivery);
  dv_contents : contents d' = contents d \/
    contents d !! Key (d_Content delivery) = None /\
    contents d' = <[Key (d_Content delivery) := ContentRow (SizeBytes (d_Content delivery)) (pg_time (db_now d)) Pending 0
      (pg_time (db_now d)) None None None (pg_time (db_now d))]> (contents d);
  dv_rows : Forall2 (λ u kv, is_row delivery u (db_now d) kv.2) us new;
  dv_inserts : inserts (set_contents d (contents d')) d' new
}.

Lemma locked_all d us (l : list uuid) :
  zlen (locked_rows d us) = zlen us -> NoDup us /\ Forall (λ u, inbox_live d u = true) us.
Proof.
  intros Hl. unfold locked_rows in *.
  set (f := filter _ _) in Hl.
  pose proof (NoDup_fst_map_to_list f) as Hnd.
  assert (forall x, x ∈ (map_to_list f).*1 -> x ∈ us /\ inbox_live d x = true) as Hin.
  { intros x ([k r] & -> & Hk%elem_of_map_to_list)%list_elem_of_fmap.
    by apply map_lookup_filter_Some in Hk as [_ Hk]. }
  assert ((map_to_list f).*1 ⊆+ us) as Hsub by (apply NoDup_submseteq; [done|]; intros x Hk; by apply Hin).
  apply submseteq_length_Permutation in Hsub; [|unfold zlen in Hl; lia].
  split; [by rewrite <- Hsub|]. rewrite <- Hsub. apply Forall_forall. intros x Hk. by apply Hin.
Qed.

Lemma lock_ok l delivery d d' :
  lockAndCheckDeliveryRecipients l delivery d = (d', Ok tt) ->
  same_tables d d' /\ db_next d' = db_next d /\
  exists us, mapM uuid_parse (d_Recipients delivery) = Some us /\ NoDup us /\
    Forall (λ u, inbox_live d u = true) us /\
    (forall q, l = Some q -> check_quotas q (usage_rows d us) (SizeBytes (d_Content delivery)) (d_Recipients delivery) = None).
Proof.
  unfold lockAndCheckDeliveryRecipients. destruct (mapM uuid_parse _) as [us|] eqn:Eu; [|done].
  intros [(d1 & locked & E1 & Hx)|(e & _ & [=])]%dbind_inv.
  apply query_inv in E1 as (S1 & N1 & [[= ->]|[e [=]]]).
  destruct (zlen _ =? _) eqn:El; cbn [negb] in Hx; [|done]. bool_to_prop.
  assert (zlen us = zlen (d_Recipients delivery)) as Hlen.
  { unfold zlen. by rewrite (length_mapM _ _ _ Eu). }
  destruct (locked_all d1 us us) as [Hnd Hlive]; [lia|].
  assert (Forall (λ u, inbox_live d u = true) us) as Hlive0.
  { eapply Forall_impl; [done|]. intros u Hu. cbn beta. by rewrite <- (inbox_live_same d d1 u S1). }
  destruct l as [q|]; [|injection Hx as <-; split; [done|]; split; [done|]; exists us; by eauto].
  apply dbind_inv in Hx as [(d2 & byInbox & E2 & Hx)|(e & _ & [=])].
  apply query_inv in E2 as (S2 & N2 & [[= ->]|[e [=]]]).
  destruct (check_quotas q _ _ _) eqn:Eq; [done|]. injection Hx as <-.
  pose proof (transitivity S1 S2) as S. split; [done|]. split; [congruence|]. exists us.
  do 3 (split; [done|]). intros q' [= <-]. rewrite <- Eq. f_equal. unfold usage_rows. f_equal.
  apply list_omap_ext, Forall2_same_length_lookup_2; [done|]. intros i x y Hx Hy.
  assert (x = y) as -> by congruence. rewrite (usage_same d d2 y S), (messages_of_same d d2 y); [done|apply S].
Qed.

Lemma insert_content_ok ref d d' n :
  insert_content ref d = (d', Ok n) ->
  exists d1, same_tables d d1 /\ d' = set_contents d1 (contents d') /\
    (n = 0 /\ contents d' = contents d /\ is_Some (contents d !! Key ref) \/
     n = 1 /\ contents d !! Key ref = None /\
     contents d' = <[Key ref := ContentRow (SizeBytes ref) (pg_time (db_now d)) Pending 0 (pg_time (db_now d))
       None None None (pg_time (db_now d))]> (contents d)).
Proof.
  intros [(d1 & ? & E1 & Hx)|(e & _ & [=])]%dbind_inv. apply statement_same in E1 as [S1 _].
  destruct (contents d1 !! Key ref) as [r|] eqn:Ec; injection Hx as <- <-; exists d1; (split; [done|]);
    destruct S1 as [? Hc ? ? ? ? ? Hn]; rewrite Hc in Ec.
  - split; [by destruct d1|]. left. split; [done|]. split; [done|]. eauto.
  - split; [by destruct d1|]. right. cbn. by rewrite Hc, Hn.
Qed.

Lemma commit_body_ok l delivery d d' stored :
  d_Recipients delivery <> [] -> commit_body l delivery d = (d', Ok stored) ->
  exists us new, delivered l d d' delivery us new /\ stored = zip_with stored_as (d_Recipients delivery) new.
Proof.
  intros Hne. unfold commit_body.
  intros [(d1 & [] & E1 & Hx)|(e & _ & [=])]%dbind_inv.
  apply lock_ok in E1 as (S1 & _ & us & Hus & Hnd & Hlive & Hq).
  apply dbind_inv in Hx as [(d2 & n & E2 & Hx)|(e & _ & [=])].
  apply dbind_inv in Hx as [(d3 & conflict & E3 & Hx)|(e & _ & [=])].
  destruct conflict; [done|].
  apply insert_content_ok in E2 as (d1' & S1' & Hd2 & Hc2).
  pose proof (transitivity S1 S1') as S.
  assert (same_tables d2 d3 /\ exists r, contents d2 !! Key (d_Content delivery) = Some r /\ ct_size r = SizeBytes (d_Content delivery))
    as [S3 Hsz].
  { destruct (n =? 0) eqn:En; bool_to_prop.
    - apply dbind_inv in E3 as [(d4 & ex & E4 & H4)|(e & _ & [=])].
      apply query_inv in E4 as (S4 & _ & [[= ->]|[e [=]]]).
      destruct (contents d4 !! _) as [r|] eqn:Er; [|done]. injection H4 as <- Hb. split; [done|].
      exists r. rewrite (sm_contents _ _ S4) in Er. apply negb_false_iff in Hb. bool_to_prop. done.
    - injection E3 as <-. split; [done|]. destruct Hc2 as [[-> _]|(_ & _ & ->)]; [done|].
      rewrite lookup_insert_eq. by eexists. }
  apply insert_messages_ok in Hx as (new & us' & Hus' & HF & HI & HC & Hins & ->).
  assert (us' = us) as -> by congruence.
  assert (inboxes d3 = inboxes d /\ messages d3 = messages d /\ parses d3 = parses d /\ capabilities d3 = capabilities d /\
    deletions d3 = deletions d /\ quotas d3 = quotas d /\ db_now d3 = db_now d /\ contents d3 = contents d2) as
    (F1 & F2 & F3 & F4 & F5 & F6 & F7 & F8).
  { destruct S3 as [-> -> -> -> -> -> -> ->]. rewrite Hd2. destruct S as [? ? ? ? ? ? ? ?]. cbn. by repeat split. }
  destruct Hins as [I1 I2 I3 I4 I5 I6 I7 I8 I9 I10].
  assert (contents d' = contents d2) as Hc' by congruence.
  exists us, new. split; [|done]. split; try done.
  - rewrite Hc'. done.
  - rewrite Hc'. destruct S1 as [_ Sc _ _ _ _ _ Sn]. rewrite Sc, Sn in Hc2.
    destruct Hc2 as [(_ & -> & _)|(_ & ? & ->)]; [by left|by right].
  - by rewrite F7 in HF.
  - split; cbn; try congruence. intros k Hk%I10. congruence.
Qed.

(** ** Integrity *)

Lemma delivered_ok l d d' delivery us new :
  ContentRef_Validate (d_Content delivery) = None ->
  db_ok d -> delivered l d d' delivery us new -> db_ok d'.
Proof.
  intros Hv [[R1 [R2 R3]] C A K O S D Q] [Hus Hnd Hlive Hq (r & Hr & Hrs) Hcs HF [I1 I2 I3 I4 I5 I6 I7 I8 I9 I10]].
  cbn in *.
  assert (forall key, is_Some (contents d !! key) -> is_Some (contents d' !! key)) as Hmono.
  { intros key Hk. destruct Hcs as [->|[_ ->]]; [done|]. rewrite lookup_insert_is_Some. destruct (decide (Key (d_Content delivery) = key)); auto. }
  split; rewrite ?I1, ?I4, ?I5, ?I6; try done.
  - split; [|split].
    + intros id m. rewrite I8, I1. intros [Hm|[_ Hm]]%lookup_union_Some_raw.
      * apply elem_of_list_to_map_2 in Hm.
        apply list_elem_of_lookup in Hm as [i Hi].
        destruct (Forall2_lookup_r _ _ _ _ _ HF Hi) as (u & Hu & Hrow). rewrite Hrow. cbn.
        split; [|rewrite Hr; eauto]. rewrite Forall_forall in Hlive.
        specialize (Hlive u ltac:(by eapply list_elem_of_lookup_2)). unfold inbox_live in Hlive.
        destruct (inboxes d !! u); [eauto|done].
      * destruct (R1 id m Hm). auto.
    + intros key p. rewrite I3. intros Hp%R2. auto.
    + intros id p. rewrite I4, I1. apply R3.
  - intros key row. destruct Hcs as [->|[Hnone ->]]; [apply C|].
    rewrite lookup_insert_Some. intros [[<- <-]|[_ Hrow]]; [|by apply C].
    unfold content_check. cbn. split; [by destruct (d_Content delivery)|].
    split; [lia|]. repeat split; try done; by intros [? [=]].
Qed.

(** ** Quotas *)

Definition quota_ok (q : DeliveryLimits) (d : db) : Prop :=
  forall id, (usage_of d id).1 <= MaxInboxMessages q /\ (usage_of d id).2 <= MaxInboxStorageBytes q.

(** Identifiers as the resolver hands them out. *)
Definition canonical_id (r : InboxID) : Prop := exists u, length u = 16%nat /\ r = uuid_string u.

Lemma check_quotas_ok q byInbox size rs :
  check_quotas q byInbox size rs = None ->
  forall r, r ∈ rs -> (default (0, 0) (byInbox !! r)).1 < MaxInboxMessages q /\
    (default (0, 0) (byInbox !! r)).2 + size <= MaxInboxStorageBytes q.
Proof.
  induction rs as [|x rs IH]; cbn [check_quotas]; [intros _ r Hr; by apply elem_of_nil in Hr|].
  destruct (default (0, 0) (byInbox !! x)) as [a b] eqn:E.
  destruct (MaxInboxMessages q <=? a) eqn:E1; [done|]. destruct (_ <? size) eqn:E2; [done|]. bool_to_prop.
  intros Hn r [->|Hr]%elem_of_cons; [rewrite E; cbn; lia|by apply IH].
Qed.

Lemma usage_rows_none `{!UUIDSpec _} d us u :
  Forall (λ v, length v = 16%nat) us -> length u = 16%nat -> u ∉ us -> usage_rows d us !! uuid_string u = None.
Proof.
  intros Hlen Hu Hn. unfold usage_rows. apply not_elem_of_list_to_map_1.
  intros ([k x] & Hk & (v & Hv & Ho)%list_elem_of_omap)%list_elem_of_fmap. cbn in Hk.
  destruct (messages_of d v); [done|]. injection Ho as Hs _.
  rewrite Forall_forall in Hlen. pose proof (uuid_parse_string v (Hlen v Hv)) as P1.
  pose proof (uuid_parse_string u Hu) as P2. rewrite Hs, <- Hk in P1. congruence.
Qed.

Lemma usage_rows_cons d v us :
  usage_rows d (v :: us) =
  match messages_of d v with [] => usage_rows d us | _ => <[uuid_string v := usage_of d v]> (usage_rows d us) end.
Proof. unfold usage_rows. cbn [omap list_omap]. by destruct (messages_of d v). Qed.

Lemma usage_rows_default `{!UUIDSpec _} d us u :
  NoDup us -> Forall (λ v, length v = 16%nat) us -> u ∈ us ->
  default (0, 0) (usage_rows d us !! uuid_string u) = usage_of d u.
Proof.
  induction us as [|v us IH]; [intros _ _ Hin; by apply elem_of_nil in Hin|].
  rewrite NoDup_cons, Forall_cons. intros [Hv Hnd] [Hlen Hlens] Hin.
  assert (length u = 16%nat) as Hu.
  { apply elem_of_cons in Hin as [->|Hin]; [done|]. rewrite Forall_forall in Hlens. by apply Hlens. }
  rewrite usage_rows_cons. destruct (decide (u = v)) as [->|Hne].
  - pose proof (usage_rows_none d us v Hlens Hlen Hv) as Hnone. destruct (messages_of d v) eqn:E.
    + rewrite Hnone. unfold usage_of. by rewrite E.
    + by rewrite lookup_insert_eq.
  - apply elem_of_cons in Hin as [->|Hin]; [done|]. rewrite <- (IH Hnd Hlens Hin).
    destruct (messages_of d v); [done|]. rewrite lookup_insert_ne; [done|].
    intros Hs. apply Hne. pose proof (uuid_parse_string v Hlen) as P1. pose proof (uuid_parse_string u Hu) as P2.
    rewrite Hs in P1. congruence.
Qed.

Lemma usage_inserts d0 delivery us new id now :
  NoDup us -> NoDup new.*1 -> (forall k, k ∈ new.*1 -> messages d0 !! k = None) ->
  Forall2 (λ u kv, is_row delivery u now kv.2) us new ->
  usage_of (set_messages d0 (list_to_map new ∪ messages d0)) id =
  if decide (id ∈ us) then ((usage_of d0 id).1 + 1, (usage_of d0 id).2 + size_of d0 (Key (d_Content delivery)))
  else usage_of d0 id.
Proof.
  intros Hus Hnew Hfresh HF. induction HF as [|u [k m] us new Hrow HF IH].
  - cbn [list_to_map foldr]. rewrite (left_id_L ∅ (∪)).
    rewrite decide_False by (intros Hin; by apply elem_of_nil in Hin). by destruct d0.
  - cbn [fmap list_fmap fst] in Hnew, Hfresh. apply NoDup_cons in Hus as [Hu Hus], Hnew as [Hk Hnew].
    assert (forall j, j ∈ new.*1 -> messages d0 !! j = None) as Hfresh' by (intros j Hj; apply Hfresh; by right).
    specialize (IH Hus Hnew Hfresh').
    cbn [list_to_map foldr uncurry]. change (foldr _ _ new) with (list_to_map (M:=gmap uuid message_row) new).
    set (d1 := set_messages d0 (list_to_map new ∪ messages d0)) in *.
    replace (set_messages d0 (<[k:=m]> (list_to_map new) ∪ messages d0)) with (set_messages d1 (<[k:=m]> (messages d1)))
      by (unfold d1, set_messages; cbn; by rewrite insert_union_l).
    rewrite usage_insert; [|apply lookup_union_None; split; [by apply not_elem_of_list_to_map_1|apply Hfresh; by left]].
    change (size_of d1 (ms_content m)) with (size_of d0 (ms_content m)).
    rewrite IH. cbn [snd] in Hrow. rewrite Hrow. cbn [ms_inbox ms_content].
    destruct (decide (u = id)) as [->|Hne].
    + rewrite (decide_False (P := id ∈ us)) by done. by rewrite decide_True by (by left).
    + destruct (decide (id ∈ us)) as [Hin|Hin].
      * by rewrite decide_True by (by right).
      * rewrite decide_False; [done|]. by intros [->|]%elem_of_cons.
Qed.

Lemma delivered_quota `{!UUIDSpec _} q d d' delivery us new :
  db_ok d -> quota_ok q d -> Forall canonical_id (d_Recipients delivery) ->
  delivered (Some q) d d' delivery us new -> quota_ok q d'.
Proof.
  intros Hok Hquota Hcan [Hus Hnd Hlive Hq (r & Hr & Hrs) Hcs HF Hins] id.
  specialize (Hq q eq_refl).
  set (d0 := set_contents d (contents d')).
  assert (forall i, usage_of d0 i = usage_of d i) as Hu0.
  { intros i. unfold usage_of. rewrite (messages_of_same d d0) by done. f_equal. apply usage_sum_same.
    intros [k m] [_ Hin%elem_of_map_to_list]%list_elem_of_filter. cbn [snd].
    destruct (proj1 (ok_refs _ Hok) k m Hin) as [_ [row Hrow]]. unfold size_of, d0. cbn.
    destruct Hcs as [->|[Hnone ->]]; [done|]. rewrite lookup_insert_ne; [done|]. congruence. }
  assert (usage_of d' id = usage_of (set_messages d0 (list_to_map new ∪ messages d0)) id) as ->.
  { unfold usage_of, messages_of, size_of. cbn. destruct Hins as [I1 I2 I3 I4 I5 I6 I7 I8 I9 I10]. by rewrite I8. }
  rewrite (usage_inserts d0 delivery us new id (db_now d)); [|done|apply Hins|apply Hins|done].
  rewrite Hu0. destruct (decide (id ∈ us)) as [Hin|]; [|apply Hquota]. cbn [fst snd].
  assert (size_of d0 (Key (d_Content delivery)) = SizeBytes (d_Content delivery)) as -> by (unfold size_of, d0; cbn; by rewrite Hr).
  apply mapM_Some_1 in Hus as HF2.
  assert (Forall (λ v, length v = 16%nat) us) as Hlens.
  { clear -HF2 UUIDSpec0. induction HF2 as [|x y l k Hp _ IH]; constructor; [by eapply uuid_parse_length|done]. }
  apply list_elem_of_lookup in Hin as Hin'. destruct Hin' as [i Hi].
  destruct (Forall2_lookup_r _ _ _ _ _ HF2 Hi) as (rcp & Hrcp & Hp).
  rewrite Forall_forall in Hcan. destruct (Hcan rcp ltac:(by eapply list_elem_of_lookup_2)) as (u & Hul & ->).
  rewrite uuid_parse_string in Hp by done. injection Hp as ->.
  destruct (check_quotas_ok _ _ _ _ Hq (uuid_string id)) as [H1 H2]; [by eapply list_elem_of_lookup_2|].
  rewrite (usage_rows_default d us id Hnd Hlens Hin) in H1, H2. lia.
Qed.
End Facts.

Lemma CommitDelivery_inv `{!UUIDLib} l delivery d d' r :
  CommitDelivery l delivery d = (d', r) ->
  match r with
  | Ok stored => Delivery_Validate delivery = None /\
      exists d1 us new, same_tables d d1 /\ delivered l d1 d' delivery us new /\
        stored = zip_with stored_as (d_Recipients delivery) new
  | Err _ => same_tables d d' \/ Delivery_Validate delivery = None /\
      exists d1 us new, same_tables d d1 /\ delivered l d1 d' delivery us new
  end.
Proof.
  unfold CommitDelivery. destruct (Delivery_Validate delivery) eqn:Ev; [intros [= <- <-]; by left|].
  assert (d_Recipients delivery <> []) as Hne.
  { unfold Delivery_Validate in Ev. destruct (ContentRef_Validate _); [done|]. case_bool_decide; [done|].
    apply validateEnvelope_ok in Ev as [_ [? _]]. done. }
  intros [(S & e & ->)|(d1 & d2 & stored & S1 & _ & Hb & S2 & _ & Hr)]%transaction_inv; [by left|].
  apply commit_body_ok in Hb as (us & new & Hd & ->); [|done].
  assert (delivered l d1 d' delivery us new) as Hd'.
  { destruct S2 as [E1 E2 E3 E4 E5 E6 E7 E8], Hd as [? ? ? ? ? ? ? [I1 I2 I3 I4 I5 I6 I7 I8 I9 I10]].
    split; rewrite ?E2; try done. split; cbn in *; try congruence. done. }
  destruct Hr as [->|[e ->]]; [split; [done|]; by exists d1, us, new|]. right. split; [done|]. by exists d1, us, new.
Qed.

(** Committing a delivery is all or nothing.  On success every recipient
    was a distinct active unexpired inbox, the content row exists with the
    delivered size, and exactly one new row per recipient, in order, with the
    delivery's content, sender and time, was added to [messages] and nothing
    else was changed; on an error either no table changed or, when only the
    acknowledgement of the commit was lost, exactly that delivery was
    committed.  Referential and column integrity is kept either way. *)
Theorem commit_delivery_atomic `{!UUIDLib} (l : limits_opt) (delivery : Delivery) (d d' : db) r :
  db_ok d -> CommitDelivery l delivery d = (d', r) ->
  db_ok d' /\
  match r with
  | Ok stored => exists us new, delivered l d d' delivery us new /\ stored = zip_with stored_as (d_Recipients delivery) new
  | Err _ => same_tables d d' \/ exists us new, delivered l d d' delivery us new
  end.
Proof.
  intros Hok Hcd%CommitDelivery_inv.
  assert (forall d1 us new, same_tables d d1 -> delivered l d1 d' delivery us new -> delivered l d d' delivery us new) as Hback.
  { intros d1 us new S Hd. destruct Hd as [H1 H2 H3 H4 H5 H6 H7 [I1 I2 I3 I4 I5 I6 I7 I8 I9 I10]].
    pose proof S as [E1 E2 E3 E4 E5 E6 E7 E8]. rewrite E2, E8 in *. cbn in *.
    assert (usage_rows d1 us = usage_rows d us) as Eu.
    { unfold usage_rows. f_equal. apply list_omap_ext, Forall2_same_length_lookup_2; [done|]. intros i x y Hx Hy.
      assert (x = y) as -> by congruence. rewrite (usage_same d d1 y S), (messages_of_same d d1 y); done. }
    split; try done.
    - eapply Forall_impl; [done|]. intros u Hu. cbn beta in *. by rewrite <- (inbox_live_same d d1 u S).
    - intros q Hq. rewrite <- Eu. by apply H4.
    - split; cbn; try congruence. intros k Hk. rewrite <- E3. by apply I10. }
  assert (Delivery_Validate delivery = None -> ContentRef_Validate (d_Content delivery) = None) as Hcv.
  { unfold Delivery_Validate. by destruct (ContentRef_Validate (d_Content delivery)). }
  destruct r as [stored|e].
  - destruct Hcd as (Hv & d1 & us & new & S & Hd & ->).
    split; [eapply delivered_ok; [by apply Hcv|by eapply same_tables_ok|done]|]. exists us, new. eauto.
  - destruct Hcd as [S|(Hv & d1 & us & new & S & Hd)]; [split; [by eapply same_tables_ok|by left]|].
    split; [eapply delivered_ok; [by apply Hcv|by eapply same_tables_ok|done]|]. right. exists us, new. eauto.
Qed.

(** C32: deliveries never take an inbox over its quota.  If every inbox is
    within the message-count and byte limits before [CommitDelivery], every
    inbox is within them afterwards, whatever it returns and for any set of
    recipients given by the identifiers the resolver hands out. *)
Theorem commit_delivery_quota `{!UUIDLib} `{!UUIDSpec _} (q : DeliveryLimits) (delivery : Delivery) (d d' : db) r :
  db_ok d -> quota_ok q d -> Forall canonical_id (d_Recipients delivery) ->
  CommitDelivery (Some q) delivery d = (d', r) -> quota_ok q d'.
Proof.
  intros Hok Hq Hc Hcd%CommitDelivery_inv.
  assert (forall d1, same_tables d d1 -> quota_ok q d1) as Hsame.
  { intros d1 S id. rewrite (usage_same d d1 id S). apply Hq. }
  destruct r as [stored|e].
  - destruct Hcd as (_ & d1 & us & new & S & Hd & _). eapply delivered_quota; [by eapply same_tables_ok|by apply Hsame|done|done].
  - destruct Hcd as [S|(_ & d1 & us & new & S & Hd)]; [by apply Hsame|].
    eapply delivered_quota; [by eapply same_tables_ok|by apply Hsame|done|done].
Qed.

(** ** A concrete database *)

Module Demo.
Definition alice : uuid := be_encode 16 1.
Definition now : Z := 1800000000000000000.
Definition start : db :=
  Db {[alice := InboxRow (str "alice@example.com") Active (now + 3600000000000) now now]}
    ∅ ∅ ∅ ∅ ∅ ∅ now 2 false [].
Definition content : ContentRef := MkContentRef (sha256_prefix ++ hex_encode (sha256 (str "hi"))) 2.
Definition mail : Delivery := MkDelivery content (str "bob@example.org") [uuid_string alice] now.
Definition limits : DeliveryLimits := MkDeliveryLimits 10 1000.
Definition after : db := (CommitDelivery (Some limits) mail start).1.
Definition stored : list StoredMessage := [MkStoredMessage (uuid_string (be_encode 16 2)) (uuid_string alice)].

Lemma committed : CommitDelivery (Some limits) mail start = (after, Ok stored).
Proof.
  assert ((CommitDelivery (Some limits) mail start).2 = Ok stored) as H by (vm_compute; reflexivity).
  unfold after. destruct (CommitDelivery (Some limits) mail start) as [d r]. cbn in *. by subst.
Qed.

Lemma start_ok : db_ok start.
Proof.
  split; try (intros *; cbn; by rewrite lookup_empty).
  - split; [|split]; intros *; cbn; by rewrite lookup_empty.
  - intros i j r s Hi Hj _. cbn in Hi, Hj. apply lookup_singleton_Some in Hi as [<- _], Hj as [<- _]. done.
Qed.

Lemma start_quota : quota_ok limits start.
Proof.
  intros id. unfold usage_of. assert (messages_of start id = []) as -> by reflexivity.
  split; vm_compute; done.
Qed.
End Demo.

Lemma commit_delivery_atomic_witness :
  db_ok Demo.after /\ exists us new, delivered (Some Demo.limits) Demo.start Demo.after Demo.mail us new /\
    Demo.stored = zip_with stored_as (d_Recipients Demo.mail) new.
Proof.
  apply (commit_delivery_atomic (Some Demo.limits) Demo.mail Demo.start Demo.after (Ok Demo.stored));
    [apply Demo.start_ok|apply Demo.committed].
Defined.

Lemma commit_delivery_quota_witness : quota_ok Demo.limits Demo.after.
Proof.
  apply (commit_delivery_quota Demo.limits Demo.mail Demo.start Demo.after (Ok Demo.stored));
    [apply Demo.start_ok|apply Demo.start_quota| |apply Demo.committed].
  constructor; [|constructor]. by exists Demo.alice.
Defined.

(** ** Readiness only reads *)

Lemma ready_tables schema d d' r : Ready schema d = (d', r) -> same_tables d d'.
Proof.
  unfold Ready, dbind. destruct (query _ _ d) as [d1 x] eqn:E. apply query_inv in E as (Hs & _ & _). destruct x as [v|]; [|by intros [= <- _]].
  destruct (negb _); by intros [= <- _].
Qed.
