(* ===== verification/MailboxRepo.v ===== *)
(** * Inbox and message persistence

    [internal/mailbox/model.go] and [internal/postgres/mailbox_repository.go]:
    inbox lifecycle, owned message access, deletion with the durable queue of
    objects that lost their last reference, and the cleanup of expired
    inboxes. *)

From S2P Require Import Prelude GoStrings Errors Codec Uuid FileSystem Message Mail Database DatabaseFacts DeliveryRepo.

Record Inbox := MkInbox {
  ib_ID : InboxID; ib_Address : bytes; ib_Status : inbox_status; ib_ExpiresAt : Z; ib_CreatedAt : Z
}.

Record NewInbox := MkNewInbox { ni_Address : bytes; ni_ExpiresAt : Z; ni_CreatedAt : Z }.

Record MessageSummary := MkMessageSummary {
  su_ID : MessageID; su_EnvelopeSender : bytes; su_Subject : bytes; su_Preview : bytes; su_ReceivedAt : Z;
  su_ParseStatus : parse_status; su_SizeBytes : Z; su_HasAttachments : bool; su_Seen : bool
}.

Record MessageCursor := MkMessageCursor { mc_ReceivedAt : Z; mc_ID : MessageID }.

Record Page := MkPage { pg_Limit : Z; pg_Offset : Z; pg_Before : option MessageCursor }.

Record MessagePage := MkMessagePage { mp_Items : list MessageSummary; mp_Total : Z; mp_Unread : Z }.

Record MessageDetail := MkMessageDetail {
  md_Summary : MessageSummary;
  md_HeaderMessageID : bytes;
  md_From : list Address; md_To : list Address; md_Cc : list Address;
  md_SentAt : option Z;
  md_Text : bytes; md_HTMLSource : bytes;
  md_Attachments : list Attachment; md_Warnings : list Warning
}.

(** The address constraint of [inboxes]. *)
Definition btrim (s : bytes) : bytes := trim_func (λ r, r =? 32) s.

Definition address_check (a : bytes) : bool :=
  bool_decide (to_lower (btrim a) = a) && (3 <=? zlen a) && (zlen a <=? 320).

(** *** Previews: [LEFT(REGEXP_REPLACE(text, '[\n\r\t ]+', ' ', 'g'), 240)] *)

Definition preview_space (c : ascii) : bool :=
  (code c =? 10) || (code c =? 13) || (code c =? 9) || (code c =? 32).

Fixpoint collapse (in_run : bool) (s : bytes) : bytes :=
  match s with
  | [] => []
  | c :: s =>
    if preview_space c then (if in_run then collapse true s else (" "%char) :: collapse true s)
    else c :: collapse false s
  end.

Definition preview (text : bytes) : bytes := unrunes (take 240 (runes (collapse false text))).

(** *** Newest first: [ORDER BY received_at DESC, id DESC] *)

Definition key_ltb (a b : Z * uuid) : bool :=
  (a.1 <? b.1) || ((a.1 =? b.1) && negb (bool_decide (a.2 = b.2)) && bytes_leb a.2 b.2).

Definition row_key (kv : uuid * message_row) : Z * uuid := (ms_received kv.2, kv.1).

Definition newer (a b : uuid * message_row) : Prop := key_ltb (row_key a) (row_key b) = false.

#[global] Instance newer_dec a b : Decision (newer a b).
Proof. unfold newer. apply _. Defined.

Definition newest_first (l : list (uuid * message_row)) : list (uuid * message_row) := merge_sort newer l.

(** Order of content keys. *)
Definition key_le (a b : bytes * content_row) : Prop := bytes_leb a.1 b.1 = true.

#[global] Instance key_le_dec a b : Decision (key_le a b).
Proof. unfold key_le. apply _. Defined.

(** The distinct contents the inboxes' messages use, by key. *)
Definition content_refs (d : db) (ids : list uuid) : list ContentRef :=
  (λ kv : bytes * content_row, MkContentRef kv.1 (ct_size kv.2)) <$>
    merge_sort key_le (map_to_list (filter (λ kv : bytes * content_row,
      existsb (λ m : uuid * message_row, bool_decide (ms_inbox m.2 ∈ ids) && bool_decide (ms_content m.2 = kv.1))
        (map_to_list (messages d)) = true) (contents d))).

Definition enqueueContentDeletion (ref : ContentRef) (d : db) : db :=
  set_deletions d (<[Key ref :=
    match deletions d !! Key ref with
    | None => DeletionRow (SizeBytes ref) 1 (pg_time (db_now d))
    | Some r => DeletionRow (SizeBytes ref) (dl_generation r + 1) (pg_time (db_now d))
    end]> (deletions d)).

(** The loop that deletes contents without references and queues them. *)
Fixpoint purge_refs (refs : list ContentRef) : DB (list ContentRef) :=
  match refs with
  | [] => dret []
  | ref :: rest =>
    deleted <-- (statement "delete unreferenced content" ;;* λ d,
      let '(d, b) := delete_unreferenced_content (Key ref) d in (d, Ok b)) ;;
    (if deleted : bool then exec "enqueue unreferenced content" (enqueueContentDeletion ref) else dret tt) ;;*
    more <-- purge_refs rest ;;
    dret (if deleted : bool then ref :: more else more)
  end.

Section Repo.
Context `{!UUIDLib}.

(** A parameter cast to [uuid]. *)
Definition cast (text : string) (s : bytes) : res uuid :=
  match uuid_parse s with
  | None => Err (EWrap text (ENew "22P02"))
  | Some u => Ok u
  end.

Definition inbox_of (id : uuid) (r : inbox_row) : Inbox :=
  MkInbox (uuid_string id) (in_address r) (in_status r) (in_expires r) (in_created r).

Definition CreateInbox (candidate : NewInbox) : DB Inbox :=
  statement "insert Inbox" ;;* λ d,
    if negb (address_check (ni_Address candidate)) then (d, Err (EWrap "insert Inbox" (ENew "23514")))
    else match find_address d (ni_Address candidate), inboxes d !! new_uuid d with
    | Some _, _ => (d, Err (ESentinel ErrAddressConflict))
    | None, Some _ => (d, Err (EWrap "insert Inbox" (ENew "23505")))
    | None, None =>
      let row := InboxRow (ni_Address candidate) Active (pg_time (ni_ExpiresAt candidate))
                   (pg_time (ni_CreatedAt candidate)) (pg_time (ni_CreatedAt candidate)) in
      (set_next (set_inboxes d (<[new_uuid d := row]> (inboxes d))) (S (db_next d)), Ok (inbox_of (new_uuid d) row))
    end.

Definition GetInbox (inboxID : InboxID) : DB Inbox :=
  match cast "read Inbox" inboxID with
  | Err e => dthrow e
  | Ok id =>
    found <-- query "read Inbox" (λ d, if inbox_live d id then inboxes d !! id else None) ;;
    match found with
    | None => dthrow (ESentinel ErrMailboxInboxNotFound)
    | Some r => dret (inbox_of id r)
    end
  end.

(** [DeleteInbox]: lock, collect, delete with cascades, purge. *)
Definition delete_inbox_body (id : uuid) : DB (list ContentRef) :=
  live <-- query "lock Inbox for deletion" (λ d, inbox_live d id) ;;
  if negb live then dthrow (ESentinel ErrMailboxInboxNotFound)
  else
    refs <-- query "lock Inbox content" (λ d, content_refs d [id]) ;;
    exec "delete Inbox" (delete_inboxes [id]) ;;*
    purge_refs refs.

Definition DeleteInbox (inboxID : InboxID) : DB (list ContentRef) :=
  match cast "lock Inbox for deletion" inboxID with
  | Err e => dthrow e
  | Ok id => transaction "begin Inbox deletion" "commit Inbox deletion" (delete_inbox_body id)
  end.

Definition parsed_of (d : db) (key : bytes) : option ParsedMessage := pr_message <$> parses d !! key.

Definition summary_of (d : db) (kv : uuid * message_row) : MessageSummary :=
  let '(id, m) := kv in
  let c := contents d !! ms_content m in
  let p := parsed_of d (ms_content m) in
  MkMessageSummary (uuid_string id) (ms_sender m) (default [] (pm_Subject <$> p))
    (preview (default [] (pm_Text <$> p))) (ms_received m) (default Pending (ct_status <$> c)) (default 0 (ct_size <$> c))
    (0 <? zlen (default [] (pm_Attachments <$> p))) (bool_decide (is_Some (ms_seen m))).

(** The rows of the listing, before [LIMIT] and [OFFSET]. *)
Definition listing (d : db) (id : uuid) (before : option (Z * uuid)) : list (uuid * message_row) :=
  newest_first (filter (λ kv, inbox_live d id &&
    match before with None => true | Some b => key_ltb (row_key kv) b end = true) (messages_of d id)).

Definition ListMessages (inboxID : InboxID) (page : Page) : DB MessagePage :=
  if (pg_Limit page <=? 0) || (pg_Offset page <? 0) ||
     match pg_Before page with
     | None => false
     | Some b => negb (pg_Offset page =? 0) || bool_decide (mc_ID b = []) || bool_decide (mc_ReceivedAt b = zero_time)
     end
  then dthrow (ENew "message page is invalid")
  else match cast "count Inbox messages" inboxID with
  | Err e => dthrow e
  | Ok id =>
    counts <-- query "count Inbox messages" (λ d,
      let l := listing d id None in (zlen l, zlen (filter (λ kv, ms_seen kv.2 = None) l))) ;;
    let before := match pg_Before page with
      | None => Ok None
      | Some b => match cast "list Inbox messages" (mc_ID b) with
                  | Err e => Err e
                  | Ok u => Ok (Some (pg_time (mc_ReceivedAt b), u))
                  end
      end in
    match before with
    | Err e => dthrow e
    | Ok before =>
      items <-- query "list Inbox messages" (λ d,
        summary_of d <$> take (Z.to_nat (pg_Limit page)) (drop (Z.to_nat (pg_Offset page)) (listing d id before))) ;;
      dret (MkMessagePage items counts.1 counts.2)
    end
  end.

(** The row of a message that belongs to a live inbox. *)
Definition owned (d : db) (id mid : uuid) : option message_row :=
  match messages d !! mid with
  | Some m => if bool_decide (ms_inbox m = id) && inbox_live d id then Some m else None
  | None => None
  end.

Definition detail_of (d : db) (mid : uuid) (m : message_row) : MessageDetail :=
  let p := parsed_of d (ms_content m) in
  MkMessageDetail (summary_of d (mid, m)) (default [] (pm_MessageID <$> p))
    (default [] (pm_From <$> p)) (default [] (pm_To <$> p)) (default [] (pm_Cc <$> p))
    (p ≫= pm_Date) (default [] (pm_Text <$> p)) (default [] (pm_HTMLSource <$> p))
    (default [] (pm_Attachments <$> p)) (default [] (pm_Warnings <$> p)).

Definition GetMessage (inboxID : InboxID) (messageID : MessageID) : DB MessageDetail :=
  match cast "read Inbox message" inboxID, cast "read Inbox message" messageID with
  | Ok id, Ok mid =>
    found <-- query "read Inbox message" (λ d, detail_of d mid <$> owned d id mid) ;;
    match found with
    | None => dthrow (ESentinel ErrMessageNotFound)
    | Some detail => dret detail
    end
  | Err e, _ | _, Err e => dthrow e
  end.

Definition MarkMessageSeen (inboxID : InboxID) (messageID : MessageID) (seenAt : Z) : DB unit :=
  match cast "mark Inbox message seen" inboxID, cast "mark Inbox message seen" messageID with
  | Ok id, Ok mid =>
    statement "mark Inbox message seen" ;;* λ d,
      match owned d id mid with
      | None => (d, Err (ESentinel ErrMessageNotFound))
      | Some m =>
        (set_messages d (<[mid := MessageRow (ms_inbox m) (ms_content m) (ms_sender m) (ms_received m) (ms_created m)
           (Some (default (pg_time seenAt) (ms_seen m)))]> (messages d)), Ok tt)
      end
  | Err e, _ | _, Err e => dthrow e
  end.

Definition GetMessageContent (inboxID : InboxID) (messageID : MessageID) : DB ContentRef :=
  match cast "read Inbox message content" inboxID, cast "read Inbox message content" messageID with
  | Ok id, Ok mid =>
    found <-- query "read Inbox message content" (λ d,
      match owned d id mid with
      | None => None
      | Some m => (λ r, MkContentRef (ms_content m) (ct_size r)) <$> contents d !! ms_content m
      end) ;;
    match found with
    | None => dthrow (ESentinel ErrMessageNotFound)
    | Some ref => dret ref
    end
  | Err e, _ | _, Err e => dthrow e
  end.

(** [DeleteMessage]; the result is the content that lost its last message. *)
Definition delete_message_body (id mid : uuid) : DB (option ContentRef) :=
  found <-- query "lock Inbox message" (λ d,
    match owned d id mid with
    | None => None
    | Some m => (λ r, MkContentRef (ms_content m) (ct_size r)) <$> contents d !! ms_content m
    end) ;;
  match found with
  | None => dthrow (ESentinel ErrMessageNotFound)
  | Some ref =>
    exec "delete Inbox message" (λ d, set_messages d (delete mid (messages d))) ;;*
    orphans <-- purge_refs [ref] ;;
    dret (head orphans)
  end.

Definition DeleteMessage (inboxID : InboxID) (messageID : MessageID) : DB (option ContentRef) :=
  match cast "lock Inbox message" inboxID, cast "lock Inbox message" messageID with
  | Ok id, Ok mid => transaction "begin message deletion" "commit message deletion" (delete_message_body id mid)
  | Err e, _ | _, Err e => dthrow e
  end.
End Repo.

(** *** Cleanup of expired inboxes *)

Definition expiry_le (a b : uuid * inbox_row) : Prop :=
  (in_expires a.2 <? in_expires b.2) || ((in_expires a.2 =? in_expires b.2) && bytes_leb a.1 b.1) = true.

#[global] Instance expiry_le_dec a b : Decision (expiry_le a b).
Proof. unfold expiry_le. apply _. Defined.

Definition expired_ids (d : db) (limit : Z) : list uuid :=
  take (Z.to_nat limit) (fst <$> merge_sort expiry_le
    (map_to_list (filter (λ kv : uuid * inbox_row, in_expires kv.2 <= db_now d) (inboxes d)))).

Definition cleanup_body (batchSize : Z) : DB (Z * list ContentRef) :=
  busy <-- query "acquire cleanup advisory lock" db_cleanup_busy ;;
  if busy : bool then dret (0, [])
  else
    ids <-- query "select expired Inbox batch" (λ d, expired_ids d batchSize) ;;
    match ids with
    | [] => dret (0, [])
    | _ =>
      refs <-- query "read expired Inbox content" (λ d, content_refs d ids) ;;
      exec "delete expired Inboxes" (delete_inboxes ids) ;;*
      orphans <-- purge_refs refs ;;
      dret (zlen ids, orphans)
    end.

Definition CleanupExpiredInboxes (batchSize : Z) : DB (Z * list ContentRef) :=
  if (batchSize <=? 0) || (1000 <? batchSize) then dthrow (ENew "cleanup batch size must be between 1 and 1000")
  else transaction "begin expired Inbox cleanup" "commit expired Inbox cleanup" (cleanup_body batchSize).

(** *** The deletion queue *)

Definition queue_le (a b : bytes * deletion_row) : Prop :=
  (dl_enqueued a.2 <? dl_enqueued b.2) || ((dl_enqueued a.2 =? dl_enqueued b.2) && bytes_leb a.1 b.1) = true.

#[global] Instance queue_le_dec a b : Decision (queue_le a b).
Proof. unfold queue_le. apply _. Defined.

Definition ListContentDeletions (limit : Z) : DB (list ContentDeletion) :=
  if (limit <=? 0) || (1000 <? limit) then dthrow (ENew "content deletion limit must be between 1 and 1000")
  else query "list content deletions" (λ d,
    take (Z.to_nat limit) ((λ kv : bytes * deletion_row,
      MkContentDeletion (MkContentRef kv.1 (dl_size kv.2)) (dl_generation kv.2)) <$>
      merge_sort queue_le (map_to_list (deletions d)))).

Definition ContentReferenced (key : bytes) : DB bool :=
  query "check content reference" (λ d, bool_decide (is_Some (contents d !! key))).

Definition AcknowledgeContentDeletion (key : bytes) (generation : Z) : DB bool :=
  if generation <=? 0 then dthrow (ENew "content deletion generation must be positive")
  else statement "acknowledge content deletion" ;;* λ d,
    match deletions d !! key with
    | Some r =>
      if dl_generation r =? generation then (set_deletions d (delete key (deletions d)), Ok true) else (d, Ok false)
    | None => (d, Ok false)
    end.

Definition CountContentDeletions : DB Z :=
  query "count content deletions" (λ d, zlen (map_to_list (deletions d))).

(** ** Deleting messages collects what they referenced *)

(** A content key to be purged in state [d]. *)
Definition purgeable (d : db) (refs : list ContentRef) (key : bytes) : bool :=
  bool_decide (key ∈ Key <$> refs) && negb (referenced d key) && bool_decide (is_Some (contents d !! key)).

Record purged (refs : list ContentRef) (d d' : db) : Prop := {
  pu_inboxes : inboxes d' = inboxes d;
  pu_messages : messages d' = messages d;
  pu_capabilities : capabilities d' = capabilities d;
  pu_quotas : quotas d' = quotas d;
  pu_now : db_now d' = db_now d;
  pu_contents : forall key, contents d' !! key = if purgeable d refs key then None else contents d !! key;
  pu_parses : forall key, parses d' !! key = if purgeable d refs key then None else parses d !! key;
  pu_deletions : forall key, purgeable d refs key = false -> deletions d' !! key = deletions d !! key;
  pu_queued : forall key r, contents d !! key = Some r -> purgeable d refs key = true ->
    deletions d' !! key = Some (DeletionRow (ct_size r)
      (match deletions d !! key with Some q => dl_generation q + 1 | None => 1 end) (pg_time (db_now d)))
}.

Lemma referenced_messages d d' key : messages d' = messages d -> referenced d' key = referenced d key.
Proof. unfold referenced. by intros ->. Qed.

Lemma referenced_spec d key : referenced d key = true <-> exists id m, messages d !! id = Some m /\ ms_content m = key.
Proof.
  unfold referenced. rewrite existsb_exists. split.
  - intros ([id m] & Hin & Hk). bool_to_prop. exists id, m. split; [|done].
    by apply elem_of_map_to_list, list_elem_of_In.
  - intros (id & m & Hm & <-). exists (id, m). split; [by apply list_elem_of_In, elem_of_map_to_list|].
    by rewrite bool_decide_eq_true_2.
Qed.

(** One reference. *)
Definition purge_one (ref : ContentRef) (d : db) : db :=
  let '(d1, b) := delete_unreferenced_content (Key ref) d in
  if b : bool then enqueueContentDeletion ref d1 else d1.

Lemma purge_one_spec ref d :
  (forall r, contents d !! Key ref = Some r -> ct_size r = SizeBytes ref) -> purged [ref] d (purge_one ref d).
Proof.
  intros Hsz. unfold purge_one, delete_unreferenced_content.
  assert (forall key, purgeable d [ref] key = bool_decide (key = Key ref) && negb (referenced d (Key ref)) && bool_decide (is_Some (contents d !! Key ref))) as Hp.
  { intros key. unfold purgeable. cbn [fmap list_fmap].
    destruct (decide (key = Key ref)) as [->|Hne].
    - rewrite (bool_decide_eq_true_2 (Key ref ∈ [Key ref])) by (by left).
      by rewrite (bool_decide_eq_true_2 (Key ref = Key ref)).
    - rewrite (bool_decide_eq_false_2 (key ∈ [Key ref])) by (by intros ?%list_elem_of_singleton).
      by rewrite (bool_decide_eq_false_2 (key = _)). }
  destruct (contents d !! Key ref) as [r|] eqn:Ec.
  2:{ rewrite (bool_decide_eq_false_2 (is_Some None)) in Hp by (by intros [? [=]]).
      split; try done; intros key; rewrite Hp, andb_false_r; done. }
  destruct (referenced d (Key ref)) eqn:Er.
  { split; try done; intros key; rewrite Hp, andb_false_r; done. }
  rewrite bool_decide_eq_true_2 in Hp by eauto.
  split; cbn; try done; intros key; rewrite Hp, andb_true_r; cbn [negb]; rewrite ?andb_true_r; case_bool_decide as Hk.
  - subst. by rewrite lookup_delete_eq.
  - by rewrite lookup_delete_ne.
  - subst. by rewrite lookup_delete_eq.
  - by rewrite lookup_delete_ne.
  - done.
  - intros _. by rewrite lookup_insert_ne.
  - intros r' Hr' _. subst. rewrite lookup_insert_eq. rewrite Ec in Hr'. injection Hr' as <-. rewrite (Hsz r eq_refl).
    by destruct (deletions d !! Key ref).
  - done.
Qed.

Lemma purgeable_after d d1 ref refs key :
  purged [ref] d d1 -> purgeable d (ref :: refs) key = purgeable d [ref] key || purgeable d1 refs key.
Proof.
  intros [_ Hm _ _ _ Hc _ _ _].
  assert (bool_decide (is_Some (contents d1 !! key)) = negb (purgeable d [ref] key) && bool_decide (is_Some (contents d !! key))) as Hs.
  { rewrite Hc. by destruct (purgeable d [ref] key). }
  unfold purgeable at 3. rewrite Hs, (referenced_messages d d1 key Hm). unfold purgeable.
  assert (bool_decide (key ∈ Key <$> ref :: refs) = bool_decide (key ∈ Key <$> [ref]) || bool_decide (key ∈ Key <$> refs)) as ->.
  { cbn [fmap list_fmap]. repeat case_bool_decide; rewrite ?elem_of_cons, ?elem_of_nil in *; cbn; tauto. }
  destruct (bool_decide (key ∈ Key <$> [ref])), (bool_decide (key ∈ Key <$> refs)), (referenced d key),
    (bool_decide (is_Some (contents d !! key))); reflexivity.
Qed.

Lemma purged_same d d1 d' refs : same_tables d d1 -> purged refs d1 d' -> purged refs d d'.
Proof.
  intros S [P1 P2 P3 P4 P5 P6 P7 P8 P9]. pose proof S as [E1 E2 E3 E4 E5 E6 E7 E8].
  assert (forall key, purgeable d1 refs key = purgeable d refs key) as Hp.
  { intros key. unfold purgeable. by rewrite E2, (referenced_messages d d1 key E3). }
  split; try congruence; intros key; rewrite <- ?Hp.
  - by rewrite P6, E2.
  - by rewrite P7, E4.
  - intros Hk. by rewrite P8, E6.
  - intros r Hr Hk. rewrite <- E2 in Hr. by rewrite (P9 key r Hr Hk), E6, E8.
Qed.

Lemma purged_same_r d d1 d' refs : purged refs d d1 -> same_tables d1 d' -> purged refs d d'.
Proof.
  intros [P1 P2 P3 P4 P5 P6 P7 P8 P9] [E1 E2 E3 E4 E5 E6 E7 E8].
  split; rewrite ?E1, ?E2, ?E3, ?E4, ?E5, ?E6, ?E7, ?E8; done.
Qed.

Lemma purged_trans d d1 d2 ref refs :
  Key ref ∉ Key <$> refs -> purged [ref] d d1 -> purged refs d1 d2 -> purged (ref :: refs) d d2.
Proof.
  intros Hni P Q. pose proof (λ key, purgeable_after d d1 ref refs key P) as Hp.
  pose proof P as [P1 P2 P3 P4 P5 P6 P7 P8 P9]. pose proof Q as [Q1 Q2 Q3 Q4 Q5 Q6 Q7 Q8 Q9].
  split; try congruence; intros key; rewrite Hp.
  - rewrite Q6, P6. by destruct (purgeable d [ref] key), (purgeable d1 refs key).
  - rewrite Q7, P7. by destruct (purgeable d [ref] key), (purgeable d1 refs key).
  - intros [H1 H2]%orb_false_iff. by rewrite Q8, P8.
  - intros r Hr. destruct (purgeable d [ref] key) eqn:E.
    + intros _. rewrite Q8; [by apply P9|]. unfold purgeable. rewrite P6, E, (bool_decide_eq_false_2 (is_Some None)) by (by intros [? [=]]).
      by rewrite andb_false_r.
    + cbn [orb]. intros H2. rewrite (Q9 key r); [|by rewrite P6, E|done]. by rewrite (P8 key E), P5.
Qed.

(** Which references the loop reports. *)
Definition orphans_of (d : db) (refs : list ContentRef) : list ContentRef :=
  filter (λ ref, purgeable d refs (Key ref) = true) refs.

Lemma purgeable_in d refs refs' key :
  key ∈ Key <$> refs -> key ∈ Key <$> refs' -> purgeable d refs key = purgeable d refs' key.
Proof. intros H1 H2. unfold purgeable. by rewrite (bool_decide_eq_true_2 _ H1), (bool_decide_eq_true_2 _ H2). Qed.

Lemma delete_unreferenced_flag ref d : (delete_unreferenced_content (Key ref) d).2 = purgeable d [ref] (Key ref).
Proof.
  unfold delete_unreferenced_content, purgeable. cbn [fmap list_fmap].
  rewrite (bool_decide_eq_true_2 (Key ref ∈ _)) by (cbn; by left).
  destruct (contents d !! Key ref) eqn:E.
  - rewrite (bool_decide_eq_true_2 (is_Some _)) by eauto. by destruct (referenced d (Key ref)).
  - rewrite (bool_decide_eq_false_2 (is_Some _)) by (by intros [? [=]]). by rewrite andb_false_r.
Qed.

Lemma purge_refs_ok refs d d' orphans :
  NoDup (Key <$> refs) -> (forall ref r, ref ∈ refs -> contents d !! Key ref = Some r -> ct_size r = SizeBytes ref) ->
  purge_refs refs d = (d', Ok orphans) -> purged refs d d' /\ orphans = orphans_of d refs.
Proof.
  revert d orphans. induction refs as [|ref refs IH]; intros d orphans Hnd Hsz; cbn [purge_refs].
  { intros [= <- <-]. split; [|done]. split; try done; intros key; unfold purgeable; rewrite bool_decide_eq_false_2; try done;
      by intros Hin%elem_of_nil. }
  cbn [fmap list_fmap] in Hnd. apply NoDup_cons in Hnd as [Hni Hnd].
  intros [(d1 & deleted & E1 & Hk)|(e & _ & [=])]%dbind_inv.
  apply dbind_inv in E1 as [(d0 & ? & E0 & E1)|(e & _ & [=])]. apply statement_same in E0 as [S0 _].
  apply dbind_inv in Hk as [(d2 & ? & E2 & Hk)|(e & _ & [=])].
  apply dbind_inv in Hk as [(d3 & more & E3 & Hk)|(e & _ & [=])]. injection Hk as <- Ho.
  assert (forall l key, purgeable d0 l key = purgeable d l key) as Hp0.
  { intros l key. unfold purgeable. by rewrite (sm_contents _ _ S0), (referenced_messages d d0 key (sm_messages _ _ S0)). }
  assert (deleted = purgeable d [ref] (Key ref)) as Hdel.
  { rewrite <- Hp0, <- delete_unreferenced_flag. destruct (delete_unreferenced_content (Key ref) d0). injection E1. done. }
  assert (same_tables (purge_one ref d0) d2) as S2.
  { unfold purge_one. destruct (delete_unreferenced_content (Key ref) d0) as [dx b] eqn:Ed. injection E1 as -> ->.
    destruct deleted; [|injection E2 as <-; done].
    apply dbind_inv in E2 as [(d1' & ? & E2 & Hx)|(e & _ & [=])]. injection Hx as <- _.
    apply statement_same in E2 as [[F1 F2 F3 F4 F5 F6 F7 F8] _]. unfold enqueueContentDeletion.
    rewrite F6, F8. by split. }
  assert (purged [ref] d d2) as P2.
  { apply (purged_same d d0); [done|]. eapply purged_same_r; [|done]. apply purge_one_spec.
    intros r Hr. rewrite (sm_contents _ _ S0) in Hr. apply (Hsz ref); [by left|done]. }
  apply IH in E3 as [P3 ->]; [|done|].
  2:{ intros ref' r Hin Hr. apply (Hsz ref'); [by right|]. rewrite (pu_contents _ _ _ P2) in Hr.
      by destruct (purgeable d [ref] (Key ref')). }
  split; [by eapply purged_trans|]. subst orphans. unfold orphans_of. rewrite filter_cons, Hdel.
  rewrite (purgeable_in d (ref :: refs) [ref]) by (cbn; by left).
  assert (filter (λ x, purgeable d2 refs (Key x) = true) refs = filter (λ x, purgeable d (ref :: refs) (Key x) = true) refs) as ->.
  { apply filter_agree. intros y Hy. rewrite (purgeable_after d d2 ref refs _ P2).
    unfold purgeable at 2. rewrite (bool_decide_eq_false_2 (Key y ∈ _)); [done|].
    intros Hi%list_elem_of_singleton. apply Hni. rewrite <- Hi. by apply list_elem_of_fmap_2. }
  by destruct (purgeable d [ref] (Key ref)).
Qed.

(** ** Content without messages *)

(** Every content row is used by some message. *)
Definition no_garbage (d : db) : Prop := forall key, is_Some (contents d !! key) -> referenced d key = true.

(** [dm] is [d] after rows were deleted, [refs] covering what the lost
    messages used. *)
Record shrunk (refs : list ContentRef) (d dm : db) : Prop := {
  sh_inboxes : inboxes dm ⊆ inboxes d;
  sh_messages : messages dm ⊆ messages d;
  sh_capabilities : capabilities dm ⊆ capabilities d;
  sh_contents : contents dm = contents d;
  sh_parses : parses dm = parses d;
  sh_deletions : deletions dm = deletions d;
  sh_quotas : quotas dm = quotas d;
  sh_now : db_now dm = db_now d;
  sh_owners : forall id m, messages dm !! id = Some m -> is_Some (inboxes dm !! ms_inbox m);
  sh_holders : forall id p, capabilities dm !! id = Some p -> is_Some (inboxes dm !! cp_inbox p);
  sh_covered : forall id m, messages d !! id = Some m -> messages dm !! id = None -> ms_content m ∈ Key <$> refs;
  sh_nodup : NoDup (Key <$> refs);
  sh_sizes : forall ref r, ref ∈ refs -> contents d !! Key ref = Some r -> ct_size r = SizeBytes ref
}.

(** What a deletion did: [dm] is the state between deleting and purging. *)
Definition collected (d d' : db) (orphans : list ContentRef) : Prop :=
  exists refs dm, shrunk refs d dm /\ purged refs dm d' /\ orphans = orphans_of dm refs.

Lemma purged_referenced refs d d' key : purged refs d d' -> referenced d' key = referenced d key.
Proof. intros P. apply referenced_messages, P. Qed.

Lemma collected_garbage d d' orphans : collected d d' orphans -> no_garbage d -> no_garbage d'.
Proof.
  intros (refs & dm & Sh & P & _) Hg key. rewrite (purged_referenced _ _ _ _ P), (pu_contents _ _ _ P).
  destruct (purgeable dm refs key) eqn:Ep; [by intros [? [=]]|].
  rewrite (sh_contents _ _ _ Sh). intros Hc. pose proof (Hg key Hc) as Href.
  destruct (referenced dm key) eqn:Er; [done|]. exfalso.
  apply referenced_spec in Href as (id & m & Hm & Hk).
  destruct (messages dm !! id) as [m'|] eqn:Em.
  - pose proof (lookup_weaken _ _ _ _ Em (sh_messages _ _ _ Sh)) as Hm'. rewrite Hm in Hm'. injection Hm' as <-.
    assert (referenced dm key = true) by (apply referenced_spec; eauto). congruence.
  - pose proof (sh_covered _ _ _ Sh id m Hm Em) as Hin. rewrite Hk in Hin.
    unfold purgeable in Ep. rewrite Er, (sh_contents _ _ _ Sh) in Ep. by rewrite (bool_decide_eq_true_2 _ Hin), (bool_decide_eq_true_2 _ Hc) in Ep.
Qed.

(** A content row survives as long as a message uses it. *)
Lemma collected_kept d d' orphans key :
  collected d d' orphans -> referenced d' key = true -> contents d' !! key = contents d !! key /\ parses d' !! key = parses d !! key.
Proof.
  intros (refs & dm & Sh & P & _). rewrite (purged_referenced _ _ _ _ P). intros Hr.
  rewrite (pu_contents _ _ _ P), (pu_parses _ _ _ P), (sh_contents _ _ _ Sh), (sh_parses _ _ _ Sh).
  unfold purgeable. by rewrite Hr, andb_false_r.
Qed.

Lemma collected_ok d d' orphans : collected d d' orphans -> db_ok d -> db_ok d'.
Proof.
  intros HC [[R1 [R2 R3]] C A K O S D Q]. pose proof HC as (refs & dm & Sh & P & _).
  pose proof P as [P1 P2 P3 P4 P5 P6 P7 P8 P9]. pose proof Sh as [H1 H2 H3 H4 H5 H6 H7 H8 H9 H10 H11 H12 H13].
  assert (forall key r, contents d' !! key = Some r -> contents d !! key = Some r) as Hc.
  { intros key r. rewrite P6, H4. by destruct (purgeable dm refs key). }
  assert (forall i p, capabilities d' !! i = Some p -> capabilities d !! i = Some p) as Hcap.
  { intros i p. rewrite P3. intros Hp. by eapply lookup_weaken. }
  assert (forall i r, inboxes d' !! i = Some r -> inboxes d !! i = Some r) as Hin.
  { intros i r. rewrite P1. intros Hr. by eapply lookup_weaken. }
  split; rewrite ?P4, ?H7; try done; try (by eauto).
  - split; [|split].
    + intros id m Hm. rewrite P1. split; [apply (H9 id); congruence|].
      assert (referenced d' (ms_content m) = true) as Hr by (apply referenced_spec; eauto).
      destruct (collected_kept _ _ _ _ HC Hr) as [-> _]. rewrite P2 in Hm.
      apply (R1 id). by eapply lookup_weaken.
    + intros key p. rewrite P7, P6, H4, H5. destruct (purgeable dm refs key); [done|]. apply R2.
    + intros id p Hp. rewrite P1. apply (H10 id). congruence.
  - intros key r Hr. destruct (purgeable dm refs key) eqn:Ep.
    + pose proof Ep as Ep'. unfold purgeable in Ep'. bool_to_prop.
      destruct (contents dm !! key) as [row|] eqn:Er; [|by destruct H0].
      rewrite (P9 key row Er Ep) in Hr. injection Hr as <-. rewrite H4 in Er. cbn.
      split; [apply (C key row Er)|]. rewrite H6. destruct (deletions d !! key) as [q|] eqn:Eq; [|done].
      destruct (D key q Eq). lia.
    + rewrite (P8 key Ep), H6 in Hr. by apply D.
Qed.

Lemma collected_quota q d d' orphans : collected d d' orphans -> db_ok d -> quota_ok q d -> quota_ok q d'.
Proof.
  intros HC Hok Hq id. pose proof HC as (refs & dm & Sh & P & _).
  assert (messages d' ⊆ messages d) as Hsub by (rewrite (pu_messages _ _ _ P); apply Sh).
  destruct (usage_subset d d' id Hsub) as [U1 U2].
  - intros key. unfold size_of. destruct (contents d !! key) as [r|] eqn:E; [|done].
    destruct (ok_contents _ Hok key r E) as (Hv & _). by apply ContentRef_Validate_ok in Hv as [? _].
  - intros k m Hm. assert (referenced d' (ms_content m) = true) as Hr by (apply referenced_spec; eauto).
    destruct (collected_kept _ _ _ _ HC Hr) as [Hk _]. unfold size_of. by rewrite Hk.
  - destruct (Hq id). lia.
Qed.

(** Each reported orphan had its row deleted and is queued for the removal of
    its object, in a generation no earlier request has. *)
Lemma collected_queued d d' orphans :
  collected d d' orphans ->
  NoDup (Key <$> orphans) /\ forall ref, ref ∈ orphans ->
    contents d' !! Key ref = None /\ referenced d' (Key ref) = false /\
    exists n, deletions d' !! Key ref = Some (DeletionRow (SizeBytes ref) n (pg_time (db_now d))) /\
      forall r, deletions d !! Key ref = Some r -> dl_generation r < n.
Proof.
  intros (refs & dm & Sh & P & ->). pose proof Sh as [H1 H2 H3 H4 H5 H6 H7 H8 H9 H10 H11 H12 H13]. split.
  { eapply sublist_NoDup; [exact H12|]. apply fmap_sublist, sublist_filter. }
  intros ref [Hp Hin]%list_elem_of_filter. pose proof Hp as Hp'. unfold purgeable in Hp'. bool_to_prop.
  rewrite (purged_referenced _ _ _ _ P), (pu_contents _ _ _ P), Hp. do 2 (split; [done|]).
  destruct (contents dm !! Key ref) as [row|] eqn:Er; [|by destruct H0].
  rewrite (pu_queued _ _ _ P _ row Er Hp), H8, H6. rewrite H4 in Er. rewrite (H13 ref row Hin Er).
  eexists. split; [done|]. intros r ->. lia.
Qed.

Lemma collected_orphans d d' orphans key :
  collected d d' orphans -> no_garbage d ->
  (key ∈ Key <$> orphans <-> is_Some (contents d !! key) /\ referenced d' key = false).
Proof.
  intros HC Hg. pose proof HC as (refs & dm & Sh & P & ->). rewrite (purged_referenced _ _ _ _ P). split.
  - intros (ref & Hk & [Hp Hin]%list_elem_of_filter)%list_elem_of_fmap. subst key.
    unfold purgeable in Hp. bool_to_prop. by rewrite <- (sh_contents _ _ _ Sh).
  - intros [Hc Hr]. pose proof (Hg key Hc) as Href. apply referenced_spec in Href as (id & m & Hm & Hk).
    assert (messages dm !! id = None) as Em.
    { destruct (messages dm !! id) as [m'|] eqn:Em; [|done].
      pose proof (lookup_weaken _ _ _ _ Em (sh_messages _ _ _ Sh)) as Hm'. rewrite Hm in Hm'. injection Hm' as <-.
      assert (referenced dm key = true) by (apply referenced_spec; eauto). congruence. }
    pose proof (sh_covered _ _ _ Sh id m Hm Em) as Hin. rewrite Hk in Hin.
    apply list_elem_of_fmap in Hin as (ref & Hkey & Hin). subst key. rewrite Hkey in *. apply list_elem_of_fmap_2, list_elem_of_filter.
    split; [|done]. unfold purgeable.
    rewrite (bool_decide_eq_true_2 (Key ref ∈ _)) by (by apply list_elem_of_fmap_2).
    rewrite Hr, (sh_contents _ _ _ Sh). by rewrite (bool_decide_eq_true_2 _ Hc).
Qed.

Lemma collected_same d d1 d' d2 orphans :
  same_tables d d1 -> collected d1 d' orphans -> same_tables d' d2 -> collected d d2 orphans.
Proof.
  intros [E1 E2 E3 E4 E5 E6 E7 E8] (refs & dm & [H1 H2 H3 H4 H5 H6 H7 H8 H9 H10 H11 H12 H13] & P & ->) S.
  exists refs, dm. split; [|split; [by eapply purged_same_r|done]].
  rewrite E1, E2, E3, E4, E5, E6, E7, E8 in *. by split.
Qed.

(** *** The references collected before a deletion *)

Lemma content_refs_keys d ids :
  Key <$> content_refs d ids ≡ₚ (map_to_list (filter (λ kv : bytes * content_row,
      existsb (λ m : uuid * message_row, bool_decide (ms_inbox m.2 ∈ ids) && bool_decide (ms_content m.2 = kv.1))
        (map_to_list (messages d)) = true) (contents d))).*1.
Proof.
  unfold content_refs. rewrite merge_sort_Permutation, <- list_fmap_compose. done.
Qed.

Lemma content_refs_nodup d ids : NoDup (Key <$> content_refs d ids).
Proof. rewrite content_refs_keys. apply NoDup_fst_map_to_list. Qed.

Lemma content_refs_in d ids ref :
  ref ∈ content_refs d ids <-> exists r, contents d !! Key ref = Some r /\ ct_size r = SizeBytes ref /\
    exists id m, messages d !! id = Some m /\ ms_inbox m ∈ ids /\ ms_content m = Key ref.
Proof.
  unfold content_refs. rewrite merge_sort_Permutation, list_elem_of_fmap. split.
  - intros ([k r] & -> & [Hk Hx]%elem_of_map_to_list%map_lookup_filter_Some). cbn in *. exists r. do 2 (split; [done|]).
    apply existsb_exists in Hx as ([id m] & Hin & Hb). cbn in Hb. bool_to_prop. exists id, m.
    by apply list_elem_of_In, elem_of_map_to_list in Hin.
  - intros (r & Hr & Hs & id & m & Hm & Hi & Hc). destruct ref as [k sz]. cbn in *. subst. exists (ms_content m, r).
    split; [done|]. apply elem_of_map_to_list, map_lookup_filter_Some. split; [done|]. apply existsb_exists.
    exists (id, m). split; [by apply list_elem_of_In, elem_of_map_to_list|]. cbn. by rewrite !bool_decide_eq_true_2.
Qed.

Lemma delete_inboxes_shrunk d ids : db_ok d -> shrunk (content_refs d ids) d (delete_inboxes ids d).
Proof.
  intros [[R1 [R2 R3]] _ _ _ _ _ _ _]. split; cbn; try done.
  - apply map_filter_subseteq.
  - apply map_filter_subseteq.
  - apply map_filter_subseteq.
  - intros id m [Hm Hi]%map_lookup_filter_Some. destruct (R1 id m Hm) as [[r Hr] _]. exists r.
    by apply map_lookup_filter_Some.
  - intros id p [Hp Hi]%map_lookup_filter_Some. destruct (R3 id p Hp) as [r Hr]. exists r.
    by apply map_lookup_filter_Some.
  - intros id m Hm Hn. apply map_lookup_filter_None in Hn as [Hn|Hn]; [congruence|].
    specialize (Hn m Hm). cbn in Hn. apply dec_stable in Hn.
    destruct (R1 id m Hm) as [_ [r Hr]]. apply list_elem_of_fmap. exists (MkContentRef (ms_content m) (ct_size r)).
    split; [done|]. apply content_refs_in. exists r. split; [done|]. split; [done|]. by exists id, m.
  - apply content_refs_nodup.
  - intros ref r (r' & Hr' & Hs & _)%content_refs_in Hr. congruence.
Qed.

Lemma delete_message_shrunk d mid m r :
  db_ok d -> messages d !! mid = Some m -> contents d !! ms_content m = Some r ->
  shrunk [MkContentRef (ms_content m) (ct_size r)] d (set_messages d (delete mid (messages d))).
Proof.
  intros [[R1 [R2 R3]] _ _ _ _ _ _ _] Hm Hr. split; cbn; try done.
  - apply delete_subseteq.
  - intros id m' [_ Hm']%lookup_delete_Some. by apply (R1 id).
  - intros id m' Hm' [->|?]%lookup_delete_None; [|congruence]. rewrite Hm in Hm'. injection Hm' as <-. by left.
  - apply NoDup_singleton.
  - intros ref r' ->%list_elem_of_singleton. cbn. congruence.
Qed.

(** ** What the deleting operations guarantee *)

(** The rows of the inboxes [ids] are gone, with their messages and
    capabilities, and no others. *)
Definition removed (ids : list uuid) (d d' : db) : Prop :=
  inboxes d' = filter (λ kv : uuid * inbox_row, kv.1 ∉ ids) (inboxes d) /\
  messages d' = filter (λ kv : uuid * message_row, ms_inbox kv.2 ∉ ids) (messages d) /\
  capabilities d' = filter (λ kv : uuid * capability_row, cp_inbox kv.2 ∉ ids) (capabilities d).

(** [orphans] is exactly the content that lost its last message: its rows are
    deleted, and the removal of each object is queued under a new generation;
    all other content is untouched. *)
Definition reclaimed (d d' : db) (orphans : list ContentRef) : Prop :=
  NoDup (Key <$> orphans) /\
  (forall key, key ∈ Key <$> orphans <-> is_Some (contents d !! key) /\ referenced d' key = false) /\
  (forall key, contents d' !! key = if bool_decide (key ∈ Key <$> orphans) then None else contents d !! key) /\
  (forall ref, ref ∈ orphans ->
    exists n, deletions d' !! Key ref = Some (DeletionRow (SizeBytes ref) n (pg_time (db_now d))) /\
      forall r, deletions d !! Key ref = Some r -> dl_generation r < n).

Definition healthy (q : DeliveryLimits) (d : db) : Prop := db_ok d /\ no_garbage d /\ quota_ok q d.

Lemma collected_reclaimed d d' orphans : collected d d' orphans -> no_garbage d -> reclaimed d d' orphans.
Proof.
  intros HC Hg. pose proof (λ key, collected_orphans d d' orphans key HC Hg) as Ho.
  destruct (collected_queued _ _ _ HC) as [Hnd Hq]. split; [done|]. split; [done|]. split.
  - intros key. case_bool_decide as Hk.
    + apply list_elem_of_fmap in Hk as (ref & Hkey & Hin). subst key. by destruct (Hq ref Hin).
    + destruct (referenced d' key) eqn:Er; [by apply (collected_kept _ _ _ _ HC)|].
      destruct (contents d !! key) as [r|] eqn:Ec.
      * exfalso. apply Hk, Ho. rewrite Ec. eauto.
      * destruct HC as (refs & dm & Sh & P & _). rewrite (pu_contents _ _ _ P), (sh_contents _ _ _ Sh), Ec.
        by destruct (purgeable dm refs key).
  - intros ref Hin. by destruct (Hq ref Hin) as (_ & _ & ?).
Qed.

Lemma collected_healthy q d d' orphans : collected d d' orphans -> healthy q d -> healthy q d'.
Proof.
  intros HC (Hok & Hg & Hq). split; [by eapply collected_ok|]. split; [by eapply collected_garbage|].
  by eapply collected_quota.
Qed.

Lemma same_tables_healthy q d d' : same_tables d d' -> healthy q d -> healthy q d'.
Proof.
  intros S (Hok & Hg & Hq). split; [by eapply same_tables_ok|]. split.
  - intros key. rewrite (sm_contents _ _ S), (referenced_messages d d' key (sm_messages _ _ S)). apply Hg.
  - intros id. rewrite (usage_same d d' id S). apply Hq.
Qed.

Lemma set_now_healthy q d now : healthy q d -> healthy q (set_now d now).
Proof. intros ([R C A K O S D Q] & Hg & Hq). split; [by split|]. split; [exact Hg|exact Hq]. Qed.

Lemma delete_and_purge text ids d d' refs d1 orphans :
  db_ok d -> same_tables d d1 -> refs = content_refs d1 ids ->
  (exec text (delete_inboxes ids) ;;* purge_refs refs)%mw d1 = (d', Ok orphans) ->
  collected d d' orphans /\ removed ids d d'.
Proof.
  intros Hok S -> [(d2 & ? & E2 & Hp)|(e & _ & [=])]%dbind_inv.
  apply dbind_inv in E2 as [(d3 & ? & E3 & Hx)|(e & _ & [=])]. injection Hx as <- _.
  apply statement_same in E3 as [S3 _].
  pose proof (transitivity S S3) as Sd. pose proof (same_tables_ok _ _ Sd Hok) as Hok3.
  assert (content_refs d1 ids = content_refs d3 ids) as Hrefs.
  { unfold content_refs. by rewrite (sm_contents _ _ S3), (sm_messages _ _ S3). }
  rewrite Hrefs in Hp. pose proof (delete_inboxes_shrunk d3 ids Hok3) as Sh.
  apply purge_refs_ok in Hp as [P ->]; [|apply Sh|].
  2:{ intros ref r Hin Hr. by eapply (sh_sizes _ _ _ Sh). }
  split.
  - eapply (collected_same d d3 d' d'); [done| |done]. by exists (content_refs d3 ids), (delete_inboxes ids d3).
  - unfold removed. destruct P as [-> -> -> _ _ _ _ _ _], Sd as [E1 E2 E3 _ E5 _ _ _]. cbn. by rewrite E1, E3, E5.
Qed.

Lemma delete_inbox_body_ok id d d' orphans :
  db_ok d -> delete_inbox_body id d = (d', Ok orphans) ->
  inbox_live d id = true /\ collected d d' orphans /\ removed [id] d d'.
Proof.
  intros Hok [(d1 & live & E1 & Hx)|(e & _ & [=])]%dbind_inv. apply query_inv in E1 as (S1 & _ & [[= ->]|[e [=]]]).
  rewrite (inbox_live_same d d1 id S1) in Hx. destruct (inbox_live d id); [|done]. cbn [negb] in Hx. split; [done|].
  apply dbind_inv in Hx as [(d2 & refs & E2 & Hx)|(e & _ & [=])]. apply query_inv in E2 as (S2 & _ & [[= ->]|[e [=]]]).
  eapply delete_and_purge; [done|by etrans|done|done].
Qed.

(** The whole effect of [DeleteInbox]. *)
Lemma DeleteInbox_effect `{!UUIDLib} (q : DeliveryLimits) (inboxID : InboxID) (d d' : db) r :
  healthy q d -> DeleteInbox inboxID d = (d', r) ->
  healthy q d' /\
  match r with
  | Ok orphans => exists u, uuid_parse inboxID = Some u /\ inbox_live d u = true /\ removed [u] d d' /\ reclaimed d d' orphans
  | Err _ => same_tables d d' \/ exists u orphans, uuid_parse inboxID = Some u /\ removed [u] d d' /\ reclaimed d d' orphans
  end.
Proof.
  intros Hh. unfold DeleteInbox, cast. destruct (uuid_parse inboxID) as [u|]; [|intros [= <- <-]; split; [done|by left]].
  intros [(S & e & ->)|(d1 & d2 & orphans & S1 & _ & Hb & S2 & _ & Hr)]%transaction_inv.
  { split; [by eapply same_tables_healthy|by left]. }
  pose proof (same_tables_healthy _ _ _ S1 Hh) as (Hok1 & _ & _).
  apply delete_inbox_body_ok in Hb as (Hl & HC & Hrm); [|done].
  pose proof (collected_same _ _ _ _ _ S1 HC S2) as HC'. rewrite (inbox_live_same d d1 u S1) in Hl.
  assert (removed [u] d d') as Hrm'.
  { unfold removed in *. destruct S1 as [E1 _ E3 _ E5 _ _ _], S2 as [F1 _ F3 _ F5 _ _ _].
    rewrite F1, F3, F5, <- E1, <- E3, <- E5. done. }
  split; [by eapply collected_healthy|]. pose proof (collected_reclaimed _ _ _ HC' (proj1 (proj2 Hh))).
  destruct Hr as [->|[e ->]]; [by exists u|right; by exists u, orphans].
Qed.

(** Deleting an inbox leaves no trace and no garbage.  It removes exactly
    the inbox, its messages and its capabilities; exactly the content that no
    other inbox still uses is dropped, reported and queued (with a fresh
    generation) for removal of its object; integrity, quotas and the absence
    of unreferenced content are kept, and a failure changes nothing unless
    only the commit's acknowledgement was lost. *)
Theorem delete_inbox_collects `{!UUIDLib} (q : DeliveryLimits) (inboxID : InboxID) (d d' : db) r :
  healthy q d -> DeleteInbox inboxID d = (d', r) ->
  healthy q d' /\
  match r with
  | Ok orphans => exists u, uuid_parse inboxID = Some u /\ inbox_live d u = true /\ removed [u] d d' /\ reclaimed d d' orphans
  | Err _ => same_tables d d' \/ exists u orphans, uuid_parse inboxID = Some u /\ removed [u] d d' /\ reclaimed d d' orphans
  end.
Proof. apply DeleteInbox_effect. Qed.

Lemma delete_message_body_ok id mid d d' orphan :
  db_ok d -> delete_message_body id mid d = (d', Ok orphan) ->
  is_Some (owned d id mid) /\ collected d d' (option_list orphan) /\
  inboxes d' = inboxes d /\ messages d' = delete mid (messages d) /\ capabilities d' = capabilities d.
Proof.
  intros Hok [(d1 & found & E1 & Hx)|(e & _ & [=])]%dbind_inv. apply query_inv in E1 as (S1 & _ & [[= ->]|[e [=]]]).
  assert (owned d1 id mid = owned d id mid) as Ho.
  { unfold owned. by rewrite (sm_messages _ _ S1), (inbox_live_same d d1 id S1). }
  rewrite Ho in Hx. destruct (owned d id mid) as [m|] eqn:Eo; [|done]. split; [by eauto|].
  destruct (contents d1 !! ms_content m) as [r|] eqn:Er; [|done]. cbn [fmap option_fmap option_map] in Hx.
  apply dbind_inv in Hx as [(d2 & ? & E2 & Hx)|(e & _ & [=])].
  apply dbind_inv in E2 as [(d3 & ? & E3 & Hd)|(e & _ & [=])]. injection Hd as <- _.
  apply statement_same in E3 as [S3 _]. apply dbind_inv in Hx as [(d4 & orphans & E4 & Hx)|(e & _ & [=])].
  injection Hx as -> <-. pose proof (transitivity S1 S3) as S.
  assert (messages d3 !! mid = Some m) as Hm.
  { rewrite (sm_messages _ _ S). unfold owned in Eo. destruct (messages d !! mid) as [m'|]; [|done].
    destruct (bool_decide _ && _); [exact Eo|done]. }
  rewrite <- (sm_contents _ _ S3) in Er.
  pose proof (delete_message_shrunk d3 mid m r (same_tables_ok _ _ S Hok) Hm Er) as Sh.
  apply purge_refs_ok in E4 as [P Horph]; [|apply Sh|intros ref r' Hin Hr'; by eapply (sh_sizes _ _ _ Sh)].
  split.
  - eapply (collected_same d d3 d' d'); [done| |done]. exists [MkContentRef (ms_content m) (ct_size r)].
    eexists. split; [exact Sh|]. split; [exact P|]. rewrite Horph. unfold orphans_of. rewrite filter_cons. by case_decide.
  - destruct P as [-> -> -> _ _ _ _ _ _], S as [E1 E2 E3 _ E5 _ _ _]. cbn. by rewrite E1, E3, E5.
Qed.

(** a message can be deleted only through a live inbox that owns it, and
    deleting it removes exactly that message; its content is dropped and
    queued, and reported, exactly when no other message (of any inbox) uses
    it.  Integrity, quotas and the absence of garbage are kept on all paths. *)
Theorem delete_message_collects `{!UUIDLib} (q : DeliveryLimits) (inboxID : InboxID) (messageID : MessageID) (d d' : db) r :
  healthy q d -> DeleteMessage inboxID messageID d = (d', r) ->
  healthy q d' /\
  match r with
  | Ok orphan => exists id mid, uuid_parse inboxID = Some id /\ uuid_parse messageID = Some mid /\ is_Some (owned d id mid) /\
      inboxes d' = inboxes d /\ messages d' = delete mid (messages d) /\ reclaimed d d' (option_list orphan)
  | Err _ => same_tables d d' \/ exists id mid orphan, uuid_parse inboxID = Some id /\ uuid_parse messageID = Some mid /\
      is_Some (owned d id mid) /\ messages d' = delete mid (messages d) /\ reclaimed d d' (option_list orphan)
  end.
Proof.
  intros Hh. unfold DeleteMessage, cast. destruct (uuid_parse inboxID) as [id|]; [|intros [= <- <-]; split; [done|by left]].
  destruct (uuid_parse messageID) as [mid|]; [|intros [= <- <-]; split; [done|by left]].
  intros [(S & e & ->)|(d1 & d2 & orphan & S1 & _ & Hb & S2 & _ & Hr)]%transaction_inv.
  { split; [by eapply same_tables_healthy|by left]. }
  pose proof (same_tables_healthy _ _ _ S1 Hh) as (Hok1 & _ & _).
  apply delete_message_body_ok in Hb as (Ho & HC & H1 & H2 & H3); [|done].
  pose proof (collected_same _ _ _ _ _ S1 HC S2) as HC'.
  assert (owned d1 id mid = owned d id mid) as Heq by (unfold owned; by rewrite (sm_messages _ _ S1), (inbox_live_same d d1 id S1)).
  rewrite Heq in Ho. destruct S1 as [E1 _ E3 _ _ _ _ _], S2 as [F1 _ F3 _ _ _ _ _].
  split; [by eapply collected_healthy|]. pose proof (collected_reclaimed _ _ _ HC' (proj1 (proj2 Hh))).
  destruct Hr as [->|[e ->]]; [exists id, mid|right; exists id, mid, orphan]; repeat (split; [congruence || done|]); done.
Qed.

(** *** Cleanup *)

Lemma expiry_le_total a b : expiry_le a b \/ expiry_le b a.
Proof.
  unfold expiry_le. rewrite !orb_true_iff, !andb_true_iff, !Z.ltb_lt, !Z.eqb_eq.
  destruct (Z.lt_trichotomy (in_expires a.2) (in_expires b.2)) as [?|[Heq|?]]; [tauto| |tauto].
  destruct (bytes_leb_total a.1 b.1); [left|right]; right; by split.
Qed.

Lemma expiry_le_trans a b c : expiry_le a b -> expiry_le b c -> expiry_le a c.
Proof.
  unfold expiry_le. rewrite !orb_true_iff, !andb_true_iff, !Z.ltb_lt, !Z.eqb_eq.
  intros [?|[? H1]] [?|[? H2]]; [left; lia|left; lia|left; lia|right]. split; [lia|]. by eapply bytes_leb_trans.
Qed.

#[global] Instance expiry_le_preorder : Transitive expiry_le.
Proof. intros a b c. apply expiry_le_trans. Qed.

#[global] Instance expiry_le_Total : Total expiry_le.
Proof. intros a b. apply expiry_le_total. Qed.

(** The batch: expired inboxes, each once, the longest expired first. *)
Lemma expired_ids_spec d n :
  NoDup (expired_ids d n) /\ (length (expired_ids d n) <= Z.to_nat n)%nat /\
  (forall id, id ∈ expired_ids d n -> exists r, inboxes d !! id = Some r /\ in_expires r <= db_now d) /\
  (forall id r, inboxes d !! id = Some r -> in_expires r <= db_now d -> id ∉ expired_ids d n ->
    length (expired_ids d n) = Z.to_nat n /\
    forall id' r', id' ∈ expired_ids d n -> inboxes d !! id' = Some r' -> in_expires r' <= in_expires r).
Proof.
  unfold expired_ids. set (f := filter _ _). set (l := merge_sort expiry_le (map_to_list f)).
  assert (l ≡ₚ map_to_list f) as HP by apply merge_sort_Permutation.
  assert (StronglySorted expiry_le l) as HS by (apply StronglySorted_merge_sort; apply _).
  assert (NoDup l.*1) as Hnd by (rewrite HP; apply NoDup_fst_map_to_list).
  assert (forall id r, (id, r) ∈ l <-> inboxes d !! id = Some r /\ in_expires r <= db_now d) as Hin.
  { intros id r. rewrite HP, elem_of_map_to_list. unfold f. by rewrite map_lookup_filter_Some. }
  clearbody l. clear HP f. split; [|split; [|split]].
  - eapply sublist_NoDup; [exact Hnd|]. apply sublist_take.
  - rewrite length_take. lia.
  - intros id Hid. rewrite <- fmap_take in Hid. apply list_elem_of_fmap in Hid as ([k r] & Hk & Hx). cbn in Hk. subst.
    exists r. apply Hin. apply elem_of_take in Hx as (i & Hi & _). by eapply list_elem_of_lookup_2.
  - intros id r Hr He Hn. assert ((id, r) ∈ l) as Hl by (by apply Hin).
    rewrite <- (take_drop (Z.to_nat n) l) in Hl. apply elem_of_app in Hl as [Hl|Hl].
    { exfalso. apply Hn. rewrite <- fmap_take. by apply (list_elem_of_fmap_2 fst) in Hl. }
    split.
    + rewrite length_take, length_fmap. apply list_elem_of_lookup in Hl as [i Hi]. rewrite lookup_drop in Hi.
      apply lookup_lt_Some in Hi. lia.
    + intros id' r' Hid' Hr'. rewrite <- fmap_take in Hid'.
      apply list_elem_of_fmap in Hid' as ([k x] & Hk & Hx). cbn in Hk. subst k.
      rewrite <- (take_drop (Z.to_nat n) l) in HS. apply StronglySorted_app in HS as (Hcross & _ & _).
      specialize (Hcross (id', x) (id, r) Hx Hl).
      assert (inboxes d !! id' = Some x) as Hx'.
      { apply (Hin id' x). rewrite <- (take_drop (Z.to_nat n) l). apply elem_of_app. by left. }
      rewrite Hr' in Hx'. injection Hx' as ->.
      unfold expiry_le in Hcross. rewrite orb_true_iff, andb_true_iff, Z.ltb_lt, Z.eqb_eq in Hcross. cbn in Hcross. lia.
Qed.

Lemma cleanup_body_ok n d d' count orphans :
  db_ok d -> cleanup_body n d = (d', Ok (count, orphans)) ->
  exists ids, count = zlen ids /\ ids = (if db_cleanup_busy d then [] else expired_ids d n) /\
    collected d d' orphans /\ removed ids d d'.
Proof.
  intros Hok Hb.
  assert (forall d1, same_tables d d1 -> collected d d1 [] /\ removed [] d d1) as Hnil.
  { intros d1 S. pose proof (delete_inboxes_shrunk d [] Hok) as Sh.
    assert (content_refs d [] = []) as Hr.
    { destruct (content_refs d []) as [|ref l] eqn:E; [done|]. exfalso.
      assert (ref ∈ content_refs d []) as Hin by (rewrite E; by left).
      apply content_refs_in in Hin as (r & _ & _ & id & m & _ & Hin & _). by apply elem_of_nil in Hin. }
    assert (removed [] d d) as Hrm.
    { split; [|split]; symmetry; apply map_filter_id; intros i x _; apply not_elem_of_nil. }
    split; [|destruct S as [E1 _ E3 _ E5 _ _ _]; unfold removed in *; by rewrite E1, E3, E5].
    eapply (collected_same d d d); [done| |done]. exists [], d. rewrite Hr in Sh.
    destruct Sh as [_ _ _ _ _ _ _ _ _ _ _ H12 H13]. destruct (ok_refs _ Hok) as [R1 [R2 R3]]. split; [|split; [|done]].
    - split; try done; [by intros id m Hm; apply (R1 id m Hm)|]. congruence.
    - split; try done; intros key; unfold purgeable; rewrite bool_decide_eq_false_2; try done; apply not_elem_of_nil. }
  apply dbind_inv in Hb as [(d1 & busy & E1 & Hx)|(e & _ & [=])].
  assert (busy = db_cleanup_busy d) as ->.
  { apply dbind_inv in E1 as [(d0 & ? & E0 & Hx0)|(e & _ & [=])]. injection Hx0 as <- <-. by eapply statement_busy. }
  apply query_inv in E1 as (S1 & _ & _). destruct (db_cleanup_busy d).
  { injection Hx as <- <- <-. exists []. by destruct (Hnil d1 S1). }
  apply dbind_inv in Hx as [(d2 & ids & E2 & Hx)|(e & _ & [=])]. apply query_inv in E2 as (S2 & _ & [[= ->]|[e [=]]]).
  pose proof (transitivity S1 S2) as S.
  assert (expired_ids d2 n = expired_ids d n) as Hids.
  { unfold expired_ids. by rewrite (sm_inboxes _ _ S), (sm_now _ _ S). }
  rewrite Hids in Hx. exists (expired_ids d n). destruct (expired_ids d n) as [|id ids] eqn:Ei.
  { injection Hx as <- <- <-. by destruct (Hnil d2 S). }
  apply dbind_inv in Hx as [(d3 & refs & E3 & Hx)|(e & _ & [=])]. apply query_inv in E3 as (S3 & _ & [[= ->]|[e [=]]]).
  assert ((exec "delete expired Inboxes" (delete_inboxes (id :: ids)) ;;* purge_refs (content_refs d3 (id :: ids)))%mw d3
    = (d', Ok orphans) /\ count = zlen (id :: ids)) as [Hdp ->].
  { apply dbind_inv in Hx as [(d4 & u & E4 & Hx)|(e & _ & [=])]. apply dbind_inv in Hx as [(d5 & o & E5 & Hx)|(e & _ & [=])].
    injection Hx as <- <- <-. split; [|done]. unfold dbind at 1. by rewrite E4. }
  do 2 (split; [done|]). eapply delete_and_purge; [done|by etrans|done|exact Hdp].
Qed.

(** What a successful batch did. *)
Lemma CleanupExpiredInboxes_Ok (q : DeliveryLimits) (batchSize : Z) (d d' : db) (count : Z) (orphans : list ContentRef) :
  healthy q d -> CleanupExpiredInboxes batchSize d = (d', Ok (count, orphans)) ->
  healthy q d' /\ reclaimed d d' orphans /\
  exists ids, removed ids d d' /\ count = zlen ids /\ NoDup ids /\ count <= batchSize <= 1000 /\
    (forall id, id ∈ ids -> exists r, inboxes d !! id = Some r /\ in_expires r <= db_now d) /\
    (forall id r id' r', inboxes d' !! id = Some r -> in_expires r <= db_now d -> id' ∈ ids ->
      inboxes d !! id' = Some r' -> in_expires r' <= in_expires r) /\
    (db_cleanup_busy d = false -> count < batchSize ->
      forall id r, inboxes d' !! id = Some r -> db_now d < in_expires r).
Proof.
  intros Hh. unfold CleanupExpiredInboxes. destruct ((batchSize <=? 0) || (1000 <? batchSize)) eqn:Eb; [done|]. bool_to_prop.
  intros [(S & e & [=])|(d1 & d2 & res & S1 & [_ B1] & Hb & S2 & _ & [[= <-]|[e [=]]])]%transaction_inv.
  pose proof (same_tables_healthy _ _ _ S1 Hh) as (Hok1 & _ & _).
  apply cleanup_body_ok in Hb as (ids & -> & Hids & HC & Hrm); [|done].
  pose proof (collected_same _ _ _ _ _ S1 HC S2) as HC'.
  split; [by eapply collected_healthy|]. split; [by apply collected_reclaimed, Hh|].
  assert (expired_ids d1 batchSize = expired_ids d batchSize) as He.
  { unfold expired_ids. by rewrite (sm_inboxes _ _ S1), (sm_now _ _ S1). }
  rewrite B1, He in Hids. destruct (expired_ids_spec d batchSize) as (X1 & X2 & X3 & X4).
  destruct S1 as [E1 _ E3 _ E5 _ _ _], S2 as [F1 _ F3 _ F5 _ _ _]. unfold removed in Hrm. rewrite E1, E3, E5 in Hrm.
  exists ids. split; [unfold removed; by rewrite F1, F3, F5|]. split; [done|].
  assert (forall id r, inboxes d' !! id = Some r -> inboxes d !! id = Some r /\ id ∉ ids) as Hleft.
  { intros id r. rewrite F1, (proj1 Hrm). by intros [? ?]%map_lookup_filter_Some. }
  destruct (db_cleanup_busy d).
  { subst ids. split; [constructor|]. split; [split; [change (zlen _) with 0; lia|lia]|].
    split; [intros id Hin; by apply elem_of_nil in Hin|]. split; [|done]. intros ? ? ? ? _ _ Hin. by apply elem_of_nil in Hin. }
  subst ids. split; [done|]. split; [unfold zlen; lia|]. split; [done|]. split.
  - intros id r id' r' Hr He' Hin Hr'. destruct (Hleft id r Hr) as [Hr0 Hn]. by apply (X4 id r Hr0 He' Hn) with id'.
  - intros _ Hlt id r Hr. destruct (Hleft id r Hr) as [Hr0 Hn].
    destruct (Z.lt_ge_cases (db_now d) (in_expires r)) as [?|Hge]; [done|].
    destruct (X4 id r Hr0 Hge Hn) as [Hl _]. unfold zlen in Hlt. lia.
Qed.


(** *** Listing *)

Lemma key_ltb_spec a b : key_ltb a b = true <-> a.1 < b.1 \/ a.1 = b.1 /\ a.2 <> b.2 /\ bytes_leb a.2 b.2 = true.
Proof.
  unfold key_ltb. rewrite orb_true_iff, !andb_true_iff, Z.ltb_lt, Z.eqb_eq, negb_true_iff, bool_decide_eq_false. tauto.
Qed.

Lemma key_ltb_total a b : key_ltb a b = false -> key_ltb b a = false -> a = b.
Proof.
  destruct (key_ltb a b) eqn:E1, (key_ltb b a) eqn:E2; try done. intros _ _.
  destruct (Z.lt_trichotomy a.1 b.1) as [Hlt|[Heq|Hlt]].
  - assert (key_ltb a b = true) by (apply key_ltb_spec; by left). congruence.
  - destruct (decide (a.2 = b.2)) as [He|Hne]; [by destruct a, b; cbn in *; subst|].
    destruct (bytes_leb_total a.2 b.2).
    + assert (key_ltb a b = true) by (apply key_ltb_spec; by right). congruence.
    + assert (key_ltb b a = true) by (apply key_ltb_spec; right; by split_and!). congruence.
  - assert (key_ltb b a = true) by (apply key_ltb_spec; by left). congruence.
Qed.

Lemma key_ltb_trans a b c : key_ltb a b = true -> key_ltb b c = true -> key_ltb a c = true.
Proof.
  rewrite !key_ltb_spec. intros [?|(H1 & H2 & H3)] [?|(K1 & K2 & K3)]; try (left; lia). right. split; [lia|].
  split; [|by eapply bytes_leb_trans]. intros Heq. rewrite Heq in *. apply H2. by apply bytes_leb_antisym.
Qed.

Lemma key_ltb_irrefl a : key_ltb a a = false.
Proof. destruct (key_ltb a a) eqn:E; [|done]. apply key_ltb_spec in E as [?|(_ & ? & _)]; [lia|done]. Qed.

#[global] Instance newer_trans : Transitive newer.
Proof.
  intros a b c. unfold newer. intros H1 H2. destruct (key_ltb (row_key a) (row_key c)) eqn:E; [|done].
  destruct (key_ltb (row_key b) (row_key a)) eqn:E2.
  - by rewrite (key_ltb_trans _ _ _ E2 E) in H2.
  - pose proof (key_ltb_total _ _ H1 E2) as Heq. congruence.
Qed.

#[global] Instance newer_total : Total newer.
Proof.
  intros a b. unfold newer. destruct (key_ltb (row_key a) (row_key b)) eqn:E; [right|by left].
  destruct (key_ltb (row_key b) (row_key a)) eqn:E2; [|done].
  pose proof (key_ltb_trans _ _ _ E E2) as Hx. by rewrite key_ltb_irrefl in Hx.
Qed.

Lemma newest_first_sorted l : StronglySorted newer (newest_first l).
Proof. apply StronglySorted_merge_sort; apply _. Qed.

(** Two newest-first lists of the same rows are the same list. *)
Lemma newest_first_unique l1 l2 :
  NoDup l1.*1 -> l1 ≡ₚ l2 -> StronglySorted newer l1 -> StronglySorted newer l2 -> l1 = l2.
Proof.
  intros Hnd HP H1 H2. apply (StronglySorted_unique_strong newer); [|done..].
  intros [k x] [k' y] Hx Hy Hxy Hyx. pose proof (key_ltb_total _ _ Hxy Hyx) as Heq. injection Heq as _ <-.
  rewrite <- HP in Hy. apply list_elem_of_lookup in Hx as [i Hi], Hy as [j Hj].
  assert (i = j) as <-.
  { eapply NoDup_lookup; [exact Hnd| |]; rewrite list_lookup_fmap; [by rewrite Hi|by rewrite Hj]. }
  congruence.
Qed.

(** What comes after a row in a newest-first list is what is older. *)
Lemma older_is_rest l i x :
  NoDup l.*1 -> StronglySorted newer l -> l !! i = Some x ->
  filter (λ kv, key_ltb (row_key kv) (row_key x) = true) l = drop (S i) l.
Proof.
  intros Hnd HS Hi. pose proof (take_drop_middle l i x Hi) as Hl.
  rewrite <- Hl at 1. rewrite filter_app, filter_cons, decide_False by (by rewrite key_ltb_irrefl).
  rewrite <- Hl in HS. apply StronglySorted_app in HS as (Hc & _ & HS).
  rewrite (filter_none _ (take i l)), (filter_all _ (drop (S i) l)); [done| |].
  - intros y Hy. apply StronglySorted_inv in HS as [_ HS]. rewrite Forall_forall in HS. specialize (HS y Hy).
    unfold newer in HS. destruct (key_ltb (row_key y) (row_key x)) eqn:E; [done|]. exfalso.
    pose proof (key_ltb_total _ _ HS E) as Heq. injection Heq as _ Heq.
    apply list_elem_of_lookup in Hy as [j Hj]. rewrite lookup_drop in Hj.
    assert (i = (S i + j)%nat); [|lia]. eapply NoDup_lookup; [exact Hnd| |]; rewrite list_lookup_fmap;
      [rewrite Hi; reflexivity|rewrite Hj; cbn; by f_equal].
  - intros y Hy Hlt. specialize (Hc y x Hy ltac:(by left)). unfold newer in Hc. congruence.
Qed.
(** *** Deliveries keep it *)

Lemma delivered_garbage `{!UUIDLib} l d d' delivery us new :
  d_Recipients delivery <> [] -> no_garbage d -> delivered l d d' delivery us new -> no_garbage d'.
Proof.
  intros Hne Hg [Hus Hnd Hlive Hq (r & Hr & Hrs) Hcs HF [I1 I2 I3 I4 I5 I6 I7 I8 I9 I10]] key Hk.
  apply referenced_spec. destruct (decide (key = Key (d_Content delivery))) as [->|Hne'].
  - destruct new as [|[k m] new].
    { exfalso. apply Forall2_nil_inv_r in HF. subst us. apply length_mapM in Hus. by destruct (d_Recipients delivery). }
    exists k, m. inversion HF as [|u kv us' new' Hrow HF']; subst. rewrite I8. cbn [snd] in Hrow. rewrite Hrow. split; [|done].
    cbn. by rewrite lookup_union_l', lookup_insert_eq by (rewrite lookup_insert_eq; by eauto).
  - assert (is_Some (contents d !! key)) as Hk0.
    { destruct Hcs as [->|[_ ->]] in Hk |- *; [done|]. by rewrite lookup_insert_ne in Hk. }
    apply Hg, referenced_spec in Hk0 as (id & m & Hm & Hc). exists id, m. split; [|done]. rewrite I8. cbn.
    rewrite lookup_union_r; [done|]. apply not_elem_of_list_to_map_1. intros Hin%I10. cbn in Hin. congruence.
Qed.

Lemma commit_healthy `{!UUIDLib} `{!UUIDSpec _} q delivery d d' r :
  healthy q d -> Forall canonical_id (d_Recipients delivery) ->
  CommitDelivery (Some q) delivery d = (d', r) -> healthy q d'.
Proof.
  intros Hh Hc Hcd%CommitDelivery_inv.
  assert (same_tables d d' \/ Delivery_Validate delivery = None /\
    exists d1 us new, same_tables d d1 /\ delivered (Some q) d1 d' delivery us new) as Hx.
  { destruct r; [|done]. destruct Hcd as (Hv & d1 & us & new & S & Hd & _). right. split; [done|]. by exists d1, us, new. }
  destruct Hx as [S|(Hv & d1 & us & new & S & Hd)]; [by eapply same_tables_healthy|].
  destruct (same_tables_healthy q _ _ S Hh) as (Hok & Hg & Hq).
  unfold Delivery_Validate in Hv. destruct (ContentRef_Validate (d_Content delivery)) eqn:Ev; [done|].
  case_bool_decide; [done|]. apply validateEnvelope_ok in Hv as [_ [Hne _]].
  split; [by eapply delivered_ok|]. split; [by eapply delivered_garbage|by eapply delivered_quota].
Qed.

(** *** Summaries for the components that use the repository *)

Lemma collected_messages d d' orphans : collected d d' orphans -> messages d' ⊆ messages d.
Proof. intros (refs & dm & Sh & P & _). rewrite (pu_messages _ _ _ P). apply Sh. Qed.

Lemma collected_contents d d' orphans key r : collected d d' orphans -> contents d' !! key = Some r -> contents d !! key = Some r.
Proof.
  intros (refs & dm & Sh & P & _). rewrite (pu_contents _ _ _ P), (sh_contents _ _ _ Sh). by destruct (purgeable dm refs key).
Qed.

(** A transaction of one of the deleting operations; [P] relates the
    messages before and after its body. *)
Lemma collecting_transaction {A : Type} (P : gmap uuid message_row -> gmap uuid message_row -> Prop) bt ct (m : DB A) d d' x :
  db_ok d ->
  (forall d1 d2 a, db_ok d1 -> m d1 = (d2, Ok a) -> (exists orphans, collected d1 d2 orphans) /\ P (messages d1) (messages d2)) ->
  transaction bt ct m d = (d', x) ->
  same_tables d d' \/ (exists orphans, collected d d' orphans) /\ P (messages d) (messages d').
Proof.
  intros Hok Hm [(S & _)|(d1 & d2 & a & S1 & _ & Hb & S2 & _ & _)]%transaction_inv; [by left|right].
  destruct (Hm d1 d2 a) as [[orphans HC] HP]; [by eapply same_tables_ok|done|].
  rewrite <- (sm_messages _ _ S1), (sm_messages _ _ S2). split; [|done]. exists orphans. by eapply collected_same.
Qed.

Definition without_inboxes (ids : list uuid) (ms ms' : gmap uuid message_row) : Prop :=
  ms' = filter (λ kv : uuid * message_row, ms_inbox kv.2 ∉ ids) ms.

Lemma DeleteInbox_inv `{!UUIDLib} inboxID d d' x :
  db_ok d -> DeleteInbox inboxID d = (d', x) ->
  same_tables d d' \/ (exists orphans, collected d d' orphans) /\ exists ids, without_inboxes ids (messages d) (messages d').
Proof.
  intros Hok. unfold DeleteInbox. destruct (cast _ inboxID) as [u|]; [|intros [= <- <-]; by left].
  apply (collecting_transaction (λ ms ms', exists ids, without_inboxes ids ms ms')); [done|].
  intros d1 d2 o Hok1 (_ & HC & Hrm)%delete_inbox_body_ok; [|done]. split; [by eauto|]. exists [u]. apply Hrm.
Qed.

Lemma DeleteMessage_inv `{!UUIDLib} inboxID messageID d d' x :
  db_ok d -> DeleteMessage inboxID messageID d = (d', x) ->
  same_tables d d' \/ (exists orphans, collected d d' orphans) /\ exists mid, messages d' = delete mid (messages d).
Proof.
  intros Hok. unfold DeleteMessage. destruct (cast _ inboxID); [|intros [= <- <-]; by left].
  destruct (cast _ messageID) as [mid|]; [|intros [= <- <-]; by left].
  apply (collecting_transaction (λ ms ms', exists mid, ms' = delete mid ms)); [done|].
  intros d1 d2 o Hok1 (_ & HC & _ & Hm & _)%delete_message_body_ok; [|done]. split; by eauto.
Qed.

Lemma CleanupExpiredInboxes_inv n d d' x :
  db_ok d -> CleanupExpiredInboxes n d = (d', x) ->
  same_tables d d' \/ (exists orphans, collected d d' orphans) /\ exists ids, without_inboxes ids (messages d) (messages d').
Proof.
  intros Hok. unfold CleanupExpiredInboxes. destruct (_ || _); [intros [= <- <-]; by left|].
  apply (collecting_transaction (λ ms ms', exists ids, without_inboxes ids ms ms')); [done|].
  intros d1 d2 [k o] Hok1 (ids & _ & _ & HC & Hrm)%cleanup_body_ok; [|done]. split; [by eauto|]. exists ids. apply Hrm.
Qed.

(** Creating an inbox and marking a message seen. *)
Lemma find_address_None d a : find_address d a = None -> forall id r, inboxes d !! id = Some r -> in_address r <> a.
Proof.
  unfold find_address. destruct (list_find _ _) as [x|] eqn:E; [done|]. intros _ id r Hr.
  apply list_find_None in E. rewrite Forall_forall in E. by apply (E (id, r)), elem_of_map_to_list.
Qed.

Lemma CreateInbox_inv `{!UUIDLib} q candidate d d' x :
  healthy q d -> CreateInbox candidate d = (d', x) ->
  healthy q d' /\ messages d' = messages d /\ contents d' = contents d /\
  match x with
  | Ok inbox => exists id r, inbox = inbox_of id r /\ length id = 16%nat /\ inboxes d !! id = None /\
      (forall j s, inboxes d !! j = Some s -> in_address s <> ni_Address candidate) /\
      inboxes d' = <[id := r]> (inboxes d) /\ in_address r = ni_Address candidate /\ in_status r = Active /\
      in_expires r = pg_time (ni_ExpiresAt candidate)
  | Err _ => same_tables d d'
  end.
Proof.
  intros Hh [(d1 & u & E & Hx)|(e & E & ->)]%dbind_inv; apply statement_same in E as [S N];
    pose proof (same_tables_healthy q _ _ S Hh) as Hh1.
  2:{ split; [done|]. by rewrite (sm_messages _ _ S), (sm_contents _ _ S). }
  assert (forall e, (d1, Err (A:=Inbox) e) = (d', x) -> healthy q d' /\ messages d' = messages d /\ contents d' = contents d /\
    match x with Ok _ => False | Err _ => same_tables d d' end) as Herr.
  { intros e [= <- <-]. split; [done|]. by rewrite (sm_messages _ _ S), (sm_contents _ _ S). }
  destruct (negb (address_check _)). { apply Herr in Hx as (? & ? & ? & ?). by destruct x. }
  destruct (find_address d1 _) eqn:Ef. { apply Herr in Hx as (? & ? & ? & ?). by destruct x. }
  destruct (inboxes d1 !! new_uuid d1) eqn:Eu. { apply Herr in Hx as (? & ? & ? & ?). by destruct x. }
  clear Herr. injection Hx as <- <-. pose proof (find_address_None _ _ Ef) as Hadr.
  destruct S as [E1 E2 E3 E4 E5 E6 E7 E8]. destruct Hh1 as ([[R1 [R2 R3]] C A K O Sc D Q] & Hg & Hq).
  assert (forall i, is_Some (inboxes d1 !! i) -> forall y, is_Some (<[new_uuid d1 := y]> (inboxes d1) !! i)) as Hmono.
  { intros i Hi y. rewrite lookup_insert_is_Some. destruct (decide (new_uuid d1 = i)); auto. }
  split; [split; [split; cbn; try done|by split]|].
  - split; [|split; [done|]].
    + intros id m Hm. destruct (R1 id m Hm). cbn. split; [by apply Hmono|done].
    + intros id p Hp. cbn. apply Hmono. by apply (R3 id).
  - intros i j r s. rewrite !lookup_insert_Some. intros [[<- <-]|[Hi Hr]] [[<- <-]|[Hj Hs]] Heq; [done| | |by eapply A].
    + by destruct (Hadr j s Hs).
    + by destruct (Hadr i r Hr).
  - split; [done|]. split; [done|]. eexists _, _. split; [done|]. split; [apply length_be_encode|]. rewrite <- E1.
    split; [done|]. split; [done|]. done.
Qed.

Lemma set_deletions_healthy q d m :
  (forall key r, m !! key = Some r -> deletions d !! key = Some r) -> healthy q d -> healthy q (set_deletions d m).
Proof.
  intros Hm ([R C A K O S D Q] & Hg & Hq). split; [|by split]. split; try done. intros key r Hr%Hm. by apply D.
Qed.

Lemma AcknowledgeContentDeletion_inv q key generation d d' x :
  healthy q d -> AcknowledgeContentDeletion key generation d = (d', x) ->
  healthy q d' /\ messages d' = messages d /\ contents d' = contents d /\ inboxes d' = inboxes d.
Proof.
  intros Hh. unfold AcknowledgeContentDeletion. destruct (generation <=? 0); [by intros [= <- <-]|].
  intros [(d1 & u & E & Hx)|(e & E & ->)]%dbind_inv; apply statement_same in E as [S _];
    pose proof (same_tables_healthy q _ _ S Hh) as Hh1; destruct S as [E1 E2 E3 _ _ _ _ _]; [|done].
  destruct (deletions d1 !! key) as [r|]; [|by injection Hx as <- <-].
  destruct (dl_generation r =? generation); injection Hx as <- <-; [|done]. split; [|done].
  apply set_deletions_healthy; [|done]. intros k y [_ Hy]%lookup_delete_Some. done.
Qed.

Lemma usage_replace d k m m' id :
  messages d !! k = Some m -> ms_inbox m' = ms_inbox m -> ms_content m' = ms_content m ->
  usage_of (set_messages d (<[k := m']> (messages d))) id = usage_of d id.
Proof.
  intros Hk Hi Hc. set (d0 := set_messages d (delete k (messages d))).
  assert (messages d0 !! k = None) as Hn by apply lookup_delete_eq.
  assert (set_messages d (<[k := m']> (messages d)) = set_messages d0 (<[k := m']> (messages d0))) as ->.
  { unfold d0, set_messages. cbn. by rewrite insert_delete_eq. }
  assert (usage_of d id = usage_of (set_messages d0 (<[k := m]> (messages d0))) id) as ->.
  { f_equal. unfold d0, set_messages. cbn. rewrite insert_delete_eq, insert_id by done. by destruct d. }
  rewrite !usage_insert by done. by rewrite Hi, Hc.
Qed.

Lemma MarkMessageSeen_inv `{!UUIDLib} q inboxID messageID at_ d d' x :
  healthy q d -> MarkMessageSeen inboxID messageID at_ d = (d', x) ->
  healthy q d' /\ contents d' = contents d /\
  (messages d' = messages d \/ exists k m s, messages d !! k = Some m /\
     messages d' = <[k := MessageRow (ms_inbox m) (ms_content m) (ms_sender m) (ms_received m) (ms_created m) (Some s)]> (messages d)).
Proof.
  intros Hh. unfold MarkMessageSeen. destruct (cast _ inboxID) as [id|]; [|intros [= <- <-]; auto].
  destruct (cast _ messageID) as [mid|]; [|intros [= <- <-]; auto].
  intros [(d1 & u & E & Hx)|(e & E & ->)]%dbind_inv; apply statement_same in E as [S _];
    pose proof (same_tables_healthy q _ _ S Hh) as Hh1; pose proof S as [E1 E2 E3 E4 E5 E6 E7 E8]; [|auto].
  destruct (owned d1 id mid) as [m|] eqn:Eo; injection Hx as <- <-; [|auto].
  assert (messages d1 !! mid = Some m) as Hm.
  { unfold owned in Eo. destruct (messages d1 !! mid) as [m'|]; [|done]. destruct (bool_decide _ && _); [exact Eo|done]. }
  set (m' := MessageRow _ _ _ _ _ _). destruct Hh1 as ([[R1 [R2 R3]] C A K O Sc D Q] & Hg & Hq). split; [|split; [done|]].
  - split; [split; cbn; try done|split].
    + split; [|done]. intros k x. cbn. rewrite lookup_insert_Some. intros [[<- <-]|[_ Hx]]; [by apply (R1 mid m)|by apply (R1 k)].
    + intros key Hk. cbn in Hk. apply Hg, referenced_spec in Hk as (k & x & Hx & Hc). apply referenced_spec. cbn.
      destruct (decide (k = mid)) as [->|Hne].
      * exists mid, m'. rewrite lookup_insert_eq. split; [done|]. cbn. congruence.
      * exists k, x. by rewrite lookup_insert_ne.
    + intros i. rewrite (usage_replace d1 mid m m') by done. apply Hq.
  - right. exists mid, m, (default (pg_time at_) (ms_seen m)). cbn. by rewrite <- E3.
Qed.

(** ** A mailbox with one message *)

Module Inhabited.
Definition full : db := DeliveryRepo.Demo.after.
Definition mid : uuid := be_encode 16 2.

Lemma full_healthy : healthy DeliveryRepo.Demo.limits full.
Proof.
  apply (commit_healthy _ DeliveryRepo.Demo.mail DeliveryRepo.Demo.start _ (Ok DeliveryRepo.Demo.stored)).
  - split; [apply DeliveryRepo.Demo.start_ok|]. split; [|apply DeliveryRepo.Demo.start_quota].
    intros key [? Hk]. cbn in Hk. by rewrite lookup_empty in Hk.
  - constructor; [|constructor]. by exists DeliveryRepo.Demo.alice.
  - apply DeliveryRepo.Demo.committed.
Qed.

(** The same state when the inbox has expired. *)
Definition late : db := set_now full (DeliveryRepo.Demo.now + 7200000000000).

Lemma late_healthy : healthy DeliveryRepo.Demo.limits late.
Proof. apply set_now_healthy, full_healthy. Qed.

Definition deleted : db := (DeleteInbox (uuid_string DeliveryRepo.Demo.alice) full).1.
Definition emptied : db := (DeleteMessage (uuid_string DeliveryRepo.Demo.alice) (uuid_string mid) full).1.
Definition cleaned : db := (CleanupExpiredInboxes 10 late).1.

Lemma pair_eta {A B} (p : A * B) b : p.2 = b -> p = (p.1, b).
Proof. by destruct p; cbn; intros ->. Qed.

Lemma deleted_run : DeleteInbox (uuid_string DeliveryRepo.Demo.alice) full = (deleted, Ok [DeliveryRepo.Demo.content]).
Proof.
  assert ((DeleteInbox (uuid_string DeliveryRepo.Demo.alice) full).2 = Ok [DeliveryRepo.Demo.content]) as E by (vm_compute; reflexivity).
  unfold deleted. exact (pair_eta _ _ E).
Qed.

Lemma emptied_run :
  DeleteMessage (uuid_string DeliveryRepo.Demo.alice) (uuid_string mid) full = (emptied, Ok (Some DeliveryRepo.Demo.content)).
Proof.
  assert ((DeleteMessage (uuid_string DeliveryRepo.Demo.alice) (uuid_string mid) full).2 = Ok (Some DeliveryRepo.Demo.content)) as E by (vm_compute; reflexivity).
  unfold emptied. exact (pair_eta _ _ E).
Qed.

Lemma cleaned_run : CleanupExpiredInboxes 10 late = (cleaned, Ok (1, [DeliveryRepo.Demo.content])).
Proof.
  assert ((CleanupExpiredInboxes 10 late).2 = Ok (1, [DeliveryRepo.Demo.content])) as E by (vm_compute; reflexivity).
  unfold cleaned. exact (pair_eta _ _ E).
Qed.
End Inhabited.

Lemma delete_inbox_collects_witness :
  healthy DeliveryRepo.Demo.limits Inhabited.deleted /\
  exists u, uuid_parse (uuid_string DeliveryRepo.Demo.alice) = Some u /\ inbox_live Inhabited.full u = true /\
    removed [u] Inhabited.full Inhabited.deleted /\ reclaimed Inhabited.full Inhabited.deleted [DeliveryRepo.Demo.content].
Proof.
  apply (delete_inbox_collects DeliveryRepo.Demo.limits (uuid_string DeliveryRepo.Demo.alice) Inhabited.full Inhabited.deleted
    (Ok [DeliveryRepo.Demo.content])); [apply Inhabited.full_healthy|apply Inhabited.deleted_run].
Defined.

Lemma delete_message_collects_witness :
  healthy DeliveryRepo.Demo.limits Inhabited.emptied /\
  exists id mid, uuid_parse (uuid_string DeliveryRepo.Demo.alice) = Some id /\ uuid_parse (uuid_string Inhabited.mid) = Some mid /\
    is_Some (owned Inhabited.full id mid) /\ inboxes Inhabited.emptied = inboxes Inhabited.full /\
    messages Inhabited.emptied = delete mid (messages Inhabited.full) /\
    reclaimed Inhabited.full Inhabited.emptied (option_list (Some DeliveryRepo.Demo.content)).
Proof.
  apply (delete_message_collects DeliveryRepo.Demo.limits (uuid_string DeliveryRepo.Demo.alice) (uuid_string Inhabited.mid)
    Inhabited.full Inhabited.emptied (Ok (Some DeliveryRepo.Demo.content))); [apply Inhabited.full_healthy|apply Inhabited.emptied_run].
Defined.

