(* ===== verification/ParseRepo.v ===== *)
(** * The durable parse queue: [internal/postgres/content_parse_repository.go]

    Fenced leases over content rows: claiming, completing, retrying, failing
    and releasing. *)

From S2P Require Import Prelude GoStrings Errors Codec Uuid FileSystem Message Mail Database DatabaseFacts DeliveryRepo MailboxRepo.

#[local] Opaque sha256.

(** [jobs.ParseClaim] *)
Record ParseClaim := MkParseClaim { pc_Content : ContentRef; pc_LeaseToken : bytes; pc_Attempt : Z }.

Definition rune_code_tail (g : seg) : bool :=
  ((97 <=? seg_rune g) && (seg_rune g <=? 122)) || ((48 <=? seg_rune g) && (seg_rune g <=? 57)) || (seg_rune g =? 95).

Definition validParseErrorCode (value : bytes) : bool :=
  match value with
  | [] => false
  | first :: tail =>
    if (64 <? zlen value) || (code first <? 97) || (122 <? code first) then false else forallb rune_code_tail (runes tail)
  end.

(** A row a worker may claim at the transaction's time. *)
Definition claimable (now : Z) (r : content_row) : bool :=
  match ct_status r with
  | Pending => ct_available r <=? now
  | Processing => match ct_until r with Some t => t <=? now | None => false end
  | Parsed | Failed => false
  end.

(** [ORDER BY parse_available_at, created_at, content_key] *)
Definition claim_le (a b : bytes * content_row) : Prop :=
  (ct_available a.2 <? ct_available b.2) ||
  ((ct_available a.2 =? ct_available b.2) &&
    ((ct_created a.2 <? ct_created b.2) || ((ct_created a.2 =? ct_created b.2) && bytes_leb a.1 b.1))) = true.

#[global] Instance claim_le_dec a b : Decision (claim_le a b).
Proof. unfold claim_le. apply _. Defined.

(** The candidates; [locked] are the rows other sessions hold, which
    [SKIP LOCKED] passes over. *)
Definition candidates (d : db) (locked : list bytes) : list (bytes * content_row) :=
  merge_sort claim_le (map_to_list (filter (λ kv : bytes * content_row,
    claimable (db_now d) kv.2 = true /\ kv.1 ∉ locked) (contents d))).

Definition leased_row (now until : Z) (token : uuid) (r : content_row) : content_row :=
  ContentRow (ct_size r) (ct_created r) Processing (ct_attempts r + 1) (ct_available r) (Some token) (Some until)
    (ct_error r) (pg_time now).

(** The rows of [WHERE content_key = $1 AND parse_status = 'processing' AND
    parse_lease_token = $2]. *)
Definition leased (d : db) (key : bytes) (token : uuid) : option content_row :=
  match contents d !! key with
  | Some r => if bool_decide (ct_status r = Processing) && bool_decide (ct_token r = Some token) then Some r else None
  | None => None
  end.

Section Repo.
Context `{!UUIDLib}.

(** The [CHECK] constraints of [mail_content_parses] on one result: the
    bounds on the encoded columns. *)
Context (accepts : ParsedMessage -> bool).

(** [ClaimContent]; [leaseUUID] is the outcome of [uuid.NewRandom]. *)
Definition ClaimContent (locked : list bytes) (leaseDuration : Z) (leaseUUID : res uuid) : DB (option ParseClaim) :=
  if leaseDuration <=? 0 then dthrow (ENew "content parse lease duration must be positive")
  else match leaseUUID with
  | Err e => dthrow (EWrap "generate content parse lease token" e)
  | Ok token =>
    statement "claim content parse work" ;;* λ d,
      match candidates d locked with
      | [] => (d, Ok None)
      | (key, r) :: _ =>
        let row := leased_row (db_now d) (pg_time (db_now d) + leaseDuration / 1000 * 1000) token r in
        (set_contents d (<[key := row]> (contents d)),
         Ok (Some (MkParseClaim (MkContentRef key (ct_size row)) (uuid_string token) (ct_attempts row))))
      end
  end.

Definition validateParseClaim (claim : ParseClaim) : option goerr :=
  match ContentRef_Validate (pc_Content claim) with
  | Some e => Some e
  | None =>
    match uuid_parse (pc_LeaseToken claim) with
    | None => Some (ENew "content parse lease token must be a UUID")
    | Some _ => if pc_Attempt claim <=? 0 then Some (ENew "content parse attempt must be positive") else None
    end
  end.

(** The claim's token, as [$2::uuid] reads it. *)
Definition claim_token (claim : ParseClaim) : uuid := default [] (uuid_parse (pc_LeaseToken claim)).

Definition parsed_row (parsedAt : Z) (r : content_row) : content_row :=
  ContentRow (ct_size r) (ct_created r) Parsed (ct_attempts r) (ct_available r) None None None (pg_time parsedAt).

Definition complete_body (claim : ParseClaim) (revision : Z) (parsed : ParsedMessage) (parsedAt : Z) : DB unit :=
  (statement "fence content parse completion" ;;* λ d,
    match leased d (Key (pc_Content claim)) (claim_token claim) with
    | None => (d, Err (ESentinel ErrStaleParseClaim))
    | Some r => (set_contents d (<[Key (pc_Content claim) := parsed_row parsedAt r]> (contents d)), Ok tt)
    end) ;;*
  statement "persist parsed content" ;;* λ d,
    if negb (accepts parsed) then (d, Err (EWrap "persist parsed content" (ENew "23514")))
    else (set_parses d (<[Key (pc_Content claim) := ParseRow revision parsed (pg_time parsedAt)]> (parses d)), Ok tt).

Definition CompleteContent (claim : ParseClaim) (parserRevision : Z) (parsed : ParsedMessage) (parsedAt : Z) : DB unit :=
  match validateParseClaim claim with
  | Some e => dthrow e
  | None =>
    if parserRevision <=? 0 then dthrow (ENew "parser revision must be positive")
    else if bool_decide (parsedAt = zero_time) then dthrow (ENew "parsed time is required")
    else transaction "begin content parse completion" "commit parsed content"
           (complete_body claim parserRevision parsed parsedAt)
  end.

(** The row [finishClaim] writes; a failed row keeps its attempts. *)
Definition finished_row (now : Z) (status : parse_status) (code : bytes) (availableAt : Z) (decrementAttempt : bool) (r : content_row) : content_row :=
  ContentRow (ct_size r) (ct_created r) status
    (if decrementAttempt then Z.max (ct_attempts r - 1) 0 else ct_attempts r) (pg_time availableAt) None None
    (if bool_decide (code = []) then None else Some code) (pg_time now).

Definition finishClaim (claim : ParseClaim) (status : parse_status) (code : bytes) (availableAt : Z) (decrementAttempt : bool) : DB unit :=
  match validateParseClaim claim with
  | Some e => dthrow e
  | None =>
    if negb (bool_decide (status = Pending)) && negb (bool_decide (status = Failed))
    then dthrow (ENew "invalid content parse finish status")
    else if bool_decide (status = Failed) && bool_decide (code = [])
    then dthrow (ENew "terminal content parse failure code is required")
    else if negb (bool_decide (code = [])) && negb (validParseErrorCode code)
    then dthrow (ENew "invalid content parse error code")
    else statement "finish content parse claim" ;;* λ d,
      match leased d (Key (pc_Content claim)) (claim_token claim) with
      | None => (d, Err (ESentinel ErrStaleParseClaim))
      | Some r =>
        (set_contents d (<[Key (pc_Content claim) := finished_row (db_now d) status code availableAt decrementAttempt r]> (contents d)), Ok tt)
      end
  end.

Definition RetryContent (claim : ParseClaim) (code : bytes) (availableAt : Z) : DB unit :=
  if bool_decide (availableAt = zero_time) then dthrow (ENew "content parse retry time is required")
  else finishClaim claim Pending code availableAt false.

Definition FailContent (claim : ParseClaim) (code : bytes) (failedAt : Z) : DB unit :=
  if bool_decide (failedAt = zero_time) then dthrow (ENew "content parse failure time is required")
  else finishClaim claim Failed code failedAt false.

Definition ReleaseContent (claim : ParseClaim) (availableAt : Z) : DB unit :=
  if bool_decide (availableAt = zero_time) then dthrow (ENew "content parse release time is required")
  else finishClaim claim Pending [] availableAt true.
End Repo.

(** ** Integrity *)

(** [d'] differs from [d] in the row of [key], and perhaps in its parse. *)
Record touches (key : bytes) (d d' : db) : Prop := {
  to_inboxes : inboxes d' = inboxes d;
  to_messages : messages d' = messages d;
  to_capabilities : capabilities d' = capabilities d;
  to_deletions : deletions d' = deletions d;
  to_quotas : quotas d' = quotas d;
  to_now : db_now d' = db_now d;
  to_contents : forall k, k <> key -> contents d' !! k = contents d !! k;
  to_parses : forall k, k <> key -> parses d' !! k = parses d !! k
}.

Lemma same_touches key d d' : same_tables d d' -> touches key d d'.
Proof. intros [E1 E2 E3 E4 E5 E6 E7 E8]. split; try done; intros k _; by rewrite ?E2, ?E4. Qed.

Lemma touches_trans key d1 d2 d3 : touches key d1 d2 -> touches key d2 d3 -> touches key d1 d3.
Proof.
  intros [A1 A2 A3 A4 A5 A6 A7 A8] [B1 B2 B3 B4 B5 B6 B7 B8]. split; try congruence; intros k Hk.
  - by rewrite B7, A7.
  - by rewrite B8, A8.
Qed.

Lemma set_contents_touches key r d : touches key d (set_contents d (<[key := r]> (contents d))).
Proof. split; try done. intros k Hk. cbn. by rewrite lookup_insert_ne. Qed.

Lemma set_parses_touches key p d : touches key d (set_parses d (<[key := p]> (parses d))).
Proof. split; try done. intros k Hk. cbn. by rewrite lookup_insert_ne. Qed.

Lemma touches_ok key d d' r r' :
  db_ok d -> touches key d d' -> contents d !! key = Some r -> contents d' !! key = Some r' -> content_check key r' -> db_ok d'.
Proof.
  intros [[R1 [R2 R3]] C A K O S D Q] [T1 T2 T3 T4 T5 T6 T7 T8] Hr Hr' Hc.
  assert (forall k, is_Some (contents d !! k) -> is_Some (contents d' !! k)) as Hmono.
  { intros k Hk. destruct (decide (k = key)) as [->|Hne]; [by eauto|by rewrite T7]. }
  split; rewrite ?T1, ?T3, ?T4, ?T5; try done.
  - split; [|split].
    + intros id m. rewrite T2, T1. intros Hm. destruct (R1 id m Hm). auto.
    + intros k p Hp. destruct (decide (k = key)) as [->|Hne]; [by eauto|]. rewrite T8 in Hp by done. eauto.
    + by rewrite T3, T1.
  - intros k x Hx. destruct (decide (k = key)) as [->|Hne]; [congruence|]. rewrite T7 in Hx by done. by apply C.
Qed.

Lemma leased_row_check key now until token r : content_check key r -> content_check key (leased_row now until token r).
Proof.
  intros (H1 & H2 & H3 & H4 & H5 & H6). unfold content_check, leased_row. cbn. split; [done|]. split; [lia|].
  split; [by split; eauto|]. split; [by split; eauto|]. done.
Qed.

Lemma claim_le_total a b : claim_le a b \/ claim_le b a.
Proof.
  unfold claim_le. rewrite !orb_true_iff, !andb_true_iff, !orb_true_iff, !andb_true_iff, !Z.ltb_lt, !Z.eqb_eq.
  destruct (Z.lt_trichotomy (ct_available a.2) (ct_available b.2)) as [?|[Ha|?]]; [tauto| |tauto].
  destruct (Z.lt_trichotomy (ct_created a.2) (ct_created b.2)) as [?|[Hb|?]]; [tauto| |right; right; split; [lia|tauto]].
  destruct (bytes_leb_total a.1 b.1); [left|right]; right; (split; [lia|]); right; split; [lia|done|lia|done].
Qed.

#[global] Instance claim_le_Total : Total claim_le.
Proof. intros a b. apply claim_le_total. Qed.

#[global] Instance claim_le_trans : Transitive claim_le.
Proof.
  intros a b c. unfold claim_le. rewrite !orb_true_iff, !andb_true_iff, !orb_true_iff, !andb_true_iff, !Z.ltb_lt, !Z.eqb_eq.
  intros [?|(? & [?|(? & H1)])] [?|(? & [?|(? & H2)])]; try (left; lia); right; (split; [lia|]); try (left; lia).
  right. split; [lia|]. by eapply bytes_leb_trans.
Qed.

Lemma candidates_spec d locked :
  match candidates d locked with
  | [] => (forall key r, contents d !! key = Some r -> key ∉ locked -> claimable (db_now d) r = false)
  | (key, r) :: _ => contents d !! key = Some r /\ (key ∉ locked) /\ claimable (db_now d) r = true /\
      forall key' r', contents d !! key' = Some r' -> key' ∉ locked -> claimable (db_now d) r' = true ->
        key' = key \/ claim_le (key, r) (key', r')
  end.
Proof.
  unfold candidates. set (f := filter _ _). pose proof (merge_sort_Permutation claim_le (map_to_list f)) as HP.
  pose proof (StronglySorted_merge_sort claim_le (map_to_list f)) as HS.
  assert (forall key r, (key, r) ∈ merge_sort claim_le (map_to_list f) <->
    contents d !! key = Some r /\ claimable (db_now d) r = true /\ key ∉ locked) as Hin.
  { intros key r. rewrite HP, elem_of_map_to_list. unfold f. by rewrite map_lookup_filter_Some. }
  destruct (merge_sort claim_le (map_to_list f)) as [|[key r] l].
  - intros key r Hr Hl. destruct (claimable (db_now d) r) eqn:E; [|done].
    assert ((key, r) ∈ @nil (bytes * content_row)) as Hx by (by apply Hin). by apply elem_of_nil in Hx.
  - destruct (proj1 (Hin key r) ltac:(by left)) as (H1 & H2 & H3). do 3 (split; [done|]). intros key' r' Hr' Hl Hc.
    assert ((key', r') ∈ ((key, r) :: l)) as Hx by (by apply Hin). apply elem_of_cons in Hx as [[= -> ->]|Hx]; [by left|].
    right. apply StronglySorted_inv in HS as [_ HS]. rewrite Forall_forall in HS. by apply HS.
Qed.

(** ** Claiming *)

(** Claims are exclusive and fair.  A claim is only given out for a row
    that waits for its turn or whose lease has run out, never for one another
    worker holds or has finished; the row is leased for the requested time
    under the new token with one more attempt, no other row changes, and no
    claimable row that is not locked by another session comes before it in
    the queue.  Finding nothing means that nothing was claimable. *)
Theorem claim_exclusive `{!UUIDLib} (locked : list bytes) (leaseDuration : Z) (leaseUUID : res uuid) (d d' : db) x :
  db_ok d -> ClaimContent locked leaseDuration leaseUUID d = (d', x) ->
  db_ok d' /\
  match x with
  | Err _ => same_tables d d'
  | Ok None => same_tables d d' /\
      forall key r, contents d !! key = Some r -> key ∉ locked -> claimable (db_now d) r = false
  | Ok (Some claim) => exists key r token, leaseUUID = Ok token /\
      contents d !! key = Some r /\ (key ∉ locked) /\ claimable (db_now d) r = true /\
      claim = MkParseClaim (MkContentRef key (ct_size r)) (uuid_string token) (ct_attempts r + 1) /\
      touches key d d' /\ parses d' = parses d /\
      contents d' !! key = Some (leased_row (db_now d) (pg_time (db_now d) + leaseDuration / 1000 * 1000) token r) /\
      forall key' r', contents d !! key' = Some r' -> key' ∉ locked -> claimable (db_now d) r' = true ->
        key' = key \/ claim_le (key, r) (key', r')
  end.
Proof.
  intros Hok. unfold ClaimContent. destruct (leaseDuration <=? 0); [by intros [= <- <-]|].
  destruct leaseUUID as [token|]; [|by intros [= <- <-]].
  intros [(d1 & u & E1 & Hx)|(e & E1 & ->)]%dbind_inv; apply statement_same in E1 as [S1 _].
  2:{ split; [by eapply same_tables_ok|done]. }
  pose proof (same_tables_ok _ _ S1 Hok) as Hok1. pose proof (candidates_spec d1 locked) as Hc.
  destruct S1 as [E1 E2 E3 E4 E5 E6 E7 E8] eqn:ES. clear ES. rewrite E2, E8 in Hc.
  destruct (candidates d1 locked) as [|[key r] rest]; [by injection Hx as <- <-|].
  destruct Hc as (Hr & Hl & Hcl & Hmin). injection Hx as <- <-. rewrite <- E2 in Hr.
  assert (touches key d1 (set_contents d1 (<[key := leased_row (db_now d1) (pg_time (db_now d1) + leaseDuration / 1000 * 1000) token r]> (contents d1)))) as T
    by apply set_contents_touches.
  split.
  - eapply touches_ok; [exact Hok1|exact T|exact Hr|cbn; by rewrite lookup_insert_eq|].
    apply leased_row_check, (ok_contents _ Hok1 _ _ Hr).
  - exists key, r, token. split; [done|]. split; [congruence|]. do 2 (split; [done|]). split; [done|].
    split; [eapply touches_trans; [by apply same_touches|exact T]|]. split; [done|]. split; [|done].
    cbn. by rewrite lookup_insert_eq, E8.
Qed.

(** ** Finishing *)

Inductive finish : Type :=
| Complete (revision : Z) (parsed : ParsedMessage) (parsedAt : Z)
| Retry (code : bytes) (availableAt : Z)
| Fail_ (code : bytes) (failedAt : Z)
| Release (availableAt : Z).

Section Finish.
Context `{!UUIDLib} (accepts : ParsedMessage -> bool).

Definition run_finish (claim : ParseClaim) (op : finish) : DB unit :=
  match op with
  | Complete revision parsed parsedAt => CompleteContent accepts claim revision parsed parsedAt
  | Retry code availableAt => RetryContent claim code availableAt
  | Fail_ code failedAt => FailContent claim code failedAt
  | Release availableAt => ReleaseContent claim availableAt
  end.

(** The effect of finishing a held lease: the row gives up its lease. *)
Definition finished (claim : ParseClaim) (op : finish) (d d' : db) : Prop :=
  exists r r', leased d (Key (pc_Content claim)) (claim_token claim) = Some r /\
    contents d' !! Key (pc_Content claim) = Some r' /\ content_check (Key (pc_Content claim)) r' /\
    touches (Key (pc_Content claim)) d d' /\ ct_token r' = None /\ ct_size r' = ct_size r /\
    match op with
    | Complete revision parsed parsedAt => ct_status r' = Parsed /\
        parses d' !! Key (pc_Content claim) = Some (ParseRow revision parsed (pg_time parsedAt))
    | Retry code _ => ct_status r' = Pending /\ ct_attempts r' = ct_attempts r /\ parses d' = parses d
    | Fail_ code _ => ct_status r' = Failed /\ ct_error r' = Some code /\ parses d' = parses d
    | Release _ => ct_status r' = Pending /\ ct_attempts r' = Z.max (ct_attempts r - 1) 0 /\ parses d' = parses d
    end.

Lemma leased_inv d key token r :
  leased d key token = Some r -> contents d !! key = Some r /\ ct_status r = Processing /\ ct_token r = Some token.
Proof.
  unfold leased. destruct (contents d !! key) as [x|]; [|done].
  destruct (bool_decide (ct_status x = Processing)) eqn:E1; [|done].
  destruct (bool_decide (ct_token x = Some token)) eqn:E2; [|done]. intros [= ->]. by bool_to_prop.
Qed.

Lemma leased_same d d' key token : contents d' = contents d -> leased d' key token = leased d key token.
Proof. unfold leased. by intros ->. Qed.

Lemma finished_same claim op d d1 d2 d' :
  same_tables d d1 -> finished claim op d1 d2 -> same_tables d2 d' -> finished claim op d d'.
Proof.
  intros S1 (r & r' & Hl & Hr' & Hc & T & Ht & Hs & Hop) S2. exists r, r'.
  rewrite (leased_same d d1) in Hl by apply S1. rewrite (sm_contents _ _ S2), (sm_parses _ _ S2).
  do 3 (split; [done|]). split; [eapply touches_trans; [by apply same_touches|eapply touches_trans; [done|by apply same_touches]]|].
  do 2 (split; [done|]). destruct op; rewrite <- ?(sm_parses _ _ S1); done.
Qed.

Lemma finished_ok claim op d d' : db_ok d -> finished claim op d d' -> db_ok d'.
Proof.
  intros Hok (r & r' & Hl & Hr' & Hc & T & _). apply leased_inv in Hl as (Hr & _). by eapply touches_ok.
Qed.

Lemma complete_body_ok claim revision parsed parsedAt d d' :
  db_ok d -> complete_body accepts claim revision parsed parsedAt d = (d', Ok tt) ->
  finished claim (Complete revision parsed parsedAt) d d'.
Proof.
  intros Hok [(d1 & u & E1 & Hx)|(e & _ & [=])]%dbind_inv.
  apply dbind_inv in E1 as [(d0 & u0 & E0 & E1)|(e & _ & [=])]. apply statement_same in E0 as [S0 _].
  destruct (leased d0 _ _) as [r|] eqn:El; [|done]. injection E1 as <- _.
  apply dbind_inv in Hx as [(d2 & u2 & E2 & Hx)|(e & _ & [=])]. apply statement_same in E2 as [S2 _].
  destruct (accepts parsed); [|done]. injection Hx as <-.
  apply leased_inv in El as Hr. destruct Hr as (Hr & Hst & _).
  pose proof (ok_contents _ (same_tables_ok _ _ S0 Hok) _ _ Hr) as (C1 & C2 & _).
  eapply (finished_same claim _ d d0); [done| |reflexivity]. exists r, (parsed_row parsedAt r).
  split; [done|]. cbn. rewrite (sm_contents _ _ S2). cbn. rewrite !lookup_insert_eq. split; [done|]. split.
  - unfold content_check. cbn. split; [done|]. split; [done|]. split; [split; [done|by intros [? [=]]]|].
    split; [split; by intros [? [=]]|done].
  - split; [|done]. eapply touches_trans; [apply set_contents_touches|]. eapply touches_trans; [apply same_touches; exact S2|].
    apply set_parses_touches.
Qed.

Lemma finishClaim_inv claim op status code at_ dec d d' x :
  db_ok d -> (forall r r', contents d !! Key (pc_Content claim) = Some r ->
    r' = finished_row (db_now d) status code at_ dec r -> status = Pending \/ status = Failed ->
    (status = Failed -> code <> []) -> 
    match op with
    | Complete _ _ _ => False
    | Retry c _ => ct_status r' = Pending /\ ct_attempts r' = ct_attempts r
    | Fail_ c _ => ct_status r' = Failed /\ ct_error r' = Some c
    | Release _ => ct_status r' = Pending /\ ct_attempts r' = Z.max (ct_attempts r - 1) 0
    end) ->
  finishClaim claim status code at_ dec d = (d', x) ->
  match x with
  | Ok _ => finished claim op d d'
  | Err _ => same_tables d d'
  end.
Proof.
  intros Hok Hop. unfold finishClaim. destruct (validateParseClaim claim); [by intros [= <- <-]|].
  destruct (negb (bool_decide (status = Pending)) && _) eqn:E1; [by intros [= <- <-]|].
  destruct (bool_decide (status = Failed) && _) eqn:E2; [by intros [= <- <-]|].
  destruct (negb (bool_decide (code = [])) && _) eqn:E3; [by intros [= <- <-]|].
  assert (status = Pending \/ status = Failed) as Hst.
  { apply andb_false_iff in E1 as [?|?]; bool_to_prop; auto. }
  assert (status = Failed -> code <> []) as Hcode.
  { intros Hf. apply andb_false_iff in E2 as [?|?]; bool_to_prop; congruence. }
  intros [(d1 & u & E & Hx)|(e & E & ->)]%dbind_inv; apply statement_same in E as [S _]; [|done].
  destruct (leased d1 _ _) as [r|] eqn:El; injection Hx as <- <-; [|done].
  eapply (finished_same claim _ d d1); [done| |reflexivity].
  exists r. eexists. split; [done|]. cbn. rewrite lookup_insert_eq. split; [done|].
  apply leased_inv in El as (Hr & Hp & _). pose proof (ok_contents _ (same_tables_ok _ _ S Hok) _ _ Hr) as (C1 & C2 & _).
  split; [|split; [apply set_contents_touches|do 2 (split; [done|])]].
  - unfold content_check, finished_row. cbn. split; [done|]. split; [destruct dec; lia|].
    split; [split; [by destruct Hst; subst|by intros [? [=]]]|]. split; [split; by intros [? [=]]|].
    split; [by destruct Hst; subst|]. intros Hf. rewrite bool_decide_eq_false_2 by (by apply Hcode). eauto.
  - rewrite (sm_contents _ _ S) in Hr. specialize (Hop r _ Hr eq_refl Hst Hcode). rewrite <- (sm_now _ _ S) in Hop.
    destruct op; [done|..]; destruct Hop as [H1 H2]; (split; [exact H1|split; [exact H2|done]]).
Qed.

(** What finishing does, for each of the four ways. *)
Lemma run_finish_inv claim op d d' x :
  db_ok d -> run_finish claim op d = (d', x) ->
  match x with
  | Ok _ => finished claim op d d'
  | Err _ => same_tables d d' \/ finished claim op d d'
  end.
Proof.
  intros Hok. destruct op as [revision parsed parsedAt|code at_|code at_|at_]; cbn [run_finish].
  - unfold CompleteContent. destruct (validateParseClaim claim); [intros [= <- <-]; by left|].
    destruct (revision <=? 0); [intros [= <- <-]; by left|]. destruct (bool_decide _); [intros [= <- <-]; by left|].
    intros [(S & e & ->)|(d1 & d2 & [] & S1 & _ & Hb & S2 & _ & Hr)]%transaction_inv; [by left|].
    apply complete_body_ok in Hb; [|by eapply same_tables_ok]. pose proof (finished_same _ _ _ _ _ _ S1 Hb S2) as Hf.
    destruct Hr as [->|[e ->]]; [done|by right].
  - unfold RetryContent. destruct (bool_decide _); [intros [= <- <-]; by left|].
    intros E. eapply finishClaim_inv in E; [|done|]; [destruct x; [exact E|by left]|].
    by intros r r' _ -> _ _.
  - unfold FailContent. destruct (bool_decide _); [intros [= <- <-]; by left|].
    intros E. eapply finishClaim_inv in E; [|done|]; [destruct x; [exact E|by left]|].
    intros r r' _ -> _ Hc. cbn. rewrite bool_decide_eq_false_2 by (by apply Hc). done.
  - unfold ReleaseContent. destruct (bool_decide _); [intros [= <- <-]; by left|].
    intros E. eapply finishClaim_inv in E; [|done|]; [destruct x; [exact E|by left]|].
    by intros r r' _ -> _ _.
Qed.
End Finish.

(** ** The queue as a state machine *)

Section Machine.
Context `{!UUIDLib} (accepts : ParsedMessage -> bool).

(** A step of any worker, drawing a token other than [avoid] when it claims;
    the clock advances between steps. *)
Inductive parse_step (avoid : uuid) : db -> db -> Prop :=
| step_claim locked leaseDuration token d d' x :
    token <> avoid -> ClaimContent locked leaseDuration (Ok token) d = (d', x) -> parse_step avoid d d'
| step_finish claim op d d' x : run_finish accepts claim op d = (d', x) -> parse_step avoid d d'
| step_clock d now : db_now d <= now ->
    parse_step avoid d (set_now d now).

(** What a step does to the row of one key: nothing, a new lease of a
    claimable row, or the end of the lease. *)
Lemma parse_step_row avoid d d' key :
  db_ok d -> parse_step avoid d d' ->
  db_ok d' /\
  (contents d' !! key = contents d !! key /\ parses d' !! key = parses d !! key \/
   (exists r until token, contents d !! key = Some r /\ claimable (db_now d) r = true /\ token <> avoid /\
      contents d' !! key = Some (leased_row (db_now d) until token r) /\ parses d' !! key = parses d !! key) \/
   (exists r r', contents d !! key = Some r /\ ct_status r = Processing /\ contents d' !! key = Some r' /\ ct_token r' = None)).
Proof.
  intros Hok Hs. revert Hok. destruct Hs as [locked dur token d0 d0' x Hne E|claim op d0 d0' x E|d0 now Hnow]; intros Hok.
  - assert (forall d1, same_tables d0 d1 -> contents d1 !! key = contents d0 !! key /\ parses d1 !! key = parses d0 !! key) as Hsame.
    { intros d1 S. by rewrite (sm_contents _ _ S), (sm_parses _ _ S). }
    unfold ClaimContent in E. destruct (dur <=? 0); [injection E as <- <-; auto|].
    apply dbind_inv in E as [(d1 & u & E1 & Hx)|(e & E1 & ->)]; apply statement_same in E1 as [S1 _].
    2:{ split; [by eapply same_tables_ok|left; auto]. }
    pose proof (candidates_spec d1 locked) as Hc. pose proof (same_tables_ok _ _ S1 Hok) as Hok1.
    destruct (candidates d1 locked) as [|[k r] rest].
    { injection Hx as <- <-. auto. }
    destruct Hc as (Hr & Hl & Hcl & _). injection Hx as <- _. split.
    { eapply touches_ok; [exact Hok1|apply set_contents_touches|exact Hr|cbn; by rewrite lookup_insert_eq|].
      apply leased_row_check, (ok_contents _ Hok1 _ _ Hr). }
    cbn. rewrite (sm_contents _ _ S1), (sm_now _ _ S1), (sm_parses _ _ S1) in *. destruct (decide (k = key)) as [->|Hk].
    + right; left. eexists r, _, token. rewrite lookup_insert_eq. by eauto 6.
    + left. by rewrite lookup_insert_ne.
  - apply run_finish_inv in E as Hf; [|done].
    assert (same_tables d0 d0' \/ finished claim op d0 d0') as Hx by (destruct x; auto).
    split; [destruct Hx; [by eapply same_tables_ok|by eapply finished_ok]|].
    destruct Hx as [S|(r & r' & Hl & Hr' & _ & T & Ht & _)]; [left; by rewrite (sm_contents _ _ S), (sm_parses _ _ S)|].
    destruct (decide (key = Key (pc_Content claim))) as [->|Hk].
    + right; right. apply leased_inv in Hl as (Hr & Hst & _). by exists r, r'.
    + left. split; [by apply (to_contents _ _ _ T)|by apply (to_parses _ _ _ T)].
  - split; [|by left]. destruct Hok as [R C A K O S D Q]. by split.
Qed.

(** The queue never touches messages, nor which contents there are and how
    large they are. *)
Lemma parse_step_sizes avoid d d' :
  db_ok d -> parse_step avoid d d' ->
  messages d' = messages d /\ forall key, ct_size <$> contents d' !! key = ct_size <$> contents d !! key.
Proof.
  intros Hok Hs. revert Hok. destruct Hs as [locked dur token d0 d0' x Hne E|claim op d0 d0' x E|d0 now Hnow]; intros Hok; [| |done].
  - unfold ClaimContent in E. destruct (dur <=? 0); [by injection E as <- <-|].
    apply dbind_inv in E as [(d1 & u & E1 & Hx)|(e & E1 & ->)]; apply statement_same in E1 as [S1 _];
      [|by rewrite (sm_messages _ _ S1), (sm_contents _ _ S1)].
    pose proof (candidates_spec d1 locked) as Hc. destruct (candidates d1 locked) as [|[k r] rest];
      [injection Hx as <- <-; by rewrite (sm_messages _ _ S1), (sm_contents _ _ S1)|].
    destruct Hc as (Hr & _). injection Hx as <- _. cbn. rewrite (sm_messages _ _ S1), (sm_contents _ _ S1) in *.
    split; [done|]. intros key. destruct (decide (k = key)) as [->|Hk]; [|by rewrite lookup_insert_ne].
    by rewrite lookup_insert_eq, Hr.
  - apply run_finish_inv in E as Hf; [|done].
    assert (same_tables d0 d0' \/ finished claim op d0 d0') as Hx by (destruct x; auto).
    destruct Hx as [S|(r & r' & Hl & Hr' & _ & T & _ & Hsz & _)]; [by rewrite (sm_messages _ _ S), (sm_contents _ _ S)|].
    split; [apply T|]. intros key. destruct (decide (key = Key (pc_Content claim))) as [->|Hk].
    + apply leased_inv in Hl as (Hr & _). rewrite Hr, Hr'. cbn. by rewrite Hsz.
    + by rewrite (to_contents _ _ _ T).
Qed.

Lemma parse_step_healthy avoid q d d' : healthy q d -> parse_step avoid d d' -> healthy q d'.
Proof.
  intros (Hok & Hg & Hq) Hs. destruct (parse_step_sizes avoid d d' Hok Hs) as [Em Ec].
  split; [by eapply (parse_step_row avoid d d' [])|].
  assert (forall key, is_Some (contents d' !! key) -> is_Some (contents d !! key)) as Hk.
  { intros key [r Hr]. specialize (Ec key). rewrite Hr in Ec. destruct (contents d !! key); [by eauto|done]. }
  split.
  - intros key Hr%Hk. rewrite (referenced_messages d d' key Em). by apply Hg.
  - intros id. specialize (Hq id). unfold usage_of in *. rewrite (messages_of_same d d' id Em). cbn [fst snd] in *.
    rewrite (usage_sum_same d d'); [done|]. intros kv _. unfold size_of. specialize (Ec (ms_content kv.2)).
    by destruct (contents d' !! _), (contents d !! _); cbn in Ec; simplify_eq.
Qed.

(** A lease that is lost stays lost. *)
Lemma lost_lease_step token d d' key :
  db_ok d -> leased d key token = None -> parse_step token d d' -> leased d' key token = None.
Proof.
  intros Hok Hl Hs. destruct (parse_step_row token d d' key Hok Hs) as [_ Hrow]. unfold leased in *.
  destruct Hrow as [[-> _]|[(r & until & tk & _ & _ & Hne & -> & _)|(r & r' & _ & _ & -> & Ht)]]; [done| |].
  - cbn. by rewrite (bool_decide_eq_false_2 (Some tk = _)), andb_false_r by congruence.
  - by rewrite Ht, (bool_decide_eq_false_2 (None = _)), andb_false_r.
Qed.

Lemma lost_lease_steps token d d' key :
  db_ok d -> leased d key token = None -> rtc (parse_step token) d d' -> db_ok d' /\ leased d' key token = None.
Proof.
  intros Hok Hl Hs. induction Hs as [x|x y z Hs Hsteps IH]; [done|].
  apply IH; [by eapply parse_step_row|by eapply lost_lease_step].
Qed.

(** C40: leases are fenced.  Once a worker's lease has been taken over or
    ended, nothing it still tries (completing, retrying, failing or
    releasing, at any later time and after any activity of other workers) is
    accepted or changes anything, as long as no worker draws its token
    again. *)
Theorem parse_fencing (claim : ParseClaim) (op : finish) (d d1 d2 : db) x :
  db_ok d -> leased d (Key (pc_Content claim)) (claim_token claim) = None ->
  rtc (parse_step (claim_token claim)) d d1 -> run_finish accepts claim op d1 = (d2, x) ->
  same_tables d1 d2 /\ exists e, x = Err e.
Proof.
  intros Hok Hl Hs E. destruct (lost_lease_steps _ _ _ _ Hok Hl Hs) as [Hok1 Hl1].
  apply run_finish_inv in E; [|done]. destruct x as [u|e].
  - destruct E as (r & r' & Hr & _). congruence.
  - destruct E as [S|(r & r' & Hr & _)]; [by eauto|congruence].
Qed.

(** A finished content stays finished.  A parsed row and its stored
    result, or a failed row, are never changed by any later activity of the
    queue, whatever tokens are drawn. *)
Theorem outcome_final (avoid : uuid) (d d' : db) (key : bytes) (r : content_row) :
  db_ok d -> contents d !! key = Some r -> ct_status r = Parsed \/ ct_status r = Failed ->
  rtc (parse_step avoid) d d' -> contents d' !! key = Some r /\ parses d' !! key = parses d !! key.
Proof.
  intros Hok Hr Hst Hs. induction Hs as [x|x y z Hs Hsteps IH]; [done|].
  destruct (parse_step_row avoid x y key Hok Hs) as [Hoky Hrow].
  assert (contents y !! key = contents x !! key /\ parses y !! key = parses x !! key) as [E1 E2].
  { destruct Hrow as [?|[(r1 & until & tk & Hr1 & Hc & _)|(r1 & r2 & Hr1 & Hp & _)]]; [done| |].
    - assert (r1 = r) as -> by congruence. unfold claimable in Hc. by destruct Hst as [Hx|Hx]; rewrite Hx in Hc.
    - assert (r1 = r) as -> by congruence. destruct Hst; congruence. }
  rewrite <- E2. apply IH; [done|congruence].
Qed.
End Machine.

(** ** Two workers and one content *)

Module Demo.
Definition tokenA : uuid := be_encode 16 101.
Definition tokenB : uuid := be_encode 16 102.
Definition minute : Z := 60000000000.
Definition key : bytes := Key DeliveryRepo.Demo.content.
Definition accept_all (_ : ParsedMessage) : bool := true.
Definition claimA : ParseClaim := MkParseClaim DeliveryRepo.Demo.content (uuid_string tokenA) 1.
Definition claimB : ParseClaim := MkParseClaim DeliveryRepo.Demo.content (uuid_string tokenB) 2.
Definition parsed : ParsedMessage := MkParsedMessage (str "hello") [] [] [] [] None (str "hi") [] [] [].
Definition complete : finish := Complete 1 parsed (DeliveryRepo.Demo.now + 3 * minute).

Definition d0 : db := Inhabited.full.
(** A claims, its lease runs out, B takes over and completes. *)
Definition dA : db := (ClaimContent [] minute (Ok tokenA) d0).1.
Definition late : db := set_now dA (DeliveryRepo.Demo.now + 2 * minute).
Definition dB : db := (ClaimContent [] minute (Ok tokenB) late).1.
Definition dC : db := (run_finish accept_all claimB complete dB).1.
Definition staleA : db := (run_finish accept_all claimA complete dB).1.

Lemma pair_fst {A B} (p : A * B) b : p.2 = b -> p = (p.1, b).
Proof. by destruct p; cbn; intros ->. Qed.

Lemma runA : ClaimContent [] minute (Ok tokenA) d0 = (dA, Ok (Some claimA)).
Proof.
  assert ((ClaimContent [] minute (Ok tokenA) d0).2 = Ok (Some claimA)) as E by (vm_compute; reflexivity).
  exact (pair_fst _ _ E).
Qed.

Lemma runB : ClaimContent [] minute (Ok tokenB) late = (dB, Ok (Some claimB)).
Proof.
  assert ((ClaimContent [] minute (Ok tokenB) late).2 = Ok (Some claimB)) as E by (vm_compute; reflexivity).
  exact (pair_fst _ _ E).
Qed.

Lemma runC : run_finish accept_all claimB complete dB = (dC, Ok tt).
Proof.
  assert ((run_finish accept_all claimB complete dB).2 = Ok tt) as E by (vm_compute; reflexivity).
  exact (pair_fst _ _ E).
Qed.

Lemma run_staleA : run_finish accept_all claimA complete dB = (staleA, Err (ESentinel ErrStaleParseClaim)).
Proof.
  assert ((run_finish accept_all claimA complete dB).2 = Err (ESentinel ErrStaleParseClaim)) as E by (vm_compute; reflexivity).
  exact (pair_fst _ _ E).
Qed.

Lemma dA_ok : db_ok dA.
Proof.
  apply (parse_step_row accept_all [] d0 dA key); [apply Inhabited.full_healthy|].
  eapply step_claim; [|apply runA]. discriminate.
Qed.

Lemma late_le : db_now dA <= DeliveryRepo.Demo.now + 2 * minute.
Proof. vm_compute. discriminate. Qed.

Lemma dB_ok : db_ok dB.
Proof.
  apply (parse_step_row accept_all [] late dB key); [|eapply step_claim; [|apply runB]; discriminate].
  apply (parse_step_row accept_all [] dA late key dA_ok). constructor. apply late_le.
Qed.

Lemma dC_ok : db_ok dC.
Proof. apply (parse_step_row accept_all [] dB dC key dB_ok). eapply step_finish, runC. Qed.

Definition status_at (d : db) : option parse_status := ct_status <$> contents d !! key.

Lemma status_C : status_at dC = Some Parsed.
Proof. vm_compute. reflexivity. Qed.
End Demo.

Lemma claim_exclusive_witness : exists r, contents Demo.d0 !! Demo.key = Some r /\ claimable (db_now Demo.d0) r = true.
Proof.
  destruct (claim_exclusive [] Demo.minute (Ok Demo.tokenA) Demo.d0 Demo.dA (Ok (Some Demo.claimA)))
    as (_ & key & r & token & _ & Hr & _ & Hc & Heq & _); [apply Inhabited.full_healthy|apply Demo.runA|].
  exists r. split; [|exact Hc]. apply (f_equal (λ c, Key (pc_Content c))) in Heq. cbn [pc_Content Key] in Heq.
  change Demo.key with (Key (pc_Content Demo.claimA)). rewrite Heq. exact Hr.
Defined.

Lemma parse_fencing_witness : same_tables Demo.dB Demo.staleA.
Proof.
  destruct (parse_fencing Demo.accept_all Demo.claimA Demo.complete Demo.dB Demo.dB Demo.staleA (Err (ESentinel ErrStaleParseClaim)))
    as [S _]; [apply Demo.dB_ok|vm_compute; reflexivity|apply rtc_refl|apply Demo.run_staleA|exact S].
Defined.

Lemma outcome_final_witness : exists r, contents (set_now Demo.dC (db_now Demo.dC + Demo.minute)) !! Demo.key = Some r /\ ct_status r = Parsed.
Proof.
  pose proof Demo.status_C as Hs. unfold Demo.status_at in Hs. apply fmap_Some in Hs as (r & Hr & Hst).
  exists r. split; [|done].
  apply (outcome_final Demo.accept_all [] Demo.dC (set_now Demo.dC (db_now Demo.dC + Demo.minute)) Demo.key r Demo.dC_ok Hr); [by left|].
  apply rtc_once. constructor. unfold Demo.minute. lia.
Defined.
