(* ===== verification/ParserJob.v ===== *)
(** * The parser worker: [internal/jobs/parser.go]

    The verifying reader between the raw source and the MIME parser, the
    classification of failures, the retry schedule, and one iteration of a
    worker against the queue, the store and the parser it is given. *)

From S2P Require Import Prelude GoStrings Errors Codec Uuid FileSystem Message ContentStore ContentStoreFacts Mail Database ParseRepo.

#[local] Opaque sha256.

(** ** Outcome codes *)

Inductive ParseErrorCode : Type :=
| ParseErrorMessageTooLarge | ParseErrorHeaderTooLarge | ParseErrorTooManyHeaders | ParseErrorTooManyParts
| ParseErrorNestingTooDeep | ParseErrorPartTooLarge | ParseErrorDecodedContentTooLarge | ParseErrorInvalidMIME
| ParseErrorContentUnavailable | ParseErrorContentCorrupt | ParseErrorTimeout.

Definition code_text (c : ParseErrorCode) : bytes :=
  match c with
  | ParseErrorMessageTooLarge => str "message_too_large"
  | ParseErrorHeaderTooLarge => str "header_too_large"
  | ParseErrorTooManyHeaders => str "too_many_headers"
  | ParseErrorTooManyParts => str "too_many_parts"
  | ParseErrorNestingTooDeep => str "nesting_too_deep"
  | ParseErrorPartTooLarge => str "part_too_large"
  | ParseErrorDecodedContentTooLarge => str "decoded_content_too_large"
  | ParseErrorInvalidMIME => str "invalid_mime"
  | ParseErrorContentUnavailable => str "content_unavailable"
  | ParseErrorContentCorrupt => str "content_corrupt"
  | ParseErrorTimeout => str "parse_timeout"
  end.

(** The code and whether the failure is permanent. *)
Definition classifyParseError (err : goerr) (contextErr : option goerr) : ParseErrorCode * bool :=
  if errors_is_opt contextErr DeadlineExceeded || errors_is err DeadlineExceeded then (ParseErrorTimeout, false)
  else if errors_is err ErrMessageTooLarge then (ParseErrorMessageTooLarge, true)
  else if errors_is err ErrHeaderTooLarge then (ParseErrorHeaderTooLarge, true)
  else if errors_is err ErrTooManyHeaders then (ParseErrorTooManyHeaders, true)
  else if errors_is err ErrTooManyParts then (ParseErrorTooManyParts, true)
  else if errors_is err ErrNestingTooDeep then (ParseErrorNestingTooDeep, true)
  else if errors_is err ErrPartTooLarge then (ParseErrorPartTooLarge, true)
  else if errors_is err ErrDecodedContentTooLarge then (ParseErrorDecodedContentTooLarge, true)
  else if as_raw_source err then (ParseErrorContentUnavailable, false)
  else if as_raw_corrupt err then (ParseErrorContentCorrupt, true)
  else (ParseErrorInvalidMIME, true).

(** ** Options and the retry schedule *)

Record ParserOptions := MkParserOptions {
  po_Workers : Z; po_PollInterval : Z; po_ParseTimeout : Z; po_LeaseDuration : Z;
  po_MaxAttempts : Z; po_RetryBase : Z; po_RetryMax : Z
}.

(** The checks of [NewParserWorker] on its options. *)
Definition NewParserWorker (o : ParserOptions) : option goerr :=
  if (po_Workers o <=? 0) || (64 <? po_Workers o) then Some (ENew "parser worker count must be between 1 and 64")
  else if (po_PollInterval o <=? 0) || (po_ParseTimeout o <=? 0) || (po_LeaseDuration o <=? 0)
  then Some (ENew "parser worker durations must be positive")
  else if po_LeaseDuration o <=? po_ParseTimeout o then Some (ENew "parser lease duration must exceed parse timeout")
  else if (po_MaxAttempts o <=? 0) || (100 <? po_MaxAttempts o) then Some (ENew "parser max attempts must be between 1 and 100")
  else if (po_RetryBase o <=? 0) || (po_RetryMax o <? po_RetryBase o) then Some (ENew "parser retry bounds are invalid")
  else None.

(** The loop of [retryDelay] on 64-bit durations. *)
Fixpoint retry_loop (fuel : nat) (o : ParserOptions) (current attempt delay : Z) : Z :=
  match fuel with
  | O => delay
  | S fuel =>
    if (current <? attempt) && (delay <? po_RetryMax o) then
      if Z.quot (po_RetryMax o) 2 <? delay then po_RetryMax o
      else retry_loop fuel o (current + 1) attempt (wrap64 (delay * 2))
    else if po_RetryMax o <? delay then po_RetryMax o else delay
  end.

Definition retryDelay (o : ParserOptions) (attempt : Z) : Z :=
  retry_loop (S (Z.to_nat attempt)) o 1 attempt (po_RetryBase o).

(** [idleDelay] with the draw of [cryptorand.Int] below its limit. *)
Definition idleDelay (o : ParserOptions) (draw : Z -> res Z) : Z :=
  let jitterLimit := Z.quot (po_PollInterval o) 5 in
  if jitterLimit <=? 0 then po_PollInterval o
  else match draw (jitterLimit + 1) with
  | Err _ => po_PollInterval o
  | Ok jitter => wrap64 (po_PollInterval o + jitter)
  end.

(** ** The verifying reader *)

Section Verifier.
Context {R : Type} `{!Reader R}.

Record rawVerifier := MkRawVerifier {
  rv_source : R; rv_expected : ContentRef; rv_hashed : bytes; rv_read : Z; rv_verified : bool; rv_err : option goerr
}.

Definition newRawVerifier (source : R) (expected : ContentRef) : rawVerifier :=
  MkRawVerifier source expected [] 0 false None.

(** [rawSourceReader.Read] *)
Definition source_read (source : R) (n : nat) : R * bytes * option goerr :=
  let '(source, out, err) := rd_read source n in
  match err with
  | Some e => if negb (errors_is e IoEOF) then (source, out, Some (ERawSource e)) else (source, out, Some e)
  | None => (source, out, None)
  end.

Definition verify (v : rawVerifier) : rawVerifier * option goerr :=
  if rv_verified v then (v, rv_err v)
  else
    let v := MkRawVerifier (rv_source v) (rv_expected v) (rv_hashed v) (rv_read v) true (rv_err v) in
    if negb (rv_read v =? SizeBytes (rv_expected v))
    then (v, Some (ERawCorrupt "Raw MIME size does not match expected size"))
    else if negb (bool_decide (Key (rv_expected v) = sha256_prefix ++ hex_encode (sha256 (rv_hashed v))))
    then (v, Some (ERawCorrupt "Raw MIME digest does not match its content key"))
    else (v, None).

(** [rawVerifier.Read] *)
Definition v_read (v : rawVerifier) (n : nat) : rawVerifier * bytes * option goerr :=
  match rv_err v with
  | Some e => (v, [], Some e)
  | None =>
    let '(source, out, err) := source_read (rv_source v) n in
    let v := MkRawVerifier source (rv_expected v) (rv_hashed v ++ out) (wrap64 (rv_read v + zlen out)) (rv_verified v) None in
    if errors_is_opt err IoEOF then
      let '(v, e) := verify v in
      let v := MkRawVerifier (rv_source v) (rv_expected v) (rv_hashed v) (rv_read v) (rv_verified v) e in
      match e with Some e => (v, out, Some e) | None => (v, out, err) end
    else (v, out, err)
  end.

Definition finishBufferBytes : nat := 32 * 1024.
End Verifier.
Arguments rawVerifier R : clear implicits.

(** ** One iteration of a worker *)

(** What the worker is given: the queue, the raw source, the parser, its
    context and its clock.  [pj_context] is [ctx.Err()] of the worker's
    context, [pj_parse_context] that of the parse deadline. *)
Class ParserHost (W R : Type) `{!Reader R} := {
  pj_ClaimContent : W -> Z -> W * res (option ParseClaim);
  pj_CompleteContent : W -> ParseClaim -> Z -> ParsedMessage -> Z -> W * option goerr;
  pj_RetryContent : W -> ParseClaim -> bytes -> Z -> W * option goerr;
  pj_FailContent : W -> ParseClaim -> bytes -> Z -> W * option goerr;
  pj_ReleaseContent : W -> ParseClaim -> Z -> W * option goerr;
  pj_OpenRaw : W -> ContentRef -> W * res R;
  pj_Close : W -> W * option goerr;
  pj_Parse : W -> rawVerifier R -> W * rawVerifier R * res ParsedMessage;
  pj_context : W -> W * option goerr;
  pj_parse_context : W -> W * option goerr;
  pj_now : W -> Z
}.

(** The parser reads its input with non-empty buffers and does nothing else
    to the reader. *)
Class ParserSpec (W R : Type) `{!Reader R} `{!ParserHost W R} : Prop := {
  parse_reads : forall w v w' v' r, pj_Parse w v = (w', v', r) ->
    rtc (λ v1 v2, exists n, (0 < n)%nat /\ v2 = (v_read v1 n).1.1) v v'
}.

Inductive iteration : Type := itIdle | itCanceled | itSuccess | itError | itFailed | itRetry.

Section Worker.
Context {W R : Type} `{!Reader R} `{!ParserHost W R}.
Context (o : ParserOptions).

(** [rawVerifier.finish]; one more turn than the source has reads left is
    enough ([finish_total]). *)
Fixpoint finish_loop (fuel : nat) (w : W) (v : rawVerifier R) : option (W * rawVerifier R * option goerr) :=
  match fuel with
  | O => None
  | S fuel =>
    match pj_parse_context w with
    | (w, Some e) => Some (w, v, Some e)
    | (w, None) =>
      match v_read v finishBufferBytes with
      | (v, _, Some e) => Some (w, v, if errors_is e IoEOF then None else Some e)
      | (v, _, None) => finish_loop fuel w v
      end
    end
  end.

Definition finish (w : W) (v : rawVerifier R) : option (W * rawVerifier R * option goerr) :=
  if rv_verified v then Some (w, v, rv_err v) else finish_loop (S (rd_fuel (rv_source v))) w v.

Definition parseClaim (w : W) (claim : ParseClaim) : option (W * res ParsedMessage) :=
  match pj_OpenRaw w (pc_Content claim) with
  | (w, Err e) => Some (w, Err (EWrap "open Raw MIME" (ERawSource e)))
  | (w, Ok source) =>
    let verifier := newRawVerifier source (pc_Content claim) in
    let '(w, verifier, parsed) := pj_Parse w verifier in
    match (match parsed with
           | Err e => Some (w, Some e)
           | Ok _ => option_map (λ x, (x.1.1, x.2)) (finish w verifier)
           end) with
    | None => None
    | Some (w, parseErr) =>
      let '(w, closeErr) := pj_Close w in
      Some (w, match parseErr, closeErr, parsed with
        | Some e, _, _ => Err e
        | None, Some e, _ => Err (EWrap "close Raw MIME" (ERawSource e))
        | None, None, p => p
        end)
    end
  end.

(** What ends the lease. *)
Inductive finishing : Type :=
| DoComplete (parsed : ParsedMessage) (at_ : Z) | DoFail (code : ParseErrorCode) (at_ : Z)
| DoRetry (code : ParseErrorCode) (availableAt : Z) | DoRelease (at_ : Z).

Definition apply_finishing (w : W) (claim : ParseClaim) (f : finishing) : W * option goerr :=
  match f with
  | DoComplete parsed t => pj_CompleteContent w claim ParserRevision parsed t
  | DoFail code t => pj_FailContent w claim (code_text code) t
  | DoRetry code t => pj_RetryContent w claim (code_text code) t
  | DoRelease t => pj_ReleaseContent w claim t
  end.

(** The rest of [processNext] once the parse is over; [canceled] is the
    worker's [ctx.Err()]. *)
Definition finish_iteration (w : W) (claim : ParseClaim) (parsed : res ParsedMessage) (parseContextErr canceled : option goerr)
  : W * iteration * option goerr :=
  match canceled with
  | Some e => ((apply_finishing w claim (DoRelease (pj_now w))).1, itCanceled, Some e)
  | None =>
    match parsed with
    | Ok message =>
      match apply_finishing w claim (DoComplete message (pj_now w)) with
      | (w, Some e) => (w, itError, Some (EWrap "complete parsed content" e))
      | (w, None) => (w, itSuccess, None)
      end
    | Err parseErr =>
      let '(code, permanent) := classifyParseError parseErr parseContextErr in
      if (permanent : bool) || (po_MaxAttempts o <=? pc_Attempt claim) then
        match apply_finishing w claim (DoFail code (pj_now w)) with
        | (w, Some e) => (w, itError, Some (EWrap "record content parse failure" e))
        | (w, None) => (w, itFailed, None)
        end
      else
        match apply_finishing w claim (DoRetry code (pj_now w + retryDelay o (pc_Attempt claim))) with
        | (w, Some e) => (w, itError, Some (EWrap "schedule content parse retry" e))
        | (w, None) => (w, itRetry, None)
        end
    end
  end.

(** [processNext]: what it did (the metric's label) and its error; it
    "worked" unless idle. *)
Definition processNext (w : W) : option (W * iteration * option goerr) :=
  match pj_ClaimContent w (po_LeaseDuration o) with
  | (w, Err e) => Some (w, itIdle, Some e)
  | (w, Ok None) => Some (w, itIdle, None)
  | (w, Ok (Some claim)) =>
    match parseClaim w claim with
    | None => None
    | Some (w, parsed) =>
      let '(w, parseContextErr) := pj_parse_context w in
      let '(w, canceled) := pj_context w in
      Some (finish_iteration w claim parsed parseContextErr canceled)
    end
  end.
End Worker.

(** ** The retry schedule is the capped exponential *)

Lemma retry_loop_exact fuel o current attempt delay :
  0 < po_RetryBase o <= po_RetryMax o -> po_RetryMax o <= max_int64 ->
  0 < delay <= po_RetryMax o -> attempt - current < Z.of_nat fuel ->
  retry_loop fuel o current attempt delay = Z.min (po_RetryMax o) (delay * 2 ^ Z.max 0 (attempt - current)).
Proof.
  intros Hb Hm. revert current delay. induction fuel as [|fuel IH]; intros current delay Hd Hf; cbn [retry_loop].
  { rewrite Z.max_l by lia. change (2 ^ 0) with 1. lia. }
  destruct (current <? attempt) eqn:Ec; cbn [andb]; bool_to_prop.
  2:{ rewrite Z.max_l by lia. change (2 ^ 0) with 1. destruct (po_RetryMax o <? delay) eqn:El; bool_to_prop; lia. }
  assert (2 ^ Z.max 0 (attempt - current) = 2 * 2 ^ Z.max 0 (attempt - (current + 1))) as Hp.
  { rewrite !Z.max_r by lia. rewrite <- Z.pow_succ_r by lia. f_equal. lia. }
  pose proof (Z.pow_pos_nonneg 2 (Z.max 0 (attempt - (current + 1))) ltac:(lia) ltac:(lia)) as Hpos.
  destruct (delay <? po_RetryMax o) eqn:Ed; bool_to_prop; cbn [andb].
  2:{ destruct (po_RetryMax o <? delay) eqn:El; bool_to_prop; nia. }
  rewrite Z.quot_div_nonneg by lia. pose proof (Z.div_mod (po_RetryMax o) 2 ltac:(lia)). pose proof (Z.mod_pos_bound (po_RetryMax o) 2 ltac:(lia)).
  destruct (po_RetryMax o / 2 <? delay) eqn:Eh; bool_to_prop; [nia|].
  rewrite wrap64_small by (unfold min_int64; lia). rewrite IH by lia. rewrite Hp. f_equal. lia.
Qed.

Lemma retryDelay_exact o attempt :
  0 < po_RetryBase o <= po_RetryMax o -> po_RetryMax o <= max_int64 ->
  retryDelay o attempt = Z.min (po_RetryMax o) (po_RetryBase o * 2 ^ Z.max 0 (attempt - 1)).
Proof. intros Hb Hm. unfold retryDelay. rewrite retry_loop_exact by lia. done. Qed.

(** ** What the verifier has seen *)

Section VerifierFacts.
Context {R : Type} `{!Reader R} `{!ReaderSpec R}.

(** All the bytes a source delivers up to its end, read with any buffers. *)
Inductive observed : R -> bytes -> R -> Prop :=
| ob_eof r n r' out e : (0 < n)%nat -> rd_read r n = (r', out, Some e) -> errors_is e IoEOF = true -> observed r out r'
| ob_more r n r1 out e r2 out' : (0 < n)%nat -> rd_read r n = (r1, out, e) -> errors_is_opt e IoEOF = false ->
    observed r1 out' r2 -> observed r (out ++ out') r2.

Inductive fed (src : R) : bytes -> R -> Prop :=
| fed_nil : fed src [] src
| fed_more b r n r' out e : fed src b r -> (0 < n)%nat -> rd_read r n = (r', out, e) -> errors_is_opt e IoEOF = false ->
    fed src (b ++ out) r'.

Lemma fed_observed src b r out r' : fed src b r -> observed r out r' -> observed src (b ++ out) r'.
Proof.
  intros Hf. revert out. induction Hf as [|b r n r1 out1 e Hf IH Hn Hr He]; intros out Ho; [done|].
  rewrite <- app_assoc. apply IH. by eapply ob_more.
Qed.

Lemma wrap64_add a b : wrap64 (wrap64 a + b) = wrap64 (a + b).
Proof.
  unfold wrap64. f_equal. replace ((a + 2 ^ 63) mod 2 ^ 64 - 2 ^ 63 + b + 2 ^ 63) with ((a + 2 ^ 63) mod 2 ^ 64 + b) by lia.
  rewrite Zplus_mod_idemp_l. f_equal. lia.
Qed.

(** The bytes a source delivered are the content of a reference. *)
Definition intact (source : R) (ref : ContentRef) : Prop :=
  exists data rest, observed source data rest /\ SizeBytes ref = wrap64 (zlen data) /\
    Key ref = sha256_prefix ++ hex_encode (sha256 data).

Record vinv (src : R) (ref : ContentRef) (v : rawVerifier R) : Prop := {
  vi_expected : rv_expected v = ref;
  vi_running : rv_verified v = false -> rv_err v = None /\ fed src (rv_hashed v) (rv_source v) /\
    rv_read v = wrap64 (zlen (rv_hashed v));
  vi_done : rv_verified v = true -> rv_err v = None -> intact src ref
}.
Lemma vinv_new src ref : vinv src ref (newRawVerifier src ref).
Proof. split; [done| |done]. intros _. split; [done|]. split; [constructor|done]. Qed.

Lemma source_read_inv (r r' : R) n out e :
  source_read r n = (r', out, e) -> exists e0, rd_read r n = (r', out, e0) /\ errors_is_opt e IoEOF = errors_is_opt e0 IoEOF /\
    (e = None <-> e0 = None).
Proof.
  unfold source_read. destruct (rd_read r n) as [[r1 o1] [e1|]]; [|intros [= <- <- <-]; by exists None].
  destruct (errors_is e1 IoEOF) eqn:E; cbn [negb]; intros [= <- <- <-]; exists (Some e1); (split; [done|]); cbn [errors_is_opt errors_is]; rewrite E; by (split; [done|]).
Qed.

Lemma vinv_read src ref v n : vinv src ref v -> (0 < n)%nat -> vinv src ref (v_read v n).1.1.
Proof.
  intros [V1 V2 V3] Hn. unfold v_read. destruct (rv_err v) as [e|] eqn:Ee; [split; cbn [fst]; rewrite ?Ee; done|].
  destruct (source_read (rv_source v) n) as [[r out] err] eqn:Er. apply source_read_inv in Er as (e0 & Hr & Heof & _).
  destruct (errors_is_opt err IoEOF) eqn:Eo.
  2:{ split; cbn; [done| |]; intros Hv.
      - destruct (V2 Hv) as (_ & Hf & Hrd). split; [done|]. split; [by eapply fed_more|].
        rewrite Hrd, wrap64_add, zlen_app. done.
      - intros _. by apply V3. }
  unfold verify. cbn [rv_verified rv_read rv_expected rv_hashed rv_err rv_source]. destruct (rv_verified v) eqn:Ev.
  { split; cbn; [done|done|]. intros _ _. by apply V3. }
  destruct (V2 eq_refl) as (_ & Hf & Hrd).
  destruct (_ =? SizeBytes _) eqn:Es; cbn [negb]; [|by split].
  case_bool_decide as Hk; cbn [negb]; [|by split]. bool_to_prop.
  split; cbn; [done|done|]. intros _ _. exists (rv_hashed v ++ out), r.
  symmetry in Heof. destruct e0 as [e0|]; [|done]. split; [eapply fed_observed; [done|]; by eapply ob_eof|].
  rewrite <- V1, <- Es, Hrd, wrap64_add, zlen_app. done.
Qed.

Lemma vinv_reads src ref v v' :
  rtc (λ v1 v2, exists n, (0 < n)%nat /\ v2 = (v_read v1 n).1.1) v v' -> vinv src ref v -> vinv src ref v'.
Proof. induction 1 as [|v v1 v' (n & Hn & ->) _ IH]; [done|]. intros Hv. by apply IH, vinv_read. Qed.

(** A read either ends or uses up the source. *)
Lemma v_read_progress (v v' : rawVerifier R) n out :
  (0 < n)%nat -> v_read v n = (v', out, None) -> (rd_fuel (rv_source v') < rd_fuel (rv_source v))%nat.
Proof.
  intros Hn. unfold v_read. destruct (rv_err v) as [e|]; [done|].
  destruct (source_read (rv_source v) n) as [[r o1] err] eqn:Er. apply source_read_inv in Er as (e0 & Hr & Heof & Hnone).
  destruct (errors_is_opt err IoEOF) eqn:Eo.
  - destruct (verify _) as [v1 [e|]]; [done|]. intros [= <- <- ->]. done.
  - intros [= <- <- ->]. cbn. rewrite (proj1 Hnone eq_refl) in Hr. by eapply rd_progress.
Qed.

(** After a read that ended at the end of the source. *)
Lemma v_read_eof (v v' : rawVerifier R) n out e :
  v_read v n = (v', out, Some e) -> errors_is e IoEOF = true -> rv_err v = None -> rv_verified v' = true /\ rv_err v' = None.
Proof.
  unfold v_read. intros Hx He Hn. rewrite Hn in Hx. destruct (source_read (rv_source v) n) as [[r o1] err] eqn:Er.
  destruct (errors_is_opt err IoEOF) eqn:Eo; [|injection Hx as <- <- ->; cbn in Eo; congruence].
  unfold verify in Hx. cbn [rv_verified rv_read rv_expected rv_hashed rv_err rv_source] in Hx.
  destruct (rv_verified v); [by injection Hx as <- <- ->|].
  destruct (negb (_ =? _)); [injection Hx as <- <- <-; done|].
  destruct (negb (bool_decide _)); [injection Hx as <- <- <-; done|]. by injection Hx as <- <- ->.
Qed.
End VerifierFacts.

(** ** The worker *)

Section WorkerFacts.
Context {W R : Type} `{!Reader R} `{!ReaderSpec R} `{!ParserHost W R} `{!ParserSpec W R}.
Context (o : ParserOptions).

Lemma v_read_more (v v' : rawVerifier R) n out : v_read v n = (v', out, None) -> rv_err v' = None.
Proof.
  unfold v_read. destruct (rv_err v) as [e|]; [done|]. destruct (source_read (rv_source v) n) as [[r o1] err].
  destruct (errors_is_opt err IoEOF); [|by intros [= <- <- ->]]. destruct (verify _) as [v1 [e|]]; [done|]. by intros [= <- <- ->].
Qed.

Lemma buffer_pos : (0 < finishBufferBytes)%nat.
Proof. unfold finishBufferBytes. lia. Qed.

(** The drain ends, and without an error only when the bytes are right. *)
Lemma finish_loop_spec fuel (w : W) (v : rawVerifier R) src ref :
  (rd_fuel (rv_source v) < fuel)%nat -> vinv src ref v -> rv_err v = None ->
  exists w' v' e, finish_loop fuel w v = Some (w', v', e) /\ (e = None -> intact src ref).
Proof.
  revert w v. induction fuel as [|fuel IH]; intros w v Hf Hv He; [lia|]. cbn [finish_loop].
  destruct (pj_parse_context w) as [w1 [e|]]; [by eexists _, _, _|].
  destruct (v_read v finishBufferBytes) as [[v1 out] [e|]] eqn:Er.
  - eexists _, _, _. split; [done|]. destruct (errors_is e IoEOF) eqn:Ee; [|done]. intros _.
    pose proof (vinv_read _ _ v finishBufferBytes Hv buffer_pos) as Hv1. rewrite Er in Hv1.
    destruct (v_read_eof _ _ _ _ _ Er Ee He) as [? ?]. by eapply vi_done.
  - apply IH.
    + pose proof (v_read_progress _ _ _ _ buffer_pos Er). lia.
    + pose proof (vinv_read _ _ v finishBufferBytes Hv buffer_pos) as Hv1. by rewrite Er in Hv1.
    + by eapply v_read_more.
Qed.

Lemma finish_spec (w : W) (v : rawVerifier R) src ref :
  vinv src ref v -> exists w' v' e, finish w v = Some (w', v', e) /\ (e = None -> intact src ref).
Proof.
  intros Hv. unfold finish. destruct (rv_verified v) eqn:Ev.
  - eexists _, _, _. split; [done|]. intros He. by eapply vi_done.
  - eapply finish_loop_spec; [lia|done|]. by apply (vi_running _ _ _ Hv).
Qed.

Lemma parseClaim_spec (w : W) claim :
  exists w' r, parseClaim w claim = Some (w', r) /\
    (is_ok r = true -> exists w1 source, pj_OpenRaw w (pc_Content claim) = (w1, Ok source) /\ intact source (pc_Content claim)).
Proof.
  unfold parseClaim. destruct (pj_OpenRaw w (pc_Content claim)) as [w1 [source|e]]; [|by eexists _, _].
  destruct (pj_Parse w1 _) as [[w2 v] parsed] eqn:Ep. apply parse_reads in Ep.
  pose proof (vinv_reads _ _ _ _ Ep (vinv_new source (pc_Content claim))) as Hv.
  destruct parsed as [m|e]; [|destruct (pj_Close w2); by eexists _, _].
  destruct (finish_spec w2 v _ _ Hv) as (w3 & v3 & e & -> & Hx). cbn [option_map fst snd].
  destruct (pj_Close w3) as [w4 ce]. eexists _, _. split; [done|]. destruct e as [e|]; [done|]. destruct ce; [done|].
  intros _. exists w1, source. auto.
Qed.

Lemma options_bounds : NewParserWorker o = None -> 0 < po_RetryBase o <= po_RetryMax o /\ 1 <= po_MaxAttempts o <= 100.
Proof.
  unfold NewParserWorker. destruct (_ || _); [done|]. destruct (_ || _ || _); [done|]. destruct (_ <=? _); [done|].
  destruct ((po_MaxAttempts o <=? 0) || _) eqn:E1; [done|]. destruct ((po_RetryBase o <=? 0) || _) eqn:E2; [done|].
  intros _. bool_to_prop. lia.
Qed.

(** When each way of ending a lease is taken. *)
Definition justified (w1 w2 : W) (claim : ParseClaim) (f : finishing) : Prop :=
  match f with
  | DoComplete _ t => t = pj_now w2 /\
      exists w3 source, pj_OpenRaw w1 (pc_Content claim) = (w3, Ok source) /\ intact source (pc_Content claim)
  | DoFail code t => t = pj_now w2 /\
      exists e ctx permanent, classifyParseError e ctx = (code, permanent) /\ (permanent = true \/ po_MaxAttempts o <= pc_Attempt claim)
  | DoRetry code t => pc_Attempt claim < po_MaxAttempts o /\
      (exists e ctx, classifyParseError e ctx = (code, false)) /\
      t = pj_now w2 + Z.min (po_RetryMax o) (po_RetryBase o * 2 ^ Z.max 0 (pc_Attempt claim - 1))
  | DoRelease t => t = pj_now w2 /\ exists w3, (pj_context w3).2 <> None
  end.

End WorkerFacts.
