(* ===== verification/System.v ===== *)
(** * The whole mail path: store, database and their clients together

    The content store and the database side by side, with the deliveries
    that are between [PutLeased] and [release].  Every operation of the
    receiver, the mailbox service, the parse queue and the retention job is
    one step; between steps anything may interleave.  [installed] objects
    survive a power failure at any point. *)

From S2P Require Import Prelude GoStrings Errors Codec Uuid FileSystem Message ContentStore ContentStoreFacts ContentStoreSpec Mail Database DatabaseFacts DeliveryRepo MailboxRepo ParseRepo.

#[local] Opaque sha256.

(** [y_flight] lists the stored contents whose delivery holds a lease. *)
Record system := Sys { y_store : Store; y_db : db; y_flight : list ContentRef }.

(** An object exists for a reference. *)
Definition held (c : config) (d : disk) (ref : ContentRef) : Prop := exists data, ref = ref_of data /\ installed c d data.

Record sys_inv (c : config) (q : DeliveryLimits) (w : system) : Prop := {
  si_disk : disk_ok c (st_disk (y_store w));
  si_db : healthy q (y_db w);
  si_leases : leases (y_store w) = length (y_flight w);
  si_flight : forall ref, ref ∈ y_flight w -> held c (st_disk (y_store w)) ref;
  si_contents : forall key r, contents (y_db w) !! key = Some r ->
    held c (st_disk (y_store w)) (MkContentRef key (ct_size r))
}.

Lemma ref_of_inj a b : ref_of a = ref_of b -> sha256 a = sha256 b /\ zlen a = zlen b.
Proof.
  intros Heq. split; [apply ref_key_digest; by rewrite Heq|]. by apply (f_equal SizeBytes) in Heq.
Qed.

Lemma installed_ref c d a b : ref_of a = ref_of b -> installed c d a -> installed c d b.
Proof.
  intros Heq (p & i & f & Hp & Hs & Hi & Hsy & Hh & Hl & H1 & H2). destruct (ref_of_inj _ _ Heq) as [E1 E2].
  exists p, i, f. rewrite <- Heq, <- E1, <- E2. done.
Qed.

Lemma held_grown c d d' ref : grown c d d' -> held c d ref -> held c d' ref.
Proof. intros G (data & -> & Hi). exists data. split; [done|]. by eapply installed_grown. Qed.

(** Deleting one object leaves the others alone. *)
Lemma deleteLocked_installed c ref d d' r data :
  deleteLocked c ref d = (d', r) -> Key (ref_of data) <> Key ref -> installed c d data -> installed c d' data.
Proof.
  intros E Hne (p & i & f & Hp & Hs & Hi & Hsy & Hh & Hl & H1 & H2). revert E. unfold deleteLocked.
  destruct (pathForKey c (Key ref)) as [po|] eqn:Epo; [|intros [= <- <-]; by exists p, i, f].
  assert (po <> p) as Hpne by (intros ->; apply Hne; by eapply pathForKey_inj).
  destruct (remove po d) as [d1 r1] eqn:E1.
  assert (d_inodes d1 = d_inodes d /\ d_durable d1 = d_durable d /\
    forall x n, x <> po \/ n = NDir -> d_tree d !! x = Some n -> d_tree d1 !! x = Some n) as (I1 & D1 & T1).
  { unfold remove in E1. apply bind_attempt in E1 as [(d0 & E0 & Hx)|(e & E0 & ->)]; apply quietly_attempt in E0 as Q;
      apply attempt_tree in E0 as [T D]; destruct Q as (I & _).
    - destruct (d_tree d0 !! po) as [[j|]|] eqn:Ej; injection Hx as <- <-; cbn; rewrite ?T; (split; [done|]); (split; [done|]); [|done|done].
      intros x n Hx Hn. rewrite T in Ej. rewrite lookup_delete_ne; [done|]. intros <-. destruct Hx as [?| ->]; [done|congruence].
    - by rewrite T. }
  assert (installed c d1 data) as Hd1.
  { exists p, i, f. rewrite I1. unfold stable. rewrite D1. destruct Hs, H1, H2.
    split; [done|]. split; [split; [apply T1; auto|done]|]. do 4 (split; [done|]).
    split; (split; [apply T1; auto|done]). }
  destruct r1 as [u|e].
  - unfold wrap. destruct (syncDirectory (dir po) d1) as [d2 r2] eqn:E2. apply quietly_syncDirectory, (quiet_grown c) in E2.
    intros H. assert (d' = d2) as -> by (destruct r2; congruence). by eapply installed_grown.
  - destruct (errors_is e _); by intros [= <- <-].
Qed.

Section Steps.
Context `{!UUIDLib} `{!UUIDSpec _} {R : Type} `{!Reader R} `{!ReaderSpec R}.
Context (c : config) (q : DeliveryLimits) (accepts : ParsedMessage -> bool).

(** [repository.ContentReferenced] as the store calls it. *)
Definition reference_check (w : system) (key : bytes) : res bool := (ContentReferenced key (y_db w)).2.

Inductive sys_step : system -> system -> Prop :=
(** deliveries *)
| sy_put w s' (src src' : R) ref : PutLeased c (y_store w) src = (s', src', Ok ref) ->
    sys_step w (Sys s' (y_db w) (ref :: y_flight w))
| sy_put_failed w s' (src src' : R) e : PutLeased c (y_store w) src = (s', src', Err e) ->
    sys_step w (Sys s' (y_db w) (y_flight w))
| sy_commit w delivery d' x : d_Content delivery ∈ y_flight w -> Forall canonical_id (d_Recipients delivery) -> CommitDelivery (Some q) delivery (y_db w) = (d', x) ->
    sys_step w (Sys (y_store w) d' (y_flight w))
| sy_release w l1 ref l2 : y_flight w = l1 ++ ref :: l2 -> sys_step w (Sys (release (y_store w)) (y_db w) (l1 ++ l2))
(** the mailbox service *)
| sy_create w candidate d' x : CreateInbox candidate (y_db w) = (d', x) -> sys_step w (Sys (y_store w) d' (y_flight w))
| sy_seen w inboxID messageID at_ d' x : MarkMessageSeen inboxID messageID at_ (y_db w) = (d', x) ->
    sys_step w (Sys (y_store w) d' (y_flight w))
| sy_delete_inbox w inboxID d' x : DeleteInbox inboxID (y_db w) = (d', x) -> sys_step w (Sys (y_store w) d' (y_flight w))
| sy_delete_message w inboxID messageID d' x : DeleteMessage inboxID messageID (y_db w) = (d', x) ->
    sys_step w (Sys (y_store w) d' (y_flight w))
(** the parse queue and time *)
| sy_parse w avoid d' : parse_step accepts avoid (y_db w) d' -> sys_step w (Sys (y_store w) d' (y_flight w))
(** retention *)
| sy_cleanup w n d' x : CleanupExpiredInboxes n (y_db w) = (d', x) -> sys_step w (Sys (y_store w) d' (y_flight w))
| sy_reclaim w ref s' x : DeleteUnreferenced c (y_store w) ref (reference_check w) = Some (s', x) ->
    sys_step w (Sys s' (ContentReferenced (Key ref) (y_db w)).1 (y_flight w))
| sy_acknowledge w key generation d' x : AcknowledgeContentDeletion key generation (y_db w) = (d', x) ->
    sys_step w (Sys (y_store w) d' (y_flight w))
(** calls that change neither objects nor directories, [ctx.Err()] among them *)
| sy_read w A (m : IO A) disk' x : quietly m -> m (st_disk (y_store w)) = (disk', x) ->
    sys_step w (Sys (with_disk (y_store w) disk') (y_db w) (y_flight w))
(** statements that only read, and failed ones *)
| sy_query w d' : same_tables (y_db w) d' -> sys_step w (Sys (y_store w) d' (y_flight w)).

(** ** The invariant *)

Lemma inv_db_step w d' :
  sys_inv c q w -> healthy q d' ->
  (forall key r, contents d' !! key = Some r -> held c (st_disk (y_store w)) (MkContentRef key (ct_size r))) ->
  sys_inv c q (Sys (y_store w) d' (y_flight w)).
Proof. intros [I1 I2 I3 I4 I5] Hh Hc. by split. Qed.

Lemma inv_same w d' : sys_inv c q w -> same_tables (y_db w) d' -> sys_inv c q (Sys (y_store w) d' (y_flight w)).
Proof.
  intros I S. apply inv_db_step; [done|eapply same_tables_healthy; [done|apply I]|].
  intros key r. rewrite (sm_contents _ _ S). apply I.
Qed.

Lemma inv_collected w d' (P : Prop) :
  sys_inv c q w -> same_tables (y_db w) d' \/ (exists orphans, collected (y_db w) d' orphans) /\ P ->
  sys_inv c q (Sys (y_store w) d' (y_flight w)).
Proof.
  intros I [S|[[orphans HC] _]]; [by apply inv_same|]. apply inv_db_step; [done|eapply collected_healthy; [done|apply I]|].
  intros key r Hr. eapply (si_contents _ _ _ I), collected_contents; done.
Qed.

(** What a commit does to the tables. *)
Lemma commit_tables delivery d d' x :
  CommitDelivery (Some q) delivery d = (d', x) ->
  same_tables d d' \/ exists us new d1, same_tables d d1 /\ delivered (Some q) d1 d' delivery us new.
Proof.
  intros Hcd%CommitDelivery_inv. destruct x as [stored|e].
  - destruct Hcd as (_ & d1 & us & new & S & Hd & _). right. by exists us, new, d1.
  - destruct Hcd as [S|(_ & d1 & us & new & S & Hd)]; [by left|]. right. by exists us, new, d1.
Qed.

Lemma delivered_contents l d d' delivery us new key r :
  delivered l d d' delivery us new -> contents d' !! key = Some r ->
  contents d !! key = Some r \/ key = Key (d_Content delivery) /\ ct_size r = SizeBytes (d_Content delivery).
Proof.
  intros [_ _ _ _ _ Hcs _ _]. destruct Hcs as [->|[_ ->]]; [by left|].
  rewrite lookup_insert_Some. intros [[<- <-]|[_ Hr]]; [by right|by left].
Qed.

Lemma PutLeased_spec s (src src' : R) s' x :
  disk_ok c (st_disk s) -> 0 <= maxBytes c < max_int64 -> PutLeased c s src = (s', src', x) ->
  disk_ok c (st_disk s') /\ grown c (st_disk s) (st_disk s') /\
  leases s' = (if is_ok x then S (leases s) else leases s) /\
  forall ref, x = Ok ref -> exists data, delivers src data src' /\ ref = ref_of data /\ installed c (st_disk s') data.
Proof.
  intros Hok Hm. unfold PutLeased. destruct (put c _ src) as [[s1 src1] [ref|e]] eqn:E;
    apply put_spec in E as (Hok' & G & _ & Hl & Hx); try done; intros [= <- <- <-]; cbn in *.
  - do 2 (split; [done|]). split; [done|]. intros ref' [= <-]. destruct (Hx ref eq_refl) as (data & H1 & H2 & _ & H3). eauto.
  - do 2 (split; [done|]). split; [by rewrite Hl|]. done.
Qed.

Lemma sys_step_inv w w' : 0 <= maxBytes c < max_int64 -> sys_inv c q w -> sys_step w w' -> sys_inv c q w'.
Proof.
  intros Hm I Hs. revert I.
  destruct Hs as [w s' src src' ref E|w s' src src' e E|w delivery d' x Hin Hcan E|w l1 ref l2 Hf
    |w candidate d' x E|w i m at_ d' x E|w i d' x E|w i m d' x E|w avoid d' E|w n d' x E|w ref s' x E|w key g d' x E|w A m disk' x Hq E|w d' S]; intros I.
  - destruct I as [I1 I2 I3 I4 I5]. apply PutLeased_spec in E as (Hok & G & Hl & Hx); [|done..].
    destruct (Hx _ eq_refl) as (data & _ & Heq & Hins).
    split; cbn; [done|done|by rewrite Hl, I3| |].
    + intros y [->|Hy]%elem_of_cons; [by exists data|]. by eapply held_grown, I4.
    + intros key r Hr. by eapply held_grown, I5.
  - destruct I as [I1 I2 I3 I4 I5]. apply PutLeased_spec in E as (Hok & G & Hl & _); [|done..].
    split; cbn; [done|done|by rewrite Hl| |].
    + intros y Hy. by eapply held_grown, I4.
    + intros key r Hr. by eapply held_grown, I5.
  - apply inv_db_step; [done|eapply commit_healthy; [apply I|done|done]|]. intros key r Hr.
    apply commit_tables in E as [S|(us & new & d1 & S & Hd)].
    + rewrite (sm_contents _ _ S) in Hr. by apply (si_contents _ _ _ I).
    + destruct (delivered_contents _ _ _ _ _ _ _ _ Hd Hr) as [Hr'|[Hk Hsz]];
        [rewrite (sm_contents _ _ S) in Hr'; by apply (si_contents _ _ _ I)|]. subst key.
      rewrite Hsz. replace (MkContentRef _ _) with (d_Content delivery) by (by destruct (d_Content delivery)).
      by apply (si_flight _ _ _ I).
  - destruct I as [I1 I2 I3 I4 I5]. rewrite Hf in I3, I4. split; cbn; [done|done| | |done].
    + rewrite I3, !length_app. cbn. lia.
    + intros y Hy. apply I4. rewrite elem_of_app, elem_of_cons in *. tauto.
  - destruct (CreateInbox_inv q candidate _ _ _ (si_db _ _ _ I) E) as (Hh & _ & Hc & _).
    apply inv_db_step; [done|done|]. rewrite Hc. apply I.
  - destruct (MarkMessageSeen_inv q i m at_ _ _ _ (si_db _ _ _ I) E) as (Hh & Hc & _).
    apply inv_db_step; [done|done|]. rewrite Hc. apply I.
  - eapply inv_collected; [done|]. eapply DeleteInbox_inv; [apply I|done].
  - eapply inv_collected; [done|]. eapply DeleteMessage_inv; [apply I|done].
  - destruct (parse_step_sizes accepts avoid _ _ (proj1 (si_db _ _ _ I)) E) as [_ Hsz].
    apply inv_db_step; [done|eapply parse_step_healthy; [apply I|done]|]. intros key r Hr. specialize (Hsz key).
    rewrite Hr in Hsz. destruct (contents (y_db w) !! key) as [r0|] eqn:Er; [|done]. injection Hsz as ->.
    by apply (si_contents _ _ _ I).
  - eapply inv_collected; [done|]. eapply CleanupExpiredInboxes_inv; [apply I|done].
  - destruct (ContentReferenced (Key ref) (y_db w)) as [dx y] eqn:Eq. cbn [fst].
    assert (same_tables (y_db w) dx) as S by (unfold ContentReferenced in Eq; by apply query_inv in Eq as (? & _)).
    assert (y = Ok false -> contents (y_db w) !! Key ref = None) as Hfree.
    { intros ->. unfold ContentReferenced in Eq. apply query_inv in Eq as (_ & _ & [[= Hb]|[e [=]]]). symmetry in Hb. bool_to_prop.
      rewrite (sm_contents _ _ S) in Hb. by destruct (contents (y_db w) !! Key ref); [destruct Hb|]. }
    unfold DeleteUnreferenced, reference_check in E. rewrite Eq in E. cbn [snd] in E.
    destruct (leases (y_store w)) eqn:El; [|done]. injection E as E.
    destruct y as [[|]|e]; [injection E as <- <-; by apply inv_same| |injection E as <- <-; by apply inv_same].
    destruct (deleteLocked c ref (st_disk (y_store w))) as [dd r] eqn:Ed.
    assert (s' = with_disk (y_store w) dd) as -> by (destruct r; by injection E).
    destruct (inv_same _ _ I S) as [I1 I2 I3 I4 I5]. cbn in *.
    assert (y_flight w = []) as Hnil by (destruct (y_flight w); [done|cbn in I3; congruence]).
    split; cbn; [|done|by rewrite El, Hnil|rewrite Hnil; intros ? Hx; by apply elem_of_nil in Hx|].
    + by eapply deleteLocked_spec.
    + intros key r0 Hr0. destruct (I5 key r0 Hr0) as (data & Heq & Hi). exists data. split; [done|].
      eapply deleteLocked_installed; [done| |done]. rewrite <- Heq. cbn. intros ->.
      rewrite (sm_contents _ _ S), Hfree in Hr0; done.
  - destruct (AcknowledgeContentDeletion_inv q key g _ _ _ (si_db _ _ _ I) E) as (Hh & _ & Hc & _).
    apply inv_db_step; [done|done|]. rewrite Hc. apply I.
  - destruct I as [I1 I2 I3 I4 I5]. apply Hq in E. pose proof (quiet_grown c _ _ E) as G.
    split; cbn; [by eapply quiet_ok|done|done| |].
    + intros y Hy. by eapply held_grown, I4.
    + intros key r Hr. by eapply held_grown, I5.
  - by apply inv_same.
Qed.
End Steps.

(** ** The abstract mail system *)

(** What a user of the system sees: a map from message identifiers to
    letters.  The bytes of a letter are part of it; content keys, rows and
    objects are not. *)
Record letter := Letter { lt_inbox : uuid; lt_sender : bytes; lt_received : Z; lt_body : bytes }.
Abbreviation mailboxes := (gmap uuid letter).

(** One copy of a letter under each new identifier. *)
Definition copies (sender : bytes) (received : Z) (body : bytes) (new : list (uuid * uuid)) : mailboxes :=
  list_to_map ((λ x : uuid * uuid, (x.1, Letter x.2 sender received body)) <$> new).

Inductive mail_step : mailboxes -> mailboxes -> Prop :=
| ml_deliver box sender received body new : NoDup new.*1 -> NoDup new.*2 -> (forall id, id ∈ new.*1 -> box !! id = None) ->
    mail_step box (copies sender received body new ∪ box)
| ml_discard_message box id : mail_step box (delete id box)
| ml_discard_inboxes box (ids : list uuid) : mail_step box (filter (λ kv : uuid * letter, lt_inbox kv.2 ∉ ids) box).

Definition at_most_one (box box' : mailboxes) : Prop := box = box' \/ mail_step box box'.

(** A message row stands for a letter when its content reference is the
    reference of the letter's bytes. *)
Definition shows (d : db) (m : message_row) (a : letter) : Prop :=
  lt_inbox a = ms_inbox m /\ lt_sender a = ms_sender m /\ lt_received a = ms_received m /\
  exists r, contents d !! ms_content m = Some r /\ MkContentRef (ms_content m) (ct_size r) = ref_of (lt_body a).

Definition mirrors (d : db) (box : mailboxes) : Prop :=
  forall id, option_Forall2 (shows d) (messages d !! id) (box !! id).

Definition sizes_agree (d d' : db) : Prop :=
  forall key r r', contents d !! key = Some r -> contents d' !! key = Some r' -> ct_size r' = ct_size r.

Lemma same_contents_agree d d' : contents d' = contents d -> sizes_agree d d'.
Proof. intros E key r r' H1 H2. rewrite E in H2. by simplify_eq. Qed.

Lemma shows_keep d d' id m a : db_ok d' -> sizes_agree d d' -> messages d' !! id = Some m -> shows d m a -> shows d' m a.
Proof.
  intros Hok Hs Hm (E1 & E2 & E3 & r & Hr & Href). do 3 (split; [done|]).
  destruct (proj1 (ok_refs _ Hok) id m Hm) as [_ [r' Hr']]. exists r'. split; [done|]. by rewrite (Hs _ _ _ Hr Hr').
Qed.

(** Rows that were there before keep standing for the same letters. *)
Lemma mirrors_restrict d d' box box' :
  db_ok d' -> sizes_agree d d' -> mirrors d box ->
  (forall id, messages d' !! id = None /\ box' !! id = None \/
    messages d' !! id = messages d !! id /\ box' !! id = box !! id) -> mirrors d' box'.
Proof.
  intros Hok Hs HM Hcase id. destruct (Hcase id) as [[-> ->]|[E1 E2]]; [constructor|].
  rewrite E2. specialize (HM id). rewrite <- E1 in HM.
  destruct (messages d' !! id) as [m|] eqn:Em; inversion HM; subst; constructor. by eapply shows_keep.
Qed.

Lemma mirrors_same d d' box : db_ok d' -> sizes_agree d d' -> messages d' = messages d -> mirrors d box -> mirrors d' box.
Proof. intros Hok Hs E HM. eapply mirrors_restrict; [done..|]. intros id. right. by rewrite E. Qed.

Lemma mirrors_delete d d' box mid :
  db_ok d' -> sizes_agree d d' -> messages d' = delete mid (messages d) -> mirrors d box -> mirrors d' (delete mid box).
Proof.
  intros Hok Hs E HM. eapply mirrors_restrict; [done..|]. intros id. rewrite E.
  destruct (decide (id = mid)) as [->|Hne]; [left; by rewrite !lookup_delete_eq|right; by rewrite !lookup_delete_ne by done].
Qed.

Lemma mirrors_without d d' box ids :
  db_ok d' -> sizes_agree d d' -> without_inboxes ids (messages d) (messages d') -> mirrors d box ->
  mirrors d' (filter (λ kv : uuid * letter, lt_inbox kv.2 ∉ ids) box).
Proof.
  intros Hok Hs E HM. eapply mirrors_restrict; [done..|]. intros id. rewrite E, !map_lookup_filter.
  specialize (HM id). inversion HM as [m a Hma Hm Ha|Hm Ha]; [|by left]. cbn. destruct Hma as (Ei & _). rewrite Ei.
  case_guard; [right|left]; done.
Qed.

Lemma mirrors_seen d d' box k m s :
  db_ok d' -> contents d' = contents d -> messages d !! k = Some m ->
  messages d' = <[k := MessageRow (ms_inbox m) (ms_content m) (ms_sender m) (ms_received m) (ms_created m) s]> (messages d) ->
  mirrors d box -> mirrors d' box.
Proof.
  intros Hok Ec Hm E HM id. specialize (HM id). rewrite E. destruct (decide (id = k)) as [->|Hne].
  - rewrite lookup_insert_eq. rewrite Hm in HM. inversion HM as [? a Hma Hx Ha|]; subst. constructor.
    destruct Hma as (? & ? & ? & r & ? & ?). do 3 (split; [done|]). exists r. by rewrite Ec.
  - rewrite lookup_insert_ne by done. inversion HM as [m' a Hma Hx Ha|]; constructor.
    destruct Hma as (? & ? & ? & r & ? & ?). do 3 (split; [done|]). exists r. by rewrite Ec.
Qed.

(** The letters of a committed delivery. *)
Definition letters_of (us : list uuid) (new : list (uuid * message_row)) : list (uuid * uuid) := zip new.*1 us.

Lemma letters_lookup delivery us new now sender body received id :
  sender = d_EnvelopeSender delivery -> received = pg_time (d_ReceivedAt delivery) ->
  Forall2 (λ u kv, is_row delivery u now kv.2) us new ->
  option_Forall2 (λ m a, lt_inbox a = ms_inbox m /\ lt_sender a = ms_sender m /\ lt_received a = ms_received m /\
    ms_content m = Key (d_Content delivery) /\ lt_body a = body)
    ((list_to_map new : gmap uuid message_row) !! id) (copies sender received body (letters_of us new) !! id).
Proof.
  intros -> ->. unfold copies, letters_of. induction 1 as [|u [k m] us new Hrow _ IH]; cbn; [constructor|].
  destruct (decide (id = k)) as [->|Hne]; [rewrite !lookup_insert_eq|by rewrite !lookup_insert_ne].
  unfold is_row in Hrow. cbn in Hrow. subst m. by constructor.
Qed.

Lemma letters_keys us new : length us = length new -> (letters_of us new).*1 = new.*1 /\ (letters_of us new).*2 = us.
Proof.
  intros E. unfold letters_of. rewrite fst_zip, snd_zip; [done|..]; rewrite length_fmap; lia.
Qed.

Lemma mirrors_deliver `{!UUIDLib} l d d' delivery us new box body :
  db_ok d -> db_ok d' -> delivered l d d' delivery us new -> d_Content delivery = ref_of body -> mirrors d box ->
  mail_step box (copies (d_EnvelopeSender delivery) (pg_time (d_ReceivedAt delivery)) body (letters_of us new) ∪ box) /\
  mirrors d' (copies (d_EnvelopeSender delivery) (pg_time (d_ReceivedAt delivery)) body (letters_of us new) ∪ box).
Proof.
  intros Hok Hok' Hd Hc HM. pose proof (dv_inserts _ _ _ _ _ _ Hd) as Hins.
  pose proof (dv_rows _ _ _ _ _ _ Hd) as Hrows. pose proof (Forall2_length _ _ _ Hrows) as Hlen.
  destruct (letters_keys us new Hlen) as [K1 K2].
  assert (sizes_agree d d') as Hs.
  { intros key r r' H1 H2. destruct (delivered_contents _ _ _ _ _ _ _ _ Hd H2) as [H3|[-> Hsz]]; [by simplify_eq|].
    destruct (dv_contents _ _ _ _ _ _ Hd) as [E|[En _]]; [rewrite E in H2|]; by simplify_eq. }
  split.
  - constructor; rewrite ?K1, ?K2; [apply Hins|apply Hd|]. intros id Hin.
    pose proof (is_fresh _ _ _ Hins id Hin) as Hf. cbn in Hf. specialize (HM id). rewrite Hf in HM. by inversion HM.
  - intros id. rewrite (is_messages _ _ _ Hins). cbn [messages set_contents]. rewrite !lookup_union.
    pose proof (letters_lookup delivery us new (db_now d) _ body _ id eq_refl eq_refl Hrows) as Hl.
    inversion Hl as [m a Hma Hm Ha|Hm Ha].
    + assert (messages d !! id = None) as Hf.
      { apply (is_fresh _ _ _ Hins). symmetry in Hm. apply elem_of_list_to_map_2 in Hm. by apply (list_elem_of_fmap_2 fst) in Hm. }
      pose proof (HM id) as Hb. rewrite Hf in Hb |- *. inversion Hb. cbn. constructor.
      destruct Hma as (E1 & E2 & E3 & E4 & E5). do 3 (split; [done|]).
      destruct (dv_content _ _ _ _ _ _ Hd) as (r & Hr & Hsz). exists r. rewrite E4, E5, Hsz, <- Hc. split; [done|].
      by destruct (d_Content delivery).
    + rewrite !(left_id None _). specialize (HM id).
      destruct (messages d !! id) as [m|] eqn:Em; inversion HM; subst; constructor. eapply (shows_keep d d' id); [done..| |done].
      rewrite (is_messages _ _ _ Hins). cbn. rewrite lookup_union, <- Hm. by rewrite (left_id None _).
Qed.

Lemma collected_agree d d' orphans : collected d d' orphans -> sizes_agree d d'.
Proof. intros HC key r r' H1 H2%(collected_contents _ _ _ _ _ HC). by simplify_eq. Qed.

Section Simulation.
Context `{!UUIDLib} `{!UUIDSpec _} {R : Type} `{!Reader R} `{!ReaderSpec R}.
Context (c : config) (q : DeliveryLimits) (accepts : ParsedMessage -> bool).

Lemma mirrors_same_tables d d' box : db_ok d -> same_tables d d' -> mirrors d box -> mirrors d' box.
Proof.
  intros Hok S. apply mirrors_same; [by eapply same_tables_ok|apply same_contents_agree|]; by destruct S.
Qed.

(** A collecting operation discards letters. *)
Lemma mirrors_collected (d d' : db) (box : mailboxes) (P : gmap uuid message_row -> gmap uuid message_row -> Prop) :
  db_ok d -> db_ok d' -> mirrors d box ->
  (P (messages d) (messages d') -> sizes_agree d d' -> exists box', mail_step box box' /\ mirrors d' box') ->
  same_tables d d' \/ (exists orphans, collected d d' orphans) /\ P (messages d) (messages d') ->
  exists box', at_most_one box box' /\ mirrors d' box'.
Proof.
  intros Hok Hok' HM Hstep [S|[[o HC] HP]]; [exists box; split; [by left|exact (mirrors_same_tables d d' box Hok S HM)]|].
  destruct (Hstep HP (collected_agree _ _ _ HC)) as (box' & ? & ?). exists box'. split; [by right|done].
Qed.

(** Every step of the system is at most one step of the abstract one. *)
Lemma sys_step_simulated w w' box :
  0 <= maxBytes c < max_int64 -> sys_inv c q w -> sys_step (R:=R) c q accepts w w' -> mirrors (y_db w) box ->
  exists box', at_most_one box box' /\ mirrors (y_db w') box'.
Proof.
  intros Hm I Hs HM. pose proof (sys_step_inv c q accepts w w' Hm I Hs) as I'.
  destruct (si_db _ _ _ I) as (Hok & _ & _), (si_db _ _ _ I') as (Hok' & _ & _). revert I HM Hok Hok'.
  destruct Hs as [w s' src src' ref E|w s' src src' e E|w delivery d' x Hin Hcan E|w l1 ref l2 Hf
    |w candidate d' x E|w i m at_ d' x E|w i d' x E|w i m d' x E|w avoid d' E|w n d' x E|w ref s' x E|w key g d' x E|w A m disk' x Hq E|w d' S];
    cbn [y_db]; intros I HM Hok Hok'; [by exists box; split; [left|]..| | | | | | | | | | | |].
  - apply commit_tables in E as [S|(us & new & d1 & S & Hd)].
    { exists box. split; [by left|exact (mirrors_same_tables _ _ box Hok S HM)]. }
    destruct (si_flight _ _ _ I _ Hin) as (body & Href & _).
    destruct (mirrors_deliver _ _ _ _ _ _ box body (same_tables_ok _ _ S Hok) Hok' Hd Href) as [H1 H2];
      [exact (mirrors_same_tables _ _ box Hok S HM)|]. eexists. split; [right; exact H1|done].
  - by exists box; split; [left|].
  - destruct (CreateInbox_inv q candidate _ _ _ (si_db _ _ _ I) E) as (_ & Em & Ec & _).
    exists box. split; [by left|]. exact (mirrors_same _ _ box Hok' (same_contents_agree _ _ Ec) Em HM).
  - destruct (MarkMessageSeen_inv q i m at_ _ _ _ (si_db _ _ _ I) E) as (_ & Ec & Hseen). exists box. split; [by left|].
    destruct Hseen as [Em|(k & m0 & s & Hk & Em)]; [|by eapply mirrors_seen].
    exact (mirrors_same _ _ box Hok' (same_contents_agree _ _ Ec) Em HM).
  - apply (mirrors_collected (y_db w) d' box (λ ms ms', exists ids, without_inboxes ids ms ms') Hok Hok' HM); [|by eapply DeleteInbox_inv].
    intros [ids Hw] Hs. eexists. split; [eapply (ml_discard_inboxes box ids)|by eapply mirrors_without].
  - apply (mirrors_collected (y_db w) d' box (λ ms ms', exists mid, ms' = delete mid ms) Hok Hok' HM); [|by eapply DeleteMessage_inv].
    intros [mid Hw] Hs. eexists. split; [apply (ml_discard_message box mid)|by eapply mirrors_delete].
  - destruct (parse_step_sizes accepts avoid _ _ Hok E) as [Em Ec]. exists box. split; [by left|].
    refine (mirrors_same _ _ box Hok' _ Em HM). intros key r r' H1 H2. specialize (Ec key). rewrite H1, H2 in Ec. by injection Ec.
  - apply (mirrors_collected (y_db w) d' box (λ ms ms', exists ids, without_inboxes ids ms ms') Hok Hok' HM); [|by eapply CleanupExpiredInboxes_inv].
    intros [ids Hw] Hs. eexists. split; [eapply (ml_discard_inboxes box ids)|by eapply mirrors_without].
  - exists box. split; [by left|]. refine (mirrors_same_tables _ _ box Hok _ HM).
    unfold ContentReferenced. destruct (query _ _) as [d1 y] eqn:Eq. by apply query_inv in Eq as (? & _).
  - destruct (AcknowledgeContentDeletion_inv q key g _ _ _ (si_db _ _ _ I) E) as (_ & Em & Ec & _).
    exists box. split; [by left|]. exact (mirrors_same _ _ box Hok' (same_contents_agree _ _ Ec) Em HM).
  - by exists box; split; [left|].
  - exists box. split; [by left|]. exact (mirrors_same_tables _ _ box Hok S HM).
Qed.

Lemma at_most_rtc b b' : at_most_one b b' -> rtc mail_step b b'.
Proof. intros [->|Hs]; [done|by apply rtc_once]. Qed.

Lemma sys_simulated w w' box :
  0 <= maxBytes c < max_int64 -> rtc (sys_step (R:=R) c q accepts) w w' -> sys_inv c q w -> mirrors (y_db w) box ->
  sys_inv c q w' /\ exists box', rtc mail_step box box' /\ mirrors (y_db w') box'.
Proof.
  intros Hm Hr. revert box. induction Hr as [w|w w1 w' Hs _ IH]; intros box I HM; [split; [done|by exists box]|].
  destruct (sys_step_simulated w w1 box Hm I Hs HM) as (box1 & H1 & HM1).
  destruct (IH box1 (sys_step_inv c q accepts w w1 Hm I Hs) HM1) as (I' & box' & H2 & HM'). split; [done|].
  exists box'. split; [|done]. etrans; [by apply at_most_rtc|done].
Qed.

(** The bytes of every letter can be read back, also after a crash. *)
Definition readable (w : system) (box : mailboxes) : Prop :=
  forall id a disk', box !! id = Some a -> crash (st_disk (y_store w)) disk' ->
  exists p stored, pathForKey c (Key (ref_of (lt_body a))) = Ok p /\ read_at disk' p = Some stored /\
    sha256 stored = sha256 (lt_body a) /\ zlen stored = zlen (lt_body a).

Lemma mirrors_readable w box : sys_inv c q w -> mirrors (y_db w) box -> readable w box.
Proof.
  intros I HM id a disk' Ha Hcr. specialize (HM id). rewrite Ha in HM. inversion HM as [m ? Hma Hm Hx|]; subst.
  destruct Hma as (_ & _ & _ & r & Hr & Href). destruct (si_contents _ _ _ I _ _ Hr) as (data & Heq & Hi).
  rewrite Heq in Href. apply (installed_ref c _ _ _ Href) in Hi.
  destruct (installed_crash _ _ _ _ Hi Hcr) as (p & stored & ? & ? & ? & ? & _). by exists p, stored.
Qed.

End Simulation.

(** ** The receiver on the system *)

Section Receiving.
Context `{!UUIDLib} `{!UUIDSpec _} {R : Type} `{!Reader R} `{!ReaderSpec R}.
Context (c : config) (q : DeliveryLimits) (accepts : ParsedMessage -> bool) (now : system -> Z).

#[local] Instance system_content_store : Message.ContentStore system R := {
  cs_CheckCapacity w := let '(s, e) := CheckCapacity c (y_store w) in (Sys s (y_db w) (y_flight w), e);
  cs_PutLeased w r := let '(s, r', x) := PutLeased c (y_store w) r in
    (Sys s (y_db w) (match x with Ok ref => ref :: y_flight w | Err _ => y_flight w end), r', x);
  cs_release w := Sys (release (y_store w)) (y_db w) (tail (y_flight w));
  cs_leases w := leases (y_store w)
}.

#[local] Instance system_repository : Message.DeliveryRepository system := {
  Message.CommitDelivery w delivery := let '(d, x) := CommitDelivery (Some q) delivery (y_db w) in
    (Sys (y_store w) d (y_flight w), x)
}.

Lemma put_leases s (r r' : R) s' x : put c s r = (s', r', x) -> leases s' = leases s.
Proof.
  unfold put. destruct (ctx_err (st_disk s)) as [d [u|e]]; [|by intros [= <- <- <-]].
  unfold reserve. destruct ((ctx_err ;;; _) _) as [d1 [u1|e]]; [|by intros [= <- <- <-]].
  destruct (put_reserved c _ r) as [[d2 r2] x2]. by intros [= <- <- <-].
Qed.

(** The store and the repository keep the promises the receiver relies on. *)
#[local] Instance system_leases : LeaseSpec system R.
Proof.
  split.
  - intros w r w' r' x. cbn. unfold PutLeased. destruct (put c _ r) as [[s1 r1] [ref|e]] eqn:E; apply put_leases in E;
      intros [= <- <- <-]; cbn in *; by rewrite E.
  - done.
  - intros w delivery. cbn. by destruct (CommitDelivery _ _ _).
Qed.

(** The letters of one accepted request. *)
Definition delivered_letters (w : system) (request : ReceiveRequest R) (body : bytes) (ids us : list uuid) : mailboxes :=
  copies (rq_EnvelopeSender request) (pg_time (now w)) body (zip ids us).

Definition receives (w w' : system) (box : mailboxes) (request : ReceiveRequest R) (body : bytes) (ids us : list uuid) : Prop :=
  (exists raw raw', rq_Raw request = Some raw /\ delivers raw body raw') /\
  mapM uuid_parse (rq_Recipients request) = Some us /\
  mail_step box (delivered_letters w request body ids us ∪ box) /\ length ids = length us /\
  mirrors (y_db w') (delivered_letters w request body ids us ∪ box).

Lemma commit_receives w1 w d' x box (request : ReceiveRequest R) ref body raw raw' :
  sys_inv c q w1 -> y_db w1 = y_db w -> mirrors (y_db w) box -> ref = ref_of body ->
  rq_Raw request = Some raw -> delivers raw body raw' -> healthy q d' ->
  CommitDelivery (Some q) (MkDelivery ref (rq_EnvelopeSender request) (rq_Recipients request) (now w)) (y_db w) = (d', x) ->
  forall s f, match x with
  | Ok stored => exists ids us, receives w (Sys s d' f) box request body ids us /\
      stored = zip_with (λ r id, MkStoredMessage (uuid_string id) r) (rq_Recipients request) ids
  | Err _ => mirrors d' box \/ exists ids us, receives w (Sys s d' f) box request body ids us
  end.
Proof.
  intros I Edb HM Href Hraw Hdel (Hok' & _ & _) Hc s f. set (delivery := MkDelivery _ _ _ _) in Hc.
  destruct (si_db _ _ _ I) as (Hok & _ & _). rewrite Edb in Hok.
  assert (forall d1 us new, same_tables (y_db w) d1 -> delivered (Some q) d1 d' delivery us new ->
    receives w (Sys s d' f) box request body new.*1 us) as Hrec.
  { intros d1 us new S Hd. split; [by exists raw, raw'|]. split; [exact (dv_parse _ _ _ _ _ _ Hd)|].
    destruct (mirrors_deliver _ _ _ _ _ _ box body (same_tables_ok _ _ S Hok) Hok' Hd Href) as [H1 H2];
      [exact (mirrors_same_tables _ _ box Hok S HM)|]. split; [exact H1|]. split; [|exact H2].
    rewrite length_fmap. symmetry. eapply Forall2_length, (dv_rows _ _ _ _ _ _ Hd). }
  apply CommitDelivery_inv in Hc. destruct x as [stored|e].
  - destruct Hc as (_ & d1 & us & new & S & Hd & ->). exists new.*1, us. split; [by eapply Hrec|].
    rewrite zip_with_fmap_r. done.
  - destruct Hc as [S|(_ & d1 & us & new & S & Hd)]; [left; exact (mirrors_same_tables _ _ box Hok S HM)|].
    right. exists new.*1, us. by eapply Hrec.
Qed.

(** C2: receiving a message, from the reader to the mailboxes.  The system's
    invariant is kept on every path and no lease is left behind.  On success
    the letters are exactly the old ones and one new letter per requested
    recipient, whose bytes are all that the reader delivered before its end,
    and the receipt names the new identifiers; on failure either no letter
    changed or, when the outcome of the commit was lost, all of the letters
    were delivered and none of the bytes are missing. *)
Theorem receive_delivers (w w' : system) (box : mailboxes) (request : ReceiveRequest R) rest x :
  0 <= maxBytes c < max_int64 -> sys_inv c q w -> mirrors (y_db w) box ->
  Forall canonical_id (rq_Recipients request) -> Receiver.Receive now w request = (w', rest, x) ->
  sys_inv c q w' /\ y_flight w' = y_flight w /\
  match x with
  | Ok receipt => exists body ids us, receives w w' box request body ids us /\ rp_Content receipt = ref_of body /\
      rp_Messages receipt = zip_with (λ r id, MkStoredMessage (uuid_string id) r) (rq_Recipients request) ids
  | Err _ => mirrors (y_db w') box \/ exists body ids us, receives w w' box request body ids us
  end.
Proof.
  intros Hm I HM Hcan. unfold Receiver.Receive. destruct (rq_Raw request) as [raw|] eqn:Hraw; [|intros [= <- <- <-]; auto].
  destruct (validateEnvelope _ _); [intros [= <- <- <-]; auto|]. cbn [cs_PutLeased system_content_store].
  destruct (PutLeased c (y_store w) raw) as [[s1 raw'] [ref|e]] eqn:Ep.
  2:{ intros [= <- <- <-]. split; [|auto]. eapply (sys_step_inv (R:=R) c q accepts); [done|exact I|]. by eapply sy_put_failed. }
  set (w1 := Sys s1 (y_db w) (ref :: y_flight w)).
  assert (sys_inv c q w1) as I1 by (eapply (sys_step_inv (R:=R) c q accepts); [done|exact I|by eapply sy_put]).
  pose proof (PutLeased_spec c _ _ _ _ _ (si_disk _ _ _ I) Hm Ep) as (_ & _ & _ & Hx).
  destruct (Hx _ eq_refl) as (body & Hdel & Href & _). unfold Receiver.commit_stored.
  assert (forall w2, sys_inv c q w2 -> y_flight w2 = ref :: y_flight w -> sys_inv c q (cs_release w2) /\ y_flight (cs_release w2) = y_flight w) as Hrel.
  { intros w2 I2 Ef. cbn. rewrite Ef. split; [|done].
    eapply (sys_step_inv (R:=R) c q accepts); [done|exact I2|]. by apply (sy_release _ _ _ w2 [] ref). }
  set (delivery := MkDelivery _ _ _ _). destruct (Delivery_Validate delivery).
  { intros [= <- <- <-]. destruct (Hrel w1 I1 eq_refl). auto. }
  cbn [Message.CommitDelivery system_repository]. cbn [y_db y_store y_flight w1].
  destruct (CommitDelivery (Some q) delivery (y_db w)) as [d2 y] eqn:Ec.
  assert (sys_inv c q (Sys s1 d2 (ref :: y_flight w))) as I2.
  { eapply (sys_step_inv (R:=R) c q accepts); [done|exact I1|].
    apply (sy_commit c q accepts w1 delivery d2 y); [by left|exact Hcan|exact Ec]. }
  pose proof (commit_receives w1 w d2 y box request ref body raw raw' I1 eq_refl HM Href Hraw Hdel (si_db _ _ _ I2) Ec) as Hc.
  destruct (Hrel _ I2 eq_refl) as [I3 F3].
  destruct y as [stored|e]; intros [= <- <- <-]; (split; [exact I3|]); (split; [exact F3|]).
  - destruct (Hc (release s1) (y_flight w)) as (ids & us & Hrc & ->). by exists body, ids, us.
  - destruct (Hc (release s1) (y_flight w)) as [?|(ids & us & Hrc)]; [by left|]. right. by exists body, ids, us.
Qed.
End Receiving.

(** ** A concrete system: one inbox, one message *)

Module Live.
Definition cfg : config := ContentStoreSpec.Demo.cfg.
Definition limits : DeliveryLimits := DeliveryRepo.Demo.limits.
Definition hello : bytes := ContentStoreSpec.Demo.hello.
Definition clock (_ : system) : Z := DeliveryRepo.Demo.now.
Definition start : system := Sys ContentStoreSpec.Demo.store DeliveryRepo.Demo.start [].
Definition request : ReceiveRequest bytes :=
  MkReceiveRequest (str "bob@example.org") [uuid_string DeliveryRepo.Demo.alice] (Some hello).
Definition mail : Delivery :=
  MkDelivery (ref_of hello) (str "bob@example.org") [uuid_string DeliveryRepo.Demo.alice] DeliveryRepo.Demo.now.

Definition stored : Store := (PutLeased cfg (y_store start) hello).1.1.
Definition committed : db := (CommitDelivery (Some limits) mail (y_db start)).1.

Lemma triple_eta {A B C} (p : A * B * C) b x : p.1.2 = b -> p.2 = x -> p = (p.1.1, b, x).
Proof. destruct p as [[? ?] ?]; cbn. by intros -> ->. Qed.

Lemma stored_run : PutLeased cfg (y_store start) hello = (stored, [], Ok (ref_of hello)).
Proof.
  assert ((PutLeased cfg (y_store start) hello).1.2 = []) as E1 by (vm_compute; reflexivity).
  assert ((PutLeased cfg (y_store start) hello).2 = Ok (ref_of hello)) as E2 by (vm_compute; reflexivity).
  exact (triple_eta _ _ _ E1 E2).
Qed.

Lemma committed_run : CommitDelivery (Some limits) mail (y_db start) = (committed, Ok DeliveryRepo.Demo.stored).
Proof.
  assert ((CommitDelivery (Some limits) mail (y_db start)).2 = Ok DeliveryRepo.Demo.stored) as E by (vm_compute; reflexivity).
  exact (Inhabited.pair_eta _ _ E).
Qed.

Lemma start_inv : sys_inv cfg limits start.
Proof.
  split; [apply ContentStoreSpec.Demo.store_ok| |reflexivity|intros ? Hx; by apply elem_of_nil in Hx|].
  - split; [apply DeliveryRepo.Demo.start_ok|]. split; [|apply DeliveryRepo.Demo.start_quota].
    intros key [? Hk]. cbn in Hk. by rewrite lookup_empty in Hk.
  - intros key r Hr. cbn in Hr. by rewrite lookup_empty in Hr.
Qed.

Lemma start_mirrors : mirrors (y_db start) ∅.
Proof. intros id. cbn. rewrite !lookup_empty. constructor. Qed.

Definition final : system := Sys (release stored) committed [].

Lemma recipients_canonical : Forall canonical_id [uuid_string DeliveryRepo.Demo.alice].
Proof. constructor; [|constructor]. by exists DeliveryRepo.Demo.alice. Qed.

Lemma limit_ok : 0 <= maxBytes cfg < max_int64.
Proof. split; vm_compute; done. Qed.

(** The three steps of the receiver. *)
Lemma final_reached : rtc (sys_step (R:=bytes) cfg limits (λ _, true)) start final.
Proof.
  eapply rtc_l; [exact (sy_put cfg limits (λ _, true) start stored hello [] (ref_of hello) stored_run)|].
  eapply rtc_l; [|apply rtc_once].
  - refine (sy_commit cfg limits (λ _, true) (Sys stored (y_db start) [ref_of hello]) mail committed _ _ _ committed_run);
      [by left|exact recipients_canonical].
  - exact (sy_release cfg limits (λ _, true) (Sys stored committed [ref_of hello]) [] (ref_of hello) [] eq_refl).
Qed.

Definition receipt : Receipt := MkReceipt (ref_of hello) DeliveryRepo.Demo.stored.

Lemma receive_run :
  Receiver.Receive (ContentStore0:=system_content_store cfg) (DeliveryRepository0:=system_repository limits) clock start request =
  (final, Some [], Ok receipt).
Proof.
  unfold Receiver.Receive, request. cbn [rq_Raw rq_EnvelopeSender rq_Recipients].
  assert (validateEnvelope (str "bob@example.org") [uuid_string DeliveryRepo.Demo.alice] = None) as -> by (vm_compute; reflexivity).
  cbn [cs_PutLeased system_content_store]. rewrite stored_run. unfold Receiver.commit_stored.
  change (MkDelivery _ _ _ _) with mail. assert (Delivery_Validate mail = None) as -> by (vm_compute; reflexivity).
  cbn [Message.CommitDelivery system_repository y_db y_store y_flight]. change (DeliveryRepo.Demo.start) with (y_db start).
  rewrite committed_run. reflexivity.
Qed.
End Live.


Lemma receive_delivers_witness :
  exists body ids us, receives Live.clock Live.start Live.final ∅ Live.request body ids us /\ ref_of Live.hello = ref_of body /\
    DeliveryRepo.Demo.stored = zip_with (λ r id, MkStoredMessage (uuid_string id) r) (rq_Recipients Live.request) ids.
Proof.
  exact (proj2 (proj2 (receive_delivers Live.cfg Live.limits (λ _, true) Live.clock Live.start Live.final ∅ Live.request
    (Some []) (Ok Live.receipt) Live.limit_ok Live.start_inv Live.start_mirrors Live.recipients_canonical Live.receive_run))).
Defined.

Lemma receive_protocol_witness : leases (y_store Live.final) = leases (y_store Live.start).
Proof.
  exact (proj1 (Receiver.receive_protocol Live.clock (LeaseSpec0:=system_leases Live.cfg Live.limits)
    Live.start Live.final Live.request (Some []) (Ok Live.receipt) Live.receive_run)).
Defined.
