(* ===== verification/ParserSystem.v ===== *)
(** * The parser worker on the whole system

    The queue of [ParseRepo] and the store of [ContentStore] as the host of a
    worker, and an iteration of the worker as steps of the system. *)

From S2P Require Import Prelude GoStrings Errors Codec Uuid FileSystem Message ContentStore ContentStoreFacts ContentStoreSpec Mail Database DatabaseFacts DeliveryRepo MailboxRepo ParseRepo ParserJob System.

#[local] Opaque sha256.

Definition db_call {A} (m : DB A) (w : system) : system * res A :=
  let '(d, x) := m (y_db w) in (Sys (y_store w) d (y_flight w), x).

Definition disk_call {A} (m : IO A) (w : system) : system * res A :=
  let '(d, x) := m (st_disk (y_store w)) in (Sys (with_disk (y_store w) d) (y_db w) (y_flight w), x).

Definition error_of {A} (x : system * res A) : system * option goerr :=
  (x.1, match x.2 with Ok _ => None | Err e => Some e end).

Section Host.
Context `{!UUIDLib} `{!UUIDSpec _}.
Context (c : config) (q : DeliveryLimits) (accepts : ParsedMessage -> bool).
(** The environment: the rows other sessions hold, [uuid.NewRandom], the
    clock, and the MIME parser. *)
Context (locked : system -> list bytes) (random : system -> res uuid) (clock : system -> Z).
Context (parser : rawVerifier bytes -> rawVerifier bytes * res ParsedMessage).

(** An open file is read through its inode. *)
Definition open_raw (w : system) (ref : ContentRef) : system * res bytes :=
  match disk_call (OpenRaw c ref) w with
  | (w, Err e) => (w, Err e)
  | (w, Ok i) => (w, Ok (f_data (file_of (st_disk (y_store w)) (NFile i))))
  end.

#[local] Instance system_parser_host : ParserHost system bytes := {
  pj_ClaimContent w duration := db_call (ClaimContent (locked w) duration (random w)) w;
  pj_CompleteContent w claim revision parsed t := error_of (db_call (CompleteContent accepts claim revision parsed t) w);
  pj_RetryContent w claim text t := error_of (db_call (RetryContent claim text t) w);
  pj_FailContent w claim text t := error_of (db_call (FailContent claim text t) w);
  pj_ReleaseContent w claim t := error_of (db_call (ReleaseContent claim t) w);
  pj_OpenRaw := open_raw;
  pj_Close w := error_of (disk_call close_file w);
  pj_Parse w v := let '(v, r) := parser v in (w, v, r);
  pj_context w := error_of (disk_call ctx_err w);
  pj_parse_context w := error_of (disk_call ctx_err w);
  pj_now := clock
}.

#[local] Abbreviation step := (sys_step (R:=bytes) c q accepts).

(** The two kinds of calls are steps. *)
Lemma disk_steps {A} (m : IO A) w w' x : quietly m -> disk_call m w = (w', x) -> rtc step w w'.
Proof.
  intros Hm. unfold disk_call. destruct (m (st_disk (y_store w))) as [d y] eqn:E. intros [= <- <-].
  apply rtc_once. by eapply (sy_read c q accepts w A m).
Qed.

Lemma error_of_inv {A} (x : system * res A) w e : error_of x = (w, e) -> w = x.1.
Proof. by intros [= <- _]. Qed.

Lemma disk_error_steps {A} (m : IO A) w w' e : quietly m -> error_of (disk_call m w) = (w', e) -> rtc step w w'.
Proof.
  intros Hm ->%error_of_inv. destruct (disk_call m w) as [w1 x] eqn:E. by eapply disk_steps.
Qed.

Lemma other_uuid (t : uuid) : exists avoid : uuid, t <> avoid.
Proof. exists (str "x" ++ t). intros Heq%(f_equal length). rewrite length_app in Heq. cbn in Heq. lia. Qed.

Lemma claim_steps w w' x duration : pj_ClaimContent w duration = (w', x) -> rtc step w w'.
Proof.
  cbn. unfold db_call. destruct (ClaimContent _ _ _ (y_db w)) as [d y] eqn:E. intros [= <- <-]. apply rtc_once.
  destruct (random w) as [token|e].
  - destruct (other_uuid token) as [avoid Hne]. apply (sy_parse c q accepts w avoid). by eapply step_claim.
  - apply sy_query. unfold ClaimContent in E. by destruct (duration <=? 0); injection E as <- <-.
Qed.

Lemma finishing_steps w claim f : rtc step w (apply_finishing w claim f).1.
Proof.
  apply rtc_once. destruct f as [parsed t|code t|code t|t]; cbn; unfold error_of, db_call.
  - destruct (CompleteContent accepts claim ParserRevision parsed t (y_db w)) as [d x] eqn:E. cbn.
    apply (sy_parse c q accepts w []). by apply (step_finish accepts [] claim (Complete ParserRevision parsed t) _ _ x).
  - destruct (FailContent claim (code_text code) t (y_db w)) as [d x] eqn:E. cbn.
    apply (sy_parse c q accepts w []). by apply (step_finish accepts [] claim (Fail_ (code_text code) t) _ _ x).
  - destruct (RetryContent claim (code_text code) t (y_db w)) as [d x] eqn:E. cbn.
    apply (sy_parse c q accepts w []). by apply (step_finish accepts [] claim (Retry (code_text code) t) _ _ x).
  - destruct (ReleaseContent claim t (y_db w)) as [d x] eqn:E. cbn.
    apply (sy_parse c q accepts w []). by apply (step_finish accepts [] claim (Release t) _ _ x).
Qed.

Lemma open_steps w w' x ref : open_raw w ref = (w', x) -> rtc step w w'.
Proof.
  unfold open_raw. destruct (disk_call (OpenRaw c ref) w) as [w1 [i|e]] eqn:E; intros [= <- <-]; eapply disk_steps; try done;
    unfold OpenRaw; quiet_io.
Qed.

Lemma finish_steps w w' v v' e : ParserJob.finish w v = Some (w', v', e) -> rtc step w w'.
Proof.
  unfold ParserJob.finish. destruct (rv_verified v); [by intros [= <- <- <-]|]. generalize (S (rd_fuel (rv_source v))) as fuel. intros fuel.
  revert w v. induction fuel as [|fuel IH]; intros w v; cbn [finish_loop]; [done|].
  destruct (pj_parse_context w) as [w1 ce] eqn:E1. apply disk_error_steps in E1; [|apply quietly_ctx_err].
  destruct ce; [by intros [= <- <- <-]|]. destruct (v_read v finishBufferBytes) as [[v1 out] [e1|]]; [by intros [= <- <- <-]|].
  intros Hr%IH. by etrans.
Qed.

Lemma parseClaim_steps w w' claim r : parseClaim w claim = Some (w', r) -> rtc step w w'.
Proof.
  unfold parseClaim. destruct (pj_OpenRaw w (pc_Content claim)) as [w1 [src|e]] eqn:E1; apply open_steps in E1; [|by intros [= <- <-]].
  cbn [pj_Parse system_parser_host]. destruct (parser _) as [v parsed].
  assert (forall w2 (g : option goerr -> res ParsedMessage), rtc step w1 w2 ->
    (let '(w, closeErr) := pj_Close w2 in Some (w, g closeErr)) = Some (w', r) -> rtc step w w') as Hclose.
  { intros w2 g R2. destruct (pj_Close w2) as [w3 ce] eqn:E3. apply disk_error_steps in E3; [|apply quietly_attempt].
    intros [= <- <-]. by do 2 (etrans; [done|]). }
  destruct parsed as [m|pe]; [|by apply (Hclose w1 (λ _, Err pe))].
  destruct (ParserJob.finish w1 v) as [[[w2 v2] e]|] eqn:E2; [|done]. apply finish_steps in E2.
  apply (Hclose w2 (λ ce, match e with Some e => Err e | None => match ce with Some e => Err (EWrap "close Raw MIME" (ERawSource e)) | None => Ok m end end)).
  done.
Qed.

(** An iteration of the worker is a run of the system. *)
Lemma processNext_steps o w w' did err : processNext o w = Some (w', did, err) -> rtc step w w'.
Proof.
  unfold processNext. destruct (pj_ClaimContent w (po_LeaseDuration o)) as [w1 [[claim|]|e]] eqn:E1; apply claim_steps in E1;
    [|by intros [= <- <- <-]..].
  destruct (parseClaim w1 claim) as [[w2 parsed]|] eqn:E2; [|done]. apply parseClaim_steps in E2.
  destruct (pj_parse_context w2) as [w3 pctx] eqn:E3. apply disk_error_steps in E3; [|apply quietly_ctx_err].
  destruct (pj_context w3) as [w4 canceled] eqn:E4. apply disk_error_steps in E4; [|apply quietly_ctx_err].
  intros Hx. injection Hx as Hx. assert (exists f, w' = (apply_finishing w4 claim f).1) as [f ->].
  { unfold finish_iteration in Hx. destruct canceled; [injection Hx as <- <- <-; by exists (DoRelease (pj_now w4))|].
    destruct parsed as [m|pe]; [|destruct (classifyParseError pe pctx) as [code permanent]; destruct (permanent || _)].
    all: match type of Hx with context [apply_finishing _ _ ?g] => exists g end.
    all: destruct (apply_finishing _ _ _) as [w5 [e|]]; by injection Hx as <- <- <-. }
  do 4 (etrans; [done|]). apply finishing_steps.
Qed.

Lemma system_parser_spec :
  (forall v v' r, parser v = (v', r) -> rtc (λ v1 v2, exists n, (0 < n)%nat /\ v2 = (v_read v1 n).1.1) v v') ->
  ParserSpec system bytes.
Proof.
  intros Hp. split. intros w v w' v' r. cbn. destruct (parser v) as [v1 r1] eqn:E. intros [= <- <- <-]. by eapply Hp.
Qed.
End Host.

(** ** A worker on the demo system *)

Module Worker.
Definition options : ParserOptions := MkParserOptions 1 1000000000 1000000000 2000000000 3 1000000000 8000000000.
Definition token (_ : system) : res uuid := Ok (be_encode 16 77).

(** A parser that looks at the first bytes only. *)
Definition peek (v : rawVerifier bytes) : rawVerifier bytes * res ParsedMessage := ((v_read v 3).1.1, Ok ParseRepo.Demo.parsed).

Definition host : ParserHost system bytes := system_parser_host Live.cfg (λ _, true) (λ _, []) token Live.clock peek.

Lemma host_spec : ParserSpec (ParserHost0:=host) system bytes.
Proof.
  apply system_parser_spec. intros v v' r [= <- _]. apply rtc_once. exists 3%nat. split; [lia|done].
Qed.

(** The stored message is verified to its end and its parse is stored. *)
Lemma success : option_map (λ x, (x.1.2, x.2)) (processNext (ParserHost0:=host) options Live.final) = Some (itSuccess, None).
Proof. vm_compute. reflexivity. Qed.
End Worker.

