(* ===== verification/MailParser.v ===== *)
(** * The MIME parser: [internal/mail/limits.go], [normalize.go], [parser.go], [attachment.go]

    The limits, the normalization of header values, body texts and file
    names, and the walk over the parts of a message with its accounting.  The
    walk itself, the decoding of bodies and the accessors of headers are the
    go-message library, and address lists and dates are parsed by [net/mail]:
    both are parameters ([MessageLib]).  Everything read from the message
    passes through the readers the parser stacks on its source, which are
    modelled with the state of the context. *)

From S2P Require Import Prelude GoStrings Errors FileSystem Mail ParserJob.

(** ** Limits *)

Record Limits := MkLimits {
  MaxRawBytes : Z; MaxHeaderBytes : Z; MaxTotalHeaderBytes : Z; MaxHeaders : Z; MaxParts : Z; MaxDepth : Z; MaxDecodedBytes : Z;
  MaxPartBytes : Z; MaxTextBytes : Z; MaxHTMLBytes : Z; MaxSubjectBytes : Z; MaxFilenameBytes : Z; MaxAddresses : Z; MaxWarnings : Z
}.

Definition DefaultLimits : Limits :=
  MkLimits (Z.shiftl 25 20) (Z.shiftl 64 10) (Z.shiftl 1 20) 1000 100 10 (Z.shiftl 32 20) (Z.shiftl 25 20) (Z.shiftl 512 10) (Z.shiftl 1 20)
    998 255 100 100.

(** [Limits.validate] *)
Definition validate (l : Limits) : option goerr :=
  if existsb (λ v, v <=? 0) [MaxRawBytes l; MaxHeaderBytes l; MaxTotalHeaderBytes l; MaxDecodedBytes l; MaxPartBytes l]
  then Some (ENew "mail parser limit must be positive")
  else if existsb (λ v, v <=? 0)
    [MaxHeaders l; MaxParts l; MaxDepth l; MaxTextBytes l; MaxHTMLBytes l; MaxSubjectBytes l; MaxFilenameBytes l; MaxAddresses l; MaxWarnings l]
  then Some (ENew "mail parser limit must be positive")
  else if MaxTotalHeaderBytes l <? MaxHeaderBytes l then Some (ENew "mail parser MaxHeaderBytes must not exceed MaxTotalHeaderBytes")
  else if MaxDecodedBytes l <? MaxPartBytes l then Some (ENew "mail parser MaxPartBytes must not exceed MaxDecodedBytes")
  else None.

Definition NewParser (l : Limits) : res Limits := match validate l with Some e => Err e | None => Ok l end.

(** ** Normalization *)

Definition header_break (r : Z) : bool := (r =? 13) || (r =? 10) || (r =? 0).

Definition cleanHeaderValue (value : bytes) : bytes :=
  trim_space (concat ((λ g, if header_break (seg_rune g) then [] else seg_raw g) <$> runes (to_valid_utf8 value))).

Definition normalizeBodyText (value : bytes) : bytes :=
  trim_space (filter (λ c, code c <> 0) (to_valid_utf8 value)).

(** The loop of [truncateUTF8] drops bytes from the end; as many turns as
    there are bytes are enough, as the empty string is valid. *)
Fixpoint truncate_loop (fuel : nat) (value : bytes) : bytes :=
  match fuel with
  | O => value
  | S fuel => if valid_utf8 value then value else truncate_loop fuel (take (length value - 1) value)
  end.

Definition truncateUTF8 (value : bytes) (maxBytes : Z) : bytes :=
  if (maxBytes <=? 0) || (zlen value <=? maxBytes) then value
  else let value := take (Z.to_nat maxBytes) value in truncate_loop (length value) value.

Definition filename_seg (g : seg) : bytes :=
  if (seg_rune g =? 47) || (seg_rune g =? 92) then ["_"%char] else if is_control (seg_rune g) then [] else seg_raw g.

Definition space_or_dot (r : Z) : bool := (r =? 32) || (r =? 46).

Definition normalizeFilename (original : bytes) (maxBytes : Z) : bytes * bool :=
  let value := trim_func space_or_dot (concat (filename_seg <$> runes (to_valid_utf8 original))) in
  if bool_decide (value = []) || bool_decide (value = str ".") || bool_decide (value = str "..") then ([], negb (bool_decide (original = [])))
  else let value := truncateUTF8 value maxBytes in (value, negb (bool_decide (value = original))).

Definition remainingPreviewBytes (existing : bytes) (maxBytes : Z) : Z :=
  let remaining := maxBytes - zlen existing in
  let remaining := if negb (bool_decide (existing = [])) && (0 <? remaining) then remaining - 1 else remaining in
  if remaining <? 0 then 0 else remaining.

Definition newline : bytes := [byte_of 10].

Definition appendPreview (existing value : bytes) (maxBytes : Z) : bytes :=
  if bool_decide (value = []) || (maxBytes <=? zlen existing) then existing
  else
    let existing := if bool_decide (existing = []) then existing else existing ++ newline in
    let remaining := maxBytes - zlen existing in
    if remaining <=? 0 then truncateUTF8 existing maxBytes else existing ++ truncateUTF8 value remaining.

Definition fallbackMediaType (value : bytes) : bytes :=
  let mediaType := to_lower (trim_space (cut value ";"%char).1.1) in
  if bool_decide (mediaType = []) then str "application/octet-stream" else mediaType.

(** [strings.Join(parts, ".")] *)
Fixpoint join_dots (l : list bytes) : bytes :=
  match l with [] => [] | [x] => x | x :: l => x ++ "."%char :: join_dots l end.

Definition formatPartPath (path : list Z) : bytes :=
  match path with [] => str "0" | _ => join_dots ((λ value, format_int (value + 1)) <$> path) end.

(** ** The readers on top of the source *)

Section Readers.
Context {K Src : Type} (ctx_Err : K -> K * option goerr) (src_read : Src -> nat -> Src * bytes * option goerr).

Record contextReader := MkContextReader { cx_ctx : K; cx_source : Src }.
(** [io.LimitedReader] *)
Record LimitedReader := MkLimitedReader { lr_R : contextReader; lr_N : Z }.
Record countingReader := MkCountingReader { cn_source : LimitedReader; cn_read : Z }.

Definition context_read (r : contextReader) (n : nat) : contextReader * bytes * option goerr :=
  match ctx_Err (cx_ctx r) with
  | (k, Some e) => (MkContextReader k (cx_source r), [], Some e)
  | (k, None) => let '(source, out, e) := src_read (cx_source r) n in (MkContextReader k source, out, e)
  end.

Definition limited_read (l : LimitedReader) (n : nat) : LimitedReader * bytes * option goerr :=
  if lr_N l <=? 0 then (l, [], Some (IoEOF : goerr))
  else
    let n := if lr_N l <? Z.of_nat n then Z.to_nat (lr_N l) else n in
    let '(r, out, e) := context_read (lr_R l) n in (MkLimitedReader r (lr_N l - zlen out), out, e).

Definition counting_read (c : countingReader) (n : nat) : countingReader * bytes * option goerr :=
  let '(l, out, e) := limited_read (cn_source c) n in (MkCountingReader l (wrap64 (cn_read c + zlen out)), out, e).

Definition new_input (limits : Limits) (k : K) (source : Src) : countingReader :=
  MkCountingReader (MkLimitedReader (MkContextReader k source) (wrap64 (MaxRawBytes limits + 1))) 0.

(** [ctx.Err()] outside of the readers. *)
Definition input_ctx (c : countingReader) : countingReader * option goerr :=
  let '(k, e) := ctx_Err (cx_ctx (lr_R (cn_source c))) in
  (MkCountingReader (MkLimitedReader (MkContextReader k (cx_source (lr_R (cn_source c)))) (lr_N (cn_source c))) (cn_read c), e).
End Readers.
Arguments contextReader : clear implicits.
Arguments LimitedReader : clear implicits.
Arguments countingReader : clear implicits.

(** ** The libraries *)

Inductive visit (Hdr : Type) : Type :=
| Finished
| Broken (e : goerr)
| Part (path : list Z) (header : Hdr) (body : bool) (decodeErr : option goerr).
Arguments Finished {_}.
Arguments Broken {_}.
Arguments Part {_}.

(** The go-message library over an input: reading the root, the next part of
    the walk, and the decoded body of the part just visited; [Lib] is its own
    state.  Then the accessors of its headers, its error predicates, and
    [net/mail]. *)
Class MessageLib (Input Hdr Fld Lib : Type) := {
  ml_ReadWithOptions : Input -> Z -> Input * option (Lib * Hdr) * option goerr;
  ml_next : Lib -> Input -> Lib * Input * visit Hdr;
  ml_body : Lib -> Input -> nat -> Lib * Input * bytes * option goerr;
  (** a bound on the reads of the body that still succeed *)
  ml_fuel : Lib -> Input -> nat;
  h_Get : Hdr -> bytes -> bytes;
  h_Text : Hdr -> bytes -> bytes * option goerr;
  h_Fields : Hdr -> list Fld;
  h_FieldsByKey : Hdr -> bytes -> list Fld;
  f_Text : Fld -> bytes * option goerr;
  f_Raw : Fld -> res bytes;
  h_ContentType : Hdr -> bytes * option (bytes -> bytes) * option goerr;
  h_ContentDisposition : Hdr -> bytes * option (bytes -> bytes) * option goerr;
  IsUnknownCharset : goerr -> bool;
  IsUnknownEncoding : goerr -> bool;
  err_Error : goerr -> bytes;
  ParseAddressList : bytes -> res (list Address);
  ParseDate : bytes -> res Z
}.

(** What the parser relies on: the library touches the input only by reading
    from it with non-empty buffers, and its bodies are [io.Reader]s that come
    to an end. *)
Section Contract.
Context {K Src Hdr Fld Lib : Type} (ctx_Err : K -> K * option goerr) (src_read : Src -> nat -> Src * bytes * option goerr).

Definition input_reads : relation (countingReader K Src) :=
  rtc (λ c c', exists n, (0 < n)%nat /\ c' = (counting_read ctx_Err src_read c n).1.1).

Class MessageSpec `{!MessageLib (countingReader K Src) Hdr Fld Lib} : Prop := {
  root_reads : forall c m c' r e, ml_ReadWithOptions c m = (c', r, e) -> input_reads c c';
  next_reads : forall lib c lib' c' v, ml_next lib c = (lib', c', v) -> input_reads c c';
  body_reads : forall lib c n lib' c' out e, ml_body lib c n = (lib', c', out, e) -> input_reads c c';
  body_bound : forall lib c n lib' c' out e, ml_body lib c n = (lib', c', out, e) -> (length out <= n)%nat;
  body_progress : forall lib c n lib' c' out, (0 < n)%nat -> ml_body lib c n = (lib', c', out, None) -> (ml_fuel lib' c' < ml_fuel lib c)%nat;
  context_fuel : forall lib c, (ml_fuel lib (input_ctx ctx_Err c).1 <= ml_fuel lib c)%nat
}.
End Contract.

Arguments root_reads {K Src Hdr Fld Lib} ctx_Err src_read {_ _}.
Arguments next_reads {K Src Hdr Fld Lib} ctx_Err src_read {_ _}.
Arguments body_reads {K Src Hdr Fld Lib} ctx_Err src_read {_ _}.
Arguments body_bound {K Src Hdr Fld Lib} ctx_Err src_read {_ _}.
Arguments body_progress {K Src Hdr Fld Lib} ctx_Err src_read {_ _}.
Arguments context_fuel {K Src Hdr Fld Lib} ctx_Err src_read {_ _}.

(** ** The parse *)

Definition with_warnings (r : ParsedMessage) (l : list Warning) : ParsedMessage :=
  MkParsedMessage (pm_Subject r) (pm_MessageID r) (pm_From r) (pm_To r) (pm_Cc r) (pm_Date r) (pm_Text r) (pm_HTMLSource r) (pm_Attachments r) l.
Definition with_bodies (r : ParsedMessage) (text html : bytes) : ParsedMessage :=
  MkParsedMessage (pm_Subject r) (pm_MessageID r) (pm_From r) (pm_To r) (pm_Cc r) (pm_Date r) text html (pm_Attachments r) (pm_Warnings r).
Definition with_attachments (r : ParsedMessage) (l : list Attachment) : ParsedMessage :=
  MkParsedMessage (pm_Subject r) (pm_MessageID r) (pm_From r) (pm_To r) (pm_Cc r) (pm_Date r) (pm_Text r) (pm_HTMLSource r) l (pm_Warnings r).
Definition with_metadata (r : ParsedMessage) (subject messageID : bytes) (from to cc : list Address) (date : option Z) : ParsedMessage :=
  MkParsedMessage subject messageID from to cc date (pm_Text r) (pm_HTMLSource r) (pm_Attachments r) (pm_Warnings r).

Record parseState := MkParseState {
  ps_result : ParsedMessage; ps_parts : Z; ps_headerBytes : Z; ps_headers : Z; ps_decodedBytes : Z; ps_warningsTruncated : bool
}.

Definition start_state : parseState := MkParseState (MkParsedMessage [] [] [] [] [] None [] [] [] []) 0 0 0 0 false.

Definition with_result (s : parseState) (r : ParsedMessage) : parseState :=
  MkParseState r (ps_parts s) (ps_headerBytes s) (ps_headers s) (ps_decodedBytes s) (ps_warningsTruncated s).

Section Parse.
Context {K Src Hdr Fld Lib : Type} (ctx_Err : K -> K * option goerr).
Context `{!MessageLib (countingReader K Src) Hdr Fld Lib}.
Context (limits : Limits).

#[local] Abbreviation Input := (countingReader K Src).

Definition warn (code : WarningCode) (partPath detail : bytes) (s : parseState) : parseState :=
  let warning := MkWarning code partPath (truncateUTF8 detail 256) in
  let l := pm_Warnings (ps_result s) in
  if zlen l <? MaxWarnings limits then with_result s (with_warnings (ps_result s) (l ++ [warning]))
  else if ps_warningsTruncated s then s
  else
    let l := <[(length l - 1)%nat := MkWarning WarningListTruncated (str "0") (str "Additional parser warnings were omitted")]> l in
    MkParseState (with_warnings (ps_result s) l) (ps_parts s) (ps_headerBytes s) (ps_headers s) (ps_decodedBytes s) true.

Definition warn_if (condition : bool) (code : WarningCode) (partPath detail : bytes) (s : parseState) : parseState :=
  if condition then warn code partPath detail s else s.

Definition failed (e : option goerr) : bool := bool_decide (is_Some e).

(** The addresses of one field; whether the list is full. *)
Fixpoint add_addresses (key : string) (s : parseState) (addresses parsed : list Address) : parseState * list Address * bool :=
  match parsed with
  | [] => (s, addresses, false)
  | a :: parsed =>
    if MaxAddresses limits <=? zlen addresses
    then (warn WarningInvalidAddress (str "0") (str key ++ str " address list exceeded its limit") s, addresses, true)
    else add_addresses key s
      (addresses ++ [MkAddress (truncateUTF8 (cleanHeaderValue (ad_Name a)) 320) (truncateUTF8 (cleanHeaderValue (ad_Address a)) 320)]) parsed
  end.

Fixpoint read_address_fields (key : string) (s : parseState) (addresses : list Address) (fields : list Fld) : parseState * list Address :=
  match fields with
  | [] => (s, addresses)
  | f :: fields =>
    let '(decoded, err) := f_Text f in
    let s := warn_if (failed err) WarningInvalidAddress (str "0") (str key ++ str " charset could not be decoded") s in
    match ParseAddressList decoded with
    | Err _ =>
      read_address_fields key (warn WarningInvalidAddress (str "0") (str key ++ str " address list could not be parsed") s) addresses fields
    | Ok parsed =>
      let '(s, addresses, full) := add_addresses key s addresses parsed in
      if (full : bool) then (s, addresses) else read_address_fields key s addresses fields
    end
  end.

Definition readAddressHeader (header : Hdr) (key : string) (s : parseState) : parseState * list Address :=
  read_address_fields key s [] (h_FieldsByKey header (str key)).

Definition readRootMetadata (header : Hdr) (s : parseState) : parseState :=
  let '(subject, err) := h_Text header (str "Subject") in
  let s := warn_if (failed err) WarningInvalidSubject (str "0") (str "Subject charset could not be decoded") s in
  let subject := truncateUTF8 (cleanHeaderValue subject) (MaxSubjectBytes limits) in
  let messageID := truncateUTF8 (cleanHeaderValue (h_Get header (str "Message-ID"))) (MaxSubjectBytes limits) in
  let '(s, from) := readAddressHeader header "From" s in
  let '(s, to) := readAddressHeader header "To" s in
  let '(s, cc) := readAddressHeader header "Cc" s in
  let rawDate := trim_space (h_Get header (str "Date")) in
  let '(s, date) :=
    if bool_decide (rawDate = []) then (s, None)
    else match ParseDate rawDate with
    | Err _ => (warn WarningInvalidDate (str "0") (str "Date header could not be parsed") s, None)
    | Ok parsed => (s, Some parsed)
    end in
  with_result s (with_metadata (ps_result s) subject messageID from to cc date).

(** The bytes of the fields of one part; the lengths are those of slices in
    memory and do not wrap. *)
Fixpoint header_bytes (partBytes : Z) (fields : list Fld) : res Z :=
  match fields with
  | [] => Ok partBytes
  | f :: fields =>
    match f_Raw f with
    | Err e => Err (EWrap "read MIME header in part" e)
    | Ok raw =>
      let partBytes := partBytes + zlen raw in
      if MaxHeaderBytes limits <? partBytes then Err (EWrap "part exceeds bytes" ErrHeaderTooLarge) else header_bytes partBytes fields
    end
  end.

Definition inspectHeader (header : Hdr) (s : parseState) : parseState * option goerr :=
  let fields := h_Fields header in
  let s := MkParseState (ps_result s) (ps_parts s) (ps_headerBytes s) (ps_headers s + zlen fields) (ps_decodedBytes s) (ps_warningsTruncated s) in
  if MaxHeaders limits <? ps_headers s then (s, Some (EWrap "maximum fields" ErrTooManyHeaders))
  else match header_bytes 0 fields with
  | Err e => (s, Some e)
  | Ok partBytes =>
    let s := MkParseState (ps_result s) (ps_parts s) (ps_headerBytes s + partBytes) (ps_headers s) (ps_decodedBytes s) (ps_warningsTruncated s) in
    if MaxTotalHeaderBytes limits <? ps_headerBytes s then (s, Some (EWrap "all parts exceed bytes" ErrHeaderTooLarge)) else (s, None)
  end.

Definition recoverDecodeError (err : option goerr) (partPath : bytes) (s : parseState) : parseState * option goerr :=
  match err with
  | None => (s, None)
  | Some e =>
    if IsUnknownCharset e then (warn WarningUnknownCharset partPath (str "Part uses an unsupported charset") s, None)
    else if IsUnknownEncoding e
    then (warn WarningUnknownTransferEncoding partPath (str "Part uses an unsupported transfer encoding") s, None)
    else (s, Some e)
  end.

Definition bufferBytes : nat := 32 * 1024.

Definition add_decoded (s : parseState) (n : Z) : parseState :=
  MkParseState (ps_result s) (ps_parts s) (ps_headerBytes s) (ps_headers s) (wrap64 (ps_decodedBytes s + n)) (ps_warningsTruncated s).

(** The loop of [consumeLeaf]; one more turn than the body has reads left is
    enough. *)
Fixpoint leaf_loop (fuel : nat) (captureLimit : Z) (lib : Lib) (c : Input) (s : parseState) (preview : bytes) (partBytes : Z)
  : option (Lib * Input * parseState * res (bytes * Z * bool)) :=
  match fuel with
  | O => None
  | S fuel =>
    match input_ctx ctx_Err c with
    | (c, Some e) => Some (lib, c, s, Err e)
    | (c, None) =>
      let '(lib, c, out, err) := ml_body lib c bufferBytes in
      let '(s, partBytes, preview, stop) :=
        if 0 <? zlen out then
          let partBytes := wrap64 (partBytes + zlen out) in
          let s := add_decoded s (zlen out) in
          if MaxPartBytes limits <? partBytes then (s, partBytes, preview, Some (EWrap "maximum bytes" ErrPartTooLarge))
          else if MaxDecodedBytes limits <? ps_decodedBytes s then (s, partBytes, preview, Some (EWrap "maximum bytes" ErrDecodedContentTooLarge))
          else (s, partBytes, preview ++ take (Z.to_nat (captureLimit - zlen preview)) out, None)
        else (s, partBytes, preview, None) in
      match stop with
      | Some e => Some (lib, c, s, Err e)
      | None =>
        match err with
        | Some e => Some (lib, c, s, if errors_is e IoEOF then Ok (preview, partBytes, captureLimit <? partBytes) else Err e)
        | None => leaf_loop fuel captureLimit lib c s preview partBytes
        end
      end
    end
  end.

Definition consumeLeaf (body : bool) (captureLimit : Z) (lib : Lib) (c : Input) (s : parseState)
  : option (Lib * Input * parseState * res (bytes * Z * bool)) :=
  if negb body then Some (lib, c, s, Ok ([], 0, false))
  else
    let captureLimit := if captureLimit <? 0 then 0 else captureLimit in
    leaf_loop (S (ml_fuel lib c)) captureLimit lib c s [] 0.

(** A parameter of a media type; a missing one is empty. *)
Definition parameter (params : option (bytes -> bytes)) (key : string) : bytes :=
  match params with Some f => f (str key) | None => [] end.

Inductive leaf : Type := PlainText | HTML | Other.

(** What [consumeEntity] finds in the header of a part that is no multipart. *)
Record leafHeader := MkLeafHeader { lh_mediaType : bytes; lh_disposition : bytes; lh_filename : bytes }.

(** The media type and its parameters. *)
Definition entity_type (header : Hdr) (partPath : bytes) (s : parseState) : parseState * bytes * option (bytes -> bytes) :=
  let '(mediaType, typeParams, typeErr) := h_ContentType header in
  let '(s, mediaType) :=
    match typeErr with
    | Some _ => (warn WarningMalformedContentType partPath (str "Content-Type could not be parsed") s,
                 fallbackMediaType (h_Get header (str "Content-Type")))
    | None => (s, mediaType)
    end in
  (s, to_lower (trim_space mediaType), typeParams).

Definition entity_disposition (header : Hdr) (partPath : bytes) (s : parseState) : parseState * bytes * option (bytes -> bytes) :=
  let rawDisposition := h_Get header (str "Content-Disposition") in
  let '(s, disposition, params) :=
    if bool_decide (rawDisposition = []) then (s, [], None)
    else
      let '(disposition, params, dispositionErr) := h_ContentDisposition header in
      match dispositionErr with
      | Some _ => (warn WarningMalformedDisposition partPath (str "Content-Disposition could not be parsed") s,
                   fallbackMediaType rawDisposition, params)
      | None => (s, disposition, params)
      end in
  (s, to_lower (trim_space disposition), params).

Definition leaf_kind (h : leafHeader) : leaf :=
  if bool_decide (lh_disposition h = str "attachment") || negb (bool_decide (lh_filename h = [])) then Other
  else if bool_decide (lh_mediaType h = str "text/plain") then PlainText
  else if bool_decide (lh_mediaType h = str "text/html") then HTML
  else Other.

Definition capture_limit (k : leaf) (s : parseState) : Z :=
  match k with
  | PlainText => remainingPreviewBytes (pm_Text (ps_result s)) (MaxTextBytes limits)
  | HTML => remainingPreviewBytes (pm_HTMLSource (ps_result s)) (MaxHTMLBytes limits)
  | Other => 0
  end.

(** The new attachment. *)
Definition add_attachment (header : Hdr) (h : leafHeader) (partPath : bytes) (sizeBytes : Z) (s : parseState) : parseState :=
  let '(safeFilename, normalized) := normalizeFilename (lh_filename h) (MaxFilenameBytes limits) in
  let safeFilename := if bool_decide (safeFilename = []) then str "attachment" else safeFilename in
  let s := warn_if normalized WarningFilenameNormalized partPath (str "Attachment filename required normalization") s in
  let disposition := if bool_decide (lh_disposition h = []) then str "attachment" else lh_disposition h in
  let contentID := truncateUTF8 (cleanHeaderValue (trim_func (λ r, (r =? 60) || (r =? 62)) (h_Get header (str "Content-ID")))) (MaxSubjectBytes limits) in
  with_result s (with_attachments (ps_result s)
    (pm_Attachments (ps_result s) ++ [MkAttachment partPath safeFilename (lh_mediaType h) disposition contentID sizeBytes])).

(** What a leaf that was read adds to the result. *)
Definition add_leaf (header : Hdr) (h : leafHeader) (partPath preview : bytes) (sizeBytes : Z) (truncated : bool) (s : parseState) : parseState :=
  let value := normalizeBodyText preview in
  let r := ps_result s in
  match leaf_kind h with
  | PlainText =>
    warn_if truncated WarningTextTruncated partPath (str "Text preview exceeded its storage limit")
      (with_result s (with_bodies r (appendPreview (pm_Text r) value (MaxTextBytes limits)) (pm_HTMLSource r)))
  | HTML =>
    warn_if truncated WarningHTMLTruncated partPath (str "HTML source exceeded its storage limit")
      (with_result s (with_bodies r (pm_Text r) (appendPreview (pm_HTMLSource r) value (MaxHTMLBytes limits))))
  | Other => add_attachment header h partPath sizeBytes s
  end.

Definition consumeEntity (header : Hdr) (body : bool) (partPath : bytes) (lib : Lib) (c : Input) (s : parseState)
  : option (Lib * Input * parseState * option goerr) :=
  let '(s, mediaType, typeParams) := entity_type header partPath s in
  if has_prefix mediaType (str "multipart/") then Some (lib, c, s, None)
  else
    let '(s, disposition, dispositionParams) := entity_disposition header partPath s in
    let filename := parameter dispositionParams "filename" in
    let filename := if bool_decide (filename = []) then parameter typeParams "name" else filename in
    let h := MkLeafHeader mediaType disposition filename in
    match consumeLeaf body (capture_limit (leaf_kind h) s) lib c s with
    | None => None
    | Some (lib, c, s, Err e) => Some (lib, c, s, Some (EWrap "consume decoded part" e))
    | Some (lib, c, s, Ok (preview, sizeBytes, truncated)) => Some (lib, c, add_leaf header h partPath preview sizeBytes truncated s, None)
    end.

(** The function [Parse] gives to [Walk]. *)
Definition visit_part (path : list Z) (header : Hdr) (body : bool) (decodeErr : option goerr) (lib : Lib) (c : Input) (s : parseState)
  : option (Lib * Input * parseState * option goerr) :=
  let partPath := formatPartPath path in
  if MaxDepth limits <? zlen path then Some (lib, c, s, Some (EWrap "part exceeds depth" ErrNestingTooDeep))
  else
    let s := MkParseState (ps_result s) (ps_parts s + 1) (ps_headerBytes s) (ps_headers s) (ps_decodedBytes s) (ps_warningsTruncated s) in
    if MaxParts limits <? ps_parts s then Some (lib, c, s, Some (EWrap "maximum parts" ErrTooManyParts))
    else match inspectHeader header s with
    | (s, Some e) => Some (lib, c, s, Some e)
    | (s, None) =>
      match recoverDecodeError decodeErr partPath s with
      | (s, Some e) => Some (lib, c, s, Some (EWrap "decode MIME part" e))
      | (s, None) => consumeEntity header body partPath lib c s
      end
    end.

(** [Walk]: every part in turn until the function fails. *)
Fixpoint walk (fuel : nat) (lib : Lib) (c : Input) (s : parseState) : option (Input * parseState * option goerr) :=
  match fuel with
  | O => None
  | S fuel =>
    match ml_next lib c with
    | (_, c, Finished) => Some (c, s, None)
    | (_, c, Broken e) => Some (c, s, Some e)
    | (lib, c, Part path header body decodeErr) =>
      match visit_part path header body decodeErr lib c s with
      | None => None
      | Some (_, c, s, Some e) => Some (c, s, Some e)
      | Some (lib, c, s, None) => walk fuel lib c s
      end
    end
  end.

(** No more parts are visited than the limit allows, and the one after. *)
Definition walk_fuel : nat := Z.to_nat (MaxParts limits) + 2.

Definition isHeaderLimitError (err : option goerr) : bool :=
  match err with Some e => contains (err_Error e) (str "header exceeds maximum size") | None => false end.

(** [Parse] of a source under a context; the input it leaves behind. *)
Definition Parse_input (c : Input) : option (Input * res ParsedMessage) :=
  match input_ctx ctx_Err c with
  | (c, Some e) => Some (c, Err e)
  | (c, None) =>
    let too_large c := MaxRawBytes limits <? cn_read (c : Input) in
    match ml_ReadWithOptions c (MaxHeaderBytes limits) with
    | (c, None, readErr) =>
      Some (c, Err (if too_large c then EWrap "maximum bytes" ErrMessageTooLarge
        else if isHeaderLimitError readErr then EWrap "root exceeds bytes" ErrHeaderTooLarge
        else match readErr with
        | Some e => EWrap "read MIME root" e
        | None => ENew "read MIME root: empty entity"
        end))
    | (c, Some (lib, header), readErr) =>
      match recoverDecodeError readErr (str "0") start_state with
      | (_, Some e) => Some (c, Err (EWrap "decode MIME root" e))
      | (s, None) =>
        let s := readRootMetadata header s in
        match walk walk_fuel lib c s with
        | None => None
        | Some (c, s, walkErr) =>
          if too_large c then Some (c, Err (EWrap "maximum bytes" ErrMessageTooLarge))
          else match input_ctx ctx_Err c with
          | (c, Some e) => Some (c, Err e)
          | (c, None) =>
            Some (c, match walkErr with Some e => Err (EWrap "walk MIME message" e) | None => Ok (ps_result s) end)
          end
        end
      end
    end
  end.

Definition Parse (k : K) (source : Src) : option (Input * res ParsedMessage) := Parse_input (new_input limits k source).
End Parse.

(** ** Attachments *)

Section Attachment.
Context {K Src Hdr Fld Lib : Type} (ctx_Err : K -> K * option goerr).
Context `{!MessageLib (countingReader K Src) Hdr Fld Lib}.
Context (limits : Limits).

#[local] Abbreviation Input := (countingReader K Src).

(** [ba_raw_closed] counts the calls of [raw.Close]; the context is the one of
    the input. *)
Record boundedAttachmentReader := MkBoundedReader {
  ba_source : Lib; ba_input : Input; ba_maxBytes : Z; ba_read : Z; ba_closed : bool; ba_raw_closed : nat
}.

(** The function [OpenAttachment] gives to [Walk]: [None] goes on, otherwise
    the part was found or cannot be opened. *)
Definition locate_part (partPath : bytes) (path : list Z) (header : Hdr) (decodeErr : option goerr) : option (res unit) :=
  if negb (bool_decide (formatPartPath path = partPath)) then None
  else match (match decodeErr with Some e => if negb (IsUnknownCharset e) && negb (IsUnknownEncoding e) then Some e else None | None => None end) with
  | Some e => Some (Err e)
  | None =>
    let '(mediaType, _, typeErr) := h_ContentType header in
    if failed typeErr || has_prefix (to_lower (trim_space mediaType)) (str "multipart/")
    then Some (Err (ENew "attachment part is not a leaf MIME entity"))
    else Some (Ok tt)
  end.

(** The walk up to the part; parts that are passed over are not read.  [Ok None]
    is the end of the message, or a part without a body. *)
Fixpoint locate_walk (fuel : nat) (partPath : bytes) (lib : Lib) (c : Input) : option (Input * res (option Lib)) :=
  match fuel with
  | O => None
  | S fuel =>
    match ml_next lib c with
    | (_, c, Finished) => Some (c, Ok None)
    | (_, c, Broken e) => Some (c, Err e)
    | (lib, c, Part path header body decodeErr) =>
      match locate_part partPath path header decodeErr with
      | None => locate_walk fuel partPath lib c
      | Some (Err e) => Some (c, Err e)
      | Some (Ok _) => Some (c, Ok (if body then Some lib else None))
      end
    end
  end.

(** [OpenAttachment]: the reader, or the error and that the source was
    closed.  The walk has no limit of its own here: [fuel] bounds the parts. *)
Definition OpenAttachment (fuel : nat) (k : K) (source : Src) (partPath : bytes) : option (res boundedAttachmentReader) :=
  let partPath := trim_space partPath in
  if bool_decide (partPath = []) then Some (Err (ENew "attachment part path is required"))
  else match ml_ReadWithOptions (new_input limits k source) (MaxHeaderBytes limits) with
  | (_, None, readErr) => Some (Err (match readErr with Some e => EWrap "read MIME root" e | None => ENew "read MIME root" end))
  | (c, Some (lib, _), _) =>
    match locate_walk fuel partPath lib c with
    | None => None
    | Some (_, Err e) => Some (Err (EWrap "locate MIME attachment" e))
    | Some (_, Ok None) => Some (Err (ENew "attachment part not found"))
    | Some (c, Ok (Some lib)) => Some (Ok (MkBoundedReader lib c (MaxPartBytes limits) 0 false 0))
    end
  end.

(** [boundedAttachmentReader.Read] *)
Definition bounded_read (r : boundedAttachmentReader) (n : nat) : boundedAttachmentReader * bytes * option goerr :=
  if ba_closed r then (r, [], Some (IoErrClosedPipe : goerr))
  else match input_ctx ctx_Err (ba_input r) with
  | (c, Some e) => (MkBoundedReader (ba_source r) c (ba_maxBytes r) (ba_read r) false (ba_raw_closed r), [], Some e)
  | (c, None) =>
    let at_ lib c read := MkBoundedReader lib c (ba_maxBytes r) read false (ba_raw_closed r) in
    if (n =? 0)%nat then (at_ (ba_source r) c (ba_read r), [], None)
    else if ba_maxBytes r <=? ba_read r then
      let '(lib, c, out, e) := ml_body (ba_source r) c 1 in
      (at_ lib c (ba_read r), [], if 0 <? zlen out then Some (EWrap "maximum bytes" ErrPartTooLarge) else e)
    else
      let remaining := ba_maxBytes r - ba_read r in
      let '(lib, c, out, e) := ml_body (ba_source r) c (if remaining <? Z.of_nat n then Z.to_nat remaining else n) in
      (at_ lib c (ba_read r + zlen out), out, e)
  end.

Definition bounded_close (r : boundedAttachmentReader) : boundedAttachmentReader :=
  if ba_closed r then r
  else MkBoundedReader (ba_source r) (ba_input r) (ba_maxBytes r) (ba_read r) true (S (ba_raw_closed r)).
End Attachment.
Arguments boundedAttachmentReader : clear implicits.
