(* ===== verification/MailParserFacts.v ===== *)
(** * Facts about the MIME parser

    What the normalization functions guarantee of their results, the
    accounting of a parse, and the parser as the one the worker runs. *)

From S2P Require Import Prelude GoStrings Errors FileSystem Mail ParserJob MailParser.

(** ** Texts without certain runes *)

(** Well-formed UTF-8 without the runes [p]. *)
Definition clean (p : Z -> bool) (s : bytes) : bool := forallb (λ g, seg_valid g && negb (p (seg_rune g))) (runes s).

(** A segment that decodes to itself in front of any text. *)
Definition seg_ok (g : seg) : Prop := seg_valid g = true /\ forall t, runes (seg_raw g ++ t) = g :: runes t.

Lemma runes_ok s g : g ∈ runes s -> seg_valid g = true -> seg_ok g.
Proof.
  induction s as [s IH] using bytes_strong_ind. destruct (runes s) as [|g0 l] eqn:E; [by intros ?%not_elem_of_nil|].
  intros Hin Hv. destruct (runes_tail _ _ _ E) as (t & Es & Et).
  apply elem_of_cons in Hin as [->|Hin]; [split; [done|]; by apply (runes_valid_head s _ l)|].
  apply (IH t); [|by rewrite Et|done].
  subst s. rewrite length_app. enough (seg_raw g0 <> []) by (destruct (seg_raw g0); cbn; [done|lia]).
  intros H0. rewrite H0 in E. cbn in E. destruct t as [|a t]; [done|]. cbn [runes] in E. split_match E; done.
Qed.

Lemma runes_unrunes_app l t : Forall seg_ok l -> runes (unrunes l ++ t) = l ++ runes t.
Proof.
  induction 1 as [|g l [_ Hg] _ IH]; [done|]. unfold unrunes in *. cbn. by rewrite <- app_assoc, Hg, IH.
Qed.

Lemma runes_unrunes l : Forall seg_ok l -> runes (unrunes l) = l.
Proof. intros Hl. rewrite <- (app_nil_r (unrunes l)), runes_unrunes_app by done. cbn. by rewrite app_nil_r. Qed.

Lemma clean_spec p s : clean p s = true <-> Forall (λ g, seg_ok g /\ p (seg_rune g) = false) (runes s).
Proof.
  unfold clean. rewrite forallb_forall, Forall_forall. split.
  - intros Hc g Hg. destruct (andb_prop _ _ (Hc g (proj1 (list_elem_of_In _ _) Hg))) as [Hv Hp].
    split; [by apply (runes_ok s)|by apply negb_true_iff].
  - intros Hc g Hg%list_elem_of_In. destruct (Hc g Hg) as [[Hv _] Hp]. by rewrite Hv, Hp.
Qed.

Lemma clean_unrunes p l : Forall (λ g, seg_ok g /\ p (seg_rune g) = false) l -> clean p (unrunes l) = true.
Proof. intros Hl. apply clean_spec. rewrite runes_unrunes; [done|]. eapply Forall_impl; [exact Hl|]. by intros g [? _]. Qed.

Lemma clean_ok p s : clean p s = true -> Forall seg_ok (runes s).
Proof. intros Hc%clean_spec. eapply Forall_impl; [exact Hc|]. by intros g [? _]. Qed.

Lemma clean_app p s t : clean p s = true -> clean p t = true -> clean p (s ++ t) = true.
Proof.
  intros Hs Ht. apply clean_spec. rewrite <- (unrunes_runes s), runes_unrunes_app by by eapply clean_ok.
  apply Forall_app. split; by apply clean_spec.
Qed.

Lemma clean_valid s : valid_utf8 s = true <-> clean (λ _, false) s = true.
Proof.
  unfold valid_utf8, clean. rewrite !forallb_forall. split; intros Hf g Hg.
  - by rewrite (Hf g Hg).
  - by destruct (andb_prop _ _ (Hf g Hg)).
Qed.

Lemma to_valid_clean s : Forall seg_ok (runes (to_valid_utf8 s)).
Proof. apply (clean_ok (λ _, false)), clean_valid, to_valid_utf8_valid. Qed.

(** Trimming takes segments away at both ends. *)
Lemma clean_trim p q s : clean p s = true -> clean p (trim_func q s) = true.
Proof.
  intros Hs%clean_spec. apply clean_unrunes. destruct (trim_segs_infix q (runes s)) as (k1 & k2 & E).
  rewrite E in Hs. apply Forall_app in Hs as [_ Hs]. by apply Forall_app in Hs as [? _].
Qed.

(** The bytes of a well-formed segment: one byte below 128, or only bytes
    from 128 on, and no proper part of them is well-formed. *)
Definition seg_shape (g : seg) : Prop :=
  (exists a, seg_raw g = [a] /\ code a = seg_rune g /\ code a < 128) \/
  (128 <= seg_rune g /\ Forall (λ c, 128 <= code c) (seg_raw g) /\
   forall n, (0 < n < length (seg_raw g))%nat -> valid_utf8 (take n (seg_raw g)) = false).

Lemma two_shape a b : utf8_two a b = true -> seg_shape (Seg (rune2 a b) [a; b] true).
Proof.
  intros E. right. cbn [seg_rune seg_raw]. split; [by apply rune2_big|]. unfold utf8_two, cont, in_range in E. bool_to_prop.
  split; [repeat constructor; lia|]. intros [|[|n]]; cbn; try lia. intros _. unfold valid_utf8. cbn [runes].
  by replace (code a <? 128) with false by lia.
Qed.

Lemma code_big a n : 128 <= n <= code a -> (code a <? 128) = false.
Proof. lia. Qed.

Lemma three_shape a b c : utf8_three a b c = true -> seg_shape (Seg (rune3 a b c) [a; b; c] true).
Proof.
  intros E. right. cbn [seg_rune seg_raw]. split; [by apply rune3_big|]. unfold utf8_three, cont, in_range in E.
  assert (224 <= code a <= 239 /\ 128 <= code b /\ 128 <= code c) as (Ha & Hb & Hc).
  { rewrite !andb_true_iff, !orb_true_iff, !andb_true_iff, !Z.leb_le, !Z.eqb_eq in E. lia. }
  split; [repeat constructor; lia|]. intros [|[|[|n]]]; cbn; try lia; intros _; unfold valid_utf8; cbn [runes];
    rewrite (code_big a 224) by lia; [done|]. unfold utf8_two, in_range. by replace (code a <=? 223) with false by lia; rewrite andb_false_r.
Qed.

Lemma four_shape a b c d : utf8_four a b c d = true -> seg_shape (Seg (rune4 a b c d) [a; b; c; d] true).
Proof.
  intros E. right. cbn [seg_rune seg_raw]. split; [by apply rune4_big|]. unfold utf8_four, cont, in_range in E.
  assert (240 <= code a <= 244 /\ 128 <= code b /\ 128 <= code c /\ 128 <= code d) as (Ha & Hb & Hc & Hd).
  { rewrite !andb_true_iff, !orb_true_iff, !andb_true_iff, !Z.leb_le, !Z.eqb_eq in E. lia. }
  split; [repeat constructor; lia|]. intros [|[|[|[|n]]]]; cbn; try lia; intros _; unfold valid_utf8; cbn [runes];
    rewrite (code_big a 240) by lia; [done| |]; unfold utf8_two, utf8_three, in_range;
    replace (code a <=? 223) with false by lia; rewrite andb_false_r; [done|]. cbn [andb].
  replace (code a =? 224) with false by lia. replace (code a <=? 236) with false by lia.
  replace (code a =? 237) with false by lia. replace (code a <=? 239) with false by lia. by rewrite !andb_false_r.
Qed.

Lemma seg_ok_shape g : seg_ok g -> seg_shape g.
Proof.
  intros [Hv Hr]. specialize (Hr []). rewrite app_nil_r in Hr. destruct (seg_raw g) as [|a s] eqn:Es; [done|].
  cbn [runes] in Hr. split_match Hr; subst; try discriminate Hv.
  - left. exists a. cbn. split_and!; [done|done|lia].
  - by apply two_shape.
  - by apply three_shape.
  - by apply four_shape.
Qed.

(** A well-formed prefix ends between two segments. *)
Lemma valid_prefix l t : Forall seg_ok l -> t `prefix_of` unrunes l -> valid_utf8 t = true -> exists k, t = unrunes (take k l).
Proof.
  intros Hl. revert t. induction Hl as [|g l Hg Hl IH]; intros t Hp Hv.
  { exists 0%nat. by apply prefix_nil_inv in Hp. }
  change (unrunes (g :: l)) with (seg_raw g ++ unrunes l) in Hp.
  destruct (decide (length t < length (seg_raw g))%nat) as [Hlt|Hge].
  - destruct t as [|a t]; [by exists 0%nat|]. exfalso.
    assert (a :: t = take (length (a :: t)) (seg_raw g)) as Et.
    { destruct Hp as [k E]. rewrite <- (take_app_le (seg_raw g) (unrunes l)) by lia. rewrite E. by rewrite take_app_length. }
    destruct (seg_ok_shape g Hg) as [(b & Eb & _)|(_ & _ & Hbad)]; [rewrite Eb in Hlt; cbn in Hlt; lia|].
    rewrite Et, Hbad in Hv; [done|]. split; [cbn; lia|done].
  - assert (exists t', t = seg_raw g ++ t') as [t' ->].
    { destruct Hp as [k E]. exists (drop (length (seg_raw g)) t). rewrite <- (take_drop (length (seg_raw g)) t) at 1. f_equal.
      transitivity (take (length (seg_raw g)) (t ++ k)); [by rewrite take_app_le by lia|]. by rewrite <- E, take_app_length. }
    apply prefix_app_inv in Hp. unfold valid_utf8 in Hv. rewrite (proj2 Hg) in Hv. cbn in Hv. apply andb_true_iff in Hv as [_ Hv].
    destruct (IH t' Hp Hv) as [k ->]. by exists (S k).
Qed.

(** ** Truncation *)

Lemma truncate_loop_spec fuel t : (length t <= fuel)%nat -> truncate_loop fuel t `prefix_of` t /\ valid_utf8 (truncate_loop fuel t) = true.
Proof.
  revert t. induction fuel as [|fuel IH]; intros t Ht; cbn [truncate_loop].
  { destruct t; [done|cbn in Ht; lia]. }
  destruct (valid_utf8 t) eqn:E; [done|]. destruct t as [|a t]; [done|].
  destruct (IH (take (length (a :: t) - 1) (a :: t))) as [Hp Hv]; [rewrite length_take; cbn in *; lia|].
  split; [|done]. etrans; [exact Hp|]. apply prefix_take.
Qed.

Lemma truncate_segs s m : valid_utf8 s = true -> exists k, truncateUTF8 s m = unrunes (take k (runes s)).
Proof.
  intros Hv. unfold truncateUTF8. destruct (_ || _); [exists (length (runes s)); by rewrite firstn_all, unrunes_runes|].
  destruct (truncate_loop_spec (length (take (Z.to_nat m) s)) (take (Z.to_nat m) s)) as [Hp Hv']; [done|].
  apply valid_prefix; [by apply (clean_ok (λ _, false)), clean_valid| |done]. rewrite unrunes_runes. etrans; [exact Hp|]. apply prefix_take.
Qed.

Lemma clean_weaken p s : clean p s = true -> valid_utf8 s = true.
Proof. intros Hs%clean_ok. apply clean_valid, clean_spec. eapply Forall_impl; [exact Hs|done]. Qed.

Lemma clean_truncate p s m : clean p s = true -> clean p (truncateUTF8 s m) = true.
Proof.
  intros Hs. destruct (truncate_segs s m (clean_weaken p s Hs)) as [k ->]. apply clean_unrunes.
  by apply Forall_take, clean_spec.
Qed.

Lemma truncate_length s m : 0 < m -> zlen (truncateUTF8 s m) <= m.
Proof.
  intros Hm. unfold truncateUTF8. destruct (zlen s <=? m) eqn:E; [rewrite orb_true_r; lia|]. rewrite orb_false_r.
  replace (m <=? 0) with false by lia.
  destruct (truncate_loop_spec (length (take (Z.to_nat m) s)) (take (Z.to_nat m) s)) as [Hp _]; [done|].
  apply prefix_length in Hp. rewrite length_take in Hp at 2. unfold zlen. lia.
Qed.

(** ** The normalization functions *)

(** Keeping some of the segments of a text. *)
Lemma kept_segs (p : Z -> bool) l :
  concat ((λ g, if p (seg_rune g) then [] else seg_raw g) <$> l) = unrunes (filter (λ g, p (seg_rune g) = false) l).
Proof.
  unfold unrunes. induction l as [|g l IH]; [done|]. cbn [fmap list_fmap concat]. rewrite IH, filter_cons.
  destruct (p (seg_rune g)); by case_decide.
Qed.

Lemma clean_kept p l : Forall seg_ok l -> clean p (unrunes (filter (λ g, p (seg_rune g) = false) l)) = true.
Proof.
  intros Hl. apply clean_unrunes, Forall_forall. intros g [Hp Hg]%list_elem_of_filter. split; [|done].
  by apply (proj1 (Forall_forall _ _) Hl).
Qed.

Lemma cleanHeaderValue_clean value : clean header_break (cleanHeaderValue value) = true.
Proof. unfold cleanHeaderValue. rewrite kept_segs. apply clean_trim, clean_kept, to_valid_clean. Qed.

Definition nul (r : Z) : bool := r =? 0.

Lemma filter_seg g : seg_ok g -> filter (λ c, code c <> 0) (seg_raw g) = if nul (seg_rune g) then [] else seg_raw g.
Proof.
  unfold nul. intros [(a & -> & Ha & Hs)|(Hr & Hb & _)]%seg_ok_shape.
  - rewrite <- Ha, filter_cons, filter_nil. destruct (decide _), (code a =? 0) eqn:E; try done; lia.
  - replace (seg_rune g =? 0) with false by lia. induction Hb as [|c l Hc _ IH]; [done|]. rewrite filter_cons, IH. by case_decide; [|lia].
Qed.

Lemma normalizeBodyText_clean value : clean nul (normalizeBodyText value) = true.
Proof.
  apply clean_trim. rewrite <- (unrunes_runes (to_valid_utf8 value)). pose proof (to_valid_clean value) as Hl.
  enough (filter (λ c, code c <> 0) (unrunes (runes (to_valid_utf8 value))) = unrunes (filter (λ g, nul (seg_rune g) = false) (runes (to_valid_utf8 value)))) as ->
    by by apply clean_kept.
  rewrite <- kept_segs. unfold unrunes. induction Hl as [|g l Hg _ IH]; [done|].
  cbn [fmap list_fmap concat]. by rewrite filter_app, IH, filter_seg.
Qed.

Definition unsafe_rune (r : Z) : bool := (r =? 47) || (r =? 92) || is_control r.

Lemma filename_segs_clean l : Forall seg_ok l -> clean unsafe_rune (concat (filename_seg <$> l)) = true.
Proof.
  induction 1 as [|g l Hg _ IH]; [done|]. cbn [fmap list_fmap concat]. apply clean_app; [|done]. unfold filename_seg.
  destruct (_ || _) eqn:E1; [done|]. destruct (is_control _) eqn:E2; [done|].
  rewrite <- (app_nil_r (seg_raw g)). change (clean unsafe_rune (unrunes [g]) = true). apply clean_unrunes, Forall_singleton. split; [done|].
  unfold unsafe_rune. by rewrite E1, E2.
Qed.

(** The first byte of a trimmed text is none of the trimmed ASCII
    characters. *)
Lemma trim_head q s c : clean (λ _, false) s = true -> head (trim_func q s) = Some c -> code c < 128 -> q (code c) = false.
Proof.
  intros Hs. unfold trim_func, trim_segs.
  destruct (drop_while_suffix (λ g, q (seg_rune g)) (runes s)) as [k1 E1]. set (m := drop_while _ (runes s)) in *.
  destruct (drop_while_suffix (λ g, q (seg_rune g)) (reverse m)) as [k2 E2]. set (m' := drop_while _ (reverse m)) in *.
  assert (m = reverse m' ++ reverse k2) as Em by (by rewrite <- reverse_app, <- E2, reverse_involutive).
  destruct (reverse m') as [|g l] eqn:El; [done|]. intros Hh Hc.
  assert (q (seg_rune g) = false) as Hq by (eapply (drop_while_head (λ g, q (seg_rune g)) (runes s)); fold m; rewrite Em; reflexivity).
  assert (seg_ok g) as Hg.
  { apply clean_spec in Hs. rewrite E1, Em in Hs. apply Forall_app in Hs as [_ Hs]. apply Forall_app in Hs as [Hs _]. by apply Forall_cons in Hs as [[? _] _]. }
  destruct (seg_ok_shape g Hg) as [(a & Ea & Hr & _)|(_ & Hb & _)]; unfold unrunes in Hh; cbn in Hh.
  - rewrite Ea in Hh. injection Hh as <-. by rewrite Hr.
  - destruct (seg_raw g) as [|a r] eqn:Ea.
    { destruct Hg as [_ Hg]. specialize (Hg []). by rewrite Ea in Hg. }
    injection Hh as <-. apply Forall_cons in Hb as [Hb _]. lia.
Qed.

(** A name that is safe in a file system and in a header. *)
Definition safe_name (f : bytes) : bool :=
  negb (bool_decide (f = [])) && clean unsafe_rune f && negb (bool_decide (head f = Some "."%char)) && negb (bool_decide (head f = Some " "%char)).

Lemma truncate_head s m c : head (truncateUTF8 s m) = Some c -> head s = Some c.
Proof.
  unfold truncateUTF8. destruct (_ || _); [done|].
  destruct (truncate_loop_spec (length (take (Z.to_nat m) s)) (take (Z.to_nat m) s)) as [[k E] _]; [done|].
  set (t := truncate_loop _ _) in *. destruct t as [|a t]; [done|]. intros [= ->].
  destruct s as [|b s]; [by rewrite take_nil in E|]. destruct (Z.to_nat m); [done|]. cbn in E. by injection E as -> _.
Qed.

Lemma normalizeFilename_safe original m name changed :
  normalizeFilename original m = (name, changed) -> 0 < m ->
  (name = [] \/ safe_name name = true) /\ zlen name <= m /\ (changed = false -> name = original).
Proof.
  unfold normalizeFilename. set (value := trim_func _ _). intros Hn Hm. destruct (_ || _ || _) eqn:E1.
  { injection Hn as <- <-. split_and!; [by left|by apply Z.lt_le_incl|]. intros Hc%negb_false_iff. by apply bool_decide_eq_true in Hc. }
  injection Hn as <- <-. split_and!; [|by apply truncate_length|].
  2: { intros Hc%negb_false_iff. by apply bool_decide_eq_true in Hc. }
  set (name := truncateUTF8 value m). destruct (decide (name = [])) as [|Hne]; [by left|right].
  assert (clean unsafe_rune value = true) as Hv by apply clean_trim, filename_segs_clean, to_valid_clean.
  assert (forall c, head name = Some c -> code c < 128 -> space_or_dot (code c) = false) as Hh.
  { intros c Hc%truncate_head Ha. eapply (trim_head _ _ c); [|exact Hc|done]. eapply clean_valid, clean_weaken, filename_segs_clean, to_valid_clean. }
  unfold safe_name. rewrite bool_decide_false by done. rewrite (clean_truncate _ _ _ Hv : clean unsafe_rune name = true).
  rewrite !bool_decide_false; [done|intros Hd; by specialize (Hh _ Hd eq_refl)..].
Qed.

(** ** Previews *)

Lemma appendPreview_clean existing value m :
  clean nul existing = true -> clean nul value = true -> clean nul (appendPreview existing value m) = true.
Proof.
  intros He Hv. unfold appendPreview. destruct (_ || _); [done|].
  assert (clean nul (if bool_decide (existing = []) then existing else existing ++ newline) = true) as Hn.
  { case_bool_decide; [done|]. by apply clean_app. }
  destruct (_ <=? 0); [by apply clean_truncate|]. apply clean_app; [done|]. by apply clean_truncate.
Qed.

Lemma appendPreview_length existing value m :
  0 < m -> zlen existing <= m -> zlen (appendPreview existing value m) <= m.
Proof.
  intros Hm He. unfold appendPreview. destruct (_ || _); [done|]. set (e := if bool_decide _ then _ else _).
  destruct (m - zlen e <=? 0) eqn:E; [by apply truncate_length|].
  rewrite zlen_app. pose proof (truncate_length value (m - zlen e)). lia.
Qed.

(** Earlier text is never lost. *)
Lemma appendPreview_extends existing value m :
  valid_utf8 existing = true -> zlen existing <= m -> existing `prefix_of` appendPreview existing value m.
Proof.
  intros Hv He. unfold appendPreview. destruct (_ || _) eqn:E1; [done|]. apply orb_false_iff in E1 as [_ E1].
  assert (existing `prefix_of` (if bool_decide (existing = []) then existing else existing ++ newline)) as Hp.
  { case_bool_decide; [done|]. by apply prefix_app_r. }
  destruct (_ <=? 0) eqn:E2; [|by apply prefix_app_r].
  unfold truncateUTF8. replace (_ || _) with true; [done|]. symmetry. apply orb_true_iff. right. apply Z.leb_le.
  case_bool_decide; [done|]. rewrite zlen_app. change (zlen newline) with 1. lia.
Qed.

(** ** What a result may be *)

Definition address_ok (a : Address) : Prop :=
  clean header_break (ad_Name a) = true /\ zlen (ad_Name a) <= 320 /\ clean header_break (ad_Address a) = true /\ zlen (ad_Address a) <= 320.

Definition warning_ok (w : Warning) : Prop := zlen (wn_Detail w) <= 256.

Definition sizes (l : list Attachment) : Z := foldr (λ a n, at_SizeBytes a + n) 0 l.

Lemma sizes_app l a : sizes (l ++ [a]) = sizes l + at_SizeBytes a.
Proof. unfold sizes. induction l as [|b l IH]; cbn; [lia|]. rewrite IH. lia. Qed.

(** The limits of a parser that fit the machine. *)
Definition fitting (l : Limits) : Prop := validate l = None /\ MaxRawBytes l <= 2 ^ 62 /\ MaxDecodedBytes l <= 2 ^ 62.

Lemma validate_positive l : validate l = None ->
  (0 < MaxRawBytes l /\ 0 < MaxParts l /\ 0 < MaxDepth l /\ 0 < MaxPartBytes l <= MaxDecodedBytes l /\ 0 < MaxTextBytes l /\ 0 < MaxHTMLBytes l) /\
  (0 < MaxSubjectBytes l /\ 0 < MaxFilenameBytes l /\ 0 < MaxAddresses l /\ 0 < MaxWarnings l /\ 0 < MaxHeaders l /\
   0 < MaxHeaderBytes l <= MaxTotalHeaderBytes l).
Proof.
  unfold validate. destruct (existsb _ _) eqn:E1; [done|]. destruct (existsb _ [MaxHeaders l; _; _; _; _; _; _; _; _]) eqn:E2; [done|].
  destruct (_ <? MaxHeaderBytes l) eqn:E3; [done|]. destruct (MaxDecodedBytes l <? _) eqn:E4; [done|]. intros _.
  cbn [existsb] in E1, E2. rewrite !orb_false_iff, !Z.leb_gt in E1, E2. lia.
Qed.

Section Bounds.
Context (limits : Limits).

Record attachment_ok (a : Attachment) : Prop := {
  ao_name : safe_name (at_FileName a) = true;
  ao_name_length : zlen (at_FileName a) <= Z.max (MaxFilenameBytes limits) 10;
  ao_path : exists path, at_PartPath a = formatPartPath path /\ zlen path <= MaxDepth limits;
  ao_id : clean header_break (at_ContentID a) = true /\ zlen (at_ContentID a) <= MaxSubjectBytes limits;
  ao_disposition : at_Disposition a <> [];
  ao_size : 0 <= at_SizeBytes a <= MaxPartBytes limits
}.

Definition addresses_ok (l : list Address) : Prop := Forall address_ok l /\ zlen l <= MaxAddresses limits.

Record message_ok (m : ParsedMessage) : Prop := {
  mo_subject : clean header_break (pm_Subject m) = true /\ zlen (pm_Subject m) <= MaxSubjectBytes limits;
  mo_id : clean header_break (pm_MessageID m) = true /\ zlen (pm_MessageID m) <= MaxSubjectBytes limits;
  mo_from : addresses_ok (pm_From m);
  mo_to : addresses_ok (pm_To m);
  mo_cc : addresses_ok (pm_Cc m);
  mo_text : clean nul (pm_Text m) = true /\ zlen (pm_Text m) <= MaxTextBytes limits;
  mo_html : clean nul (pm_HTMLSource m) = true /\ zlen (pm_HTMLSource m) <= MaxHTMLBytes limits;
  mo_attachments : Forall attachment_ok (pm_Attachments m);
  mo_warnings : Forall warning_ok (pm_Warnings m) /\ zlen (pm_Warnings m) <= MaxWarnings limits
}.

(** The accounts of a parse. *)
Record state_ok (s : parseState) : Prop := {
  so_message : message_ok (ps_result s);
  so_attachments : zlen (pm_Attachments (ps_result s)) <= ps_parts s <= MaxParts limits;
  so_sizes : sizes (pm_Attachments (ps_result s)) <= ps_decodedBytes s <= MaxDecodedBytes limits;
  so_decoded : 0 <= ps_decodedBytes s
}.

Hypothesis Hvalid : validate limits = None.

Lemma start_state_ok : state_ok start_state.
Proof.
  pose proof (validate_positive limits Hvalid). split; cbn; try lia; [|change (zlen (@nil Attachment)) with 0; lia].
  split; cbn; unfold addresses_ok, zlen; cbn; repeat split; try done; try lia; constructor.
Qed.

(** A warning changes nothing but the warnings. *)
Definition same_but_warnings (s s' : parseState) : Prop :=
  exists l, ps_result s' = with_warnings (ps_result s) l /\ ps_parts s' = ps_parts s /\ ps_decodedBytes s' = ps_decodedBytes s /\
    ps_headers s' = ps_headers s /\ ps_headerBytes s' = ps_headerBytes s.

#[local] Instance same_but_warnings_preorder : PreOrder same_but_warnings.
Proof.
  split.
  - intros s. exists (pm_Warnings (ps_result s)). split_and!; try done. by destruct s as [[]].
  - intros s1 s2 s3 (l & Er & ?) (l' & Er' & ?). exists l'. rewrite Er', Er. split; [by destruct s1 as [[]]|]. destruct_and!; split_and!; congruence.
Qed.

Lemma warn_ok code path detail s : state_ok s -> state_ok (warn limits code path detail s) /\ same_but_warnings s (warn limits code path detail s).
Proof.
  pose proof (validate_positive limits Hvalid) as Hpos. intros [[] ? ? ?]. unfold warn.
  assert (forall l, Forall warning_ok l /\ zlen l <= MaxWarnings limits -> message_ok (with_warnings (ps_result s) l)) as Hm by done.
  destruct (zlen _ <? _) eqn:E1; [|destruct (ps_warningsTruncated s)].
  - split; [|by eexists]. split; try done. apply Hm. destruct mo_warnings0 as [Hf Hl]. split.
    + apply Forall_app. split; [done|]. apply Forall_singleton. by apply (truncate_length detail 256).
    + zl.
  - split; [by split|reflexivity].
  - split; [|by eexists]. split; try done. apply Hm. destruct mo_warnings0 as [Hf Hl]. split.
    + apply Forall_insert; [done|]. unfold warning_ok. cbn. done.
    + unfold zlen in *. by rewrite length_insert.
Qed.

Lemma warn_if_ok b code path detail s : state_ok s -> state_ok (warn_if limits b code path detail s) /\ same_but_warnings s (warn_if limits b code path detail s).
Proof. intros Hs. unfold warn_if. destruct b; [by apply warn_ok|]. by split. Qed.

Context {K Src Hdr Fld Lib : Type} (ctx_Err : K -> K * option goerr).
Context `{L : !MessageLib (countingReader K Src) Hdr Fld Lib}.

(** *** The root *)

Lemma add_addresses_ok key parsed : forall s addresses s' addresses' full,
  add_addresses limits key s addresses parsed = (s', addresses', full) -> state_ok s -> addresses_ok addresses ->
  state_ok s' /\ same_but_warnings s s' /\ addresses_ok addresses'.
Proof.
  induction parsed as [|a parsed IH]; intros s l s' l' full; cbn [add_addresses].
  { intros [= <- <- _] ? ?. by split_and!. }
  destruct (_ <=? _) eqn:E.
  - intros [= <- <- _] Hs Hl. by destruct (warn_ok WarningInvalidAddress (str "0") (str key ++ str " address list exceeded its limit") s Hs).
  - intros Ha Hs [Hf Hl]. eapply IH; [exact Ha|done|]. split; [|zl]. apply Forall_app. split; [done|]. apply Forall_singleton.
    split_and!; cbn; first [by apply clean_truncate, cleanHeaderValue_clean|by apply truncate_length].
Qed.

Lemma read_address_fields_ok key fields : forall s addresses s' addresses',
  read_address_fields limits key s addresses fields = (s', addresses') -> state_ok s -> addresses_ok addresses ->
  state_ok s' /\ same_but_warnings s s' /\ addresses_ok addresses'.
Proof.
  induction fields as [|f fields IH]; intros s l s' l'; cbn [read_address_fields].
  { intros [= <- <-] ? ?. by split_and!. }
  destruct (f_Text f) as [decoded err]. cbv zeta. set (s1 := warn_if _ _ _ _ _ s). intros Hr Hs Hl.
  destruct (warn_if_ok (failed err) WarningInvalidAddress (str "0") (str key ++ str " charset could not be decoded") s Hs) as [Hs1 Hw1].
  fold s1 in Hs1, Hw1. destruct (ParseAddressList decoded) as [parsed|e].
  - destruct (add_addresses limits key s1 l parsed) as [[s2 l2] full] eqn:Ea.
    destruct (add_addresses_ok key parsed _ _ _ _ _ Ea Hs1 Hl) as (Hs2 & Hw2 & Hl2).
    destruct full; [injection Hr as <- <-; split_and!; [done|by etrans|done]|].
    destruct (IH _ _ _ _ Hr Hs2 Hl2) as (? & ? & ?). split_and!; [done|etrans; [done|by etrans]|done].
  - destruct (warn_ok WarningInvalidAddress (str "0") (str key ++ str " address list could not be parsed") s1 Hs1) as [Hs2 Hw2].
    destruct (IH _ _ _ _ Hr Hs2 Hl) as (? & ? & ?). split_and!; [done|etrans; [done|by etrans]|done].
Qed.

Lemma readAddressHeader_ok header key s s' l :
  readAddressHeader limits header key s = (s', l) -> state_ok s -> state_ok s' /\ same_but_warnings s s' /\ addresses_ok l.
Proof.
  intros Hr Hs. eapply read_address_fields_ok; [exact Hr|done|]. pose proof (validate_positive limits Hvalid).
  split; [constructor|]. unfold zlen. cbn. lia.
Qed.

Lemma header_text_ok value : clean header_break (truncateUTF8 (cleanHeaderValue value) (MaxSubjectBytes limits)) = true /\
  zlen (truncateUTF8 (cleanHeaderValue value) (MaxSubjectBytes limits)) <= MaxSubjectBytes limits.
Proof.
  pose proof (validate_positive limits Hvalid). split; [apply clean_truncate, cleanHeaderValue_clean|apply truncate_length; lia].
Qed.

Lemma with_metadata_ok s from to cc date subject messageID :
  state_ok s -> addresses_ok from -> addresses_ok to -> addresses_ok cc ->
  state_ok (with_result s (with_metadata (ps_result s) (truncateUTF8 (cleanHeaderValue subject) (MaxSubjectBytes limits))
    (truncateUTF8 (cleanHeaderValue messageID) (MaxSubjectBytes limits)) from to cc date)).
Proof. intros [[] ? ? ?] ? ? ?. split; try done. split; try done; apply header_text_ok. Qed.

Lemma readRootMetadata_ok header s : state_ok s -> state_ok (readRootMetadata limits header s) /\ ps_parts (readRootMetadata limits header s) = ps_parts s.
Proof.
  intros Hs. unfold readRootMetadata. destruct (h_Text header (str "Subject")) as [subject err]. cbv zeta. set (s1 := warn_if _ _ _ _ _ s).
  destruct (warn_if_ok (failed err) WarningInvalidSubject (str "0") (str "Subject charset could not be decoded") s Hs) as [H1 (? & _ & P1 & _)].
  fold s1 in H1, P1.
  destruct (readAddressHeader limits header "From" s1) as [s2 from] eqn:E2. destruct (readAddressHeader_ok _ _ _ _ _ E2 H1) as (H2 & (? & _ & P2 & _) & Hf).
  destruct (readAddressHeader limits header "To" s2) as [s3 to] eqn:E3. destruct (readAddressHeader_ok _ _ _ _ _ E3 H2) as (H3 & (? & _ & P3 & _) & Ht).
  destruct (readAddressHeader limits header "Cc" s3) as [s4 cc] eqn:E4. destruct (readAddressHeader_ok _ _ _ _ _ E4 H3) as (H4 & (? & _ & P4 & _) & Hc).
  destruct (bool_decide (trim_space _ = [])); [|destruct (ParseDate _)].
  - split; [by apply with_metadata_ok|cbn; congruence].
  - split; [by apply with_metadata_ok|cbn; congruence].
  - destruct (warn_ok WarningInvalidDate (str "0") (str "Date header could not be parsed") s4 H4) as [H5 (? & _ & P5 & _)].
    split; [by apply with_metadata_ok|].
    change (ps_parts (warn limits WarningInvalidDate (str "0") (str "Date header could not be parsed") s4) = ps_parts s). congruence.
Qed.

(** *** The parts *)

Context (src_read : Src -> nat -> Src * bytes * option goerr) `{!MessageSpec ctx_Err src_read}.
Hypothesis Hfit : MaxDecodedBytes limits <= 2 ^ 62.

(** How a parse may move its input: by reads and by looking at the context. *)
Definition moves : relation (countingReader K Src) :=
  rtc (λ c c', (exists n, (0 < n)%nat /\ c' = (counting_read ctx_Err src_read c n).1.1) \/ c' = (input_ctx ctx_Err c).1).

Lemma reads_move c c' : input_reads ctx_Err src_read c c' -> moves c c'.
Proof. apply rtc_subrel. by left. Qed.

Lemma ctx_moves c c' e : input_ctx ctx_Err c = (c', e) -> moves c c'.
Proof. intros E. apply rtc_once. right. by rewrite E. Qed.

Lemma body_moves lib c n lib' c' out e : ml_body lib c n = (lib', c', out, e) -> moves c c'.
Proof. intros E. apply reads_move. by apply (body_reads ctx_Err src_read) in E. Qed.

Record leaf_done (captureLimit part : Z) (s s' : parseState) (r : res (bytes * Z * bool)) : Prop := {
  ld_result : ps_result s' = ps_result s;
  ld_parts : ps_parts s' = ps_parts s;
  ld_size : forall p n t, r = Ok (p, n, t) ->
    zlen p <= captureLimit /\ part <= n <= MaxPartBytes limits /\ ps_decodedBytes s' = ps_decodedBytes s + (n - part) /\
    ps_decodedBytes s' <= MaxDecodedBytes limits
}.

Lemma leaf_loop_ok captureLimit fuel : forall lib c s preview part lib' c' s' r,
  leaf_loop ctx_Err limits fuel captureLimit lib c s preview part = Some (lib', c', s', r) ->
  0 <= ps_decodedBytes s <= MaxDecodedBytes limits -> 0 <= part <= MaxPartBytes limits -> zlen preview <= captureLimit ->
  moves c c' /\ leaf_done captureLimit part s s' r.
Proof.
  pose proof (validate_positive limits Hvalid) as Hpos.
  induction fuel as [|fuel IH]; intros lib c s preview part lib' c' s' r; cbn [leaf_loop]; [done|].
  destruct (input_ctx ctx_Err c) as [c1 [e|]] eqn:E1; intros Hl Hd Hp Hv; pose proof (ctx_moves _ _ _ E1) as M1.
  { injection Hl as <- <- <- <-. split; [done|]. by split. }
  destruct (ml_body lib c1 bufferBytes) as [[[lib2 c2] out] err] eqn:E2. pose proof (body_moves _ _ _ _ _ _ _ E2) as M2.
  assert (moves c c2) as M by (by etrans).
  assert (zlen out <= 32768) as Ho by (pose proof (body_bound ctx_Err src_read _ _ _ _ _ _ _ E2); unfold zlen, bufferBytes in *; lia).
  destruct (0 <? zlen out) eqn:E3; cbv zeta in Hl.
  - rewrite (wrap64_small (part + zlen out)) in Hl by (unfold min_int64, max_int64; lia).
    assert (ps_decodedBytes (add_decoded s (zlen out)) = ps_decodedBytes s + zlen out) as Ed.
    { cbn. apply wrap64_small. unfold min_int64, max_int64. lia. }
    destruct (MaxPartBytes limits <? part + zlen out) eqn:E4; [injection Hl as <- <- <- <-; split; [done|]; by split|].
    destruct (MaxDecodedBytes limits <? ps_decodedBytes (add_decoded s (zlen out))) eqn:E5; [injection Hl as <- <- <- <-; split; [done|]; by split|].
    set (preview' := preview ++ _) in Hl.
    assert (zlen preview' <= captureLimit) as Hv'.
    { unfold preview', zlen. rewrite length_app, length_take. unfold zlen in Hv. lia. }
    destruct err as [e|].
    + injection Hl as <- <- <- <-. split; [done|]. split; [done..|]. intros p n t. destruct (errors_is e IoEOF); [|done].
      intros [= <- <- _]. rewrite Ed. lia.
    + destruct (IH _ _ _ _ _ _ _ _ _ Hl) as (M3 & [R3 P3 S3]); [lia|lia|done|]. split; [by etrans|].
      split; [done|done|]. intros p n t Hr. destruct (S3 p n t Hr) as (? & ? & ? & ?). rewrite Ed in *. lia.
  - destruct err as [e|].
    + injection Hl as <- <- <- <-. split; [done|]. split; [done..|]. intros p n t. destruct (errors_is e IoEOF); [|done].
      intros [= <- <- _]. lia.
    + destruct (IH _ _ _ _ _ _ _ _ _ Hl) as (M3 & D3); [done..|]. split; [by etrans|done].
Qed.

Lemma consumeLeaf_ok body captureLimit lib c s lib' c' s' r :
  consumeLeaf ctx_Err limits body captureLimit lib c s = Some (lib', c', s', r) -> state_ok s ->
  moves c c' /\ leaf_done (Z.max 0 captureLimit) 0 s s' r.
Proof.
  pose proof (validate_positive limits Hvalid) as Hpos. unfold consumeLeaf. intros Hl Hs. destruct Hs as [_ _ Hsz Hd]. destruct body; cbn [negb] in Hl.
  - cbv zeta in Hl. replace (if captureLimit <? 0 then 0 else captureLimit) with (Z.max 0 captureLimit) in Hl by (destruct (captureLimit <? 0) eqn:E; lia).
    eapply leaf_loop_ok; [exact Hl|lia|lia|]. unfold zlen. cbn. lia.
  - injection Hl as <- <- <- <-. split; [reflexivity|]. split; [done..|]. intros p n t [= <- <- _]. unfold zlen. cbn. lia.
Qed.

Lemma leaf_loop_total captureLimit fuel : forall lib c s preview part, (ml_fuel lib c < fuel)%nat ->
  is_Some (leaf_loop ctx_Err limits fuel captureLimit lib c s preview part).
Proof.
  induction fuel as [|fuel IH]; intros lib c s preview part Hf; cbn [leaf_loop]; [lia|].
  pose proof (context_fuel ctx_Err src_read lib c) as Hc. destruct (input_ctx ctx_Err c) as [c1 [e|]] eqn:E1; [done|]. cbn in Hc.
  destruct (ml_body lib c1 bufferBytes) as [[[lib2 c2] out] err] eqn:E2. cbv zeta.
  destruct (if 0 <? zlen out then _ else _) as [[[s1 part1] preview1] stop]. destruct stop; [done|]. destruct err; [done|].
  apply IH. apply (body_progress ctx_Err src_read) in E2; [lia|]. unfold bufferBytes. lia.
Qed.

(** A new part has been counted: there is room for one attachment. *)
Definition room (s : parseState) : Prop := zlen (pm_Attachments (ps_result s)) < ps_parts s.

Lemma same_room s s' : same_but_warnings s s' -> room s -> room s'.
Proof. unfold room. intros (l & -> & -> & _). done. Qed.

Lemma same_parts s s' : same_but_warnings s s' -> ps_parts s' = ps_parts s.
Proof. by intros (l & _ & ? & _). Qed.

Lemma same_attachments s s' : same_but_warnings s s' -> pm_Attachments (ps_result s') = pm_Attachments (ps_result s).
Proof. by intros (l & -> & _). Qed.

Lemma same_decoded s s' : same_but_warnings s s' -> ps_decodedBytes s' = ps_decodedBytes s.
Proof. by intros (l & _ & _ & ? & _). Qed.

Lemma entity_type_ok header path s s' mediaType params :
  entity_type limits header path s = (s', mediaType, params) -> state_ok s -> state_ok s' /\ same_but_warnings s s'.
Proof.
  unfold entity_type. destruct (h_ContentType header) as [[m p] [e|]]; intros [= <- _ _] Hs; [by apply warn_ok|]. by split.
Qed.

Lemma entity_disposition_ok header path s s' disposition params :
  entity_disposition limits header path s = (s', disposition, params) -> state_ok s -> state_ok s' /\ same_but_warnings s s'.
Proof.
  unfold entity_disposition. cbv zeta. case_bool_decide; [intros [= <- _ _] Hs; by split|].
  destruct (h_ContentDisposition header) as [[m p] [e|]]; intros [= <- _ _] Hs; [by apply warn_ok|]. by split.
Qed.

Lemma attachment_text_safe : safe_name (str "attachment") = true.
Proof. done. Qed.

Lemma add_attachment_ok header h path size s :
  state_ok s -> room s -> zlen path <= MaxDepth limits -> 0 <= size <= MaxPartBytes limits ->
  sizes (pm_Attachments (ps_result s)) + size <= ps_decodedBytes s ->
  state_ok (add_attachment limits header h (formatPartPath path) size s) /\
  ps_parts (add_attachment limits header h (formatPartPath path) size s) = ps_parts s.
Proof.
  pose proof (validate_positive limits Hvalid) as Hpos. intros Hs Hr Hpath Hsize Hsum. unfold add_attachment.
  destruct (normalizeFilename _ _) as [name normalized] eqn:En. apply normalizeFilename_safe in En as (Hname & Hlen & _); [|lia]. cbv zeta.
  set (s1 := warn_if _ _ _ _ _ s).
  destruct (warn_if_ok normalized WarningFilenameNormalized (formatPartPath path) (str "Attachment filename required normalization") s Hs) as [H1 W1].
  fold s1 in H1, W1. pose proof (same_room _ _ W1 Hr) as Hr1. rewrite <- (same_attachments _ _ W1), <- (same_decoded _ _ W1) in Hsum.
  split; [|exact (same_parts _ _ W1)]. destruct H1 as [[] ? ? ?]. unfold room in Hr1. split; cbn; try done.
  - split; cbn; try done. apply Forall_app. split; [done|]. apply Forall_singleton. split; cbn [at_FileName at_PartPath at_ContentID at_Disposition at_SizeBytes]; try done.
    + case_bool_decide; [done|]. by destruct Hname.
    + case_bool_decide; [|lia]. apply Z.le_max_r.
    + by exists path.
    + apply header_text_ok.
    + by case_bool_decide.
  - rewrite zlen_app. unfold zlen in *. cbn [length]. lia.
  - rewrite sizes_app. cbn. lia.
Qed.

Lemma with_bodies_ok s text html :
  state_ok s -> clean nul text = true /\ zlen text <= MaxTextBytes limits -> clean nul html = true /\ zlen html <= MaxHTMLBytes limits ->
  state_ok (with_result s (with_bodies (ps_result s) text html)).
Proof. intros [[] ? ? ?] ? ?. by split. Qed.

Lemma preview_ok existing preview m : 0 < m -> clean nul existing = true /\ zlen existing <= m ->
  clean nul (appendPreview existing (normalizeBodyText preview) m) = true /\ zlen (appendPreview existing (normalizeBodyText preview) m) <= m.
Proof.
  intros Hm [Hc Hl]. split; [apply appendPreview_clean; [done|apply normalizeBodyText_clean]|by apply appendPreview_length].
Qed.

Lemma add_leaf_ok header h path preview size truncated s :
  state_ok s -> room s -> zlen path <= MaxDepth limits -> 0 <= size <= MaxPartBytes limits ->
  sizes (pm_Attachments (ps_result s)) + size <= ps_decodedBytes s ->
  state_ok (add_leaf limits header h (formatPartPath path) preview size truncated s) /\
  ps_parts (add_leaf limits header h (formatPartPath path) preview size truncated s) = ps_parts s.
Proof.
  pose proof (validate_positive limits Hvalid) as Hpos. intros Hs Hr Hpath Hsize Hsum. unfold add_leaf.
  destruct (leaf_kind h); [| |by apply add_attachment_ok]; cbv zeta.
  - match goal with |- context [warn_if _ _ ?code ?p ?d ?x] => destruct (warn_if_ok truncated code p d x) as [H1 W1] end; [|by split; [|apply same_parts in W1]].
    apply with_bodies_ok; [done|apply preview_ok; [lia|apply Hs]|apply Hs].
  - match goal with |- context [warn_if _ _ ?code ?p ?d ?x] => destruct (warn_if_ok truncated code p d x) as [H1 W1] end; [|by split; [|apply same_parts in W1]].
    apply with_bodies_ok; [done|apply Hs|apply preview_ok; [lia|apply Hs]].
Qed.

Lemma consumeEntity_ok header body path lib c s lib' c' s' e :
  consumeEntity ctx_Err limits header body (formatPartPath path) lib c s = Some (lib', c', s', e) ->
  state_ok s -> room s -> zlen path <= MaxDepth limits ->
  moves c c' /\ (e = None -> state_ok s' /\ ps_parts s' = ps_parts s).
Proof.
  intros He Hs Hr Hpath. unfold consumeEntity in He.
  destruct (entity_type limits header (formatPartPath path) s) as [[s1 mediaType] typeParams] eqn:E1.
  destruct (entity_type_ok _ _ _ _ _ _ E1 Hs) as [H1 W1]. destruct (has_prefix mediaType _).
  { injection He as <- <- <- <-. split; [reflexivity|]. intros _. split; [done|by apply same_parts]. }
  destruct (entity_disposition limits header (formatPartPath path) s1) as [[s2 disposition] params] eqn:E2.
  destruct (entity_disposition_ok _ _ _ _ _ _ E2 H1) as [H2 W2]. cbv zeta in He.
  assert (same_but_warnings s s2) as W by (by etrans). set (h := MkLeafHeader _ _ _) in He.
  destruct (consumeLeaf _ _ _ _ _ _ _) as [[[[lib3 c3] s3] r]|] eqn:E3; [|done].
  destruct (consumeLeaf_ok _ _ _ _ _ _ _ _ _ E3 H2) as (M & [R3 P3 S3]). destruct r as [[[preview size] truncated]|e0].
  2: { injection He as <- <- <- <-. by split. }
  injection He as <- <- <- <-. split; [done|]. intros _. destruct (S3 _ _ _ eq_refl) as (_ & Hsize & Hd & Hm).
  destruct H2 as [Hmsg Hatt Hsz Hdec].
  assert (state_ok s3) as H3 by (split; rewrite ?R3, ?P3; [done|done|lia|lia]).
  assert (room s3) as Hr3 by (pose proof (same_room _ _ W Hr) as Hr2; unfold room in *; by rewrite R3, P3).
  destruct (add_leaf_ok header h path preview size truncated s3 H3 Hr3 Hpath) as [? Hp]; [lia|rewrite R3; lia|].
  split; [done|]. rewrite Hp, P3. by apply same_parts.
Qed.

Lemma inspectHeader_same header s s' e : inspectHeader limits header s = (s', e) ->
  ps_result s' = ps_result s /\ ps_parts s' = ps_parts s /\ ps_decodedBytes s' = ps_decodedBytes s.
Proof.
  unfold inspectHeader. cbv zeta. destruct (_ <? _); [by intros [= <- _]|].
  destruct (header_bytes _ _ _); [|by intros [= <- _]]. by destruct (_ <? _); intros [= <- _].
Qed.

Lemma recoverDecodeError_ok err path s s' e :
  recoverDecodeError limits err path s = (s', e) -> state_ok s -> state_ok s' /\ same_but_warnings s s'.
Proof.
  unfold recoverDecodeError. destruct err as [e0|]; [|intros [= <- _] Hs; by split].
  destruct (IsUnknownCharset e0); [intros [= <- _] Hs; by apply warn_ok|].
  destruct (IsUnknownEncoding e0); intros [= <- _] Hs; [by apply warn_ok|]. by split.
Qed.

Lemma visit_part_ok path header body decodeErr lib c s lib' c' s' e :
  visit_part ctx_Err limits path header body decodeErr lib c s = Some (lib', c', s', e) -> state_ok s ->
  moves c c' /\ (e = None -> state_ok s' /\ ps_parts s' = ps_parts s + 1).
Proof.
  intros Hv Hs. unfold visit_part in Hv. cbv zeta in Hv. destruct (_ <? zlen path) eqn:E1; [by injection Hv as <- <- <- <-|].
  set (s1 := MkParseState _ _ _ _ _ _) in Hv. destruct (_ <? ps_parts s1) eqn:E2; [by injection Hv as <- <- <- <-|].
  assert (state_ok s1) as H1 by (destruct Hs as [? ? ? ?]; unfold s1 in *; split; cbn in *; [done|lia|done|done]).
  assert (room s1) as Hr by (unfold room, s1; cbn; destruct Hs as [_ ? _ _]; lia).
  destruct (inspectHeader limits header s1) as [s2 [e2|]] eqn:E3; [by injection Hv as <- <- <- <-|].
  apply inspectHeader_same in E3 as (R2 & P2 & D2).
  assert (state_ok s2) as H2 by (destruct H1; split; by rewrite ?R2, ?P2, ?D2).
  destruct (recoverDecodeError limits decodeErr (formatPartPath path) s2) as [s3 [e3|]] eqn:E4; [by injection Hv as <- <- <- <-|].
  destruct (recoverDecodeError_ok _ _ _ _ _ E4 H2) as [H3 W3].
  assert (room s3) as Hr3 by (apply (same_room _ _ W3); unfold room in *; by rewrite R2, P2).
  destruct (consumeEntity_ok _ _ _ _ _ _ _ _ _ _ Hv H3 Hr3) as [M Hok]; [lia|]. split; [done|]. intros He.
  destruct (Hok He) as [? ->]. split; [done|]. rewrite (same_parts _ _ W3), P2. done.
Qed.

Lemma next_moves lib c lib' c' v : ml_next lib c = (lib', c', v) -> moves c c'.
Proof. intros E. apply reads_move. by apply (next_reads ctx_Err src_read) in E. Qed.

Lemma walk_ok fuel : forall lib c s c' s' e, walk ctx_Err limits fuel lib c s = Some (c', s', e) -> state_ok s ->
  moves c c' /\ (e = None -> state_ok s').
Proof.
  induction fuel as [|fuel IH]; intros lib c s c' s' e; cbn [walk]; [done|].
  destruct (ml_next lib c) as [[lib1 c1] v] eqn:E1. pose proof (next_moves _ _ _ _ _ E1) as M1.
  destruct v as [|e1|path header body decodeErr]; [by intros [= <- <- <-]|by intros [= <- <- <-]|].
  destruct (visit_part _ _ _ _ _ _ _ _ _) as [[[[lib2 c2] s2] [e2|]]|] eqn:E2; [| |done]; intros Hw Hs;
    destruct (visit_part_ok _ _ _ _ _ _ _ _ _ _ _ E2 Hs) as [M2 Hok].
  - injection Hw as <- <- <-. split; [by etrans|done].
  - destruct (Hok eq_refl) as [H2 _]. destruct (IH _ _ _ _ _ _ Hw H2) as [M3 H3]. split; [etrans; [done|by etrans]|done].
Qed.

Lemma visit_part_total path header body decodeErr lib c s :
  is_Some (visit_part ctx_Err limits path header body decodeErr lib c s).
Proof.
  unfold visit_part. cbv zeta. destruct (_ <? zlen path); [done|]. destruct (_ <? ps_parts _); [done|].
  destruct (inspectHeader _ _ _) as [s1 [e|]]; [done|]. destruct (recoverDecodeError _ _ _ _) as [s2 [e|]]; [done|].
  unfold consumeEntity. destruct (entity_type _ _ _ _) as [[s3 m] ps]. destruct (has_prefix _ _); [done|].
  destruct (entity_disposition _ _ _ _) as [[s4 d] ps']. cbv zeta. set (h := MkLeafHeader _ _ _).
  assert (is_Some (consumeLeaf ctx_Err limits body (capture_limit limits (leaf_kind h) s4) lib c s4)) as [[[[lib1 c1] s1'] [[[p n] tr]|e]] ->]; [|done..].
  unfold consumeLeaf. destruct body; [|done]. apply leaf_loop_total. lia.
Qed.

(** The walk ends because no more parts are visited than the limit allows. *)
Lemma walk_total fuel : forall lib c s, state_ok s -> (Z.to_nat (MaxParts limits - ps_parts s) + 2 <= fuel)%nat ->
  is_Some (walk ctx_Err limits fuel lib c s).
Proof.
  induction fuel as [|fuel IH]; intros lib c s Hs Hf; [lia|]. cbn [walk].
  destruct (ml_next lib c) as [[lib1 c1] [|e1|path header body decodeErr]]; [done|done|].
  destruct (visit_part_total path header body decodeErr lib1 c1 s) as [[[[lib2 c2] s2] [e2|]] E2]; rewrite E2; [done|].
  destruct (visit_part_ok _ _ _ _ _ _ _ _ _ _ _ E2 Hs) as [_ Hok]. destruct (Hok eq_refl) as [H2 P2].
  apply IH; [done|]. destruct H2 as [_ ? _ _]. pose proof (zlen_nonneg (pm_Attachments (ps_result s2))). lia.
Qed.

(** *** The whole parse *)

Lemma Parse_input_ok c : exists c' r, Parse_input ctx_Err limits c = Some (c', r) /\ moves c c' /\
  (forall m, r = Ok m -> cn_read c' <= MaxRawBytes limits /\ message_ok m /\ zlen (pm_Attachments m) <= MaxParts limits /\
    sizes (pm_Attachments m) <= MaxDecodedBytes limits).
Proof.
  unfold Parse_input. destruct (input_ctx ctx_Err c) as [c1 [e|]] eqn:E1; pose proof (ctx_moves _ _ _ E1) as M1; [by eexists _, _|].
  destruct (ml_ReadWithOptions c1 (MaxHeaderBytes limits)) as [[c2 [[lib header]|]] readErr] eqn:E2;
    pose proof (reads_move _ _ (root_reads ctx_Err src_read _ _ _ _ _ E2)) as M2; assert (moves c c2) as M by (by etrans); [|by eexists _, _].
  destruct (recoverDecodeError limits readErr (str "0") start_state) as [s1 [e|]] eqn:E3; [by eexists _, _|]. cbv zeta.
  pose proof (recoverDecodeError_ok _ _ _ _ _ E3 start_state_ok) as [H1 W1].
  destruct (readRootMetadata_ok header s1 H1) as [H2 P2]. rewrite (same_parts _ _ W1 : ps_parts s1 = 0) in P2.
  destruct (walk_total (walk_fuel limits) lib c2 _ H2) as [[[c3 s3] walkErr] E4]; [rewrite P2; unfold walk_fuel; lia|]. rewrite E4.
  destruct (walk_ok _ _ _ _ _ _ _ E4 H2) as [M4 Hok]. assert (moves c c3) as M' by (by etrans).
  destruct (MaxRawBytes limits <? cn_read c3) eqn:E5; [by eexists _, _|].
  destruct (input_ctx ctx_Err c3) as [c4 [e|]] eqn:E6; pose proof (ctx_moves _ _ _ E6) as M6; assert (moves c c4) as M'' by (by etrans); [by eexists _, _|].
  eexists _, _. split; [done|]. split; [done|]. intros m. destruct walkErr; [done|]. intros [= <-]. destruct (Hok eq_refl) as [? ? ? ?].
  assert (cn_read c4 = cn_read c3) as -> by (unfold input_ctx in E6; destruct (ctx_Err _); by injection E6 as <- _). split_and!; [lia|done|lia|lia].
Qed.
End Bounds.

(** ** The input *)

Section Input.
Context {K Src : Type} (ctx_Err : K -> K * option goerr) (src_read : Src -> nat -> Src * bytes * option goerr).
(** The [io.Reader] contract of the source. *)
Context (src_bound : forall s n s' out e, src_read s n = (s', out, e) -> (length out <= n)%nat).
Context (limits : Limits) (Hraw : 0 < MaxRawBytes limits <= 2 ^ 62).

Definition source_reads : relation Src := rtc (λ s s', exists n, (0 < n)%nat /\ s' = (src_read s n).1.1).
Definition input_source (c : countingReader K Src) : Src := cx_source (lr_R (cn_source c)).

(** The bytes read and the bytes left make the limit and one. *)
Definition counted (c : countingReader K Src) : Prop :=
  cn_read c + lr_N (cn_source c) = MaxRawBytes limits + 1 /\ 0 <= cn_read c /\ 0 <= lr_N (cn_source c).

Lemma counting_read_counted c n c' out e : (0 < n)%nat -> counting_read ctx_Err src_read c n = (c', out, e) -> counted c ->
  counted c' /\ source_reads (input_source c) (input_source c').
Proof.
  intros Hn. unfold counting_read, limited_read. destruct (_ <=? 0) eqn:E0.
  { intros [= <- <- <-] Hc. split; [|reflexivity]. destruct Hc as (? & ? & ?). unfold counted. cbn.
    rewrite wrap64_small; unfold min_int64, max_int64, zlen; cbn; lia. }
  set (n' := if lr_N (cn_source c) <? Z.of_nat n then Z.to_nat (lr_N (cn_source c)) else n).
  unfold context_read. destruct (ctx_Err _) as [k [e1|]].
  { intros [= <- <- <-] (? & ? & ?). split; [|reflexivity]. unfold counted. cbn.
    rewrite wrap64_small; unfold min_int64, max_int64, zlen; cbn; lia. }
  destruct (src_read (cx_source (lr_R (cn_source c))) n') as [[source out1] e1] eqn:E1. intros [= <- <- <-] (Hsum & Hr & HN).
  apply src_bound in E1 as Hb.
  assert (0 < Z.of_nat n' <= lr_N (cn_source c)) as Hn' by (unfold n'; destruct (_ <? _) eqn:E2; lia).
  split.
  - unfold counted. cbn. assert (0 <= zlen out1 <= Z.of_nat n') by (unfold zlen; lia).
    rewrite wrap64_small; unfold min_int64, max_int64; lia.
  - apply rtc_once. exists n'. split; [lia|]. unfold input_source. cbn. by rewrite E1.
Qed.

Lemma moves_counted c c' : moves ctx_Err src_read c c' -> counted c -> counted c' /\ source_reads (input_source c) (input_source c').
Proof.
  induction 1 as [c|c c1 c2 Hstep _ IH]; [intros; by split|]. intros Hc.
  assert (counted c1 /\ source_reads (input_source c) (input_source c1)) as [H1 R1].
  { destruct Hstep as [(n & Hn & ->)| ->].
    - destruct (counting_read ctx_Err src_read c n) as [[c1 out] e] eqn:E. by eapply counting_read_counted.
    - unfold input_ctx. destruct (ctx_Err _). split; [done|reflexivity]. }
  destruct (IH H1) as [? ?]. split; [done|]. by etrans.
Qed.

Lemma new_input_counted k source : counted (new_input limits k source).
Proof. unfold counted, new_input. cbn. rewrite wrap64_small; unfold min_int64, max_int64; lia. Qed.
End Input.

(** C18: parsing always ends, whatever the message library reports.  It reads at
    most one byte more than [MaxRawBytes] from its source, only ever by
    [Read], and a message it returns was read within that limit and respects
    every limit of the parser: header texts are well-formed, without line
    breaks and short enough; address lists and warnings are bounded; the text
    and HTML previews are well-formed, without NUL and within their sizes;
    every attachment has a file name that is safe in a path, a part path
    within the depth limit and a size within the part limit; there are no
    more attachments than parts allowed, and together they are no larger than
    the bytes that may be decoded. *)
Theorem parse_bounded {K Src Hdr Fld Lib : Type} (ctx_Err : K -> K * option goerr) (src_read : Src -> nat -> Src * bytes * option goerr)
    `{!MessageLib (countingReader K Src) Hdr Fld Lib} `{!MessageSpec ctx_Err src_read} (limits : Limits) :
  (forall s n s' out e, src_read s n = (s', out, e) -> (length out <= n)%nat) ->
  fitting limits ->
  forall k source, exists c r,
    Parse ctx_Err limits k source = Some (c, r) /\
    source_reads src_read source (input_source c) /\ 0 <= cn_read c <= MaxRawBytes limits + 1 /\
    (forall m, r = Ok m ->
      cn_read c <= MaxRawBytes limits /\ message_ok limits m /\ zlen (pm_Attachments m) <= MaxParts limits /\
      sizes (pm_Attachments m) <= MaxDecodedBytes limits).
Proof.
  intros Hb (Hv & Hr & Hd) k source. pose proof (validate_positive limits Hv) as Hpos.
  destruct (Parse_input_ok limits Hv ctx_Err src_read Hd (new_input limits k source)) as (c & r & E & M & Hok).
  destruct (moves_counted ctx_Err src_read Hb limits) with (c := new_input limits k source) (c' := c) as [(Hs & Hc & Hn) Hread];
    [lia|done|apply new_input_counted; lia|].
  exists c, r. split_and!; [done|done|lia|lia|done].
Qed.

(** ** The parser of the worker *)

Section Worker.
Context {W R : Type} `{!Reader R} `{!ReaderSpec R} (host : ParserHost W R) {Hdr Fld Lib : Type}.
Context `{!MessageLib (countingReader W (rawVerifier R)) Hdr Fld Lib} (limits : Limits).

(** [Parse] as the worker calls it: the context is the one of the parse, the
    source the verifying reader. *)
Definition worker_parse (w : W) (v : rawVerifier R) : W * rawVerifier R * res ParsedMessage :=
  match Parse (pj_parse_context (ParserHost := host)) limits w v with
  | Some (c, r) => (cx_ctx (lr_R (cn_source c)), input_source c, r)
  | None => (w, v, Err (ENew "unreachable"))
  end.

#[local] Instance mail_worker : ParserHost W R := {
  pj_ClaimContent := pj_ClaimContent (ParserHost := host);
  pj_CompleteContent := pj_CompleteContent (ParserHost := host);
  pj_RetryContent := pj_RetryContent (ParserHost := host);
  pj_FailContent := pj_FailContent (ParserHost := host);
  pj_ReleaseContent := pj_ReleaseContent (ParserHost := host);
  pj_OpenRaw := pj_OpenRaw (ParserHost := host);
  pj_Close := pj_Close (ParserHost := host);
  pj_Parse := worker_parse;
  pj_context := pj_context (ParserHost := host);
  pj_parse_context := pj_parse_context (ParserHost := host);
  pj_now := pj_now (ParserHost := host)
}.

Lemma v_read_bound (v : rawVerifier R) n v' out e : v_read v n = (v', out, e) -> (length out <= n)%nat.
Proof.
  unfold v_read. destruct (rv_err v); [intros [= <- <- <-]; cbn; lia|]. unfold source_read.
  destruct (rd_read (rv_source v) n) as [[s o] e0] eqn:E. apply rd_bound in E as Hb. intros Hv.
  enough (out = o) as -> by done. cbv zeta in Hv. unfold verify in Hv. repeat case_match; simplify_eq/=; done.
Qed.

Context `{!MessageSpec (pj_parse_context (ParserHost := host)) v_read} (Hfits : fitting limits).

(** The MIME parser is a parser the worker's theorems hold for, and what it
    returns is within the limits. *)
Lemma mail_worker_spec : ParserSpec W R.
Proof.
  split. intros w v w' v' r. cbn. unfold worker_parse. destruct Hfits as (Hv & Hr & Hd). pose proof (validate_positive limits Hv) as Hpos.
  destruct (Parse_input_ok limits Hv (pj_parse_context (ParserHost := host)) v_read Hd (new_input limits w v)) as (c & r' & E & M & _).
  unfold Parse. rewrite E. intros [= <- <- <-].
  eapply (moves_counted (pj_parse_context (ParserHost := host)) v_read v_read_bound limits ltac:(lia)) in M as [_ M]; [exact M|apply new_input_counted; lia].
Qed.

Lemma worker_parse_ok w v w' v' m : worker_parse w v = (w', v', Ok m) -> message_ok limits m.
Proof.
  unfold worker_parse, Parse. destruct Hfits as (Hv & Hr & Hd).
  destruct (Parse_input_ok limits Hv (pj_parse_context (ParserHost := host)) v_read Hd (new_input limits w v)) as (c & r' & -> & _ & Hok).
  intros [= _ _ ->]. by destruct (Hok m eq_refl) as (_ & ? & _).
Qed.
End Worker.

(** ** Part paths *)

Lemma join_dots_split l : l <> [] -> Forall (λ p, "."%char ∉ p) l -> split_at "."%char (join_dots l) = l.
Proof.
  intros Hne Hl. induction Hl as [|x l Hx Hl IH]; [done|]. destruct l as [|y l].
  - by apply split_at_last.
  - change (join_dots (x :: y :: l)) with (x ++ "."%char :: join_dots (y :: l)). rewrite split_at_cons by done. by rewrite IH.
Qed.

(** Different parts of a message have different paths. *)
Lemma part_path_injective p q :
  Forall (λ v, 0 <= v < 2 ^ 62) p -> Forall (λ v, 0 <= v < 2 ^ 62) q -> formatPartPath p = formatPartPath q -> p = q.
Proof.
  set (texts := λ l : list Z, (λ value, format_int (value + 1)) <$> l).
  assert (forall l, Forall (λ v, 0 <= v < 2 ^ 62) l -> l <> [] -> split_at "."%char (formatPartPath l) = texts l) as Hsplit.
  { intros l Hl Hne. destruct l as [|v l]; [done|]. apply join_dots_split; [done|]. apply Forall_fmap. eapply Forall_impl; [exact Hl|].
    intros z [Hz1 Hz2]. destruct (format_int_nonneg (z + 1)) as (_ & Hd & _); [unfold max_int64; lia|]. apply free_of. cbn.
    apply not_true_is_false. intros (c & Hc & E)%existsb_exists. apply bool_decide_eq_true in E as ->. by apply (proj1 (forallb_forall _ _) Hd) in Hc. }
  assert (forall v l, Forall (λ v, 0 <= v < 2 ^ 62) (v :: l) -> formatPartPath (v :: l) <> str "0") as Hroot.
  { intros v l Hl E. pose proof (Hsplit (v :: l) Hl) as Hs. rewrite E in Hs. cbn in Hs. injection (Hs ltac:(done)) as Ev _.
    apply Forall_cons in Hl as [Hv _]. destruct (format_int_nonneg (v + 1)) as (Hp & _); [unfold max_int64; lia|].
    rewrite <- Ev in Hp. change (Some 0 = Some (v + 1)) in Hp. injection Hp as Hp. lia. }
  intros Hp Hq. destruct p as [|v p], q as [|u q]; [done| | |].
  - intros E. by destruct (Hroot u q Hq).
  - intros E. by destruct (Hroot v p Hp).
  - intros E. assert (texts (v :: p) = texts (u :: q)) as Ht by by rewrite <- !Hsplit, E.
    clear E. revert Hp Hq Ht. generalize (u :: q) as l2. generalize (v :: p) as l1. clear.
    induction l1 as [|x l1 IH]; intros [|y l2] H1 H2; try done. intros [= Ex El]. apply Forall_cons in H1 as [Hx H1]. apply Forall_cons in H2 as [Hy H2].
    rewrite (IH l2) by done. f_equal. destruct (format_int_nonneg (x + 1)) as (Px & _); [unfold max_int64; lia|].
    destruct (format_int_nonneg (y + 1)) as (Py & _); [unfold max_int64; lia|]. rewrite Ex, Py in Px. injection Px as Px. lia.
Qed.

(** ** Attachments *)

Section Attachment.
Context {K Src Hdr Fld Lib : Type} (ctx_Err : K -> K * option goerr) (src_read : Src -> nat -> Src * bytes * option goerr).
Context `{!MessageLib (countingReader K Src) Hdr Fld Lib} `{!MessageSpec ctx_Err src_read}.

#[local] Abbreviation reader := (boundedAttachmentReader K Src Lib).

(** What a client gets from reads of the given sizes. *)
Fixpoint read_sizes (r : reader) (sizes : list nat) : reader * bytes :=
  match sizes with
  | [] => (r, [])
  | n :: sizes => let '(r, out, _) := bounded_read ctx_Err r n in let '(r, rest) := read_sizes r sizes in (r, out ++ rest)
  end.

Lemma bounded_read_count r n r' out e : bounded_read ctx_Err r n = (r', out, e) -> ba_read r <= ba_maxBytes r ->
  ba_read r' = ba_read r + zlen out /\ ba_read r' <= ba_maxBytes r' /\ ba_maxBytes r' = ba_maxBytes r /\
  ba_closed r' = ba_closed r /\ ba_raw_closed r' = ba_raw_closed r.
Proof.
  assert (zlen (@nil ascii) = 0) as Z0 by done.
  unfold bounded_read. destruct (ba_closed r) eqn:Ec; [intros [= <- <- _] ?; rewrite Z0; split_and!; [lia..|done|done]|].
  destruct (input_ctx _ _) as [c [e0|]]; [intros [= <- <- _] ?; rewrite Z0; cbn; split_and!; [lia..|done|done]|]. cbv zeta.
  destruct (n =? 0)%nat eqn:En; [intros [= <- <- _] ?; rewrite Z0; cbn; split_and!; [lia..|done|done]|].
  destruct (ba_maxBytes r <=? ba_read r) eqn:Em.
  - destruct (ml_body _ _ _) as [[[lib c1] o] e1]. intros [= <- <- _] ?; rewrite Z0; cbn; split_and!; [lia..|done|done].
  - destruct (ml_body _ _ _) as [[[lib c1] o] e1] eqn:Eb. intros [= <- <- _] ?. apply (body_bound ctx_Err src_read) in Eb.
    cbn. assert (zlen o <= ba_maxBytes r - ba_read r) by (unfold zlen; destruct (_ <? Z.of_nat n) eqn:E2 in Eb; lia). split_and!; [lia..|done|done].
Qed.

(** However it is read, an attachment yields at most the part limit. *)
Lemma attachment_bounded r sizes r' out : read_sizes r sizes = (r', out) -> ba_read r <= ba_maxBytes r ->
  ba_read r + zlen out <= ba_maxBytes r /\ ba_raw_closed r' = ba_raw_closed r.
Proof.
  revert r out. induction sizes as [|n sizes IH]; intros r out; cbn [read_sizes].
  { intros [= <- <-] ?. change (zlen (@nil ascii)) with 0. split; [lia|done]. }
  destruct (bounded_read ctx_Err r n) as [[r1 o] e] eqn:E1. destruct (read_sizes r1 sizes) as [r2 rest] eqn:E2. intros [= <- <-] Hr.
  destruct (bounded_read_count _ _ _ _ _ E1 Hr) as (C1 & C2 & C3 & _ & C5). destruct (IH _ _ E2 C2) as [I1 I2].
  rewrite zlen_app. split; [lia|congruence].
Qed.

(** Closing closes the raw source once, and nothing is read afterwards. *)
Lemma attachment_closed r : ba_closed r = false ->
  ba_raw_closed (bounded_close (bounded_close r)) = S (ba_raw_closed r) /\
  forall n, (bounded_read ctx_Err (bounded_close r) n) = (bounded_close r, [], Some (IoErrClosedPipe : goerr)).
Proof. intros Hc. unfold bounded_read, bounded_close. rewrite Hc. done. Qed.
End Attachment.

(** A small library whose messages are laid out by a function of the first
    bytes of the input. *)
Module Toy.
Definition header : Type := list (bytes * bytes).
Record lib := MkLib { lb_parts : list (list Z * header * bytes); lb_body : bytes }.

Definition get (h : header) (k : bytes) : bytes := default [] (snd <$> head (filter (λ f, f.1 = k) h)).

Section Library.
Context (layout : bytes -> list (list Z * header * bytes)).

#[local] Instance library : MessageLib (countingReader unit bytes) header (bytes * bytes) lib := {
  ml_ReadWithOptions c _ :=
    let '(c, out, _) := counting_read (λ k, (k, None)) rd_read c 4096 in
    (c, Some (MkLib (layout out) [], match layout out with (_, h, _) :: _ => h | [] => [] end), None);
  ml_next l c :=
    match lb_parts l with
    | [] => (l, c, Finished)
    | (path, h, body) :: parts => (MkLib parts body, c, Part path h true None)
    end;
  ml_body l c n :=
    match lb_body l with
    | [] => (l, c, [], Some (IoEOF : goerr))
    | body => (MkLib (lb_parts l) (drop n body), c, take n body, None)
    end;
  ml_fuel l _ := length (lb_body l);
  h_Get := get;
  h_Text h k := (get h k, None);
  h_Fields h := h;
  h_FieldsByKey h k := filter (λ f, f.1 = k) h;
  f_Text f := (f.2, None);
  f_Raw f := Ok (f.1 ++ str ": " ++ f.2);
  h_ContentType h := (get h (str "Content-Type"), Some (λ _, get h (str "Name")),
    if contains (get h (str "Content-Type")) (str " ") then Some (ENew "mime: unexpected content after media subtype") else None);
  h_ContentDisposition h := (get h (str "Content-Disposition"), Some (λ _, get h (str "File-Name")), None);
  IsUnknownCharset _ := false;
  IsUnknownEncoding _ := false;
  err_Error _ := [];
  ParseAddressList s := Ok [MkAddress [] s];
  ParseDate _ := Err (ENew "mail: invalid date")
}.

Lemma library_spec : MessageSpec (λ k, (k, None)) rd_read.
Proof.
  split; cbn; intros.
  - destruct (counting_read _ _ c 4096) as [[c1 out] e1] eqn:E. simplify_eq. apply rtc_once. exists 4096%nat. split; [lia|]. by rewrite E.
  - destruct (lb_parts lib0) as [|[[p h] b] parts]; by simplify_eq.
  - destruct (lb_body lib0); by simplify_eq.
  - destruct (lb_body lib0); simplify_eq; [cbn; lia|]. rewrite length_take. lia.
  - destruct (lb_body lib0); simplify_eq. cbn [lb_body]. rewrite length_drop. cbn. lia.
  - done.
Qed.
End Library.
End Toy.

Module ParserRuns.
Definition small : Limits := MkLimits 100 1000 1000 20 5 3 200 150 12 100 20 8 2 3.
Definition layout (text : bytes) : list (list Z * Toy.header * bytes) :=
  [([], [(str "Content-Type", str "multipart/mixed"); (str "Subject", str " Greetings from a long way off "); (str "From", str "a@b.c")], []);
   ([0], [(str "Content-Type", str "text/plain")], text);
   ([1; 0], [(str "Content-Type", str "Text/Plain"); (str "File-Name", str "../../etc/passwd"); (str "Content-Disposition", str "attachment")], str "x")].
Definition source : bytes := str "Hello there, world".
Definition run : option (countingReader unit bytes * res ParsedMessage) :=
  Parse (λ k, (k, None)) (MessageLib0 := Toy.library layout) small tt source.
End ParserRuns.

Example parser_run : option_map snd ParserRuns.run =
  Some (Ok (MkParsedMessage (str "Greetings from a lon") [] [MkAddress [] (str "a@b.c")] [] [] None (str "Hello there,") []
    [MkAttachment (str "2.1") (str "_.._etc_") (str "text/plain") (str "attachment") [] 1]
    [MkWarning WarningTextTruncated (str "1") (str "Text preview exceeded its storage limit");
     MkWarning WarningFilenameNormalized (str "2.1") (str "Attachment filename required normalization")])).
Proof. vm_compute. reflexivity. Qed.

(** Witness of [parse_bounded] with the library of [Toy]. *)
Lemma parse_bounded_witness : exists c r,
  Parse (λ k, (k, None)) (MessageLib0 := Toy.library ParserRuns.layout) ParserRuns.small tt ParserRuns.source = Some (c, r) /\
  source_reads rd_read ParserRuns.source (input_source c) /\ 0 <= cn_read c <= 101 /\
  (forall m, r = Ok m -> cn_read c <= 100 /\ message_ok ParserRuns.small m /\ zlen (pm_Attachments m) <= 5 /\ sizes (pm_Attachments m) <= 200).
Proof.
  apply (parse_bounded (λ k, (k, None)) rd_read (MessageLib0 := Toy.library ParserRuns.layout)
    (MessageSpec0 := Toy.library_spec ParserRuns.layout) ParserRuns.small).
  - intros s n s' out e. apply (rd_bound (R := bytes)).
  - split; [reflexivity|]. split; cbn; lia.
Defined.

(** A part whose Content-Type cannot be parsed is listed as an attachment, but
    [OpenAttachment] refuses to open it under the path it is listed with. *)
Module MalformedType.
Definition layout (text : bytes) : list (list Z * Toy.header * bytes) :=
  [([], [(str "Content-Type", str "multipart/mixed")], []);
   ([0], [(str "Content-Type", str "application pdf"); (str "File-Name", str "invoice.pdf"); (str "Content-Disposition", str "attachment")], text)].
End MalformedType.

Lemma listed_but_not_opened :
  (match Parse (λ k, (k, None)) (MessageLib0 := Toy.library MalformedType.layout) DefaultLimits tt ParserRuns.source with
   | Some (_, Ok m) => (λ a, (at_PartPath a, at_FileName a)) <$> pm_Attachments m
   | _ => []
   end) = [(str "1", str "invoice.pdf")] /\
  OpenAttachment (MessageLib0 := Toy.library MalformedType.layout) DefaultLimits 10 tt ParserRuns.source (str "1") =
    Some (Err (EWrap "locate MIME attachment" (ENew "attachment part is not a leaf MIME entity"))).
Proof. vm_compute. split; reflexivity. Qed.
