(* ===== verification/ParseChecks.v ===== *)
(** * The constraints on stored parse results

    The [CHECK] constraints of the table [mail_content_parses]
    ([migrations/000002_create_content_parse_queue.sql]) on a result of the
    MIME parser: texts must be UTF-8 without NUL and short enough, and the
    [jsonb] columns must hold short arrays whose text is short enough.  The
    text of a [jsonb] value is modelled as PostgreSQL prints it, of the JSON
    that [encoding/json] makes of the value. *)

From S2P Require Import Prelude GoStrings Errors Codec Uuid FileSystem Json Message ContentStore ContentStoreFacts ContentStoreSpec Mail Database DatabaseFacts DeliveryRepo MailboxRepo ParseRepo ParserJob System ParserSystem MailParser MailParserFacts.

#[local] Opaque sha256.

(** ** The text of [jsonb] *)

(** [escape_json] *)
Definition escape_char (c : ascii) : bytes :=
  if code c =? 34 then str "\" ++ [c]
  else if code c =? 92 then str "\\"
  else if code c =? 8 then str "\b" else if code c =? 12 then str "\f" else if code c =? 10 then str "\n"
  else if code c =? 13 then str "\r" else if code c =? 9 then str "\t"
  else if code c <? 32 then str "\u00" ++ [hex_char (code c / 16); hex_char (code c mod 16)]
  else [c].

Definition jsonb_string (s : bytes) : bytes := quote :: concat (escape_char <$> json_text s) ++ [quote].

Fixpoint comma_list (l : list bytes) : bytes :=
  match l with [] => [] | [x] => x | x :: l => x ++ str ", " ++ comma_list l end.

Definition jsonb_object (l : list (string * bytes)) : bytes :=
  str "{" ++ comma_list ((λ f, jsonb_string (str f.1) ++ str ": " ++ f.2) <$> l) ++ str "}".
Definition jsonb_array (l : list bytes) : bytes := str "[" ++ comma_list l ++ str "]".

(** The keys of an object are ordered by length, then bytewise. *)
Definition jsonb_address (a : Address) : bytes :=
  jsonb_object [("name"%string, jsonb_string (ad_Name a)); ("address"%string, jsonb_string (ad_Address a))].
Definition jsonb_attachment (a : Attachment) : bytes :=
  jsonb_object [("file_name"%string, jsonb_string (at_FileName a)); ("part_path"%string, jsonb_string (at_PartPath a));
    ("content_id"%string, jsonb_string (at_ContentID a)); ("size_bytes"%string, format_int (at_SizeBytes a));
    ("disposition"%string, jsonb_string (at_Disposition a)); ("content_type"%string, jsonb_string (at_ContentType a))].

Definition warning_text (c : WarningCode) : bytes :=
  match c with
  | WarningUnknownCharset => str "unknown_charset" | WarningUnknownTransferEncoding => str "unknown_transfer_encoding"
  | WarningMalformedContentType => str "malformed_content_type" | WarningMalformedDisposition => str "malformed_content_disposition"
  | WarningInvalidSubject => str "invalid_subject" | WarningInvalidAddress => str "invalid_address" | WarningInvalidDate => str "invalid_date"
  | WarningTextTruncated => str "text_truncated" | WarningHTMLTruncated => str "html_truncated"
  | WarningFilenameNormalized => str "filename_normalized" | WarningListTruncated => str "warning_list_truncated"
  end.

Definition jsonb_warning (w : Warning) : bytes :=
  jsonb_object [("code"%string, jsonb_string (warning_text (wn_Code w))); ("detail"%string, jsonb_string (wn_Detail w));
    ("part_path"%string, jsonb_string (wn_PartPath w))].

(** ** The constraints *)

(** A value of type [text]: UTF-8 without NUL. *)
Definition text_column (maximum : Z) (s : bytes) : bool := clean nul s && (zlen s <=? maximum).

(** A [jsonb] array of objects: no string of it holds NUL. *)
Definition jsonb_column (maximum : Z) (strings : list bytes) (objects : list bytes) : bool :=
  forallb (λ s, negb (bool_decide (byte_of 0 ∈ s))) strings && (zlen objects <=? 100) && (zlen (jsonb_array objects) <=? maximum).

Definition addresses_column (l : list Address) : bool :=
  jsonb_column 131072 (concat ((λ a, [ad_Name a; ad_Address a]) <$> l)) (jsonb_address <$> l).
Definition attachments_column (l : list Attachment) : bool :=
  jsonb_column 262144 (concat ((λ a, [at_FileName a; at_PartPath a; at_ContentID a; at_Disposition a; at_ContentType a]) <$> l)) (jsonb_attachment <$> l).
Definition warnings_column (l : list Warning) : bool :=
  jsonb_column 65536 (concat ((λ w, [wn_PartPath w; wn_Detail w]) <$> l)) (jsonb_warning <$> l).

(** The constraints of [mail_content_parses] on a result. *)
Definition stored_valid (m : ParsedMessage) : bool :=
  text_column 998 (pm_Subject m) && text_column 998 (pm_MessageID m) && text_column 524288 (pm_Text m) && text_column 1048576 (pm_HTMLSource m) &&
  addresses_column (pm_From m) && addresses_column (pm_To m) && addresses_column (pm_Cc m) &&
  attachments_column (pm_Attachments m) && warnings_column (pm_Warnings m).

(** The default limits of the parser are those of the text columns. *)
Lemma texts_stored l m : message_ok l m -> MaxSubjectBytes l <= 998 -> MaxTextBytes l <= 524288 -> MaxHTMLBytes l <= 1048576 ->
  text_column 998 (pm_Subject m) = true /\ text_column 998 (pm_MessageID m) = true /\
  text_column 524288 (pm_Text m) = true /\ text_column 1048576 (pm_HTMLSource m) = true.
Proof.
  assert (forall s, clean header_break s = true -> clean nul s = true) as Hweak.
  { intros s Hs%clean_spec. apply clean_spec. eapply Forall_impl; [exact Hs|]. intros g [Hg Hb]. split; [done|].
    unfold header_break, nul in *. by apply orb_false_iff in Hb as [_ Hb]. }
  intros [[S1 S2] [I1 I2] _ _ _ [T1 T2] [H1 H2] _ _] ? ? ?. unfold text_column.
  rewrite (Hweak _ S1), (Hweak _ I1), T1, H1. cbn. split_and!; apply Z.leb_le; lia.
Qed.

(** A result the constraints refuse cannot be stored. *)
Lemma complete_refused `{!UUIDLib} claim revision parsed parsedAt d d' x :
  CompleteContent stored_valid claim revision parsed parsedAt d = (d', x) -> stored_valid parsed = false ->
  same_tables d d' /\ exists e, x = Err e.
Proof.
  intros Hc Hr. unfold CompleteContent in Hc. destruct (validateParseClaim claim); [injection Hc as <- <-; split; [reflexivity|eauto]|].
  destruct (_ <=? _); [injection Hc as <- <-; split; [reflexivity|eauto]|]. destruct (bool_decide _); [injection Hc as <- <-; split; [reflexivity|eauto]|].
  apply transaction_inv in Hc as [Hc|(d1 & d2 & a & _ & _ & Hm & _)]; [done|]. exfalso. unfold complete_body in Hm.
  apply dbind_inv in Hm as [(d3 & u & _ & Hm)|(e & _ & [=])]. apply dbind_inv in Hm as [(d4 & u4 & _ & Hm)|(e & _ & [=])].
  by rewrite Hr in Hm.
Qed.

(** ** A result within the limits that cannot be stored *)

(** The text of an array is no shorter than the strings in it. *)
Lemma escape_length l : zlen l <= zlen (concat (escape_char <$> l)).
Proof.
  induction l as [|c l IH]; [done|]. cbn [fmap list_fmap concat]. rewrite zlen_app.
  assert (1 <= zlen (escape_char c)) by (unfold escape_char; repeat case_match; by vm_compute). replace (zlen (c :: l)) with (1 + zlen l) by zl. lia.
Qed.

Lemma jsonb_string_length s : valid_utf8 s = true -> zlen s <= zlen (jsonb_string s).
Proof.
  intros Hs. assert (json_text s = s) as E.
  { unfold json_text. rewrite <- (unrunes_runes s) at 2. unfold unrunes. f_equal. apply list_fmap_ext. intros i g Hg.
    unfold valid_utf8 in Hs. rewrite (proj1 (forallb_forall _ _) Hs g); [done|]. by apply list_elem_of_lookup_2, list_elem_of_In in Hg. }
  unfold jsonb_string. rewrite E. pose proof (escape_length s). unfold zlen in *. cbn [length]. rewrite length_app. lia.
Qed.

Lemma comma_list_length l : foldr (λ x n, zlen x + n) 0 l <= zlen (comma_list l).
Proof.
  induction l as [|x [|y l] IH]; [done|cbn [foldr comma_list]; lia|]. change (comma_list (x :: y :: l)) with (x ++ str ", " ++ comma_list (y :: l)).
  rewrite !zlen_app. pose proof (zlen_nonneg (str ", ")). cbn [foldr] in IH |- *. lia.
Qed.

Lemma attachment_text_length a : valid_utf8 (at_ContentType a) = true -> zlen (at_ContentType a) <= zlen (jsonb_attachment a).
Proof.
  intros Hv%jsonb_string_length. unfold jsonb_attachment, jsonb_object. cbn [fmap list_fmap comma_list fst snd]. rewrite !zlen_app.
  repeat match goal with |- context [zlen ?x] => lazymatch x with jsonb_string (at_ContentType a) => fail | at_ContentType _ => fail | _ =>
    let n := fresh "n" in pose proof (zlen_nonneg x); set (n := zlen x) in * end end. lia.
Qed.

Lemma long_types_column t l : valid_utf8 t = true -> Forall (λ a, at_ContentType a = t) l -> 262144 < zlen t * zlen l -> attachments_column l = false.
Proof.
  intros Ht Hl Hn. unfold attachments_column, jsonb_column. apply andb_false_iff. right. apply Z.leb_gt. unfold jsonb_array. rewrite !zlen_app.
  pose proof (zlen_nonneg (str "[")). pose proof (zlen_nonneg (str "]")). pose proof (comma_list_length (jsonb_attachment <$> l)) as Hc.
  enough (zlen t * zlen l <= foldr (λ x n, zlen x + n) 0 (jsonb_attachment <$> l)) by lia. clear Hc Hn.
  induction Hl as [|a l Ha _ IH]; [change (zlen (@nil Attachment)) with 0; cbn [fmap list_fmap foldr]; lia|]. cbn [fmap list_fmap foldr]. pose proof (attachment_text_length a) as Hlen. rewrite Ha in Hlen.
  specialize (Hlen Ht). replace (zlen (a :: l)) with (1 + zlen l) by zl. lia.
Qed.

(** Attachments without content and with the media type [t]. *)
Section LongTypes.
Context (t : bytes).

Definition long_header : Toy.header := [(str "Content-Type", t); (str "Content-Disposition", str "attachment")].
Definition long_layout (_ : bytes) : list (list Z * Toy.header * bytes) :=
  ([], [(str "Content-Type", str "multipart/mixed")], []) :: ((λ i, ([i], long_header, [])) <$> [0; 1; 2; 3; 4]).

#[local] Instance long_library : MessageLib (countingReader unit bytes) Toy.header (bytes * bytes) Toy.lib := Toy.library long_layout.
#[local] Abbreviation calm := (λ k : unit, (k, None : option goerr)).

Context (Hlow : to_lower (trim_space t) = t) (Hblank : contains t (str " ") = false) (Hsingle : has_prefix t (str "multipart/") = false).
Context (Hlen : zlen t <= 61000).

Lemma long_inspect s : ps_headers s + 2 <= 1000 -> 0 <= ps_headerBytes s <= 900000 ->
  exists n, inspectHeader DefaultLimits long_header s =
    (MkParseState (ps_result s) (ps_parts s) (ps_headerBytes s + n) (ps_headers s + 2) (ps_decodedBytes s) (ps_warningsTruncated s), None) /\
    0 <= n <= 61100.
Proof.
  intros Hh Hb. pose proof (zlen_nonneg t). exists (14 + zlen t + 31). split; [|lia]. unfold inspectHeader.
  change (h_Fields long_header) with long_header. change (zlen long_header) with 2.
  cbn [ps_headers ps_result ps_parts ps_headerBytes ps_decodedBytes ps_warningsTruncated].
  change (MaxHeaders DefaultLimits) with 1000. change (MaxTotalHeaderBytes DefaultLimits) with 1048576.
  replace (1000 <? ps_headers s + 2) with false by lia.
  assert (header_bytes DefaultLimits 0 long_header = Ok (14 + zlen t + 31)) as ->.
  { unfold long_header. cbn [header_bytes]. change (f_Raw (str "Content-Type", t)) with (Ok (str "Content-Type" ++ str ": " ++ t) : res bytes).
    change (f_Raw (str "Content-Disposition", str "attachment")) with (Ok (str "Content-Disposition" ++ str ": " ++ str "attachment") : res bytes).
    cbn iota. change (zlen (str "Content-Disposition" ++ str ": " ++ str "attachment")) with 31.
    replace (zlen (str "Content-Type" ++ str ": " ++ t)) with (14 + zlen t)
      by (rewrite !zlen_app; change (zlen (str "Content-Type")) with 12; change (zlen (str ": ")) with 2; lia).
    change (MaxHeaderBytes DefaultLimits) with 65536. rewrite Z.add_0_l.
    replace (65536 <? 14 + zlen t) with false by lia. by replace (65536 <? 14 + zlen t + 31) with false by lia. }
  cbn [ps_headerBytes]. by replace (1048576 <? ps_headerBytes s + (14 + zlen t + 31)) with false by lia.
Qed.

Lemma long_visit i lib c s : Toy.lb_body lib = [] -> 0 <= i ->
  ps_parts s + 1 <= 100 -> ps_headers s + 2 <= 1000 -> 0 <= ps_headerBytes s <= 900000 ->
  exists c' s' a, visit_part calm DefaultLimits [i] long_header true None lib c s = Some (lib, c', s', None) /\ cn_read c' = cn_read c /\
    pm_Attachments (ps_result s') = pm_Attachments (ps_result s) ++ [a] /\ at_ContentType a = t /\
    ps_parts s' = ps_parts s + 1 /\ ps_headers s' = ps_headers s + 2 /\ 0 <= ps_headerBytes s' <= ps_headerBytes s + 61100.
Proof.
  intros Hl Hi Hp Hh Hb. unfold visit_part. cbv zeta. change (MaxDepth DefaultLimits <? zlen [i]) with false.
  set (s1 := MkParseState _ _ _ _ _ _). cbn [MaxParts DefaultLimits]. replace (100 <? ps_parts s1) with false by (unfold s1; cbn; lia).
  destruct (long_inspect s1) as (n & -> & Hn); [done|done|]. cbn [recoverDecodeError]. set (s2 := MkParseState _ _ _ _ _ _).
  unfold consumeEntity.
  assert (entity_type DefaultLimits long_header (formatPartPath [i]) s2 = (s2, t, Some (λ _, []))) as ->.
  { unfold entity_type. cbn [h_ContentType Toy.library long_library]. change (Toy.get long_header (str "Content-Type")) with t. by rewrite Hblank, Hlow. }
  rewrite Hsingle.
  change (entity_disposition DefaultLimits long_header (formatPartPath [i]) s2) with (s2, str "attachment", Some (λ _ : bytes, @nil ascii)).
  cbv beta iota zeta. change (parameter (Some (λ _ : bytes, @nil ascii)) "filename") with (@nil ascii). rewrite bool_decide_true by done.
  change (parameter (Some (λ _ : bytes, @nil ascii)) "name") with (@nil ascii).
  set (h := MkLeafHeader _ _ _). change (leaf_kind h) with Other. cbn [capture_limit]. unfold consumeLeaf. cbn [negb ml_fuel Toy.library long_library].
  rewrite Hl. cbn [length leaf_loop]. destruct (input_ctx calm c) as [c1 [e|]] eqn:Ec; [by unfold input_ctx in Ec|].
  cbn [ml_body Toy.library long_library]. rewrite Hl. eexists _, _, _. split; [reflexivity|]. split; [by injection Ec as <-|].
  unfold add_leaf. change (leaf_kind h) with Other. cbn iota. unfold add_attachment.
  change (normalizeFilename (lh_filename h) (MaxFilenameBytes DefaultLimits)) with (@nil ascii, false). cbn [warn_if].
  cbn. split_and!; [reflexivity|done|done|done|lia|lia].
Qed.

Lemma long_walk l : forall fuel c s, Forall (λ i, 0 <= i) l -> (length l < fuel)%nat -> (length l <= 5)%nat ->
  ps_parts s + zlen l <= 100 -> ps_headers s + 2 * zlen l <= 1000 -> 0 <= ps_headerBytes s <= 61100 * (10 - zlen l) ->
  exists c' s' added, walk calm DefaultLimits fuel (Toy.MkLib ((λ i, ([i], long_header, [])) <$> l) []) c s = Some (c', s', None) /\
    pm_Attachments (ps_result s') = pm_Attachments (ps_result s) ++ added /\ length added = length l /\ Forall (λ a, at_ContentType a = t) added /\
    cn_read c' = cn_read c.
Proof.
  induction l as [|i l IH]; intros [|fuel] c s Hl Hf H5 Hp Hh Hb; try (cbn in Hf; lia); cbn [walk].
  { exists c, s, []. split; [done|]. by rewrite app_nil_r. }
  replace (zlen (i :: l)) with (1 + zlen l) in * by zl. apply Forall_cons in Hl as [Hi Hl]. pose proof (zlen_nonneg l).
  cbn [fmap list_fmap ml_next Toy.library long_library Toy.lb_parts].
  assert (zlen l <= 4) by (unfold zlen; cbn in H5; lia).
  destruct (long_visit i (Toy.MkLib ((λ i, ([i], long_header, [])) <$> l) []) c s) as (c1 & s1 & a & -> & R1 & A1 & T1 & P1 & H1 & B1);
    [done|done|lia|lia|lia|].
  destruct (IH fuel c1 s1) as (c2 & s2 & added & -> & A2 & L2 & F2 & R2); [done|cbn in Hf; lia|cbn in H5; lia|lia|lia|lia|].
  exists c2, s2, (a :: added). split; [done|]. rewrite A2, A1, <- app_assoc. split; [done|]. split; [cbn; lia|]. split; [by constructor|congruence].
Qed.

(** The message is parsed, with its five attachments. *)
Lemma long_parse source : exists m, option_map snd (Parse calm DefaultLimits tt source) = Some (Ok m) /\
  zlen (pm_Attachments m) = 5 /\ Forall (λ a, at_ContentType a = t) (pm_Attachments m).
Proof.
  unfold Parse, Parse_input. set (c0 := new_input DefaultLimits tt source). change (input_ctx calm c0) with (c0, None : option goerr). cbn iota.
  cbn [ml_ReadWithOptions Toy.library long_library].
  assert (cn_read (counting_read calm rd_read c0 4096).1.1 <= 4096) as Hr.
  { unfold counting_read, limited_read. change (lr_N (cn_source c0) <=? 0) with false. cbn iota.
    change (lr_N (cn_source c0) <? Z.of_nat 4096) with false. cbn [lr_R cn_source c0 new_input context_read cx_ctx cx_source].
    destruct (rd_read source 4096) as [[r out] e] eqn:E. apply (rd_bound (R := bytes)) in E. cbn -[zlen].
    rewrite wrap64_small; unfold min_int64, max_int64, zlen; lia. }
  destruct (counting_read calm rd_read c0 4096) as [[c1 out] e]. cbn [fst] in Hr. cbn [recoverDecodeError]. cbv zeta.
  set (s1 := readRootMetadata _ _ _). change (walk_fuel DefaultLimits) with (S 101).
  set (parts := (λ i, ([i], long_header, @nil ascii)) <$> [0; 1; 2; 3; 4]). set (s2 := MkParseState (ps_result s1) 1 29 1 0 false).
  assert (forall n, walk calm DefaultLimits (S n) (Toy.MkLib (long_layout out) []) c1 s1 = walk calm DefaultLimits n (Toy.MkLib parts []) c1 s2) as Ew
    by reflexivity.
  destruct (long_walk [0; 1; 2; 3; 4] 101 c1 s2) as (c3 & s3 & added & E2 & A2 & L2 & F2 & R2);
    [rewrite !Forall_cons; split_and!; try done; by apply Forall_nil|cbn; lia|cbn; lia|by vm_compute..|].
  rewrite Ew. unfold parts. rewrite E2, R2. change (MaxRawBytes DefaultLimits) with 26214400. replace (26214400 <? cn_read c1) with false by lia.
  exists (ps_result s3). split; [reflexivity|]. rewrite A2. change (pm_Attachments (ps_result s2)) with (@nil Attachment).
  cbn [app]. split; [unfold zlen; by rewrite L2|done].
Qed.
End LongTypes.

(** A media type of sixty thousand letters. *)
Definition long_type : bytes := str "x/" ++ replicate (Z.to_nat 60000) "a"%char.

#[local] Opaque Z.to_nat.

Lemma forallb_replicate {A} (p : A -> bool) n x : p x = true -> forallb p (replicate n x) = true.
Proof. intros Hx. induction n as [|n IH]; [done|]. cbn. by rewrite Hx. Qed.

Lemma long_type_ascii : forallb (λ c, is_ascii c && bool_decide (lower_byte c = c) && negb (bool_decide (c = " "%char))) long_type = true.
Proof. unfold long_type. rewrite forallb_app. by rewrite forallb_replicate. Qed.

Lemma long_type_ok : to_lower (trim_space long_type) = long_type /\ contains long_type (str " ") = false /\
  has_prefix long_type (str "multipart/") = false /\ zlen long_type = 60002 /\ valid_utf8 long_type = true.
Proof.
  pose proof (proj1 (forallb_forall _ _) long_type_ascii) as Hall.
  assert (forallb is_ascii long_type = true) as Ha.
  { apply forallb_forall. intros c Hc%Hall. by apply andb_prop in Hc as [[? _]%andb_prop _]. }
  assert (trim_space long_type = long_type) as Ht.
  { apply trim_space_clean; [done|done|]. unfold long_type. destruct (Z.to_nat 60000) as [|n]; [done|].
    by rewrite replicate_S_end, app_assoc, last_snoc. }
  split_and!.
  - rewrite Ht, to_lower_ascii by done. rewrite <- (list_fmap_id long_type) at 2. apply list_fmap_ext. intros i c Hc.
    apply list_elem_of_lookup_2, list_elem_of_In, Hall in Hc. apply andb_prop in Hc as [[_ Hc]%andb_prop _]. by apply bool_decide_eq_true in Hc.
  - assert (forall s, (forall c, In c s -> c <> " "%char) -> contains s (str " ") = false) as Hno.
    { intros s Hs. induction s as [|c s IH]; [done|]. cbn. rewrite bool_decide_false by (apply Hs; by left). cbn. apply IH. intros d Hd. apply Hs. by right. }
    apply Hno. intros c Hc%Hall. apply andb_prop in Hc as [_ Hc]. by apply negb_true_iff, bool_decide_eq_false in Hc.
  - done.
  - unfold long_type. rewrite zlen_app. unfold zlen at 2. rewrite length_replicate. change (zlen (str "x/")) with 2. lia.
  - unfold valid_utf8. rewrite runes_ascii by done. apply forallb_forall. intros g Hg. apply list_elem_of_In, list_elem_of_fmap in Hg as (c & -> & _). done.
Qed.

#[local] Opaque long_type.


(** A content that is being parsed for the seventh time, although the worker
    gives up after three attempts. *)
Module Refused.
Definition key : bytes := str "k".
Definition row : content_row := ContentRow 1 0 Processing 7 0 (Some []) (Some 10) None 0.
Definition world : system := Sys (y_store Live.final) (set_contents (y_db Live.final) {[ key := row ]}) [].
Definition claim : ParseClaim := MkParseClaim (MkContentRef key 1) (str "t") 7.
Definition host : ParserHost system bytes := system_parser_host Live.cfg stored_valid (λ _, []) Worker.token Live.clock Worker.peek.
End Refused.

