(* ===== verification/Retention.v ===== *)
(** * Retention: [internal/jobs/retention.go]

    One sweep over the whole system: batches of expired inboxes until one is
    short, then one page of the durable deletion queue.  The reads and writes
    are those of the repository and the content store; the store's operations
    wait for the deliveries in flight. *)

From S2P Require Import Prelude GoStrings Errors Codec Uuid FileSystem Message ContentStore ContentStoreFacts ContentStoreSpec Mail Database DatabaseFacts DeliveryRepo MailboxRepo ParseRepo System.

#[local] Opaque sha256.

Record RetentionOptions := MkRetentionOptions { ro_BatchSize : Z; ro_Interval : Z; ro_Timeout : Z }.
Record RetentionSummary := MkRetentionSummary { InboxesDeleted : Z; ContentDeleted : Z; ContentPending : Z }.

(** [NewRetentionSweeper] with its collaborators present. *)
Definition NewRetentionSweeper (batchSize : Z) : res RetentionOptions :=
  if (batchSize <=? 0) || (1000 <? batchSize) then Err (ENew "retention batch size must be between 1 and 1000")
  else Ok (MkRetentionOptions batchSize 0 0).

Definition NewRetention (options : RetentionOptions) : res RetentionOptions :=
  match NewRetentionSweeper (ro_BatchSize options) with
  | Err e => Err e
  | Ok r =>
    if (ro_Interval options <=? 0) || (ro_Timeout options <=? 0) || (ro_Interval options <=? ro_Timeout options)
    then Err (ENew "retention timeout must be positive and shorter than interval")
    else Ok (MkRetentionOptions (ro_BatchSize r) (ro_Interval options) (ro_Timeout options))
  end.

Section Sweep.
Context (c : config) (batch : Z).

Definition on_db {A} (m : DB A) (w : system) : system * res A :=
  let '(d, x) := m (y_db w) in (Sys (y_store w) d (y_flight w), x).

Definition on_disk {A} (m : IO A) (w : system) : system * res A :=
  let '(d, x) := m (st_disk (y_store w)) in (Sys (with_disk (y_store w) d) (y_db w) (y_flight w), x).

(** The first loop of [Sweep]; [None] when the fuel runs out. *)
Fixpoint cleanup_loop (fuel : nat) (w : system) (deleted : Z) : option (system * Z * option goerr) :=
  match fuel with
  | O => None
  | S fuel =>
    match on_db (CleanupExpiredInboxes batch) w with
    | (w, Err e) => Some (w, deleted, Some e)
    | (w, Ok (n, _)) =>
      if n <? batch then Some (w, deleted + n, None)
      else match on_disk ctx_err w with
      | (w, Err e) => Some (w, deleted + n, Some e)
      | (w, Ok _) => cleanup_loop fuel w (deleted + n)
      end
    end
  end.

(** The second loop: one page of queued deletions.  [None] while a delivery
    holds a lease. *)
Fixpoint reclaim_loop (l : list ContentDeletion) (w : system) (count : Z) (errs : list goerr)
  : option (system * Z * list goerr) :=
  match l with
  | [] => Some (w, count, errs)
  | deletion :: l =>
    match DeleteUnreferenced c (y_store w) (cd_Content deletion) (reference_check w) with
    | None => None
    | Some (s, x) =>
      let w := Sys s (ContentReferenced (Key (cd_Content deletion)) (y_db w)).1 (y_flight w) in
      match x with
      | Err e => reclaim_loop l w count (errs ++ [EWrap "delete queued Raw MIME" e])
      | Ok deleted =>
        match on_db (AcknowledgeContentDeletion (Key (cd_Content deletion)) (Generation deletion)) w with
        | (w, Err e) => reclaim_loop l w count (errs ++ [EWrap "acknowledge queued Raw MIME" e])
        | (w, Ok acknowledged) => reclaim_loop l w (if (deleted : bool) && (acknowledged : bool) then count + 1 else count) errs
        end
      end
    end
  end.

(** [Retention.Sweep]: the fuel of the first loop is one more than the
    inboxes there are. *)
Definition Sweep (w : system) : option (system * RetentionSummary * option goerr) :=
  match cleanup_loop (S (size (inboxes (y_db w)))) w 0 with
  | None => None
  | Some (w, n, Some e) => Some (w, MkRetentionSummary n 0 0, Some e)
  | Some (w, n, None) =>
    match on_db (ListContentDeletions batch) w with
    | (w, Err e) => Some (w, MkRetentionSummary n 0 0, Some e)
    | (w, Ok deletions) =>
      match reclaim_loop deletions w 0 [] with
      | None => None
      | Some (w, count, errs) =>
        match on_db CountContentDeletions w with
        | (w, Err e) =>
          Some (w, MkRetentionSummary n count 0, errors_join (errs ++ [EWrap "count queued Raw MIME deletions" e]))
        | (w, Ok pending) => Some (w, MkRetentionSummary n count pending, errors_join errs)
        end
      end
    end
  end.
End Sweep.

(** ** What the environment may do *)

(** No system call reports a missing file on its own: the only such error
    comes from the tree. *)
Definition honest (d : disk) : Prop :=
  Forall (λ o : option goerr, forall e, o = Some e -> errors_is e OsErrNotExist = false) (d_oracle d).

Lemma honest_calm d : d_oracle d = [] -> honest d.
Proof. unfold honest. intros ->. constructor. Qed.

Definition keeps_honest {A} (m : IO A) : Prop := forall d d' r, m d = (d', r) -> honest d -> honest d'.

Lemma honest_attempt : keeps_honest attempt.
Proof.
  intros d d' r. unfold attempt, honest. destruct (d_oracle d) as [|[e|] l] eqn:E; intros [= <- <-]; cbn; rewrite ?E; [done|..];
    by intros [_ ?]%Forall_cons.
Qed.

Lemma honest_attempt_err d d' e : attempt d = (d', Err e) -> honest d -> errors_is e OsErrNotExist = false.
Proof.
  unfold attempt, honest. destruct (d_oracle d) as [|[e'|] l]; intros [= <- <-]. intros [Hx _]%Forall_cons. by apply Hx.
Qed.

Lemma honest_ctx_err : keeps_honest ctx_err.
Proof.
  intros d d' r. unfold ctx_err, wrap. destruct (attempt d) as [d1 [u|e]] eqn:E; intros [= <- <-]; by eapply honest_attempt.
Qed.

Lemma honest_remove p : keeps_honest (remove p).
Proof.
  intros d d' r [(d1 & E & Hx)|(e & E & ->)]%bind_attempt Hh; apply honest_attempt in E; try done; apply E in Hh; [|done].
  by destruct (d_tree d1 !! p) as [[?|]|]; injection Hx as <- <-.
Qed.

Lemma honest_syncDirectory p : keeps_honest (syncDirectory p).
Proof.
  intros d d' r. unfold syncDirectory, bind, wrap. intros H Hh.
  destruct (attempt d) as [d1 [?|?]] eqn:E1; apply honest_attempt in E1; [|injection H as <- <-; by apply E1]. apply E1 in Hh.
  destruct (attempt d1) as [d2 [?|?]] eqn:E2; apply honest_attempt in E2; [|injection H as <- <-; by apply E2]. apply E2 in Hh.
  unfold sync_dir, bind in H. destruct (attempt d2) as [d3 [?|?]] eqn:E3; apply honest_attempt in E3; [|injection H as <- <-; by apply E3].
  apply E3 in Hh. by destruct (is_dir d3 p); injection H as <- <-.
Qed.

(** On an honest disk a reported deletion is one. *)
Lemma deleteLocked_gone c ref d d' :
  disk_ok c d -> honest d -> deleteLocked c ref d = (d', Ok tt) ->
  forall p, pathForKey c (Key ref) = Ok p -> read_at d' p = None.
Proof.
  intros Hok Hh. unfold deleteLocked. intros H p Ep. rewrite Ep in H. destruct (remove p d) as [d1 r1] eqn:E1.
  pose proof E1 as R1. apply (remove_object c) in E1 as (Hok1 & I1 & _ & H1); [|done]. destruct r1 as [[]|e].
  - destruct H1 as [[_ ?]|[T1 _]]; [done|]. unfold wrap in H. destruct (syncDirectory (dir p) d1) as [d2 r2] eqn:E2.
    apply looks_syncDirectory in E2 as (_ & _ & T2). assert (d' = d2) as -> by (destruct r2; congruence).
    unfold read_at. by rewrite T2, T1, lookup_delete_eq.
  - destruct (errors_is e OsErrNotExist) eqn:En; [|done]. injection H as ->.
    apply bind_attempt in R1 as [(d0 & E0 & Hx)|(e' & E0 & Heq)];
      [|injection Heq as <-; by rewrite (honest_attempt_err _ _ _ E0 Hh) in En].
    unfold read_at. destruct (d_tree d0 !! p) as [[?|]|] eqn:Et; simplify_eq. by rewrite Et.
Qed.

Lemma honest_deleteLocked c ref : keeps_honest (deleteLocked c ref).
Proof.
  intros d d' r. unfold deleteLocked. destruct (pathForKey c (Key ref)) as [p|e]; [|by intros [= <- <-]].
  destruct (remove p d) as [d1 [u|e]] eqn:E1; apply honest_remove in E1.
  - unfold wrap. destruct (syncDirectory (dir p) d1) as [d2 r2] eqn:E2. apply honest_syncDirectory in E2.
    intros H Hh. assert (d' = d2) as -> by (destruct r2; congruence). auto.
  - destruct (errors_is e _); by intros [= <- <-].
Qed.

(** Another session's advisory lock is not touched. *)
Definition keeps_busy {A} (m : DB A) : Prop := forall d d' r, m d = (d', r) -> db_cleanup_busy d' = db_cleanup_busy d.

Lemma busy_dbind {A B} (m : DB A) (k : A -> DB B) : keeps_busy m -> (forall a, keeps_busy (k a)) -> keeps_busy (dbind m k).
Proof.
  intros Hm Hk d d' r [(d1 & a & E & Hx)|(e & E & ->)]%dbind_inv; apply Hm in E; [|done]. rewrite <- E. by eapply Hk.
Qed.

Lemma busy_statement t : keeps_busy (statement t).
Proof. intros d d' r. apply statement_busy. Qed.

Lemma busy_transaction {A} bt ct (m : DB A) : keeps_busy m -> keeps_busy (transaction bt ct m).
Proof.
  intros Hm d d' r. unfold transaction. destruct (statement bt d) as [d1 [u|e]] eqn:E1; apply statement_busy in E1; [|by intros [= <- <-]].
  destruct (m d1) as [d2 [a|e]] eqn:E2; apply Hm in E2; [|by intros [= <- <-]].
  destruct (statement ct d2) as [d3 [u3|e]] eqn:E3; apply statement_busy in E3; [|by intros [= <- <-]].
  destruct (statement ct d3) as [d4 [u4|e]] eqn:E4; apply statement_busy in E4; intros [= <- <-]; congruence.
Qed.

Lemma busy_query {A} t (f : db -> A) : keeps_busy (query t f).
Proof. apply busy_dbind; [apply busy_statement|]. by intros _ d d' r [= <- <-]. Qed.

Lemma busy_purge refs : keeps_busy (purge_refs refs).
Proof.
  induction refs as [|ref refs IH]; [by intros d d' r [= <- <-]|]. cbn [purge_refs].
  apply busy_dbind; [|intros b; apply busy_dbind; [|intros _; apply busy_dbind; [done|]; by intros a d d' r [= <- <-]]].
  - apply busy_dbind; [apply busy_statement|]. intros _ d d' r. unfold delete_unreferenced_content.
    destruct (contents d !! Key ref); [destruct (referenced d (Key ref))|]; by intros [= <- <-].
  - destruct b; [|by intros d d' r [= <- <-]]. apply busy_dbind; [apply busy_statement|]. by intros _ d d' r [= <- <-].
Qed.

Lemma busy_cleanup n : keeps_busy (CleanupExpiredInboxes n).
Proof.
  unfold CleanupExpiredInboxes. destruct (_ || _); [by intros d d' r [= <- <-]|]. apply busy_transaction.
  apply busy_dbind; [apply busy_query|]. intros []; [by intros d d' r [= <- <-]|].
  apply busy_dbind; [apply busy_query|]. intros [|id ids]; [by intros d d' r [= <- <-]|].
  apply busy_dbind; [apply busy_query|]. intros refs. apply busy_dbind.
  - apply busy_dbind; [apply busy_statement|]. by intros _ d d' r [= <- <-].
  - intros _. apply busy_dbind; [apply busy_purge|]. by intros o d d' r [= <- <-].
Qed.

(** ** The loops *)

(** Nothing of the queue is lost while inboxes are cleaned up. *)
Definition queue_kept (d d' : db) : Prop := forall key, is_Some (deletions d !! key) -> is_Some (deletions d' !! key).

Lemma collected_queue d d' orphans : collected d d' orphans -> queue_kept d d'.
Proof.
  intros (refs & dm & Sh & P & _) key. rewrite <- (sh_deletions _ _ _ Sh). intros Hk.
  destruct (purgeable dm refs key) eqn:E; [|by rewrite (pu_deletions _ _ _ P)].
  pose proof E as E'. unfold purgeable in E'. bool_to_prop.
  match goal with H : is_Some (contents dm !! key) |- _ => destruct H as [r Hr] end.
  rewrite (pu_queued _ _ _ P key r) by done. by eauto.
Qed.

Lemma collected_now d d' orphans : collected d d' orphans -> db_now d' = db_now d.
Proof. intros (refs & dm & Sh & P & _). by rewrite (pu_now _ _ _ P), (sh_now _ _ _ Sh). Qed.

Lemma cleanup_keeps n d d' x :
  db_ok d -> CleanupExpiredInboxes n d = (d', x) ->
  queue_kept d d' /\ db_now d' = db_now d /\ db_cleanup_busy d' = db_cleanup_busy d.
Proof.
  intros Hok E. pose proof (busy_cleanup _ _ _ _ E) as B. destruct (CleanupExpiredInboxes_inv _ _ _ _ Hok E) as [S|[[o HC] _]].
  - split; [|split; [apply S|done]]. intros key. by rewrite (sm_deletions _ _ S).
  - split; [by eapply collected_queue|]. split; [by eapply collected_now|done].
Qed.

Section Facts.
Context `{!UUIDLib} `{!UUIDSpec _} {R : Type} `{!Reader R} `{!ReaderSpec R}.
Context (c : config) (q : DeliveryLimits) (accepts : ParsedMessage -> bool) (batch : Z).
Context (Hmax : 0 <= maxBytes c < max_int64) (Hbatch : 1 <= batch <= 1000).

#[local] Abbreviation step := (sys_step (R:=R) c q accepts).

(** A run of the job: steps of the system that keep the environment honest. *)
Record ran (w w' : system) : Prop := {
  rn_steps : rtc step w w';
  rn_inv : sys_inv c q w -> sys_inv c q w';
  rn_flight : y_flight w' = y_flight w;
  rn_honest : honest (st_disk (y_store w)) -> honest (st_disk (y_store w'));
  rn_now : db_now (y_db w') = db_now (y_db w);
  rn_busy : db_cleanup_busy (y_db w') = db_cleanup_busy (y_db w)
}.

#[local] Instance ran_preorder : PreOrder ran.
Proof.
  split; [by split|]. intros w1 w2 w3 [A1 A2 A3 A4 A5 A6] [B1 B2 B3 B4 B5 B6].
  split; [by etrans|auto|congruence|auto|congruence|congruence].
Qed.

Lemma ran_step w w' :
  step w w' -> y_flight w' = y_flight w -> (honest (st_disk (y_store w)) -> honest (st_disk (y_store w'))) ->
  db_now (y_db w') = db_now (y_db w) -> db_cleanup_busy (y_db w') = db_cleanup_busy (y_db w) -> ran w w'.
Proof. intros Hs Hf Hh Hn Hb. split; [by apply rtc_once| |done..]. intros I. by eapply sys_step_inv. Qed.

Lemma ran_context w w' x : on_disk ctx_err w = (w', x) -> ran w w' /\ y_db w' = y_db w.
Proof.
  unfold on_disk. destruct (ctx_err _) as [d y] eqn:E. intros [= <- <-]. split; [|done].
  apply ran_step; [|done| |done..].
  - eapply sy_read; [apply quietly_ctx_err|exact E].
  - intros Hh. by eapply honest_ctx_err.
Qed.

Lemma ran_cleanup w w' x :
  sys_inv c q w -> on_db (CleanupExpiredInboxes batch) w = (w', x) ->
  ran w w' /\ queue_kept (y_db w) (y_db w') /\
  forall n orphans, x = Ok (n, orphans) ->
    (1 <= n -> (size (inboxes (y_db w')) < size (inboxes (y_db w)))%nat) /\
    (n < batch -> db_cleanup_busy (y_db w) = false ->
     forall id r, inboxes (y_db w') !! id = Some r -> db_now (y_db w) < in_expires r).
Proof.
  intros I. unfold on_db. destruct (CleanupExpiredInboxes batch (y_db w)) as [d y] eqn:E. intros [= <- <-].
  destruct (cleanup_keeps _ _ _ _ (proj1 (si_db _ _ _ I)) E) as (Q & N & B). split; [|split; [done|]].
  { apply ran_step; [by eapply sy_cleanup|done..]. }
  intros n orphans ->.
  destruct (CleanupExpiredInboxes_Ok q _ _ _ _ _ (si_db _ _ _ I) E) as (_ & _ & ids & (Hrm & _) & -> & _ & _ & Hex & _ & Hlast).
  split; [|intros Hlt Hb; by apply Hlast].
  intros Hn. cbn [y_db]. rewrite Hrm. destruct ids as [|id ids]; [done|]. destruct (Hex id ltac:(by left)) as (r & Hr & _).
  apply map_subset_size. split; [apply map_filter_subseteq|]. intros Hsub. pose proof (lookup_weaken _ _ _ _ Hr Hsub) as Hx.
  apply map_lookup_filter_Some in Hx as [_ Hx]. apply Hx. by left.
Qed.

Lemma cleanup_loop_total fuel w t :
  sys_inv c q w -> (size (inboxes (y_db w)) < fuel)%nat ->
  exists w' n e, cleanup_loop batch fuel w t = Some (w', n, e) /\ ran w w' /\ queue_kept (y_db w) (y_db w') /\
    (e = None -> db_cleanup_busy (y_db w) = false ->
     forall id r, inboxes (y_db w') !! id = Some r -> db_now (y_db w) < in_expires r).
Proof.
  revert w t. induction fuel as [|fuel IH]; intros w t I Hf; [lia|]. cbn [cleanup_loop].
  destruct (on_db (CleanupExpiredInboxes batch) w) as [w1 [[n orphans]|e]] eqn:E1;
    apply ran_cleanup in E1 as (R1 & Q1 & H1); try done.
  2:{ eexists _, _, _. split; [done|]. split; [done|]. split; done. }
  destruct (H1 n orphans eq_refl) as [Hs Hl]. destruct (n <? batch) eqn:En; bool_to_prop.
  { eexists _, _, _. split; [done|]. split; [done|]. split; [done|]. intros _ Hb. by apply Hl. }
  destruct (on_disk ctx_err w1) as [w2 [u|e]] eqn:E2; apply ran_context in E2 as [R2 D2].
  2:{ eexists _, _, _. split; [done|]. split; [by etrans|]. split; [by rewrite D2|done]. }
  destruct (IH w2 (t + n)) as (w' & m & e & Hrun & R3 & Q3 & Hx).
  { apply R2, R1, I. }
  { rewrite D2. specialize (Hs ltac:(lia)). lia. }
  exists w', m, e. split; [done|]. split; [by do 2 (etrans; [done|])|]. rewrite D2 in Q3.
  split; [intros key Hk; by apply Q3, Q1|].
  intros He Hb. assert (db_now (y_db w2) = db_now (y_db w)) as <- by (rewrite D2; apply R1). apply Hx; [done|].
  rewrite D2. etrans; [apply R1|done].
Qed.
(** A key of the queue is settled when its content is in use again or its
    object is gone. *)
Definition settled (w : system) (key : bytes) : Prop :=
  is_Some (contents (y_db w) !! key) \/ forall p, pathForKey c key = Ok p -> read_at (st_disk (y_store w)) p = None.

Lemma deleteLocked_absent ref d d' r p : disk_ok c d -> deleteLocked c ref d = (d', r) -> read_at d p = None -> read_at d' p = None.
Proof.
  intros Hok. unfold deleteLocked. destruct (pathForKey c (Key ref)) as [po|e]; [|by intros [= <- <-]].
  destruct (remove po d) as [d1 r1] eqn:E1. apply (remove_object c) in E1 as (_ & I1 & _ & H1); [|done].
  assert (read_at d p = None -> read_at d1 p = None) as H2.
  { unfold read_at. rewrite I1. destruct H1 as [[-> _]|[-> _]]; [done|].
    destruct (decide (p = po)) as [->|]; [by rewrite lookup_delete_eq|by rewrite lookup_delete_ne]. }
  destruct r1 as [u|e]; [|destruct (errors_is e _); intros [= <- <-]; exact H2].
  unfold wrap. destruct (syncDirectory (dir po) d1) as [d2 r2] eqn:E2. apply looks_syncDirectory in E2 as (I2 & _ & T2).
  intros Hd. assert (d' = d2) as -> by (destruct r2; congruence). unfold read_at in *. by rewrite T2, I2.
Qed.

(** One queued object. *)
Lemma reclaim_one w ref :
  sys_inv c q w -> honest (st_disk (y_store w)) -> y_flight w = [] ->
  exists s x, DeleteUnreferenced c (y_store w) ref (reference_check w) = Some (s, x) /\
  let w' := Sys s (ContentReferenced (Key ref) (y_db w)).1 (y_flight w) in
  ran w w' /\ same_tables (y_db w) (y_db w') /\ (forall key, settled w key -> settled w' key) /\
  (is_ok x = true -> settled w' (Key ref)).
Proof.
  intros I Hh Hf. pose proof (si_leases _ _ _ I) as Hl. rewrite Hf in Hl.
  destruct (DeleteUnreferenced c (y_store w) ref (reference_check w)) as [[s x]|] eqn:E;
    [|unfold DeleteUnreferenced in E; by rewrite Hl in E].
  exists s, x. split; [done|]. cbn zeta. destruct (ContentReferenced (Key ref) (y_db w)) as [dx y] eqn:Eq.
  assert (same_tables (y_db w) dx /\ db_cleanup_busy dx = db_cleanup_busy (y_db w)) as [S B].
  { split; [unfold ContentReferenced in Eq; by apply query_inv in Eq as (? & _)|by eapply busy_query]. }
  assert (forall b, y = Ok b -> b = bool_decide (is_Some (contents (y_db w) !! Key ref))) as Hy.
  { intros b ->. unfold ContentReferenced in Eq. apply query_inv in Eq as (_ & _ & [[= Hb]|[e [=]]]).
    by rewrite Hb, (sm_contents _ _ S). }
  assert ((honest (st_disk s)) /\ (forall p, read_at (st_disk (y_store w)) p = None -> read_at (st_disk s) p = None) /\
    (is_ok x = true -> is_Some (contents (y_db w) !! Key ref) \/ forall p, pathForKey c (Key ref) = Ok p -> read_at (st_disk s) p = None))
    as (Hs & Habs & Hset).
  { revert E. unfold DeleteUnreferenced, reference_check. rewrite Hl, Eq. cbn [snd]. intros [= E].
    destruct y as [[|]|e]; [injection E as <- <-| |by injection E as <- <-].
    { split; [done|]. split; [done|]. intros _. left. specialize (Hy true eq_refl). symmetry in Hy. by bool_to_prop. }
    destruct (deleteLocked c ref (st_disk (y_store w))) as [dd r] eqn:Ed.
    pose proof (honest_deleteLocked _ _ _ _ _ Ed Hh) as Hh'.
    destruct r as [[]|e]; injection E as <- <-; cbn [st_disk with_disk]; (split; [done|]);
      (split; [intros p; eapply deleteLocked_absent; [apply I|done]|]); [|done].
    intros _. right. eapply deleteLocked_gone; [apply I|done|done]. }
  cbn [fst]. split; [|split; [done|split]].
  - apply ran_step; [|done|done|apply S|done]. replace dx with (ContentReferenced (Key ref) (y_db w)).1 by (by rewrite Eq).
    by eapply sy_reclaim.
  - intros key [Hk|Hk]; [left; cbn; by rewrite (sm_contents _ _ S)|right; cbn; intros p Hp; by apply Habs, Hk].
  - intros Hx. destruct (Hset Hx) as [Hk|Hk]; [left; cbn; by rewrite (sm_contents _ _ S)|by right].
Qed.

Lemma busy_acknowledge key g : keeps_busy (AcknowledgeContentDeletion key g).
Proof.
  unfold AcknowledgeContentDeletion. destruct (g <=? 0); [by intros d d' r [= <- <-]|].
  apply busy_dbind; [apply busy_statement|]. intros _ d d' r. destruct (deletions d !! key) as [row|]; [|by intros [= <- <-]].
  destruct (_ =? _); by intros [= <- <-].
Qed.

Lemma ack_one w w' key g x :
  on_db (AcknowledgeContentDeletion key g) w = (w', x) ->
  ran w w' /\ contents (y_db w') = contents (y_db w) /\ inboxes (y_db w') = inboxes (y_db w) /\ y_store w' = y_store w /\
  (deletions (y_db w') = deletions (y_db w) \/ deletions (y_db w') = delete key (deletions (y_db w))) /\
  (is_ok x = true -> forall r, deletions (y_db w) !! key = Some r -> dl_generation r = g ->
    deletions (y_db w') = delete key (deletions (y_db w))).
Proof.
  unfold on_db. destruct (AcknowledgeContentDeletion key g (y_db w)) as [d y] eqn:E. intros [= <- <-].
  pose proof (busy_acknowledge _ _ _ _ _ E) as B.
  assert (db_now d = db_now (y_db w) /\ contents d = contents (y_db w) /\ inboxes d = inboxes (y_db w) /\
    (deletions d = deletions (y_db w) \/ deletions d = delete key (deletions (y_db w))) /\
    (is_ok y = true -> forall r, deletions (y_db w) !! key = Some r -> dl_generation r = g ->
      deletions d = delete key (deletions (y_db w)))) as (N & Hc & Hi & Hd & Hx).
  { revert E. unfold AcknowledgeContentDeletion. destruct (g <=? 0); [intros [= <- <-]; do 3 (split; [done|]); split; [by left|done]|].
    intros [(d1 & u & E & Hx)|(e & E & ->)]%dbind_inv; apply statement_same in E as [[E1 E2 E3 E4 E5 E6 E7 E8] _];
      [|rewrite E1, E2, E6, E8; do 3 (split; [done|]); split; [by left|done]].
    rewrite <- E1, <- E2, <- E6, <- E8. destruct (deletions d1 !! key) as [r|] eqn:Er; 
      [|injection Hx as <- <-; do 3 (split; [done|]); split; [by left|]; by intros _ r'].
    destruct (dl_generation r =? g) eqn:Eg; injection Hx as <- <-; cbn; (do 3 (split; [done|])); [auto|].
    split; [by left|]. intros _ r' [= <-] Hg. bool_to_prop. lia. }
  split; [|done]. apply ran_step; [by eapply sy_acknowledge|done..].
Qed.

Definition queued (d : db) (x : ContentDeletion) : Prop :=
  exists r, deletions d !! Key (cd_Content x) = Some r /\ dl_generation r = Generation x.

Lemma reclaim_loop_total l w t errs :
  sys_inv c q w -> honest (st_disk (y_store w)) -> y_flight w = [] ->
  exists w' n errs', reclaim_loop c l w t errs = Some (w', n, errs') /\ ran w w' /\
    inboxes (y_db w') = inboxes (y_db w) /\ contents (y_db w') = contents (y_db w) /\
    (forall key, settled w key -> settled w' key) /\
    (forall key, is_Some (deletions (y_db w) !! key) -> deletions (y_db w') !! key = None -> settled w' key) /\
    (errs' = [] -> errs = [] /\ (NoDup ((Key ∘ cd_Content) <$> l) -> Forall (queued (y_db w)) l ->
      (size (deletions (y_db w')) + length l = size (deletions (y_db w)))%nat)).
Proof.
  revert w t errs. induction l as [|x l IH]; intros w t errs I Hh Hf; cbn [reclaim_loop].
  { exists w, t, errs. split; [done|]. split; [done|]. do 3 (split; [done|]). split; [intros key [? ->]; done|].
    intros ->. split; [done|]. intros _ _. cbn. lia. }
  destruct (reclaim_one w (cd_Content x) I Hh Hf) as (s & r & -> & R1 & S1 & M1 & Hset1).
  set (w1 := Sys s _ _) in *. pose proof (rn_inv _ _ R1 I) as I1. pose proof (rn_honest _ _ R1 Hh) as Hh1.
  pose proof (rn_flight _ _ R1) as Hf1. rewrite Hf in Hf1. destruct r as [b|e].
  2:{ destruct (IH w1 t (errs ++ [EWrap "delete queued Raw MIME" e]) I1 Hh1 Hf1) as (w' & n & errs' & Hrun & R2 & Hi & Hc & Hm & Hgone & Herr).
      exists w', n, errs'. split; [done|]. split; [by etrans|]. rewrite Hi, Hc, (sm_inboxes _ _ S1), (sm_contents _ _ S1).
      do 2 (split; [done|]). split; [by auto|]. split; [by rewrite <- (sm_deletions _ _ S1)|].
      intros He. destruct (Herr He) as [Hnil _]. by destruct errs. }
  destruct (on_db _ w1) as [w2 y] eqn:E2. apply ack_one in E2 as (R2 & Hc2 & Hi2 & Hst2 & Hd2 & Hx2).
  pose proof (rn_inv _ _ R2 I1) as I2. pose proof (rn_honest _ _ R2 Hh1) as Hh2. pose proof (rn_flight _ _ R2) as Hf2. rewrite Hf1 in Hf2.
  assert (forall key, settled w1 key -> settled w2 key) as M2 by (unfold settled; by rewrite Hc2, Hst2).
  assert (forall t' errs1, (errs1 = [] -> errs = [] /\ is_ok y = true) -> exists w' n errs', reclaim_loop c l w2 t' errs1 = Some (w', n, errs') /\ ran w w' /\
    inboxes (y_db w') = inboxes (y_db w) /\ contents (y_db w') = contents (y_db w) /\
    (forall key, settled w key -> settled w' key) /\
    (forall key, is_Some (deletions (y_db w) !! key) -> deletions (y_db w') !! key = None -> settled w' key) /\
    (errs' = [] -> errs = [] /\ (NoDup ((Key ∘ cd_Content) <$> x :: l) -> Forall (queued (y_db w)) (x :: l) ->
      (size (deletions (y_db w')) + length (x :: l) = size (deletions (y_db w)))%nat))) as Hgo.
  { intros t' errs1 Herr1. destruct (IH w2 t' errs1 I2 Hh2 Hf2) as (w' & n & errs' & Hrun & R3 & Hi & Hc & Hm & Hgone & Herr).
    exists w', n, errs'. split; [done|]. split; [by do 2 (etrans; [done|])|].
    rewrite Hi, Hc, Hi2, Hc2, (sm_inboxes _ _ S1), (sm_contents _ _ S1). do 2 (split; [done|]). split; [by auto|].
    split.
    - intros key Hk Hn. rewrite <- (sm_deletions _ _ S1) in Hk. destruct (deletions (y_db w2) !! key) eqn:Ek; [eapply Hgone; by eauto|].
      apply Hm, M2. destruct Hd2 as [Ed|Ed]; rewrite Ed in Ek; [destruct Hk; congruence|].
      apply lookup_delete_None in Ek as [<-|Ek]; [by apply Hset1|destruct Hk; congruence].
    - intros He. destruct (Herr He) as [E1 Hsz]. destruct (Herr1 E1) as [-> Hoky]. split; [done|].
      rewrite fmap_cons, NoDup_cons, Forall_cons. intros [Hni Hnd] [(row & Hrow & Hg) Hq]. cbn in Hni.
      rewrite <- (sm_deletions _ _ S1) in Hrow |- *. specialize (Hx2 Hoky row Hrow Hg).
      assert (Forall (queued (y_db w2)) l) as Hq2.
      { rewrite Forall_forall in Hq |- *. intros z Hz. destruct (Hq z Hz) as (rz & Hrz & Hgz). exists rz. split; [|done].
        rewrite Hx2, lookup_delete_ne; [by rewrite <- (sm_deletions _ _ S1) in Hrz|].
        intros Heq. apply Hni, list_elem_of_fmap. by exists z. }
      specialize (Hsz Hnd Hq2). rewrite Hx2, map_size_delete_Some in Hsz by eauto. cbn [length].
      assert (size (deletions (y_db w1)) <> 0%nat); [|lia]. intros H0%map_size_empty_inv. by rewrite H0, lookup_empty in Hrow. }
  destruct y as [a|e]; apply Hgo; [done|]. intros He. by destruct errs.
Qed.

(** The page of the queue [ListContentDeletions] returns. *)
Lemma list_page d d' l :
  ListContentDeletions batch d = (d', Ok l) ->
  same_tables d d' /\ NoDup ((Key ∘ cd_Content) <$> l) /\ Forall (queued d) l /\
  length l = Nat.min (Z.to_nat batch) (size (deletions d)).
Proof.
  unfold ListContentDeletions. destruct (_ || _); [done|].
  intros (S & _ & [[= ->]|[e [=]]])%query_inv. split; [done|]. rewrite (sm_deletions _ _ S).
  set (f := λ kv : bytes * deletion_row, _). set (m := merge_sort queue_le (map_to_list (deletions d))).
  assert (m ≡ₚ map_to_list (deletions d)) as HP by apply merge_sort_Permutation.
  assert ((Key ∘ cd_Content) <$> (f <$> m) = m.*1) as Hk by (rewrite <- list_fmap_compose; by apply list_fmap_ext).
  split; [|split].
  - rewrite fmap_take, Hk. eapply sublist_NoDup; [|apply sublist_take]. rewrite HP. apply NoDup_fst_map_to_list.
  - apply Forall_take, Forall_fmap, Forall_forall. intros [k r] Hin. rewrite HP in Hin. exists r. cbn.
    split; [by apply elem_of_map_to_list|done].
  - rewrite length_take, length_fmap, HP, length_map_to_list. done.
Qed.

Lemma busy_list n : keeps_busy (ListContentDeletions n).
Proof. unfold ListContentDeletions. destruct (_ || _); [by intros d d' r [= <- <-]|apply busy_query]. Qed.

Lemma ran_query A (m : DB A) w w' x :
  keeps_busy m -> (forall d d' y, m d = (d', y) -> same_tables d d') -> on_db m w = (w', x) ->
  ran w w' /\ same_tables (y_db w) (y_db w') /\ y_store w' = y_store w.
Proof.
  intros Hb Hs. unfold on_db. destruct (m (y_db w)) as [d y] eqn:E. intros [= <- <-].
  pose proof (Hs _ _ _ E) as S. split; [|done]. apply ran_step; [by apply sy_query|done|done|apply S|by eapply Hb].
Qed.

Lemma list_same n d d' y : ListContentDeletions n d = (d', y) -> same_tables d d'.
Proof. unfold ListContentDeletions. destruct (_ || _); [by intros [= <- <-]|]. by intros (? & _)%query_inv. Qed.

Lemma count_same d d' y : CountContentDeletions d = (d', y) -> same_tables d d'.
Proof. by intros (? & _)%query_inv. Qed.

Lemma settled_same w w' key : same_tables (y_db w) (y_db w') -> y_store w' = y_store w -> settled w key -> settled w' key.
Proof. intros S E. unfold settled. by rewrite E, (sm_contents _ _ S). Qed.

Lemma join_None l : errors_join l = None -> l = [].
Proof. by destruct l. Qed.

End Facts.

(** ** The demo mailbox an hour after it expired *)

Module Expired.
Definition later (t : Z) (w : system) : system := Sys (y_store w) (set_now (y_db w) t) (y_flight w).

Lemma later_inv c q t w : sys_inv c q w -> sys_inv c q (later t w).
Proof. intros [I1 I2 I3 I4 I5]. split; [done|by apply set_now_healthy|done..]. Qed.

Definition late : system := later (DeliveryRepo.Demo.now + 7200000000000) Live.final.

Lemma final_inv : sys_inv Live.cfg Live.limits Live.final.
Proof. exact (proj1 (sys_simulated Live.cfg Live.limits (λ _, true) _ _ ∅ Live.limit_ok Live.final_reached Live.start_inv Live.start_mirrors)). Qed.

Lemma late_inv : sys_inv Live.cfg Live.limits late.
Proof. exact (later_inv _ _ _ _ final_inv). Qed.

Lemma late_honest : honest (st_disk (y_store late)).
Proof. apply honest_calm. vm_compute. reflexivity. Qed.

(** The sweep removes the inbox and, with it, the stored object. *)
Lemma late_sweep : option_map (λ x, (x.1.2, x.2)) (Sweep Live.cfg 10 late) = Some (MkRetentionSummary 1 1 0, None).
Proof. vm_compute. reflexivity. Qed.

Lemma late_free : db_cleanup_busy (y_db late) = false.
Proof. vm_compute. reflexivity. Qed.

Lemma outcome_inv {A B C} (o : option (A * B * C)) w b x b' x' :
  o = Some (w, b, x) -> option_map (λ x, (x.1.2, x.2)) o = Some (b', x') -> b = b' /\ x = x'.
Proof. intros ->. by intros [= -> ->]. Qed.
End Expired.

