(* ===== verification/Token.v ===== *)
(** * Canonical tokens: [internal/auth/token.go]

    Token grammar, generation, strict parsing, encoding and the
    domain-separated digest stored instead of the plaintext. *)

From S2P Require Import Prelude GoStrings Errors Codec.

Definition tokenPrefix : bytes := str "wisp_".
Definition tokenVersion : bytes := str "v1".
Definition kidBytes : Z := 12.
Definition kidEncodedBytes : Z := kidBytes * 2.
Definition secretBytes : Z := 32.
Definition secretEncodedBytes : Z := 43.
Definition digestDomain : bytes := str "mailwisp-token-v1" ++ [("000"%char)].

(** [TokenType] is a string type with four valid values. *)
Definition TokenPersonalAccess : bytes := str "pat".
Definition TokenCapability : bytes := str "cap".
Definition TokenSession : bytes := str "ses".
Definition TokenWebhookSecret : bytes := str "whsec".

Definition token_type_valid (t : bytes) : bool :=
  bool_decide (t ∈ [TokenPersonalAccess; TokenCapability; TokenSession; TokenWebhookSecret]).

(** [Token]; [t_secret] is the array of [secretBytes] bytes. *)
Record Token := MkToken { t_type : bytes; t_kid : bytes; t_secret : bytes }.

#[global] Instance Token_eq_dec : EqDecision Token.
Proof. solve_decision. Defined.

Definition rune_lower_hex (g : seg) : bool :=
  ((48 <=? seg_rune g) && (seg_rune g <=? 57)) || ((97 <=? seg_rune g) && (seg_rune g <=? 102)).

Definition isLowerHex (value : bytes) : bool :=
  if negb (zlen value =? kidEncodedBytes) then false
  else forallb rune_lower_hex (runes value).

Definition rune_base64url (g : seg) : bool :=
  ((65 <=? seg_rune g) && (seg_rune g <=? 90)) || ((97 <=? seg_rune g) && (seg_rune g <=? 122))
  || ((48 <=? seg_rune g) && (seg_rune g <=? 57)) || (seg_rune g =? 45) || (seg_rune g =? 95).

Definition isBase64URL (value : bytes) : bool :=
  if negb (zlen value =? secretEncodedBytes) then false
  else forallb rune_base64url (runes value).

(** [io.ReadFull(random, buf[:n])]: the bytes and the rest of the source. *)
Definition read_full (random : bytes) (n : Z) : option (bytes * bytes) :=
  if zlen random <? n then None
  else Some (take (Z.to_nat n) random, drop (Z.to_nat n) random).

Definition generateToken (tokenType random : bytes) : res (Token * bytes) :=
  if negb (token_type_valid tokenType) then Err (EWrap "unsupported type" ErrInvalidToken)
  else match read_full random kidBytes with
  | None => Err (EWrap "generate token kid" (ENew "unexpected EOF"))
  | Some (kid, random) =>
    match read_full random secretBytes with
    | None => Err (EWrap "generate token secret" (ENew "unexpected EOF"))
    | Some (secret, random) => Ok (MkToken tokenType (hex_encode kid) secret, random)
    end
  end.

Definition ParseToken (plaintext : bytes) : res Token :=
  if negb (has_prefix plaintext tokenPrefix) then Err (ESentinel ErrInvalidToken)
  else
    let remainder := trim_prefix plaintext tokenPrefix in
    match index_byte remainder "_"%char with
    | None | Some O => Err (ESentinel ErrInvalidToken)
    | Some typeEnd =>
      let tokenType := take typeEnd remainder in
      if negb (token_type_valid tokenType) then Err (ESentinel ErrInvalidToken)
      else
        let remainder := drop (S typeEnd) remainder in
        let versionPrefix := tokenVersion ++ [("_"%char)] in
        if negb (has_prefix remainder versionPrefix) then Err (ESentinel ErrInvalidToken)
        else
          let remainder := trim_prefix remainder versionPrefix in
          if negb (zlen remainder =? kidEncodedBytes + 1 + secretEncodedBytes)
             || negb (bool_decide (remainder !! Z.to_nat kidEncodedBytes = Some "_"%char))
          then Err (ESentinel ErrInvalidToken)
          else
            let kid := take (Z.to_nat kidEncodedBytes) remainder in
            if negb (isLowerHex kid) then Err (ESentinel ErrInvalidToken)
            else
              let encodedSecret := drop (S (Z.to_nat kidEncodedBytes)) remainder in
              if negb (isBase64URL encodedSecret) then Err (ESentinel ErrInvalidToken)
              else match b64_decode true encodedSecret with
              | None => Err (ESentinel ErrInvalidToken)
              | Some decodedSecret =>
                if negb (zlen decodedSecret =? secretBytes) then Err (ESentinel ErrInvalidToken)
                else Ok (MkToken tokenType kid decodedSecret)
              end
    end.

(** [Token.Encode] *)
Definition Encode (t : Token) : res bytes :=
  if negb (token_type_valid (t_type t)) || negb (zlen (t_kid t) =? kidEncodedBytes)
     || negb (isLowerHex (t_kid t))
  then Err (ESentinel ErrInvalidToken)
  else
    let encodedSecret := b64_encode (t_secret t) in
    if negb (zlen encodedSecret =? secretEncodedBytes) then Err (ESentinel ErrInvalidToken)
    else Ok (tokenPrefix ++ t_type t ++ str "_" ++ tokenVersion ++ str "_" ++ t_kid t
             ++ str "_" ++ encodedSecret).

(** What [Token.Digest] feeds to the hash. *)
Definition digest_input (t : Token) : bytes :=
  digestDomain ++ t_type t ++ [("000"%char)] ++ t_kid t ++ [("000"%char)] ++ t_secret t.

Definition Digest (t : Token) : res bytes :=
  if negb (token_type_valid (t_type t)) || negb (zlen (t_kid t) =? kidEncodedBytes)
     || negb (isLowerHex (t_kid t))
  then Err (ESentinel ErrInvalidToken)
  else Ok (sha256 (digest_input t)).

(** [EqualDigest]: [subtle.ConstantTimeCompare] on two arrays of equal size. *)
Definition EqualDigest (first second : bytes) : bool := bool_decide (first = second).

(** ** Lemmas *)

(** A token value the package's own constructors can produce. *)
Definition token_wf (t : Token) : Prop :=
  token_type_valid (t_type t) = true /\ isLowerHex (t_kid t) = true /\ zlen (t_secret t) = secretBytes.

Lemma has_prefix_inv s p : has_prefix s p = true -> s = p ++ drop (length p) s.
Proof.
  revert s. induction p as [|c p IH]; intros s; [by rewrite drop_0|].
  destruct s as [|d s]; [done|]. cbn. intros H. bool_to_prop. subst. f_equal. by apply IH.
Qed.

Lemma index_byte_inv s c i : index_byte s c = Some i ->
  s = take i s ++ c :: drop (S i) s /\ c ∉ take i s.
Proof.
  revert i. induction s as [|d s IH]; intros i; [done|]. cbn.
  destruct (bool_decide (d = c)) eqn:E; bool_to_prop.
  - intros [= <-]. subst. cbn. rewrite drop_0. split; [done|]. apply not_elem_of_nil.
  - destruct (index_byte s c) as [j|]; [|done]. intros [= <-].
    destruct (IH j eq_refl) as [H1 H2]. cbn. split; [by f_equal|].
    rewrite not_elem_of_cons. split; [congruence|done].
Qed.

Lemma token_type_no_underscore t : token_type_valid t = true -> ("_"%char ∉ t) /\ t <> [].
Proof.
  unfold token_type_valid. intros H. bool_to_prop.
  rewrite !elem_of_cons, elem_of_nil in H.
  destruct_or!; subst; try done; (split; [by apply (bool_decide_unpack _)|done]).
Qed.

Lemma token_type_no_nul t : token_type_valid t = true -> "000"%char ∉ t.
Proof.
  unfold token_type_valid. intros H. bool_to_prop.
  rewrite !elem_of_cons, elem_of_nil in H.
  destruct_or!; subst; try done; by apply (bool_decide_unpack _).
Qed.

Lemma isLowerHex_length v : isLowerHex v = true -> zlen v = kidEncodedBytes.
Proof. unfold isLowerHex. destruct (_ =? _) eqn:E; [|done]. by bool_to_prop. Qed.

Lemma forallb_runes_ascii (p : Z -> bool) s :
  (forall r, p r = true -> r < 128) ->
  forallb (λ g, p (seg_rune g)) (runes s) = forallb (λ c, p (code c)) s && forallb is_ascii s.
Proof.
  intros Hp. destruct (forallb is_ascii s) eqn:E.
  - rewrite runes_ascii by done. rewrite andb_true_r. clear E.
    induction s as [|c s IH]; [done|]. cbn. by rewrite IH.
  - rewrite andb_false_r. destruct (forallb _ (runes s)) eqn:E2; [|done].
    rewrite runes_small in E; [done|]. rewrite forallb_forall in E2 |- *.
    intros g Hg. apply Z.ltb_lt, Hp. by apply E2.
Qed.

Lemma isLowerHex_hex_encode s : zlen s = kidBytes -> isLowerHex (hex_encode s) = true.
Proof.
  intros Hs. unfold isLowerHex.
  rewrite (proj2 (Z.eqb_eq _ _)).
  2: { unfold zlen in *. rewrite length_hex_encode. unfold kidEncodedBytes. lia. }
  cbn [negb]. rewrite runes_ascii.
  - pose proof (hex_encode_lower s) as H. induction (hex_encode s) as [|c l IH]; [done|].
    cbn in H |- *. apply andb_true_iff in H as [Hc H]. by rewrite IH, andb_true_r.
  - pose proof (hex_encode_lower s) as H. rewrite forallb_forall in *. intros c Hc.
    specialize (H c Hc). unfold lower_hex, in_range, is_ascii in *.
    apply Z.ltb_lt. rewrite orb_true_iff, !andb_true_iff, !Z.leb_le in H. lia.
Qed.

Lemma isBase64URL_b64_encode s : zlen s = secretBytes -> isBase64URL (b64_encode s) = true.
Proof.
  intros Hs. unfold isBase64URL. rewrite length_b64_encode, Hs. cbn [negb].
  change (negb ((secretBytes * 4 + 2) / 3 =? secretEncodedBytes)) with false. cbn match.
  clear Hs.
  assert (forall n, 0 <= n < 64 -> (λ c, rune_base64url (ascii_seg c) && is_ascii c) (b64_char n) = true) as Hc.
  { intros n Hn.
    assert (forallb (λ k, rune_base64url (ascii_seg (b64_char (Z.of_nat k))) && is_ascii (b64_char (Z.of_nat k))) (seq 0 64) = true) as H
      by (vm_compute; reflexivity).
    rewrite forallb_forall in H. specialize (H (Z.to_nat n) ltac:(apply in_seq; lia)).
    by rewrite Z2Nat.id in H by lia. }
  assert (forallb (λ c, rune_base64url (ascii_seg c) && is_ascii c) (b64_encode s) = true) as H.
  { induction s as [|a|a b|a b c s IH] using list_ind3; cbn [b64_encode forallb]; [done|..];
      code_facts; rewrite !Hc by div_mod_lia; rewrite ?IH; done. }
  rewrite runes_ascii.
  - induction (b64_encode s) as [|c l IH]; [done|]. cbn in H |- *.
    apply andb_true_iff in H as [[Hx _]%andb_true_iff H]. by rewrite IH, andb_true_r.
  - rewrite forallb_forall in *. intros c Hx. specialize (H c Hx). by apply andb_true_iff in H as [_ H].
Qed.

Lemma b64url_no_newline s : isBase64URL s = true -> forallb (λ c, negb (newline c)) s = true.
Proof.
  unfold isBase64URL. destruct (negb _); [done|]. intros H.
  unfold rune_base64url in H.
  rewrite (forallb_runes_ascii (λ r, ((65 <=? r) && (r <=? 90)) || ((97 <=? r) && (r <=? 122))
    || ((48 <=? r) && (r <=? 57)) || (r =? 45) || (r =? 95))) in H.
  2: { intros r. rewrite !orb_true_iff, !andb_true_iff, !Z.leb_le, !Z.eqb_eq. lia. }
  apply andb_true_iff in H as [H _]. rewrite forallb_forall in *. intros c Hc. specialize (H c Hc).
  rewrite !orb_true_iff, !andb_true_iff, !Z.leb_le, !Z.eqb_eq in H. unfold newline.
  apply negb_true_iff, orb_false_iff. rewrite !Z.eqb_neq. lia.
Qed.

Lemma Encode_wf t : token_wf t ->
  Encode t = Ok (tokenPrefix ++ t_type t ++ str "_" ++ tokenVersion ++ str "_" ++ t_kid t
                 ++ str "_" ++ b64_encode (t_secret t)).
Proof.
  intros (Ht & Hk & Hs). unfold Encode.
  rewrite Ht, Hk, (isLowerHex_length _ Hk), length_b64_encode, Hs. done.
Qed.

Lemma ParseToken_parts t : token_wf t ->
  ParseToken (tokenPrefix ++ t_type t ++ str "_" ++ tokenVersion ++ str "_" ++ t_kid t
              ++ str "_" ++ b64_encode (t_secret t)) = Ok t.
Proof.
  intros (Ht & Hk & Hs). unfold ParseToken.
  rewrite has_prefix_app, trim_prefix_app. cbn [negb].
  destruct (token_type_no_underscore _ Ht) as [Hu Hne].
  pose proof (isLowerHex_length _ Hk) as Hkl.
  set (tail := tokenVersion ++ str "_" ++ _).
  change (t_type t ++ str "_" ++ tail) with (t_type t ++ "_"%char :: tail).
  rewrite index_byte_found by done.
  destruct (length (t_type t)) as [|n] eqn:El; [by destruct (t_type t)|].
  rewrite <- El, take_app_length, Ht. cbn [negb].
  replace (S (length (t_type t))) with (length (t_type t ++ [("_"%char)])) by (rewrite length_app; cbn; lia).
  change ("_"%char :: tail) with ([("_"%char)] ++ tail). rewrite app_assoc, drop_app_length.
  unfold tail. change (tokenVersion ++ str "_" ++ t_kid t ++ str "_" ++ b64_encode (t_secret t))
    with ((tokenVersion ++ [("_"%char)]) ++ (t_kid t ++ "_"%char :: b64_encode (t_secret t))).
  rewrite has_prefix_app, trim_prefix_app. cbn [negb].
  rewrite zlen_app, zlen_cons, length_b64_encode, Hs, Hkl.
  change (negb (kidEncodedBytes + (1 + (secretBytes * 4 + 2) / 3) =? kidEncodedBytes + 1 + secretEncodedBytes)) with false.
  assert (Z.to_nat kidEncodedBytes = length (t_kid t)) as -> by (unfold zlen in Hkl; lia).
  rewrite lookup_app_r, Nat.sub_diag by lia. cbn [lookup list_lookup].
  rewrite bool_decide_eq_true_2 by done. cbn [negb orb]. rewrite take_app_length, Hk. cbn [negb].
  replace (S (length (t_kid t))) with (length (t_kid t ++ [("_"%char)])) by (rewrite length_app; cbn; lia).
  change ("_"%char :: b64_encode (t_secret t)) with ([("_"%char)] ++ b64_encode (t_secret t)).
  rewrite app_assoc, drop_app_length, isBase64URL_b64_encode by done. cbn [negb].
  rewrite b64_decode_encode, Hs. cbn. by destruct t.
Qed.

Lemma ParseToken_inv p t : ParseToken p = Ok t ->
  token_wf t /\ p = tokenPrefix ++ t_type t ++ str "_" ++ tokenVersion ++ str "_" ++ t_kid t
                    ++ str "_" ++ b64_encode (t_secret t).
Proof.
  unfold ParseToken. intros H.
  destruct (has_prefix p tokenPrefix) eqn:E1; [|done]. cbn [negb] in H.
  apply has_prefix_inv in E1. rewrite E1 in H |- *. rewrite trim_prefix_app in H.
  set (r := drop _ p) in *. clearbody r. clear E1.
  destruct (index_byte r "_") as [[|i]|] eqn:E2; [done| |done].
  apply index_byte_inv in E2 as [E2 _]. if_in H E3; [done|].
  if_in H E4; [done|]. bool_to_prop. apply has_prefix_inv in E4.
  set (ty := take (S i) r) in *. set (r1 := drop (S (S i)) r) in *. clearbody ty r1. subst r.
  rewrite E4 in H |- *. rewrite trim_prefix_app in H. set (r2 := drop _ r1) in *. clearbody r2. clear E4.
  if_in H E5; [done|]. apply orb_false_iff in E5 as [E5 E6]. bool_to_prop.
  if_in H E7; [done|]. if_in H E8; [done|]. bool_to_prop.
  set (n := Z.to_nat kidEncodedBytes) in *.
  pose proof (take_drop_middle _ _ _ E6) as Hr2.
  set (kid := take n r2) in *. set (sec := drop (S n) r2) in *. clearbody kid sec. subst r2.
  destruct (b64_decode true sec) as [secret|] eqn:E9; [|done].
  if_in H E10; [done|]. injection H as <-. bool_to_prop. cbn [t_type t_kid t_secret].
  split; [by repeat split|].
  unfold b64_decode in E9. rewrite no_newline_filter in E9 by by apply b64url_no_newline.
  apply b64_encode_quanta in E9. rewrite E9. done.
Qed.

Lemma split_at_byte (c : ascii) (a1 a2 r1 r2 : bytes) :
  c ∉ a1 -> c ∉ a2 -> a1 ++ c :: r1 = a2 ++ c :: r2 -> a1 = a2 /\ r1 = r2.
Proof.
  intros H1 H2 H. pose proof (cut_found a1 c r1 H1) as E. rewrite H, cut_found in E by done.
  by simplify_eq.
Qed.

(** ** Properties *)

(** The token grammar is canonical.  Every well-formed token has a
    plaintext, and a string parses to a token exactly when the token is
    well-formed and the string is its encoding: parsing inverts encoding, and
    two different strings never denote the same credential. *)
Theorem token_roundtrip (p : bytes) (t : Token) :
  (token_wf t -> exists p, Encode t = Ok p) /\ (ParseToken p = Ok t <-> token_wf t /\ Encode t = Ok p).
Proof.
  split; [intros Ht; eexists; by apply Encode_wf|]. split.
  - intros [Hw ->]%ParseToken_inv. split; [done|by apply Encode_wf].
  - intros [Hw He]. rewrite Encode_wf in He by done. injection He as <-. by apply ParseToken_parts.
Qed.

Lemma token_example :
  ParseToken (str "wisp_cap_v1_0123456789abcdef01234567_YWFhYWFhYWFhYWFhYWFhYWFhYWFhYWFhYWFhYWFhYWE") =
  Ok (MkToken TokenCapability (str "0123456789abcdef01234567") (replicate 32 "a"%char)).
Proof. vm_compute. reflexivity. Qed.

(** Token generation needs 44 random bytes and then always yields a
    well-formed token of the requested type; it uses each byte once. *)
Lemma generateToken_wf (ty random : bytes) :
  token_type_valid ty = true -> kidBytes + secretBytes <= zlen random ->
  exists t rest, generateToken ty random = Ok (t, rest) /\ token_wf t /\ t_type t = ty /\
    random = take 12 random ++ t_secret t ++ rest /\ hex_decode (t_kid t) = Some (take 12 random).
Proof.
  intros Ht Hr. unfold generateToken, read_full. rewrite Ht. cbn [negb].
  change (Z.to_nat kidBytes) with 12%nat. change (Z.to_nat secretBytes) with 32%nat.
  unfold kidBytes, secretBytes in *.
  rewrite (proj2 (Z.ltb_ge _ _)) by lia.
  rewrite (proj2 (Z.ltb_ge (zlen (drop 12 random)) _)) by (unfold zlen in *; rewrite length_drop; lia).
  eexists _, _. split; [reflexivity|]. cbn [t_type t_kid t_secret].
  split; [|split; [done|split]].
  - split; [done|]. split.
    + apply isLowerHex_hex_encode. unfold zlen in *. rewrite length_take. unfold kidBytes. lia.
    + unfold zlen in *. cbn [t_secret]. rewrite length_take, length_drop. unfold secretBytes. lia.
  - by rewrite !take_drop.
  - apply hex_decode_encode.
Qed.

Lemma generateToken_wf_witness :
  exists t rest, generateToken TokenCapability (replicate 50 "z"%char) = Ok (t, rest) /\ token_wf t /\
    t_type t = TokenCapability /\
    replicate 50 "z"%char = take 12 (replicate 50 "z"%char) ++ t_secret t ++ rest /\
    hex_decode (t_kid t) = Some (take 12 (replicate 50 "z"%char)).
Proof. apply generateToken_wf; vm_compute; [reflexivity|discriminate]. Defined.

(** The stored digest separates credentials: two well-formed tokens with
    the same hash input are the same token, so only a SHA-256 collision can
    make one credential verify as another. *)
Theorem digest_input_injective (t1 t2 : Token) :
  token_wf t1 -> token_wf t2 -> digest_input t1 = digest_input t2 -> t1 = t2.
Proof.
  intros (Ht1 & Hk1 & Hs1) (Ht2 & Hk2 & Hs2) H. unfold digest_input in H.
  apply app_inv_head in H.
  apply (split_at_byte "000"%char (t_type t1) (t_type t2)) in H as [Hty H];
    [|by apply token_type_no_nul..].
  apply isLowerHex_length in Hk1, Hk2.
  apply app_inj_1 in H as [Hkid H]; [|unfold zlen in *; lia].
  simplify_eq. destruct t1, t2; cbn in *; by subst.
Qed.

Lemma digest_input_injective_witness :
  MkToken TokenSession (str "0123456789abcdef01234567") (replicate 32 "s"%char) =
  MkToken (str "ses") (str "0123456789abcdef01234567") (replicate 32 "s"%char).
Proof. apply digest_input_injective; [repeat split; vm_compute; reflexivity..|reflexivity]. Defined.
