(* ===== verification/Scope.v ===== *)
(** * Capability scopes: [internal/auth/scope.go]

    A scope is one bit of a [uint32], a scope set is their union. *)

From S2P Require Import Prelude GoStrings Errors.

Definition ScopeInboxRead : Z := 1.
Definition ScopeInboxDelete : Z := 2.
Definition ScopeMessageRead : Z := 4.
Definition ScopeMessageUpdate : Z := 8.
Definition ScopeMessageDelete : Z := 16.

Definition all_scopes : list Z :=
  [ScopeInboxRead; ScopeInboxDelete; ScopeMessageRead; ScopeMessageUpdate; ScopeMessageDelete].

Definition allCapabilityScopes : Z :=
  Z.lor (Z.lor (Z.lor (Z.lor ScopeInboxRead ScopeInboxDelete) ScopeMessageRead) ScopeMessageUpdate)
    ScopeMessageDelete.

Definition uint32 (z : Z) : Z := z mod 2 ^ 32.

(** The check both [NewScopeSet] and [Has] make on one scope. *)
Definition scope_invalid (scope : Z) : bool :=
  (scope =? 0) || negb (Z.land scope allCapabilityScopes =? scope)
  || negb (Z.land scope (uint32 (scope - 1)) =? 0).

Fixpoint new_scope_loop (set : Z) (scopes : list Z) : res Z :=
  match scopes with
  | [] => Ok set
  | scope :: rest =>
    if scope_invalid scope then Err (ENew "invalid capability scope")
    else new_scope_loop (Z.lor set scope) rest
  end.

Definition NewScopeSet (scopes : list Z) : res Z :=
  match new_scope_loop 0 scopes with
  | Err e => Err e
  | Ok set => if set =? 0 then Err (ENew "at least one capability scope is required") else Ok set
  end.

Definition ScopeSetFromMask (mask : Z) : res Z :=
  if (mask =? 0) || negb (Z.land mask allCapabilityScopes =? mask)
  then Err (ENew "invalid capability scope mask")
  else Ok mask.

(** [ScopeSet.Has] *)
Fixpoint Has (s : Z) (required : list Z) : bool :=
  match required with
  | [] => true
  | scope :: rest =>
    if scope_invalid scope || negb (Z.land s scope =? scope) then false else Has s rest
  end.

Definition scope_names : list (Z * string) :=
  [(ScopeInboxRead, "inbox:read"); (ScopeInboxDelete, "inbox:delete");
   (ScopeMessageRead, "message:read"); (ScopeMessageUpdate, "message:update");
   (ScopeMessageDelete, "message:delete")]%string.

(** [ScopeSet.Names]: the map's iteration order is lost in the sort. *)
Definition Names (s : Z) : list string :=
  merge_sort String.le (snd <$> filter (λ p, Has s [p.1] = true) scope_names).

(** ** Lemmas *)

Lemma mask_range m : Z.land m allCapabilityScopes = m -> 0 <= m < 32.
Proof.
  change allCapabilityScopes with (Z.ones 5). rewrite Z.land_ones by lia.
  intros <-. apply Z.mod_pos_bound. reflexivity.
Qed.

(** The five scopes are the only values that pass the check. *)
Lemma scope_invalid_spec s : scope_invalid s = false <-> s ∈ all_scopes.
Proof.
  split.
  - unfold scope_invalid. intros H.
    apply orb_false_iff in H as [[Hz Hm]%orb_false_iff Hp]. bool_to_prop.
    apply mask_range in Hm as Hr.
    assert (forallb (λ k, implb (negb (scope_invalid (Z.of_nat k))) (bool_decide (Z.of_nat k ∈ all_scopes))) (seq 0 32) = true) as Hall
      by (vm_compute; reflexivity).
    rewrite forallb_forall in Hall. specialize (Hall (Z.to_nat s) ltac:(apply in_seq; lia)).
    rewrite Z2Nat.id in Hall by lia.
    assert (scope_invalid s = false) as Hs.
    { unfold scope_invalid. rewrite (proj2 (Z.eqb_neq _ _)), !(proj2 (Z.eqb_eq _ _)) by done. done. }
    rewrite Hs in Hall. cbn [negb implb] in Hall. by bool_to_prop.
  - unfold all_scopes. rewrite !elem_of_cons, elem_of_nil. intros; destruct_or!; subst; done.
Qed.

Lemma lor_scope_spec a x s :
  0 <= a < 32 -> x ∈ all_scopes -> s ∈ all_scopes ->
  0 <= Z.lor a x < 32 /\ (Z.land (Z.lor a x) s = s <-> Z.land a s = s \/ x = s).
Proof.
  intros Ha Hx Hs.
  assert (forallb (λ k, forallb (λ x, forallb (λ s,
      (0 <=? Z.lor (Z.of_nat k) x) && (Z.lor (Z.of_nat k) x <? 32) &&
      Bool.eqb (Z.land (Z.lor (Z.of_nat k) x) s =? s) ((Z.land (Z.of_nat k) s =? s) || (x =? s)))
    all_scopes) all_scopes) (seq 0 32) = true) as H by (vm_compute; reflexivity).
  rewrite forallb_forall in H. specialize (H (Z.to_nat a) ltac:(apply in_seq; lia)).
  rewrite Z2Nat.id in H by lia.
  rewrite forallb_forall in H. specialize (H x ltac:(by apply list_elem_of_In)).
  rewrite forallb_forall in H. specialize (H s ltac:(by apply list_elem_of_In)).
  bool_to_prop. split; [lia|]. apply eqb_prop in H0.
  rewrite <- Z.eqb_eq, H0, orb_true_iff, !Z.eqb_eq. done.
Qed.

Lemma new_scope_loop_spec set scopes m :
  0 <= set < 32 -> new_scope_loop set scopes = Ok m ->
  0 <= m < 32 /\ Forall (λ s, s ∈ all_scopes) scopes /\
  forall s, s ∈ all_scopes -> (Z.land m s = s <-> Z.land set s = s \/ s ∈ scopes).
Proof.
  revert set. induction scopes as [|x scopes IH]; intros set Hset; cbn [new_scope_loop].
  - intros [= <-]. split; [done|]. split; [constructor|]. intros s _. rewrite elem_of_nil. tauto.
  - destruct (scope_invalid x) eqn:E; [done|]. apply scope_invalid_spec in E. intros H.
    destruct (IH _ (proj1 (lor_scope_spec set x x Hset E E)) H) as (Hm & Hall & Hs).
    split; [done|]. split; [by constructor|]. intros s Hin.
    rewrite (Hs s Hin), (proj2 (lor_scope_spec set x s Hset E Hin)), elem_of_cons.
    split; [intros [[?| ->]|?]; auto|intros [?|[->|?]]; auto].
Qed.

Lemma Has_spec m required :
  Has m required = true <-> Forall (λ s, s ∈ all_scopes /\ Z.land m s = s) required.
Proof.
  induction required as [|s l IH]; cbn [Has]; [split; [constructor|done]|].
  rewrite Forall_cons, <- IH, <- (scope_invalid_spec s).
  destruct (scope_invalid s); cbn [orb]; [split; [done|intros [[[=] _] _]]|].
  destruct (Z.land m s =? s) eqn:E; cbn [negb]; bool_to_prop; [by intuition|].
  split; [done|]. by intros [[_ ?] _].
Qed.

(** ** Properties *)

(** A scope set grants exactly the scopes it was built from: it can only
    be built from a non-empty list of the five scopes, its mask is accepted
    again by [ScopeSetFromMask], and [Has] answers yes for a list of scopes
    exactly when all of them were granted. *)
Theorem scope_set_exact (scopes : list Z) (m : Z) :
  NewScopeSet scopes = Ok m ->
  scopes <> [] /\ Forall (λ s, s ∈ all_scopes) scopes /\ ScopeSetFromMask m = Ok m /\
  forall required, Has m required = true <-> Forall (λ s, s ∈ scopes) required.
Proof.
  unfold NewScopeSet. destruct (new_scope_loop 0 scopes) as [m'|] eqn:E; [|done].
  destruct (m' =? 0) eqn:E0; [done|]. intros [= <-]. bool_to_prop.
  apply new_scope_loop_spec in E as (Hm & Hall & Hs); [|lia].
  assert (forall s, s ∈ all_scopes -> (Z.land m' s = s <-> s ∈ scopes)) as Hs'.
  { intros s Hin. rewrite (Hs s Hin). split; [|by right]. intros [H|]; [|done].
    rewrite Z.land_0_l in H. subst s. by apply scope_invalid_spec in Hin. }
  split; [|split; [done|split]].
  - intros ->. cbn in *. destruct (decide (m' = 0)); [done|].
    assert (forallb (λ k, implb (forallb (λ s, negb (Z.land (Z.of_nat k) s =? s)) all_scopes)
      (Z.of_nat k =? 0)) (seq 0 32) = true) as H by (vm_compute; reflexivity).
    rewrite forallb_forall in H. specialize (H (Z.to_nat m') ltac:(apply in_seq; lia)).
    rewrite Z2Nat.id in H by lia. destruct (forallb _ all_scopes) eqn:E2; [cbn [implb] in H; bool_to_prop; lia|].
    apply not_true_iff_false in E2. apply E2, forallb_forall. intros s Hin%list_elem_of_In.
    apply negb_true_iff, Z.eqb_neq. intros Heq%(Hs' s Hin). by apply elem_of_nil in Heq.
  - unfold ScopeSetFromMask. change allCapabilityScopes with (Z.ones 5).
    rewrite Z.land_ones, Z.mod_small, Z.eqb_refl by lia. by rewrite (proj2 (Z.eqb_neq m' 0)).
  - intros required. rewrite Has_spec, !Forall_forall.
    split; intros H s Hin; specialize (H s Hin).
    + destruct H as [H1 H2]. by apply Hs'.
    + rewrite Forall_forall in Hall. split; [by apply Hall|]. by apply Hs'; [apply Hall|].
Qed.

Lemma scope_set_exact_witness :
  [ScopeInboxRead; ScopeMessageDelete] <> [] /\
  Forall (λ s, s ∈ all_scopes) [ScopeInboxRead; ScopeMessageDelete] /\ ScopeSetFromMask 17 = Ok 17 /\
  forall required, Has 17 required = true <-> Forall (λ s, s ∈ [ScopeInboxRead; ScopeMessageDelete]) required.
Proof. apply scope_set_exact. vm_compute. reflexivity. Defined.
