(* ===== verification/CapabilityRepo.v ===== *)
(** * Capability persistence: [internal/postgres/inbox_capability_repository.go]

    Digest-only credentials bound to inboxes: creation, lookup, the rotation
    transaction and revocation, with the constraints of
    [inbox_capabilities]. *)

From S2P Require Import Prelude GoStrings Errors Codec Uuid FileSystem Message Mail Database DatabaseFacts Token Scope.

#[local] Opaque sha256.

Abbreviation CredentialID := bytes.

(** ** The values of [internal/auth/capability.go] *)

Record NewCapability := MkNewCapability {
  nc_InboxID : InboxID; nc_KID : bytes; nc_Digest : bytes; nc_Scopes : Z; nc_CreatedAt : Z; nc_ExpiresAt : Z
}.

Record ReplacementCapability := MkReplacementCapability { rc_KID : bytes; rc_Digest : bytes; rc_CreatedAt : Z }.

Record CapabilityRecord := MkCapabilityRecord {
  cr_ID : CredentialID; cr_InboxID : InboxID; cr_KID : bytes; cr_Digest : bytes; cr_Scopes : Z;
  cr_CreatedAt : Z; cr_ExpiresAt : Z; cr_LastUsedAt : option Z; cr_RevokedAt : option Z;
  cr_InboxActive : bool; cr_InboxExpiresAt : option Z
}.

(** ** Validation *)

Definition validCapabilityKID (kid : bytes) : bool :=
  if negb (zlen kid =? 24) then false else forallb rune_lower_hex (runes kid).

Definition MaxUint32 : Z := 2 ^ 32 - 1.

Definition scopeSetFromDatabase (mask : Z) : res Z :=
  if (mask <=? 0) || (MaxUint32 <? mask) then Err (ENew "persisted capability scope mask is invalid")
  else ScopeSetFromMask (uint32 mask).

(** [hydrateCapabilityRecord]; times are already in UTC here. *)
Definition hydrateCapabilityRecord (record : CapabilityRecord) (digest : bytes) (scopeMask : Z) : res CapabilityRecord :=
  if negb (zlen digest =? 32) then Err (ENew "persisted capability digest has invalid length")
  else if (scopeMask <=? 0) || (MaxUint32 <? scopeMask) then Err (ENew "persisted capability scope mask is invalid")
  else match scopeSetFromDatabase scopeMask with
  | Err e => Err e
  | Ok scopes =>
    Ok (MkCapabilityRecord (cr_ID record) (cr_InboxID record) (cr_KID record) digest scopes (cr_CreatedAt record)
      (cr_ExpiresAt record) (cr_LastUsedAt record) (cr_RevokedAt record) (cr_InboxActive record) (cr_InboxExpiresAt record))
  end.

Definition validateReplacementCapability (replacement : ReplacementCapability) (rotatedAt : Z) : option goerr :=
  if negb (validCapabilityKID (rc_KID replacement)) then Some (ENew "invalid replacement capability KID")
  else if bool_decide (rc_CreatedAt replacement = zero_time) || bool_decide (rotatedAt = zero_time)
     || negb (rc_CreatedAt replacement =? rotatedAt)
  then Some (ENew "replacement capability creation and rotation times must match")
  else None.

(** ** Inserting a row *)

(** A violated constraint of [inbox_capabilities]. *)
Inductive violation : Type := KIDTaken | AlreadyRotated | OtherViolation (sqlstate : string).

Definition mapCapabilityWriteError (operation : string) (v : violation) : goerr :=
  match v with
  | KIDTaken => ESentinel ErrCapabilityKIDConflict
  | AlreadyRotated => ESentinel ErrCapabilityAlreadyRotated
  | OtherViolation sqlstate => EWrap operation (ENew sqlstate)
  end.

(** The [CHECK] constraints of 000003_create_inbox_capabilities.sql. *)
Definition capability_check (r : capability_row) : bool :=
  bool_decide (length (cp_kid r) = 24%nat) && forallb lower_hex (cp_kid r) && bool_decide (length (cp_digest r) = 32%nat) &&
  (0 <? cp_scope r) && (Z.land (cp_scope r) 31 =? cp_scope r) && (cp_created r <? cp_expires r) &&
  match cp_used r with Some t => cp_created r <=? t | None => true end &&
  match cp_revoked r with Some t => cp_created r <=? t | None => true end.

Definition find_kid (d : db) (kid : bytes) : option (uuid * capability_row) :=
  snd <$> list_find (λ kv : uuid * capability_row, cp_kid kv.2 = kid) (map_to_list (capabilities d)).

Definition find_rotated (d : db) (id : uuid) : option (uuid * capability_row) :=
  snd <$> list_find (λ kv : uuid * capability_row, cp_from kv.2 = Some id) (map_to_list (capabilities d)).

Definition insert_capability (row : capability_row) (d : db) : db * result violation uuid :=
  if negb (capability_check row) then (d, Err (OtherViolation "23514"))
  else match capabilities d !! new_uuid d with
  | Some _ => (d, Err (OtherViolation "23505"))
  | None =>
    match find_kid d (cp_kid row), cp_from row ≫= find_rotated d with
    | Some _, _ => (d, Err KIDTaken)
    | None, Some _ => (d, Err AlreadyRotated)
    | None, None =>
      (set_next (set_capabilities d (<[new_uuid d := row]> (capabilities d))) (S (db_next d)), Ok (new_uuid d))
    end
  end.

Section Repo.
Context `{!UUIDLib}.

Definition validateNewCapability (capability : NewCapability) : option goerr :=
  match uuid_parse (nc_InboxID capability) with
  | None => Some (ESentinel ErrCapabilitySubjectUnavailable)
  | Some _ =>
    if negb (validCapabilityKID (nc_KID capability)) then Some (ENew "invalid capability KID")
    else match ScopeSetFromMask (nc_Scopes capability) with
    | Err e => Some e
    | Ok _ =>
      if bool_decide (nc_CreatedAt capability = zero_time) || bool_decide (nc_ExpiresAt capability = zero_time)
         || negb (nc_CreatedAt capability <? nc_ExpiresAt capability)
      then Some (ESentinel ErrCapabilityLifetime)
      else None
    end
  end.

(** The columns every query returns, before hydration. *)
Definition scan_row (id : uuid) (r : capability_row) (active : bool) (inbox_expires : option Z) : CapabilityRecord :=
  MkCapabilityRecord (uuid_string id) (uuid_string (cp_inbox r)) (cp_kid r) [] 0 (cp_created r) (cp_expires r)
    (cp_used r) (cp_revoked r) active inbox_expires.

Definition mapUnavailableInbox (capability : NewCapability) : DB CapabilityRecord :=
  found <-- query "inspect unavailable capability Inbox" (λ d,
    match uuid_parse (nc_InboxID capability) with Some id => inboxes d !! id | None => None end) ;;
  match found with
  | None => dthrow (ESentinel ErrCapabilitySubjectUnavailable)
  | Some r =>
    if bool_decide (in_status r = Active) then
      if negb (nc_CreatedAt capability <? in_expires r) then dthrow (ESentinel ErrCapabilitySubjectUnavailable)
      else if in_expires r <? nc_ExpiresAt capability then dthrow (ESentinel ErrCapabilityLifetime)
      else dthrow (ESentinel ErrCapabilitySubjectUnavailable)
    else dthrow (ESentinel ErrCapabilitySubjectUnavailable)
  end.

(** The [WHERE] clause of the insertion. *)
Definition accepts_capability (d : db) (id : uuid) (created expires : Z) : bool :=
  match inboxes d !! id with
  | Some r => bool_decide (in_status r = Active) && (created <? in_expires r) && (expires <=? in_expires r)
  | None => false
  end.

(** [InboxCapabilityRepository.CreateCapability] *)
Definition CreateCapability (capability : NewCapability) : DB CapabilityRecord :=
  match validateNewCapability capability, uuid_parse (nc_InboxID capability) with
  | Some e, _ => dthrow e
  | None, None => dthrow (ESentinel ErrCapabilitySubjectUnavailable)
  | None, Some inbox =>
    let created := pg_time (nc_CreatedAt capability) in
    let expires := pg_time (nc_ExpiresAt capability) in
    let row := CapabilityRow inbox (nc_KID capability) (nc_Digest capability) (nc_Scopes capability) created expires
                 None None None in
    statement "insert Inbox capability" ;;* λ d,
      if negb (accepts_capability d inbox created expires) then mapUnavailableInbox capability d
      else match insert_capability row d with
      | (d, Err v) => (d, Err (mapCapabilityWriteError "insert Inbox capability" v))
      | (d, Ok id) => (d, hydrateCapabilityRecord (scan_row id row true None) (cp_digest row) (cp_scope row))
      end
  end.

(** [InboxCapabilityRepository.FindCapabilityByKID] *)
Definition FindCapabilityByKID (kid : bytes) : DB CapabilityRecord :=
  if negb (validCapabilityKID kid) then dthrow (ESentinel ErrCapabilityNotFound)
  else
    found <-- query "find Inbox capability by KID" (λ d,
      match find_kid d kid with
      | Some (id, r) => (λ ib, (id, r, ib)) <$> inboxes d !! cp_inbox r
      | None => None
      end) ;;
    match found with
    | None => dthrow (ESentinel ErrCapabilityNotFound)
    | Some (id, r, ib) => λ d,
        (d, hydrateCapabilityRecord (scan_row id r (bool_decide (in_status ib = Active)) (Some (in_expires ib)))
              (cp_digest r) (cp_scope r))
    end.

(** The body of the rotation transaction. *)
Definition rotate_body (currentID : uuid) (replacement : ReplacementCapability) (rotatedAt : Z) : DB CapabilityRecord :=
  found <-- query "lock current Inbox capability" (λ d,
    match capabilities d !! currentID with
    | Some r => (λ ib, (r, ib)) <$> inboxes d !! cp_inbox r
    | None => None
    end) ;;
  match found with
  | None => dthrow (ESentinel ErrCapabilityNotFound)
  | Some (current, ib) =>
    match cp_revoked current with
    | Some _ => dthrow (ESentinel ErrCapabilityAlreadyRotated)
    | None =>
      if negb (bool_decide (in_status ib = Active)) || negb (rotatedAt <? cp_expires current)
         || negb (rotatedAt <? in_expires ib)
      then dthrow (ESentinel ErrUnauthenticated)
      else match scopeSetFromDatabase (cp_scope current) with
      | Err e => dthrow e
      | Ok scopes =>
        let revoked := CapabilityRow (cp_inbox current) (cp_kid current) (cp_digest current) (cp_scope current)
              (cp_created current) (cp_expires current) (cp_used current) (Some (pg_time rotatedAt)) (cp_from current) in
        let row := CapabilityRow (cp_inbox current) (rc_KID replacement) (rc_Digest replacement) scopes
              (pg_time (rc_CreatedAt replacement)) (cp_expires current) None None (Some currentID) in
        statement "revoke current Inbox capability" ;;*
        (λ d, if negb (capability_check revoked) then (d, Err (EWrap "revoke current Inbox capability" (ENew "23514")))
              else (set_capabilities d (<[currentID := revoked]> (capabilities d)), Ok tt)) ;;*
        statement "insert replacement Inbox capability" ;;*
        λ d, match insert_capability row d with
             | (d, Err v) => (d, Err (mapCapabilityWriteError "insert replacement Inbox capability" v))
             | (d, Ok id) =>
               (d, hydrateCapabilityRecord (scan_row id row true (Some (in_expires ib))) (cp_digest row) (cp_scope row))
             end
      end
    end
  end.

(** [InboxCapabilityRepository.RotateCapability] *)
Definition RotateCapability (currentID : CredentialID) (replacement : ReplacementCapability) (rotatedAt : Z) : DB CapabilityRecord :=
  match uuid_parse currentID with
  | None => dthrow (ESentinel ErrCapabilityNotFound)
  | Some id =>
    match validateReplacementCapability replacement rotatedAt with
    | Some e => dthrow e
    | None => transaction "begin capability rotation" "commit capability rotation" (rotate_body id replacement rotatedAt)
    end
  end.

(** [InboxCapabilityRepository.RevokeCapability] *)
Definition RevokeCapability (id : CredentialID) (revokedAt : Z) : DB unit :=
  match uuid_parse id with
  | None => dthrow (ESentinel ErrCapabilityNotFound)
  | Some u =>
    if bool_decide (revokedAt = zero_time) then dthrow (ENew "capability revocation time is required")
    else statement "revoke Inbox capability" ;;* λ d,
      match capabilities d !! u with
      | None => (d, Err (ESentinel ErrCapabilityNotFound))
      | Some r =>
        let r' := CapabilityRow (cp_inbox r) (cp_kid r) (cp_digest r) (cp_scope r) (cp_created r) (cp_expires r)
                    (cp_used r) (Some (default (pg_time revokedAt) (cp_revoked r))) (cp_from r) in
        if negb (capability_check r') then (d, Err (EWrap "revoke Inbox capability" (ENew "23514")))
        else (set_capabilities d (<[u := r']> (capabilities d)), Ok tt)
      end
  end.
End Repo.
