(* ===== verification/Capability.v ===== *)
(** * The capability service: [internal/auth/capability.go]

    Issuing, authenticating, rotating and revoking passwordless credentials,
    over an interface of the repository that promises how lookups by key
    identifier change.  [CapabilityDb] shows that the database keeps the
    promises. *)

From S2P Require Import Prelude GoStrings Errors Codec Uuid FileSystem Message Mail Database Token Scope CapabilityRepo.

#[local] Opaque sha256.

Definition maxKIDGenerationAttempts : nat := 3.

Record IssuedCapability := MkIssuedCapability {
  ic_ID : CredentialID; ic_InboxID : InboxID; ic_KID : bytes; ic_Plaintext : bytes; ic_Scopes : Z; ic_ExpiresAt : Z
}.

Record Principal := MkPrincipal {
  pl_CredentialID : CredentialID; pl_InboxID : InboxID; pl_KID : bytes; pl_Scopes : Z; pl_ExpiresAt : Z
}.

Class CapabilityRepository (W : Type) := {
  cap_create : W -> NewCapability -> W * res CapabilityRecord;
  cap_find : W -> bytes -> W * res CapabilityRecord;
  cap_rotate : W -> CredentialID -> ReplacementCapability -> Z -> W * res CapabilityRecord;
  cap_revoke : W -> CredentialID -> Z -> W * res unit
}.

(** The service's clock and token source, [now] and [generate]. *)
Class CapabilityHost (W : Type) := {
  host_now : W -> Z;
  host_generate : W -> bytes -> W * res Token
}.

Definition principalFromRecord (record : CapabilityRecord) : Principal :=
  MkPrincipal (cr_ID record) (cr_InboxID record) (cr_KID record) (cr_Scopes record) (cr_ExpiresAt record).

Definition issuedCapability (record : CapabilityRecord) (plaintext : bytes) : IssuedCapability :=
  MkIssuedCapability (cr_ID record) (cr_InboxID record) (cr_KID record) plaintext (cr_Scopes record) (cr_ExpiresAt record).

(** The credential can be used at [now]. *)
Definition record_live (now : Z) (record : CapabilityRecord) : bool :=
  negb (bool_decide (is_Some (cr_RevokedAt record))) && (now <? cr_ExpiresAt record) && cr_InboxActive record &&
  match cr_InboxExpiresAt record with Some e => now <? e | None => true end.

Section Service.
Context {W : Type} `{!UUIDLib} `{!CapabilityRepository W} `{!CapabilityHost W}.

(** The loop of [CapabilityService.issue]. *)
Fixpoint issue_loop (attempts : nat) (w : W) (capability : NewCapability) : W * res IssuedCapability :=
  match attempts with
  | O => (w, Err (ESentinel ErrCapabilityKIDConflict))
  | S n =>
    match host_generate w TokenCapability with
    | (w, Err e) => (w, Err (EWrap "generate capability" e))
    | (w, Ok token) =>
      match Token.Digest token with
      | Err e => (w, Err e)
      | Ok digest =>
        let capability := MkNewCapability (nc_InboxID capability) (t_kid token) digest (nc_Scopes capability)
                            (nc_CreatedAt capability) (nc_ExpiresAt capability) in
        match cap_create w capability with
        | (w, Err e) =>
          if errors_is e ErrCapabilityKIDConflict then issue_loop n w capability
          else (w, Err (EWrap "persist capability" e))
        | (w, Ok record) =>
          match Encode token with
          | Err e => (w, Err e)
          | Ok encoded => (w, Ok (issuedCapability record encoded))
          end
        end
      end
    end
  end.

Definition issue (w : W) (capability : NewCapability) : W * res IssuedCapability :=
  issue_loop maxKIDGenerationAttempts w capability.

(** [CapabilityService.Issue] *)
Definition Issue (w : W) (inboxID : InboxID) (scopes expiresAt : Z) : W * res IssuedCapability :=
  match uuid_parse inboxID with
  | None => (w, Err (EWrap "Inbox ID is invalid" ErrCapabilitySubjectUnavailable))
  | Some _ =>
    match ScopeSetFromMask scopes with
    | Err e => (w, Err e)
    | Ok _ =>
      let now := host_now w in
      if bool_decide (expiresAt = zero_time) || negb (now <? expiresAt) then (w, Err (ESentinel ErrCapabilityLifetime))
      else issue w (MkNewCapability inboxID [] [] scopes now expiresAt)
    end
  end.

(** [CapabilityService.resolve] *)
Definition resolve (w : W) (plaintext : bytes) : W * res CapabilityRecord :=
  match ParseToken plaintext with
  | Err _ => (w, Err (ESentinel ErrUnauthenticated))
  | Ok token =>
    if negb (bool_decide (t_type token = TokenCapability)) then (w, Err (ESentinel ErrUnauthenticated))
    else match cap_find w (t_kid token) with
    | (w, Err e) =>
      if errors_is e ErrCapabilityNotFound then (w, Err (ESentinel ErrUnauthenticated))
      else (w, Err (EWrap "lookup capability" e))
    | (w, Ok record) =>
      match Token.Digest token with
      | Err _ => (w, Err (ESentinel ErrUnauthenticated))
      | Ok digest =>
        if negb (EqualDigest digest (cr_Digest record)) then (w, Err (ESentinel ErrUnauthenticated))
        else
          let now := host_now w in
          if bool_decide (is_Some (cr_RevokedAt record)) || negb (now <? cr_ExpiresAt record) || negb (cr_InboxActive record)
          then (w, Err (ESentinel ErrUnauthenticated))
          else match cr_InboxExpiresAt record with
          | Some e => if negb (now <? e) then (w, Err (ESentinel ErrUnauthenticated)) else (w, Ok record)
          | None => (w, Ok record)
          end
      end
    end
  end.

(** [CapabilityService.Authenticate] *)
Definition Authenticate (w : W) (plaintext : bytes) (required : list Z) : W * res Principal :=
  match resolve w plaintext with
  | (w, Err e) => (w, Err e)
  | (w, Ok record) =>
    if negb (Has (cr_Scopes record) required) then (w, Err (ESentinel ErrForbidden))
    else (w, Ok (principalFromRecord record))
  end.

(** The loop of [CapabilityService.Rotate]. *)
Fixpoint rotate_loop (attempts : nat) (w : W) (id : CredentialID) : W * res IssuedCapability :=
  match attempts with
  | O => (w, Err (ESentinel ErrCapabilityKIDConflict))
  | S n =>
    match host_generate w TokenCapability with
    | (w, Err e) => (w, Err (EWrap "generate replacement capability" e))
    | (w, Ok token) =>
      match Token.Digest token with
      | Err e => (w, Err e)
      | Ok digest =>
        let createdAt := host_now w in
        match cap_rotate w id (MkReplacementCapability (t_kid token) digest createdAt) createdAt with
        | (w, Err e) =>
          if errors_is e ErrCapabilityKIDConflict then rotate_loop n w id
          else (w, Err (EWrap "rotate capability" e))
        | (w, Ok newRecord) =>
          match Encode token with
          | Err e => (w, Err e)
          | Ok encoded => (w, Ok (issuedCapability newRecord encoded))
          end
        end
      end
    end
  end.

(** [CapabilityService.Rotate] *)
Definition Rotate (w : W) (plaintext : bytes) : W * res IssuedCapability :=
  match resolve w plaintext with
  | (w, Err e) => (w, Err e)
  | (w, Ok record) => rotate_loop maxKIDGenerationAttempts w (cr_ID record)
  end.

(** [CapabilityService.Revoke] *)
Definition Revoke (w : W) (plaintext : bytes) : W * res unit :=
  match resolve w plaintext with
  | (w, Err e) => (w, Err e)
  | (w, Ok record) =>
    match cap_revoke w (cr_ID record) (host_now w) with
    | (w, Err e) => (w, Err (EWrap "revoke capability" e))
    | (w, Ok _) => (w, Ok tt)
    end
  end.
End Service.

(** ** What the repository promises

    [cap_view w kid] is the record a lookup of [kid] would return. *)

Definition revoked_record (at_ : Z) (r : CapabilityRecord) : CapabilityRecord :=
  MkCapabilityRecord (cr_ID r) (cr_InboxID r) (cr_KID r) (cr_Digest r) (cr_Scopes r) (cr_CreatedAt r) (cr_ExpiresAt r)
    (cr_LastUsedAt r) (Some (default at_ (cr_RevokedAt r))) (cr_InboxActive r) (cr_InboxExpiresAt r).

(** The result of a successful creation: what was asked for, in a live inbox
    that outlives it. *)
Definition created_record (c : NewCapability) (r : CapabilityRecord) : Prop :=
  cr_KID r = nc_KID c /\ cr_Digest r = nc_Digest c /\ cr_Scopes r = nc_Scopes c /\
  cr_ExpiresAt r = pg_time (nc_ExpiresAt c) /\ cr_RevokedAt r = None /\ cr_InboxActive r = true.

Definition with_inbox_expiry (e : Z) (r : CapabilityRecord) : CapabilityRecord :=
  MkCapabilityRecord (cr_ID r) (cr_InboxID r) (cr_KID r) (cr_Digest r) (cr_Scopes r) (cr_CreatedAt r) (cr_ExpiresAt r)
    (cr_LastUsedAt r) (cr_RevokedAt r) (cr_InboxActive r) (Some e).

(** Rotation: the current record is revoked and replaced. *)
Definition rotated_to (v v' : bytes -> option CapabilityRecord) (id : CredentialID) (c : ReplacementCapability) (r : CapabilityRecord) : Prop :=
  exists old at_, v (cr_KID old) = Some old /\ cr_ID old = id /\ cr_RevokedAt old = None /\ v (rc_KID c) = None /\
    cr_KID r = rc_KID c /\ cr_Digest r = rc_Digest c /\ cr_InboxID r = cr_InboxID old /\ cr_Scopes r = cr_Scopes old /\
    cr_ExpiresAt r = cr_ExpiresAt old /\ cr_RevokedAt r = None /\ cr_InboxActive r = true /\
    cr_InboxExpiresAt r = cr_InboxExpiresAt old /\
    forall kid, v' kid = if bool_decide (kid = rc_KID c) then Some r
                         else if bool_decide (kid = cr_KID old) then Some (revoked_record at_ old) else v kid.

(** An identifier a lookup has returned. *)
Definition known (v : bytes -> option CapabilityRecord) (id : CredentialID) : Prop :=
  exists kid r, v kid = Some r /\ cr_ID r = id.

Class CapabilitySpec (W : Type) `{!CapabilityRepository W} `{!CapabilityHost W} := {
  cap_inv : W -> Prop;
  cap_view : W -> bytes -> option CapabilityRecord;
  (** Nothing fails from here on. *)
  cap_calm : W -> Prop;
  spec_kid : forall w kid r, cap_inv w -> cap_view w kid = Some r -> cr_KID r = kid;
  spec_id : forall w k1 k2 r1 r2, cap_inv w -> cap_view w k1 = Some r1 -> cap_view w k2 = Some r2 -> cr_ID r1 = cr_ID r2 -> k1 = k2;
  spec_find : forall w kid w' x, cap_inv w -> cap_find w kid = (w', x) ->
    cap_inv w' /\ cap_view w' = cap_view w /\ host_now w' = host_now w /\
    match x with
    | Ok r => cap_view w kid = Some r
    | Err e => errors_is e ErrCapabilityNotFound = true -> cap_view w kid = None
    end;
  spec_find_calm : forall w kid r, cap_inv w -> cap_calm w -> cap_view w kid = Some r -> cap_find w kid = (w, Ok r);
  spec_create : forall w c w' x, cap_inv w -> cap_create w c = (w', x) ->
    cap_inv w' /\
    match x with
    | Ok r => created_record c r /\ cap_view w (nc_KID c) = None /\ exists e, cr_ExpiresAt r <= e /\ forall kid,
        cap_view w' kid = if bool_decide (kid = nc_KID c) then Some (with_inbox_expiry e r) else cap_view w kid
    | Err _ => cap_view w' = cap_view w
    end;
  spec_rotate : forall w id c t w' x, cap_inv w -> known (cap_view w) id -> cap_rotate w id c t = (w', x) ->
    cap_inv w' /\
    match x with
    | Ok r => rotated_to (cap_view w) (cap_view w') id c r
    | Err e => cap_view w' = cap_view w \/
        errors_is e ErrCapabilityKIDConflict = false /\ exists r, rotated_to (cap_view w) (cap_view w') id c r
    end;
  spec_revoke : forall w id t w' x, cap_inv w -> known (cap_view w) id -> cap_revoke w id t = (w', x) ->
    cap_inv w' /\
    match x with
    | Ok _ => forall kid r, cap_view w kid = Some r ->
        cap_view w' kid = Some (if bool_decide (cr_ID r = id) then revoked_record (pg_time t) r else r)
    | Err _ => cap_view w' = cap_view w
    end;
  spec_generate : forall w ty w' x, cap_inv w -> host_generate w ty = (w', x) ->
    cap_inv w' /\ cap_view w' = cap_view w /\
    match x with Ok t => token_wf t /\ t_type t = ty | Err _ => True end
}.

(** ** The service's guarantees *)

Section Facts.
Context {W : Type} `{!UUIDLib} `{!CapabilityRepository W} `{!CapabilityHost W} `{!CapabilitySpec W}.

(** The record a plaintext denotes. *)
Definition denotes (v : bytes -> option CapabilityRecord) (plaintext : bytes) (r : CapabilityRecord) : Prop :=
  exists t, ParseToken plaintext = Ok t /\ t_type t = TokenCapability /\ v (t_kid t) = Some r /\
    cr_Digest r = sha256 (digest_input t).

Lemma Digest_wf t : token_wf t -> Token.Digest t = Ok (sha256 (digest_input t)).
Proof.
  intros (H1 & H2 & H3). unfold Token.Digest. rewrite H1, H2, (isLowerHex_length _ H2), Z.eqb_refl. done.
Qed.

Lemma record_live_checks now r :
  (bool_decide (is_Some (cr_RevokedAt r)) || negb (now <? cr_ExpiresAt r) || negb (cr_InboxActive r) = false /\
   match cr_InboxExpiresAt r with Some e => now <? e | None => true end = true) <-> record_live now r = true.
Proof.
  unfold record_live. destruct (bool_decide _), (now <? cr_ExpiresAt r), (cr_InboxActive r),
    (match cr_InboxExpiresAt r with Some _ => _ | None => _ end); cbn; intuition done.
Qed.

Lemma resolve_sound w plaintext w' x :
  cap_inv w -> resolve w plaintext = (w', x) ->
  cap_inv w' /\ cap_view w' = cap_view w /\ host_now w' = host_now w /\
  match x with
  | Ok r => denotes (cap_view w) plaintext r /\ record_live (host_now w) r = true
  | Err e => True
  end.
Proof.
  intros Hi. unfold resolve. destruct (ParseToken plaintext) as [t|] eqn:Ep; [|by intros [= <- <-]].
  case_bool_decide as Ht; cbn [negb]; [|by intros [= <- <-]].
  destruct (cap_find w (t_kid t)) as [w1 y] eqn:Ef. destruct (spec_find _ _ _ _ Hi Ef) as (Hi1 & Hv & Hn & Hy).
  destruct y as [r|e]; [|destruct (errors_is e _); by intros [= <- <-]].
  pose proof (ParseToken_inv _ _ Ep) as [Hw _]. rewrite (Digest_wf t Hw). unfold EqualDigest.
  case_bool_decide as Hd; cbn [negb]; [|by intros [= <- <-]].
  destruct (bool_decide (is_Some (cr_RevokedAt r)) || _ || _) eqn:Ec; [by intros [= <- <-]|].
  assert (record_live (host_now w1) r = true -> cap_inv w1 /\ cap_view w1 = cap_view w /\ host_now w1 = host_now w /\
    denotes (cap_view w) plaintext r /\ record_live (host_now w) r = true) as Hok.
  { intros Hl. rewrite Hn in Hl. do 3 (split; [done|]). split; [|done]. by exists t. }
  destruct (cr_InboxExpiresAt r) as [e|] eqn:Ee.
  - destruct (host_now w1 <? e) eqn:El; cbn [negb]; intros [= <- <-]; [|done].
    apply Hok, record_live_checks. by rewrite Ee.
  - intros [= <- <-]. apply Hok, record_live_checks. by rewrite Ee.
Qed.

Lemma resolve_complete w plaintext r :
  cap_inv w -> cap_calm w -> denotes (cap_view w) plaintext r -> record_live (host_now w) r = true ->
  resolve w plaintext = (w, Ok r).
Proof.
  intros Hi Hc (t & Ep & Ht & Hv & Hd) [H1 H2]%record_live_checks. unfold resolve. rewrite Ep, bool_decide_eq_true_2 by done.
  cbn [negb]. rewrite (spec_find_calm _ _ _ Hi Hc Hv). pose proof (ParseToken_inv _ _ Ep) as [Hw _].
  rewrite (Digest_wf t Hw). unfold EqualDigest. rewrite bool_decide_eq_true_2 by done. cbn [negb]. rewrite H1.
  destruct (cr_InboxExpiresAt r); [|done]. by rewrite H2.
Qed.

Lemma denotes_known v plaintext r : denotes v plaintext r -> known v (cr_ID r).
Proof. intros (t & _ & _ & Hv & _). by exists (t_kid t), r. Qed.

Lemma denotes_unique v plaintext r1 r2 : denotes v plaintext r1 -> denotes v plaintext r2 -> r1 = r2.
Proof. intros (t1 & E1 & _ & H1 & _) (t2 & E2 & _ & H2 & _). congruence. Qed.

(** C34: authentication is exact.  A plaintext is accepted only if it is the
    canonical text of a capability token whose digest is stored under its key
    identifier in a record that is neither revoked nor expired, of an active,
    unexpired inbox, and only with scopes the record grants; the principal is
    that record's.  Conversely such a credential is accepted, with
    [ErrForbidden] exactly for missing scopes.  Authentication changes no
    credential. *)
Theorem authenticate_exact (w : W) (plaintext : bytes) (required : list Z) :
  cap_inv w ->
  (forall w' x, Authenticate w plaintext required = (w', x) ->
    cap_view w' = cap_view w /\
    match x with
    | Ok p => exists r, denotes (cap_view w) plaintext r /\ record_live (host_now w) r = true /\
        Has (cr_Scopes r) required = true /\ p = principalFromRecord r
    | Err _ => True
    end) /\
  (forall r, cap_calm w -> denotes (cap_view w) plaintext r -> record_live (host_now w) r = true ->
    Authenticate w plaintext required =
      (w, if Has (cr_Scopes r) required then Ok (principalFromRecord r) else Err (ESentinel ErrForbidden))).
Proof.
  intros Hi. split.
  - intros w' x. unfold Authenticate. destruct (resolve w plaintext) as [w1 y] eqn:Er.
    destruct (resolve_sound _ _ _ _ Hi Er) as (_ & Hv & _ & Hy).
    destruct y as [r|e]; [|by intros [= <- <-]]. destruct Hy as [Hd Hl].
    destruct (Has (cr_Scopes r) required) eqn:Eh; cbn [negb]; intros [= <- <-]; [|done]. split; [done|]. by exists r.
  - intros r Hc Hd Hl. unfold Authenticate. rewrite (resolve_complete w plaintext r) by done.
    by destruct (Has (cr_Scopes r) required).
Qed.

(** *** Issuing *)

Lemma issue_loop_ok n w c w' issued :
  cap_inv w -> issue_loop n w c = (w', Ok issued) ->
  cap_inv w' /\ exists t r e, token_wf t /\ t_type t = TokenCapability /\ Encode t = Ok (ic_Plaintext issued) /\
    cap_view w (t_kid t) = None /\ cr_ExpiresAt r <= e /\ issued = issuedCapability r (ic_Plaintext issued) /\
    created_record (MkNewCapability (nc_InboxID c) (t_kid t) (sha256 (digest_input t)) (nc_Scopes c) (nc_CreatedAt c) (nc_ExpiresAt c)) r /\
    (forall kid, cap_view w' kid = if bool_decide (kid = t_kid t) then Some (with_inbox_expiry e r) else cap_view w kid).
Proof.
  revert w c. induction n as [|n IH]; intros w c Hi; cbn [issue_loop]; [done|].
  destruct (host_generate w TokenCapability) as [w1 [t|]] eqn:Eg; [|done].
  destruct (spec_generate _ _ _ _ Hi Eg) as (Hi1 & Hv1 & Hw & Hty). rewrite (Digest_wf t Hw).
  set (c' := MkNewCapability _ _ _ _ _ _). destruct (cap_create w1 c') as [w2 [r|e]] eqn:Ec.
  - destruct (spec_create _ _ _ _ Hi1 Ec) as (Hi2 & Hcr & Hnone & e & He & Hv2).
    destruct (Encode t) as [p|] eqn:Ee; [|done]. intros [= <- <-]. split; [done|].
    exists t, r, e. rewrite Hv1 in Hnone. do 4 (split; [done|]). split; [done|]. split; [done|]. split; [done|].
    intros kid. by rewrite Hv2, Hv1.
  - destruct (spec_create _ _ _ _ Hi1 Ec) as (Hi2 & Hv2). destruct (errors_is e _); [|done].
    intros Hl. apply IH in Hl as (Hi' & t' & r & e' & H1 & H2 & H3 & H4 & H5 & H6 & H7 & H8); [|done].
    split; [done|]. exists t', r, e'. rewrite Hv2, Hv1 in *. auto 10.
Qed.

(** The plaintext of a token denotes the record stored under its identifier
    with its digest. *)
Lemma encoded_denotes v t plaintext r :
  token_wf t -> t_type t = TokenCapability -> Encode t = Ok plaintext -> v (t_kid t) = Some r ->
  cr_Digest r = sha256 (digest_input t) -> denotes v plaintext r.
Proof.
  intros Hw Hty He Hv Hd. exists t. split; [|done]. rewrite (Encode_wf t Hw) in He. injection He as <-.
  by apply ParseToken_parts.
Qed.

(** What a successful [Issue] did. *)
Lemma Issue_Ok (w w' : W) (inboxID : InboxID) (scopes expiresAt : Z) (issued : IssuedCapability) :
  cap_inv w -> Issue w inboxID scopes expiresAt = (w', Ok issued) ->
  ic_Scopes issued = scopes /\ ic_ExpiresAt issued = pg_time expiresAt /\ cap_view w (ic_KID issued) = None /\
  (forall kid, kid <> ic_KID issued -> cap_view w' kid = cap_view w kid) /\
  forall w2 required, cap_inv w2 -> cap_calm w2 -> cap_view w2 (ic_KID issued) = cap_view w' (ic_KID issued) ->
    host_now w2 < ic_ExpiresAt issued ->
    Authenticate w2 (ic_Plaintext issued) required =
      (w2, if Has scopes required
           then Ok (MkPrincipal (ic_ID issued) (ic_InboxID issued) (ic_KID issued) scopes (ic_ExpiresAt issued))
           else Err (ESentinel ErrForbidden)).
Proof.
  intros Hi. unfold Issue, issue. destruct (uuid_parse inboxID); [|done]. destruct (ScopeSetFromMask scopes); [|done].
  destruct (bool_decide _ || _); [done|]. intros Hl.
  apply issue_loop_ok in Hl as (Hi' & t & r & e & Hw & Hty & Henc & Hnone & He & -> & (C1 & C2 & C3 & C4 & C5 & C6) & Hv); [|done].
  cbn in C1, C2, C3, C4. cbn [ic_Scopes ic_ExpiresAt ic_KID ic_Plaintext issuedCapability ic_ID ic_InboxID] in *.
  rewrite C1, C3, C4 in *. do 3 (split; [done|]). split; [intros kid Hk; by rewrite Hv, bool_decide_eq_false_2|].
  intros w2 required Hi2 Hc2 Hsame Hnow. rewrite Hv, bool_decide_eq_true_2 in Hsame by done.
  assert (denotes (cap_view w2) (ic_Plaintext issued) (with_inbox_expiry e r)) as Hd by (by eapply encoded_denotes).
  unfold Authenticate. rewrite (resolve_complete w2 _ _ Hi2 Hc2 Hd).
  - cbn [with_inbox_expiry cr_Scopes]. rewrite C3. destruct (Has scopes required); [|done]. cbn.
    unfold principalFromRecord. cbn. by rewrite C1, C3, C4.
  - unfold record_live. cbn. rewrite C5, C6, bool_decide_eq_false_2 by (by intros [? [=]]).
    rewrite !(proj2 (Z.ltb_lt _ _)) by lia. done.
Qed.

(** What is issued works.  A capability that [Issue] returns has the
    requested scopes, disturbs no other credential, and from then on, as long
    as it has not expired and its record was not changed, its plaintext
    authenticates as its own identifier and inbox for every combination of
    granted scopes, and is refused with [ErrForbidden] for any other. *)
Theorem issue_usable (w w' : W) (inboxID : InboxID) (scopes expiresAt : Z) (issued : IssuedCapability) :
  cap_inv w -> Issue w inboxID scopes expiresAt = (w', Ok issued) ->
  ic_Scopes issued = scopes /\ ic_ExpiresAt issued = pg_time expiresAt /\ cap_view w (ic_KID issued) = None /\
  (forall kid, kid <> ic_KID issued -> cap_view w' kid = cap_view w kid) /\
  forall w2 required, cap_inv w2 -> cap_calm w2 -> cap_view w2 (ic_KID issued) = cap_view w' (ic_KID issued) ->
    host_now w2 < ic_ExpiresAt issued ->
    Authenticate w2 (ic_Plaintext issued) required =
      (w2, if Has scopes required
           then Ok (MkPrincipal (ic_ID issued) (ic_InboxID issued) (ic_KID issued) scopes (ic_ExpiresAt issued))
           else Err (ESentinel ErrForbidden)).
Proof. apply Issue_Ok. Qed.

(** *** Rotation *)

Lemma rotate_loop_ok n w id w' issued :
  cap_inv w -> known (cap_view w) id -> rotate_loop n w id = (w', Ok issued) ->
  cap_inv w' /\ exists t r now, token_wf t /\ t_type t = TokenCapability /\ Encode t = Ok (ic_Plaintext issued) /\
    issued = issuedCapability r (ic_Plaintext issued) /\
    rotated_to (cap_view w) (cap_view w') id (MkReplacementCapability (t_kid t) (sha256 (digest_input t)) now) r.
Proof.
  revert w. induction n as [|n IH]; intros w Hi Hid; cbn [rotate_loop]; [done|].
  destruct (host_generate w TokenCapability) as [w1 [t|]] eqn:Eg; [|done].
  destruct (spec_generate _ _ _ _ Hi Eg) as (Hi1 & Hv1 & Hw & Hty). rewrite (Digest_wf t Hw).
  assert (known (cap_view w1) id) as Hid1 by (by rewrite Hv1).
  destruct (cap_rotate w1 id _ _) as [w2 [r|e]] eqn:Ec; destruct (spec_rotate _ _ _ _ _ _ Hi1 Hid1 Ec) as (Hi2 & Hv2).
  - destruct (Encode t) as [p|] eqn:Ee; [|done]. intros [= <- <-]. split; [done|]. rewrite Hv1 in Hv2.
    exists t, r, (host_now w1). by auto 10.
  - destruct (errors_is e _) eqn:Ee; [|done]. destruct Hv2 as [Hv2|[Hx _]]; [|done].
    intros Hl. apply IH in Hl as (Hi' & t' & r & now & H1 & H2 & H3 & H4 & H5); [|done|by rewrite Hv2].
    split; [done|]. exists t', r, now. rewrite Hv2, Hv1 in *. auto 10.
Qed.

Lemma revoked_dead w plaintext r required w' p :
  cap_inv w -> denotes (cap_view w) plaintext r -> is_Some (cr_RevokedAt r) ->
  Authenticate w plaintext required <> (w', Ok p).
Proof.
  intros Hi Hd Hr. unfold Authenticate. destruct (resolve w plaintext) as [w1 [r'|e]] eqn:Er; [|congruence].
  destruct (resolve_sound _ _ _ _ Hi Er) as (_ & _ & _ & Hd' & Hl).
  pose proof (denotes_unique _ _ _ _ Hd Hd') as ->. unfold record_live in Hl.
  rewrite bool_decide_eq_true_2 in Hl by done. done.
Qed.

(** C35: rotation hands a credential over.  After a successful [Rotate] the
    replacement has the same inbox, scopes and expiry and authenticates,
    while the old plaintext never authenticates again in any later state in
    which its record was not changed; other credentials are untouched. *)
Theorem rotate_exclusive (w w' : W) (plaintext : bytes) (issued : IssuedCapability) :
  cap_inv w -> Rotate w plaintext = (w', Ok issued) ->
  exists old t, denotes (cap_view w) plaintext old /\ ParseToken plaintext = Ok t /\ record_live (host_now w) old = true /\
    ic_InboxID issued = cr_InboxID old /\ ic_Scopes issued = cr_Scopes old /\ ic_ExpiresAt issued = cr_ExpiresAt old /\
    (forall kid, kid <> t_kid t -> kid <> ic_KID issued -> cap_view w' kid = cap_view w kid) /\
    (forall w2 required w3 p, cap_inv w2 -> cap_view w2 (t_kid t) = cap_view w' (t_kid t) ->
      Authenticate w2 plaintext required <> (w3, Ok p)) /\
    (forall w2 required, cap_inv w2 -> cap_calm w2 -> cap_view w2 (ic_KID issued) = cap_view w' (ic_KID issued) ->
      host_now w2 < cr_ExpiresAt old -> match cr_InboxExpiresAt old with Some e => host_now w2 < e | None => True end ->
      Has (cr_Scopes old) required = true ->
      exists p, Authenticate w2 (ic_Plaintext issued) required = (w2, Ok p) /\ pl_InboxID p = cr_InboxID old).
Proof.
  intros Hi. unfold Rotate. destruct (resolve w plaintext) as [w1 [old|]] eqn:Er; [|done].
  destruct (resolve_sound _ _ _ _ Hi Er) as (Hi1 & Hv1 & _ & Hd & Hlive). intros Hl.
  apply rotate_loop_ok in Hl as (Hi' & t' & r & now & Hw & Hty & Henc & -> & Hrot); [|done|rewrite Hv1; by eapply denotes_known].
  destruct Hrot as (o & at_ & R1 & R2 & R3 & R4 & R5 & R6 & R7 & R8 & R9 & R10 & R11 & R12 & R13).
  rewrite Hv1 in *. pose proof Hd as (t & Ep & Ht & Hvt & Hdig).
  assert (t_kid t = cr_KID o) as Hk by (by eapply (spec_id w)).
  assert (o = old) as -> by congruence. cbn [rc_KID rc_Digest] in *.
  cbn [ic_Scopes ic_ExpiresAt ic_KID ic_Plaintext issuedCapability ic_ID ic_InboxID]. rewrite R5 in *.
  exists old, t. do 3 (split; [done|]). do 3 (split; [done|]).
  assert (cr_KID old <> t_kid t') as Hne by congruence. split; [|split].
  - intros kid H1 H2. rewrite R13, !bool_decide_eq_false_2 by congruence. done.
  - intros w2 required w3 p Hi2 Hsame. rewrite Hk, R13, bool_decide_eq_false_2, bool_decide_eq_true_2 in Hsame by done.
    apply (revoked_dead w2 plaintext (revoked_record at_ old)); [done| |by cbn; eauto].
    exists t. rewrite Hk. done.
  - intros w2 required Hi2 Hc2 Hsame Hnow Hin Hhas. rewrite R13, bool_decide_eq_true_2 in Hsame by done.
    assert (denotes (cap_view w2) (ic_Plaintext issued) r) as Hd2 by (by eapply encoded_denotes).
    exists (principalFromRecord r). split; [|done]. unfold Authenticate. rewrite (resolve_complete w2 _ _ Hi2 Hc2 Hd2).
    + by rewrite R8, Hhas.
    + unfold record_live. rewrite R10, R11, R9, R12, bool_decide_eq_false_2 by (by intros [? [=]]).
      rewrite (proj2 (Z.ltb_lt (host_now w2) _)) by lia. destruct (cr_InboxExpiresAt old); [|done].
      by rewrite (proj2 (Z.ltb_lt _ _)).
Qed.

(** *** Revocation is for good *)

(** A step of any client of the service. *)
Inductive cap_step (w w' : W) : Prop :=
| step_issue inboxID scopes expiresAt x : Issue w inboxID scopes expiresAt = (w', x) -> cap_step w w'
| step_authenticate plaintext required x : Authenticate w plaintext required = (w', x) -> cap_step w w'
| step_rotate plaintext x : Rotate w plaintext = (w', x) -> cap_step w w'
| step_revoke plaintext x : Revoke w plaintext = (w', x) -> cap_step w w'.

(** A revoked record stays, with its digest. *)
Definition keeps_revoked (v v' : bytes -> option CapabilityRecord) : Prop :=
  forall kid r, v kid = Some r -> is_Some (cr_RevokedAt r) ->
    exists r', v' kid = Some r' /\ is_Some (cr_RevokedAt r') /\ cr_Digest r' = cr_Digest r.

Lemma keeps_refl v : keeps_revoked v v.
Proof. intros kid r Hr Hx. by exists r. Qed.

Lemma keeps_trans v1 v2 v3 : keeps_revoked v1 v2 -> keeps_revoked v2 v3 -> keeps_revoked v1 v3.
Proof.
  intros H1 H2 kid r Hr Hx. destruct (H1 kid r Hr Hx) as (r2 & Hr2 & Hx2 & Hd2).
  destruct (H2 kid r2 Hr2 Hx2) as (r3 & Hr3 & Hx3 & Hd3). exists r3. split; [done|]. split; [done|]. congruence.
Qed.

Lemma keeps_rotated v v' id c r : rotated_to v v' id c r -> keeps_revoked v v'.
Proof.
  intros (o & at_ & R1 & R2 & R3 & R4 & _ & _ & _ & _ & _ & _ & _ & _ & R13) kid x Hx Hr.
  exists x. split; [|done]. rewrite R13, !bool_decide_eq_false_2; [done| |].
  - intros ->. rewrite R1 in Hx. injection Hx as <-. rewrite R3 in Hr. by destruct Hr.
  - intros ->. congruence.
Qed.

Lemma issue_loop_keeps n w c w' x :
  cap_inv w -> issue_loop n w c = (w', x) -> cap_inv w' /\ keeps_revoked (cap_view w) (cap_view w').
Proof.
  revert w c. induction n as [|n IH]; intros w c Hi; cbn [issue_loop]; [intros [= <- <-]; by split; [|apply keeps_refl]|].
  destruct (host_generate w TokenCapability) as [w1 [t|]] eqn:Eg; destruct (spec_generate _ _ _ _ Hi Eg) as (Hi1 & Hv1 & Hx).
  2:{ intros [= <- <-]. rewrite Hv1. by split; [|apply keeps_refl]. }
  rewrite (Digest_wf t (proj1 Hx)). set (c' := MkNewCapability _ _ _ _ _ _).
  destruct (cap_create w1 c') as [w2 [r|e]] eqn:Ec; destruct (spec_create _ _ _ _ Hi1 Ec) as (Hi2 & Hc).
  - assert (keeps_revoked (cap_view w) (cap_view w2)) as Hk.
    { destruct Hc as (_ & Hnone & e & _ & Hv2). intros kid r0 Hr0 Hrev. exists r0. split; [|done].
      rewrite Hv2, bool_decide_eq_false_2, Hv1; [done|]. intros ->. congruence. }
    destruct (Encode t); by intros [= <- <-].
  - destruct (errors_is e _); [|intros [= <- <-]; rewrite Hc, Hv1; by split; [|apply keeps_refl]].
    intros Hl%IH; [|done]. by rewrite Hc, Hv1 in Hl.
Qed.

Lemma rotate_loop_keeps n w id w' x :
  cap_inv w -> known (cap_view w) id -> rotate_loop n w id = (w', x) -> cap_inv w' /\ keeps_revoked (cap_view w) (cap_view w').
Proof.
  revert w. induction n as [|n IH]; intros w Hi Hid; cbn [rotate_loop]; [intros [= <- <-]; by split; [|apply keeps_refl]|].
  destruct (host_generate w TokenCapability) as [w1 [t|]] eqn:Eg; destruct (spec_generate _ _ _ _ Hi Eg) as (Hi1 & Hv1 & Hx).
  2:{ intros [= <- <-]. rewrite Hv1. by split; [|apply keeps_refl]. }
  rewrite (Digest_wf t (proj1 Hx)). assert (known (cap_view w1) id) as Hid1 by (by rewrite Hv1).
  destruct (cap_rotate w1 id _ _) as [w2 [r|e]] eqn:Ec; destruct (spec_rotate _ _ _ _ _ _ Hi1 Hid1 Ec) as (Hi2 & Hc).
  - apply keeps_rotated in Hc. rewrite Hv1 in Hc. destruct (Encode t); by intros [= <- <-].
  - assert (keeps_revoked (cap_view w) (cap_view w2)) as Hk.
    { destruct Hc as [->|(_ & r & Hc%keeps_rotated)]; [rewrite Hv1; apply keeps_refl|by rewrite Hv1 in Hc]. }
    destruct (errors_is e _) eqn:Ee; [|by intros [= <- <-]].
    intros [Hi' Hk']%IH; [|done|destruct Hc as [->|[Hc _]]; [done|congruence]]. split; [done|]. by eapply keeps_trans.
Qed.

Lemma cap_step_keeps w w' : cap_inv w -> cap_step w w' -> cap_inv w' /\ keeps_revoked (cap_view w) (cap_view w').
Proof.
  intros Hi [inboxID scopes expiresAt x E|plaintext required x E|plaintext x E|plaintext x E].
  - unfold Issue, issue in E. destruct (uuid_parse inboxID); [|injection E as <- <-; by split; [|apply keeps_refl]].
    destruct (ScopeSetFromMask scopes); [|injection E as <- <-; by split; [|apply keeps_refl]].
    destruct (bool_decide _ || _); [injection E as <- <-; by split; [|apply keeps_refl]|]. by eapply issue_loop_keeps.
  - unfold Authenticate in E. destruct (resolve w plaintext) as [w1 y] eqn:Er.
    destruct (resolve_sound _ _ _ _ Hi Er) as (Hi1 & Hv & _ & _).
    assert (w' = w1) as -> by (destruct y; [destruct (negb _)|]; by injection E). rewrite Hv. by split; [|apply keeps_refl].
  - unfold Rotate in E. destruct (resolve w plaintext) as [w1 y] eqn:Er.
    destruct (resolve_sound _ _ _ _ Hi Er) as (Hi1 & Hv & _ & Hy).
    destruct y; [|injection E as <- <-; rewrite Hv; by split; [|apply keeps_refl]].
    apply rotate_loop_keeps in E; [|done|rewrite Hv; eapply denotes_known; apply Hy]. by rewrite Hv in E.
  - unfold Revoke in E. destruct (resolve w plaintext) as [w1 y] eqn:Er.
    destruct (resolve_sound _ _ _ _ Hi Er) as (Hi1 & Hv & _ & Hy).
    destruct y as [r|]; [|injection E as <- <-; rewrite Hv; by split; [|apply keeps_refl]].
    destruct (cap_revoke w1 (cr_ID r) (host_now w1)) as [w2 z] eqn:Ec.
    assert (w' = w2) as -> by (destruct z; by injection E).
    assert (known (cap_view w1) (cr_ID r)) as Hid by (rewrite Hv; eapply denotes_known; apply Hy).
    destruct (spec_revoke _ _ _ _ _ Hi1 Hid Ec) as (Hi2 & Hz). split; [done|]. rewrite <- Hv.
    destruct z as [u|e]; [|rewrite Hz; apply keeps_refl].
    intros kid r0 Hr0 Hrev. rewrite (Hz kid r0 Hr0). eexists. split; [done|]. case_bool_decide; [|done]. cbn. eauto.
Qed.

(** C36: revocation is final.  After a successful [Revoke] the plaintext is
    refused, whatever else clients issue, rotate, revoke or authenticate in
    between, on all later states. *)
Theorem revoke_final (w w1 w2 : W) (plaintext : bytes) :
  cap_inv w -> Revoke w plaintext = (w1, Ok tt) -> rtc cap_step w1 w2 ->
  forall required w3 p, Authenticate w2 plaintext required <> (w3, Ok p).
Proof.
  intros Hi. unfold Revoke. destruct (resolve w plaintext) as [w0 [r|]] eqn:Er; [|done].
  destruct (resolve_sound _ _ _ _ Hi Er) as (Hi0 & Hv0 & _ & Hd & _).
  destruct (cap_revoke w0 (cr_ID r) (host_now w0)) as [w1' [u|]] eqn:Ec; [|done]. intros [= ->] Hsteps required w3 p.
  assert (known (cap_view w0) (cr_ID r)) as Hid by (rewrite Hv0; by eapply denotes_known).
  destruct (spec_revoke _ _ _ _ _ Hi0 Hid Ec) as (Hi1 & Hz). destruct Hd as (t & Ep & Ht & Hvt & Hdig).
  rewrite Hv0 in Hz. specialize (Hz (t_kid t) r Hvt). rewrite bool_decide_eq_true_2 in Hz by done.
  assert (cap_inv w2 /\ keeps_revoked (cap_view w1) (cap_view w2)) as [Hi2 Hk].
  { clear Hz Ec Hid. induction Hsteps as [x|x y z Hs Hsteps IH]; [by split; [|apply keeps_refl]|].
    destruct (cap_step_keeps _ _ Hi1 Hs) as [Hi' Hk']. destruct (IH Hi') as [? ?]. split; [done|]. by eapply keeps_trans. }
  destruct (Hk (t_kid t) _ Hz ltac:(cbn; eauto)) as (r' & Hr' & Hrev & Hdig'). cbn in Hdig'.
  apply (revoked_dead w2 plaintext r'); [done| |done]. exists t. split; [done|]. split; [done|]. split; [done|]. congruence.
Qed.
End Facts.
