(* ===== verification/CapabilityDb.v ===== *)
(** * The database as a capability repository

    The promises of [CapabilitySpec], kept by the statements of
    [CapabilityRepo] on the tables. *)

From S2P Require Import Prelude GoStrings Errors Codec Uuid FileSystem Message Mail Database DatabaseFacts Token Scope CapabilityRepo Capability DeliveryRepo.

#[local] Opaque sha256.

(** A process: the database, the random source and the wall clock. *)
Record host := Host { h_db : db; h_random : bytes; h_clock : Z }.

Definition lift {A} (m : DB A) (w : host) : host * res A :=
  let '(d, x) := m (h_db w) in (Host d (h_random w) (h_clock w), x).

(** [GenerateToken] on [rand.Reader]. *)
Definition GenerateToken (w : host) (ty : bytes) : host * res Token :=
  match generateToken ty (h_random w) with
  | Err e => (w, Err e)
  | Ok (t, rest) => (Host (h_db w) rest (h_clock w), Ok t)
  end.

#[global] Instance db_capability_repository `{!UUIDLib} : CapabilityRepository host := {|
  cap_create w c := lift (CreateCapability c) w;
  cap_find w kid := lift (FindCapabilityByKID kid) w;
  cap_rotate w id c t := lift (RotateCapability id c t) w;
  cap_revoke w id t := lift (RevokeCapability id t) w
|}.

#[global] Instance db_capability_host : CapabilityHost host := {| host_now := h_clock; host_generate := GenerateToken |}.

(** ** The rows a lookup sees *)

Definition caps_wf (d : db) : Prop :=
  forall id r, capabilities d !! id = Some r -> capability_check r = true /\ length id = 16%nat.

(** Failures of the server are not the repository's own errors. *)
Definition foreign (e : goerr) : Prop :=
  errors_is e ErrCapabilityNotFound = false /\ errors_is e ErrCapabilityKIDConflict = false.

Section View.
Context `{!UUIDLib}.

Definition full_record (id : uuid) (r : capability_row) (active : bool) (expires : option Z) : CapabilityRecord :=
  MkCapabilityRecord (uuid_string id) (uuid_string (cp_inbox r)) (cp_kid r) (cp_digest r) (cp_scope r) (cp_created r)
    (cp_expires r) (cp_used r) (cp_revoked r) active expires.

Definition record_of (ib : inbox_row) (id : uuid) (r : capability_row) : CapabilityRecord :=
  full_record id r (bool_decide (in_status ib = Active)) (Some (in_expires ib)).

Definition view_of (d : db) (kid : bytes) : option CapabilityRecord :=
  match find_kid d kid with
  | Some (id, r) => (λ ib, record_of ib id r) <$> inboxes d !! cp_inbox r
  | None => None
  end.

Lemma find_kid_Some d kid id r :
  find_kid d kid = Some (id, r) -> capabilities d !! id = Some r /\ cp_kid r = kid.
Proof.
  unfold find_kid. intros ([i x] & Hf & Hx)%fmap_Some. cbn in Hx. subst x.
  apply list_find_Some in Hf as (Hi & Hk & _). split; [|done].
  by apply elem_of_map_to_list, list_elem_of_lookup_2 with i.
Qed.

Lemma find_kid_None d kid : find_kid d kid = None <-> forall id r, capabilities d !! id = Some r -> cp_kid r <> kid.
Proof.
  unfold find_kid. rewrite fmap_None, list_find_None, Forall_forall. split.
  - intros Hf id r Hr. by apply (Hf (id, r)), elem_of_map_to_list.
  - intros Hf [id r] Hr%elem_of_map_to_list. by apply (Hf id r).
Qed.

Lemma find_rotated_None d id : find_rotated d id = None <-> forall i r, capabilities d !! i = Some r -> cp_from r <> Some id.
Proof.
  unfold find_rotated. rewrite fmap_None, list_find_None, Forall_forall. split.
  - intros Hf i r Hr. by apply (Hf (i, r)), elem_of_map_to_list.
  - intros Hf [i r] Hr%elem_of_map_to_list. by apply (Hf i r).
Qed.

Lemma find_kid_iff d kid id r :
  db_ok d -> find_kid d kid = Some (id, r) <-> capabilities d !! id = Some r /\ cp_kid r = kid.
Proof.
  intros Hok. split; [apply find_kid_Some|]. intros [Hr Hk]. destruct (find_kid d kid) as [[j s]|] eqn:E.
  - apply find_kid_Some in E as [Hs Hks]. assert (j = id) as -> by (eapply (ok_kids _ Hok); [done|done|congruence]). congruence.
  - rewrite find_kid_None in E. by destruct (E id r Hr).
Qed.

Lemma view_iff d kid x :
  db_ok d -> view_of d kid = Some x <->
  exists id r ib, capabilities d !! id = Some r /\ cp_kid r = kid /\ inboxes d !! cp_inbox r = Some ib /\ x = record_of ib id r.
Proof.
  intros Hok. unfold view_of. split.
  - destruct (find_kid d kid) as [[id r]|] eqn:E; [|done]. apply find_kid_iff in E as [Hr Hk]; [|done].
    intros (ib & Hib & ->)%fmap_Some. by exists id, r, ib.
  - intros (id & r & ib & Hr & Hk & Hib & ->). rewrite (proj2 (find_kid_iff d kid id r Hok)) by done. by rewrite Hib.
Qed.

Lemma view_None d kid : db_ok d -> view_of d kid = None -> find_kid d kid = None.
Proof.
  intros Hok. unfold view_of. destruct (find_kid d kid) as [[id r]|] eqn:E; [|done].
  apply find_kid_Some in E as [Hr _]. destruct (ok_refs _ Hok) as (_ & _ & R3). destruct (R3 id r Hr) as [ib ->]. done.
Qed.

Lemma view_same d d' : same_tables d d' -> view_of d' = view_of d.
Proof. intros [E1 _ _ _ E5 _ _ _]. unfold view_of, find_kid. by rewrite E1, E5. Qed.

Lemma kid_valid kid : length kid = 24%nat -> forallb lower_hex kid = true -> validCapabilityKID kid = true.
Proof.
  intros Hl Hx. unfold validCapabilityKID. rewrite (proj2 (Z.eqb_eq _ _)) by (unfold zlen; lia). cbn [negb].
  rewrite runes_ascii.
  - clear Hl. induction kid as [|c l IH]; [done|]. cbn in Hx |- *. apply andb_true_iff in Hx as [Hc Hx]. by rewrite IH, andb_true_r.
  - rewrite forallb_forall in *. intros c Hc. by apply lower_hex_ascii, Hx.
Qed.

Lemma hydrate_scan id r active expires :
  capability_check r = true ->
  hydrateCapabilityRecord (scan_row id r active expires) (cp_digest r) (cp_scope r) = Ok (full_record id r active expires).
Proof.
  unfold capability_check. intros Hc. bool_to_prop. unfold hydrateCapabilityRecord.
  rewrite (proj2 (Z.eqb_eq (zlen (cp_digest r)) 32)) by (unfold zlen; lia). cbn [negb].
  assert (Z.land (cp_scope r) allCapabilityScopes = cp_scope r) as Hm by done. apply mask_range in Hm as Hr.
  rewrite (proj2 (Z.leb_gt (cp_scope r) 0)) by lia. rewrite (proj2 (Z.ltb_ge MaxUint32 _)) by (unfold MaxUint32; lia).
  cbn [orb]. unfold scopeSetFromDatabase, ScopeSetFromMask, uint32. rewrite Z.mod_small by lia.
  rewrite (proj2 (Z.leb_gt (cp_scope r) 0)) by lia. rewrite (proj2 (Z.ltb_ge MaxUint32 _)) by (unfold MaxUint32; lia).
  cbn [orb]. rewrite (proj2 (Z.eqb_neq (cp_scope r) 0)) by lia. rewrite Hm, Z.eqb_refl. done.
Qed.

(** Writing one row changes the view of its identifier only. *)
Lemma view_insert d d' id row ib :
  db_ok d -> db_ok d' -> inboxes d' = inboxes d -> capabilities d' = <[id := row]> (capabilities d) ->
  inboxes d !! cp_inbox row = Some ib ->
  (forall old, capabilities d !! id = Some old -> cp_kid old = cp_kid row) ->
  forall kid, view_of d' kid = if bool_decide (kid = cp_kid row) then Some (record_of ib id row) else view_of d kid.
Proof.
  intros Hok Hok' Hin Hcap Hib Hold kid. case_bool_decide as Hk.
  - apply view_iff; [done|]. exists id, row, ib. rewrite Hin, Hcap, lookup_insert_eq. done.
  - apply option_eq. intros x. rewrite !view_iff by done. rewrite Hin, Hcap. split.
    + intros (i & r & ib' & Hr & Hkr & Hib' & ->). exists i, r, ib'. split; [|done].
      apply lookup_insert_Some in Hr as [[-> <-]|[_ Hr]]; [congruence|done].
    + intros (i & r & ib' & Hr & Hkr & Hib' & ->). exists i, r, ib'. split; [|done].
      rewrite lookup_insert_ne; [done|]. intros <-. rewrite (Hold r Hr) in Hkr. congruence.
Qed.

(** A table with one row written keeps its constraints. *)
Lemma capability_insert_ok d d' id row :
  db_ok d -> caps_wf d -> d' = set_next (set_capabilities d (<[id := row]> (capabilities d))) (db_next d') ->
  capability_check row = true -> length id = 16%nat -> is_Some (inboxes d !! cp_inbox row) ->
  (forall i r, i <> id -> capabilities d !! i = Some r -> cp_kid r <> cp_kid row /\ (cp_from row = None \/ cp_from r <> cp_from row)) ->
  db_ok d' /\ caps_wf d'.
Proof.
  intros [[R1 [R2 R3]] C A K O S D Q] Hwf -> Hc Hl Hin Hother. split.
  - split; cbn; try done.
    + split; [done|]. split; [done|]. intros i p. cbn. rewrite lookup_insert_Some. intros [[<- <-]|[_ Hp]]; [done|]. by apply (R3 i).
    + intros i j r s. rewrite !lookup_insert_Some. intros [[<- <-]|[Hi Hr]] [[<- <-]|[Hj Hs]] Heq; [done| | |by eapply K].
      * destruct (Hother j s) as [? _]; [done|done|congruence].
      * destruct (Hother i r) as [? _]; [done|done|congruence].
    + intros i j r s x. rewrite !lookup_insert_Some. intros [[<- <-]|[Hi Hr]] [[<- <-]|[Hj Hs]] H1 H2; [done| | |by eapply O].
      * destruct (Hother j s) as [_ [?|?]]; [done|done|congruence|congruence].
      * destruct (Hother i r) as [_ [?|?]]; [done|done|congruence|congruence].
    + intros i p. rewrite lookup_insert_Some. intros [[<- <-]|[_ Hp]]; [|by apply (S i)].
      unfold capability_check in Hc. bool_to_prop. done.
  - intros i r. cbn. rewrite lookup_insert_Some. intros [[<- <-]|[_ Hr]]; [done|by apply Hwf].
Qed.

Lemma insert_capability_ok row d d' id ib :
  db_ok d -> caps_wf d -> inboxes d !! cp_inbox row = Some ib -> insert_capability row d = (d', Ok id) ->
  db_ok d' /\ caps_wf d' /\ db_oracle d' = db_oracle d /\ capability_check row = true /\ view_of d (cp_kid row) = None /\
  inboxes d' = inboxes d /\ length id = 16%nat /\
  forall kid, view_of d' kid = if bool_decide (kid = cp_kid row) then Some (record_of ib id row) else view_of d kid.
Proof.
  intros Hok Hwf Hib. unfold insert_capability. destruct (capability_check row) eqn:Hc; [|done]. cbn [negb].
  destruct (capabilities d !! new_uuid d) eqn:Eu; [done|]. destruct (find_kid d (cp_kid row)) eqn:Ek; [done|].
  destruct (cp_from row ≫= find_rotated d) eqn:Ef; [done|]. intros [= <- <-].
  set (d' := set_next _ _). assert (length (new_uuid d) = 16%nat) as Hl by apply length_be_encode.
  destruct (capability_insert_ok d d' (new_uuid d) row) as [Hok' Hwf']; try done.
  { intros i r _ Hr. rewrite find_kid_None in Ek. split; [by apply (Ek i)|].
    destruct (cp_from row) as [x|] eqn:Ex; [|by left]. cbn in Ef. rewrite find_rotated_None in Ef. right. by apply (Ef i). }
  do 4 (split; [done|]). split; [unfold view_of; by rewrite Ek|]. do 2 (split; [done|]).
  apply view_insert; try done. intros old Hold. congruence.
Qed.

Lemma insert_capability_err row d d' v : insert_capability row d = (d', Err v) -> d' = d.
Proof.
  unfold insert_capability. destruct (negb _); [congruence|]. destruct (capabilities d !! _); [congruence|].
  destruct (find_kid d _); [congruence|]. destruct (cp_from row ≫= find_rotated d); congruence.
Qed.

(** Setting [revoked_at]. *)
Definition revoked_row (t : Z) (r : capability_row) : capability_row :=
  CapabilityRow (cp_inbox r) (cp_kid r) (cp_digest r) (cp_scope r) (cp_created r) (cp_expires r) (cp_used r)
    (Some (default t (cp_revoked r))) (cp_from r).

Lemma revoke_row_ok d u r t :
  db_ok d -> caps_wf d -> capabilities d !! u = Some r -> capability_check (revoked_row t r) = true ->
  let d' := set_capabilities d (<[u := revoked_row t r]> (capabilities d)) in
  db_ok d' /\ caps_wf d' /\ exists ib, inboxes d !! cp_inbox r = Some ib /\
  forall kid, view_of d' kid = if bool_decide (kid = cp_kid r) then Some (revoked_record t (record_of ib u r)) else view_of d kid.
Proof.
  intros Hok Hwf Hr Hc d'. destruct (ok_refs _ Hok) as (_ & _ & R3). destruct (R3 u r Hr) as [ib Hib].
  destruct (capability_insert_ok d d' u (revoked_row t r)) as [Hok' Hwf']; try done.
  - by apply (Hwf u r).
  - intros i s Hne Hs. cbn. split.
    + intros Heq. apply Hne. by eapply (ok_kids _ Hok).
    + destruct (cp_from r) as [x|] eqn:Ex; [|by left]. right. intros Heq. apply Hne. by eapply (ok_rotations _ Hok).
  - do 2 (split; [done|]). exists ib. split; [done|]. intros kid. rewrite (view_insert d d' u (revoked_row t r) ib); try done.
    intros old Hold. assert (old = r) as -> by congruence. done.
Qed.
End View.

(** ** Keeping the promises *)

Definition foreign_oracle (d : db) : Prop := Forall (λ o, match o with Some e => foreign e | None => True end) (db_oracle d).

Definition inv_db (d : db) : Prop := db_ok d /\ caps_wf d /\ foreign_oracle d.

Section Laws.
Context `{!UUIDLib} `{!UUIDSpec _}.

Lemma foreign_wrap text e : foreign e -> foreign (EWrap text e).
Proof. done. Qed.

Lemma statement_foreign t d d' r :
  foreign_oracle d -> statement t d = (d', r) -> foreign_oracle d' /\ match r with Err e => foreign e | Ok _ => True end.
Proof.
  unfold statement, foreign_oracle. destruct (db_oracle d) as [|[e|] l] eqn:E; intros Hf; intros [= <- <-]; cbn.
  - by rewrite E.
  - by inversion Hf.
  - by inversion Hf.
Qed.

Lemma same_inv d d' : same_tables d d' -> foreign_oracle d' -> inv_db d -> inv_db d'.
Proof.
  intros S Hf (Hok & Hwf & _). split; [by eapply same_tables_ok|]. split; [|done].
  intros id r. rewrite (sm_capabilities _ _ S). apply Hwf.
Qed.

Lemma statement_view t d d' r :
  inv_db d -> statement t d = (d', r) ->
  inv_db d' /\ same_tables d d' /\ view_of d' = view_of d /\ match r with Err e => foreign e | Ok _ => True end.
Proof.
  intros Hi E. destruct (statement_foreign _ _ _ _ (proj2 (proj2 Hi)) E) as [Hf Hr].
  apply statement_same in E as [S _]. split; [by eapply same_inv|]. split; [done|]. split; [by apply view_same|done].
Qed.

Lemma query_view {A} t (f : db -> A) d d' r :
  inv_db d -> query t f d = (d', r) ->
  inv_db d' /\ same_tables d d' /\ view_of d' = view_of d /\ match r with Err e => foreign e | Ok a => a = f d' end.
Proof.
  intros Hi [(d1 & u & E & Hx)|(e & E & ->)]%dbind_inv; apply statement_view in E as (Hi1 & S & V & Hr); try done.
  injection Hx as <- <-. done.
Qed.

Lemma transaction_view {A} bt ct (m : DB A) (P : (bytes -> option CapabilityRecord) -> (bytes -> option CapabilityRecord) -> A -> Prop) d d' x :
  (forall d1 d2 r, inv_db d1 -> view_of d1 = view_of d -> m d1 = (d2, r) ->
    foreign_oracle d2 /\ match r with Ok a => inv_db d2 /\ P (view_of d1) (view_of d2) a | Err _ => True end) ->
  inv_db d -> transaction bt ct m d = (d', x) ->
  inv_db d' /\
  match x with
  | Ok a => P (view_of d) (view_of d') a
  | Err e => view_of d' = view_of d \/ foreign e /\ exists a, P (view_of d) (view_of d') a
  end.
Proof.
  intros Hm Hi. unfold transaction. destruct (statement bt d) as [d1 [u|e]] eqn:E1;
    destruct (statement_view _ _ _ _ Hi E1) as (Hi1 & S1 & V1 & F1); [|intros [= <- <-]; auto].
  destruct (m d1) as [d2 [a|e]] eqn:E2; destruct (Hm _ _ _ Hi1 V1 E2) as [Hf2 H2].
  2:{ intros [= <- <-]. split; [by eapply same_inv; [apply rollback_same| |]|left]. apply view_same, rollback_same. }
  destruct H2 as [Hi2 HP]. rewrite V1 in HP.
  destruct (statement ct d2) as [d3 [u3|e]] eqn:E3; destruct (statement_view _ _ _ _ Hi2 E3) as (Hi3 & S3 & V3 & F3).
  2:{ intros [= <- <-]. split; [eapply same_inv; [apply rollback_same|apply Hi3|done]|left]. apply view_same, rollback_same. }
  destruct (statement ct d3) as [d4 [u4|e]] eqn:E4; destruct (statement_view _ _ _ _ Hi3 E4) as (Hi4 & S4 & V4 & F4);
    intros [= <- <-]; rewrite V4, V3; [done|]. split; [done|]. right. split; [done|]. by exists a.
Qed.

Lemma known_uuid d id : inv_db d -> known (view_of d) id -> exists u, length u = 16%nat /\ id = uuid_string u.
Proof.
  intros (Hok & Hwf & _) (kid & x & Hx & <-). apply view_iff in Hx as (u & r & ib & Hr & _ & _ & ->); [|done].
  exists u. split; [by apply (Hwf u r)|done].
Qed.

(** *** Rotation *)

Lemma rotate_body_view u c t d d' x :
  length u = 16%nat -> inv_db d -> rotate_body u c t d = (d', x) ->
  foreign_oracle d' /\ match x with
  | Ok r => inv_db d' /\ rotated_to (view_of d) (view_of d') (uuid_string u) c r
  | Err _ => True
  end.
Proof.
  intros Hlu Hi [(d1 & found & E1 & Hx)|(e & E1 & ->)]%dbind_inv; apply query_view in E1 as (Hi1 & S1 & V1 & F1);
    [subst found|done| |done]. 2:{ split; [apply Hi1|done]. }
  destruct (capabilities d1 !! u) as [cur|] eqn:Ecur; [|injection Hx as <- <-; split; [apply Hi1|done]].
  destruct (inboxes d1 !! cp_inbox cur) as [ib|] eqn:Eib; [|injection Hx as <- <-; split; [apply Hi1|done]].
  cbn [fmap option_fmap option_map] in Hx.
  destruct (cp_revoked cur) eqn:Erev; [injection Hx as <- <-; split; [apply Hi1|done]|].
  destruct (negb (bool_decide (in_status ib = Active)) || _ || _) eqn:Elive; [injection Hx as <- <-; split; [apply Hi1|done]|].
  destruct (scopeSetFromDatabase (cp_scope cur)) as [scopes|] eqn:Esc; [|injection Hx as <- <-; split; [apply Hi1|done]].
  bool_to_prop. pose proof Hi1 as (Hok1 & Hwf1 & _). destruct (Hwf1 u cur Ecur) as [Hcur _].
  assert (scopes = cp_scope cur) as ->.
  { unfold capability_check in Hcur. bool_to_prop.
    assert (Z.land (cp_scope cur) allCapabilityScopes = cp_scope cur) as Hm by done. apply mask_range in Hm as Hr.
    unfold scopeSetFromDatabase, ScopeSetFromMask, uint32 in Esc. rewrite Z.mod_small in Esc by lia.
    destruct (_ || _); [done|]. destruct (_ || _); [done|]. congruence. }
  set (row := CapabilityRow _ (rc_KID c) _ _ _ _ _ _ _) in Hx.
  change (CapabilityRow (cp_inbox cur) _ _ _ _ _ _ (Some (pg_time t)) _) with
    (CapabilityRow (cp_inbox cur) (cp_kid cur) (cp_digest cur) (cp_scope cur) (cp_created cur) (cp_expires cur)
       (cp_used cur) (Some (default (pg_time t) None)) (cp_from cur)) in Hx.
  rewrite <- Erev in Hx. change (CapabilityRow (cp_inbox cur) _ _ _ _ _ _ (Some (default (pg_time t) _)) _) with (revoked_row (pg_time t) cur) in Hx.
  apply dbind_inv in Hx as [(d2 & u2 & E2 & Hx)|(e & E2 & ->)]; apply statement_view in E2 as (Hi2 & S2 & V2 & F2);
    try done; [|by split; [apply Hi2|]].
  destruct (capability_check (revoked_row (pg_time t) cur)) eqn:Ec; cbn [negb] in Hx.
  2:{ apply dbind_inv in Hx as [(? & ? & [=] & _)|(e & [= <- <-] & ->)]. split; [apply Hi2|done]. }
  apply dbind_inv in Hx as [(d3 & u3 & [= <- <-] & Hx)|(e & [=] & _)].
  pose proof Hi2 as (Hok2 & Hwf2 & Hf2). rewrite <- (sm_capabilities _ _ S2) in Ecur. rewrite <- (sm_inboxes _ _ S2) in Eib.
  destruct (revoke_row_ok d2 u cur (pg_time t) Hok2 Hwf2 Ecur Ec) as (Hok3 & Hwf3 & ib3 & Hib3 & V3).
  assert (ib3 = ib) as -> by congruence. set (d3 := set_capabilities d2 _) in *.
  assert (inv_db d3) as Hi3 by done.
  apply dbind_inv in Hx as [(d4 & u4 & E4 & Hx)|(e & E4 & ->)]; apply statement_view in E4 as (Hi4 & S4 & V4 & F4);
    try done; [|by split; [apply Hi4|]].
  pose proof Hi4 as (Hok4 & Hwf4 & Hf4).
  destruct (insert_capability row d4) as [d5 [id|v]] eqn:E5; [|injection Hx as <- <-; apply insert_capability_err in E5 as ->; done].
  assert (inboxes d4 !! cp_inbox row = Some ib) as Hib4 by (rewrite (sm_inboxes _ _ S4); exact Eib).
  destruct (insert_capability_ok row d4 d5 id ib Hok4 Hwf4 Hib4 E5) as (Hok5 & Hwf5 & Hf5 & Hrow & Vn & _ & Hlid & V5).
  rewrite (hydrate_scan _ row) in Hx by done. injection Hx as <- <-.
  assert (foreign_oracle d5) as Hfo by (unfold foreign_oracle; by rewrite Hf5). split; [done|]. split; [done|].
  exists (record_of ib u cur), (pg_time t). rewrite V4, V3, V2, V1 in Vn. cbn [cp_kid row] in Vn.
  destruct (decide (rc_KID c = cp_kid cur)) as [Heq|Hne]; [rewrite bool_decide_eq_true_2 in Vn by done; done|].
  rewrite bool_decide_eq_false_2 in Vn by done.
  assert (view_of d (cp_kid cur) = Some (record_of ib u cur)) as Vold.
  { rewrite <- V1, <- V2. apply view_iff; [done|]. by exists u, cur, ib. }
  assert (bool_decide (in_status ib = Active) = true) as Hact by (by apply bool_decide_eq_true_2).
  split; [exact Vold|]. split; [done|]. split; [exact Erev|]. split; [exact Vn|]. do 7 (split; [done|]). split; [done|].
  intros kid. rewrite V5, V4, V3, V2, V1. unfold record_of. rewrite Hact. done.
Qed.

Lemma rotate_view w id c t w' x :
  inv_db (h_db w) -> known (view_of (h_db w)) id -> lift (RotateCapability id c t) w = (w', x) ->
  inv_db (h_db w') /\
  match x with
  | Ok r => rotated_to (view_of (h_db w)) (view_of (h_db w')) id c r
  | Err e => view_of (h_db w') = view_of (h_db w) \/
      errors_is e ErrCapabilityKIDConflict = false /\ exists r, rotated_to (view_of (h_db w)) (view_of (h_db w')) id c r
  end.
Proof.
  intros Hi Hk. destruct (known_uuid _ _ Hi Hk) as (u & Hl & ->). unfold lift, RotateCapability.
  rewrite uuid_parse_string by done. destruct (validateReplacementCapability c t); [intros [= <- <-]; auto|].
  destruct (transaction _ _ _ (h_db w)) as [d' y] eqn:E. intros [= <- <-]. cbn [h_db].
  apply (transaction_view _ _ _ (λ v v' r, rotated_to v v' (uuid_string u) c r)) in E as [Hi' Hx]; [|intros; by eapply rotate_body_view|done].
  split; [done|]. destruct y; [done|]. destruct Hx as [?|[[_ ?] ?]]; auto.
Qed.

(** *** Lookup *)

Lemma kid_of_row d kid id r : caps_wf d -> find_kid d kid = Some (id, r) -> validCapabilityKID kid = true.
Proof.
  intros Hwf [Hr <-]%find_kid_Some. destruct (Hwf id r Hr) as [Hc _]. unfold capability_check in Hc. bool_to_prop. by apply kid_valid.
Qed.

Lemma find_view kid d d' x :
  inv_db d -> FindCapabilityByKID kid d = (d', x) ->
  inv_db d' /\ view_of d' = view_of d /\
  match x with
  | Ok r => view_of d kid = Some r
  | Err e => errors_is e ErrCapabilityNotFound = true -> view_of d kid = None
  end.
Proof.
  intros Hi. pose proof Hi as (Hok & Hwf & _). unfold FindCapabilityByKID. destruct (validCapabilityKID kid) eqn:Ev; cbn [negb].
  2:{ intros [= <- <-]. do 2 (split; [done|]). intros _. unfold view_of. destruct (find_kid d kid) as [[id r]|] eqn:E; [|done].
      apply kid_of_row in E; [congruence|done]. }
  intros [(d1 & found & E1 & Hx)|(e & E1 & ->)]%dbind_inv; apply query_view in E1 as (Hi1 & S1 & V1 & F1); try done.
  2:{ do 2 (split; [done|]). destruct F1. congruence. }
  rewrite <- V1. subst found. unfold view_of. destruct (find_kid d1 kid) as [[id r]|] eqn:E; [|by injection Hx as <- <-].
  destruct (inboxes d1 !! cp_inbox r) as [ib|] eqn:Eib; cbn [fmap option_fmap option_map] in Hx |- *; [|by injection Hx as <- <-].
  apply find_kid_Some in E as [Hr _]. rewrite hydrate_scan in Hx by (by eapply Hi1). by injection Hx as <- <-.
Qed.

Lemma find_calm kid d r :
  inv_db d -> db_oracle d = [] -> view_of d kid = Some r -> FindCapabilityByKID kid d = (d, Ok r).
Proof.
  intros (Hok & Hwf & _) Hor. unfold view_of. destruct (find_kid d kid) as [[id row]|] eqn:E; [|done].
  intros (ib & Hib & ->)%fmap_Some. unfold FindCapabilityByKID. rewrite (kid_of_row _ _ _ _ Hwf E). cbn [negb].
  unfold query, statement, dbind. rewrite Hor, E, Hib. cbn.
  apply find_kid_Some in E as [Hr _]. by rewrite hydrate_scan by (by eapply Hwf).
Qed.

(** *** Creation *)

Lemma unavailable_view c d d' x :
  inv_db d -> mapUnavailableInbox c d = (d', x) -> inv_db d' /\ view_of d' = view_of d /\ exists e, x = Err e.
Proof.
  intros Hi [(d1 & found & E1 & Hx)|(e & E1 & ->)]%dbind_inv; apply query_view in E1 as (Hi1 & S1 & V1 & F1); try by eauto.
  assert (d' = d1 /\ exists e, x = Err e) as [-> ?]; [|done].
  destruct found as [r|]; [|injection Hx as <- <-; eauto]. repeat case_match; injection Hx as <- <-; eauto.
Qed.

Lemma create_view c d d' x :
  inv_db d -> CreateCapability c d = (d', x) ->
  inv_db d' /\
  match x with
  | Ok r => created_record c r /\ view_of d (nc_KID c) = None /\ exists e, cr_ExpiresAt r <= e /\ forall kid,
      view_of d' kid = if bool_decide (kid = nc_KID c) then Some (with_inbox_expiry e r) else view_of d kid
  | Err _ => view_of d' = view_of d
  end.
Proof.
  intros Hi. unfold CreateCapability. destruct (validateNewCapability c); [by intros [= <- <-]|].
  destruct (uuid_parse (nc_InboxID c)) as [inbox|]; [|by intros [= <- <-]]. set (row := CapabilityRow _ _ _ _ _ _ _ _ _).
  intros [(d1 & u & E1 & Hx)|(e & E1 & ->)]%dbind_inv; apply statement_view in E1 as (Hi1 & S1 & V1 & F1); try done.
  destruct (accepts_capability d1 inbox (pg_time (nc_CreatedAt c)) (pg_time (nc_ExpiresAt c))) eqn:Ea; cbn [negb] in Hx.
  2:{ apply unavailable_view in Hx as (Hi2 & V2 & e & ->); [|done]. split; [done|]. congruence. }
  unfold accepts_capability in Ea. destruct (inboxes d1 !! inbox) as [ib|] eqn:Eib; [|done]. bool_to_prop.
  destruct (insert_capability row d1) as [d2 [id|v]] eqn:E2; [|injection Hx as <- <-; apply insert_capability_err in E2 as ->; done].
  pose proof Hi1 as (Hok1 & Hwf1 & Hf1).
  destruct (insert_capability_ok row d1 d2 id ib Hok1 Hwf1 Eib E2) as (Hok2 & Hwf2 & Hf2 & Hrow & Vn & _ & _ & V2).
  rewrite (hydrate_scan _ row) in Hx by done. injection Hx as <- <-.
  split; [split; [done|split; [done|unfold foreign_oracle; by rewrite Hf2]]|]. split; [done|]. rewrite V1 in *. split; [done|].
  exists (in_expires ib). split; [done|]. intros kid. rewrite V2. unfold record_of, with_inbox_expiry. cbn.
  by rewrite (bool_decide_eq_true_2 (in_status ib = Active)).
Qed.

(** *** Revocation *)

Lemma revoke_view u t d d' x :
  length u = 16%nat -> inv_db d -> RevokeCapability (uuid_string u) t d = (d', x) ->
  inv_db d' /\
  match x with
  | Ok _ => forall kid r, view_of d kid = Some r ->
      view_of d' kid = Some (if bool_decide (cr_ID r = uuid_string u) then revoked_record (pg_time t) r else r)
  | Err _ => view_of d' = view_of d
  end.
Proof.
  intros Hl Hi. unfold RevokeCapability. rewrite uuid_parse_string by done. case_bool_decide; [by intros [= <- <-]|].
  intros [(d1 & u1 & E1 & Hx)|(e & E1 & ->)]%dbind_inv; apply statement_view in E1 as (Hi1 & S1 & V1 & F1); try done.
  destruct (capabilities d1 !! u) as [row|] eqn:Er; [|by injection Hx as <- <-].
  change (CapabilityRow _ _ _ _ _ _ _ _ _) with (revoked_row (pg_time t) row) in Hx.
  destruct (capability_check (revoked_row (pg_time t) row)) eqn:Ec; cbn [negb] in Hx; [|by injection Hx as <- <-].
  pose proof Hi1 as (Hok1 & Hwf1 & Hf1). injection Hx as <- <-.
  destruct (revoke_row_ok d1 u row (pg_time t) Hok1 Hwf1 Er Ec) as (Hok2 & Hwf2 & ib & Hib & V2).
  split; [done|]. intros kid r Hr. rewrite V2. rewrite <- V1 in Hr.
  apply view_iff in Hr as (i & s & ib' & Hs & Hk & Hib' & ->); [|done]. cbn [record_of full_record cr_ID].
  destruct (decide (i = u)) as [->|Hne].
  - assert (s = row) as -> by congruence. assert (ib' = ib) as -> by congruence.
    rewrite (bool_decide_eq_true_2 (kid = _)), (bool_decide_eq_true_2 (uuid_string u = _)) by done. done.
  - rewrite (bool_decide_eq_false_2 (uuid_string i = _)).
    2:{ intros Heq. apply Hne. pose proof (uuid_parse_string i ltac:(by eapply Hwf1)) as P.
        rewrite Heq, uuid_parse_string in P by done. congruence. }
    rewrite (bool_decide_eq_false_2 (kid = _)).
    2:{ intros Heq. apply Hne. eapply (ok_kids _ Hok1); [done|done|congruence]. }
    apply view_iff; [done|]. by exists i, s, ib'.
Qed.

Lemma generate_ok ty random t rest : generateToken ty random = Ok (t, rest) -> token_wf t /\ t_type t = ty.
Proof.
  unfold generateToken, read_full. destruct (token_type_valid ty) eqn:Et; [|done]. cbn [negb].
  destruct (zlen random <? kidBytes) eqn:E1; [done|].
  destruct (zlen (drop _ random) <? secretBytes) eqn:E2; [done|]. intros [= <- _]. bool_to_prop. split; [|done].
  split; [done|]. split.
  - cbn [t_kid]. apply isLowerHex_hex_encode. unfold zlen in *. rewrite length_take. unfold kidBytes in *. lia.
  - cbn [t_secret]. unfold zlen in *. rewrite length_take. unfold secretBytes in *. lia.
Qed.
End Laws.

#[global] Program Instance db_capability_spec `{!UUIDLib} `{!UUIDSpec _} : CapabilitySpec host := {|
  cap_inv w := inv_db (h_db w);
  cap_view w := view_of (h_db w);
  cap_calm w := db_oracle (h_db w) = []
|}.
Next Obligation. intros ? ? w kid r (Hok & _). rewrite view_iff by done. by intros (id & row & ib & _ & <- & _ & ->). Qed.
Next Obligation.
  intros ? ? w k1 k2 r1 r2 (Hok & Hwf & _). rewrite !view_iff by done.
  intros (i & x & ib & Hx & <- & _ & ->) (j & y & jb & Hy & <- & _ & ->). cbn. intros Heq.
  pose proof (uuid_parse_string i ltac:(by eapply Hwf)) as P1. pose proof (uuid_parse_string j ltac:(by eapply Hwf)) as P2.
  rewrite Heq in P1. congruence.
Qed.
Next Obligation.
  intros ? ? w kid w' x Hi. cbn. unfold lift. destruct (FindCapabilityByKID kid (h_db w)) as [d y] eqn:E. intros [= <- <-].
  by apply find_view in E as (? & ? & ?).
Qed.
Next Obligation. intros ? ? w kid r Hi Hc Hv. cbn in *. unfold lift. rewrite (find_calm kid (h_db w) r) by done. by destruct w. Qed.
Next Obligation.
  intros ? ? w c w' x Hi. cbn. unfold lift. destruct (CreateCapability c (h_db w)) as [d y] eqn:E. intros [= <- <-].
  by apply create_view in E.
Qed.
Next Obligation. intros ? ? w id c t w' x Hi Hk E. by apply rotate_view in E. Qed.
Next Obligation.
  intros ? ? w id t w' x Hi Hk. cbn in *. destruct (known_uuid _ _ Hi Hk) as (u & Hl & ->).
  unfold lift. destruct (RevokeCapability _ t (h_db w)) as [d y] eqn:E. intros [= <- <-]. by apply revoke_view in E.
Qed.
Next Obligation.
  intros ? ? w ty w' x Hi. cbn. unfold GenerateToken. destruct (generateToken ty (h_random w)) as [[t rest]|] eqn:E; intros [= <- <-]; [|done].
  cbn. split; [done|]. split; [done|]. by apply generate_ok in E.
Qed.

(** ** A run: issue, authenticate, rotate, revoke *)

Module Demo.
Definition w0 : host := Host DeliveryRepo.Demo.start ((λ n, ascii_of_nat n) <$> seq 0 200) DeliveryRepo.Demo.now.
Definition inbox : InboxID := uuid_string DeliveryRepo.Demo.alice.
Definition later : Z := DeliveryRepo.Demo.now + 1800000000000.

Definition nothing : IssuedCapability := MkIssuedCapability [] [] [] [] 0 0.
Definition value {A} (default : A) (x : res A) : A := match x with Ok a => a | Err _ => default end.

Definition issuing : host * res IssuedCapability := Issue w0 inbox 31 later.
Definition w1 : host := issuing.1.
Definition issued : IssuedCapability := value nothing issuing.2.
Definition rotating : host * res IssuedCapability := Rotate w1 (ic_Plaintext issued).
Definition w2 : host := rotating.1.
Definition issued2 : IssuedCapability := value nothing rotating.2.
Definition revoking : host * res unit := Revoke w1 (ic_Plaintext issued).
Definition w3 : host := revoking.1.

Lemma run_value {A} (dflt : A) (p : host * res A) : is_ok p.2 = true -> p = (p.1, Ok (value dflt p.2)).
Proof. destruct p as [w [a|e]]; [done|by intros [=]]. Qed.

Lemma issued_run : Issue w0 inbox 31 later = (w1, Ok issued).
Proof.
  assert (is_ok issuing.2 = true) as E by (vm_compute; reflexivity). exact (run_value nothing issuing E).
Qed.

Lemma rotated_run : Rotate w1 (ic_Plaintext issued) = (w2, Ok issued2).
Proof.
  assert (is_ok rotating.2 = true) as E by (vm_compute; reflexivity). exact (run_value nothing rotating E).
Qed.

Lemma revoked_run : Revoke w1 (ic_Plaintext issued) = (w3, Ok tt).
Proof.
  assert (revoking.2 = Ok tt) as E by (vm_compute; reflexivity).
  change (revoking = (revoking.1, Ok tt)). rewrite <- E. by destruct revoking.
Qed.

Definition authenticating : host * res Principal := Authenticate w1 (ic_Plaintext issued) [ScopeMessageRead].
Definition principal : Principal := value (MkPrincipal [] [] [] 0 0) authenticating.2.

Lemma authenticated_run : Authenticate w1 (ic_Plaintext issued) [ScopeMessageRead] = (authenticating.1, Ok principal).
Proof.
  assert (is_ok authenticating.2 = true) as E by (vm_compute; reflexivity). exact (run_value _ authenticating E).
Qed.

Lemma w0_inv : cap_inv w0.
Proof.
  split; [apply DeliveryRepo.Demo.start_ok|]. split; [|constructor].
  intros id r Hr. cbn in Hr. by rewrite lookup_empty in Hr.
Qed.

Lemma w1_inv : cap_inv w1.
Proof. apply (cap_step_keeps w0 w1 w0_inv). eapply step_issue, issued_run. Qed.
End Demo.

Lemma authenticate_exact_witness :
  exists r, denotes (cap_view Demo.w1) (ic_Plaintext Demo.issued) r /\
    record_live (host_now Demo.w1) r = true /\ Has (cr_Scopes r) [ScopeMessageRead] = true /\ Demo.principal = principalFromRecord r.
Proof.
  exact (proj2 (proj1 (authenticate_exact Demo.w1 (ic_Plaintext Demo.issued) [ScopeMessageRead] Demo.w1_inv) _ _ Demo.authenticated_run)).
Defined.

Lemma issue_usable_witness :
  Authenticate Demo.w1 (ic_Plaintext Demo.issued) [ScopeInboxRead; ScopeMessageDelete] =
    (Demo.w1, Ok (MkPrincipal (ic_ID Demo.issued) (ic_InboxID Demo.issued) (ic_KID Demo.issued) 31 (ic_ExpiresAt Demo.issued))).
Proof.
  destruct (issue_usable Demo.w0 Demo.w1 Demo.inbox 31 Demo.later Demo.issued Demo.w0_inv Demo.issued_run) as (_ & He & _ & _ & Ha).
  rewrite (Ha Demo.w1 [ScopeInboxRead; ScopeMessageDelete] Demo.w1_inv eq_refl eq_refl); [reflexivity|].
  rewrite He. vm_compute. reflexivity.
Defined.

Lemma rotate_exclusive_witness :
  ic_Scopes Demo.issued2 = 31 /\ forall p, Authenticate Demo.w2 (ic_Plaintext Demo.issued) [] <> (Demo.w2, Ok p).
Proof.
  split; [vm_compute; reflexivity|].
  destruct (rotate_exclusive Demo.w1 Demo.w2 (ic_Plaintext Demo.issued) Demo.issued2 Demo.w1_inv Demo.rotated_run)
    as (old & t & _ & _ & _ & _ & _ & _ & _ & Hdead & _).
  intros p. apply Hdead; [|reflexivity].
  apply (cap_step_keeps Demo.w1 Demo.w2 Demo.w1_inv). eapply step_rotate, Demo.rotated_run.
Defined.

Lemma revoke_final_witness : ~ exists required w p, Authenticate Demo.w3 (ic_Plaintext Demo.issued) required = (w, Ok p).
Proof.
  intros (required & w & p & E).
  exact (revoke_final Demo.w1 Demo.w3 Demo.w3 (ic_Plaintext Demo.issued) Demo.w1_inv Demo.revoked_run (rtc_refl _ _) required w p E).
Defined.
