(* ===== verification/Cursor.v ===== *)
(** * Page cursors on the wire: [internal/httpapi/message_cursor.go] *)

From S2P Require Import Prelude GoStrings Errors Codec Uuid Message Database DeliveryRepo MailboxRepo.

Definition messageCursorVersion : Z := 1.
Definition messageCursorBytes : Z := 1 + 8 + 16.

(** The first instant of the year 1 and the last microsecond of 9999. *)
Definition minimumCursorTime : Z := zero_time.
Definition maximumCursorTime : Z := 253402300799 * 1000000000 + 999999000.

Definition cursor_time_bad (t : Z) : bool :=
  bool_decide (t = zero_time) || (t <? minimumCursorTime) || (maximumCursorTime <? t).

Section Cursor.
Context `{!UUIDLib}.

(** [Truncate(time.Microsecond)] and [UnixMicro] on nanoseconds. *)
Definition encodeMessageCursor (cursor : MessageCursor) : res bytes :=
  match uuid_parse (mc_ID cursor) with
  | None => Err (ENew "message cursor ID is invalid")
  | Some identifier =>
    if negb (uuid_version identifier =? 7) then Err (ENew "message cursor ID is invalid")
    else
      let receivedAt := mc_ReceivedAt cursor / 1000 * 1000 in
      if cursor_time_bad receivedAt then Err (ENew "message cursor time is invalid")
      else Ok (b64_encode (byte_of messageCursorVersion :: be_encode 8 (receivedAt / 1000) ++ identifier))
  end.

(** [nil] is no cursor. *)
Definition decodeMessageCursor (raw : bytes) : res (option MessageCursor) :=
  match raw with
  | [] => Ok None
  | _ =>
    match b64_decode false raw with
    | None => Err (ENew "message cursor is invalid")
    | Some payload =>
      match payload with
      | version :: rest =>
        if negb (zlen payload =? messageCursorBytes) || negb (code version =? messageCursorVersion)
        then Err (ENew "message cursor is invalid")
        else
          let receivedAt := int64_of (be_decode (take 8 rest)) * 1000 in
          if cursor_time_bad receivedAt then Err (ENew "message cursor time is invalid")
          else
            let identifier := drop 8 rest in
            if negb (uuid_version identifier =? 7) then Err (ENew "message cursor ID is invalid")
            else Ok (Some (MkMessageCursor receivedAt (uuid_string identifier)))
      | [] => Err (ENew "message cursor is invalid")
      end
    end
  end.

Lemma int64_of_wrap z : - 2 ^ 63 <= z < 2 ^ 63 -> int64_of (z mod 256 ^ Z.of_nat 8) = z.
Proof.
  intros Hz. change (256 ^ Z.of_nat 8) with (2 ^ 64). unfold int64_of. destruct (Z.leb_spec 0 z).
  - rewrite Z.mod_small by lia. destruct (z <? 2 ^ 63) eqn:E; bool_to_prop; lia.
  - rewrite <- (Z_mod_plus_full z 1 (2 ^ 64)), Z.mod_small by lia.
    destruct (z + 1 * 2 ^ 64 <? 2 ^ 63) eqn:E; bool_to_prop; lia.
Qed.

Lemma be_encode_shift n k z m : (n <= k)%nat -> be_encode n (z + m * 256 ^ Z.of_nat k) = be_encode n z.
Proof.
  revert k. induction n as [|n IH]; intros k Hk; [done|]. cbn [be_encode]. rewrite IH by lia. f_equal. unfold byte_of. do 2 f_equal.
  replace (Z.of_nat k) with (Z.of_nat (k - S n) + 1 + Z.of_nat n) by lia. rewrite !Z.pow_add_r by lia.
  rewrite !Z.mul_assoc, Z.div_add by (apply Z.pow_nonzero; lia). change (256 ^ 1) with 256. apply Z_mod_plus_full.
Qed.

Lemma be_encode_int64 z : be_encode 8 (int64_of z) = be_encode 8 z.
Proof.
  unfold int64_of. destruct (z <? 2 ^ 63); [done|]. rewrite <- (be_encode_shift 8 8 z (-1)) by lia. done.
Qed.

Lemma cursor_time_range t : cursor_time_bad t = false -> zero_time < t <= maximumCursorTime.
Proof.
  unfold cursor_time_bad, minimumCursorTime. rewrite !orb_false_iff, bool_decide_eq_false, !Z.ltb_ge. intros [[? ?] ?]. lia.
Qed.

Context `{!UUIDSpec _}.

(** The payload of a cursor decodes to it. *)
Lemma decode_payload t identifier :
  length identifier = 16%nat -> uuid_version identifier = 7 -> cursor_time_bad (t * 1000) = false ->
  decodeMessageCursor (b64_encode (byte_of messageCursorVersion :: be_encode 8 t ++ identifier)) =
    Ok (Some (MkMessageCursor (t * 1000) (uuid_string identifier))).
Proof.
  intros Hl Hv Ht. pose proof (cursor_time_range _ Ht) as Hr. set (payload := _ :: _).
  unfold decodeMessageCursor. pose proof (b64_decode_encode false payload) as Hd.
  assert (b64_encode payload <> []) as Hne.
  { intros E. pose proof (length_b64_encode payload) as Hlen. rewrite E in Hlen. unfold payload in Hlen. rewrite zlen_cons, zlen_app in Hlen.
    unfold zlen in Hlen. rewrite length_be_encode, Hl in Hlen. vm_compute in Hlen. done. }
  destruct (b64_encode payload) as [|a l]; [done|]. rewrite Hd. unfold payload at 1.
  assert (zlen payload = messageCursorBytes) as ->.
  { unfold payload. rewrite zlen_cons, zlen_app. unfold zlen. rewrite length_be_encode, Hl. done. }
  rewrite Z.eqb_refl, code_byte_of. change (messageCursorVersion mod 256 =? messageCursorVersion) with true. cbn [negb orb].
  rewrite take_app_length', drop_app_length' by (by rewrite length_be_encode). rewrite be_decode_encode, int64_of_wrap, Ht, Hv; [done|].
  unfold maximumCursorTime, zero_time in Hr. lia.
Qed.

(** Page cursors survive the wire.  An encoded cursor decodes to the same
    message identifier and the same instant to the microsecond, which is what
    the database stores; and whatever text decodes to a cursor, that cursor
    encodes again, to a text that decodes to the same payload and cursor, so
    a client cannot obtain a cursor the service would not have issued. *)
Theorem cursor_roundtrip :
  (forall cursor raw, encodeMessageCursor cursor = Ok raw ->
    exists id, uuid_parse (mc_ID cursor) = Some id /\
      decodeMessageCursor raw = Ok (Some (MkMessageCursor (pg_time (mc_ReceivedAt cursor)) (uuid_string id)))) /\
  (forall raw cursor, decodeMessageCursor raw = Ok (Some cursor) ->
    exists raw', encodeMessageCursor cursor = Ok raw' /\ b64_decode false raw' = b64_decode false raw /\
      decodeMessageCursor raw' = Ok (Some cursor)).
Proof.
  split.
  - intros cursor raw. unfold encodeMessageCursor. destruct (uuid_parse (mc_ID cursor)) as [id|] eqn:Eu; [|done].
    destruct (uuid_version id =? 7) eqn:Ev; [|done]. destruct (cursor_time_bad _) eqn:Et; [done|]. cbn [negb]. intros [= <-]. bool_to_prop.
    exists id. split; [done|]. rewrite Z.div_mul by lia. apply decode_payload; [by eapply uuid_parse_length|done|done].
  - intros raw cursor. unfold decodeMessageCursor at 1. destruct raw as [|a raw]; [done|].
    destruct (b64_decode false (a :: raw)) as [[|version rest]|] eqn:Ed; [done| |done].
    destruct (negb _ || _) eqn:Eh; [done|]. destruct (cursor_time_bad _) eqn:Et; [done|].
    destruct (uuid_version (drop 8 rest) =? 7) eqn:Ev; [|done]. cbn [negb]. intros [= <-]. bool_to_prop.
    match goal with H : zlen (version :: rest) = _ |- _ => rename H into Hlen end.
    match goal with H : code version = _ |- _ => rename H into Hver end.
    rewrite zlen_cons in Hlen. unfold zlen, messageCursorBytes in Hlen.
    assert (length (take 8 rest) = 8%nat) as Hl8 by (rewrite length_take; lia).
    assert (length (drop 8 rest) = 16%nat) as Hl16 by (rewrite length_drop; lia).
    unfold encodeMessageCursor. cbn [mc_ID mc_ReceivedAt]. rewrite (uuid_parse_string _ Hl16). rewrite (proj2 (Z.eqb_eq _ _) Ev). cbn [negb].
    set (t := int64_of (be_decode (take 8 rest))) in *. rewrite Z.div_mul, Et, Z.div_mul by lia.
    assert (be_encode 8 t = take 8 rest) as Hbe.
    { unfold t. rewrite be_encode_int64. pose proof (be_encode_decode (take 8 rest)) as Hx. by rewrite Hl8 in Hx. }
    assert (byte_of messageCursorVersion = version) as Hvb by (rewrite <- Hver; apply byte_of_code).
    eexists. split; [done|]. rewrite Hbe, Hvb, take_drop, b64_decode_encode. split; [done|].
    rewrite <- (take_drop 8 rest), <- Hbe, <- Hvb. by apply decode_payload.
Qed.
End Cursor.

(** A cursor as the service issues it. *)
Definition sample_id : uuid := default [] (hex_decode (str "018f0000000070008000000000000001")).
Definition sample : MessageCursor := MkMessageCursor 1800000000123456000 (uuid_string sample_id).

Lemma cursor_roundtrip_witness :
  exists raw, encodeMessageCursor sample = Ok raw /\ decodeMessageCursor raw = Ok (Some sample).
Proof.
  assert (exists raw, encodeMessageCursor sample = Ok raw) as [raw E] by (eexists; vm_compute; reflexivity).
  exists raw. split; [exact E|]. destruct (proj1 cursor_roundtrip sample raw E) as (id & Hid & Hd).
  assert (id = sample_id) as ->.
  { assert (uuid_parse (mc_ID sample) = Some sample_id) as E2 by (vm_compute; reflexivity). congruence. }
  exact Hd.
Defined.
