(* ===== verification/LmtpData.v ===== *)
(** * LMTP DATA: bounded lines, dot-unstuffing and resynchronisation

    [internal/lmtp/data_reader.go].  The connection is the list of bytes still
    to be read followed by a read error ([net.Conn] reports end of stream or a
    failure there); [bufio.Reader.ReadLine] hands out fragments of at most the
    reader's buffer size, and [readLimitedLine] reassembles them. *)

From S2P Require Import Prelude GoStrings Errors.

Definition LF : ascii := "010"%char.
Definition CR : ascii := "013"%char.
Definition CRLF : bytes := [CR; LF].
Definition dot : ascii := "."%char.

(** Remove one trailing CR. *)
Definition strip_cr (l : bytes) : bytes :=
  match reverse l with
  | c :: r => if bool_decide (c = CR) then reverse r else l
  | [] => []
  end.

(** [bufio.Reader.ReadLine] with a buffer of [bufsz] bytes: a fragment,
    whether the line continues, and the bytes left; [None] when the stream is
    exhausted.  A CR at the end of a full buffer is pushed back. *)
Definition read_line (bufsz : nat) (s : bytes) : option (bytes * bool * bytes) :=
  match index_byte (take bufsz s) LF with
  | Some i => Some (strip_cr (take i s), false, drop (S i) s)
  | None =>
    if bool_decide (bufsz <= length s)%nat then
      if bool_decide (last (take bufsz s) = Some CR)
      then Some (take (bufsz - 1) s, true, drop (bufsz - 1) s)
      else Some (take bufsz s, true, drop bufsz s)
    else match s with [] => None | _ => Some (s, false, []) end
  end.

(** What [readLimitedLine] returns. *)
Inductive line_result : Type :=
| Line (l : bytes)
| LineTooLong           (* ErrCommandLineTooLong *)
| LineErr.              (* the reader's own error *)

Section Reader.
(** The size given to [bufio.NewReaderSize] (32 KiB in server.go) and the
    error the exhausted connection reports. *)
Context (bufsz : nat) (conn_err : goerr).

(** The loop of [readLimitedLine]; [None] only when the fuel runs out. *)
Fixpoint read_limited_loop (fuel : nat) (limit : Z) (buffer : bytes) (overLimit : bool)
    (s : bytes) : option (line_result * bytes) :=
  match fuel with
  | O => None
  | S fuel' =>
    match read_line bufsz s with
    | None => Some (LineErr, s)
    | Some (fragment, continued, s') =>
      let '(buffer, overLimit) :=
        if (overLimit : bool) then (buffer, true)
        else if limit <? zlen buffer + zlen fragment then (buffer, true)
        else (buffer ++ fragment, false) in
      if (continued : bool) then read_limited_loop fuel' limit buffer overLimit s'
      else Some (if overLimit then LineTooLong else Line buffer, s')
    end
  end.

(** Every continued fragment takes at least one byte off the stream, so one
    more than its length is enough fuel ([readLimitedLine_total]). *)
Definition readLimitedLine (limit : Z) (s : bytes) : option (line_result * bytes) :=
  read_limited_loop (S (length s)) limit [] false s.

(** [dataReader] *)
Record dataReader := DataReader {
  dr_reader : bytes;
  dr_maxBytes : Z;
  dr_maxLineBytes : Z;
  dr_written : Z;
  dr_pending : bytes;
  dr_ended : bool;
  dr_terminalErr : option goerr
}.

Definition newDataReader (reader : bytes) (maxBytes maxLineBytes : Z) : dataReader :=
  DataReader reader maxBytes maxLineBytes 0 [] false None.

Definition set_terminal (r : dataReader) (reader : bytes) (e : goerr) : dataReader :=
  DataReader reader (dr_maxBytes r) (dr_maxLineBytes r) (dr_written r) (dr_pending r)
    (dr_ended r) (Some e).

Definition set_ended (r : dataReader) (reader : bytes) : dataReader :=
  DataReader reader (dr_maxBytes r) (dr_maxLineBytes r) (dr_written r) (dr_pending r)
    true (dr_terminalErr r).

Definition set_pending (r : dataReader) (pending : bytes) : dataReader :=
  DataReader (dr_reader r) (dr_maxBytes r) (dr_maxLineBytes r) (dr_written r) pending
    (dr_ended r) (dr_terminalErr r).

Definition unstuff (line : bytes) : bytes :=
  match line with
  | c :: ((d :: _) as line') => if bool_decide (c = dot) && bool_decide (d = dot) then line' else line
  | _ => line
  end.

(** [dataReader.Read] into a buffer of [n] bytes: the new state, the bytes
    copied and the error. *)
Definition Read (r : dataReader) (n : nat) : dataReader * bytes * option goerr :=
  if bool_decide (n = 0)%nat then (r, [], None)
  else if negb (bool_decide (dr_pending r = [])) then
    (set_pending r (drop n (dr_pending r)), take n (dr_pending r), None)
  else match dr_terminalErr r with
  | Some e => (r, [], Some e)
  | None =>
    if dr_ended r then (r, [], Some (ESentinel IoEOF))
    else match readLimitedLine (dr_maxLineBytes r) (dr_reader r) with
    | None => (r, [], None)
    | Some (LineTooLong, s) =>
      (set_terminal r s ErrDataLineTooLong, [], Some (ESentinel ErrDataLineTooLong))
    | Some (LineErr, s) => (set_terminal r s conn_err, [], Some conn_err)
    | Some (Line line, s) =>
      if bool_decide (line = [dot]) then (set_ended r s, [], Some (ESentinel IoEOF))
      else
        let line := unstuff line in
        let decodedBytes := zlen line + 2 in
        if dr_maxBytes r - dr_written r <? decodedBytes then
          (set_terminal r s ErrDataTooLarge, [], Some (ESentinel ErrDataTooLarge))
        else
          let pending := line ++ CRLF in
          (DataReader s (dr_maxBytes r) (dr_maxLineBytes r) (dr_written r + decodedBytes)
             (drop n pending) (dr_ended r) (dr_terminalErr r),
           take n pending, None)
    end
  end.

(** The loop of [drain]; [None] only when the fuel runs out. *)
Fixpoint drain_loop (fuel : nat) (r : dataReader) : option (dataReader * option goerr) :=
  match fuel with
  | O => None
  | S fuel' =>
    match readLimitedLine (dr_maxLineBytes r) (dr_reader r) with
    | None => None
    | Some (LineTooLong, s) =>
      drain_loop fuel' (DataReader s (dr_maxBytes r) (dr_maxLineBytes r) (dr_written r)
                          (dr_pending r) (dr_ended r) (dr_terminalErr r))
    | Some (LineErr, s) =>
      Some (DataReader s (dr_maxBytes r) (dr_maxLineBytes r) (dr_written r)
              (dr_pending r) (dr_ended r) (dr_terminalErr r), Some conn_err)
    | Some (Line line, s) =>
      if bool_decide (line = [dot]) then Some (set_ended r s, None)
      else drain_loop fuel' (DataReader s (dr_maxBytes r) (dr_maxLineBytes r) (dr_written r)
                               (dr_pending r) (dr_ended r) (dr_terminalErr r))
    end
  end.

(** [dataReader.drain]: every line takes a byte off the stream. *)
Definition drain (r : dataReader) : option (dataReader * option goerr) :=
  if dr_ended r then Some (r, None)
  else drain_loop (S (length (dr_reader r))) r.

(** A consumer that calls [Read] with buffers of the given sizes and stops at
    the first error, as [io.Copy] does. *)
Fixpoint read_seq (r : dataReader) (sizes : list nat) : dataReader * bytes * option goerr :=
  match sizes with
  | [] => (r, [], None)
  | n :: sizes' =>
    match Read r n with
    | (r', out, Some e) => (r', out, Some e)
    | (r', out, None) => let '(r'', out', e) := read_seq r' sizes' in (r'', out ++ out', e)
    end
  end.
End Reader.

(** The buffer size of [serveConnection]. *)
Definition reader_size : nat := Z.to_nat (32 * 1024).

(** ** Reference definitions *)

(** RFC 5321 dot-stuffing of one line, and the transmission of a message. *)
Definition stuff (line : bytes) : bytes :=
  if bool_decide (head line = Some dot) then dot :: line else line.

Definition wire_line (raw : bytes) : bytes := raw ++ [LF].

Definition wire (raws : list bytes) : bytes := concat (wire_line <$> raws).

Definition transmit (lines : list bytes) : bytes :=
  wire ((λ l, stuff l ++ [CR]) <$> lines) ++ dot :: CRLF.

Definition plain (lines : list bytes) : bytes := concat ((λ l, l ++ CRLF) <$> lines).

(** ** Lemmas on lines *)

Lemma index_byte_None l c : c ∉ l -> index_byte l c = None.
Proof.
  induction l as [|d l IH]; cbn; intros H; [done|].
  rewrite bool_decide_eq_false_2 by set_solver. by rewrite IH by set_solver.
Qed.

Lemma strip_cr_app l1 l2 : l2 <> [] -> strip_cr (l1 ++ l2) = l1 ++ strip_cr l2.
Proof.
  destruct l2 as [|c l2 _] using rev_ind; [done|]. intros _.
  unfold strip_cr. rewrite app_assoc, !reverse_snoc.
  destruct (bool_decide (c = CR)).
  - by rewrite !reverse_involutive.
  - by rewrite app_assoc.
Qed.

Lemma strip_cr_snoc l : strip_cr (l ++ [CR]) = l.
Proof. rewrite strip_cr_app by done. by rewrite app_nil_r. Qed.

Lemma strip_cr_no_cr l : last l <> Some CR -> strip_cr l = l.
Proof.
  destruct l as [|c l _] using rev_ind; [done|]. rewrite last_snoc. intros H.
  unfold strip_cr. rewrite reverse_snoc.
  by rewrite bool_decide_eq_false_2 by congruence.
Qed.

Section ReaderFacts.
Context (bufsz : nat) (conn_err : goerr) (Hbufsz : (2 <= bufsz)%nat).

(** Reading the head of a stream that holds a complete line. *)
Lemma read_line_short l rest :
  LF ∉ l -> (length l < bufsz)%nat ->
  read_line bufsz (l ++ LF :: rest) = Some (strip_cr l, false, rest).
Proof.
  intros Hl Hlen. unfold read_line.
  rewrite take_app_ge by lia.
  destruct (bufsz - length l)%nat as [|k] eqn:Hk; [lia|]. cbn [take].
  rewrite index_byte_found by done.
  rewrite take_app_length. do 2 f_equal.
  change (LF :: rest) with ([LF] ++ rest). rewrite app_assoc.
  rewrite drop_app_ge by (rewrite length_app; cbn; lia).
  rewrite length_app. cbn. by replace (S (length l) - (length l + 1))%nat with 0%nat by lia.
Qed.

Lemma read_line_long l rest :
  LF ∉ l -> (bufsz <= length l)%nat ->
  exists l1 l2, l = l1 ++ l2 /\ l1 <> [] /\ (l2 = [] -> last l <> Some CR) /\
    read_line bufsz (l ++ LF :: rest) = Some (l1, true, l2 ++ LF :: rest).
Proof.
  intros Hl Hlen. unfold read_line.
  rewrite take_app_le by lia.
  rewrite index_byte_None by (intros (i & Hi & _)%elem_of_take; by eapply Hl, list_elem_of_lookup_2).
  rewrite bool_decide_eq_true_2 by (rewrite length_app; lia).
  destruct (bool_decide (last (take bufsz l) = Some CR)) eqn:E.
  - exists (take (bufsz - 1) l), (drop (bufsz - 1) l).
    rewrite take_app_le, drop_app_le by lia. rewrite take_drop.
    repeat split; [intros H%(f_equal length); rewrite length_take in H; cbn in H; lia|].
    intros H%(f_equal length). rewrite length_drop in H. cbn in H. lia.
  - bool_to_prop. exists (take bufsz l), (drop bufsz l).
    rewrite drop_app_le by lia. rewrite take_drop.
    repeat split; [intros H%(f_equal length); rewrite length_take in H; cbn in H; lia|].
    intros H. rewrite <- (take_drop bufsz l), H, app_nil_r. done.
Qed.

Lemma read_limited_loop_line fuel limit buffer over l rest :
  LF ∉ l -> (length l < fuel)%nat ->
  read_limited_loop bufsz fuel limit buffer over (l ++ LF :: rest) =
  Some (if over || (limit <? zlen buffer + zlen (strip_cr l)) then LineTooLong
        else Line (buffer ++ strip_cr l), rest).
Proof.
  revert buffer over l. induction fuel as [|fuel IH]; intros buffer over l Hl Hfuel; [lia|].
  cbn [read_limited_loop].
  destruct (decide (length l < bufsz)%nat) as [Hs|Hs].
  - rewrite read_line_short by done.
    destruct over; cbn; [done|]. by destruct (limit <? _).
  - destruct (read_line_long l rest) as (l1 & l2 & -> & Hne & Hlast & ->); [done|lia|].
    rewrite length_app in *. apply not_elem_of_app in Hl as [_ Hl].
    assert (0 < length l1)%nat by (destruct l1; cbn; [done|lia]).
    assert (strip_cr (l1 ++ l2) = l1 ++ strip_cr l2) as Hstrip.
    { destruct l2 as [|c l2]; [|by apply strip_cr_app].
      rewrite strip_cr_no_cr; [by rewrite !app_nil_r|auto]. }
    rewrite Hstrip, zlen_app. pose proof (zlen_nonneg (strip_cr l2)).
    destruct over; cbn [orb].
    + rewrite IH by (done || lia). done.
    + destruct (limit <? zlen buffer + zlen l1) eqn:E; rewrite IH by (done || lia); cbn [orb].
      * bool_to_prop. by rewrite (proj2 (Z.ltb_lt _ _)) by lia.
      * rewrite zlen_app, <- app_assoc, Z.add_assoc. done.
Qed.

(** A complete line is reassembled independently of how [bufio] fragments it. *)
Lemma readLimitedLine_line limit l rest :
  LF ∉ l ->
  readLimitedLine bufsz limit (l ++ LF :: rest) =
  Some (if limit <? zlen (strip_cr l) then LineTooLong else Line (strip_cr l), rest).
Proof.
  intros Hl. unfold readLimitedLine. rewrite read_limited_loop_line; [|done|].
  - by rewrite zlen_nil, Z.add_0_l.
  - rewrite length_app. cbn. lia.
Qed.

Lemma read_line_progress s f s' :
  read_line bufsz s = Some (f, true, s') -> (length s' < length s)%nat.
Proof.
  unfold read_line. intros H.
  destruct (index_byte _ _) in H; [done|].
  destruct (bool_decide (_ <= _)%nat) eqn:E in H.
  - bool_to_prop. destruct (bool_decide _) in H; simplify_eq; rewrite length_drop; lia.
  - destruct s; done.
Qed.

Lemma read_limited_loop_total fuel limit buffer over s :
  (length s < fuel)%nat -> is_Some (read_limited_loop bufsz fuel limit buffer over s).
Proof.
  revert buffer over s. induction fuel as [|fuel IH]; intros buffer over s Hf; [lia|].
  cbn [read_limited_loop]. destruct (read_line bufsz s) as [[[f c] s']|] eqn:E; [|eauto].
  destruct (if over then _ else _) as [b o]. destruct c; [|eauto].
  apply IH. apply read_line_progress in E. lia.
Qed.

(** ** Lemmas on the wire format *)

Lemma wire_cons raw raws rest : wire (raw :: raws) ++ rest = raw ++ LF :: (wire raws ++ rest).
Proof. unfold wire, wire_line. cbn. by rewrite <- !app_assoc. Qed.

Lemma unstuff_stuff l : unstuff (stuff l) = l.
Proof.
  unfold stuff. destruct l as [|c l]; [done|]. cbn [head].
  destruct (bool_decide (Some c = Some dot)) eqn:E; bool_to_prop.
  - cbn. rewrite !bool_decide_eq_true_2; [done|congruence|done].
  - cbn. rewrite (bool_decide_eq_false_2 (c = dot)) by congruence. by destruct l.
Qed.

Lemma stuff_not_dot l : stuff l <> [dot].
Proof.
  unfold stuff. destruct (bool_decide _) eqn:E; bool_to_prop.
  - destruct l; done.
  - intros ->. done.
Qed.

Lemma LF_not_in_stuff l : LF ∉ l -> LF ∉ stuff l.
Proof. intros H. unfold stuff. destruct (bool_decide _); [|done].
  rewrite not_elem_of_cons. by split.
Qed.
End ReaderFacts.

Section DataFacts.
Context (bufsz : nat) (conn_err : goerr) (Hbufsz : (2 <= bufsz)%nat).

(** *** Reading a well-formed transmission *)

(** The reader is about to deliver [p] and then [lines], with [rest] behind
    the terminator. *)
Definition reading (r : dataReader) (p : bytes) (lines : list bytes) (rest : bytes) : Prop :=
  dr_reader r = transmit lines ++ rest /\ dr_pending r = p /\ dr_ended r = false /\
  dr_terminalErr r = None /\ dr_written r + zlen (plain lines) <= dr_maxBytes r /\
  Forall (λ l, (LF ∉ l) /\ zlen (stuff l) <= dr_maxLineBytes r) lines /\ 1 <= dr_maxLineBytes r.

Lemma plain_cons l ls : plain (l :: ls) = (l ++ CRLF) ++ plain ls.
Proof. done. Qed.

Lemma Read_pending r n p c lines rest :
  reading r (c :: p) lines rest -> (0 < n)%nat ->
  exists r', Read bufsz conn_err r n = (r', take n (c :: p), None) /\
    reading r' (drop n (c :: p)) lines rest /\ (length (drop n (c :: p)) <= length p)%nat.
Proof.
  intros (Hr & Hp & Hrest) Hn. eexists. unfold Read.
  rewrite bool_decide_eq_false_2 by lia. rewrite Hp. cbn [negb].
  rewrite bool_decide_eq_false_2 by done. cbn [negb].
  split; [reflexivity|]. split; [by unfold reading; cbn|].
  rewrite length_drop. cbn. lia.
Qed.

Lemma Read_line r n l lines rest :
  reading r [] (l :: lines) rest -> (0 < n)%nat ->
  exists r', Read bufsz conn_err r n = (r', take n (l ++ CRLF), None) /\
    reading r' (drop n (l ++ CRLF)) lines rest.
Proof using Hbufsz.
  intros (Hr & Hp & He & Ht & Hw & Hl & Hm) Hn. unfold Read.
  rewrite bool_decide_eq_false_2 by lia. rewrite Hp, Ht, He. cbn [negb].
  rewrite bool_decide_eq_true_2 by done. cbn [negb].
  apply Forall_cons in Hl as [[Hlf Hlim] Hl].
  rewrite Hr. unfold transmit at 1. cbn [fmap list_fmap].
  rewrite <- app_assoc, wire_cons, readLimitedLine_line; [|done|].
  2: { rewrite not_elem_of_app, list_elem_of_singleton. split; [by apply LF_not_in_stuff|done]. }
  rewrite strip_cr_snoc, (proj2 (Z.ltb_ge _ _)) by lia.
  rewrite bool_decide_eq_false_2 by apply stuff_not_dot.
  rewrite unstuff_stuff. rewrite plain_cons, !zlen_app in Hw.
  change (zlen CRLF) with 2 in Hw. pose proof (zlen_nonneg (plain lines)).
  rewrite (proj2 (Z.ltb_ge _ _)) by lia.
  eexists; split; [reflexivity|]. repeat split; cbn; try done.
  - unfold transmit. by rewrite <- app_assoc.
  - lia.
Qed.

Lemma Read_end r n rest :
  reading r [] [] rest -> (0 < n)%nat ->
  exists r', Read bufsz conn_err r n = (r', [], Some (ESentinel IoEOF)) /\
    dr_reader r' = rest /\ dr_ended r' = true.
Proof using Hbufsz.
  intros (Hr & Hp & He & Ht & Hw & Hl & Hm) Hn. unfold Read.
  rewrite bool_decide_eq_false_2 by lia. rewrite Hp, Ht, He. cbn [negb].
  rewrite bool_decide_eq_true_2 by done. cbn [negb].
  rewrite Hr. change (transmit [] ++ rest) with ([dot; CR] ++ LF :: rest).
  rewrite readLimitedLine_line; [|done|].
  2: { by apply (bool_decide_unpack _). }
  change (strip_cr [dot; CR]) with [dot]. change (zlen [dot]) with 1.
  rewrite (proj2 (Z.ltb_ge _ _)) by lia.
  rewrite bool_decide_eq_true_2 by done. by eexists.
Qed.

Lemma read_seq_reading sizes r p lines rest :
  reading r p lines rest -> Forall (λ n, 0 < n)%nat sizes ->
  (length p + length (plain lines) < length sizes)%nat ->
  exists r', read_seq bufsz conn_err r sizes = (r', p ++ plain lines, Some (ESentinel IoEOF)) /\
    dr_reader r' = rest /\ dr_ended r' = true.
Proof using Hbufsz.
  revert r p lines. induction sizes as [|n sizes IH]; intros r p lines Hr Hpos Hlen; [cbn in Hlen; lia|].
  apply Forall_cons in Hpos as [Hn Hpos]. cbn [read_seq]. cbn [length] in Hlen.
  destruct p as [|c p].
  - destruct lines as [|l lines].
    + destruct (Read_end r n rest Hr Hn) as (r' & -> & ?). by exists r'.
    + destruct (Read_line r n l lines rest Hr Hn) as (r1 & -> & Hr1).
      destruct (IH r1 _ _ Hr1 Hpos) as (r' & -> & ?).
      { rewrite plain_cons, !length_app in Hlen. rewrite length_drop, length_app.
        cbn [length CRLF] in *. lia. }
      exists r'. by rewrite app_assoc, take_drop.
  - destruct (Read_pending r n p c lines rest Hr Hn) as (r1 & -> & Hr1 & Hlt).
    destruct (IH r1 _ _ Hr1 Hpos) as (r' & -> & ?); [cbn in Hlen; lia|].
    exists r'. by rewrite app_assoc, take_drop.
Qed.

(** *** The byte budget *)

Lemma Read_budget r n r' out e :
  Read bufsz conn_err r n = (r', out, e) ->
  dr_written r <= dr_maxBytes r ->
  dr_maxBytes r' = dr_maxBytes r /\ dr_written r' <= dr_maxBytes r' /\
  zlen out + zlen (dr_pending r') = zlen (dr_pending r) + (dr_written r' - dr_written r).
Proof.
  clear Hbufsz. unfold Read. intros H Hw.
  destruct (bool_decide (n = 0)%nat); [simplify_eq; rewrite zlen_nil; lia|].
  destruct (bool_decide (dr_pending r = [])) eqn:Ep; cbn [negb] in H; bool_to_prop.
  2: { simplify_eq; cbn. rewrite <- (take_drop n (dr_pending r)) at 3. rewrite zlen_app. lia. }
  destruct (dr_terminalErr r); [simplify_eq; rewrite zlen_nil; lia|].
  destruct (dr_ended r); [simplify_eq; rewrite zlen_nil; lia|].
  destruct (readLimitedLine _ _ _) as [[[l| |] s]|]; [|simplify_eq; cbn; rewrite ?zlen_nil; lia..].
  destruct (bool_decide (l = [dot])); [simplify_eq; cbn; rewrite zlen_nil; lia|].
  destruct (_ <? _) eqn:E; [simplify_eq; cbn; rewrite zlen_nil; lia|]. bool_to_prop.
  injection H as <- <- <-. cbn [dr_maxBytes dr_written dr_pending].
  rewrite Ep, zlen_nil, <- zlen_app, take_drop, zlen_app.
  change (zlen CRLF) with 2. lia.
Qed.

Lemma read_seq_budget sizes r r' out e :
  read_seq bufsz conn_err r sizes = (r', out, e) ->
  dr_written r <= dr_maxBytes r ->
  dr_maxBytes r' = dr_maxBytes r /\ dr_written r' <= dr_maxBytes r' /\
  zlen out + zlen (dr_pending r') = zlen (dr_pending r) + (dr_written r' - dr_written r).
Proof.
  clear Hbufsz. revert r out.
  induction sizes as [|n sizes IH]; intros r out; cbn [read_seq]; intros H Hw.
  { simplify_eq. rewrite zlen_nil. lia. }
  destruct (Read bufsz conn_err r n) as [[r1 o1] [e1|]] eqn:E1.
  - simplify_eq. by eapply Read_budget.
  - destruct (read_seq bufsz conn_err r1 sizes) as [[r2 o2] e2] eqn:E2. simplify_eq.
    apply Read_budget in E1 as (Hm & Hw1 & Ho); [|done].
    destruct (IH _ _ E2 Hw1) as (Hm2 & Hw2 & Ho2). rewrite zlen_app. lia.
Qed.

(** *** Resynchronisation *)

Definition terminator (t : bytes) : Prop := t = [dot] \/ t = [dot; CR].

(** The bytes that follow on the connection: some lines that are not the
    terminator, the terminator and then [rest]. *)
Definition before_end (t rest s : bytes) : Prop :=
  exists raws, s = wire raws ++ t ++ LF :: rest /\
    Forall (λ raw, (LF ∉ raw) /\ strip_cr raw <> [dot]) raws.

Definition synced (t rest : bytes) (r : dataReader) : Prop :=
  1 <= dr_maxLineBytes r /\
  if dr_ended r then dr_reader r = rest else before_end t rest (dr_reader r).

Lemma readLimitedLine_before_end t rest s limit :
  terminator t -> 1 <= limit -> before_end t rest s ->
  (readLimitedLine bufsz limit s = Some (Line [dot], rest)) \/
  (exists x s', readLimitedLine bufsz limit s = Some (x, s') /\ x <> Line [dot] /\ x <> LineErr /\
     before_end t rest s' /\ (length s' < length s)%nat).
Proof using Hbufsz.
  intros Ht Hlim (raws & -> & Hraws). destruct raws as [|raw raws].
  - left. change (wire [] ++ t ++ LF :: rest) with (t ++ LF :: rest).
    rewrite readLimitedLine_line; [|done|].
    2: { destruct Ht; subst t; by apply (bool_decide_unpack _). }
    assert (strip_cr t = [dot]) as -> by by destruct Ht; subst t.
    change (zlen [dot]) with 1. by rewrite (proj2 (Z.ltb_ge _ _)) by lia.
  - right. apply Forall_cons in Hraws as [[Hlf Hd] Hraws].
    rewrite wire_cons, readLimitedLine_line by done.
    eexists _, _. split; [reflexivity|].
    repeat split; [by destruct (_ <? _); congruence|by destruct (_ <? _)|by exists raws|].
    rewrite (length_app raw). cbn. lia.
Qed.

Lemma Read_synced t rest r n r' out e :
  terminator t -> synced t rest r -> Read bufsz conn_err r n = (r', out, e) -> synced t rest r'.
Proof using Hbufsz.
  intros Ht [Hm Hs] H. unfold Read in H.
  destruct (bool_decide (n = 0)%nat); [by simplify_eq|].
  destruct (negb _); [by simplify_eq|].
  destruct (dr_terminalErr r); [by simplify_eq|].
  unfold synced. destruct (dr_ended r) eqn:He; [simplify_eq; by rewrite He|].
  destruct (readLimitedLine_before_end t rest (dr_reader r) (dr_maxLineBytes r))
    as [Hx|(x & s' & Hx & Hd & Herr & Hb & _)]; [done..| |].
  - rewrite Hx, bool_decide_eq_true_2 in H by done. injection H as <- <- <-. by split.
  - rewrite Hx in H. destruct x as [l| |]; [|simplify_eq; cbn; by rewrite He|done].
    rewrite bool_decide_eq_false_2 in H by congruence.
    destruct (_ <? _); simplify_eq; cbn; by rewrite ?He.
Qed.

Lemma read_seq_synced t rest sizes r r' out e :
  terminator t -> synced t rest r -> read_seq bufsz conn_err r sizes = (r', out, e) ->
  synced t rest r'.
Proof using Hbufsz.
  intros Ht. revert r out. induction sizes as [|n sizes IH]; intros r out Hs; cbn [read_seq]; intros H.
  { by simplify_eq. }
  destruct (Read bufsz conn_err r n) as [[r1 o1] [e1|]] eqn:E1.
  - simplify_eq. by eapply Read_synced.
  - destruct (read_seq bufsz conn_err r1 sizes) as [[r2 o2] e2] eqn:E2. simplify_eq.
    eapply IH; [|done]. by eapply Read_synced.
Qed.

Lemma drain_loop_synced t rest fuel r :
  terminator t -> 1 <= dr_maxLineBytes r -> before_end t rest (dr_reader r) ->
  (length (dr_reader r) < fuel)%nat ->
  exists r', drain_loop bufsz conn_err fuel r = Some (r', None) /\
    dr_reader r' = rest /\ dr_ended r' = true.
Proof using Hbufsz.
  intros Ht. revert r. induction fuel as [|fuel IH]; intros r Hm Hb Hf; [lia|].
  cbn [drain_loop].
  destruct (readLimitedLine_before_end t rest (dr_reader r) (dr_maxLineBytes r))
    as [->|(x & s' & -> & Hd & Herr & Hb' & Hlt)]; [done..| |].
  - cbn. by eexists.
  - destruct x as [l| |]; [|by apply IH; cbn; try lia|done].
    rewrite bool_decide_eq_false_2 by congruence. by apply IH; cbn; try lia.
Qed.

Lemma drain_synced t rest r :
  terminator t -> synced t rest r ->
  exists r', drain bufsz conn_err r = Some (r', None) /\
    dr_reader r' = rest /\ dr_ended r' = true.
Proof using Hbufsz.
  intros Ht [Hm Hs]. unfold drain. destruct (dr_ended r) eqn:He.
  - by exists r.
  - eapply drain_loop_synced; eauto.
Qed.
End DataFacts.

Section Progress.
Context (bufsz : nat) (conn_err : goerr) (Hbufsz : (2 <= bufsz)%nat).

Lemma index_byte_lt s c i : index_byte s c = Some i -> (i < length s)%nat.
Proof.
  revert i. induction s as [|d s IH]; intros i; [done|]. cbn.
  destruct (bool_decide (d = c)); [intros [= <-]; lia|].
  destruct (index_byte s c) as [j|]; [|done]. intros [= <-]. specialize (IH j eq_refl). lia.
Qed.

Lemma read_line_shrinks s f c s' : read_line bufsz s = Some (f, c, s') -> (length s' < length s)%nat.
Proof using Hbufsz.
  destruct c; [by apply read_line_progress|]. unfold read_line. intros H.
  destruct (index_byte _ _) as [i|] eqn:E in H.
  - apply index_byte_lt in E. rewrite length_take in E. simplify_eq. rewrite length_drop. lia.
  - destruct (bool_decide (_ <= _)%nat) in H; [by destruct (bool_decide _) in H|].
    destruct s; simplify_eq. cbn. lia.
Qed.

Lemma read_limited_loop_shrinks fuel limit buffer over s x s' :
  read_limited_loop bufsz fuel limit buffer over s = Some (x, s') ->
  (length s' <= length s)%nat /\ (x <> LineErr -> (length s' < length s)%nat).
Proof using Hbufsz.
  revert buffer over s. induction fuel as [|fuel IH]; intros buffer over s; [done|].
  cbn [read_limited_loop]. destruct (read_line bufsz s) as [[[f c] s1]|] eqn:E.
  - apply read_line_shrinks in E. destruct (if over then _ else _) as [b o].
    destruct c; [|intros; simplify_eq; lia].
    intros H. apply IH in H. destruct H as [H1 H2]. split; [lia|]. intros Hx. specialize (H2 Hx). lia.
  - intros. simplify_eq. done.
Qed.

Lemma Read_shrinks r n r' out e :
  Read bufsz conn_err r n = (r', out, e) -> (length (dr_reader r') <= length (dr_reader r))%nat.
Proof using Hbufsz.
  unfold Read. intros H.
  destruct (bool_decide (n = 0)%nat); [by simplify_eq|].
  destruct (negb _); [by simplify_eq|].
  destruct (dr_terminalErr r); [by simplify_eq|].
  destruct (dr_ended r); [by simplify_eq|].
  destruct (readLimitedLine _ _ _) as [[x s]|] eqn:E; [|by simplify_eq].
  apply read_limited_loop_shrinks in E as [E _].
  destruct x; [|by simplify_eq..].
  destruct (bool_decide _); [by simplify_eq|]. destruct (_ <? _); by simplify_eq.
Qed.

Lemma read_seq_shrinks sizes r r' out e :
  read_seq bufsz conn_err r sizes = (r', out, e) ->
  (length (dr_reader r') <= length (dr_reader r))%nat.
Proof using Hbufsz.
  revert r out. induction sizes as [|n sizes IH]; intros r out; cbn [read_seq]; intros H.
  { by simplify_eq. }
  destruct (Read bufsz conn_err r n) as [[r1 o1] e1] eqn:E1. apply Read_shrinks in E1.
  destruct e1; [by simplify_eq|].
  destruct (read_seq bufsz conn_err r1 sizes) as [[r2 o2] e2] eqn:E2. simplify_eq.
  apply IH in E2. lia.
Qed.

Lemma drain_loop_total fuel r :
  (length (dr_reader r) < fuel)%nat ->
  exists (r' : dataReader) (e : option goerr), drain_loop bufsz conn_err fuel r = Some (r', e) /\
    (length (dr_reader r') <= length (dr_reader r))%nat.
Proof using Hbufsz.
  revert r. induction fuel as [|fuel IH]; intros r Hf; [lia|]. cbn [drain_loop].
  destruct (read_limited_loop_total bufsz Hbufsz (S (length (dr_reader r))) (dr_maxLineBytes r) []
              false (dr_reader r)) as [[x s] Hx]; [lia|].
  unfold readLimitedLine. rewrite Hx. apply read_limited_loop_shrinks in Hx as [Hle Hlt].
  destruct x as [l| |].
  - destruct (bool_decide _); [by eexists _, _|].
    edestruct (IH (DataReader s (dr_maxBytes r) (dr_maxLineBytes r) (dr_written r) (dr_pending r)
      (dr_ended r) (dr_terminalErr r))) as (r' & e & Hr & Hl); cbn in *; [specialize (Hlt ltac:(done)); lia|].
    exists r', e. split; [done|]. lia.
  - edestruct (IH (DataReader s (dr_maxBytes r) (dr_maxLineBytes r) (dr_written r) (dr_pending r)
      (dr_ended r) (dr_terminalErr r))) as (r' & e & Hr & Hl); cbn in *; [specialize (Hlt ltac:(done)); lia|].
    exists r', e. split; [done|]. lia.
  - by eexists _, _.
Qed.

Lemma drain_total r :
  exists (r' : dataReader) (e : option goerr), drain bufsz conn_err r = Some (r', e) /\
    (length (dr_reader r') <= length (dr_reader r))%nat.
Proof using Hbufsz.
  unfold drain. destruct (dr_ended r); [by eexists _, _|]. apply drain_loop_total. lia.
Qed.
End Progress.

(** ** Properties *)

(** [readLimitedLine] is total, and on a complete line it returns exactly
    the bytes before the LF without one CR, or [ErrCommandLineTooLong] when
    they exceed the limit, and leaves the stream right after the LF, whatever
    the size of the [bufio] buffer that fragments the line. *)
Theorem readLimitedLine_correct (bufsz : nat) (limit : Z) (Hbufsz : (2 <= bufsz)%nat) :
  (forall s, is_Some (readLimitedLine bufsz limit s)) /\
  (forall l rest, LF ∉ l ->
    readLimitedLine bufsz limit (l ++ LF :: rest) =
    Some (if limit <? zlen (strip_cr l) then LineTooLong else Line (strip_cr l), rest)).
Proof.
  split; [intros s; by apply read_limited_loop_total; [|lia]|].
  intros l rest Hl. by apply readLimitedLine_line.
Qed.

(** A line longer than a four-byte buffer, with its CR straddling two fragments. *)
Lemma readLimitedLine_correct_witness :
  readLimitedLine 4 10 (str "abc" ++ CR :: LF :: str "QUIT") = Some (Line (str "abc"), str "QUIT").
Proof.
  apply (proj2 (readLimitedLine_correct 4 10 ltac:(lia)) (str "abc" ++ [CR]) (str "QUIT")).
  by apply (bool_decide_unpack _).
Defined.

(** C28: a dot-stuffed transmission that fits the limits is delivered
    byte for byte: whatever positive buffer sizes the consumer reads with, it
    receives exactly the original lines and then end of file, and the
    connection is left right behind the terminator. *)
Theorem data_roundtrip (bufsz : nat) (conn_err : goerr) (maxBytes maxLineBytes : Z)
    (lines : list bytes) (rest : bytes) (sizes : list nat) :
  (2 <= bufsz)%nat ->
  1 <= maxLineBytes ->
  zlen (plain lines) <= maxBytes ->
  Forall (λ l, (LF ∉ l) /\ zlen (stuff l) <= maxLineBytes) lines ->
  Forall (λ n, 0 < n)%nat sizes ->
  (length (plain lines) < length sizes)%nat ->
  exists r', read_seq bufsz conn_err (newDataReader (transmit lines ++ rest) maxBytes maxLineBytes) sizes
             = (r', plain lines, Some (ESentinel IoEOF)) /\
    dr_reader r' = rest /\ dr_ended r' = true.
Proof.
  intros Hb Hm Hfit Hlines Hsizes Hlen.
  apply (read_seq_reading bufsz conn_err Hb sizes _ [] lines rest); [|done|done].
  repeat split; try done.
Qed.

Lemma data_roundtrip_witness :
  exists r', read_seq 16 IoEOF (newDataReader (transmit [str ".hidden"; str "."; str "body"] ++ str "QUIT") 64 16)
               (replicate 40 3%nat)
             = (r', plain [str ".hidden"; str "."; str "body"], Some (ESentinel IoEOF)) /\
    dr_reader r' = str "QUIT" /\ dr_ended r' = true.
Proof.
  apply (data_roundtrip 16 IoEOF 64 16); apply (bool_decide_unpack _); vm_compute; exact I.
Defined.

(** Whatever the peer sends and however it is read, the bytes handed to
    the content store never exceed the configured maximum. *)
Theorem data_bounded (bufsz : nat) (conn_err : goerr) (maxBytes maxLineBytes : Z)
    (s : bytes) (sizes : list nat) r out e :
  0 <= maxBytes ->
  read_seq bufsz conn_err (newDataReader s maxBytes maxLineBytes) sizes = (r, out, e) ->
  zlen out <= maxBytes.
Proof.
  intros Hm H. apply read_seq_budget in H; [|exact Hm]. cbn [newDataReader dr_maxBytes dr_written dr_pending] in H.
  rewrite zlen_nil in H.
  pose proof (zlen_nonneg (dr_pending r)). lia.
Qed.

Lemma data_bounded_witness : zlen (str "ab" ++ CRLF) <= 5.
Proof.
  apply (data_bounded 16 IoEOF 5 100 (str "ab" ++ CRLF ++ str "cd" ++ CRLF) [8; 8]%nat
    (DataReader [] 5 100 4 [] false (Some (ESentinel ErrDataTooLarge))) _ (Some (ESentinel ErrDataTooLarge)));
    [lia|vm_compute; reflexivity].
Defined.

(** Resynchronisation.  After any number of reads, ending in any error
    (line too long, data too large, the consumer giving up), [drain] leaves
    the connection right after the terminating dot line: no byte of the
    rejected message is ever interpreted as a command, and none of the
    commands that follow is swallowed. *)
Theorem data_resync (bufsz : nat) (conn_err : goerr) (maxBytes maxLineBytes : Z)
    (raws : list bytes) (t rest : bytes) (sizes : list nat) r out e :
  (2 <= bufsz)%nat ->
  1 <= maxLineBytes ->
  terminator t ->
  Forall (λ raw, (LF ∉ raw) /\ strip_cr raw <> [dot]) raws ->
  read_seq bufsz conn_err (newDataReader (wire raws ++ t ++ LF :: rest) maxBytes maxLineBytes) sizes
    = (r, out, e) ->
  exists r', drain bufsz conn_err r = Some (r', None) /\ dr_reader r' = rest /\ dr_ended r' = true.
Proof.
  intros Hb Hm Ht Hraws H. apply (drain_synced bufsz conn_err Hb t rest r Ht).
  apply (read_seq_synced bufsz conn_err Hb t rest sizes _ _ _ _ Ht) in H; [done|].
  split; [done|]. by exists raws.
Qed.

Lemma data_resync_witness :
  exists r', drain 16 IoEOF (DataReader (str "." ++ CRLF ++ str "QUIT") 4 100 0 [] false
                               (Some (ESentinel ErrDataTooLarge))) = Some (r', None) /\
    dr_reader r' = str "QUIT" /\ dr_ended r' = true.
Proof.
  apply (data_resync 16 IoEOF 4 100 [str "too long" ++ [CR]] [dot; CR] (str "QUIT") [8; 8]%nat
    _ [] (Some (ESentinel ErrDataTooLarge))); [lia|lia|by right| |vm_compute; reflexivity].
  repeat constructor; by apply (bool_decide_unpack _).
Defined.
