(* ===== verification/LmtpCommand.v ===== *)
(** * LMTP command lines and envelope addresses

    The parsing functions of [internal/lmtp/session.go]: [splitCommand],
    [parsePath], [canonicalAddress], [parseMailFrom] and [parseRecipient], and
    [ValidInboxLocalPart] of [internal/message/address.go], which promises
    that an address the mailbox creates is accepted here unchanged. *)

From S2P Require Import Prelude GoStrings.

(** Parsers fail with the text sent back to the client. *)
Abbreviation parsed := (result string).

Definition splitCommand (line : bytes) : bytes * bytes :=
  let line := trim_space line in
  if bool_decide (line = []) then ([], [])
  else
    let '(verb, argument, found) := cut line " "%char in
    if negb found then (to_upper verb, [])
    else (to_upper verb, trim_space argument).

Definition bad_envelope_rune (g : seg) : bool :=
  (seg_rune g <=? 32) || (127 <=? seg_rune g) || (seg_rune g =? 60) || (seg_rune g =? 62).

Definition canonicalAddress (address : bytes) (allowEmpty : bool) : parsed bytes :=
  if bool_decide (address = []) && allowEmpty then Ok []
  else if (zlen address <? 3) || (320 <? zlen address) || negb (count_byte address "@"%char =? 1) then
    Err "invalid envelope address"%string
  else
    let '(local, domain, _) := cut address "@"%char in
    if bool_decide (local = []) || bool_decide (domain = []) || has_prefix local [("."%char)]
       || has_suffix local [("."%char)] || contains local (str "..") then
      Err "invalid envelope address"%string
    else if existsb bad_envelope_rune (runes address) then
      Err "SMTPUTF8 and control characters are not supported"%string
    else Ok (to_lower address).

Definition parsePath (argument : bytes) (prefix : string) (allowEmpty : bool)
    : parsed (bytes * list bytes) :=
  let p := str prefix in
  if (zlen argument <? zlen p) || negb (equal_fold (take (length p) argument) p) then
    Err ("expected " +:+ prefix +:+ "<address>")%string
  else
    let remainder := trim_space (drop (length p) argument) in
    if negb (has_prefix remainder (str "<")) then Err "path must start with <"%string
    else match index_byte remainder ">"%char with
    | None => Err "path must end with >"%string
    | Some closing =>
      let rawAddress := drop 1 (take closing remainder) in
      match canonicalAddress rawAddress allowEmpty with
      | Err e => Err e
      | Ok address => Ok (address, fields (trim_space (drop (S closing) remainder)))
      end
    end.

(** One iteration of [parseMailFrom]'s loop over the parameters; the state is
    [(declaredSize, hasSize, hasBody)]. *)
Definition mail_parameter (st : Z * bool * bool) (parameter : bytes) : parsed (Z * bool * bool) :=
  let '(declaredSize, hasSize, hasBody) := st in
  let '(name, value, hasValue) := cut parameter "="%char in
  if bool_decide (to_upper name = str "SIZE") then
    if (hasSize : bool) then Err "SIZE must not be repeated"%string
    else if negb hasValue then Err "SIZE requires a value"%string
    else match parse_int64 value with
    | Some parsed_size =>
      if parsed_size <? 0 then Err "SIZE must be a non-negative integer"%string
      else Ok (parsed_size, true, hasBody)
    | None => Err "SIZE must be a non-negative integer"%string
    end
  else if bool_decide (to_upper name = str "BODY") then
    if (hasBody : bool) then Err "BODY must not be repeated"%string
    else if negb hasValue
         || (negb (bool_decide (to_upper value = str "7BIT"))
             && negb (bool_decide (to_upper value = str "8BITMIME"))) then
      Err "unsupported BODY parameter"%string
    else Ok (declaredSize, hasSize, true)
  else Err "unsupported MAIL parameter"%string.

Fixpoint mail_parameters (st : Z * bool * bool) (ps : list bytes) : parsed (Z * bool * bool) :=
  match ps with
  | [] => Ok st
  | p :: ps' => match mail_parameter st p with
                | Ok st' => mail_parameters st' ps'
                | Err e => Err e
                end
  end.

Definition parseMailFrom (argument : bytes) : parsed (bytes * Z) :=
  match parsePath argument "FROM:" true with
  | Err e => Err e
  | Ok (address, parameters) =>
    match mail_parameters (0, false, false) parameters with
    | Err e => Err e
    | Ok (declaredSize, _, _) => Ok (address, declaredSize)
    end
  end.

Definition parseRecipient (argument : bytes) : parsed bytes :=
  match parsePath argument "TO:" false with
  | Err e => Err e
  | Ok (address, parameters) =>
    if negb (zlen parameters =? 0) then Err "unsupported RCPT parameter"%string
    else Ok address
  end.

(** ** [message.ValidInboxLocalPart] *)

Definition inbox_special (r : Z) : bool := (r =? 46) || (r =? 95) || (r =? 45).

Definition inbox_char (r : Z) : bool :=
  ((97 <=? r) && (r <=? 122)) || ((48 <=? r) && (r <=? 57)) || inbox_special r.

(** The first loop: [range localPart] with the byte index of each rune. *)
Fixpoint local_runes_ok (len : Z) (index : Z) (l : list seg) : bool :=
  match l with
  | [] => true
  | g :: l' =>
    if negb (inbox_char (seg_rune g)) then false
    else if ((index =? 0) || (index =? len - 1)) && inbox_special (seg_rune g) then false
    else local_runes_ok len (index + zlen (seg_raw g)) l'
  end.

(** The second loop: no two adjacent dots. *)
Fixpoint no_double_dot (s : bytes) : bool :=
  match s with
  | a :: ((b :: _) as s') =>
    if bool_decide (a = "."%char) && bool_decide (b = "."%char) then false else no_double_dot s'
  | _ => true
  end.

Definition ValidInboxLocalPart (localPart : bytes) : bool :=
  if (zlen localPart <? 1) || (64 <? zlen localPart) then false
  else if negb (local_runes_ok (zlen localPart) 0 (runes localPart)) then false
  else no_double_dot localPart.

(** ** Lemmas *)

(** A byte allowed in an envelope address. *)
Definition envelope_byte (c : ascii) : bool :=
  in_range 33 126 c && negb (code c =? 60) && negb (code c =? 62).

Lemma envelope_byte_ascii s : forallb envelope_byte s = true -> forallb is_ascii s = true.
Proof.
  rewrite !forallb_forall. intros H c Hc. specialize (H c Hc).
  unfold envelope_byte, in_range, is_ascii in *. bool_to_prop. apply Z.ltb_lt. lia.
Qed.

Lemma bad_rune_ascii c : bad_envelope_rune (ascii_seg c) = negb (envelope_byte c).
Proof.
  unfold bad_envelope_rune, envelope_byte, in_range. cbn [ascii_seg seg_rune].
  destruct (Z.leb_spec (code c) 32), (Z.leb_spec 127 (code c)), (Z.eqb_spec (code c) 60),
    (Z.eqb_spec (code c) 62), (Z.leb_spec 33 (code c)), (Z.leb_spec (code c) 126); cbn; lia.
Qed.

(** The rune loop rejects exactly the strings with a forbidden byte. *)
Lemma bad_runes_bytes s : existsb bad_envelope_rune (runes s) = negb (forallb envelope_byte s).
Proof.
  assert (forallb is_ascii s = true ->
    existsb bad_envelope_rune (runes s) = negb (forallb envelope_byte s)) as Hascii.
  { intros H. rewrite runes_ascii by done. clear H.
    induction s as [|c s IH]; [done|]. cbn [fmap list_fmap existsb forallb].
    by rewrite bad_rune_ascii, IH, negb_andb. }
  destruct (forallb is_ascii s) eqn:E; [by apply Hascii|].
  assert (forallb envelope_byte s = false) as ->.
  { destruct (forallb envelope_byte s) eqn:E2; [|done].
    apply envelope_byte_ascii in E2. congruence. }
  destruct (existsb bad_envelope_rune (runes s)) eqn:E2; [done|].
  rewrite runes_small in E; [done|]. apply forallb_forall. intros g Hg.
  destruct (seg_rune g <? 128) eqn:E3; [done|]. exfalso.
  assert (existsb bad_envelope_rune (runes s) = true); [|congruence].
  apply existsb_exists. exists g. split; [done|]. unfold bad_envelope_rune. bool_to_prop.
  rewrite (proj2 (Z.leb_le 127 _)) by lia. by rewrite orb_true_r.
Qed.

(** What [canonicalAddress] accepts, on bytes. *)
Definition envelope_ok (a : bytes) : bool :=
  (3 <=? zlen a) && (zlen a <=? 320) && (count_byte a "@"%char =? 1) &&
  (let '(local, domain, _) := cut a "@"%char in
   negb (bool_decide (local = [])) && negb (bool_decide (domain = [])) &&
   negb (has_prefix local [("."%char)]) && negb (has_suffix local [("."%char)]) &&
   negb (contains local (str ".."))) &&
  forallb envelope_byte a.

Lemma canonicalAddress_nonempty a e :
  is_ok (canonicalAddress a e) = true -> a <> [] -> envelope_ok a = true /\
  canonicalAddress a e = Ok (lower_byte <$> a).
Proof.
  unfold canonicalAddress, envelope_ok. intros H Hne.
  rewrite (bool_decide_eq_false_2 (a = [])) in * by done. cbn [andb] in *.
  if_in H E1; [done|]. destruct (cut a "@") as [[local domain] f].
  if_in H E2; [done|].
  rewrite bad_runes_bytes in *. destruct (forallb envelope_byte a) eqn:E3; [|by cbn in H].
  cbn [negb]. rewrite to_lower_ascii by by apply envelope_byte_ascii.
  rewrite !orb_false_iff in *. destruct_and!. bool_to_prop.
  rewrite !(proj2 (Z.leb_le _ _)), (proj2 (Z.eqb_eq _ _)) by (done || lia).
  rewrite !bool_decide_eq_false_2 by done.
  by repeat match goal with Hb : _ = false |- _ => rewrite Hb; clear Hb end.
Qed.

Lemma canonicalAddress_envelope a e :
  envelope_ok a = true -> canonicalAddress a e = Ok (lower_byte <$> a).
Proof.
  unfold canonicalAddress, envelope_ok. intros H.
  destruct (cut a "@") as [[local domain] f]. bool_to_prop.
  assert (a <> []) by (intros ->; done).
  rewrite (bool_decide_eq_false_2 (a = [])) by done. cbn [andb].
  rewrite !(proj2 (Z.ltb_ge _ _)), (proj2 (Z.eqb_eq _ _)) by (done || lia).
  cbn [orb negb]. rewrite !bool_decide_eq_false_2 by done.
  rewrite bad_runes_bytes, to_lower_ascii by by apply envelope_byte_ascii.
  by repeat match goal with Hb : ?x = _ |- context [?x] => rewrite Hb; clear Hb end.
Qed.

Lemma envelope_byte_lower c : envelope_byte c = true -> envelope_byte (lower_byte c) = true.
Proof.
  intros Hc.
  assert (implb (envelope_byte c) (envelope_byte (lower_byte c)) = true) as H.
  { clear Hc. byte_check (λ c, implb (envelope_byte c) (envelope_byte (lower_byte c))) c. }
  by rewrite Hc in H.
Qed.

Lemma has_suffix_lower s : has_suffix (lower_byte <$> s) [("."%char)] = has_suffix s [("."%char)].
Proof.
  unfold has_suffix. rewrite <- fmap_reverse.
  apply (has_prefix_fmap lower_byte "."%char (lower_fixes "."%char ltac:(left; vm_compute; done)) _ 1).
Qed.

(** Lower-casing keeps an acceptable address acceptable. *)
Lemma envelope_ok_lower a : envelope_ok a = true -> envelope_ok (lower_byte <$> a) = true.
Proof.
  pose proof (lower_fixes "@"%char ltac:(left; vm_compute; done)) as Hat.
  pose proof (lower_fixes "."%char ltac:(left; vm_compute; done)) as Hdot.
  unfold envelope_ok. rewrite cut_fmap by done. destruct (cut a "@") as [[local domain] f].
  rewrite count_byte_fmap, has_suffix_lower by done.
  change [("."%char)] with (replicate 1 "."%char). change (str "..") with (replicate 2 "."%char).
  rewrite (has_prefix_fmap lower_byte "."%char Hdot local 1).
  rewrite (contains_fmap lower_byte "."%char Hdot local 2).
  replace (zlen (lower_byte <$> a)) with (zlen a) by (unfold zlen; by rewrite length_fmap).
  rewrite (bool_decide_ext (lower_byte <$> local = []) (local = [])) by (by destruct local).
  rewrite (bool_decide_ext (lower_byte <$> domain = []) (domain = [])) by (by destruct domain).
  intros H. apply andb_true_iff in H as [-> Ha]. cbn [andb].
  clear -Ha. induction a as [|c a IH]; [done|]. cbn in Ha |- *.
  apply andb_true_iff in Ha as [Hc Ha]. rewrite envelope_byte_lower by done. by apply IH.
Qed.

(** *** Local parts the mailbox accepts *)

Lemma local_runes_small len index l :
  local_runes_ok len index l = true -> forallb (λ g, inbox_char (seg_rune g)) l = true.
Proof.
  revert index. induction l as [|g l IH]; intros index; [done|]. cbn.
  destruct (inbox_char (seg_rune g)); [|done]. cbn.
  destruct (_ && _); [done|]. apply IH.
Qed.

Lemma inbox_char_small r : inbox_char r = true -> r < 128.
Proof.
  unfold inbox_char, inbox_special.
  rewrite !orb_true_iff, !andb_true_iff, !Z.leb_le, !Z.eqb_eq. lia.
Qed.

Lemma local_runes_ascii len s :
  local_runes_ok len 0 (runes s) = true -> forallb is_ascii s = true.
Proof.
  intros H%local_runes_small. apply runes_small. apply forallb_forall.
  rewrite forallb_forall in H. intros g Hg. apply Z.ltb_lt, inbox_char_small. by apply H.
Qed.

Lemma local_runes_lookup len index s i c :
  local_runes_ok len index (ascii_seg <$> s) = true -> s !! i = Some c ->
  inbox_char (code c) = true /\
  (index + Z.of_nat i = 0 \/ index + Z.of_nat i = len - 1 -> inbox_special (code c) = false).
Proof.
  revert index i. induction s as [|d s IH]; intros index i; [done|]. cbn -[Z.of_nat].
  destruct (inbox_char (code d)) eqn:E1; [|done]. cbn [negb].
  destruct (((index =? 0) || (index =? len - 1)) && inbox_special (code d)) eqn:E2; [done|].
  change (zlen [d]) with 1. intros H. destruct i as [|i]; cbn -[Z.of_nat].
  - intros [= <-]. split; [done|]. intros Hi.
    apply andb_false_iff in E2 as [E2|E2]; [|done]. bool_to_prop. lia.
  - intros Hi. destruct (IH _ _ H Hi) as [? Hsp]. split; [done|]. intros Hx. apply Hsp. lia.
Qed.

Lemma no_double_dot_contains s : no_double_dot s = true -> contains s (str "..") = false.
Proof.
  induction s as [|a s IH]; [done|]. intros H.
  change (contains (a :: s) (str "..")) with (has_prefix (a :: s) (str "..") || contains s (str "..")).
  destruct s as [|b s].
  - cbn. by rewrite andb_false_r.
  - cbn [no_double_dot] in H.
    destruct (bool_decide (a = "."%char) && bool_decide (b = "."%char)) eqn:E; [done|].
    rewrite IH by done. change (bool_decide (a = "."%char) && (bool_decide (b = "."%char) && true) || false = false).
    by rewrite andb_true_r, orb_false_r.
Qed.

(** The bytes of an address the program creates: printable, no angle
    bracket, already lower case, not an at sign. *)
Definition plain_byte (c : ascii) : bool :=
  envelope_byte c && bool_decide (lower_byte c = c) && negb (bool_decide (c = "@"%char)).

Lemma inbox_char_plain c : inbox_char (code c) = true -> plain_byte c = true.
Proof.
  intros Hc. assert (implb (inbox_char (code c)) (plain_byte c) = true) as H.
  { clear Hc. byte_check (λ c, implb (inbox_char (code c)) (plain_byte c)) c. }
  by rewrite Hc in H.
Qed.

Lemma plain_lower s : forallb plain_byte s = true -> lower_byte <$> s = s.
Proof.
  induction s as [|c s IH]; [done|]. cbn. unfold plain_byte at 1.
  intros H. bool_to_prop. f_equal; auto.
Qed.

Lemma plain_envelope s : forallb plain_byte s = true -> forallb envelope_byte s = true.
Proof.
  rewrite !forallb_forall. intros H c Hc. specialize (H c Hc). unfold plain_byte in H. by bool_to_prop.
Qed.

Lemma plain_no_at s : forallb plain_byte s = true -> "@"%char ∉ s.
Proof.
  rewrite forallb_forall. intros H Hc%list_elem_of_In%H. by vm_compute in Hc.
Qed.

(** What [ValidInboxLocalPart] guarantees. *)
Lemma ValidInboxLocalPart_inv local :
  ValidInboxLocalPart local = true ->
  1 <= zlen local <= 64 /\ forallb plain_byte local = true /\ local <> [] /\
  has_prefix local [("."%char)] = false /\ has_suffix local [("."%char)] = false /\
  contains local (str "..") = false.
Proof.
  unfold ValidInboxLocalPart. intros H.
  if_in H E1; [done|]. if_in H E2; [done|]. bool_to_prop.
  pose proof (local_runes_ascii _ _ E2) as Ha. rewrite runes_ascii in E2 by done.
  pose proof (λ i c, local_runes_lookup _ _ _ i c E2) as Hl.
  assert (local <> []) by (intros ->; by vm_compute in H0).
  split; [lia|]. split; [|split; [done|split; [|split]]].
  - apply forallb_forall. intros c [i Hi]%list_elem_of_In%list_elem_of_lookup.
    by apply inbox_char_plain, (Hl i).
  - destruct local as [|c l]; [done|]. destruct (Hl 0%nat c eq_refl) as [_ Hs].
    cbn. rewrite andb_true_r. apply bool_decide_eq_false. intros ->.
    specialize (Hs (or_introl eq_refl)). by vm_compute in Hs.
  - destruct local as [|c l _] using rev_ind; [done|].
    destruct (Hl (length l) c) as [_ Hs]; [by rewrite lookup_app_r, Nat.sub_diag|].
    unfold has_suffix. rewrite reverse_snoc. cbn. rewrite andb_true_r.
    apply bool_decide_eq_false. intros ->.
    discriminate Hs. right. zl.
  - by apply no_double_dot_contains.
Qed.

Lemma created_address_envelope local domain :
  ValidInboxLocalPart local = true -> forallb plain_byte domain = true ->
  1 <= zlen domain <= 255 ->
  envelope_ok (local ++ "@"%char :: domain) = true.
Proof.
  intros (Hlen & Hp & Hne & H1 & H2 & H3)%ValidInboxLocalPart_inv Hd Hdl.
  unfold envelope_ok. rewrite cut_found by by apply plain_no_at.
  rewrite count_byte_app. change ("@"%char :: domain) with ([("@"%char)] ++ domain).
  rewrite (count_byte_app _ domain), (count_byte_0 local), (count_byte_0 domain) by by apply plain_no_at.
  change (count_byte [("@"%char)] "@") with 1.
  rewrite !zlen_app. change (zlen [("@"%char)]) with 1.
  rewrite !(proj2 (Z.leb_le _ _)) by lia.
  rewrite H1, H2, H3, !bool_decide_eq_false_2 by first [done | intros ->; rewrite zlen_nil in Hdl; lia].
  rewrite !forallb_app, (plain_envelope local), (plain_envelope domain) by done. done.
Qed.

(** ** Properties *)

(** An accepted envelope address is in canonical form: lower case,
    printable ASCII without angle brackets, between 3 and 320 bytes with one
    at sign, and canonicalising it again returns it unchanged.  The only
    other result is the empty (null) sender, and only where it is allowed. *)
Lemma canonicalAddress_canonical a allowEmpty c :
  canonicalAddress a allowEmpty = Ok c ->
  (a = [] /\ allowEmpty = true /\ c = []) \/
  (c = lower_byte <$> a /\ lower_byte <$> c = c /\ envelope_ok c = true /\
   forall allowEmpty', canonicalAddress c allowEmpty' = Ok c).
Proof.
  intros H. destruct (decide (a = [])) as [->|Hne].
  - destruct allowEmpty; vm_compute in H; [left; by injection H as <-|discriminate H].
  - right. destruct (canonicalAddress_nonempty a allowEmpty) as [Hok Heq]; [by rewrite H|done|].
    rewrite H in Heq. simplify_eq. split; [done|].
    assert (lower_byte <$> (lower_byte <$> a) = lower_byte <$> a) as Hid.
    { rewrite <- list_fmap_compose. apply list_fmap_ext. intros i x _. apply lower_byte_idemp. }
    split; [done|]. split; [by apply envelope_ok_lower|].
    intros e'. rewrite canonicalAddress_envelope by by apply envelope_ok_lower. by rewrite Hid.
Qed.

Lemma canonicalAddress_canonical_witness :
  canonicalAddress (str "User@Example.COM") false = Ok (str "user@example.com") /\
  canonicalAddress (str "user@example.com") true = Ok (str "user@example.com").
Proof.
  split; [vm_compute; reflexivity|].
  destruct (canonicalAddress_canonical (str "User@Example.COM") false (str "user@example.com"))
    as [(H & _)|(_ & _ & _ & H)]; [vm_compute; reflexivity|discriminate H|apply H].
Defined.

(** Every address the mailbox can create is accepted by the LMTP ingress
    without any change: for a local part [ValidInboxLocalPart] allows and a
    lower-case domain of at most 255 printable bytes, the command
    [RCPT TO:<local@domain>] parses to exactly [local@domain], the string the
    Inbox is stored under. *)
Theorem inbox_address_accepted local domain :
  ValidInboxLocalPart local = true ->
  forallb plain_byte domain = true ->
  1 <= zlen domain <= 255 ->
  parseRecipient (str "TO:<" ++ (local ++ "@"%char :: domain) ++ str ">") =
  Ok (local ++ "@"%char :: domain).
Proof.
  intros Hl Hd Hdl. pose proof (created_address_envelope local domain Hl Hd Hdl) as Hok.
  apply ValidInboxLocalPart_inv in Hl as (_ & Hp & _).
  set (addr := local ++ "@"%char :: domain) in *.
  assert (forallb envelope_byte addr = true) as He.
  { unfold addr. rewrite forallb_app. cbn. by rewrite !plain_envelope. }
  assert (lower_byte <$> addr = addr) as Hlow.
  { unfold addr. rewrite fmap_app, fmap_cons, !plain_lower by done. done. }
  assert (">"%char ∉ addr) as Hgt.
  { intros Hin%list_elem_of_In. rewrite forallb_forall in He. by specialize (He _ Hin). }
  unfold parseRecipient, parsePath.
  change (str "TO:<" ++ addr ++ str ">") with ("T"%char :: "O"%char :: ":"%char :: ("<"%char :: addr ++ [(">"%char)])).
  change (length (str "TO:")) with 3%nat. cbn [take drop].
  rewrite (trim_space_clean ("<"%char :: addr ++ [(">"%char)])).
  2: { cbn. rewrite forallb_app, envelope_byte_ascii by done. done. }
  2: done.
  2: { rewrite app_comm_cons, last_snoc. done. }
  rewrite (proj2 (Z.ltb_ge _ _)) by (unfold zlen; change (length (str "TO:")) with 3%nat; cbn [length]; lia).
  change (has_prefix _ (str "<")) with true. cbn [orb negb].
  change (equal_fold [("T"%char); ("O"%char); (":"%char)] (str "TO:")) with true. cbn [negb].
  rewrite app_comm_cons, index_byte_found.
  2: { rewrite not_elem_of_cons. done. }
  rewrite take_app_length. cbn [drop length].
  rewrite drop_0, canonicalAddress_envelope, Hlow by done.
  rewrite drop_ge by (rewrite length_app; cbn; lia). done.
Qed.

Lemma inbox_address_accepted_witness :
  parseRecipient (str "TO:<k4j.7x@mail.example.com>") = Ok (str "k4j.7x@mail.example.com").
Proof.
  apply (inbox_address_accepted (str "k4j.7x") (str "mail.example.com"));
    [vm_compute; reflexivity..|vm_compute; split; discriminate].
Defined.
