(* ===== verification/LmtpSession.v ===== *)
(** * The LMTP session state machine

    [internal/lmtp/session.go]: one [step] per command line read from the
    connection, one definition per verb, composed as [session.run] composes
    them, and [receiveData] with its per-recipient replies.

    The resolver and the receiver are interfaces in server.go; here they act
    on an abstract world [W] (database, disk), and a receiver touches the
    DATA stream only through [dataReader.Read] ([MessageReceiver]). *)

From S2P Require Import Prelude GoStrings Errors LmtpData LmtpCommand.

Abbreviation InboxID := bytes.

(** [Options] of server.go; durations in nanoseconds. *)
Record Options := MkOptions {
  Hostname : bytes;
  MaxMessageBytes : Z;
  MaxCommandBytes : Z;
  MaxDataLineBytes : Z;
  MaxRecipients : Z;
  MaxSessions : Z;
  SessionTimeout : Z;
  DeliveryTimeout : Z
}.

Definition second : Z := 1000000000.

Definition DefaultOptions (hostname : bytes) : Options :=
  MkOptions hostname (Z.shiftl 25 20) (Z.shiftl 4 10) (Z.shiftl 64 10) 100 64
    (5 * 60 * second) (30 * second).

(** The option checks of [NewServer]; the nil checks on its other arguments
    have no counterpart here. *)
Definition NewServer_check (o : Options) : option string :=
  if bool_decide (trim_space (Hostname o) = []) then Some "LMTP hostname is required"%string
  else if (MaxMessageBytes o <=? 0) || (MaxCommandBytes o <=? 0) || (MaxDataLineBytes o <=? 0)
    then Some "LMTP byte limits must be positive"%string
  else if (MaxRecipients o <=? 0) || (MaxSessions o <=? 0)
    then Some "LMTP concurrency limits must be positive"%string
  else if (SessionTimeout o <=? 0) || (DeliveryTimeout o <=? 0)
    then Some "LMTP timeouts must be positive"%string
  else if SessionTimeout o <? DeliveryTimeout o
    then Some "LMTP session timeout must not be shorter than delivery timeout"%string
  else None.

(** A response on the wire. *)
Inductive response : Type :=
| Reply (code : Z) (enhanced : string) (text : bytes)
| Capabilities (lines : list bytes).

#[global] Instance response_eq_dec : EqDecision response.
Proof. solve_decision. Defined.

Definition crlf_text : bytes := CRLF.

(** The bytes [reply] and [capabilities] write. *)
Definition render (r : response) : bytes :=
  match r with
  | Reply c e t => format_int c ++ str " " ++ str e ++ str " " ++ t ++ crlf_text
  | Capabilities ls =>
    concat (imap (λ i l, str "250" ++ (if bool_decide (S i = length ls) then str " " else str "-")
                           ++ l ++ crlf_text) ls)
  end.

(** Observations of the optional [Metrics]. *)
Inductive metric : Type :=
| ObserveDelivery (code : Z)
| ObserveQuotaRejected (reason : string)
| ObserveStorageRejected (reason : string).

Record recipient := Recipient { rc_address : bytes; rc_inboxID : InboxID }.

Record session := Session {
  s_reader : bytes;                  (* what the peer still sends *)
  s_out : list response;             (* written so far *)
  s_writes : nat;                    (* writes that will succeed *)
  s_metrics : list metric;
  s_greeted : bool;
  s_mailSet : bool;
  s_sender : bytes;
  s_declaredSize : Z;
  s_recipients : list recipient;
  s_recipientSet : gset InboxID
}.

Definition set_reader (s : session) (r : bytes) : session :=
  Session r (s_out s) (s_writes s) (s_metrics s) (s_greeted s) (s_mailSet s) (s_sender s)
    (s_declaredSize s) (s_recipients s) (s_recipientSet s).

Definition add_metric (s : session) (m : metric) : session :=
  Session (s_reader s) (s_out s) (s_writes s) (s_metrics s ++ [m]) (s_greeted s) (s_mailSet s)
    (s_sender s) (s_declaredSize s) (s_recipients s) (s_recipientSet s).

Definition set_greeted (s : session) : session :=
  Session (s_reader s) (s_out s) (s_writes s) (s_metrics s) true (s_mailSet s)
    (s_sender s) (s_declaredSize s) (s_recipients s) (s_recipientSet s).

Definition begin_mail (s : session) (sender : bytes) (declaredSize : Z) : session :=
  Session (s_reader s) (s_out s) (s_writes s) (s_metrics s) (s_greeted s) true
    sender declaredSize (s_recipients s) ∅.

Definition add_recipient (s : session) (address : bytes) (id : InboxID) : session :=
  Session (s_reader s) (s_out s) (s_writes s) (s_metrics s) (s_greeted s) (s_mailSet s)
    (s_sender s) (s_declaredSize s) (s_recipients s ++ [Recipient address id])
    ({[id]} ∪ s_recipientSet s).

Definition resetTransaction (s : session) : session :=
  Session (s_reader s) (s_out s) (s_writes s) (s_metrics s) (s_greeted s) false [] 0 [] ∅.

(** Write and flush one response; [None] when the connection refuses it. *)
Definition write (s : session) (r : response) : option session :=
  match s_writes s with
  | O => None
  | S n => Some (Session (s_reader s) (s_out s ++ [r]) n (s_metrics s) (s_greeted s) (s_mailSet s)
             (s_sender s) (s_declaredSize s) (s_recipients s) (s_recipientSet s))
  end.

(** [classifyDeliveryError] *)
Definition classifyDeliveryError (err : option goerr) : Z * string * string :=
  match err with
  | None => (250, "2.1.5", "delivered")%string
  | Some e =>
    if errors_is e ErrDataTooLarge || errors_is e ErrContentTooLarge then (552, "5.3.4", "message too large")
    else if errors_is e ErrDataLineTooLong then (554, "5.6.0", "message line too long")
    else if errors_is e ErrInboxNotFound then (550, "5.1.1", "recipient no longer available")
    else if errors_is e ErrInboxMessageQuotaExceeded then (552, "5.2.2", "recipient message quota exceeded")
    else if errors_is e ErrInboxStorageQuotaExceeded then (552, "5.2.2", "recipient storage quota exceeded")
    else if errors_is e ErrInsufficientStorage then (452, "4.3.1", "insufficient system storage")
    else if errors_is e ErrInvalidDelivery then (554, "5.6.0", "invalid delivery")
    else (451, "4.3.0", "temporary delivery failure")
  end%string.

(** [quotaRejectionReason]; [None] is the empty string. *)
Definition quotaRejectionReason (err : option goerr) : option string :=
  if errors_is_opt err ErrInboxMessageQuotaExceeded then Some "messages"%string
  else if errors_is_opt err ErrInboxStorageQuotaExceeded then Some "storage_bytes"%string
  else None.

(** ** The collaborators *)

Class InboxResolver (W : Type) := {
  ResolveInboxForDelivery : W -> bytes -> Z -> W * res InboxID
}.

(** A receiver consumes the DATA stream by calling [Read]; [read_seq] is any
    number of such calls. *)
Class MessageReceiver (W : Type) (bufsz : nat) (conn_err : goerr) := {
  CheckCapacity : W -> W * option goerr;
  Receive : W -> bytes -> list InboxID -> dataReader -> W * dataReader * option goerr;
  Receive_reads : forall w sender ids r w' r' e,
    Receive w sender ids r = (w', r', e) ->
    exists sizes out e', read_seq bufsz conn_err r sizes = (r', out, e')
}.

Section Session.
Context {W : Type} (bufsz : nat) (conn_err : goerr) (conn_closed : bool).
Context `{!InboxResolver W} `{!MessageReceiver W bufsz conn_err}.
Context (o : Options).

(** What one turn of [run]'s loop does: loop again, or return. *)
Inductive outcome : Type :=
| Continue (w : W) (s : session)
| Return (w : W) (s : session) (e : option goerr).

Definition write_err : goerr := ENew "write LMTP response".

(** [if err := s.reply(...); err != nil { return err }; continue] *)
Definition answer (w : W) (s : session) (code : Z) (enhanced text : string) : outcome :=
  match write s (Reply code enhanced (str text)) with
  | Some s' => Continue w s'
  | None => Return w s (Some write_err)
  end.

Definition do_LHLO (w : W) (s : session) (argument : bytes) : outcome :=
  if bool_decide (trim_space argument = []) then answer w s 501 "5.5.4" "LHLO requires a hostname"
  else
    let s := set_greeted (resetTransaction s) in
    match write s (Capabilities [Hostname o; str "8BITMIME"; str "PIPELINING";
                     str "SIZE " ++ format_int (MaxMessageBytes o); str "ENHANCEDSTATUSCODES"]) with
    | Some s' => Continue w s'
    | None => Return w s (Some (ENew "write LMTP capability"))
    end.

Definition do_MAIL (w : W) (s : session) (argument : bytes) : outcome :=
  if negb (s_greeted s) then answer w s 503 "5.5.1" "Send LHLO first"
  else if s_mailSet s then answer w s 503 "5.5.1" "Nested MAIL command"
  else match parseMailFrom argument with
  | Err e => answer w s 501 "5.5.4" e
  | Ok (sender, declaredSize) =>
    if MaxMessageBytes o <? declaredSize then
      answer w s 552 "5.3.4" "Declared message size exceeds fixed maximum"
    else answer w (begin_mail s sender declaredSize) 250 "2.1.0" "Sender OK"
  end.

Definition do_RCPT (w : W) (s : session) (argument : bytes) : outcome :=
  if negb (s_greeted s) || negb (s_mailSet s) then answer w s 503 "5.5.1" "Need MAIL before RCPT"
  else match parseRecipient argument with
  | Err e => answer w s 501 "5.5.4" e
  | Ok address =>
    match ResolveInboxForDelivery w address (s_declaredSize s) with
    | (w, Err e) =>
      if errors_is e ErrInboxNotFound then answer w s 550 "5.1.1" "Recipient address rejected"
      else match quotaRejectionReason (Some e) with
      | Some reason =>
        answer w (add_metric s (ObserveQuotaRejected reason)) 552 "5.2.2" "Recipient Inbox quota exceeded"
      | None => answer w s 451 "4.3.0" "Temporary recipient lookup failure"
      end
    | (w, Ok inboxID) =>
      if bool_decide (inboxID ∈ s_recipientSet s) then answer w s 250 "2.1.5" "Recipient OK"
      else if MaxRecipients o <=? zlen (s_recipients s) then answer w s 452 "4.5.3" "Too many recipients"
      else answer w (add_recipient s address inboxID) 250 "2.1.5" "Recipient OK"
    end
  end.

(** The replies of [receiveData], one per recipient, stopping at the first
    failed write. *)
Fixpoint reply_recipients (s : session) (rs : list recipient) (code : Z) (enhanced text : string)
    : session * bool :=
  match rs with
  | [] => (s, true)
  | r :: rs' =>
    match write s (Reply code enhanced (rc_address r ++ str " " ++ str text)) with
    | Some s' => reply_recipients s' rs' code enhanced text
    | None => (s, false)
    end
  end.

Definition delivery_metrics (s : session) (code : Z) (receiveErr : option goerr) : session :=
  let s := add_metric s (ObserveDelivery code) in
  let s := match quotaRejectionReason receiveErr with
           | Some reason => add_metric s (ObserveQuotaRejected reason)
           | None => s end in
  if errors_is_opt receiveErr ErrInsufficientStorage
  then add_metric s (ObserveStorageRejected "capacity") else s.

Definition receiveData (w : W) (s : session) : outcome :=
  let data := newDataReader (s_reader s) (MaxMessageBytes o) (MaxDataLineBytes o) in
  let '(w, data, receiveErr) := Receive w (s_sender s) (rc_inboxID <$> s_recipients s) data in
  match drain bufsz conn_err data with
  | None => Return w s None
  | Some (data, Some drainErr) =>
    Return w (set_reader s (dr_reader data)) (Some (EWrap "drain rejected LMTP DATA" drainErr))
  | Some (data, None) =>
    let s := set_reader s (dr_reader data) in
    let '(code, enhanced, text) := classifyDeliveryError receiveErr in
    let s := delivery_metrics s code receiveErr in
    match reply_recipients s (s_recipients s) code enhanced text with
    | (s, true) => Continue w (resetTransaction s)
    | (s, false) => Return w s (Some write_err)
    end
  end.

Definition do_DATA (w : W) (s : session) (argument : bytes) : outcome :=
  if negb (s_mailSet s) || bool_decide (s_recipients s = []) then
    answer w s 503 "5.5.1" "Need MAIL and RCPT before DATA"
  else if negb (bool_decide (trim_space argument = [])) then
    answer w s 501 "5.5.4" "DATA does not accept parameters"
  else match CheckCapacity w with
  | (w, Some capacityErr) =>
    if errors_is capacityErr ErrInsufficientStorage then
      answer w (add_metric s (ObserveStorageRejected "capacity")) 452 "4.3.1" "Insufficient system storage"
    else
      answer w (add_metric s (ObserveStorageRejected "check_error")) 451 "4.3.0" "Temporary storage check failure"
  | (w, None) =>
    match write s (Reply 354 "2.0.0" (str "End data with <CR><LF>.<CR><LF>")) with
    | Some s' => receiveData w s'
    | None => Return w s (Some write_err)
    end
  end.

Definition do_QUIT (w : W) (s : session) : outcome :=
  match write s (Reply 221 "2.0.0" (str "Bye")) with
  | Some s' => Return w s' None
  | None => Return w s (Some write_err)
  end.

(** The [switch verb]. *)
Definition dispatch (w : W) (s : session) (verb argument : bytes) : outcome :=
  if bool_decide (verb = str "LHLO") then do_LHLO w s argument
  else if bool_decide (verb = str "MAIL") then do_MAIL w s argument
  else if bool_decide (verb = str "RCPT") then do_RCPT w s argument
  else if bool_decide (verb = str "DATA") then do_DATA w s argument
  else if bool_decide (verb = str "RSET") then answer w (resetTransaction s) 250 "2.0.0" "Reset state"
  else if bool_decide (verb = str "NOOP") then answer w s 250 "2.0.0" "OK"
  else if bool_decide (verb = str "QUIT") then do_QUIT w s
  else if bool_decide (verb = str "HELO") || bool_decide (verb = str "EHLO") then
    answer w s 500 "5.5.1" "Use LHLO for LMTP"
  else if bool_decide (verb = str "VRFY") then answer w s 252 "2.5.2" "Cannot verify user"
  else answer w s 500 "5.5.1" "Command unrecognized".

(** One turn of the loop of [run].  The session deadline is part of the
    connection: an expired one surfaces as [conn_err]. *)
Definition step (w : W) (s : session) : outcome :=
  match readLimitedLine bufsz (MaxCommandBytes o) (s_reader s) with
  | None => Return w s None
  | Some (LineTooLong, rest) => answer w (set_reader s rest) 500 "5.5.2" "Command line too long"
  | Some (LineErr, rest) =>
    if errors_is conn_err IoEOF || conn_closed then Return w (set_reader s rest) None
    else Return w (set_reader s rest) (Some (EWrap "read LMTP command" conn_err))
  | Some (Line line, rest) =>
    let '(verb, argument) := splitCommand line in
    dispatch w (set_reader s rest) verb argument
  end.

Fixpoint run_loop (fuel : nat) (w : W) (s : session) : option (W * session * option goerr) :=
  match fuel with
  | O => None
  | S fuel' => match step w s with
               | Continue w' s' => run_loop fuel' w' s'
               | Return w' s' e => Some (w', s', e)
               end
  end.

Definition new_session (stream : bytes) (writes : nat) : session :=
  Session stream [] writes [] false false [] 0 [] ∅.

(** [session.run]: the greeting and the loop.  Every turn that continues takes
    a byte off the stream, so its length bounds the turns ([run_total]). *)
Definition run (w : W) (stream : bytes) (writes : nat) : option (W * session * option goerr) :=
  let s := new_session stream writes in
  match write s (Reply 220 "2.0.0" (Hostname o ++ str " MailWisp LMTP ready")) with
  | None => Some (w, s, Some write_err)
  | Some s' => run_loop (S (length stream)) w s'
  end.
End Session.
Arguments Continue {W} w s.
Arguments Return {W} w s e.

(** ** The session invariant *)

Record session_inv (o : Options) (s : session) : Prop := {
  inv_idle : s_mailSet s = false ->
    s_sender s = [] /\ s_declaredSize s = 0 /\ s_recipients s = [];
  inv_greeted : s_mailSet s = true -> s_greeted s = true;
  inv_nodup : NoDup (rc_inboxID <$> s_recipients s);
  inv_set : s_recipientSet s = list_to_set (rc_inboxID <$> s_recipients s);
  inv_bound : zlen (s_recipients s) <= MaxRecipients o;
  inv_size : 0 <= s_declaredSize s <= MaxMessageBytes o;
  inv_addresses : Forall (λ r, envelope_ok (rc_address r) = true) (s_recipients s)
}.

(** The fields the invariant reads. *)
Definition transaction (s : session) :=
  (s_greeted s, s_mailSet s, s_sender s, s_declaredSize s, s_recipients s, s_recipientSet s).

Lemma session_inv_transaction o s s' :
  transaction s = transaction s' -> session_inv o s -> session_inv o s'.
Proof.
  unfold transaction. intros H [H1 H2 H3 H4 H5 H6 H7].
  injection H as G1 G2 G3 G4 G5 G6. rewrite G1, G2, G3, G4, G5, G6 in *. by split.
Qed.

Lemma write_transaction s r s' : write s r = Some s' -> transaction s' = transaction s.
Proof. unfold write. destruct (s_writes s); [done|]. intros. by simplify_eq. Qed.

Lemma write_reader s r s' : write s r = Some s' -> s_reader s' = s_reader s.
Proof. unfold write. destruct (s_writes s); [done|]. intros. by simplify_eq. Qed.

Lemma session_inv_reset o s :
  0 <= MaxRecipients o -> 0 <= MaxMessageBytes o -> session_inv o (resetTransaction s).
Proof. intros. split; cbn; try done; rewrite ?zlen_nil; try lia; constructor. Qed.

Lemma parsePath_canonical arg prefix e address ps :
  parsePath arg prefix e = Ok (address, ps) ->
  exists raw, canonicalAddress raw e = Ok address.
Proof.
  unfold parsePath. intros H. if_in H E1; [done|]. if_in H E2; [done|].
  destruct (index_byte _ _) as [i|]; [|done].
  destruct (canonicalAddress _ e) as [a|] eqn:E3; [|done]. simplify_eq. eauto.
Qed.

Lemma parseRecipient_envelope arg address :
  parseRecipient arg = Ok address -> envelope_ok address = true.
Proof.
  unfold parseRecipient. intros H.
  destruct (parsePath arg "TO:" false) as [[a ps]|] eqn:E; [|done].
  destruct (negb _); [done|]. simplify_eq.
  apply parsePath_canonical in E as (raw & Hc).
  destruct (decide (raw = [])) as [->|Hne]; [by vm_compute in Hc|].
  destruct (canonicalAddress_nonempty raw false) as [Hok Heq]; [by rewrite Hc|done|].
  rewrite Hc in Heq. simplify_eq. by apply envelope_ok_lower.
Qed.

Lemma mail_parameters_nonneg ps n b1 b2 n' b1' b2' :
  0 <= n -> mail_parameters (n, b1, b2) ps = Ok (n', b1', b2') -> 0 <= n'.
Proof.
  revert n b1 b2. induction ps as [|p ps IH]; intros n b1 b2 Hn; cbn [mail_parameters]; intros H.
  { by simplify_eq. }
  destruct (mail_parameter (n, b1, b2) p) as [[[n1 c1] c2]|] eqn:E; [|done].
  eapply IH; [|done]. unfold mail_parameter in E.
  destruct (cut p "=") as [[name value] hasValue].
  destruct (bool_decide (to_upper name = str "SIZE")).
  - destruct b1; [done|]. destruct (negb hasValue); [done|].
    destruct (parse_int64 value); [|done]. destruct (_ <? 0) eqn:E0; [done|].
    simplify_eq. by bool_to_prop.
  - destruct (bool_decide _); [|done]. destruct b2; [done|]. by destruct (_ || _) in E; simplify_eq.
Qed.

Lemma parseMailFrom_nonneg arg sender n : parseMailFrom arg = Ok (sender, n) -> 0 <= n.
Proof.
  unfold parseMailFrom. intros H. destruct (parsePath _ _ _) as [[a ps]|]; [|done].
  destruct (mail_parameters _ _) as [[[m b1] b2]|] eqn:E; [|done]. simplify_eq.
  by eapply mail_parameters_nonneg in E.
Qed.

Section SessionFacts.
Context {W : Type} (bufsz : nat) (conn_err : goerr) (conn_closed : bool).
Context `{!InboxResolver W} `{!MessageReceiver W bufsz conn_err}.
Context (o : Options).
Context (Hmaxr : 0 <= MaxRecipients o) (Hmaxm : 0 <= MaxMessageBytes o).

Definition outcome_inv (x : outcome (W := W)) : Prop :=
  match x with Continue _ s | Return _ s _ => session_inv o s end.

Lemma answer_inv w s c e t : session_inv o s -> outcome_inv (answer w s c e t).
Proof.
  intros H. unfold answer. destruct (write s _) as [s'|] eqn:E; [|done]. cbn.
  eapply session_inv_transaction; [symmetry; by eapply write_transaction|done].
Qed.

Lemma add_metric_inv s m : session_inv o s -> session_inv o (add_metric s m).
Proof. by apply session_inv_transaction. Qed.

Lemma add_recipient_inv s address id :
  session_inv o s -> s_mailSet s = true -> envelope_ok address = true ->
  id ∉ s_recipientSet s -> zlen (s_recipients s) < MaxRecipients o ->
  session_inv o (add_recipient s address id).
Proof.
  intros [H1 H2 H3 H4 H5 H6 H7] Hm Ha Hid Hlt. split; cbn; try done.
  - congruence.
  - rewrite fmap_app, NoDup_app. cbn. rewrite H4, elem_of_list_to_set in Hid.
    split; [done|]. split; [|apply NoDup_singleton].
    intros x Hx. rewrite list_elem_of_singleton. by intros ->.
  - rewrite fmap_app, list_to_set_app_L, H4. cbn. by rewrite (right_id_L ∅ (∪)), (comm_L (∪)).
  - rewrite zlen_app. change (zlen [Recipient address id]) with 1. lia.
  - apply Forall_app. split; [done|]. by apply Forall_singleton.
Qed.

Lemma do_RCPT_inv w s arg : session_inv o s -> outcome_inv (do_RCPT o w s arg).
Proof using Hmaxr Hmaxm.
  intros H. unfold do_RCPT. destruct (_ || _) eqn:E0; [by apply answer_inv|].
  destruct (parseRecipient arg) as [address|] eqn:Ep; [|by apply answer_inv].
  apply parseRecipient_envelope in Ep.
  destruct (ResolveInboxForDelivery w address _) as [w' [id|e]].
  - destruct (bool_decide _) eqn:E1; [by apply answer_inv|].
    destruct (_ <=? _) eqn:E2; [by apply answer_inv|]. bool_to_prop.
    apply answer_inv, add_recipient_inv; auto.
  - destruct (errors_is _ _); [by apply answer_inv|].
    destruct (quotaRejectionReason _); [by apply answer_inv, add_metric_inv|by apply answer_inv].
Qed.

Lemma do_MAIL_inv w s arg : session_inv o s -> outcome_inv (do_MAIL o w s arg).
Proof using Hmaxr Hmaxm.
  intros H. unfold do_MAIL. destruct (s_greeted s) eqn:Eg; [|by apply answer_inv]. cbn [negb].
  destruct (s_mailSet s) eqn:Em; [by apply answer_inv|].
  destruct (parseMailFrom arg) as [[sender n]|] eqn:Ep; [|by apply answer_inv].
  apply parseMailFrom_nonneg in Ep. destruct (_ <? n) eqn:En; [by apply answer_inv|].
  bool_to_prop. apply answer_inv. destruct H as [H1 H2 H3 H4 H5 H6 H7].
  destruct (H1 Em) as (_ & _ & Hr).
  split; cbn; rewrite ?Hr; try done; try lia.
  - apply NoDup_nil_2.
Qed.

Lemma reply_recipients_transaction s rs c e t :
  transaction (reply_recipients s rs c e t).1 = transaction s /\
  s_reader (reply_recipients s rs c e t).1 = s_reader s.
Proof.
  revert s. induction rs as [|r rs IH]; intros s; cbn; [done|].
  destruct (write s _) as [s'|] eqn:E; [|done].
  destruct (IH s') as [H1 H2]. by rewrite H1, H2, (write_transaction _ _ _ E), (write_reader _ _ _ E).
Qed.

Lemma delivery_metrics_transaction s c e :
  transaction (delivery_metrics s c e) = transaction s /\
  s_reader (delivery_metrics s c e) = s_reader s /\
  s_out (delivery_metrics s c e) = s_out s /\ s_writes (delivery_metrics s c e) = s_writes s.
Proof.
  unfold delivery_metrics. destruct (quotaRejectionReason e), (errors_is_opt e _); by repeat split.
Qed.

Lemma receiveData_inv w s : session_inv o s -> outcome_inv (receiveData bufsz conn_err o w s).
Proof using Hmaxr Hmaxm.
  intros H. unfold receiveData. destruct (Receive _ _ _ _) as [[w' data] e].
  destruct (drain _ _ data) as [[data' [e'|]]|]; [by apply (session_inv_transaction o s)|..|done].
  destruct (classifyDeliveryError e) as [[c en] t].
  set (s1 := delivery_metrics _ _ _).
  destruct (delivery_metrics_transaction (set_reader s (dr_reader data')) c e) as (Ht & _).
  destruct (reply_recipients_transaction s1 (s_recipients s1) c en t) as [Ht2 _].
  destruct (reply_recipients _ _ _ _ _) as [s2 []]; cbn in *.
  - by apply session_inv_reset.
  - eapply session_inv_transaction; [|exact H]. rewrite Ht2. unfold s1. by rewrite Ht.
Qed.

Lemma do_DATA_inv w s arg : session_inv o s -> outcome_inv (do_DATA bufsz conn_err o w s arg).
Proof using Hmaxr Hmaxm.
  intros H. unfold do_DATA. destruct (_ || _); [by apply answer_inv|].
  destruct (negb _); [by apply answer_inv|].
  destruct (CheckCapacity w) as [w' [e|]].
  - destruct (errors_is _ _); by apply answer_inv, add_metric_inv.
  - destruct (write s _) as [s'|] eqn:E; [|done]. apply receiveData_inv.
    eapply session_inv_transaction; [symmetry; by eapply write_transaction|done].
Qed.

Lemma do_LHLO_inv w s arg : session_inv o s -> outcome_inv (do_LHLO o w s arg).
Proof using Hmaxr Hmaxm.
  intros H. unfold do_LHLO. destruct (bool_decide _); [by apply answer_inv|].
  assert (session_inv o (set_greeted (resetTransaction s))) as Hs.
  { destruct (session_inv_reset o s Hmaxr Hmaxm). by split. }
  destruct (write _ _) as [s'|] eqn:E; [|done]. cbn.
  eapply session_inv_transaction; [symmetry; by eapply write_transaction|done].
Qed.

Lemma dispatch_inv w s verb arg : session_inv o s -> outcome_inv (dispatch bufsz conn_err o w s verb arg).
Proof using Hmaxr Hmaxm.
  intros H. unfold dispatch.
  destruct (bool_decide _); [by apply do_LHLO_inv|].
  destruct (bool_decide _); [by apply do_MAIL_inv|].
  destruct (bool_decide _); [by apply do_RCPT_inv|].
  destruct (bool_decide _); [by apply do_DATA_inv|].
  destruct (bool_decide _); [by apply answer_inv, session_inv_reset|].
  destruct (bool_decide _); [by apply answer_inv|].
  destruct (bool_decide _).
  { unfold do_QUIT. destruct (write s _) as [s'|] eqn:E; [|done]. cbn.
    eapply session_inv_transaction; [symmetry; by eapply write_transaction|done]. }
  destruct (_ || _); [by apply answer_inv|]. destruct (bool_decide _); by apply answer_inv.
Qed.

Lemma step_inv w s : session_inv o s -> outcome_inv (step bufsz conn_err conn_closed o w s).
Proof using Hmaxr Hmaxm.
  intros H. unfold step.
  assert (forall r, session_inv o (set_reader s r)) as Hr by (intros r; by apply (session_inv_transaction o s)).
  destruct (readLimitedLine _ _ _) as [[[l| |] rest]|]; [..|done].
  - destruct (splitCommand l) as [verb arg]. by apply dispatch_inv.
  - by apply answer_inv.
  - destruct (_ || _); apply Hr.
Qed.
End SessionFacts.

(** ** Progress *)

Section SessionProgress.
Context {W : Type} (bufsz : nat) (conn_err : goerr) (conn_closed : bool).
Context `{!InboxResolver W} `{!MessageReceiver W bufsz conn_err}.
Context (o : Options) (Hbufsz : (2 <= bufsz)%nat).

Definition reader_le (n : nat) (x : outcome (W := W)) : Prop :=
  match x with Continue _ s => (length (s_reader s) <= n)%nat | Return _ _ _ => True end.

Lemma answer_reader w s c e t : reader_le (length (s_reader s)) (answer w s c e t).
Proof.
  unfold answer. destruct (write s _) as [s'|] eqn:E; [|done]. cbn.
  by rewrite (write_reader _ _ _ E).
Qed.

Lemma receiveData_reader w s : reader_le (length (s_reader s)) (receiveData bufsz conn_err o w s).
Proof using Hbufsz.
  unfold receiveData. destruct (Receive _ _ _ _) as [[w' data] e] eqn:ER.
  apply Receive_reads in ER as (sizes & out & e' & ER).
  apply (read_seq_shrinks bufsz conn_err Hbufsz) in ER. cbn in ER.
  destruct (drain_total bufsz conn_err Hbufsz data) as (data' & ed & -> & Hd).
  destruct ed; [done|]. destruct (classifyDeliveryError e) as [[c en] t].
  set (s1 := delivery_metrics _ _ _).
  destruct (delivery_metrics_transaction (set_reader s (dr_reader data')) c e) as (_ & Hr1 & _).
  destruct (reply_recipients_transaction s1 (s_recipients s1) c en t) as [_ Hr2].
  destruct (reply_recipients _ _ _ _ _) as [s2 []]; cbn in *; [|done].
  rewrite Hr2. unfold s1. rewrite Hr1. cbn. lia.
Qed.

Lemma dispatch_reader w s verb arg :
  reader_le (length (s_reader s)) (dispatch bufsz conn_err o w s verb arg).
Proof using Hbufsz.
  assert (forall s' c e t, s_reader s' = s_reader s ->
    reader_le (length (s_reader s)) (answer w s' c e t)) as Ha.
  { intros s' c e t <-. apply answer_reader. }
  unfold dispatch. destruct (bool_decide _).
  { unfold do_LHLO. destruct (bool_decide _); [by apply Ha|].
    destruct (write _ _) as [s'|] eqn:E; [|done]. cbn. by rewrite (write_reader _ _ _ E). }
  destruct (bool_decide _).
  { unfold do_MAIL. destruct (negb _); [by apply Ha|]. destruct (s_mailSet s); [by apply Ha|].
    destruct (parseMailFrom arg) as [[? ?]|]; [|by apply Ha]. destruct (_ <? _); by apply Ha. }
  destruct (bool_decide _).
  { unfold do_RCPT. destruct (_ || _); [by apply Ha|].
    destruct (parseRecipient arg); [|by apply Ha].
    destruct (ResolveInboxForDelivery _ _ _) as [w' [id|e]].
    - destruct (bool_decide _); [apply answer_reader|]. destruct (_ <=? _); [apply answer_reader|].
      apply (answer_reader _ (add_recipient s _ _)).
    - destruct (errors_is _ _); [apply answer_reader|].
      destruct (quotaRejectionReason _); [apply (answer_reader _ (add_metric s _))|apply answer_reader]. }
  destruct (bool_decide _).
  { unfold do_DATA. destruct (_ || _); [by apply Ha|]. destruct (negb _); [by apply Ha|].
    destruct (CheckCapacity w) as [w' [e|]].
    - destruct (errors_is _ _); apply (answer_reader _ (add_metric s _)).
    - destruct (write s _) as [s'|] eqn:E; [|done]. rewrite <- (write_reader _ _ _ E).
      apply receiveData_reader. }
  destruct (bool_decide _); [by apply Ha|]. destruct (bool_decide _); [by apply Ha|].
  destruct (bool_decide _); [unfold do_QUIT; by destruct (write _ _)|].
  destruct (_ || _); [by apply Ha|]. destruct (bool_decide _); by apply Ha.
Qed.

Lemma step_progress w s w' s' :
  step bufsz conn_err conn_closed o w s = Continue w' s' ->
  (length (s_reader s') < length (s_reader s))%nat.
Proof using Hbufsz.
  unfold step. destruct (readLimitedLine _ _ _) as [[x rest]|] eqn:E; [|done].
  apply read_limited_loop_shrinks in E as [_ Hlt]; [|done]. intros H.
  assert (reader_le (length rest) (Continue w' s')) as Hle.
  { rewrite <- H. destruct x as [l| |].
    - destruct (splitCommand l). apply (dispatch_reader _ (set_reader s rest)).
    - apply (answer_reader _ (set_reader s rest)).
    - destruct (_ || _) in H; done. }
  cbn in Hle. assert (x <> LineErr); [|specialize (Hlt ltac:(done)); lia].
  intros ->. destruct (_ || _) in H; done.
Qed.

Lemma run_loop_total fuel w s :
  (length (s_reader s) < fuel)%nat -> is_Some (run_loop bufsz conn_err conn_closed o fuel w s).
Proof using Hbufsz.
  revert w s. induction fuel as [|fuel IH]; intros w s Hf; [lia|]. cbn [run_loop].
  destruct (step _ _ _ _ w s) as [w' s'|w' s' e] eqn:E; [|eauto].
  apply step_progress in E. apply IH. lia.
Qed.

(** The states the loop passes through. *)
Inductive steps : W -> session -> W -> session -> Prop :=
| steps_refl w s : steps w s w s
| steps_step w s w1 s1 w2 s2 :
    step bufsz conn_err conn_closed o w s = Continue w1 s1 -> steps w1 s1 w2 s2 -> steps w s w2 s2.

Lemma steps_inv w s w' s' :
  0 <= MaxRecipients o -> 0 <= MaxMessageBytes o ->
  steps w s w' s' -> session_inv o s -> session_inv o s'.
Proof.
  intros Hr Hm. induction 1 as [|w s w1 s1 w2 s2 H _ IH]; [done|]. intros Hs. apply IH.
  pose proof (step_inv bufsz conn_err conn_closed o Hr Hm w s Hs) as Ho. by rewrite H in Ho.
Qed.

Lemma reply_recipients_all s rs c e t :
  (length rs <= s_writes s)%nat ->
  exists s', reply_recipients s rs c e t = (s', true) /\
    s_out s' = s_out s ++ ((λ r, Reply c e (rc_address r ++ str " " ++ str t)) <$> rs).
Proof.
  clear Hbufsz. revert s.
  induction rs as [|r rs IH]; intros s Hw; cbn [reply_recipients fmap list_fmap].
  { exists s. by rewrite app_nil_r. }
  unfold write. cbn [length] in Hw. destruct (s_writes s) as [|n]; [lia|].
  destruct (IH (Session (s_reader s) (s_out s ++ [Reply c e (rc_address r ++ str " " ++ str t)]) n
    (s_metrics s) (s_greeted s) (s_mailSet s) (s_sender s) (s_declaredSize s) (s_recipients s)
    (s_recipientSet s))) as (s' & -> & Ho); [cbn; lia|].
  exists s'. split; [done|]. rewrite Ho. cbn [s_out]. by rewrite <- app_assoc.
Qed.

Lemma receiveData_transaction w s raws t rest w2 data e :
  1 <= MaxDataLineBytes o -> terminator t ->
  Forall (λ raw, (LF ∉ raw) /\ strip_cr raw <> [dot]) raws ->
  s_reader s = wire raws ++ t ++ LF :: rest ->
  (length (s_recipients s) <= s_writes s)%nat ->
  Receive w (s_sender s) (rc_inboxID <$> s_recipients s)
    (newDataReader (s_reader s) (MaxMessageBytes o) (MaxDataLineBytes o)) = (w2, data, e) ->
  exists s', receiveData bufsz conn_err o w s = Continue w2 s' /\
    s_reader s' = rest /\
    transaction s' = (s_greeted s, false, [], 0, [], ∅) /\
    let '(c, en, tx) := classifyDeliveryError e in
    s_out s' = s_out s ++ ((λ r, Reply c en (rc_address r ++ str " " ++ str tx)) <$> s_recipients s).
Proof using Hbufsz.
  intros Hline Ht Hraws Hreader Hw HR. unfold receiveData. rewrite HR.
  apply Receive_reads in HR as (sizes & out & e' & HR).
  destruct (drain_synced bufsz conn_err Hbufsz t rest data Ht) as (data' & -> & Hrest & _).
  { eapply (read_seq_synced bufsz conn_err Hbufsz); [done| |done].
    split; [done|]. exists raws. by rewrite <- Hreader. }
  destruct (classifyDeliveryError e) as [[c en] tx].
  set (s1 := delivery_metrics _ _ _).
  destruct (delivery_metrics_transaction (set_reader s (dr_reader data')) c e) as (Ht1 & Hr1 & Ho1 & Hw1).
  fold s1 in Ht1, Hr1, Ho1, Hw1.
  assert (s_recipients s1 = s_recipients s) as Hrc by (unfold transaction in Ht1; cbn in Ht1; congruence).
  assert (s_greeted s1 = s_greeted s) as Hg by (unfold transaction in Ht1; cbn in Ht1; congruence).
  destruct (reply_recipients_transaction s1 (s_recipients s1) c en tx) as [Ht2 Hr2].
  destruct (reply_recipients_all s1 (s_recipients s1) c en tx) as (s2 & Hs2 & Ho2).
  { rewrite Hw1, Hrc. done. }
  rewrite Hs2 in *. eexists. split; [reflexivity|]. cbn [resetTransaction s_reader s_out].
  cbn [fst] in Hr2, Ht2. rewrite Hr2, Hr1. split; [done|].
  split; [|by rewrite Ho2, Ho1, Hrc].
  unfold transaction in *. cbn. cbn in Ht2. congruence.
Qed.
End SessionProgress.

(** ** A concrete resolver and receiver, for the witnesses *)

Module Demo.
(** Deliveries accepted so far: sender, recipients, raw message. *)
Definition world : Type := list (bytes * list InboxID * bytes).

Definition inbox_of (address : bytes) : option InboxID :=
  if bool_decide (address = str "a@x.org") then Some (str "1")
  else if bool_decide (address = str "b@x.org") then Some (str "2") else None.

#[global] Instance resolver : InboxResolver world := {
  ResolveInboxForDelivery w address _ :=
    (w, match inbox_of address with Some id => Ok id | None => Err (ESentinel ErrInboxNotFound) end)
}.

Definition receive (bufsz : nat) (conn_err : goerr) (w : world) (sender : bytes)
    (ids : list InboxID) (r : dataReader) : world * dataReader * option goerr :=
  match read_seq bufsz conn_err r (replicate 64 16%nat) with
  | (r', out, Some (ESentinel IoEOF)) => (w ++ [(sender, ids, out)], r', None)
  | (r', _, e) => (w, r', e)
  end.

#[global] Instance receiver bufsz conn_err : MessageReceiver world bufsz conn_err.
Proof.
  refine {| CheckCapacity w := (w, None); Receive := receive bufsz conn_err |}.
  intros w sender ids r w' r' e. unfold receive.
  destruct (read_seq _ _ _ _) as [[r1 out] e1] eqn:E. intros H.
  exists (replicate 64 16%nat), out, e1. rewrite E. f_equal. f_equal.
  destruct e1 as [[[]| | | | |]|]; congruence.
Defined.

Definition options : Options := DefaultOptions (str "mx.example.org").

Definition dialogue : bytes :=
  str "LHLO client" ++ CRLF ++ str "MAIL FROM:<s@y.org> SIZE=10" ++ CRLF ++
  str "RCPT TO:<A@x.org>" ++ CRLF ++ str "RCPT TO:<b@x.org>" ++ CRLF ++ str "RCPT TO:<a@x.org>" ++ CRLF ++
  str "DATA" ++ CRLF ++ str "..hi" ++ CRLF ++ str "." ++ CRLF ++ str "QUIT" ++ CRLF.

(** The whole dialogue: two recipients (the repeated one counts once), one
    reply for each, the message stored once with its dot restored. *)
Example dialogue_runs :
  match run 64 IoEOF false options [] dialogue 100 with
  | Some (w, s, e) => w = [(str "s@y.org", [str "1"; str "2"], str ".hi" ++ CRLF)] /\ e = None /\
      (match s_out s with _ :: l => (λ r, match r with Reply c _ _ => c | _ => 0 end) <$> l | _ => [] end)
      = [0; 250; 250; 250; 250; 354; 250; 250; 221]
  | None => False
  end.
Proof. vm_compute. repeat split. Qed.
End Demo.

(** ** Properties *)



(** A session always terminates: whatever the peer sends, and whatever the
    resolver and the receiver do, [run] returns after finitely many turns. *)
Theorem run_total {W} (bufsz : nat) (conn_err : goerr) (conn_closed : bool)
    `{!InboxResolver W} `{!MessageReceiver W bufsz conn_err} (o : Options)
    (w : W) (stream : bytes) (writes : nat) :
  (2 <= bufsz)%nat -> is_Some (run bufsz conn_err conn_closed o w stream writes).
Proof.
  intros Hb. unfold run. destruct (write _ _) as [s'|] eqn:E; [|eauto].
  apply run_loop_total; [done|]. rewrite (write_reader _ _ _ E). cbn. lia.
Qed.

Lemma run_total_witness : is_Some (run 64 IoEOF false Demo.options [] Demo.dialogue 3).
Proof. apply (run_total (W := Demo.world)). lia. Defined.

(** C26: a DATA command in a transaction with recipients.  The session answers
    354, hands the message to the receiver once, then sends exactly one reply
    per recipient, in order and all with the status of the delivery
    ([classifyDeliveryError]), clears the transaction, and continues with the
    byte that follows the terminator, also when the receiver stopped early. *)
Theorem data_transaction {W} (bufsz : nat) (conn_err : goerr)
    `{!InboxResolver W} `{!MessageReceiver W bufsz conn_err} (o : Options)
    (w w1 w2 : W) (s : session) (raws : list bytes) (t rest : bytes) data e :
  (2 <= bufsz)%nat -> 1 <= MaxDataLineBytes o ->
  s_mailSet s = true -> s_recipients s <> [] ->
  (length (s_recipients s) < s_writes s)%nat ->
  s_reader s = wire raws ++ t ++ LF :: rest -> terminator t ->
  Forall (λ raw, (LF ∉ raw) /\ strip_cr raw <> [dot]) raws ->
  CheckCapacity w = (w1, None) ->
  Receive w1 (s_sender s) (rc_inboxID <$> s_recipients s)
    (newDataReader (s_reader s) (MaxMessageBytes o) (MaxDataLineBytes o)) = (w2, data, e) ->
  exists s', dispatch bufsz conn_err o w s (str "DATA") [] = Continue w2 s' /\
    s_reader s' = rest /\
    transaction s' = (s_greeted s, false, [], 0, [], ∅) /\
    let '(c, en, tx) := classifyDeliveryError e in
    s_out s' = s_out s ++ Reply 354 "2.0.0" (str "End data with <CR><LF>.<CR><LF>")
      :: ((λ r, Reply c en (rc_address r ++ str " " ++ str tx)) <$> s_recipients s).
Proof.
  intros Hb Hline Hm Hne Hw Hreader Ht Hraws Hcap HR.
  change (dispatch bufsz conn_err o w s (str "DATA") []) with (do_DATA bufsz conn_err o w s []).
  unfold do_DATA. rewrite Hm, bool_decide_eq_false_2 by done. cbn [negb orb].
  rewrite bool_decide_eq_true_2 by reflexivity. cbn [negb]. rewrite Hcap.
  unfold write. destruct (s_writes s) as [|n] eqn:Ew; [lia|].
  set (s1 := Session _ _ _ _ _ _ _ _ _ _).
  destruct (receiveData_transaction bufsz conn_err o Hb w1 s1 raws t rest w2 data e)
    as (s' & Hd & Hr' & Ht' & Ho'); try done; [cbn; lia|].
  exists s'. rewrite Hd. split; [done|]. split; [done|]. split; [done|].
  destruct (classifyDeliveryError e) as [[c en] tx]. rewrite Ho'. cbn [s1 s_out s_recipients].
  by rewrite <- app_assoc.
Qed.

Lemma data_transaction_witness :
  exists s', dispatch 64 IoEOF Demo.options ([] : Demo.world)
      (Session (str "hello" ++ CRLF ++ str "." ++ CRLF ++ str "QUIT") [] 9 [] true true [] 0
         [Recipient (str "a@x.org") (str "1"); Recipient (str "b@x.org") (str "2")]
         {[ str "1"; str "2" ]}) (str "DATA") []
    = Continue [([], [str "1"; str "2"], str "hello" ++ CRLF)] s' /\ s_reader s' = str "QUIT".
Proof.
  edestruct (data_transaction (W := Demo.world) 64 IoEOF Demo.options [] []
    [([], [str "1"; str "2"], str "hello" ++ CRLF)]
    (Session (str "hello" ++ CRLF ++ str "." ++ CRLF ++ str "QUIT") [] 9 [] true true [] 0
         [Recipient (str "a@x.org") (str "1"); Recipient (str "b@x.org") (str "2")]
         {[ str "1"; str "2" ]})
    [str "hello" ++ [CR]] [dot; CR] (str "QUIT")) as (s' & H & Hr & _);
    [lia|vm_compute; discriminate|reflexivity|discriminate|vm_compute; lia|reflexivity|by right| | | |].
  - repeat constructor; by apply (bool_decide_unpack _).
  - reflexivity.
  - vm_compute. reflexivity.
  - exists s'. split; [exact H|exact Hr].
Defined.

(** The errors that mean the message can never be accepted as it is. *)
Definition permanent_cause (e : goerr) : bool :=
  errors_is e ErrDataTooLarge || errors_is e ErrContentTooLarge || errors_is e ErrDataLineTooLong
  || errors_is e ErrInboxNotFound || errors_is e ErrInboxMessageQuotaExceeded
  || errors_is e ErrInboxStorageQuotaExceeded || errors_is e ErrInvalidDelivery.

(** The delivery status is 250 exactly when the receiver reported no
    error; every error gives a 4xx or 5xx status, a 5xx one only for a cause
    that a retry cannot cure, and disk pressure is the retryable 452. *)
Lemma classifyDeliveryError_sound (err : option goerr) :
  let '(code, _, _) := classifyDeliveryError err in
  match err with
  | None => code = 250
  | Some e =>
    400 <= code < 600 /\
    (500 <= code -> permanent_cause e = true) /\
    (permanent_cause e = false -> errors_is e ErrInsufficientStorage = true -> code = 452)
  end.
Proof.
  destruct err as [e|]; [|done]. unfold classifyDeliveryError, permanent_cause.
  destruct (errors_is e ErrDataTooLarge); [by cbn|].
  destruct (errors_is e ErrContentTooLarge); [by cbn|].
  destruct (errors_is e ErrDataLineTooLong); [by cbn|].
  destruct (errors_is e ErrInboxNotFound); [by cbn|].
  destruct (errors_is e ErrInboxMessageQuotaExceeded); [by cbn|].
  destruct (errors_is e ErrInboxStorageQuotaExceeded); [by cbn|].
  destruct (errors_is e ErrInsufficientStorage); [cbn; intuition lia|].
  destruct (errors_is e ErrInvalidDelivery); cbn; intuition lia.
Qed.
