(* ===== verification/MailboxService.v ===== *)
(** * The mailbox service: [internal/mailbox/service.go]

    Creating inboxes with their owner capability, message access and paging,
    on a process with a database, a random source, a clock and a content
    store. *)

From S2P Require Import Prelude GoStrings Errors Codec Uuid FileSystem Message ContentStore ContentStoreFacts Mail Database DatabaseFacts Token Scope DeliveryRepo MailboxRepo CapabilityRepo Capability CapabilityDb LmtpCommand.

#[local] Opaque sha256.

(** ** [base32.StdEncoding.WithPadding(NoPadding)], in lower case *)

Definition b32_char (n : Z) : ascii := byte_of (if n <? 26 then 97 + n else 50 + (n - 26)).

(** The first [k] of the eight digits of a 40-bit group. *)
Definition b32_group (k : nat) (z : Z) : bytes :=
  (λ i, b32_char (Z.land (Z.shiftr z (35 - 5 * Z.of_nat i)) 31)) <$> seq 0 k.

Fixpoint b32_encode (s : bytes) : bytes :=
  match s with
  | [] => []
  | [a] => b32_group 2 (be_decode [a] * 2 ^ 32)
  | [a; b] => b32_group 4 (be_decode [a; b] * 2 ^ 24)
  | [a; b; c] => b32_group 5 (be_decode [a; b; c] * 2 ^ 16)
  | [a; b; c; d] => b32_group 7 (be_decode [a; b; c; d] * 2 ^ 8)
  | a :: b :: c :: d :: e :: s => b32_group 8 (be_decode [a; b; c; d; e]) ++ b32_encode s
  end.

Definition entropyBytes : nat := 12.

(** [generateLocalPart]: the local part and the rest of the random source. *)
Definition generateLocalPart (random : bytes) : res (bytes * bytes) :=
  if (length random <? entropyBytes)%nat then Err (ENew "unexpected EOF")
  else Ok (b32_encode (take entropyBytes random), drop entropyBytes random).

(** ** The service *)

Record ServiceOptions := MkServiceOptions { so_PublicDomains : list bytes; so_DefaultTTL : Z; so_MaxTTL : Z }.
Record Service := MkService { sv_domains : list bytes; sv_defaultTTL : Z; sv_maxTTL : Z }.

(** The loop over [PublicDomains]; the [allowed] set holds the same names. *)
Fixpoint normalize_domains (seen : list bytes) (l : list bytes) : res (list bytes) :=
  match l with
  | [] => Ok seen
  | domain :: l =>
    let domain := to_lower (trim_space domain) in
    if bool_decide (domain = []) then Err (ENew "public Inbox domain is empty")
    else if bool_decide (domain ∈ seen) then Err (ENew "duplicate public Inbox domain")
    else normalize_domains (seen ++ [domain]) l
  end.

Definition NewService (options : ServiceOptions) : res Service :=
  if bool_decide (so_PublicDomains options = []) then Err (ENew "at least one public Inbox domain is required")
  else if (so_DefaultTTL options <=? 0) || (so_MaxTTL options <=? 0) || (so_MaxTTL options <? so_DefaultTTL options)
  then Err (ENew "Inbox TTL range is invalid")
  else match normalize_domains [] (so_PublicDomains options) with
  | Err e => Err e
  | Ok domains => Ok (MkService domains (so_DefaultTTL options) (so_MaxTTL options))
  end.

Record CreateRequest := MkCreateRequest { cq_Domain : bytes; cq_LocalPart : bytes; cq_Lifetime : Z }.
Record CreatedInbox := MkCreatedInbox { ci_Inbox : Inbox; ci_Capability : IssuedCapability }.

Definition maxAddressGenerationAttempts : nat := 5.

Definition allScopes : list Z :=
  [ScopeInboxRead; ScopeInboxDelete; ScopeMessageRead; ScopeMessageUpdate; ScopeMessageDelete].

Record CursorPage := MkCursorPage { cg_Limit : Z; cg_Before : option MessageCursor }.
Record CursorMessagePage := MkCursorMessagePage { cm_Items : list MessageSummary; cm_Next : option MessageCursor }.
Record RawSource := MkRawSource { rs_Reader : nat; rs_Size : Z }.
Record AttachmentSource (S : Type) := MkAttachmentSource { as_Reader : S; as_FileName : bytes; as_ContentType : bytes; as_Size : Z }.
Arguments MkAttachmentSource {S}.

Definition take_random (w : host) (rest : bytes) : host := Host (h_db w) rest (h_clock w).

Section Service.
Context `{!UUIDLib} (s : Service).

(** The loop of [Create]: the inbox, or [ErrAddressConflict] when every
    attempt met one. *)
Fixpoint create_loop (attempts : nat) (w : host) (localPart domain : bytes) (now expiresAt : Z) : host * res Inbox :=
  match attempts with
  | O => (w, Err (ESentinel ErrAddressConflict))
  | S n =>
    match (match localPart with
           | [] => match generateLocalPart (h_random w) with
                   | Err e => Err (EWrap "generate Inbox address" e)
                   | Ok (candidate, rest) => Ok (candidate, take_random w rest)
                   end
           | _ => Ok (localPart, w)
           end) with
    | Err e => (w, Err e)
    | Ok (candidate, w) =>
      match lift (CreateInbox (MkNewInbox (candidate ++ str "@" ++ domain) expiresAt now)) w with
      | (w, Err e) =>
        if errors_is e ErrAddressConflict then create_loop n w localPart domain now expiresAt
        else (w, Err (EWrap "create Inbox" e))
      | (w, Ok inbox) => (w, Ok inbox)
      end
    end
  end.

(** The inbox is removed again when no capability can be issued for it. *)
Definition issue_owner (w : host) (inbox : Inbox) (expiresAt : Z) : host * res CreatedInbox :=
  match NewScopeSet allScopes with
  | Err e => (w, Err e)
  | Ok scopes =>
    match Issue w (ib_ID inbox) scopes expiresAt with
    | (w, Ok capability) => (w, Ok (MkCreatedInbox inbox capability))
    | (w, Err e) =>
      let e := EWrap "issue Inbox capability" e in
      match lift (DeleteInbox (ib_ID inbox)) w with
      | (w, Ok _) => (w, Err e)
      | (w, Err cleanupErr) => (w, Err (EWrap2 "join" e cleanupErr))
      end
    end
  end.

(** [Service.Create] *)
Definition Create (w : host) (request : CreateRequest) : host * res CreatedInbox :=
  let domain := to_lower (trim_space (cq_Domain request)) in
  let domain := if bool_decide (domain = []) then default [] (head (sv_domains s)) else domain in
  if negb (bool_decide (domain ∈ sv_domains s)) then (w, Err (ESentinel ErrInvalidDomain))
  else
    let lifetime := if cq_Lifetime request =? 0 then sv_defaultTTL s else cq_Lifetime request in
    if (lifetime <=? 0) || (sv_maxTTL s <? lifetime) then (w, Err (ESentinel ErrInvalidLifetime))
    else
      let now := h_clock w in
      let expiresAt := now + lifetime in
      let localPart := to_lower (trim_space (cq_LocalPart request)) in
      if negb (bool_decide (localPart = [])) && negb (ValidInboxLocalPart localPart)
      then (w, Err (ESentinel ErrInvalidLocalPart))
      else
        match create_loop (if bool_decide (localPart = []) then maxAddressGenerationAttempts else 1) w localPart domain now expiresAt with
        | (w, Err e) => (w, Err e)
        | (w, Ok inbox) =>
          if bool_decide (ib_ID inbox = []) then (w, Err (ESentinel ErrAddressConflict))
          else issue_owner w inbox expiresAt
        end.

Definition Get (w : host) (inboxID : InboxID) : host * res Inbox := lift (GetInbox inboxID) w.

Definition discard {A} (x : host * res A) : host * option goerr :=
  (x.1, match x.2 with Ok _ => None | Err e => Some e end).

Definition Delete (w : host) (inboxID : InboxID) : host * option goerr := discard (lift (DeleteInbox inboxID) w).

(** [Service.ListMessages] *)
Definition page_limit (limit : Z) : Z :=
  let limit := if limit <=? 0 then 50 else limit in if 100 <? limit then 100 else limit.

Definition ListMessages (inboxID : InboxID) (request : CursorPage) : DB CursorMessagePage :=
  let limit := page_limit (cg_Limit request) in
  if match cg_Before request with
     | Some b => bool_decide (mc_ID b = []) || bool_decide (mc_ReceivedAt b = zero_time)
     | None => false
     end
  then dthrow (ENew "message cursor is invalid")
  else
    page <-- MailboxRepo.ListMessages inboxID (MkPage (limit + 1) 0 (cg_Before request)) ;;
    if limit <? zlen (mp_Items page) then
      let items := take (Z.to_nat limit) (mp_Items page) in
      dret (MkCursorMessagePage items ((λ x, MkMessageCursor (su_ReceivedAt x) (su_ID x)) <$> last items))
    else dret (MkCursorMessagePage (mp_Items page) None).

(** [Service.ListMessagePage] *)
Definition ListMessagePage (inboxID : InboxID) (limit offset : Z) : DB MessagePage :=
  if (limit <=? 0) || (200 <? limit) || (offset <? 0) then dthrow (ENew "message page is invalid")
  else MailboxRepo.ListMessages inboxID (MkPage limit offset None).

Definition GetMessage (w : host) (inboxID : InboxID) (messageID : MessageID) : host * res MessageDetail :=
  lift (MailboxRepo.GetMessage inboxID messageID) w.

Definition DeleteMessage (w : host) (inboxID : InboxID) (messageID : MessageID) : host * option goerr :=
  discard (lift (MailboxRepo.DeleteMessage inboxID messageID) w).

Definition MarkMessageSeen (w : host) (inboxID : InboxID) (messageID : MessageID) : host * option goerr :=
  discard (lift (MailboxRepo.MarkMessageSeen inboxID messageID (h_clock w)) w).

(** [Service.OpenSource]: an open file is its inode. *)
Definition OpenSource (c : config) (w : host) (st : Store) (inboxID : InboxID) (messageID : MessageID) : host * Store * res RawSource :=
  match lift (GetMessageContent inboxID messageID) w with
  | (w, Err e) => (w, st, Err e)
  | (w, Ok ref) =>
    match OpenRaw c ref (st_disk st) with
    | (d, Err e) => (w, with_disk st d, Err (EWrap "open Raw MIME" e))
    | (d, Ok i) => (w, with_disk st d, Ok (MkRawSource i (SizeBytes ref)))
    end
  end.

(** [Service.OpenAttachment] with the attachment parser it was given. *)
Definition OpenAttachment {S} (parser : option (disk -> nat -> bytes -> disk * res S)) (c : config) (w : host) (st : Store)
    (inboxID : InboxID) (messageID : MessageID) (partPath : bytes) : host * Store * res (AttachmentSource S) :=
  match parser with
  | None => (w, st, Err (ENew "attachment parser is not configured"))
  | Some open =>
    match lift (MailboxRepo.GetMessage inboxID messageID) w with
    | (w, Err e) => (w, st, Err e)
    | (w, Ok detail) =>
      match snd <$> list_find (λ a, at_PartPath a = partPath) (md_Attachments detail) with
      | None => (w, st, Err (ESentinel ErrMessageNotFound))
      | Some selected =>
        match lift (GetMessageContent inboxID messageID) w with
        | (w, Err e) => (w, st, Err e)
        | (w, Ok ref) =>
          match OpenRaw c ref (st_disk st) with
          | (d, Err e) => (w, with_disk st d, Err (EWrap "open Raw MIME" e))
          | (d, Ok raw) =>
            match open d raw (at_PartPath selected) with
            | (d, Err e) => (w, with_disk st d, Err e)
            | (d, Ok stream) =>
              (w, with_disk st d,
               Ok (MkAttachmentSource stream (at_FileName selected) (at_ContentType selected) (at_SizeBytes selected)))
            end
          end
        end
      end
    end
  end.
End Service.

(** ** Paging *)

Section Paging.
Context `{!UUIDLib} `{!UUIDSpec _}.

(** What the [messages] table holds of times and identifiers. *)
Definition rows_ok (d : db) : Prop :=
  forall id m, messages d !! id = Some m ->
    length id = 16%nat /\ pg_time (ms_received m) = ms_received m /\ ms_received m <> zero_time.

(** A client that follows the cursors. *)
Fixpoint walk (fuel : nat) (inboxID : InboxID) (limit : Z) (before : option MessageCursor) (d : db) : option (res (list MessageSummary)) :=
  match fuel with
  | O => None
  | S fuel =>
    match ListMessages inboxID (MkCursorPage limit before) d with
    | (_, Err e) => Some (Err e)
    | (d, Ok page) =>
      match cm_Next page with
      | None => Some (Ok (cm_Items page))
      | Some next =>
        match walk fuel inboxID limit (Some next) d with
        | Some (Ok rest) => Some (Ok (cm_Items page ++ rest))
        | x => x
        end
      end
    end
  end.

Lemma messages_of_in d id kv : kv ∈ messages_of d id -> messages d !! kv.1 = Some kv.2 /\ ms_inbox kv.2 = id.
Proof. unfold messages_of. rewrite list_elem_of_filter. intros [Hi Hin]. destruct kv. by apply elem_of_map_to_list in Hin. Qed.

Lemma messages_of_nodup d id : NoDup (messages_of d id).*1.
Proof.
  unfold messages_of. eapply sublist_NoDup; [apply (NoDup_fst_map_to_list (messages d))|].
  apply fmap_sublist, sublist_filter.
Qed.

Lemma listing_None d id : listing d id None = newest_first (filter (λ _, inbox_live d id = true) (messages_of d id)).
Proof. unfold listing. f_equal. apply filter_agree. intros x _. by rewrite andb_true_r. Qed.

Lemma newest_first_perm l : newest_first l ≡ₚ l.
Proof. apply merge_sort_Permutation. Qed.

Lemma listing_nodup d id b : NoDup (listing d id b).*1.
Proof.
  unfold listing. rewrite newest_first_perm. eapply sublist_NoDup; [apply (messages_of_nodup d id)|].
  apply fmap_sublist, sublist_filter.
Qed.

Lemma filter_filter_and (P Q : uuid * message_row -> bool) (l : list (uuid * message_row)) :
  filter (λ x, P x && Q x = true) l = filter (λ x, Q x = true) (filter (λ x, P x = true) l).
Proof.
  rewrite list_filter_filter. apply list_filter_iff. intros x. rewrite andb_true_iff. tauto.
Qed.

(** Filtering commutes with the order. *)
Lemma newest_first_filter (P : uuid * message_row -> bool) (l : list (uuid * message_row)) :
  NoDup l.*1 -> newest_first (filter (λ x, P x = true) l) = filter (λ x, P x = true) (newest_first l).
Proof.
  intros Hnd. apply newest_first_unique.
  - rewrite newest_first_perm. eapply sublist_NoDup; [exact Hnd|]. apply fmap_sublist, sublist_filter.
  - rewrite newest_first_perm. by rewrite newest_first_perm.
  - apply newest_first_sorted.
  - pose proof (newest_first_sorted l) as HS. induction HS as [|x k HS IH HF]; [constructor|]. rewrite filter_cons.
    case_decide; [|done]. constructor; [done|]. rewrite Forall_forall in *. intros y [_ Hy]%list_elem_of_filter. by apply HF.
Qed.

(** The rows behind a cursor are the rest of the listing. *)
Lemma listing_after d id i x :
  listing d id None !! i = Some x -> listing d id (Some (row_key x)) = drop (S i) (listing d id None).
Proof.
  intros Hi. rewrite <- (older_is_rest _ i x (listing_nodup d id None)); [|rewrite listing_None; apply newest_first_sorted|done].
  unfold listing at 1. rewrite (filter_filter_and (λ _, inbox_live d id) (λ kv, key_ltb (row_key kv) (row_key x))).
  rewrite newest_first_filter by (eapply sublist_NoDup; [apply (messages_of_nodup d id)|]; apply fmap_sublist, sublist_filter).
  by rewrite <- listing_None.
Qed.

Definition cursor_of (x : uuid * message_row) : MessageCursor := MkMessageCursor (ms_received x.2) (uuid_string x.1).

Lemma summary_cursor d x : MkMessageCursor (su_ReceivedAt (summary_of d x)) (su_ID (summary_of d x)) = cursor_of x.
Proof. by destruct x. Qed.

(** The rows a request starts from. *)
Definition rows_from (d : db) (id : uuid) (before : option (uuid * message_row)) : list (uuid * message_row) :=
  listing d id (row_key <$> before).

Lemma page_limit_range limit : 1 <= page_limit limit <= 100.
Proof. unfold page_limit. destruct (limit <=? 0) eqn:E1; bool_to_prop; destruct (100 <? _) eqn:E2; bool_to_prop; lia. Qed.

Lemma repository_page inboxID id d n (before : option (uuid * message_row)) :
  db_oracle d = [] -> rows_ok d -> uuid_parse inboxID = Some id -> 0 < n ->
  (forall x, before = Some x -> messages d !! x.1 = Some x.2) ->
  exists total unread, MailboxRepo.ListMessages inboxID (MkPage n 0 (cursor_of <$> before)) d =
    (d, Ok (MkMessagePage (summary_of d <$> take (Z.to_nat n) (rows_from d id before)) total unread)).
Proof.
  intros Hc Hr Hu Hn Hb. unfold MailboxRepo.ListMessages, cast. cbn [pg_Limit pg_Offset pg_Before].
  rewrite (proj2 (Z.leb_gt _ _) Hn), Hu. change (0 <? 0) with false. cbn [orb].
  assert (forall x, before = Some x -> length x.1 = 16%nat /\ pg_time (ms_received x.2) = ms_received x.2 /\ ms_received x.2 <> zero_time) as Hx.
  { intros x Hx. by apply (Hr x.1 x.2), Hb. }
  destruct before as [x|]; cbn [fmap option_fmap option_map cursor_of mc_ID mc_ReceivedAt].
  - destruct (Hx x eq_refl) as (Hl & Hp & Hz). pose proof (uuid_parse_string x.1 Hl) as Hps.
    rewrite bool_decide_eq_false_2; cycle 1.
    { intros E. by rewrite E, uuid_parse_empty in Hps. }
    rewrite bool_decide_eq_false_2 by done. cbn [negb orb Z.eqb]. unfold dbind at 1. rewrite query_calm by done. rewrite Hps, Hp.
    unfold dbind. rewrite query_calm by done. by eexists _, _.
  - unfold dbind at 1. rewrite query_calm by done. unfold dbind. rewrite query_calm by done. by eexists _, _.
Qed.

Lemma service_page inboxID id d limit (before : option (uuid * message_row)) :
  db_oracle d = [] -> rows_ok d -> uuid_parse inboxID = Some id ->
  (forall x, before = Some x -> messages d !! x.1 = Some x.2) ->
  let n := Z.to_nat (page_limit limit) in let rows := rows_from d id before in
  ListMessages inboxID (MkCursorPage limit (cursor_of <$> before)) d =
    (d, Ok (MkCursorMessagePage (summary_of d <$> take n rows)
      (if (n <? length rows)%nat then cursor_of <$> last (take n rows) else None))).
Proof.
  intros Hc Hr Hu Hb n rows. unfold ListMessages. cbn [cg_Limit cg_Before].
  pose proof (page_limit_range limit) as Hl.
  destruct (repository_page inboxID id d (page_limit limit + 1) before Hc Hr Hu ltac:(lia) Hb) as (total & unread & Hp).
  assert (match cursor_of <$> before with
          | Some b => bool_decide (mc_ID b = []) || bool_decide (mc_ReceivedAt b = zero_time) | None => false end = false) as ->.
  { destruct before as [x|]; [|done]. cbn. destruct (Hr x.1 x.2 (Hb x eq_refl)) as (Hlen & _ & Hz).
    pose proof (uuid_parse_string x.1 Hlen) as Hps. rewrite !bool_decide_eq_false_2; [done|done|].
    intros Hx. by rewrite Hx, uuid_parse_empty in Hps. }
  unfold dbind. rewrite Hp. cbn [mp_Items]. fold rows. replace (Z.to_nat (page_limit limit + 1)) with (S n) by lia.
  unfold zlen. rewrite length_fmap, length_take.
  destruct (Nat.ltb_spec n (length rows)) as [Hlt|Hge].
  - rewrite (proj2 (Z.ltb_lt _ _)) by lia. unfold dret. do 3 f_equal; rewrite <- fmap_take, take_take, Nat.min_l by lia; [done|].
    rewrite fmap_last, <- option_fmap_compose. fold n. destruct (last (take n rows)) as [x|]; [|done]. cbn. by rewrite summary_cursor.
  - rewrite (proj2 (Z.ltb_ge _ _)) by lia. unfold dret. do 3 f_equal. f_equal. rewrite !take_ge; [done|lia..].
Qed.

Lemma listing_row d id b x : x ∈ listing d id b -> messages d !! x.1 = Some x.2.
Proof.
  unfold listing. rewrite newest_first_perm, list_elem_of_filter. intros [_ Hx]. by apply messages_of_in in Hx as [? _].
Qed.

(** From any row on, a walk returns the rest. *)
Lemma walk_rest fuel inboxID id d limit before i :
  db_oracle d = [] -> rows_ok d -> uuid_parse inboxID = Some id ->
  (match before with None => i = 0%nat | Some x => exists j, i = S j /\ listing d id None !! j = Some x end) ->
  (length (drop i (listing d id None)) < fuel)%nat ->
  walk fuel inboxID limit (cursor_of <$> before) d = Some (Ok (summary_of d <$> drop i (listing d id None))).
Proof.
  intros Hc Hr Hu. revert before i. induction fuel as [|fuel IH]; intros before i Hi Hf; [lia|]. cbn [walk].
  assert (rows_from d id before = drop i (listing d id None)) as Hrows.
  { destruct before as [x|]; [|by subst]. destruct Hi as (j & -> & Hj). unfold rows_from. cbn. by apply listing_after. }
  rewrite (service_page inboxID id d limit before Hc Hr Hu); cycle 1.
  { intros x ->. destruct Hi as (j & _ & Hj). by eapply listing_row, list_elem_of_lookup_2. }
  rewrite Hrows. pose proof (page_limit_range limit) as Hl. set (n := Z.to_nat (page_limit limit)). assert (1 <= n)%nat as Hn by lia.
  set (L := listing d id None) in *. cbn [cm_Next cm_Items].
  destruct (Nat.ltb_spec n (length (drop i L))) as [Hlt|Hge]; [|by rewrite take_ge].
  destruct (last (take n (drop i L))) as [x|] eqn:El; cycle 1.
  { apply last_None in El. apply (f_equal length) in El. rewrite length_take in El. cbn in El. lia. }
  cbn [fmap option_fmap option_map]. rewrite last_lookup, length_take, Nat.min_l in El by lia.
  rewrite lookup_take_lt in El by lia. rewrite lookup_drop in El.
  change (Some (cursor_of x)) with (cursor_of <$> Some x). rewrite (IH (Some x) (i + n)%nat).
  - rewrite <- fmap_app. f_equal. f_equal. f_equal. rewrite <- (drop_drop L n i). apply take_drop.
  - exists (i + pred n)%nat. split; [lia|done].
  - rewrite length_drop in *. lia.
Qed.

(** C21: following the cursors lists an inbox exactly once.  Whatever page
    size is asked for, the pages that [ListMessages] returns when a client
    follows [Next] from the first page on are together exactly the messages of
    the live inbox, newest first, each once, and the walk ends. *)
Theorem pages_complete (inboxID : InboxID) (id : uuid) (d : db) (limit : Z) (fuel : nat) :
  db_oracle d = [] -> rows_ok d -> uuid_parse inboxID = Some id -> (length (messages_of d id) < fuel)%nat ->
  exists rows, walk fuel inboxID limit None d = Some (Ok (summary_of d <$> rows)) /\
    NoDup rows.*1 /\ StronglySorted newer rows /\
    forall x, x ∈ rows <-> messages d !! x.1 = Some x.2 /\ ms_inbox x.2 = id /\ inbox_live d id = true.
Proof.
  intros Hc Hr Hu Hf. exists (listing d id None).
  assert (forall x, x ∈ listing d id None <-> messages d !! x.1 = Some x.2 /\ ms_inbox x.2 = id /\ inbox_live d id = true) as Hin.
  { intros x. rewrite listing_None, newest_first_perm, list_elem_of_filter. unfold messages_of. rewrite list_elem_of_filter.
    destruct x as [k m]. rewrite elem_of_map_to_list. cbn. tauto. }
  split; [|split; [apply listing_nodup|split; [rewrite listing_None; apply newest_first_sorted|done]]].
  apply (walk_rest fuel inboxID id d limit None 0 Hc Hr Hu eq_refl). rewrite listing_None, drop_0, newest_first_perm.
  eapply Nat.le_lt_trans; [apply length_filter|done].
Qed.
End Paging.

(** ** Creating inboxes *)

Definition plain_char (c : ascii) : bool := in_range 97 122 c || in_range 48 57 c.

Lemma plain_ascii c : plain_char c = true -> is_ascii c = true /\ inbox_char (code c) = true /\ inbox_special (code c) = false.
Proof.
  intros Hc. assert (implb (plain_char c) (is_ascii c && inbox_char (code c) && negb (inbox_special (code c))) = true) as Hx.
  { clear Hc. byte_check (λ c, implb (plain_char c) (is_ascii c && inbox_char (code c) && negb (inbox_special (code c)))) c. }
  rewrite Hc in Hx. cbn [implb] in Hx. by bool_to_prop.
Qed.

Lemma b32_char_plain n : 0 <= n < 32 -> plain_char (b32_char n) = true.
Proof.
  intros Hn. assert (forallb (λ k, plain_char (b32_char (Z.of_nat k))) (seq 0 32) = true) as Hall by (vm_compute; reflexivity).
  rewrite forallb_forall in Hall. specialize (Hall (Z.to_nat n)). rewrite Z2Nat.id in Hall by lia. apply Hall, in_seq. lia.
Qed.

Lemma b32_group_plain k z : forallb plain_char (b32_group k z) = true /\ length (b32_group k z) = k.
Proof.
  unfold b32_group. rewrite length_fmap, length_seq. split; [|done]. apply forallb_forall.
  intros c Hc%list_elem_of_In. apply list_elem_of_fmap in Hc as (i & -> & _). apply b32_char_plain.
  change 31 with (Z.ones 5). rewrite Z.land_ones by lia. apply Z.mod_pos_bound. lia.
Qed.

Lemma b32_encode_plain s : forallb plain_char (b32_encode s) = true.
Proof.
  induction s as [s IH] using bytes_strong_ind. destruct s as [|a [|b [|c [|d [|e s]]]]]; cbn [b32_encode]; try apply b32_group_plain; [done|].
  rewrite forallb_app. apply andb_true_iff. split; [apply b32_group_plain|]. apply IH. cbn. lia.
Qed.

Lemma b32_encode_12 s : length s = 12%nat -> length (b32_encode s) = 20%nat.
Proof.
  intros Hl. do 12 (destruct s as [|? s]; [done|]). destruct s; [|done]. cbn [b32_encode].
  rewrite !length_app, !(proj2 (b32_group_plain _ _)). done.
Qed.

Lemma plain_valid s : forallb plain_char s = true -> 1 <= zlen s <= 64 -> ValidInboxLocalPart s = true.
Proof.
  intros Hs Hl. unfold ValidInboxLocalPart. rewrite (proj2 (Z.ltb_ge (zlen s) 1)), (proj2 (Z.ltb_ge 64 (zlen s))) by lia. cbn [orb].
  assert (forallb is_ascii s = true) as Ha.
  { rewrite forallb_forall in *. intros c Hc. by apply plain_ascii, Hs. }
  rewrite runes_ascii by done. clear Ha Hl.
  assert (forall len i, local_runes_ok len i (ascii_seg <$> s) = true) as ->.
  { intros len. induction s as [|c s IH]; intros i; [done|]. cbn [forallb] in Hs. apply andb_true_iff in Hs as [Hc Hs].
    apply plain_ascii in Hc as (_ & Hc & Hn). cbn. rewrite Hc, Hn, andb_false_r. cbn. by apply IH. }
  cbn [negb]. induction s as [|c s IH]; [done|]. cbn [forallb] in Hs. apply andb_true_iff in Hs as [Hc Hs].
  cbn [no_double_dot]. destruct s as [|b s]; [done|]. rewrite IH by done.
  rewrite (bool_decide_eq_false_2 (c = _)); [done|]. intros ->. by vm_compute in Hc.
Qed.

Lemma generateLocalPart_valid random local rest :
  generateLocalPart random = Ok (local, rest) -> ValidInboxLocalPart local = true.
Proof.
  unfold generateLocalPart. destruct (Nat.ltb_spec (length random) entropyBytes) as [|Hl]; [done|]. intros [= <- <-].
  apply plain_valid; [apply b32_encode_plain|]. unfold zlen. rewrite b32_encode_12; [lia|].
  rewrite length_take. unfold entropyBytes in *. lia.
Qed.

Section Creating.
Context `{!UUIDLib} `{!UUIDSpec _} (q : DeliveryLimits).

Definition sound (w : host) : Prop := healthy q (h_db w) /\ inv_db (h_db w).

(** The new inbox row, and what was there before. *)
Definition inserted (d d' : db) (inbox : Inbox) (address : bytes) (expiresAt : Z) : Prop :=
  exists id r, inbox = inbox_of id r /\ length id = 16%nat /\ inboxes d !! id = None /\
    (forall j row, inboxes d !! j = Some row -> in_address row <> address) /\
    inboxes d' = <[id := r]> (inboxes d) /\ in_address r = address /\ in_status r = Active /\ in_expires r = pg_time expiresAt.

Lemma CreateInbox_frame candidate d d' x :
  foreign_oracle d -> CreateInbox candidate d = (d', x) -> capabilities d' = capabilities d /\ foreign_oracle d'.
Proof.
  intros Hf [(d1 & u & E & Hx)|(e & E & ->)]%dbind_inv; pose proof (statement_foreign _ _ _ _ Hf E) as [Hf1 _];
    apply statement_same in E as [S _]; [|split; [apply S|done]].
  destruct (negb _); [injection Hx as <- <-; split; [apply S|done]|].
  destruct (find_address d1 _), (inboxes d1 !! new_uuid d1); injection Hx as <- <-; (split; [apply S|done]).
Qed.

Lemma create_one w w' candidate x :
  sound w -> lift (CreateInbox candidate) w = (w', x) ->
  sound w' /\ h_clock w' = h_clock w /\
  match x with
  | Ok inbox => inserted (h_db w) (h_db w') inbox (ni_Address candidate) (ni_ExpiresAt candidate)
  | Err _ => inboxes (h_db w') = inboxes (h_db w)
  end.
Proof.
  intros [Hh (Hok & Hwf & Hf)]. unfold lift. destruct (CreateInbox candidate (h_db w)) as [d y] eqn:E. intros [= <- <-]. cbn.
  destruct (CreateInbox_frame _ _ _ _ Hf E) as [Hc Hf']. destruct (CreateInbox_inv q candidate _ _ _ Hh E) as (Hh' & _ & _ & Hy).
  split; [split; [done|]; split; [apply Hh'|]; split; [unfold caps_wf; cbn; by rewrite Hc|done]|]. split; [done|].
  destruct y as [inbox|e]; [|apply Hy]. destruct Hy as (id & r & ? & ? & ? & ? & ? & ? & ? & ?). by exists id, r.
Qed.

Lemma create_loop_spec n w w' localPart domain now expiresAt x :
  sound w -> (localPart <> [] -> ValidInboxLocalPart localPart = true) ->
  create_loop n w localPart domain now expiresAt = (w', x) ->
  sound w' /\ h_clock w' = h_clock w /\
  match x with
  | Ok inbox => exists candidate, ValidInboxLocalPart candidate = true /\ (localPart <> [] -> candidate = localPart) /\
      inserted (h_db w) (h_db w') inbox (candidate ++ str "@" ++ domain) expiresAt
  | Err _ => inboxes (h_db w') = inboxes (h_db w)
  end.
Proof.
  intros Hs Hv. revert w Hs. induction n as [|n IH]; intros w Hs; cbn [create_loop]; [by intros [= <- <-]|].
  destruct (match localPart with [] => _ | _ => _ end) as [[candidate w1]|e] eqn:Eg; [|by intros [= <- <-]].
  assert (sound w1 /\ h_db w1 = h_db w /\ h_clock w1 = h_clock w /\ ValidInboxLocalPart candidate = true /\
    (localPart <> [] -> candidate = localPart)) as (Hs1 & Hd1 & Hk1 & Hval & Hloc).
  { destruct localPart as [|a l]; [|injection Eg as <- <-; do 3 (split; [done|]); split; [by apply Hv|done]].
    destruct (generateLocalPart (h_random w)) as [[c rest]|] eqn:E; [|done]. injection Eg as <- <-.
    apply generateLocalPart_valid in E. done. }
  destruct (lift _ w1) as [w2 y] eqn:E2. destruct (create_one _ _ _ _ Hs1 E2) as (Hs2 & Hk2 & Hy). rewrite Hd1 in Hy.
  destruct y as [inbox|e].
  - intros [= <- <-]. split; [done|]. split; [congruence|]. by exists candidate.
  - destruct (errors_is e _).
    + intros (Hs' & Hk & Hx)%IH; [|done]. split; [done|]. split; [congruence|]. rewrite <- Hy. unfold inserted in *. by rewrite Hy in *.
    + intros [= <- <-]. split; [done|]. split; [congruence|done].
Qed.

(** Capabilities are written beside the mail. *)
Record mail_same (d d' : db) : Prop := {
  ml_inboxes : inboxes d' = inboxes d; ml_messages : messages d' = messages d; ml_contents : contents d' = contents d
}.

Lemma mail_same_tables d d' : same_tables d d' -> mail_same d d'.
Proof. intros []. by split. Qed.

Lemma mail_same_trans d1 d2 d3 : mail_same d1 d2 -> mail_same d2 d3 -> mail_same d1 d3.
Proof. intros [] []. split; congruence. Qed.

Lemma mail_same_healthy d d' : db_ok d' -> mail_same d d' -> healthy q d -> healthy q d'.
Proof.
  intros Hok [_ Em Ec] (_ & Hg & Hq). split; [done|]. split.
  - intros key. rewrite Ec, (referenced_messages d d' key Em). apply Hg.
  - intros id. unfold quota_ok, usage_of in *. specialize (Hq id). rewrite (messages_of_same d d' id Em).
    replace ((λ kv : uuid * message_row, size_of d' (ms_content kv.2)) <$> messages_of d id)
      with ((λ kv : uuid * message_row, size_of d (ms_content kv.2)) <$> messages_of d id); [done|].
    apply list_fmap_ext. intros i x _. unfold size_of. by rewrite Ec.
Qed.

Lemma insert_capability_frame row d d' x : insert_capability row d = (d', x) -> mail_same d d'.
Proof.
  unfold insert_capability. destruct (negb _); [by intros [= <- <-]|]. destruct (capabilities d !! _); [by intros [= <- <-]|].
  destruct (find_kid d _); [by intros [= <- <-]|]. destruct (_ ≫= _); [by intros [= <- <-]|]. by intros [= <- <-].
Qed.

Lemma CreateCapability_frame c d d' x :
  CreateCapability c d = (d', x) -> mail_same d d' /\
  forall r u, x = Ok r -> uuid_parse (nc_InboxID c) = Some u -> cr_InboxID r = uuid_string u.
Proof.
  unfold CreateCapability. destruct (validateNewCapability c); [by intros [= <- <-]|].
  destruct (uuid_parse (nc_InboxID c)) as [u|]; [|by intros [= <- <-]].
  intros [(d1 & v & E & Hx)|(e & E & ->)]%dbind_inv; apply statement_same in E as [S _]; apply mail_same_tables in S; [|done].
  destruct (negb _).
  { unfold mapUnavailableInbox in Hx. apply dbind_inv in Hx as [(d2 & f & E2 & Hx)|(e & E2 & ->)]; apply query_inv in E2 as (S2 & _ & _);
      apply mail_same_tables in S2; pose proof (mail_same_trans _ _ _ S S2); [|done].
    repeat match type of Hx with context [match ?b with _ => _ end] => destruct b end; by injection Hx as <- <-. }
  destruct (insert_capability _ d1) as [d2 [id|v']] eqn:E2; apply insert_capability_frame, (mail_same_trans _ _ _ S) in E2;
    injection Hx as <- <-; (split; [done|]); [|done].
  intros r u' Hr [= <-]. unfold hydrateCapabilityRecord in Hr. cbn [scan_row cr_InboxID cp_inbox] in Hr.
  destruct (negb _); [done|]. destruct (_ || _); [done|]. destruct (scopeSetFromDatabase _); [|done]. by injection Hr as <-.
Qed.

Lemma issue_frame n (w w' : host) c x u :
  cap_inv w -> uuid_parse (nc_InboxID c) = Some u -> issue_loop n w c = (w', x) ->
  cap_inv w' /\ mail_same (h_db w) (h_db w') /\ h_clock w' = h_clock w /\ forall issued, x = Ok issued -> ic_InboxID issued = uuid_string u.
Proof.
  intros Hi Hu Hl. split; [by eapply issue_loop_keeps|]. revert w c Hi Hu Hl.
  induction n as [|n IH]; intros w c Hi Hu; cbn [issue_loop]; [by intros [= <- <-]|].
  destruct (host_generate w TokenCapability) as [w1 y] eqn:Eg. destruct (spec_generate _ _ _ _ Hi Eg) as (Hi1 & _).
  assert (h_db w1 = h_db w /\ h_clock w1 = h_clock w) as [Hd1 Hk1].
  { cbn in Eg. unfold GenerateToken in Eg. destruct (generateToken _ _) as [[t rest]|]; by injection Eg as <- <-. }
  destruct y as [t|e]; [|intros [= <- <-]; by rewrite Hd1]. destruct (Token.Digest t) as [digest|]; [|intros [= <- <-]; by rewrite Hd1].
  set (c' := MkNewCapability _ _ _ _ _ _). destruct (cap_create w1 c') as [w2 z] eqn:Ec.
  destruct (spec_create _ _ _ _ Hi1 Ec) as (Hi2 & _).
  assert (mail_same (h_db w) (h_db w2) /\ h_clock w2 = h_clock w /\ forall r, z = Ok r -> cr_InboxID r = uuid_string u) as (Hm2 & Hk2 & Hz).
  { cbn in Ec. unfold lift in Ec. destruct (CreateCapability c' (h_db w1)) as [d v] eqn:E. injection Ec as <- <-. rewrite Hd1 in E.
    apply CreateCapability_frame in E as [? Hx]. split; [done|]. split; [done|]. intros r ->. by apply (Hx r u). }
  destruct z as [r|e].
  - destruct (Encode t); intros [= <- <-]; (split; [done|]); (split; [done|]); [|done]. intros issued [= <-]. by apply Hz.
  - destruct (errors_is e _); [|by intros [= <- <-]]. intros (Hm & Hk & Hx)%IH; [|done|done]. split; [by eapply mail_same_trans|].
    split; [congruence|done].
Qed.

Lemma inserted_same d d1 d2 inbox a e : inserted d d1 inbox a e -> mail_same d1 d2 -> inserted d d2 inbox a e.
Proof. intros (id & r & H1 & H2 & H3 & H4 & H5 & H6) [E _ _]. exists id, r. by rewrite E. Qed.

(** The owner's capability, as its holder can use it. *)
Definition owner_capability (w : host) (capability : IssuedCapability) (inbox : Inbox) : Prop :=
  ic_InboxID capability = ib_ID inbox /\
  forall w2 required, cap_inv w2 -> cap_calm w2 -> cap_view w2 (ic_KID capability) = cap_view w (ic_KID capability) ->
    host_now w2 < ic_ExpiresAt capability ->
    Authenticate w2 (ic_Plaintext capability) required =
      (w2, if Has allCapabilityScopes required
           then Ok (MkPrincipal (ic_ID capability) (ib_ID inbox) (ic_KID capability) allCapabilityScopes (ic_ExpiresAt capability))
           else Err (ESentinel ErrForbidden)).

Lemma issue_owner_spec w0 w w' inbox a expiresAt x :
  sound w -> inserted (h_db w0) (h_db w) inbox a expiresAt -> issue_owner w inbox expiresAt = (w', x) ->
  match x with
  | Ok created => ci_Inbox created = inbox /\ inserted (h_db w0) (h_db w') inbox a expiresAt /\
      ic_ExpiresAt (ci_Capability created) = pg_time expiresAt /\ owner_capability w' (ci_Capability created) inbox
  | Err e => inboxes (h_db w') = inboxes (h_db w0) \/ exists e1 e2, e = EWrap2 "join" e1 e2
  end.
Proof.
  intros [Hh Hi] Hins. unfold issue_owner. assert (NewScopeSet allScopes = Ok allCapabilityScopes) as -> by reflexivity.
  destruct Hins as (id & r & Hib & Hlen & Hfree & Hadr & Hdb & Ha & Hst & Hex).
  assert (uuid_parse (ib_ID inbox) = Some id) as Hu by (subst inbox; by apply uuid_parse_string).
  destruct (Issue w (ib_ID inbox) allCapabilityScopes expiresAt) as [w1 y] eqn:Ei.
  assert (cap_inv w1 /\ mail_same (h_db w) (h_db w1) /\ forall issued, y = Ok issued -> ic_InboxID issued = uuid_string id) as (Hi1 & Hm & Hy).
  { pose proof Ei as Ei'. unfold Issue, issue in Ei'. rewrite Hu in Ei'. destruct (ScopeSetFromMask _); [|by injection Ei' as <- <-].
    destruct (_ || _); [by injection Ei' as <- <-|].
    destruct (issue_frame _ w w1 (MkNewCapability (ib_ID inbox) [] [] allCapabilityScopes (host_now w) expiresAt) y id Hi Hu Ei') as (? & ? & _ & ?). done. }
  destruct y as [capability|e].
  - intros [= <- <-]. cbn [ci_Inbox ci_Capability]. split; [done|]. split.
    { eapply inserted_same; [|exact Hm]. by exists id, r. }
    assert (cap_inv w) as Hiw by exact Hi. destruct (Issue_Ok w w1 _ _ _ _ Hiw Ei) as (H1 & H2 & _ & _ & H5). split; [done|].
    assert (ic_InboxID capability = ib_ID inbox) as Hid by (rewrite Hib; by apply Hy). split; [done|].
    intros w2 required Hi2 Hc2 Hv2 Hn2. rewrite (H5 w2 required Hi2 Hc2 Hv2 Hn2), Hid. done.
  - unfold lift. destruct (DeleteInbox (ib_ID inbox) (h_db w1)) as [d z] eqn:Ed.
    pose proof (mail_same_healthy _ _ (proj1 Hi1) Hm Hh) as Hh1.
    destruct (DeleteInbox_effect q _ _ _ _ Hh1 Ed) as [_ Hz]. destruct z as [orphans|ce]; intros [= <- <-]; [|right; by eauto].
    left. destruct Hz as (u & Hu' & _ & (Hrm & _) & _). rewrite Hu in Hu'. injection Hu' as <-. cbn. rewrite Hrm, (ml_inboxes _ _ Hm), Hdb.
    apply map_eq. intros k. rewrite map_lookup_filter. destruct (decide (k = id)) as [->|Hk].
    + rewrite lookup_insert_eq, Hfree. cbn. case_guard as Hg; [|done]. exfalso. apply Hg. by left.
    + rewrite lookup_insert_ne by done. destruct (inboxes (h_db w0) !! k); [|done]. cbn. case_guard as Hg; [done|].
      exfalso. by apply Hk, list_elem_of_singleton.
Qed.

End Creating.

(** ** Concrete runs *)

Module Runs.
Definition options : ServiceOptions := MkServiceOptions [str " Example.COM "; str "mail.test"] 3600000000000 86400000000000.
Definition service : Service := MkService [str "example.com"; str "mail.test"] 3600000000000 86400000000000.
Definition request : CreateRequest := MkCreateRequest [] [] 0.

Definition w0 : host := CapabilityDb.Demo.w0.
Definition creating : host * res CreatedInbox := Create service w0 request.
Definition nobody : CreatedInbox := MkCreatedInbox (MkInbox [] [] Active 0 0) CapabilityDb.Demo.nothing.
Definition created : CreatedInbox := CapabilityDb.Demo.value nobody creating.2.

Lemma service_run : NewService options = Ok service.
Proof. vm_compute. reflexivity. Qed.

Lemma created_run : Create service w0 request = (creating.1, Ok created).
Proof. apply CapabilityDb.Demo.run_value. vm_compute. reflexivity. Qed.

(** The generated address. *)
Lemma created_address : ib_Address (ci_Inbox created) = str "aaaqeayeaudaocajbifq@example.com".
Proof. vm_compute. reflexivity. Qed.

Lemma w0_sound : sound DeliveryRepo.Demo.limits w0.
Proof.
  split; [|apply CapabilityDb.Demo.w0_inv]. split; [apply DeliveryRepo.Demo.start_ok|]. split; [|apply DeliveryRepo.Demo.start_quota].
  intros key [? Hk]. cbn in Hk. by rewrite lookup_empty in Hk.
Qed.

(** Three messages, two of them received in the same microsecond. *)
Definition row (received : Z) : message_row :=
  MessageRow DeliveryRepo.Demo.alice (Key DeliveryRepo.Demo.content) (str "bob@example.org") received DeliveryRepo.Demo.now None.
Definition three : db :=
  set_messages Inhabited.full (list_to_map [(be_encode 16 5, row DeliveryRepo.Demo.now); (be_encode 16 6, row DeliveryRepo.Demo.now);
    (be_encode 16 7, row (DeliveryRepo.Demo.now - 1000000))]).

Definition row_okb (kv : uuid * message_row) : bool :=
  (length kv.1 =? 16)%nat && (pg_time (ms_received kv.2) =? ms_received kv.2) && negb (ms_received kv.2 =? zero_time).

Lemma rows_okb_ok d : forallb row_okb (map_to_list (messages d)) = true -> rows_ok d.
Proof.
  rewrite forallb_forall. intros Hall id m Hm%elem_of_map_to_list%list_elem_of_In%Hall. unfold row_okb in Hm. cbn in Hm.
  rewrite !andb_true_iff, Nat.eqb_eq, Z.eqb_eq, negb_true_iff, Z.eqb_neq in Hm. tauto.
Qed.

Lemma three_ok : rows_ok three.
Proof. apply rows_okb_ok. vm_compute. reflexivity. Qed.

Lemma three_calm : db_oracle three = [].
Proof. vm_compute. reflexivity. Qed.

(** Pages of one message. *)
Lemma three_walk : option_map (λ x, match x with Ok l => su_ID <$> l | Err _ => [] end)
    (walk 4 (uuid_string DeliveryRepo.Demo.alice) 1 None three) =
  Some [uuid_string (be_encode 16 6); uuid_string (be_encode 16 5); uuid_string (be_encode 16 7)].
Proof. vm_compute. reflexivity. Qed.
End Runs.

Lemma pages_complete_witness :
  exists rows, walk 4 (uuid_string DeliveryRepo.Demo.alice) 1 None Runs.three = Some (Ok (summary_of Runs.three <$> rows)) /\
    NoDup rows.*1 /\ StronglySorted newer rows /\
    forall x, x ∈ rows <-> messages Runs.three !! x.1 = Some x.2 /\ ms_inbox x.2 = DeliveryRepo.Demo.alice /\
      inbox_live Runs.three DeliveryRepo.Demo.alice = true.
Proof.
  assert (uuid_parse (uuid_string DeliveryRepo.Demo.alice) = Some DeliveryRepo.Demo.alice) as Hu by (vm_compute; reflexivity).
  assert (length (messages_of Runs.three DeliveryRepo.Demo.alice) < 4)%nat as Hl.
  { assert (length (messages_of Runs.three DeliveryRepo.Demo.alice) = 3%nat) as -> by (vm_compute; reflexivity). lia. }
  exact (pages_complete _ _ Runs.three 1 4 Runs.three_calm Runs.three_ok Hu Hl).
Defined.

