(* ===== verification/BrowserSession.v ===== *)
(** * Browser sessions: [internal/auth/session.go]

    A capability is exchanged for an encrypted cookie and a CSRF token.  The
    server keeps nothing: the cookie carries the inbox, the expiry, the
    scopes and a digest of the CSRF token. *)

From S2P Require Import Prelude GoStrings Errors Codec AesGcm Uuid FileSystem Message Mail Database Token Scope Capability.

#[local] Opaque sha256.

Definition browserSessionVersion : Z := 1.
Definition csrfBytes : Z := 32.
Definition expiryTextBytes : nat := 20.
Definition sessionPlaintextBytes : nat := 1 + 16 + expiryTextBytes + 4 + 32.
Definition csrfDigestDomain : bytes := str "mailwisp-browser-csrf-v1" ++ [byte_of 0].

Record BrowserSession := MkBrowserSession { bs_CookieValue : bytes; bs_CSRFToken : bytes; bs_ExpiresAt : Z }.

(** The cipher is given by its key. *)
Record BrowserSessionManager := MkBrowserSessionManager { bm_key : bytes; bm_lifetime : Z }.

Definition nanoseconds : Z := 1000000000.

Definition NewBrowserSessionManager (key : bytes) (lifetime : Z) : res BrowserSessionManager :=
  if zlen key =? 0 then Err (ESentinel ErrBrowserSessionDisabled)
  else if negb (zlen key =? 32) then Err (ENew "browser session key must contain exactly 32 bytes")
  else if (lifetime <=? 0) || (7 * 24 * 3600 * nanoseconds <? lifetime)
  then Err (ENew "browser session lifetime must be between 1ns and 168h")
  else Ok (MkBrowserSessionManager key lifetime).

Definition digestCSRF (csrf : bytes) : bytes := sha256 (csrfDigestDomain ++ csrf).

Section Session.
Context `{!UUIDLib} (m : BrowserSessionManager).

Definition aead_Seal (nonce plaintext : bytes) : bytes := Gcm.Seal (Aes.encrypt (bm_key m)) nonce nonce plaintext.
Definition aead_Open (nonce sealed : bytes) : option bytes := Gcm.Open (Aes.encrypt (bm_key m)) nonce sealed.

(** The fields of the cookie. *)
Definition session_plaintext (inbox : bytes) (unix mask : Z) (digest : bytes) : bytes :=
  let expiryText := format_int unix in
  byte_of browserSessionVersion :: inbox ++
  (replicate (expiryTextBytes - length expiryText) (byte_of 0) ++ expiryText) ++ be_encode 4 mask ++ digest.

(** [Issue] with what [ctx.Err()] returns, the clock and the random source;
    the session and the rest of the source. *)
Definition Issue (ctx : option goerr) (now : Z) (random : bytes) (principal : Principal) : res (BrowserSession * bytes) :=
  match ctx with
  | Some e => Err e
  | None =>
    match uuid_parse (pl_InboxID principal) with
    | None => Err (ESentinel ErrUnauthenticated)
    | Some inboxUUID =>
      if pl_Scopes principal =? 0 then Err (ESentinel ErrUnauthenticated)
      else if bool_decide (pl_ExpiresAt principal = zero_time) || negb (now <? pl_ExpiresAt principal)
      then Err (ESentinel ErrUnauthenticated)
      else
        let expiresAt := now + bm_lifetime m in
        let expiresAt := if pl_ExpiresAt principal <? expiresAt then pl_ExpiresAt principal else expiresAt in
        match read_full random csrfBytes with
        | None => Err (EWrap "generate browser CSRF token" (ENew "unexpected EOF"))
        | Some (csrf, random) =>
          let plaintext := session_plaintext inboxUUID (expiresAt / nanoseconds) (pl_Scopes principal) (digestCSRF csrf) in
          match read_full random (Z.of_nat Gcm.NonceSize) with
          | None => Err (EWrap "generate browser session nonce" (ENew "unexpected EOF"))
          | Some (nonce, random) =>
            Ok (MkBrowserSession (b64_encode (aead_Seal nonce plaintext)) (b64_encode csrf) expiresAt, random)
          end
        end
    end
  end.

(** The CSRF proof against the digest in the cookie. *)
Definition csrf_ok (csrfToken digest : bytes) : bool :=
  match b64_decode true csrfToken with
  | None => false
  | Some csrf => (zlen csrf =? csrfBytes) && bool_decide (digestCSRF csrf = digest)
  end.

Definition Authenticate (ctx : option goerr) (now : Z) (cookieValue csrfToken : bytes) (requireCSRF : bool) (required : list Z)
  : res Principal :=
  if bool_decide (cookieValue = []) then Err (ESentinel ErrUnauthenticated)
  else match ctx with
  | Some e => Err e
  | None =>
    match b64_decode true cookieValue with
    | None => Err (ESentinel ErrUnauthenticated)
    | Some sealed =>
      if (length sealed <=? Gcm.NonceSize)%nat then Err (ESentinel ErrUnauthenticated)
      else match aead_Open (take Gcm.NonceSize sealed) (drop Gcm.NonceSize sealed) with
      | None => Err (ESentinel ErrUnauthenticated)
      | Some plaintext =>
        if negb (bool_decide (length plaintext = sessionPlaintextBytes))
           || negb (bool_decide (head plaintext = Some (byte_of browserSessionVersion)))
        then Err (ESentinel ErrUnauthenticated)
        else match parse_int64 (trim_left_byte (byte_of 0) (take 20 (drop 17 plaintext))) with
        | None => Err (ESentinel ErrUnauthenticated)
        | Some expiryUnix =>
          if expiryUnix <=? 0 then Err (ESentinel ErrUnauthenticated)
          else
            let expiresAt := expiryUnix * nanoseconds in
            if negb (now <? expiresAt) then Err (ESentinel ErrUnauthenticated)
            else match ScopeSetFromMask (be_decode (take 4 (drop 37 plaintext))) with
            | Err _ => Err (ESentinel ErrUnauthenticated)
            | Ok scopes =>
              if negb (Has scopes required) then Err (ESentinel ErrForbidden)
              else if requireCSRF && negb (csrf_ok csrfToken (drop 41 plaintext)) then Err (ESentinel ErrCSRF)
              else Ok (MkPrincipal [] (uuid_string (take 16 (drop 1 plaintext))) (str "browser-session") scopes expiresAt)
            end
        end
      end
    end
  end.
End Session.

(** ** The cookie's fields *)

Lemma drop_pad n s : match s with [] => true | c :: _ => negb (bool_decide (c = byte_of 0)) end = true ->
  trim_left_byte (byte_of 0) (replicate n (byte_of 0) ++ s) = s.
Proof.
  intros Hs. unfold trim_left_byte. induction n as [|n IH]; cbn [replicate app drop_while].
  - by apply drop_while_false.
  - by rewrite bool_decide_eq_true_2.
Qed.

Record fields_of (plaintext inbox : bytes) (unix mask : Z) (digest : bytes) : Prop := {
  fo_length : length plaintext = sessionPlaintextBytes;
  fo_version : head plaintext = Some (byte_of browserSessionVersion);
  fo_inbox : take 16 (drop 1 plaintext) = inbox;
  fo_expiry : parse_int64 (trim_left_byte (byte_of 0) (take 20 (drop 17 plaintext))) = Some unix;
  fo_mask : be_decode (take 4 (drop 37 plaintext)) = mask;
  fo_digest : drop 41 plaintext = digest
}.

Lemma session_plaintext_fields inbox unix mask digest :
  length inbox = 16%nat -> 0 <= unix <= max_int64 -> 0 <= mask < 2 ^ 32 -> length digest = 32%nat ->
  fields_of (session_plaintext inbox unix mask digest) inbox unix mask digest.
Proof.
  intros Hi Hu Hm Hd. destruct (format_int_nonneg unix Hu) as (Hp & Hdig & Hne & Hl).
  unfold session_plaintext. set (text := format_int unix) in *.
  set (pad := replicate (expiryTextBytes - length text) (byte_of 0) ++ text).
  assert (length pad = 20%nat) as Hpad by (unfold pad; rewrite length_app, length_replicate; unfold expiryTextBytes; lia).
  pose proof (length_be_encode 4 mask) as H4.
  set (v := byte_of browserSessionVersion). set (l := v :: inbox ++ pad ++ be_encode 4 mask ++ digest).
  assert (drop 17 l = pad ++ be_encode 4 mask ++ digest) as D17 by (apply (drop_app_length' (v :: inbox)); cbn; lia).
  assert (drop 37 l = be_encode 4 mask ++ digest) as D37.
  { change 37%nat with (17 + 20)%nat. rewrite <- drop_drop, D17. by apply drop_app_length'. }
  assert (drop 41 l = digest) as D41.
  { change 41%nat with (37 + 4)%nat. rewrite <- drop_drop, D37. by apply drop_app_length'. }
  split; rewrite ?D17, ?D37, ?D41; try done.
  - unfold l. cbn [length]. rewrite !length_app, Hi, Hpad, H4, Hd. reflexivity.
  - by apply take_app_length'.
  - rewrite take_app_length' by done. unfold pad. rewrite drop_pad; [done|].
    destruct text as [|c s]; [done|]. cbn in Hdig. apply andb_prop in Hdig as [Hc _].
    rewrite bool_decide_eq_false_2; [done|]. intros ->. done.
  - rewrite take_app_length' by done. rewrite be_decode_encode. apply Z.mod_small. exact Hm.
Qed.

(** ** The life of a session *)

Section Facts.
Context `{!UUIDLib} `{!UUIDSpec _} (m : BrowserSessionManager).
Hypothesis (Hkey : length (bm_key m) = 32%nat).

Lemma cipher_length b : length b = 16%nat -> length (Aes.encrypt (bm_key m) b) = 16%nat.
Proof. apply AesFacts.length_encrypt, Hkey. Qed.

Lemma sealed_opens nonce plaintext :
  length nonce = 12%nat ->
  (length (aead_Seal m nonce plaintext) <=? Gcm.NonceSize)%nat = false /\
  aead_Open m (take Gcm.NonceSize (aead_Seal m nonce plaintext)) (drop Gcm.NonceSize (aead_Seal m nonce plaintext)) = Some plaintext.
Proof.
  intros Hn. unfold aead_Seal, aead_Open.
  assert (Gcm.Seal (Aes.encrypt (bm_key m)) nonce nonce plaintext = nonce ++ Gcm.Seal (Aes.encrypt (bm_key m)) [] nonce plaintext) as -> by done.
  rewrite take_app_length', drop_app_length' by done. split.
  - apply Nat.leb_gt. unfold Gcm.Seal. rewrite !length_app, (GcmFacts.length_tag _ cipher_length) by done. cbn. unfold Gcm.NonceSize. lia.
  - by apply (GcmFacts.Open_Seal _ cipher_length).
Qed.

(** A cookie whose fields are in order is judged by them. *)
Lemma Authenticate_sealed nonce plaintext inbox unix mask digest t token check required :
  length nonce = 12%nat -> fields_of plaintext inbox unix mask digest -> 0 < unix -> ScopeSetFromMask mask = Ok mask ->
  Authenticate m None t (b64_encode (aead_Seal m nonce plaintext)) token check required =
  if negb (t <? unix * nanoseconds) then Err (ESentinel ErrUnauthenticated)
  else if negb (Has mask required) then Err (ESentinel ErrForbidden)
  else if check && negb (csrf_ok token digest) then Err (ESentinel ErrCSRF)
  else Ok (MkPrincipal [] (uuid_string inbox) (str "browser-session") mask (unix * nanoseconds)).
Proof.
  intros Hn [F1 F2 F3 F4 F5 F6] Hu Hs. destruct (sealed_opens nonce plaintext Hn) as [Hl Ho].
  unfold Authenticate. rewrite bool_decide_eq_false_2.
  2:{ intros E. pose proof (b64_decode_encode true (aead_Seal m nonce plaintext)) as Hd. rewrite E in Hd.
      injection Hd as Hd. by rewrite <- Hd in Hl. }
  rewrite b64_decode_encode, Hl, Ho, F1, F2, F4, F5, F6, F3, Hs.
  rewrite !bool_decide_eq_true_2 by done. cbn [negb orb]. by rewrite (proj2 (Z.leb_gt _ _) Hu).
Qed.

Lemma read_full_inv random n a rest :
  0 <= n -> read_full random n = Some (a, rest) -> random = a ++ rest /\ zlen a = n.
Proof.
  intros Hn. unfold read_full. destruct (zlen random <? n) eqn:E; [done|]. bool_to_prop. intros [= <- <-].
  rewrite take_drop. split; [done|]. unfold zlen in *. rewrite length_take. lia.
Qed.

Lemma Issue_inv ctx now random p b rest :
  Issue m ctx now random p = Ok (b, rest) ->
  exists inbox csrf nonce, uuid_parse (pl_InboxID p) = Some inbox /\ now < pl_ExpiresAt p /\
    random = csrf ++ nonce ++ rest /\ zlen csrf = csrfBytes /\ length nonce = 12%nat /\
    let expiresAt := Z.min (now + bm_lifetime m) (pl_ExpiresAt p) in
    b = MkBrowserSession (b64_encode (aead_Seal m nonce
          (session_plaintext inbox (expiresAt / nanoseconds) (pl_Scopes p) (digestCSRF csrf)))) (b64_encode csrf) expiresAt.
Proof.
  unfold Issue. destruct ctx; [done|]. destruct (uuid_parse _) as [inbox|]; [|done].
  destruct (pl_Scopes p =? 0); [done|]. destruct (_ || _) eqn:Ee; [done|]. apply orb_false_iff in Ee as [_ Hn]. bool_to_prop.
  destruct (read_full random csrfBytes) as [[csrf r1]|] eqn:E1; [|done].
  destruct (read_full r1 _) as [[nonce r2]|] eqn:E2; [|done]. intros [= <- <-].
  apply read_full_inv in E1 as [-> H1]; [|unfold csrfBytes; lia]. apply read_full_inv in E2 as [-> H2]; [|unfold Gcm.NonceSize; lia].
  exists inbox, csrf, nonce. split; [done|]. split; [lia|]. split; [done|]. split; [done|].
  split; [unfold zlen, Gcm.NonceSize in H2; lia|]. cbn zeta.
  replace (Z.min (now + bm_lifetime m) (pl_ExpiresAt p)) with
    (if pl_ExpiresAt p <? now + bm_lifetime m then pl_ExpiresAt p else now + bm_lifetime m); [done|].
  destruct (_ <? _) eqn:E; bool_to_prop; lia.
Qed.
End Facts.

(** C37: a browser session is the capability it was exchanged for, until it
    expires.  The cookie [Issue] returns, presented at any later time with
    any CSRF token, is accepted exactly until the second in which the
    session or the capability expires, whichever is first, for exactly the
    scopes and the inbox of the capability; when a proof is required, only
    with a CSRF token that has the digest of the issued one, which the
    issued one has.  Nothing else of the request or of the server's state
    matters. *)
Theorem session_roundtrip `{!UUIDLib} `{!UUIDSpec _} (m : BrowserSessionManager) ctx now random p b rest :
  length (bm_key m) = 32%nat -> 0 < bm_lifetime m -> nanoseconds <= now -> pl_ExpiresAt p <= max_int64 ->
  ScopeSetFromMask (pl_Scopes p) = Ok (pl_Scopes p) -> Issue m ctx now random p = Ok (b, rest) ->
  let expiry := Z.min (now + bm_lifetime m) (pl_ExpiresAt p) in
  exists inbox csrf, uuid_parse (pl_InboxID p) = Some inbox /\ bs_ExpiresAt b = expiry /\
    bs_CSRFToken b = b64_encode csrf /\ csrf_ok (bs_CSRFToken b) (digestCSRF csrf) = true /\
    forall t token check required,
      Authenticate m None t (bs_CookieValue b) token check required =
      if negb (t <? expiry / nanoseconds * nanoseconds) then Err (ESentinel ErrUnauthenticated)
      else if negb (Has (pl_Scopes p) required) then Err (ESentinel ErrForbidden)
      else if check && negb (csrf_ok token (digestCSRF csrf)) then Err (ESentinel ErrCSRF)
      else Ok (MkPrincipal [] (uuid_string inbox) (str "browser-session") (pl_Scopes p) (expiry / nanoseconds * nanoseconds)).
Proof.
  intros Hk Hl Hnow Hmax Hs Hi expiry.
  destruct (Issue_inv m Hk ctx now random p b rest Hi) as (inbox & csrf & nonce & Hu & Hlt & _ & Hc & Hn & Hb). cbn zeta in Hb.
  fold expiry in Hb. exists inbox, csrf. rewrite Hb. cbn [bs_ExpiresAt bs_CSRFToken bs_CookieValue].
  split; [done|]. split; [done|]. split; [done|]. split.
  { unfold csrf_ok. rewrite b64_decode_encode, (proj2 (Z.eqb_eq _ _) Hc). by rewrite bool_decide_eq_true_2. }
  intros t token check required.
  assert (nanoseconds <= expiry <= max_int64) as Hx by (unfold expiry; lia).
  assert (0 < expiry / nanoseconds <= max_int64) as Hx2.
  { unfold nanoseconds, max_int64 in *. split; [apply Z.div_str_pos; lia|apply Z.div_le_upper_bound; lia]. }
  apply Authenticate_sealed; [done|done| |lia|done].
  apply session_plaintext_fields; [by eapply uuid_parse_length|lia| |apply sha256_length].
  unfold ScopeSetFromMask in Hs. destruct (_ || _) eqn:E; [done|]. apply orb_false_iff in E as [_ E]. bool_to_prop.
  apply mask_range in E. lia.
Qed.

(** Authentication with a key, twelve hours, and a read-only capability. *)
Module Demo.
Definition m : BrowserSessionManager := MkBrowserSessionManager (replicate 32 "s"%char) (12 * 3600 * nanoseconds).
Definition inbox : bytes := be_encode 16 7.
Definition now : Z := 1700000000 * nanoseconds.
Definition p : Principal :=
  MkPrincipal [] (@uuid_string Canonical.lib inbox) (str "kid") (Z.lor ScopeInboxRead ScopeMessageRead) (now + 3600 * nanoseconds).
Definition random : bytes := replicate 32 "c"%char ++ replicate 12 "n"%char.
Definition issued : res (BrowserSession * bytes) := @Issue Canonical.lib m None now random p.
Definition b : BrowserSession := match issued with Ok (b, _) => b | Err _ => MkBrowserSession [] [] 0 end.

Lemma issue_run : @Issue Canonical.lib m None now random p = Ok (b, []).
Proof. vm_compute. reflexivity. Qed.

(** The whole exchange, evaluated. *)
Example accepted :
  @Authenticate Canonical.lib m None (now + 1) (bs_CookieValue b) (bs_CSRFToken b) true [ScopeMessageRead] =
  Ok (MkPrincipal [] (@uuid_string Canonical.lib inbox) (str "browser-session") 5 (now + 3600 * nanoseconds)).
Proof. vm_compute. reflexivity. Qed.
End Demo.

Lemma session_roundtrip_witness :
  @Authenticate Canonical.lib Demo.m None (Demo.now + 3600 * nanoseconds) (bs_CookieValue Demo.b) [] false [] =
    Err (ESentinel ErrUnauthenticated) /\
  @Authenticate Canonical.lib Demo.m None Demo.now (bs_CookieValue Demo.b) [] false [ScopeInboxDelete] = Err (ESentinel ErrForbidden).
Proof.
  destruct (@session_roundtrip Canonical.lib Canonical.spec Demo.m None Demo.now Demo.random Demo.p Demo.b [])
    as (inbox & csrf & _ & _ & _ & _ & H);
    [reflexivity|reflexivity|vm_compute; discriminate|vm_compute; discriminate|reflexivity|exact Demo.issue_run|].
  split; rewrite H; reflexivity.
Defined.
