(* ===== verification/CreateQuota.v ===== *)
(** * Admission of inbox creation

    [internal/abuse/create_quota.go] and
    [internal/postgres/create_quota_repository.go]: one counter per client
    identity and UTC day, an HMAC instead of the client's address, and a
    bounded removal of old counters in the same transaction. *)

From S2P Require Import Prelude GoStrings Errors Codec NetIP Uuid FileSystem Message Mail Database DatabaseFacts.

#[local] Opaque sha256.

(** ** The repository *)

Definition day : Z := 24 * 3600 * 1000000000.

Definition staleCreateQuotaCleanupBatch : nat := 100.

(** [ORDER BY bucket_date, identity_digest] *)
Definition bucket_le (a b : bytes * Z) : Prop := a.2 < b.2 \/ a.2 = b.2 /\ bytes_leb a.1 b.1 = true.

#[global] Instance bucket_le_dec a b : Decision (bucket_le a b).
Proof. unfold bucket_le. apply _. Defined.

(** The stale rows that no other transaction has locked. *)
Definition stale_rows (locked : list (bytes * Z)) (date : Z) (d : db) : list (bytes * Z) :=
  take staleCreateQuotaCleanupBatch (merge_sort bucket_le
    (filter (λ k : bytes * Z, k.2 < date - 2 /\ k ∉ locked) (map_to_list (quotas d)).*1)).

Definition delete_stale (locked : list (bytes * Z)) (date : Z) (d : db) : db :=
  set_quotas d (filter (λ kv : bytes * Z * Z, kv.1 ∉ stale_rows locked date d) (quotas d)).

(** [INSERT ... ON CONFLICT DO UPDATE ... WHERE used < limit RETURNING used] *)
Definition upsert_quota (digest : bytes) (date limit : Z) : DB Z :=
  statement "consume Inbox create quota" ;;* λ d,
    match quotas d !! (digest, date) with
    | None => (set_quotas d (<[(digest, date) := 1]> (quotas d)), Ok 1)
    | Some used =>
      if used <? limit then (set_quotas d (<[(digest, date) := used + 1]> (quotas d)), Ok (used + 1))
      else (d, Err (EWrap "consume Inbox create quota" PgxErrNoRows))
    end.

Definition consume_body (locked : list (bytes * Z)) (digest : bytes) (date limit : Z) : DB Z :=
  exec "cleanup stale create quotas" (delete_stale locked date) ;;* λ d,
    match upsert_quota digest date limit d with
    | (d, Err e) => if errors_is e PgxErrNoRows then (d, Err (ESentinel ErrDailyCreateQuotaExceeded)) else (d, Err e)
    | (d, Ok used) => (d, Ok used)
    end.

(** The number of uses it returns, and the error. *)
Definition ConsumeInboxCreate (locked : list (bytes * Z)) (digest : bytes) (bucket limit : Z) (d : db) : db * (Z * option goerr) :=
  if negb (bucket mod day =? 0) || (limit <=? 0) then (d, (0, Some (ENew "create quota request is invalid")))
  else match transaction "begin create quota transaction" "commit create quota transaction"
               (consume_body locked digest (bucket / day) limit) d with
  | (d, Ok used) => (d, (used, None))
  | (d, Err e) => (d, (if bool_decide (e = ESentinel ErrDailyCreateQuotaExceeded) then limit else 0, Some e))
  end.

(** ** The service *)

Record QuotaDecision := MkDecision { de_Limit : Z; de_Remaining : Z; de_ResetAt : Z }.

Record QuotaService := MkQuotaService { qs_key : bytes; qs_dailyLimit : Z }.

Definition NewQuotaService (key : bytes) (dailyLimit : Z) : res QuotaService :=
  if negb (zlen key =? 32) then Err (ENew "create quota HMAC key must contain exactly 32 bytes")
  else if (dailyLimit <=? 0) || (1000000 <? dailyLimit)
  then Err (ENew "create quota daily limit must be between 1 and 1000000")
  else Ok (MkQuotaService key dailyLimit).

Definition createIdentityDomain : bytes := str "mailwisp:create-quota:v1" ++ [byte_of 0].

Definition normalizedIPBytes (ip : bytes) : bytes :=
  match To4 ip with Some ipv4 => ipv4 | None => ip end.

(** The identity a client address is counted under. *)
Definition identity (s : QuotaService) (ip : bytes) : bytes :=
  hmac_sha256 (qs_key s) (createIdentityDomain ++ normalizedIPBytes ip).

(** The start of the UTC day. *)
Definition bucket_of (now : Z) : Z := now / day * day.

(** One request: what [ctx.Err()] returns, the client's address, the clock
    and the rows other transactions have locked. *)
Record attempt := Attempt { at_ctx : option goerr; at_client : bytes; at_now : Z; at_locked : list (bytes * Z) }.

Definition no_decision : QuotaDecision := MkDecision 0 0 zero_time.

Definition Consume (s : QuotaService) (a : attempt) (d : db) : db * (QuotaDecision * option goerr) :=
  match at_ctx a with
  | Some e => (d, (no_decision, Some e))
  | None =>
    match ParseIP (at_client a) with
    | None => (d, (no_decision, Some (ESentinel ErrInvalidClientAddress)))
    | Some ip =>
      let bucket := bucket_of (at_now a) in
      let '(d, (used, err)) := ConsumeInboxCreate (at_locked a) (identity s ip) bucket (qs_dailyLimit s) d in
      (d, (MkDecision (qs_dailyLimit s) (Z.max 0 (qs_dailyLimit s - used)) (bucket + day), err))
    end
  end.

(** A sequence of requests and their outcomes. *)
Fixpoint consume_all (s : QuotaService) (l : list attempt) (d : db) : db * list (QuotaDecision * option goerr) :=
  match l with
  | [] => (d, [])
  | a :: l =>
    let '(d, x) := Consume s a d in
    let '(d, xs) := consume_all s l d in (d, x :: xs)
  end.

(** ** One consumption *)

Definition used (d : db) (key : bytes * Z) : Z := default 0 (quotas d !! key).

(** One more use of [key]; the rows of the last two days are otherwise kept. *)
Record counted (limit : Z) (key : bytes * Z) (d d' : db) : Prop := {
  cn_below : used d key < limit;
  cn_used : used d' key = used d key + 1;
  cn_kept : forall k, k <> key -> key.2 - 2 <= k.2 -> quotas d' !! k = quotas d !! k
}.

Lemma stale_rows_old locked date d k : k ∈ stale_rows locked date d -> k.2 < date - 2.
Proof.
  intros Hk. apply (subseteq_take _ _ k) in Hk. rewrite merge_sort_Permutation in Hk.
  by apply list_elem_of_filter in Hk as [[? _] _].
Qed.

Lemma delete_stale_kept locked date d k : date - 2 <= k.2 -> quotas (delete_stale locked date d) !! k = quotas d !! k.
Proof.
  intros Hk. cbn. destruct (quotas d !! k) as [n|] eqn:E.
  - apply map_lookup_filter_Some. split; [done|]. cbn. intros ?%stale_rows_old. lia.
  - by apply map_lookup_filter_None_2; left.
Qed.

Lemma upsert_quota_ok digest date limit d d' r :
  0 < limit -> upsert_quota digest date limit d = (d', r) ->
  match r with
  | Ok n => counted limit (digest, date) d d' /\ n = used d' (digest, date)
  | Err e => quotas d' = quotas d
  end.
Proof.
  intros Hl. unfold upsert_quota, dbind. destruct (statement _ d) as [d1 [u|e]] eqn:E; apply statement_same in E as [S _];
    [|intros [= <- <-]; apply S].
  cbn beta. rewrite (sm_quotas _ _ S).
  assert (forall n, used d (digest, date) = n -> n < limit ->
    let d' := set_quotas d1 (<[(digest, date) := n + 1]> (quotas d)) in
    counted limit (digest, date) d d' /\ n + 1 = used d' (digest, date)) as Hc.
  { intros n Hn Hlt d2. assert (used d2 (digest, date) = n + 1) as E2 by (unfold used, d2; cbn; by rewrite lookup_insert_eq).
    split; [|done]. split; [lia|lia|]. intros k Hk _. unfold d2. cbn. by rewrite lookup_insert_ne. }
  unfold used in Hc at 1. destruct (quotas d !! (digest, date)) as [n|].
  - destruct (n <? limit) eqn:El; bool_to_prop; intros [= <- <-]; [by apply Hc|by rewrite (sm_quotas _ _ S)].
  - intros [= <- <-]. by apply (Hc 0).
Qed.

Lemma consume_body_ok locked digest date limit d d' n :
  0 < limit -> consume_body locked digest date limit d = (d', Ok n) ->
  counted limit (digest, date) d d' /\ n = used d' (digest, date).
Proof.
  intros Hl. unfold consume_body, exec, dbind. destruct (statement _ d) as [d1 [u|e]] eqn:E; [|done].
  apply statement_same in E as [S _].
  destruct (upsert_quota digest date limit _) as [d2 [m|e]] eqn:Eu; [|by destruct (errors_is e _)].
  intros [= <- <-]. apply upsert_quota_ok in Eu as [[C1 C2 C3] ->]; [|done]. split; [|done].
  assert (forall k, date - 2 <= k.2 -> quotas (delete_stale locked date d1) !! k = quotas d !! k) as Hk.
  { intros k Hk. rewrite delete_stale_kept by done. by rewrite (sm_quotas _ _ S). }
  unfold used in C1, C2. rewrite Hk in C1, C2 by (cbn; lia).
  split; [done|done|]. intros k Hne Hd. rewrite C3 by done. by apply Hk.
Qed.

(** Any failure: nothing happened, or a commit without its acknowledgement. *)
Lemma ConsumeInboxCreate_effect locked digest bucket limit d d' n e :
  ConsumeInboxCreate locked digest bucket limit d = (d', (n, e)) ->
  match e with
  | None => counted limit (digest, bucket / day) d d' /\ n = used d' (digest, bucket / day)
  | Some _ => quotas d' = quotas d \/ counted limit (digest, bucket / day) d d'
  end.
Proof.
  unfold ConsumeInboxCreate. destruct (_ || _) eqn:Eg; [intros [= <- <- <-]; by left|].
  apply orb_false_iff in Eg as [_ El]. bool_to_prop.
  destruct (transaction _ _ _ d) as [d1 r] eqn:E.
  assert (match r with
    | Ok n => counted limit (digest, bucket / day) d d1 /\ n = used d1 (digest, bucket / day)
    | Err _ => quotas d1 = quotas d \/ counted limit (digest, bucket / day) d d1 end) as Hr.
  { apply transaction_inv in E as [[S [x ->]]|(da & db0 & m & Sa & _ & Hb & Sb & _ & Hr)]; [left; apply S|].
    apply consume_body_ok in Hb as [[C1 C2 C3] ->]; [|done]. unfold used in C1, C2.
    rewrite (sm_quotas _ _ Sa) in C1, C2.
    assert (counted limit (digest, bucket / day) d d1) as HC.
    { split; unfold used; rewrite ?(sm_quotas _ _ Sb); try done. intros k Hk Hd. rewrite C3 by done. by rewrite (sm_quotas _ _ Sa). }
    destruct Hr as [->|[x ->]]; [|by right]. split; [done|]. unfold used. by rewrite (sm_quotas _ _ Sb). }
  destruct r as [m|x]; intros [= <- <- <-]; done.
Qed.

(** Without failures the outcome is decided by the counter. *)
Lemma ConsumeInboxCreate_calm locked digest bucket limit d :
  db_oracle d = [] -> bucket mod day = 0 -> 0 < limit ->
  exists d', db_oracle d' = [] /\
    ((used d (digest, bucket / day) < limit /\
      ConsumeInboxCreate locked digest bucket limit d = (d', (used d (digest, bucket / day) + 1, None))) \/
     (limit <= used d (digest, bucket / day) /\
      ConsumeInboxCreate locked digest bucket limit d = (d', (limit, Some (ESentinel ErrDailyCreateQuotaExceeded))))).
Proof.
  intros Ho Hb Hl. unfold ConsumeInboxCreate. rewrite (proj2 (Z.eqb_eq _ _) Hb), (proj2 (Z.leb_gt _ _) Hl). cbn [negb orb].
  unfold transaction. rewrite statement_calm by done. unfold consume_body, exec, dbind. rewrite statement_calm by done.
  unfold upsert_quota, dbind. rewrite (statement_calm _ (delete_stale _ _ d)) by done.
  assert (quotas (delete_stale locked (bucket / day) d) !! (digest, bucket / day) = quotas d !! (digest, bucket / day)) as ->
    by (apply delete_stale_kept; cbn; lia).
  unfold used. destruct (quotas d !! (digest, bucket / day)) as [n|]; cbn [default].
  - destruct (n <? limit) eqn:E; bool_to_prop.
    + rewrite !statement_calm by done. eexists. split; [|left; by split]. done.
    + cbn [errors_is]. rewrite bool_decide_eq_true_2, bool_decide_eq_true_2 by done. eexists. split; [|right; by split]. done.
  - rewrite !statement_calm by done. eexists. split; [|left; by split]. done.
Qed.

(** ** A sequence of requests *)

(** The identity and day a request counts for, if it reaches the repository. *)
Definition counts_for (s : QuotaService) (a : attempt) : option (bytes * Z) :=
  match at_ctx a with
  | Some _ => None
  | None => (λ ip, (identity s ip, at_now a / day)) <$> ParseIP (at_client a)
  end.

Definition attempts (s : QuotaService) (key : bytes * Z) (l : list attempt) : Z :=
  zlen (filter (λ a, counts_for s a = Some key) l).

Definition admitted (s : QuotaService) (key : bytes * Z) (l : list attempt) (xs : list (QuotaDecision * option goerr)) : Z :=
  zlen (filter (λ x : attempt * (QuotaDecision * option goerr), counts_for s x.1 = Some key /\ x.2.2 = None) (zip l xs)).

Lemma bucket_of_day now : bucket_of now mod day = 0 /\ bucket_of now / day = now / day.
Proof. unfold bucket_of. split; [by apply Z.mod_mul|by apply Z.div_mul]. Qed.

(** A request that counts for no one, or for another row. *)
Lemma Consume_other s a d d' x key :
  Consume s a d = (d', x) -> counts_for s a <> Some key -> at_now a / day - 2 <= key.2 ->
  quotas d' !! key = quotas d !! key.
Proof.
  unfold Consume, counts_for. destruct (at_ctx a); [by intros [= <- <-]|].
  destruct (ParseIP (at_client a)) as [ip|]; [|by intros [= <- <-]]. cbn [fmap option_fmap option_map].
  destruct (ConsumeInboxCreate _ _ _ _ d) as [d1 [n e]] eqn:E. intros [= <- <-] Hne Hd.
  apply ConsumeInboxCreate_effect in E. rewrite (proj2 (bucket_of_day _)) in E.
  destruct e; [destruct E as [->|[_ _ Hk]]; [done|]|destruct E as [[_ _ Hk] _]]; apply Hk; cbn; congruence.
Qed.

(** A request that counts for [key]. *)
Lemma Consume_counts s a d d' x key :
  Consume s a d = (d', x) -> counts_for s a = Some key ->
  match x.2 with
  | None => counted (qs_dailyLimit s) key d d'
  | Some _ => used d' key = used d key \/ counted (qs_dailyLimit s) key d d'
  end.
Proof.
  unfold Consume, counts_for. destruct (at_ctx a); [done|].
  destruct (ParseIP (at_client a)) as [ip|]; [|done]. cbn [fmap option_fmap option_map].
  destruct (ConsumeInboxCreate _ _ _ _ d) as [d1 [n e]] eqn:E. intros [= <- <-] [= <-]. cbn [snd].
  apply ConsumeInboxCreate_effect in E. rewrite (proj2 (bucket_of_day _)) in E.
  destruct e; [|by destruct E]. destruct E as [Heq|?]; [left; unfold used; by rewrite Heq|by right].
Qed.

Lemma Consume_calm s a d :
  0 < qs_dailyLimit s -> db_oracle d = [] ->
  exists d' x, Consume s a d = (d', x) /\ db_oracle d' = [] /\
    forall key, counts_for s a = Some key -> x.2 = if used d key <? qs_dailyLimit s then None else Some (ESentinel ErrDailyCreateQuotaExceeded).
Proof.
  intros Hl Ho. unfold Consume, counts_for. destruct (at_ctx a) as [e|]; [by eexists _, _|].
  destruct (ParseIP (at_client a)) as [ip|]; [|by eexists _, _]. cbn [fmap option_fmap option_map].
  destruct (bucket_of_day (at_now a)) as [Hb Hd].
  destruct (ConsumeInboxCreate_calm (at_locked a) (identity s ip) (bucket_of (at_now a)) (qs_dailyLimit s) d Ho Hb Hl)
    as (d' & Ho' & [[Hu ->]|[Hu ->]]); rewrite Hd in Hu; (eexists _, _; split; [reflexivity|]; split; [done|]);
    intros key [= <-]; cbn [snd]; [by rewrite (proj2 (Z.ltb_lt _ _) Hu)|by rewrite (proj2 (Z.ltb_ge _ _) Hu)].
Qed.

Definition in_order (l : list attempt) : Prop := StronglySorted (λ a b, at_now a / day <= at_now b / day) l.

Lemma admitted_cons s key a l x xs :
  admitted s key (a :: l) (x :: xs) = (if bool_decide (counts_for s a = Some key /\ x.2 = None) then 1 else 0) + admitted s key l xs.
Proof.
  unfold admitted. cbn [zip zip_with]. rewrite filter_cons. cbn [fst snd]. case_decide as H.
  - by rewrite bool_decide_eq_true_2, zlen_cons by done.
  - by rewrite bool_decide_eq_false_2 by done.
Qed.

Lemma admitted_none s key l xs : (forall a, a ∈ l -> counts_for s a <> Some key) -> admitted s key l xs = 0.
Proof.
  intros H. unfold admitted. rewrite filter_none; [done|]. intros [a x] Hin%elem_of_zip_l [Hc _]. by apply (H a).
Qed.

Lemma attempts_none s key l : (forall a, a ∈ l -> counts_for s a <> Some key) -> attempts s key l = 0.
Proof. intros H. unfold attempts. rewrite filter_none; [done|]. exact H. Qed.

Lemma counts_for_day s a key : counts_for s a = Some key -> at_now a / day = key.2.
Proof. unfold counts_for. destruct (at_ctx a); [done|]. destruct (ParseIP _); [|done]. by intros [= <-]. Qed.

(** Once the day is over, nothing counts for it any more. *)
Lemma day_over s key a l : in_order (a :: l) -> key.2 < at_now a / day -> forall b, b ∈ a :: l -> counts_for s b <> Some key.
Proof.
  intros Ho Hd b Hb Hc%counts_for_day. apply StronglySorted_inv in Ho as [_ Hf]. rewrite Forall_forall in Hf.
  apply elem_of_cons in Hb as [->|Hb]; [lia|]. specialize (Hf b Hb). lia.
Qed.

Lemma daily_bound s key l : forall d d' xs,
  in_order l -> consume_all s l d = (d', xs) ->
  used d key + admitted s key l xs <= Z.max (qs_dailyLimit s) (used d key).
Proof.
  induction l as [|a l IH]; intros d d' xs Ho; cbn [consume_all]; [intros [= <- <-]; change (admitted s key [] []) with 0; lia|].
  destruct (Consume s a d) as [d1 x] eqn:E. destruct (consume_all s l d1) as [d2 xs'] eqn:El. intros [= <- <-].
  destruct (Z.lt_ge_cases key.2 (at_now a / day)) as [Hd|Hd].
  { rewrite admitted_none by (by apply day_over). lia. }
  apply IH in El; [|by apply StronglySorted_inv in Ho as [? _]]. rewrite admitted_cons.
  destruct (decide (counts_for s a = Some key)) as [Hc|Hc].
  - pose proof (Consume_counts _ _ _ _ _ _ E Hc) as Hx. destruct (x.2); [destruct Hx as [Hx|[H1 H2 _]]|destruct Hx as [H1 H2 _]];
      case_bool_decide; first [lia|tauto|by destruct_and!].
  - rewrite bool_decide_eq_false_2 by tauto. unfold used in *.
    rewrite (Consume_other _ _ _ _ _ key E Hc) in El by lia. lia.
Qed.

Lemma daily_exact s key l : 0 < qs_dailyLimit s -> forall d d' xs,
  in_order l -> db_oracle d = [] -> consume_all s l d = (d', xs) ->
  admitted s key l xs = Z.min (attempts s key l) (Z.max 0 (qs_dailyLimit s - used d key)).
Proof.
  intros Hl. induction l as [|a l IH]; intros d d' xs Ho Hc; cbn [consume_all]; [intros [= <- <-]; change (admitted s key [] []) with 0; change (attempts s key []) with 0; lia|].
  destruct (Consume_calm s a d Hl Hc) as (d1 & x & E & Hc1 & Hx). rewrite E.
  destruct (consume_all s l d1) as [d2 xs'] eqn:El. intros [= <- <-].
  destruct (Z.lt_ge_cases key.2 (at_now a / day)) as [Hd|Hd].
  { rewrite admitted_none, attempts_none by (by apply day_over). lia. }
  apply IH in El; [|by apply StronglySorted_inv in Ho as [? _]|done]. rewrite admitted_cons, El.
  assert (attempts s key (a :: l) = (if bool_decide (counts_for s a = Some key) then 1 else 0) + attempts s key l) as ->.
  { unfold attempts. rewrite filter_cons. case_decide; [rewrite bool_decide_eq_true_2 by done; apply zlen_cons|by rewrite bool_decide_eq_false_2]. }
  pose proof (zlen_nonneg (filter (λ a, counts_for s a = Some key) l)) as Hn. fold (attempts s key l) in Hn.
  destruct (decide (counts_for s a = Some key)) as [Hk|Hk].
  - rewrite (bool_decide_eq_true_2 (counts_for s a = Some key)) by done. specialize (Hx key Hk).
    pose proof (Consume_counts _ _ _ _ _ _ E Hk) as Hy. destruct (used d key <? _) eqn:Eu; bool_to_prop; rewrite Hx in Hy.
    + rewrite bool_decide_eq_true_2 by done. destruct Hy as [H1 H2 _]. lia.
    + rewrite bool_decide_eq_false_2 by (rewrite Hx; by intros [_ ?]). destruct Hy as [Hy|[H1 _ _]]; lia.
  - rewrite !bool_decide_eq_false_2 by tauto. unfold used in *. rewrite (Consume_other _ _ _ _ _ key E Hk) by lia. lia.
Qed.


(** An IPv4 client is one client, whichever form its address is given in. *)
Lemma client_mapped s ctx client f now locked d :
  parseIPv4Fields client = Some f ->
  Consume s (Attempt ctx (str "::ffff:" ++ client) now locked) d = Consume s (Attempt ctx client now locked) d.
Proof.
  intros H. unfold Consume. cbn [at_ctx at_client at_now at_locked]. by rewrite (ParseIP_v4 _ _ H), (ParseIP_mapped _ _ H).
Qed.

(** A limit of two, and four requests: three of one client, in both forms of
    its address, and one of another. *)
Module Demo.
Definition service : QuotaService := MkQuotaService (replicate 32 "k"%char) 2.
Definition request (client : bytes) (now : Z) : attempt := Attempt None client now [].
Definition requests : list attempt :=
  [request (str "192.0.2.7") 1000; request (str "2001:db8::1") 2000;
   request (str "::ffff:192.0.2.7") 3000; request (str "192.0.2.7") 4000].
Definition start : db := Db ∅ ∅ ∅ ∅ ∅ ∅ ∅ 0 1 false [].
Definition client : bytes * Z := (identity service (v4InV6Prefix ++ (byte_of <$> [192; 0; 2; 7])), 0).

Lemma ordered : in_order requests.
Proof. repeat constructor; vm_compute; discriminate. Qed.

Lemma three_attempts : attempts service client requests = 3.
Proof. vm_compute. reflexivity. Qed.

Lemma outcomes : snd <$> (consume_all service requests start).2 = [None; None; None; Some (ESentinel ErrDailyCreateQuotaExceeded)].
Proof. vm_compute. reflexivity. Qed.

Lemma fresh : used start client = 0.
Proof. done. Qed.
End Demo.

