(* ===== verification/Http.v ===== *)
(** * The HTTP transport: [internal/httpapi/server.go]

    Requests and responses as the handlers see them, the client's address
    behind trusted proxies, the token bucket that limits creations, and the
    responses for errors.  A body is given by what the JSON decoder returns
    for it. *)

From S2P Require Import Prelude GoStrings GoTime Errors Codec NetIP Uuid FileSystem Message Mail Database.

(** ** The creation limiter *)

Record bucket := Bucket { bk_tokens : float64; bk_updated : Z }.

Record createLimiter := CreateLimiter {
  lm_entries : gmap bytes bucket; lm_rate : float64; lm_capacity : float64; lm_calls : Z
}.

Definition newCreateLimiter (perMinute burst : Z) : createLimiter :=
  CreateLimiter ∅ (fdiv (of_Z perMinute) (of_Z 60)) (of_Z burst) 0.

Definition minFloat (first second : float64) : float64 := if flt first second then first else second.

Definition allow (key : bytes) (now : Z) (l : createLimiter) : createLimiter * bool :=
  let calls := (lm_calls l + 1) mod 2 ^ 64 in
  let entries :=
    if calls mod 1024 =? 0
    then filter (λ kv : bytes * bucket, ~ bk_updated kv.2 < now - 600 * 1000000000) (lm_entries l)
    else lm_entries l in
  let state := match entries !! key with Some state => state | None => Bucket (lm_capacity l) now end in
  let tokens := minFloat (lm_capacity l)
    (fadd (bk_tokens state) (fmul (seconds (time_sub now (bk_updated state))) (lm_rate l))) in
  if flt tokens (of_Z 1)
  then (CreateLimiter (<[key := Bucket tokens now]> entries) (lm_rate l) (lm_capacity l) calls, false)
  else (CreateLimiter (<[key := Bucket (fsub tokens (of_Z 1)) now]> entries) (lm_rate l) (lm_capacity l) calls, true).

(** ** The client's address *)

Fixpoint last_index_byte (s : bytes) (c : ascii) : option nat :=
  match s with
  | [] => None
  | d :: s' =>
    match last_index_byte s' c with
    | Some i => Some (S i)
    | None => if bool_decide (d = c) then Some 0%nat else None
    end
  end.

(** [net.SplitHostPort]; the host, or [None] for any of its errors. *)
Definition SplitHostPort (hostport : bytes) : option bytes :=
  match last_index_byte hostport ":"%char with
  | None => None
  | Some i =>
    let split := match head hostport with
      | Some "["%char =>
        match index_byte hostport "]"%char with
        | None => None
        | Some e => if bool_decide (S e = i) then Some (take (e - 1) (drop 1 hostport), 1%nat, S e) else None
        end
      | _ => if bool_decide (":"%char ∈ take i hostport) then None else Some (take i hostport, 0%nat, 0%nat)
      end in
    match split with
    | None => None
    | Some (host, j, k) =>
      if bool_decide ("["%char ∈ drop j hostport) || bool_decide ("]"%char ∈ drop k hostport) then None else Some host
    end
  end.

(** [IPNet.Contains] of a network given by its number and mask. *)
Definition net_contains (network : bytes * bytes) (ip : bytes) : bool :=
  let ip := match To4 ip with Some x => x | None => ip end in
  bool_decide (length ip = length network.1) &&
  bool_decide (zip_with (λ a m, Z.land (code a) (code m)) network.1 network.2 =
               zip_with (λ a m, Z.land (code a) (code m)) ip network.2).

(** What the decoder returns for one value of a body. *)
Inductive decoded (A : Type) : Type := DecodeEOF | DecodeError | Decoded (a : A).
Arguments DecodeEOF {A}.
Arguments DecodeError {A}.
Arguments Decoded {A} a.

Record request := Request {
  rq_ctx : option goerr;                  (* what [request.Context().Err()] returns *)
  rq_method : bytes;
  rq_authorization : bytes;               (* a header that is absent is empty *)
  rq_cookie : option bytes;               (* the session cookie *)
  rq_csrf : bytes;
  rq_remote : bytes; rq_forwarded : bytes;
  rq_limit : bytes; rq_cursor : bytes;    (* query parameters *)
  rq_id : bytes; rq_part : bytes;         (* path values *)
  rq_create : decoded (bytes * Z);        (* [domain] and [ttl_seconds] *)
  rq_update : decoded (option bool);      (* [seen] *)
  rq_more : decoded unit                  (* a second value in the body *)
}.

Definition clientIP (trustedProxies : list (bytes * bytes)) (r : request) : bytes :=
  let remote := match SplitHostPort (rq_remote r) with Some host => host | None => rq_remote r end in
  match ParseIP remote with
  | None => remote
  | Some ip =>
    if existsb (λ network, net_contains network ip) trustedProxies then
      let forwarded := trim_space (cut (rq_forwarded r) ","%char).1.1 in
      match ParseIP forwarded with Some _ => forwarded | None => remote end
    else remote
  end.

(** ** Responses *)

Record error_response := MkError { er_status : Z; er_code : string; er_message : string }.

(** [writeMappedError] *)
Definition mapped_error (e : goerr) : error_response :=
  if errors_is e ErrUnauthenticated then MkError 401 "unauthenticated" "a MailWisp capability is invalid or expired"
  else if errors_is e ErrForbidden then MkError 403 "forbidden" "the capability scope does not allow this action"
  else if errors_is e ErrCSRF then MkError 403 "csrf_failed" "the browser CSRF proof is missing or invalid"
  else if errors_is e ErrBrowserSessionDisabled then MkError 501 "not_configured" "browser sessions are not configured"
  else if errors_is e ErrMailboxInboxNotFound || errors_is e ErrMessageNotFound
  then MkError 404 "not_found" "the requested resource was not found"
  else if errors_is e ErrInvalidDomain || errors_is e ErrInvalidLifetime || errors_is e ErrInvalidLocalPart
  then MkError 400 "invalid_request" "the Inbox creation request is invalid"
  else if errors_is e ErrAddressConflict then MkError 503 "address_unavailable" "a unique Inbox address could not be allocated"
  else MkError 500 "internal_error" "internal server error".

(** The session cookie of a response. *)
Record set_cookie := SetCookie { ck_value : bytes; ck_maxAge : Z; ck_expires : Z }.

(** A burst of four at twelve a minute: the fifth call of an instant is
    refused, one of five seconds later is not. *)
Definition limiter_run (calls : list Z) : list bool :=
  (fold_left (λ x now, let '(l, bs) := x in let '(l, b) := allow (str "192.0.2.7") now l in (l, bs ++ [b]))
    calls (newCreateLimiter 12 4, [])).2.

Example limiter_burst :
  limiter_run [0; 0; 0; 0; 0; 5000000000; 5000000000] = [true; true; true; true; false; true; false].
Proof. vm_compute. reflexivity. Qed.

Example client_addresses :
  let proxies := [([byte_of 10; byte_of 0; byte_of 0; byte_of 0], [byte_of 255; byte_of 0; byte_of 0; byte_of 0])] in
  let ask remote forwarded := clientIP proxies (Request None [] [] None [] remote forwarded [] [] [] [] DecodeEOF DecodeEOF DecodeEOF) in
  (ask (str "10.1.2.3:443") (str " 198.51.100.4 , 10.9.9.9"), ask (str "203.0.113.5:443") (str "198.51.100.4"),
   ask (str "[2001:db8::1]:80") [], ask (str "10.1.2.3:443") (str "junk")) =
  (str "198.51.100.4", str "203.0.113.5", str "2001:db8::1", str "10.1.2.3").
Proof. vm_compute. reflexivity. Qed.
