(* ===== verification/Catalog.v ===== *)
(** * The content catalog: [internal/postgres/content_catalog.go]

    The two metadata queries a reconciliation needs: a walk over all content
    references in key order by keyset pages, and the lookup of a batch of
    keys.  They implement the [ContentCatalog] interface of the
    reconciliation, and with it the maintenance command
    [app.ReconcileContent] runs on the whole system. *)

From S2P Require Import Prelude GoStrings Errors Codec Uuid FileSystem Message ContentStore ContentStoreFacts ContentStoreSpec Reconcile Mail Database DatabaseFacts DeliveryRepo MailboxRepo ParseRepo System.

#[local] Opaque sha256.

(** ** The queries *)

Definition ref_le (a b : ContentRef) : Prop := bytes_leb (Key a) (Key b) = true.

#[global] Instance ref_le_dec a b : Decision (ref_le a b).
Proof. unfold ref_le. apply _. Defined.

#[global] Instance ref_le_total : Total ref_le.
Proof. intros a b. apply bytes_leb_total. Qed.

#[global] Instance ref_le_trans : Transitive ref_le.
Proof. intros a b c. apply bytes_leb_trans. Qed.

(** [SELECT content_key, size_bytes FROM mail_contents ORDER BY content_key] *)
Definition all_refs (d : db) : list ContentRef :=
  merge_sort ref_le ((λ kv : bytes * content_row, MkContentRef kv.1 (ct_size kv.2)) <$> map_to_list (contents d)).

(** [... WHERE content_key > $1 ... LIMIT $2] *)
Definition refs_page (after : bytes) (limit : Z) (d : db) : list ContentRef :=
  take (Z.to_nat limit) (filter (λ ref, bytes_leb (Key ref) after = false) (all_refs d)).

Section Walk.
Context {S : Type} (visit : ContentRef -> S -> S * option goerr) (batchSize : Z).

(** The loop of [WalkContentRefs], whose visitor acts on a state of its own;
    [None] when the fuel runs out. *)
Fixpoint walk_pages (fuel : nat) (after : bytes) (d : db) (s : S) : option (db * S * option goerr) :=
  match fuel with
  | O => None
  | Datatypes.S n =>
    match (page <-- query "query content metadata page" (refs_page after batchSize) ;;
           statement "iterate content metadata" ;;* dret page) d with
    | (d, Err e) => Some (d, s, Some e)
    | (d, Ok page) =>
      match visit_all visit page s with
      | (s, Some e) => Some (d, s, Some e)
      | (s, None) =>
        if zlen page <? batchSize then Some (d, s, None)
        else walk_pages n (default [] (Key <$> last page)) d s
      end
    end
  end.

Definition WalkContentRefs (d : db) (s : S) : option (db * S * option goerr) :=
  if (batchSize <=? 0) || (10000 <? batchSize)
  then Some (d, s, Some (ENew "content catalog batch size must be between 1 and 10000"))
  else walk_pages (Datatypes.S (size (contents d))) [] d s.
End Walk.

(** The rows of [mail_contents] among some keys, as the set of keys. *)
Definition ExistingContentKeys (keys : list bytes) : DB (gset bytes) :=
  if bool_decide (keys = []) then dret ∅
  else if 10000 <? zlen keys then dthrow (ENew "content key batch must not exceed 10000")
  else
    existing <-- query "query existing content keys"
      (λ d, list_to_set (filter (λ key, key ∈ dom (contents d)) keys)) ;;
    statement "iterate existing content keys" ;;* dret existing.

(** ** The walk visits every reference once, in order *)

Lemma all_refs_perm d : all_refs d ≡ₚ (λ kv : bytes * content_row, MkContentRef kv.1 (ct_size kv.2)) <$> map_to_list (contents d).
Proof. apply merge_sort_Permutation. Qed.

Lemma all_refs_sorted d : StronglySorted ref_le (all_refs d).
Proof. apply StronglySorted_merge_sort; apply _. Qed.

Lemma all_refs_keys d : NoDup (Key <$> all_refs d).
Proof.
  rewrite all_refs_perm, <- list_fmap_compose. apply (NoDup_fst_map_to_list (contents d)).
Qed.

Lemma all_refs_in d ref :
  ref ∈ all_refs d <-> exists r, contents d !! Key ref = Some r /\ SizeBytes ref = ct_size r.
Proof.
  rewrite all_refs_perm, list_elem_of_fmap. split.
  - intros ([k r] & -> & Hin%elem_of_map_to_list). by exists r.
  - intros (r & Hr & Hs). exists (Key ref, r). split; [destruct ref; cbn in *; congruence|by apply elem_of_map_to_list].
Qed.

Lemma all_refs_length d : length (all_refs d) = size (contents d).
Proof. rewrite all_refs_perm, length_fmap. apply length_map_to_list. Qed.

Lemma all_refs_same d d' : same_tables d d' -> all_refs d' = all_refs d.
Proof. intros S. unfold all_refs. by rewrite (sm_contents _ _ S). Qed.

(** What has a greater key than an element comes after it. *)
Lemma refs_after l i x :
  NoDup (Key <$> l) -> StronglySorted ref_le l -> l !! i = Some x ->
  filter (λ ref, bytes_leb (Key ref) (Key x) = false) l = drop (S i) l.
Proof.
  intros Hnd HS Hi. pose proof (take_drop_middle l i x Hi) as Hl.
  rewrite <- Hl at 1. rewrite filter_app, filter_cons, decide_False by (by rewrite bytes_leb_refl).
  rewrite <- Hl in HS. apply StronglySorted_app in HS as (Hc & _ & HS).
  rewrite (filter_none _ (take i l)), (filter_all _ (drop (S i) l)); [done| |].
  - intros y Hy. apply StronglySorted_inv in HS as [_ HS]. rewrite Forall_forall in HS. specialize (HS y Hy).
    destruct (bytes_leb (Key y) (Key x)) eqn:E; [|done]. exfalso.
    pose proof (bytes_leb_antisym _ _ HS E) as Heq.
    apply list_elem_of_lookup in Hy as [j Hj]. rewrite lookup_drop in Hj.
    assert (i = (S i + j)%nat); [|lia]. eapply NoDup_lookup; [exact Hnd| |]; rewrite list_lookup_fmap;
      [rewrite Hi; reflexivity|rewrite Hj; cbn; by f_equal].
  - intros y Hy Hlt. specialize (Hc y x Hy ltac:(by left)). unfold ref_le in Hc. congruence.
Qed.

Lemma all_refs_from_start d : (forall key, is_Some (contents d !! key) -> key <> []) ->
  filter (λ ref, bytes_leb (Key ref) [] = false) (all_refs d) = all_refs d.
Proof.
  intros Hne. apply filter_all. intros ref (r & Hr & _)%all_refs_in.
  destruct (Key ref) eqn:E; [|done]. exfalso. apply (Hne []); [by eexists|done].
Qed.

Lemma visit_all_app {A S} (f : A -> S -> S * option goerr) l1 l2 s :
  visit_all f (l1 ++ l2) s =
  match visit_all f l1 s with (s, Some e) => (s, Some e) | (s, None) => visit_all f l2 s end.
Proof.
  revert s. induction l1 as [|x l1 IH]; intros s; [done|]. cbn. destruct (f x s) as [s1 [e|]]; [done|apply IH].
Qed.

Section WalkFacts.
Context {S : Type} (visit : ContentRef -> S -> S * option goerr).

(** The outcome of a walk over [rest]: everything was visited up to the
    visitor's first error, or a page could not be read. *)
Definition walked (d : db) (rest : list ContentRef) (s : S) (x : db * S * option goerr) : Prop :=
  let '(d', s', e) := x in
  same_tables d d' /\ (db_oracle d = [] -> db_oracle d' = []) /\
  (visit_all visit rest s = (s', e) \/
   db_oracle d <> [] /\ is_Some e /\ exists pre, pre `prefix_of` rest /\ visit_all visit pre s = (s', None)).

Lemma page_read after n d d' r :
  (page <-- query "query content metadata page" (refs_page after n) ;;
   statement "iterate content metadata" ;;* dret page) d = (d', r) ->
  same_tables d d' /\ (db_oracle d = [] -> db_oracle d' = []) /\
  (r = Ok (refs_page after n d) \/ db_oracle d <> [] /\ exists e, r = Err e).
Proof.
  unfold query, dbind, statement, dret, refs_page.
  destruct (db_oracle d) as [|[e|] [|[e'|] l]] eqn:E; cbn [db_oracle set_db_oracle];
    rewrite ?E; intros [= <- <-]; (split; [by split|]); (split; [done|]); eauto.
Qed.

Lemma walk_pages_spec n : 0 < n -> forall fuel after d s,
  let rest := filter (λ ref, bytes_leb (Key ref) after = false) (all_refs d) in
  (exists k, rest = drop k (all_refs d)) -> (length rest < fuel)%nat ->
  exists x, walk_pages visit n fuel after d s = Some x /\ walked d rest s x.
Proof.
  intros Hn. induction fuel as [|fuel IH]; intros after d s rest Hk Hf; [lia|]. cbn [walk_pages].
  destruct (dbind _ _ d) as [d1 r] eqn:E. apply page_read in E as (S1 & Ho & Hr).
  destruct Hr as [->|(Hb & e & ->)].
  2:{ eexists. split; [done|]. split; [done|]. split; [done|]. right. split; [done|]. split; [by eexists|]. exists []. split; [apply prefix_nil|done]. }
  unfold refs_page. fold rest. set (page := take (Z.to_nat n) rest).
  assert (rest = page ++ drop (Z.to_nat n) rest) as Hsplit by (symmetry; apply take_drop).
  destruct (visit_all visit page s) as [s1 [e|]] eqn:Ev.
  { eexists. split; [done|]. split; [done|]. split; [done|]. left. by rewrite Hsplit, visit_all_app, Ev. }
  destruct (zlen page <? n) eqn:Ez; bool_to_prop.
  { eexists. split; [done|]. split; [done|]. split; [done|]. left.
    assert (page = rest) as Hpr; [|by rewrite Hpr in Ev]. unfold page, zlen in *. rewrite length_take in Ez. rewrite take_ge; [done|lia]. }
  assert (length page = Z.to_nat n) as Hlen by (unfold page, zlen in *; rewrite length_take in *; lia).
  destruct (last page) as [x|] eqn:El; [|by apply last_None in El; rewrite El in Hlen; cbn in Hlen; lia]. cbn [fmap option_fmap option_map default].
  destruct Hk as [k Hk].
  assert (all_refs d !! (k + (Z.to_nat n - 1))%nat = Some x) as Hx.
  { rewrite last_lookup, Hlen in El. unfold page in El. rewrite lookup_take_lt in El by lia.
    rewrite Hk, lookup_drop in El. rewrite <- El. f_equal. lia. }
  assert (filter (λ ref, bytes_leb (Key ref) (Key x) = false) (all_refs d) = drop (Z.to_nat n) rest) as Hrest.
  { rewrite (refs_after _ _ _ (all_refs_keys d) (all_refs_sorted d) Hx), Hk, drop_drop. f_equal. lia. }
  rewrite <- (all_refs_same d d1 S1) in Hrest.
  destruct (IH (Key x) d1 s1) as (y & Hy & Hw).
  - exists (k + Z.to_nat n)%nat. by rewrite Hrest, Hk, drop_drop, (all_refs_same d d1 S1).
  - rewrite Hrest, length_drop. assert (length page <= length rest)%nat by (unfold page; rewrite length_take; lia). lia.
  - exists y. split; [done|]. rewrite Hrest in Hw. destruct y as [[d2 s2] e]. destruct Hw as (S2 & Ho2 & Hw). split; [by etrans|]. split; [auto|].
    destruct Hw as [Hw|(Hb & He & pre & Hp & Hw)]; [left; by rewrite Hsplit, visit_all_app, Ev|right].
    split; [by intros ?%Ho|]. split; [done|]. exists (page ++ pre). split; [|by rewrite visit_all_app, Ev].
    apply (prefix_app page) in Hp. by rewrite <- Hsplit in Hp.
Qed.

Lemma WalkContentRefs_spec n d s :
  1 <= n <= 10000 -> (forall key, is_Some (contents d !! key) -> key <> []) ->
  exists x, WalkContentRefs visit n d s = Some x /\ walked d (all_refs d) s x.
Proof.
  intros Hn Hne. unfold WalkContentRefs.
  assert ((n <=? 0) || (10000 <? n) = false) as -> by (rewrite orb_false_iff, Z.leb_gt, Z.ltb_ge; lia).
  pose proof (walk_pages_spec n ltac:(lia) (Datatypes.S (size (contents d))) [] d s) as Hw. cbv zeta in Hw.
  rewrite (all_refs_from_start d Hne), all_refs_length in Hw. apply Hw; [by exists 0%nat|lia].
Qed.
End WalkFacts.

(** ** The database is a catalog *)

Definition ExistingContentKeys_exact (keys : list bytes) (d : db) (r : res (gset bytes)) : Prop :=
  match r with
  | Ok existing => forall key, key ∈ existing <-> key ∈ keys /\ key ∈ Key <$> all_refs d
  | Err _ => 10000 < zlen keys \/ db_oracle d <> []
  end.

Lemma key_of_row d key : key ∈ Key <$> all_refs d <-> is_Some (contents d !! key).
Proof.
  rewrite list_elem_of_fmap. split.
  - intros (ref & -> & (r & Hr & _)%all_refs_in). by eexists.
  - intros [r Hr]. exists (MkContentRef key (ct_size r)). split; [done|]. apply all_refs_in. by exists r.
Qed.

Lemma ExistingContentKeys_spec keys d d' r :
  ExistingContentKeys keys d = (d', r) ->
  same_tables d d' /\ (db_oracle d = [] -> db_oracle d' = []) /\ ExistingContentKeys_exact keys d r.
Proof.
  unfold ExistingContentKeys. case_bool_decide as Hn.
  { intros [= <- <-]. split; [done|]. split; [done|]. subst keys. intros key. rewrite elem_of_empty, elem_of_nil. tauto. }
  destruct (10000 <? zlen keys) eqn:El; bool_to_prop.
  { intros [= <- <-]. split; [done|]. split; [done|]. by left. }
  unfold query, dbind, statement, dret, ExistingContentKeys_exact.
  assert (forall key, key ∈ (list_to_set (filter (λ key, key ∈ dom (contents d)) keys) : gset bytes) <->
    key ∈ keys /\ key ∈ Key <$> all_refs d) as Hx.
  { intros key. rewrite elem_of_list_to_set, list_elem_of_filter, elem_of_dom, key_of_row. tauto. }
  destruct (db_oracle d) as [|[e|] [|[e'|] l]] eqn:E; cbn [db_oracle set_db_oracle contents];
    rewrite ?E; intros [= <- <-]; (split; [by split|]); (split; [done|]); try done; by right.
Qed.

#[export] Instance db_catalog : ContentCatalog db := {|
  cat_walk S n visit d s := WalkContentRefs visit n d s;
  cat_existing keys d := ExistingContentKeys keys d
|}.

(** The rows have keys. *)
Definition keyed (d : db) : Prop := forall key, is_Some (contents d !! key) -> key <> [].

Lemma keyed_same d d' : same_tables d d' -> keyed d -> keyed d'.
Proof. intros S H key. rewrite (sm_contents _ _ S). apply H. Qed.

Lemma ok_keyed d : db_ok d -> keyed d.
Proof.
  intros Hok key [r Hr] ->. apply (ok_contents _ Hok) in Hr as (Hv & _). by vm_compute in Hv.
Qed.

#[export, refine] Instance db_catalog_spec : CatalogSpec db := {|
  catalog_refs := all_refs; catalog_wf := keyed; catalog_calm d := db_oracle d = []; catalog_same := same_tables
|}.
Proof.
  - intros d d' S Hk. split; [by eapply keyed_same|by apply all_refs_same].
  - intros S n visit d s Hn Hk. destruct (WalkContentRefs_spec visit n d s Hn Hk) as ([[d' s'] e] & Hw & S1 & Ho & Hx).
    by exists d', s', e.
  - intros keys d Hk. destruct (ExistingContentKeys keys d) as [d' r] eqn:E. exists d', r. split; [done|].
    apply ExistingContentKeys_spec in E as (S1 & Ho & Hx).
    done.
Defined.

(** ** A scan never harms a catalogued object

    Whatever fails and wherever the scan stops. *)

Section Safety.
Context (c : config) {K : Type} `{!ContentCatalog K} `{!CatalogSpec K} (o : ReconcileOptions) (d : disk) (k : K).
Hypothesis Hwf : catalog_wf k.

Record guarded (s : scan K) : Prop := {
  gd_disk : disk_ok c (sc_disk s);
  gd_wf : catalog_wf (sc_catalog s);
  gd_same : catalog_same k (sc_catalog s);
  gd_kept : forall data, Key (ref_of data) ∈ Key <$> catalog_refs k -> installed c d data -> installed c (sc_disk s) data
}.

(** A computation on the scan that keeps all this. *)
Definition guards {X} (m : scan K -> scan K * X) : Prop := forall s s' x, m s = (s', x) -> guarded s -> guarded s'.

Lemma guarded_any s s' :
  sc_disk s' = sc_disk s -> sc_catalog s' = sc_catalog s -> guarded s -> guarded s'.
Proof. intros E1 E2 []. split; rewrite ?E1, ?E2; done. Qed.

(** From [E : m s = (s', x)] to [guarded s'], when [m] guards and [s] is guarded. *)
Ltac keep_guard L E :=
  apply L in E;
  match type of E with ?P -> _ =>
    let H := fresh in
    assert P as H by (assumption || (eapply guarded_any; [| |eassumption]; done)); specialize (E H); clear H
  end.

Lemma guards_lift {A} (m : IO A) : quietly m -> guards (lift m).
Proof.
  intros Hq s s' x. unfold lift. destruct (m (sc_disk s)) as [d' r] eqn:E. intros [= <- <-] [G1 G2 G3 G4].
  apply Hq in E. split; cbn; [by eapply quiet_ok|done|done|]. intros data Hk Hi.
  eapply installed_grown; [by eapply quiet_grown|by apply G4].
Qed.

Lemma guards_stat p : guards (lift (stat p)).
Proof. apply guards_lift, quietly_stat. Qed.

Lemma guards_emit f : guards (emit f).
Proof.
  intros s s' x. unfold emit. destruct (lift attempt s) as [s1 [u|e]] eqn:E; intros [= <- <-] G;
    keep_guard (guards_lift _ quietly_attempt) E; [|done]. by eapply guarded_any, E.
Qed.

Lemma guards_visit_all {A} (f : A -> scan K -> scan K * option goerr) l :
  (forall x, x ∈ l -> guards (f x)) -> guards (visit_all f l).
Proof.
  induction l as [|x l IH]; intros Hf s s' y; cbn [visit_all]; [by intros [= <- <-]|].
  destruct (f x s) as [s1 [e|]] eqn:E; apply Hf in E as G1; [|by left| |by left].
  - intros [= <- <-]. done.
  - intros H2 G. eapply IH; [|exact H2|by apply G1]. intros z Hz. apply Hf. by right.
Qed.

Lemma guards_visit_ref ref : guards (visit_ref c ref).
Proof.
  intros s s' x. unfold visit_ref. destruct (lift (Verify c ref) _) as [s1 r] eqn:E. intros H G.
  keep_guard (guards_lift _ (quietly_Verify c ref)) E.
  destruct r as [u|e]; [by injection H as <- <-|].
  destruct (errors_is e OsErrNotExist); [eapply guards_emit; [done|by eapply guarded_any, E]|].
  destruct (errors_is e ErrContentCorrupt); [eapply guards_emit; [done|by eapply guarded_any, E]|].
  by injection H as <- <-.
Qed.

Lemma guards_settle existing ref :
  (Key ref ∈ Key <$> catalog_refs k -> Key ref ∈ existing) -> guards (settle_object c o existing ref).
Proof.
  intros Hex s s' x. unfold settle_object. case_bool_decide as Hin; [by intros [= <- <-]|].
  assert (forall b s s' x, (match emit (MkFinding FindingOrphan ref b) s with
    | (s, Some e) => (s, Some (EWrap "emit orphan finding" e)) | (s, None) => (s, None) end) = (s', x) ->
    guarded s -> guarded s') as Hemit.
  { intros b s1 s2 y. destruct (emit _ s1) as [s3 [e|]] eqn:E; intros [= <- <-]; by eapply guards_emit. }
  intros H G. assert (guarded (on_summary s count_orphan)) as G0 by (by eapply guarded_any, G).
  destruct (RepairOrphans o); [|by eapply Hemit].
  unfold lift in H. destruct (deleteLocked c ref _) as [d1 r] eqn:E.
  assert (guarded (on_disk (on_summary s count_orphan) d1)) as G1.
  { destruct G0 as [G1 G2 G3 G4]. split; cbn; [by eapply deleteLocked_spec|done|done|]. intros data Hk Hi.
    eapply deleteLocked_installed; [done| |by apply G4]. intros Heq. apply Hin, Hex. by rewrite <- Heq. }
  destruct r as [u|e]; [|by injection H as <- <-]. eapply Hemit; [done|by eapply guarded_any, G1].
Qed.

Lemma guards_flush : guards (flush c o).
Proof.
  intros s s' x. unfold flush. destruct (sc_objects s) as [|ref l] eqn:El; [by intros [= <- <-]|].
  intros H G. destruct (cat_existing_spec (Key <$> (ref :: l)) (sc_catalog s) (gd_wf _ G)) as (k' & r & Ex & (Sm & _) & Hr).
  destruct (catalog_same_spec _ _ Sm (gd_wf _ G)) as [W _].
  rewrite Ex in H. assert (guarded (on_catalog s k')) as G1 by (destruct G; split; cbn; [done|done|by etrans|done]).
  destruct r as [existing|e]; [|by injection H as <- <-].
  assert (guards (visit_all (settle_object c o existing) (ref :: l))) as Hv.
  { apply guards_visit_all. intros y Hy. apply guards_settle. intros Hk. apply Hr. rewrite (proj2 (catalog_same_spec _ _ (gd_same _ G) Hwf)).
    split; [by apply list_elem_of_fmap_2|done]. }
  destruct (visit_all _ _ _) as [s1 [e|]] eqn:E; injection H as <- <-; keep_guard Hv E; [done|by eapply guarded_any, E].
Qed.

Lemma guards_walk_entry entry : guards (scan_entry c o entry).
Proof.
  destruct entry as [parts n]. intros s s' x. unfold walk_entry.
  destruct (lift ctx_err s) as [s1 [u|e]] eqn:E1; intros H G; keep_guard (guards_lift _ quietly_ctx_err) E1;
    [|by injection H as <- <-].
  destruct n as [i|].
  - repeat (destruct parts as [|? parts]; [by injection H as <- <-|]). destruct parts; [|by injection H as <- <-].
    destruct (_ || _); [by injection H as <- <-|]. destruct (relativePathForKey _); [|by injection H as <- <-].
    destruct (lift (stat _) s1) as [s2 [n|e]] eqn:E2; keep_guard guards_stat E2;
      [|by injection H as <- <-].
    unfold visit_object in H. destruct (_ =? _); [eapply guards_flush; [done|]|injection H as <- <-]; by eapply guarded_any, E2.
  - destruct (_ || _); [by injection H as <- <-|].
    destruct (lift attempt s1) as [s2 [v|e]] eqn:E2; keep_guard (guards_lift _ quietly_attempt) E2; by injection H as <- <-.
Qed.

Lemma guards_walkObjects : guards (scan_objects c o).
Proof.
  intros s s' x. unfold walkObjects.
  destruct (lift (stat _) s) as [s1 [n|e]] eqn:E1; intros H G; keep_guard guards_stat E1; [|by injection H as <- <-].
  destruct (lift ctx_err s1) as [s2 [u|e]] eqn:E2; keep_guard (guards_lift _ quietly_ctx_err) E2; [|by injection H as <- <-].
  destruct (lift attempt s2) as [s3 [v|e]] eqn:E3; keep_guard (guards_lift _ quietly_attempt) E3; [|by injection H as <- <-].
  eapply guards_visit_all; [|done|done]. intros y _. apply guards_walk_entry.
Qed.

Lemma Reconcile_guarded :
  disk_ok c d -> exists s e, Reconcile c o d k = Some (s, e) /\ guarded s.
Proof.
  intros Hok. unfold Reconcile. set (s0 := Scan d k _ [] []). assert (guarded s0) as G0 by (by split).
  destruct ((BatchSize o <=? 0) || (10000 <? BatchSize o)) eqn:Eb; [by eexists _, _|].
  apply orb_false_iff in Eb as [E1 E2]. bool_to_prop.
  destruct (cat_walk_spec _ (BatchSize o) (visit_ref c) k s0 ltac:(lia) Hwf) as (k1 & s1 & e & -> & (Sm & _) & Hw).
  destruct (catalog_same_spec _ _ Sm Hwf) as [W _].
  assert (guarded s1) as G1.
  { destruct Hw as [Hw|(_ & _ & pre & _ & Hw)]; (eapply guards_visit_all; [|exact Hw|done]); intros x _; apply guards_visit_ref. }
  assert (guarded (on_catalog s1 k1)) as G1' by (destruct G1; by split).
  destruct e as [e|]; [by eexists _, _|].
  destruct (scan_objects c o _) as [s2 [e|]] eqn:E3; keep_guard guards_walkObjects E3; [by eexists _, _|].
  destruct (flush c o s2) as [s3 [e|]] eqn:E4; keep_guard guards_flush E4; by eexists _, _.
Qed.
End Safety.

(** ** [app.ReconcileContent] *)

Definition DefaultReconcileBatchSize : Z := 512.

(** The command once it holds the exclusive maintenance lease and has opened
    the store. *)
Definition ReconcileContent (c : config) (repairOrphans : bool) (w : system) : option (system * option goerr) :=
  match Reconcile c (MkReconcileOptions DefaultReconcileBatchSize repairOrphans) (st_disk (y_store w)) (y_db w) with
  | None => None
  | Some (s, e) =>
    let w := Sys (with_disk (y_store w) (sc_disk s)) (sc_catalog s) (y_flight w) in
    match e with
    | Some e => Some (w, Some (EWrap "reconcile content storage" e))
    | None =>
      if 0 <? Unresolved (sc_summary s) then Some (w, Some (EWrap "unresolved finding(s)" ErrInconsistentContent))
      else Some (w, None)
    end
  end.

Section System.
Context (c : config) (q : DeliveryLimits) (w : system).
Hypothesis (Hinv : sys_inv c q w).

Lemma system_wf : catalog_wf (y_db w).
Proof. apply ok_keyed, (si_db _ _ _ Hinv). Qed.

Lemma catalogued_held ref : ref ∈ all_refs (y_db w) -> held c (st_disk (y_store w)) ref.
Proof.
  intros (r & Hr & Hs)%all_refs_in. apply (si_contents _ _ _ Hinv) in Hr. rewrite <- Hs in Hr. by destruct ref.
Qed.

Lemma system_catalog_ok : catalog_ok c (st_disk (y_store w)) (y_db w).
Proof.
  intros ref (data & -> & p & i & f & Hp & [Ht _] & _)%catalogued_held.
  split; [apply zlen_nonneg|]. exists p. split; [done|]. by rewrite Ht.
Qed.

(** The store of a consistent system has every catalogued object intact. *)
Lemma system_no_findings : ref_findings c (st_disk (y_store w)) (all_refs (y_db w)) = [].
Proof.
  pose proof catalogued_held as Hh. induction (all_refs (y_db w)) as [|ref l IH]; [done|].
  unfold ref_findings. cbn [omap list_omap]. fold (ref_findings c (st_disk (y_store w)) l).
  replace (ref_state c (st_disk (y_store w)) ref) with (@None FindingKind).
  { apply IH. intros x Hx. apply Hh. by right. }
  destruct (Hh ref ltac:(by left)) as (data & -> & p & i & f & Hp & [Ht _] & Hi & _ & E1 & E2 & _).
  unfold ref_state. rewrite Hp, Ht, bool_decide_eq_true_2; [done|].
  unfold data_of, file_of. rewrite Hi. cbn. unfold ref_of. by rewrite E1, E2.
Qed.

(** Whatever fails, the system stays consistent. *)
Lemma ReconcileContent_inv repair :
  y_flight w = [] ->
  exists w' e, ReconcileContent c repair w = Some (w', e) /\ sys_inv c q w' /\ same_tables (y_db w) (y_db w').
Proof.
  intros Hf. pose proof system_wf as Hk. unfold ReconcileContent.
  destruct (Reconcile_guarded c (MkReconcileOptions DefaultReconcileBatchSize repair) (st_disk (y_store w)) (y_db w) Hk)
    as (s & e & -> & [G1 G2 G3 G4]); [apply Hinv|]. cbn in G3.
  assert (sys_inv c q (Sys (with_disk (y_store w) (sc_disk s)) (sc_catalog s) (y_flight w))) as Hi.
  { destruct Hinv as [I1 I2 I3 I4 I5]. split; cbn; [done|by eapply same_tables_healthy|done| |].
    - rewrite Hf. intros ref Hx. by apply elem_of_nil in Hx.
    - intros key r Hr. rewrite (sm_contents _ _ G3) in Hr. destruct (I5 key r Hr) as (data & Heq & Hin).
      exists data. split; [done|]. apply G4; [|done]. apply key_of_row. rewrite <- Heq. by eexists. }
  destruct e as [e|]; [by eexists _, _|]. destruct (0 <? _); by eexists _, _.
Qed.

(** Without failures a repair leaves no object the database does not know. *)
Lemma ReconcileContent_calm repair :
  calm (st_disk (y_store w)) -> layout_ok c (st_disk (y_store w)) -> db_oracle (y_db w) = [] ->
  let objects := objects_of (st_disk (y_store w)) (walk_list (st_disk (y_store w)) (objectsRoot c)) in
  exists w', ReconcileContent c repair w =
    Some (w', if repair || bool_decide (orphans (y_db w) objects = []) then None
              else Some (EWrap "unresolved finding(s)" ErrInconsistentContent)) /\
    forall p, d_tree (st_disk (y_store w')) !! p =
      if repaired c (MkReconcileOptions DefaultReconcileBatchSize repair) (y_db w) objects p
      then None else d_tree (st_disk (y_store w)) !! p.
Proof.
  intros Hc Hl Ho objects. unfold ReconcileContent.
  pose proof system_wf as Hk.
  destruct (Reconcile_calm c (MkReconcileOptions DefaultReconcileBatchSize repair) (st_disk (y_store w)) (y_db w)
    (si_disk _ _ _ Hinv) Hc Hl system_catalog_ok ltac:(done) Hk Ho) as (s & -> & _ & Hs & Ht & _).
  change (catalog_refs (y_db w)) with (all_refs (y_db w)) in Hs. rewrite system_no_findings in Hs.
  fold objects in Hs, Ht. cbn [RepairOrphans] in Hs. rewrite Hs. unfold Unresolved, tally.
  cbn [Missing Corrupt Orphans RepairedOrphans filter list_filter]. change (zlen (@nil Finding)) with 0.
  exists (Sys (with_disk (y_store w) (sc_disk s)) (sc_catalog s) (y_flight w)). split; [|done].
  destruct repair; cbn [orb]; [by rewrite Z.add_0_l, Z.sub_diag|].
  rewrite Z.sub_0_r. destruct (orphans (y_db w) objects) as [|x l]; [done|]. cbn. rewrite zlen_cons.
  pose proof (zlen_nonneg l). by rewrite (proj2 (Z.ltb_lt 0 _)) by lia.
Qed.

(** What survives a repair is catalogued. *)
Lemma unrepaired_catalogued p i :
  let d := st_disk (y_store w) in
  let objects := objects_of d (walk_list d (objectsRoot c)) in
  d_tree d !! p = Some (NFile i) -> objectsRoot c `suffix_of` p ->
  repaired c (MkReconcileOptions DefaultReconcileBatchSize true) (y_db w) objects p = false ->
  exists key r, contents (y_db w) !! key = Some r /\ pathForKey c key = Ok p.
Proof.
  intros d objects Ht [ps Hps] Hr.
  destruct (file_parts c d (si_disk _ _ _ Hinv) (reverse ps) i) as (g & Hg & Hcan); [by rewrite reverse_involutive, <- Hps|].
  assert (pathForKey c (sha256_prefix ++ g) = Ok p) as Hp.
  { unfold pathForKey. rewrite relativePathForKey_canonical by done. rewrite Hps.
    rewrite <- (reverse_involutive ps), Hg. done. }
  destruct (contents (y_db w) !! (sha256_prefix ++ g)) as [r|] eqn:Er; [by exists (sha256_prefix ++ g), r|].
  exfalso. revert Hr. apply not_false_iff_true. unfold repaired. cbn [RepairOrphans andb].
  apply existsb_exists. exists (MkContentRef (sha256_prefix ++ g) (zlen (data_of d i))).
  split; [|by apply bool_decide_eq_true_2]. apply list_elem_of_In, list_elem_of_filter. split.
  - change (sha256_prefix ++ g ∉ Key <$> all_refs (y_db w)). rewrite key_of_row, Er. by intros [? ?].
  - apply list_elem_of_omap. exists (reverse ps, NFile i). cbn [fst snd]. rewrite Hg. split; [|done].
    apply walk_list_spec. split; [done|]. rewrite <- Hg, reverse_involutive, <- Hps. done.
Qed.
End System.

(** ** The theorems *)

(** The paged walk over the content metadata is one pass over the
    table.  For every batch size the code accepts, every visitor and every
    failure of a query, [WalkContentRefs] ends; it calls the visitor on the
    rows in strict key order, each once, up to the visitor's first error; it
    stops early only with an error of a query, after a prefix of them; and
    the tables are as before.  When no query fails it visits them all. *)
Theorem catalog_walk {S} (visit : ContentRef -> S -> S * option goerr) n d s :
  1 <= n <= 10000 -> db_ok d ->
  (StronglySorted ref_le (all_refs d) /\ NoDup (Key <$> all_refs d) /\
   forall ref, ref ∈ all_refs d <-> exists r, contents d !! Key ref = Some r /\ SizeBytes ref = ct_size r) /\
  exists d' s' e, WalkContentRefs visit n d s = Some (d', s', e) /\ same_tables d d' /\
    (visit_all visit (all_refs d) s = (s', e) \/
     db_oracle d <> [] /\ is_Some e /\ exists pre, pre `prefix_of` all_refs d /\ visit_all visit pre s = (s', None)).
Proof.
  intros Hn Hok. split; [split; [apply all_refs_sorted|split; [apply all_refs_keys|apply all_refs_in]]|].
  destruct (WalkContentRefs_spec visit n d s Hn (ok_keyed d Hok)) as ([[d' s'] e] & Hw & S1 & _ & Hx).
  by exists d', s', e.
Qed.

(** C6: maintenance keeps the system consistent and, on a healthy disk,
    completes it.  With no delivery in flight, [ReconcileContent] ends
    whatever calls fail and wherever it stops, with every object the
    database refers to still installed and the tables unchanged.  If nothing
    fails and the layout is the store's own, it reports an inconsistency
    exactly when it was not asked to repair and the store has an object
    without metadata; asked to repair, it succeeds, and afterwards every
    stored object belongs to a row of the database. *)
Theorem reconcile_system (c : config) (q : DeliveryLimits) (repair : bool) (w : system) :
  sys_inv c q w -> y_flight w = [] ->
  exists w' e, ReconcileContent c repair w = Some (w', e) /\ sys_inv c q w' /\ same_tables (y_db w) (y_db w') /\
    (calm (st_disk (y_store w)) -> layout_ok c (st_disk (y_store w)) -> db_oracle (y_db w) = [] ->
     let unknown := orphans (y_db w) (objects_of (st_disk (y_store w)) (walk_list (st_disk (y_store w)) (objectsRoot c))) in
     e = (if repair || bool_decide (unknown = []) then None else Some (EWrap "unresolved finding(s)" ErrInconsistentContent)) /\
     (repair = false -> d_tree (st_disk (y_store w')) = d_tree (st_disk (y_store w))) /\
     (repair = true -> forall p i, d_tree (st_disk (y_store w')) !! p = Some (NFile i) -> objectsRoot c `suffix_of` p ->
        exists key r, contents (y_db w') !! key = Some r /\ pathForKey c key = Ok p)).
Proof.
  intros Hinv Hf. destruct (ReconcileContent_inv c q w Hinv repair Hf) as (w' & e & Hr & Hi & Hs).
  exists w', e. split; [done|]. split; [done|]. split; [done|]. intros Hc Hl Ho unknown.
  destruct (ReconcileContent_calm c q w Hinv repair Hc Hl Ho) as (w2 & Hr2 & Ht).
  rewrite Hr in Hr2. injection Hr2 as <- ->. split; [done|]. split; intros ->.
  - apply map_eq. intros p. by rewrite Ht.
  - intros p i Hp Hsuf. rewrite Ht in Hp. destruct (repaired _ _ _ _ p) eqn:E; [done|].
    destruct (unrepaired_catalogued c q w Hinv p i Hp Hsuf E) as (key & r & Hk & Hpk).
    exists key, r. by rewrite (sm_contents _ _ Hs).
Qed.

(** A delivery that stored its object and then failed to commit. *)
Module Left.
Definition state : system := Sys (release Live.stored) DeliveryRepo.Demo.start [].

Lemma state_inv : sys_inv Live.cfg Live.limits state.
Proof.
  assert (sys_inv Live.cfg Live.limits (Sys Live.stored DeliveryRepo.Demo.start [ref_of Live.hello])) as H1.
  { refine (sys_step_inv (R:=bytes) _ _ (λ _, true) _ _ Live.limit_ok Live.start_inv _).
    exact (sy_put _ _ (λ _, true) Live.start Live.stored Live.hello [] (ref_of Live.hello) Live.stored_run). }
  refine (sys_step_inv (R:=bytes) _ _ (λ _, true) _ _ Live.limit_ok H1 _).
  exact (sy_release _ _ (λ _, true) (Sys Live.stored DeliveryRepo.Demo.start [ref_of Live.hello]) [] (ref_of Live.hello) [] eq_refl).
Qed.

Lemma left_layout : layout_ok Live.cfg (st_disk (y_store state)).
Proof. apply layout_check; vm_compute; reflexivity. Qed.

Lemma one_unknown : orphans (y_db state) (objects_of (st_disk (y_store state))
  (walk_list (st_disk (y_store state)) (objectsRoot Live.cfg))) = [ref_of Live.hello].
Proof. vm_compute. reflexivity. Qed.
End Left.

Lemma reconcile_system_witness :
  exists w' e, ReconcileContent Live.cfg true Left.state = Some (w', e) /\ sys_inv Live.cfg Live.limits w' /\ e = None /\
    forall p i, d_tree (st_disk (y_store w')) !! p = Some (NFile i) -> objectsRoot Live.cfg `suffix_of` p -> False.
Proof.
  destruct (reconcile_system Live.cfg Live.limits true Left.state Left.state_inv eq_refl) as (w' & e & Hr & Hi & Hs & Hx).
  assert (calm (st_disk (y_store Left.state))) as Hc by (vm_compute; reflexivity).
  destruct (Hx Hc Left.left_layout ltac:(vm_compute; reflexivity)) as (He & _ & Hp).
  exists w', e. split; [exact Hr|]. split; [exact Hi|]. split; [exact He|]. intros p i Ht Hsuf.
  destruct (Hp eq_refl p i Ht Hsuf) as (key & r & Hk & _). rewrite (sm_contents _ _ Hs) in Hk. cbn in Hk.
  by rewrite lookup_empty in Hk.
Defined.

Lemma full_walk : length (visit_all (λ ref l, (Key ref :: l, None)) (all_refs Inhabited.full) []).1 = 1%nat.
Proof. vm_compute. reflexivity. Qed.

(** One row a page: a full page, then an empty one. *)
Lemma catalog_walk_witness :
  exists d' s' e, WalkContentRefs (λ ref l, (Key ref :: l, None)) 1 Inhabited.full [] = Some (d', s', e) /\
    same_tables Inhabited.full d' /\ length s' = 1%nat.
Proof.
  destruct (catalog_walk (λ ref l, (Key ref :: l, None)) 1 Inhabited.full [] ltac:(lia) (proj1 Inhabited.full_healthy))
    as (_ & d' & s' & e & Hw & Hs & Hx).
  exists d', s', e. split; [exact Hw|]. split; [exact Hs|].
  destruct Hx as [Hx|[Hb _]]; [|destruct Hb; vm_compute; reflexivity].
  pose proof full_walk as E1. rewrite Hx in E1. exact E1.
Defined.
