(* ===== verification/Bundle.v ===== *)
(** * Backup bundles: [internal/backup/bundle.go] and [restore.go]

    A bundle is a directory with a manifest, a database dump and a content
    archive, written beside its destination and published with one rename.  The
    database is behind [DatabaseDumper] and [DatabaseRestorer], the JSON of the
    manifest behind [ManifestCodec]. *)

From S2P Require Import Prelude GoStrings Errors Codec Uuid FileSystem Message ContentStore ContentStoreFacts Reconcile Tar FileTree Archive Database Catalog.

#[local] Opaque sha256.

Definition formatName : bytes := str "mailwisp-backup".
Definition formatVersion : Z := 1.
Definition manifestFileName : bytes := str "manifest.json".
Definition databaseFileName : bytes := str "database.dump".
Definition contentFileName : bytes := str "content.tar.gz".
Definition maxManifestBytes : Z := 2 ^ 20.

Record DatabaseMetadata := MkMetadata {
  dm_ServerVersion : bytes; dm_DumpVersion : bytes; dm_RestoreVersion : bytes; dm_MigrationVersion : Z
}.

Record PostgreSQLManifest := MkPostgreSQL {
  pm_ServerVersion : bytes; pm_DumpVersion : bytes; pm_RestoreVersion : bytes; pm_MigrationVersion : Z
}.

Record ComponentManifest := MkComponent { cm_File : bytes; cm_SHA256 : bytes; cm_SizeBytes : Z }.

Record ContentManifest := MkContentManifest { cn_Component : ComponentManifest; cn_Objects : Z; cn_UncompressedBytes : Z }.

(** A [time.Time]: the instant, and the offset of its zone in seconds. *)
Record Manifest := MkManifest {
  mf_Format : bytes; mf_Version : Z; mf_CreatedAt : Z; mf_CreatedOffset : Z;
  mf_PostgreSQL : PostgreSQLManifest; mf_Database : ComponentManifest; mf_Content : ContentManifest
}.

Record VerifiedBundle := MkVerified { vb_Root : path; vb_Manifest : Manifest; vb_DatabasePath : path; vb_ContentPath : path }.

(** [json.MarshalIndent]; the first value of a stream that [Decode] finds with
    [DisallowUnknownFields], and whether nothing follows it. *)
Class ManifestCodec := {
  mc_encode : Manifest -> res bytes;
  mc_decode : bytes -> res (Manifest * bool)
}.

(** Texts that survive JSON: visible ASCII, and not much of it. *)
Definition plain (s : bytes) : Prop := forallb (in_range 32 126) s = true /\ zlen s <= 100.

Definition plain_manifest (m : Manifest) : Prop :=
  plain (mf_Format m) /\ plain (pm_ServerVersion (mf_PostgreSQL m)) /\ plain (pm_DumpVersion (mf_PostgreSQL m)) /\ plain (pm_RestoreVersion (mf_PostgreSQL m)) /\
  plain (cm_File (mf_Database m)) /\ plain (cm_SHA256 (mf_Database m)) /\ plain (cm_File (cn_Component (mf_Content m))) /\ plain (cm_SHA256 (cn_Component (mf_Content m))).

(** What is encoded is read back, and short: the numbers have 64 bits. *)
Class CodecSpec (M : ManifestCodec) : Prop := {
  mc_roundtrip : forall m s, mc_encode m = Ok s -> mf_CreatedOffset m = 0 -> plain_manifest m ->
    mc_decode (s ++ [byte_of 10]) = Ok (m, true) /\ zlen s < maxManifestBytes
}.

(** The [DatabaseDumper] interface on a database [K]: the dump is written to
    the writer it is given. *)
Class DatabaseDumper (K : Type) := {
  Dump : forall W, Writer W -> W -> K -> disk -> disk * W * K * res DatabaseMetadata
}.

(** Any number of writes. *)
Definition write_step {W} (wr : Writer W) (a b : W * disk) : Prop := exists data e, wr_write data a.1 a.2 = (b.2, b.1, e).

(** A dump only writes, and its versions are those of a PostgreSQL. *)
Class DumperSpec (K : Type) `{!DatabaseDumper K} : Prop := {
  dump_wrote : forall W (wr : Writer W) w k d d' w' k' r, Dump W wr w k d = (d', w', k', r) -> rtc (write_step wr) (w, d) (w', d');
  dump_metadata : forall W (wr : Writer W) w k d d' w' k' m, Dump W wr w k d = (d', w', k', Ok m) -> 0 <= dm_MigrationVersion m /\
    Forall (λ s, plain s /\ trim_space s <> []) [dm_ServerVersion m; dm_DumpVersion m; dm_RestoreVersion m]
}.

(** The [DatabaseRestorer] interface, which includes a catalog. *)
Class DatabaseRestorer (K : Type) := {
  dr_catalog :: ContentCatalog K;
  Empty : K -> K * res bool;
  dr_Restore : bytes -> K -> K * res DatabaseMetadata
}.

(** [partialPath]: a name beside the destination, from eight random bytes. *)
Definition partialPath (destination : path) (random : bytes) : res path :=
  if zlen random <? 8 then Err (EWrap "generate partial backup name" (ENew "unexpected EOF"))
  else Ok ((str "." ++ default [] (head destination) ++ str ".partial-" ++ hex_encode (take 8 random)) :: dir destination).

(** ** Creating *)

Section Create.
Context `{!GzipLib} `{!ManifestCodec} {K : Type} `{!DatabaseDumper K} (c : config).

(** What follows the production of a component: [Sync] and [Close], whose errors
    join its own. *)
Definition finish_component {A} (i : nat) (r : res A) : IO A := λ d,
  let '(d, synced) := sync_file i d in
  let '(d, closed) := close_file d in
  match join (error_of r) (join (error_of synced) (error_of closed)) with
  | Some e => (d, Err e)
  | None => (d, r)
  end.

Definition component_of (name : bytes) (w : hashingWriter) : ComponentManifest :=
  MkComponent name (hex_encode (sha256 (hw_hashed w))) (zlen (hw_hashed w)).

Definition writeDatabase (root : path) (k : K) (d : disk) : disk * K * res (ComponentManifest * DatabaseMetadata) :=
  match wrap (EWrap "create database dump") (create_file (databaseFileName :: root)) d with
  | (d, Err e) => (d, k, Err e)
  | (d, Ok i) =>
    let '(d, hashed, k, dumped) := Dump hashingWriter hashing_writer (HashingWriter i []) k d in
    let '(d, r) := finish_component i (match dumped with Err e => Err e | Ok metadata => Ok (component_of databaseFileName hashed, metadata) end) d in
    (d, k, r)
  end.

Definition writeContent (root : path) : IO (ComponentManifest * ArchiveStats) := λ d,
  match wrap (EWrap "create content archive") (create_file (contentFileName :: root)) d with
  | (d, Err e) => (d, Err e)
  | (d, Ok i) =>
    let '(s, archiveErr) := WriteArchive c d (HashingWriter i []) in
    finish_component i (match archiveErr with Some e => Err e | None => Ok (component_of contentFileName (aw_dest s), aw_stats s) end) (aw_disk s)
  end.

Definition writeManifest (root : path) (m : Manifest) : IO unit :=
  match mc_encode m with
  | Err e => throw (EWrap "encode backup manifest" e)
  | Ok encoded =>
    i <- wrap (EWrap "create backup manifest") (create_file (manifestFileName :: root)) ;;
    λ d, let '(d, written) := write_file i (encoded ++ [byte_of 10]) d in finish_component i written d
  end.

Definition manifest_of (createdAt : Z) (database : ComponentManifest) (metadata : DatabaseMetadata) (content : ComponentManifest) (stats : ArchiveStats) : Manifest :=
  MkManifest formatName formatVersion createdAt 0
    (MkPostgreSQL (dm_ServerVersion metadata) (dm_DumpVersion metadata) (dm_RestoreVersion metadata) (dm_MigrationVersion metadata))
    database (MkContentManifest content (ar_Objects stats) (ar_Bytes stats)).

(** From the manifest on: the partial directory becomes the destination, or is
    moved back when that is not durable. *)
Definition publish (partial destination : path) (m : Manifest) : IO Manifest := λ d,
  let '(d, written) := writeManifest partial m d in
  let '(d, closed) := FileSystem.attempt d in
  match join (error_of written) (error_of closed) with
  | Some e => (d, Err e)
  | None =>
    (wrap (EWrap "sync partial backup directory") (syncDirectory partial) ;;;
     wrap (EWrap "publish backup bundle") (rename partial destination) ;;;
     λ d,
       match syncDirectory (dir destination) d with
       | (d, Ok _) => (d, Ok m)
       | (d, Err e) =>
         let '(d, _) := rename destination partial d in
         let '(d, _) := syncDirectory (dir destination) d in
         (d, Err (EWrap "sync backup parent directory" e))
       end) d
  end.

(** From the partial directory on. *)
Definition fill_partial (partial destination : path) (createdAt : Z) (k : K) (d : disk) : disk * K * res Manifest :=
  match wrap (EWrap "open partial backup directory") FileSystem.attempt d with
  | (d, Err e) => (d, k, Err e)
  | (d, Ok _) =>
    match writeDatabase partial k d with
    | (d, k, Err e) => (d, k, Err e)
    | (d, k, Ok (database, metadata)) =>
      match writeContent partial d with
      | (d, Err e) => (d, k, Err e)
      | (d, Ok (content, stats)) =>
        let '(d, r) := publish partial destination (manifest_of createdAt database metadata content stats) d in
        (d, k, r)
      end
    end
  end.

(** The checks before anything is written. *)
Definition inspect_destination (destination : path) : IO unit := λ d,
  match stat destination d with
  | (d, Ok _) => (d, Err (ENew "backup destination already exists"))
  | (d, Err e) =>
    if negb (errors_is e OsErrNotExist) then (d, Err (EWrap "inspect backup destination" e))
    else
      match stat (dir destination) d with
      | (d, Err e) => (d, Err (EWrap "inspect backup parent directory" e))
      | (d, Ok NDir) => (d, Ok tt)
      | (d, Ok (NFile _)) => (d, Err (ENew "backup parent path is not a directory"))
      end
  end.

Definition Create (destination : path) (createdAt : Z) (random : bytes) (k : K) (d : disk) : disk * K * res Manifest :=
  if bool_decide (createdAt = zero_time) then (d, k, Err (ENew "backup creation time is required"))
  else
    match inspect_destination destination d with
    | (d, Err e) => (d, k, Err e)
    | (d, Ok _) =>
      match partialPath destination random with
      | Err e => (d, k, Err e)
      | Ok partial =>
        match wrap (EWrap "create partial backup directory") (mkdir partial) d with
        | (d, Err e) => (d, k, Err e)
        | (d, Ok _) =>
          match fill_partial partial destination createdAt k d with
          | (d, k, Ok m) => (d, k, Ok m)
          | (d, k, Err e) => let '(d, _) := remove_all partial d in (d, k, Err e)
          end
        end
      end
    end.
End Create.

(** ** Verifying *)

Definition validateComponent (component : ComponentManifest) (expectedFile : bytes) : option goerr :=
  if negb (bool_decide (cm_File component = expectedFile)) || (cm_SizeBytes component <? 0) || negb (zlen (cm_SHA256 component) =? 64)
     || negb (bool_decide (to_lower (cm_SHA256 component) = cm_SHA256 component))
  then Some (ENew "backup component metadata is invalid")
  else match hex_decode (cm_SHA256 component) with
  | Some decoded => if negb (zlen decoded =? 32) then Some (ENew "backup component digest is invalid") else None
  | None => Some (ENew "backup component digest is invalid")
  end.

Definition validateManifest (m : Manifest) : option goerr :=
  if negb (bool_decide (mf_Format m = formatName)) || negb (mf_Version m =? formatVersion) then Some (ENew "unsupported backup manifest format or version")
  else if bool_decide (mf_CreatedAt m = zero_time) || negb (mf_CreatedOffset m =? 0) then Some (ENew "backup manifest creation time must be UTC")
  else
    let p := mf_PostgreSQL m in
    if bool_decide (trim_space (pm_ServerVersion p) = []) || bool_decide (trim_space (pm_DumpVersion p) = [])
       || bool_decide (trim_space (pm_RestoreVersion p) = []) || (pm_MigrationVersion p <? 0)
    then Some (ENew "backup manifest PostgreSQL metadata is invalid")
    else match validateComponent (mf_Database m) databaseFileName with
    | Some e => Some e
    | None =>
      match validateComponent (cn_Component (mf_Content m)) contentFileName with
      | Some e => Some e
      | None =>
        if (cn_Objects (mf_Content m) <? 0) || (cn_UncompressedBytes (mf_Content m) <? 0)
        then Some (ENew "backup manifest content statistics are invalid") else None
      end
    end.

(** A failure behind an open handle: the error of closing it joins. *)
Definition closing {A} (m : IO A) : IO A := λ d,
  match m d with
  | (d, Ok a) => (d, Ok a)
  | (d, Err e) =>
    let '(d, closed) := FileSystem.attempt d in
    (d, Err match closed with Ok _ => e | Err e' => EWrap2 "join" e e' end)
  end.

(** The component is read and hashed through one handle, which is rewound. *)
Definition openVerifiedComponent (root : path) (component : ComponentManifest) : IO nat :=
  n <- stat (cm_File component :: root) ;;
  match n with
  | NDir => throw (ENew "backup component is not a regular file")
  | NFile _ =>
    i <- open_file (cm_File component :: root) ;;
    closing (
      FileSystem.attempt ;;;
      λ d,
        let data := data_of d i in
        (hashed <- hash_file (S (length data)) data [] ;;
         if negb (zlen hashed =? cm_SizeBytes component) || negb (bool_decide (hex_encode (sha256 hashed) = cm_SHA256 component))
         then throw (ENew "backup component size or digest mismatch")
         else
           wrap (EWrap "rewind verified backup component") FileSystem.attempt ;;;
           ret i) d)
  end.

Definition verifyComponent (root : path) (component : ComponentManifest) : IO unit :=
  openVerifiedComponent root component ;;; close_file.

(** An entry of a bundle: one of the three files. *)
Definition allowed_entry (e : bytes * node) : bool :=
  bool_decide (e.1 = manifestFileName \/ e.1 = databaseFileName \/ e.1 = contentFileName) && match e.2 with NFile _ => true | NDir => false end.

Section Verify.
Context `{!ManifestCodec}.

Definition readManifest (root : path) : IO Manifest :=
  n <- wrap (EWrap "inspect backup manifest") (stat (manifestFileName :: root)) ;;
  λ d,
    if match n with NDir => true | NFile i => maxManifestBytes <? zlen (data_of d i) end
    then (d, Err (ENew "backup manifest is not a bounded regular file"))
    else
      (i <- wrap (EWrap "open backup manifest") (open_file (manifestFileName :: root)) ;;
       wrap (EWrap "decode backup manifest") FileSystem.attempt ;;;
       λ d,
         match mc_decode (take (Z.to_nat (maxManifestBytes + 1)) (data_of d i)) with
         | Err e => (d, Err (EWrap "decode backup manifest" e))
         | Ok (_, false) => (d, Err (ENew "backup manifest contains trailing data"))
         | Ok (m, true) => (d, Ok m)
         end) d.

Definition openVerifiedBundle (root : path) : IO VerifiedBundle :=
  n <- wrap (EWrap "inspect backup bundle") (stat root) ;;
  match n with
  | NFile _ => throw (ENew "backup bundle root must be a real directory")
  | NDir =>
    wrap (EWrap "open backup bundle root") FileSystem.attempt ;;;
    closing (
      wrap (EWrap "inspect opened backup bundle") FileSystem.attempt ;;;
      wrap (EWrap "open backup bundle directory") FileSystem.attempt ;;;
      entries <- closing (read_dir root) ;;
      close_file ;;;
      if negb (length entries =? 3)%nat then throw (ENew "backup bundle contains entries, want 3")
      else if negb (forallb allowed_entry entries) then throw (ENew "unexpected backup bundle entry")
      else
        m <- readManifest root ;;
        match validateManifest m with
        | Some e => throw e
        | None =>
          wrap (EWrap "verify database component") (verifyComponent root (mf_Database m)) ;;;
          wrap (EWrap "verify content component") (verifyComponent root (cn_Component (mf_Content m))) ;;;
          ret (MkVerified root m (databaseFileName :: root) (contentFileName :: root))
        end)
  end.

Definition Verify (root : path) : IO VerifiedBundle :=
  verified <- openVerifiedBundle root ;;
  wrap (EWrap "close verified backup bundle") FileSystem.attempt ;;;
  ret verified.
End Verify.

(** ** Restoring *)

Definition majorVersion (version : bytes) : bytes :=
  let version := trim_space version in
  if bool_decide (version = []) then []
  else
    let version := match index_byte version "."%char with Some index => take index version | None => version end in
    if forallb (λ g, let r := seg_rune g in negb ((r <? 48) || (57 <? r))) (runes version) then version else [].

Definition validateRestoredMetadata (m : Manifest) (restored : DatabaseMetadata) : option goerr :=
  let p := mf_PostgreSQL m in
  if bool_decide (majorVersion (pm_ServerVersion p) = []) || negb (bool_decide (majorVersion (pm_ServerVersion p) = majorVersion (dm_ServerVersion restored)))
  then Some (ENew "restored PostgreSQL server major does not match backup")
  else if negb (bool_decide (majorVersion (pm_DumpVersion p) = majorVersion (dm_DumpVersion restored)))
     || negb (bool_decide (majorVersion (pm_RestoreVersion p) = majorVersion (dm_RestoreVersion restored)))
  then Some (ENew "restored PostgreSQL tool major does not match backup")
  else if negb (dm_MigrationVersion restored =? pm_MigrationVersion p) then Some (ENew "restored migration version does not match backup")
  else None.

Section Restore.
Context `{!GzipLib} `{!TarLib} `{!ManifestCodec} {K : Type} `{!DatabaseRestorer K}.

(** The target is an empty directory, or a name free in a directory. *)
Definition inspect_target (target : path) : IO bool := λ d,
  let '(d, found) :=
    match stat target d with
    | (d, Ok NDir) =>
      match read_dir target d with
      | (d, Err e) => (d, Err (EWrap "inspect restore content root entries" e))
      | (d, Ok []) => (d, Ok true)
      | (d, Ok _) => (d, Err (ENew "restore content root is not empty"))
      end
    | (d, Ok (NFile _)) => (d, Err (ENew "restore content root is not a directory"))
    | (d, Err e) => if errors_is e OsErrNotExist then (d, Ok false) else (d, Err (EWrap "inspect restore content root" e))
    end in
  match found with
  | Err e => (d, Err e)
  | Ok exists_ =>
    match stat (dir target) d with
    | (d, Err e) => (d, Err (EWrap "inspect restore content parent" e))
    | (d, Ok (NFile _)) => (d, Err (ENew "restore content parent is not a directory"))
    | (d, Ok NDir) => (d, Ok exists_)
    end
  end.

(** Into a directory beside the target, which then takes its name. *)
Definition install_staged (staging target : path) (stats : ArchiveStats) (archive : bytes) : IO unit :=
  RestoreArchive staging stats archive ;;;
  λ d,
    match
      (wrap (EWrap "install restored content root") (rename staging target) ;;;
       λ d,
         match syncDirectory (dir target) d with
         | (d, Ok _) => (d, Ok tt)
         | (d, Err e) =>
           let '(d, _) := rename target staging d in
           let '(d, _) := syncDirectory (dir target) d in
           (d, Err (EWrap "sync restored content parent" e))
         end) d
    with
    | (d, Ok _) => (d, Ok tt)
    | (d, Err e) => let '(d, _) := remove_all staging d in (d, Err e)
    end.

Definition install_content (target : path) (random : bytes) (exists_ : bool) (stats : ArchiveStats) (archive : bytes) : IO unit :=
  if exists_ then RestoreArchive target stats archive ;;; ret tt
  else match partialPath target random with
  | Err e => throw e
  | Ok staging => install_staged staging target stats archive
  end.

(** The two components, verified again through the handles that are read. *)
Definition open_components (bundleRoot : path) : IO (Manifest * bytes * bytes) :=
  verified <- openVerifiedBundle bundleRoot ;;
  let m := vb_Manifest verified in
  content <- wrap (EWrap "open verified content archive") (openVerifiedComponent bundleRoot (cn_Component (mf_Content m))) ;;
  database <- wrap (EWrap "open verified database dump") (openVerifiedComponent bundleRoot (mf_Database m)) ;;
  λ d, (d, Ok (m, data_of d content, data_of d database)).

(** The database, then the two stores against each other. *)
Definition restore_database (target : path) (m : Manifest) (dump : bytes) (k : K) (d : disk) : option (disk * K * res Manifest) :=
  match dr_Restore dump k with
  | (k, Err e) => Some (d, k, Err e)
  | (k, Ok metadata) =>
    match validateRestoredMetadata m metadata with
    | Some e => Some (d, k, Err e)
    | None =>
      let c := MkConfig target 1 0 in
      match wrap (EWrap "open restored content store") (Open c) d with
      | (d, Err e) => Some (d, k, Err e)
      | (d, Ok _) =>
        match Reconcile c (MkReconcileOptions DefaultReconcileBatchSize false) d k with
        | None => None
        | Some (s, Some e) => Some (sc_disk s, sc_catalog s, Err (EWrap "reconcile restored backup" e))
        | Some (s, None) =>
          Some (sc_disk s, sc_catalog s,
            if negb (Unresolved (sc_summary s) =? 0) then Err (EWrap "restored backup has unresolved finding(s)" ErrInconsistentContent) else Ok m)
        end
      end
    end
  end.

(** [Restore]; [None] when the walk of the catalog does not end. *)
Definition Restore (bundleRoot target : path) (random : bytes) (k : K) (d : disk) : option (disk * K * res Manifest) :=
  match open_components bundleRoot d with
  | (d, Err e) => Some (d, k, Err e)
  | (d, Ok (m, archive, dump)) =>
    match Empty k with
    | (k, Err e) => Some (d, k, Err (EWrap "inspect restore database" e))
    | (k, Ok false) => Some (d, k, Err (ENew "restore database is not empty"))
    | (k, Ok true) =>
      match inspect_target target d with
      | (d, Err e) => Some (d, k, Err e)
      | (d, Ok exists_) =>
        match install_content target random exists_ (MkStats (cn_Objects (mf_Content m)) (cn_UncompressedBytes (mf_Content m))) archive d with
        | (d, Err e) => Some (d, k, Err e)
        | (d, Ok _) => restore_database target m dump k d
        end
      end
    end
  end.
End Restore.
