(* ===== verification/BundleFacts.v ===== *)
(** * What bundles are worth

    A bundle verifies exactly when it is complete; what [Create] publishes is
    complete and durable; [Restore] changes nothing before it has verified. *)

From S2P Require Import Prelude GoStrings Errors Codec Uuid FileSystem Message ContentStore ContentStoreFacts ContentStoreSpec Reconcile Tar FileTree Archive ArchiveFacts Database Catalog Bundle.

#[local] Opaque sha256.

(** ** Reading only *)

(** Nothing changes but the verdicts that are left. *)
Definition reading {A} (m : IO A) : Prop := forall d d' r, m d = (d', r) -> d' = set_oracle d (d_oracle d').

Lemma set_oracle_set d l l' : set_oracle (set_oracle d l) l' = set_oracle d l'.
Proof. done. Qed.

Lemma reading_look {A} (f : disk -> res A) : reading (λ d, (d, f d)).
Proof. intros d d' r [= <- <-]. by destruct d. Qed.

Lemma reading_ret {A} (a : A) : reading (ret a).
Proof. apply (reading_look (λ _, Ok a)). Qed.

Lemma reading_throw {A} e : reading (A := A) (throw e).
Proof. apply (reading_look (λ _, Err e)). Qed.

Lemma reading_bind {A B} (m : IO A) (k : A -> IO B) : reading m -> (forall a, reading (k a)) -> reading (bind m k).
Proof.
  intros Hm Hk d d' r. unfold bind. destruct (m d) as [d1 [a|e]] eqn:E; apply Hm in E; [|by intros [= <- <-]].
  intros Ek. apply Hk in Ek. rewrite Ek, E. done.
Qed.

Lemma reading_wrap {A} f (m : IO A) : reading m -> reading (wrap f m).
Proof. intros Hm d d' r. unfold wrap. destruct (m d) as [d1 [a|e]] eqn:E; intros [= <- <-]; by eapply Hm. Qed.

Lemma reading_if {A} (b : bool) (m1 m2 : IO A) : reading m1 -> reading m2 -> reading (if b then m1 else m2).
Proof. by destruct b. Qed.

Lemma reading_with {A} (m : disk -> IO A) : (forall d, reading (m d)) -> reading (λ d, m d d).
Proof. intros Hm d. apply Hm. Qed.

Lemma reading_attempt : reading FileSystem.attempt.
Proof. intros d d' r. unfold FileSystem.attempt. destruct (d_oracle d) as [|[e|] l] eqn:E; intros [= <- <-]; [by destruct d; cbn in *; subst|done..]. Qed.

Create HintDb reading.
#[export] Hint Resolve reading_look reading_ret reading_throw reading_wrap reading_if reading_attempt : reading.

Lemma reading_stat p : reading (stat p).
Proof. apply reading_bind; [auto with reading|]. intros _ d d' r. destruct (d_tree d !! p); intros [= <- <-]; by destruct d. Qed.

Lemma reading_open_file p : reading (open_file p).
Proof. apply reading_bind; [auto with reading|]. intros _ d d' r. destruct (d_tree d !! p) as [[]|]; intros [= <- <-]; by destruct d. Qed.

Lemma reading_read_dir p : reading (read_dir p).
Proof. apply reading_bind; [auto with reading|]. intros _ d d' r. destruct (is_dir d p); intros [= <- <-]; by destruct d. Qed.

Lemma reading_ctx_err : reading ctx_err.
Proof. apply reading_wrap, reading_attempt. Qed.

Lemma reading_close : reading close_file.
Proof. apply reading_attempt. Qed.
#[export] Hint Resolve reading_stat reading_open_file reading_read_dir reading_ctx_err reading_close : reading.

Lemma reading_hash_file fuel rest hashed : reading (hash_file fuel rest hashed).
Proof.
  revert rest hashed. induction fuel as [|fuel IH]; intros rest hashed; cbn [hash_file]; [auto with reading|].
  repeat (apply reading_bind; [auto with reading|intros _]). destruct rest; auto with reading.
Qed.
#[export] Hint Resolve reading_hash_file : reading.

Lemma reading_closing {A} (m : IO A) : reading m -> reading (closing m).
Proof.
  intros Hm d d' r. unfold closing. destruct (m d) as [d1 [a|e]] eqn:E; apply Hm in E; [by intros [= <- <-]|].
  destruct (FileSystem.attempt d1) as [d2 x] eqn:E2. apply reading_attempt in E2. intros [= <- _]. rewrite E2, E. done.
Qed.

(** A step of a reading computation. *)
Ltac reads := repeat first [apply reading_bind; [|intros ?] | apply reading_closing | apply reading_if | progress (auto with reading)].

(** ** Verification *)

Definition described (m : ComponentManifest) (data : bytes) : Prop := cm_SizeBytes m = zlen data /\ cm_SHA256 m = hex_encode (sha256 data).

Definition file_at (d : disk) (p : path) (data : bytes) : Prop := exists i, d_tree d !! p = Some (NFile i) /\ data_of d i = data.

Lemma reading_component root m : reading (openVerifiedComponent root m).
Proof.
  unfold openVerifiedComponent. apply reading_bind; [auto with reading|]. intros [i|]; [|auto with reading]. apply reading_bind; [auto with reading|intros j].
  apply reading_closing, reading_bind; [auto with reading|intros _]. intros d d' r E.
  eapply (reading_bind (hash_file (S (length (data_of d j))) (data_of d j) [])); [auto with reading| |exact E]. intros hashed. reads.
Qed.

Lemma closing_ok {A} (m : IO A) d d' a : closing m d = (d', Ok a) -> m d = (d', Ok a).
Proof. unfold closing. destruct (m d) as [d1 [b|e]]; [done|]. by destruct (FileSystem.attempt d1). Qed.

Lemma stat_ok p d d' n : stat p d = (d', Ok n) -> d_tree d !! p = Some n.
Proof. intros (d1 & ? & E & Hs)%bind_ok. apply attempt_tree in E as [<- _]. by destruct (d_tree d1 !! p); [injection Hs as _ ->|]. Qed.

Lemma openVerifiedComponent_ok root m d d' i :
  openVerifiedComponent root m d = (d', Ok i) -> d_tree d !! (cm_File m :: root) = Some (NFile i) /\ described m (data_of d i).
Proof.
  intros (d1 & n & E1 & E)%bind_ok. pose proof (reading_stat _ _ _ _ E1) as R1. apply stat_ok in E1. destruct n as [j|]; [|done].
  apply bind_ok in E as (d2 & i' & E2 & E). pose proof (reading_open_file _ _ _ _ E2) as R2. apply open_file_ok in E2. rewrite R1 in E2. cbn in E2.
  apply closing_ok, bind_ok in E as (d3 & ? & E3 & E). apply reading_attempt in E3. apply bind_ok in E as (d4 & hashed & E4 & E). apply hash_file_ok in E4. cbn in E4. subst hashed.
  if_in E Eb; [done|]. apply orb_false_iff in Eb as [Ez Ed]. apply negb_false_iff in Ez, Ed. apply Z.eqb_eq in Ez. apply bool_decide_eq_true in Ed.
  apply bind_ok in E as (d5 & ? & _ & E). injection E as _ <-.
  assert (data_of d3 i' = data_of d i') as Hd by (rewrite E3, R2, R1; done). rewrite Hd in *. by split.
Qed.

Lemma reading_verify root m : reading (verifyComponent root m).
Proof. apply reading_bind; [apply reading_component|intros _; auto with reading]. Qed.
#[export] Hint Resolve reading_component reading_verify : reading.

Section Verifying.
Context `{!ManifestCodec}.

(** A complete bundle: the three files and nothing else, a manifest that is
    valid, and the components it describes. *)
Record holds_bundle (d : disk) (root : path) (m : Manifest) : Prop := {
  hb_dir : d_tree d !! root = Some NDir;
  hb_only : forall name n, d_tree d !! (name :: root) = Some n -> name = manifestFileName \/ name = databaseFileName \/ name = contentFileName;
  hb_manifest : exists text, file_at d (manifestFileName :: root) text /\ zlen text <= maxManifestBytes /\ mc_decode text = Ok (m, true);
  hb_valid : validateManifest m = None;
  hb_database : exists data, file_at d (databaseFileName :: root) data /\ described (mf_Database m) data;
  hb_content : exists data, file_at d (contentFileName :: root) data /\ described (cn_Component (mf_Content m)) data
}.

Lemma reading_manifest root : reading (readManifest root).
Proof.
  apply reading_bind; [auto with reading|]. intros n d d' r E. if_in E Eb; [injection E as <- <-; by destruct d|]. revert E. apply reading_bind; [auto with reading|].
  intros i. apply reading_bind; [auto with reading|]. intros _ e e' r'. destruct (mc_decode _) as [[m []]|]; intros [= <- <-]; by destruct e.
Qed.
#[local] Hint Resolve reading_manifest : reading.

Lemma readManifest_ok root d d' m : readManifest root d = (d', Ok m) ->
  exists text, file_at d (manifestFileName :: root) text /\ zlen text <= maxManifestBytes /\ mc_decode text = Ok (m, true).
Proof.
  intros (d1 & n & E1%wrap_ok & E)%bind_ok. pose proof (reading_stat _ _ _ _ E1) as R1. apply stat_ok in E1. if_in E Eb; [done|].
  apply bind_ok in E as (d2 & i & E2%wrap_ok & E). pose proof (reading_open_file _ _ _ _ E2) as R2. apply open_file_ok in E2.
  assert (d_tree d1 = d_tree d) as T1 by (by rewrite R1). rewrite T1, E1 in E2. injection E2 as ->. apply Z.ltb_ge in Eb. apply bind_ok in E as (d3 & ? & E3%wrap_ok & E). apply reading_attempt in E3.
  assert (data_of d1 i = data_of d i /\ data_of d3 i = data_of d i) as [H1 H3] by (rewrite E3, R2, R1; done). rewrite H1 in Eb. rewrite H3 in E.
  exists (data_of d i). split_and!; [by exists i|done|]. rewrite take_ge in E by (unfold zlen, maxManifestBytes in *; lia).
  destruct (mc_decode _) as [[m' []]|]; try done. by injection E as _ ->.
Qed.

Lemma validate_names m : validateManifest m = None -> cm_File (mf_Database m) = databaseFileName /\ cm_File (cn_Component (mf_Content m)) = contentFileName.
Proof.
  assert (forall cm file, validateComponent cm file = None -> cm_File cm = file) as Hc.
  { intros cm file. unfold validateComponent. intros E. if_in E Eb; [done|]. rewrite !orb_false_iff in Eb. destruct Eb as [[[Eb _] _] _].
    apply negb_false_iff in Eb. by apply bool_decide_eq_true in Eb. }
  unfold validateManifest. intros E. do 2 (if_in E Eb; [done|clear Eb]). cbv zeta in E. if_in E Eb; [done|clear Eb].
  destruct (validateComponent (mf_Database m) _) eqn:E1; [done|]. destruct (validateComponent (cn_Component _) _) eqn:E2; [done|]. by split; apply Hc.
Qed.

Lemma file_at_oracle d l p data : file_at (set_oracle d l) p data <-> file_at d p data.
Proof. done. Qed.

Lemma verify_component_ok root m d d' u : verifyComponent root m d = (d', Ok u) -> exists data, file_at d (cm_File m :: root) data /\ described m data.
Proof. intros (d1 & i & [E1 E2]%openVerifiedComponent_ok & _)%bind_ok. exists (data_of d i). split; [by exists i|done]. Qed.

Lemma reading_open_bundle root : reading (openVerifiedBundle root).
Proof.
  apply reading_bind; [auto with reading|]. intros [i|]; [auto with reading|]. apply reading_bind; [auto with reading|intros _]. apply reading_closing.
  do 2 (apply reading_bind; [auto with reading|intros _]). apply reading_bind; [apply reading_closing; auto with reading|intros l].
  apply reading_bind; [auto with reading|intros _]. repeat (apply reading_if; [auto with reading|]). apply reading_bind; [auto with reading|intros m].
  destruct (validateManifest m); reads.
Qed.

Lemma openVerifiedBundle_ok root d d' v : openVerifiedBundle root d = (d', Ok v) ->
  v = MkVerified root (vb_Manifest v) (databaseFileName :: root) (contentFileName :: root) /\ holds_bundle d root (vb_Manifest v).
Proof.
  intros (d1 & n & E1%wrap_ok & E)%bind_ok. pose proof (reading_stat _ _ _ _ E1) as R1. apply stat_ok in E1. destruct n as [i|]; [done|].
  apply bind_ok in E as (d2 & ? & E2%wrap_ok & E). apply reading_attempt in E2. apply closing_ok, bind_ok in E as (d3 & ? & E3%wrap_ok & E). apply reading_attempt in E3.
  apply bind_ok in E as (d4 & ? & E4%wrap_ok & E). apply reading_attempt in E4. apply bind_ok in E as (d5 & l & E5%closing_ok & E).
  assert (l = entries d root) as ->.
  { apply bind_ok in E5 as (d6 & ? & E6 & Hl). apply reading_attempt in E6. destruct (is_dir d6 root); [|done]. injection Hl as _ <-. rewrite E6, E4, E3, E2, R1. done. }
  apply reading_read_dir in E5. apply bind_ok in E as (d6 & ? & E6 & E). apply reading_close in E6.
  if_in E Elen; [done|clear Elen]. if_in E Eall; [done|]. apply negb_false_iff in Eall. rewrite forallb_forall in Eall.
  apply bind_ok in E as (d7 & m & E7 & E). pose proof (reading_manifest _ _ _ _ E7) as R7. apply readManifest_ok in E7 as (text & Hf & Hz & Hm).
  destruct (validateManifest m) eqn:Ev; [done|]. destruct (validate_names m Ev) as [N1 N2].
  apply bind_ok in E as (d8 & ? & E8%wrap_ok & E). pose proof (reading_verify _ _ _ _ _ E8) as R8. apply verify_component_ok in E8 as (dump & H8 & D8).
  apply bind_ok in E as (d9 & ? & E9%wrap_ok & E). apply verify_component_ok in E9 as (archive & H9 & D9). injection E as _ <-. split; [done|]. cbn [vb_Manifest].
  rewrite N1 in H8. rewrite N2 in H9. rewrite R8 in H9. rewrite R7 in H8, H9. rewrite E6, E5, E4, E3, E2, R1 in *. split; [done| |by exists text|done|by exists dump|by exists archive].
  intros name nd Hx. assert ((name, nd) ∈ entries d root) as Hin by by apply entries_spec. apply list_elem_of_In, Eall in Hin.
  unfold allowed_entry in Hin. apply andb_true_iff in Hin as [Hin _]. by apply bool_decide_eq_true in Hin.
Qed.

Lemma bundle_entries d root m : holds_bundle d root m -> length (entries d root) = 3%nat /\ forallb allowed_entry (entries d root) = true.
Proof.
  intros [_ Ho (text & (i1 & T1 & _) & _) _ (dump & (i2 & T2 & _) & _) (archive & (i3 & T3 & _) & _)]. split.
  - assert ((entries d root).*1 ≡ₚ [manifestFileName; databaseFileName; contentFileName]) as Hp.
    { apply NoDup_Permutation; [apply entries_NoDup|apply (bool_decide_unpack _); vm_compute; exact I|]. intros name. rewrite list_elem_of_fmap, !elem_of_cons, elem_of_nil. split.
      - intros ([y n] & -> & Hy%entries_spec). apply Ho in Hy. cbn in *. tauto.
      - intros [->|[->|[->|[]]]]; [exists (manifestFileName, NFile i1)|exists (databaseFileName, NFile i2)|exists (contentFileName, NFile i3)]; (split; [done|by apply entries_spec]). }
    apply Permutation_length in Hp. by rewrite length_fmap in Hp.
  - apply forallb_forall. intros [name n] Hin%list_elem_of_In%entries_spec. cbn [fst snd] in Hin. pose proof (Ho _ _ Hin) as Hn. unfold allowed_entry. cbn [fst snd].
    rewrite bool_decide_eq_true_2 by done. destruct Hn as [->|[->| ->]]; rewrite Hin in *; simplify_eq; done.
Qed.

Lemma verify_component_calm root m d data : calm d -> file_at d (cm_File m :: root) data -> described m data ->
  exists i, openVerifiedComponent root m d = (d, Ok i) /\ data_of d i = data /\ verifyComponent root m d = (d, Ok tt).
Proof.
  intros Hc (i & Ht & Hd) [Hz Hs]. exists i. assert (openVerifiedComponent root m d = (d, Ok i)) as E.
  { unfold openVerifiedComponent, stat. unfold bind at 1. rewrite bind_attempt_calm, Ht by done. unfold bind at 1, open_file. rewrite bind_attempt_calm, Ht by done.
    unfold closing. rewrite bind_attempt_calm by done. cbv zeta. unfold bind. rewrite hash_file_calm by (done || lia). cbn [app]. rewrite Hd, Hz, Hs, Z.eqb_refl, bool_decide_eq_true_2 by done.
    cbn [negb orb]. unfold wrap. by rewrite attempt_calm. }
  split_and!; [done|done|]. unfold verifyComponent, bind. rewrite E. unfold close_file. by rewrite attempt_calm.
Qed.

Lemma openVerifiedBundle_calm root d m : calm d -> holds_bundle d root m ->
  openVerifiedBundle root d = (d, Ok (MkVerified root m (databaseFileName :: root) (contentFileName :: root))).
Proof.
  intros Hc Hb. destruct (bundle_entries d root m Hb) as [Hlen Hall]. destruct Hb as [Hr _ (text & (i & Ti & Di) & Hz & Hm) Hv (dump & Hf & Hd) (archive & Ha & Hda)].
  destruct (validate_names m Hv) as [N1 N2]. rewrite <- N1 in Hf. rewrite <- N2 in Ha.
  destruct (verify_component_calm root (mf_Database m) d dump Hc Hf Hd) as (_ & _ & _ & V1).
  destruct (verify_component_calm root (cn_Component (mf_Content m)) d archive Hc Ha Hda) as (_ & _ & _ & V2).
  unfold openVerifiedBundle, stat. unfold bind at 1, wrap at 1. rewrite bind_attempt_calm, Hr by done. unfold bind at 1, wrap at 1. rewrite attempt_calm by done.
  unfold closing at 1. do 2 (unfold bind at 1, wrap at 1; rewrite attempt_calm by done). unfold bind at 1, closing, read_dir. rewrite bind_attempt_calm by done.
  unfold is_dir. rewrite bool_decide_eq_true_2 by done. unfold bind at 1, close_file. rewrite attempt_calm by done. rewrite Hlen, Hall. cbn [Nat.eqb negb].
  unfold bind at 1, readManifest. unfold bind at 1, wrap at 1, stat. rewrite bind_attempt_calm, Ti by done. rewrite Di. rewrite (proj2 (Z.ltb_ge _ _)) by done.
  unfold bind at 1, wrap at 1, open_file. rewrite bind_attempt_calm, Ti by done. unfold bind at 1, wrap at 1. rewrite attempt_calm by done. rewrite Di.
  rewrite take_ge, Hm by (unfold zlen, maxManifestBytes in *; lia). rewrite Hv. unfold bind, wrap. by rewrite V1, V2.
Qed.
End Verifying.

(** ** Renaming a directory *)

Lemma rebase_app src dst k : rebase src dst (k ++ src) = k ++ dst.
Proof. unfold rebase. rewrite length_app. replace (length k + length src - length src)%nat with (length k) by lia. by rewrite take_app_length. Qed.

Section Rename.
Context (src dst : path) (t : gmap path node).
Hypothesis (Hfree : forall q, dst `suffix_of` q -> t !! q = None) (Hapart : ~ src `suffix_of` dst).

Lemma moved_inj p q : is_Some (t !! p) -> is_Some (t !! q) -> (moved src dst (p, NDir)).1 = (moved src dst (q, NDir)).1 -> p = q.
Proof.
  intros [n Hp] [n' Hq]. unfold moved. cbn [fst snd]. case_bool_decide as H1; case_bool_decide as H2; try done.
  - destruct H1 as [k1 ->], H2 as [k2 ->]. rewrite !rebase_app. intros E%app_inv_tail. by subst.
  - destruct H1 as [k1 ->]. rewrite rebase_app. intros <-. rewrite Hfree in Hq; [done|by eexists].
  - destruct H2 as [k2 ->]. rewrite rebase_app. intros ->. rewrite Hfree in Hp; [done|by eexists].
Qed.

Lemma move_tree_spec p n : move_tree src dst t !! p = Some n <-> exists q, t !! q = Some n /\ p = (moved src dst (q, n)).1.
Proof.
  unfold move_tree. rewrite <- elem_of_list_to_map.
  - rewrite list_elem_of_fmap. split.
    + intros ([q m] & E & Hq%elem_of_map_to_list). assert (m = n) as -> by (unfold moved in E; cbn in E; congruence). exists q. split; [done|]. by rewrite <- E.
    + intros (q & Hq & ->). exists (q, n). split; [by unfold moved|by apply elem_of_map_to_list].
  - rewrite <- list_fmap_compose. apply NoDup_fmap_2_strong; [|apply NoDup_map_to_list].
    intros [p1 n1] [p2 n2] H1%elem_of_map_to_list H2%elem_of_map_to_list E. assert (p1 = p2) as -> by (apply moved_inj; [by eexists..|exact E]). congruence.
Qed.

Lemma move_tree_dst k : move_tree src dst t !! (k ++ dst) = t !! (k ++ src).
Proof.
  apply option_eq. intros n. rewrite move_tree_spec. split.
  - intros (q & Hq & E). unfold moved in E. cbn [fst snd] in E. case_bool_decide as Hs.
    + destruct Hs as [k' ->]. rewrite rebase_app in E. by apply app_inv_tail in E as ->.
    + subst q. rewrite Hfree in Hq; [done|by eexists].
  - intros Hn. exists (k ++ src). split; [done|]. unfold moved. cbn [fst snd]. rewrite bool_decide_eq_true_2 by by eexists. by rewrite rebase_app.
Qed.

Lemma move_tree_src k : ~ dst `suffix_of` k ++ src -> move_tree src dst t !! (k ++ src) = None.
Proof.
  intros Hk. apply eq_None_not_Some. intros [n (q & Hq & E)%move_tree_spec]. unfold moved in E. cbn [fst snd] in E. case_bool_decide as Hs.
  - destruct Hs as [k' ->]. rewrite rebase_app in E. apply Hk. rewrite E. by eexists.
  - apply Hs. rewrite <- E. by eexists.
Qed.

Lemma move_tree_other p : ~ src `suffix_of` p -> ~ dst `suffix_of` p -> move_tree src dst t !! p = t !! p.
Proof.
  intros H1 H2. apply option_eq. intros n. rewrite move_tree_spec. split.
  - intros (q & Hq & E). unfold moved in E. cbn [fst snd] in E. case_bool_decide as Hs; [|by subst].
    destruct Hs as [k ->]. rewrite rebase_app in E. exfalso. apply H2. rewrite E. by eexists.
  - intros Hn. exists p. split; [done|]. unfold moved. cbn [fst snd]. by rewrite bool_decide_eq_false_2.
Qed.
End Rename.

(** ** What is written is what is hashed *)

(** A file that is written through a hash, and nothing else is. *)
Definition hashed (i : nat) (d0 : disk) (w : hashingWriter) (d : disk) : Prop := writes i d0 d /\ hw_file w = i /\ hw_hashed w = data_of d i.

Lemma hashed_write i d0 w d data d' w' e : is_Some (d_inodes d0 !! i) -> hashed i d0 w d -> wr_write data w d = (d', w', e) -> hashed i d0 w' d'.
Proof.
  intros Hi (W & F & Hh). cbn [wr_write hashing_writer]. destruct (write_file (hw_file w) data d) as [d1 [[]|e1]] eqn:E; intros [= <- <- <-].
  - rewrite F in E. apply write_file_spec in E as [W1 H1]. split_and!; [by etrans|done|]. cbn [hw_hashed]. by rewrite H1, Hh by (done || by apply (wr_inode _ _ _ W)).
  - rewrite F in E. apply bind_attempt in E as [(d2 & Ea & Hz)|(x & Ea & _)]; [done|]. apply (quiet_writes_attempt _ _ _ i) in Ea as [W1 I1].
    split_and!; [by etrans|done|]. rewrite Hh. unfold data_of, file_of. by rewrite I1.
Qed.

Lemma hashed_steps i d0 w d w' d' : is_Some (d_inodes d0 !! i) -> hashed i d0 w d -> rtc (write_step hashing_writer) (w, d) (w', d') -> hashed i d0 w' d'.
Proof.
  intros Hi Hh Hs. remember (w, d) as a eqn:Ea. remember (w', d') as b eqn:Eb. revert w d Ea Hh.
  induction Hs as [x|x [w1 d1] z (data & e & E) _ IH]; intros w d -> Hh; [by simplify_eq|]. cbn [fst snd] in E. apply (IH Eb w1 d1 eq_refl). by eapply hashed_write.
Qed.

Section Archiving.
Context `{!GzipLib} (c : config) (i : nat) (d0 : disk).
Hypothesis (Hi : is_Some (d_inodes d0 !! i)).

Definition packing (s : awriter hashingWriter) : Prop := hashed i d0 (aw_dest s) (aw_disk s) /\ 0 <= ar_Objects (aw_stats s) /\ 0 <= ar_Bytes (aw_stats s).

Lemma send_packing out given s s' e : packing s -> send out given s = (s', e) -> packing s'.
Proof.
  intros [Hh Hs]. unfold send. destruct out as [|x out]; [by intros [= <- <-]|]. destruct (wr_write (x :: out) (aw_dest s) (aw_disk s)) as [[d w] e1] eqn:E.
  intros [= <- <-]. split; [|done]. by eapply hashed_write.
Qed.

Lemma gzip_write_packing x s s' e : packing s -> gzip_write x s = (s', e) -> packing s'.
Proof. intros Hp. unfold gzip_write. destruct (aw_gzip_err s); [by intros [= <- <-]|]. by apply send_packing. Qed.

Lemma gzip_close_packing s s' e : packing s -> gzip_close s = (s', e) -> packing s'.
Proof. intros Hp. unfold gzip_close. destruct (aw_gzip_err s); [by intros [= <- <-]|]. by apply send_packing. Qed.

Lemma tar_flush_packing s s' e : packing s -> tar_flush s = (s', e) -> packing s'.
Proof.
  intros Hp. unfold tar_flush. destruct (aw_tar_err s); [by intros [= <- <-]|]. destruct (0 <? aw_left s); [by intros [= <- <-]|].
  destruct (gzip_write _ s) as [s1 [e1|]] eqn:E; apply gzip_write_packing in E; try done; by intros [= <- <-].
Qed.

Lemma tar_header_packing name size s s' e : packing s -> tar_header name size s = (s', e) -> packing s'.
Proof.
  intros Hp. unfold tar_header. destruct (tar_flush s) as [s1 [e1|]] eqn:E1; apply tar_flush_packing in E1; try done; [by intros [= <- <-]|].
  destruct (negb _); [by intros [= <- <-]|]. destruct (gzip_write _ s1) as [s2 [e2|]] eqn:E2; apply gzip_write_packing in E2; try done; by intros [= <- <-].
Qed.

Lemma tar_write_packing x s s' e : packing s -> tar_write x s = (s', e) -> packing s'.
Proof.
  intros Hp. unfold tar_write. destruct (aw_tar_err s); [by intros [= <- <-]|]. cbv zeta. destruct (if aw_left s <? zlen x then _ else _) as [|y taken]; [by intros [= <- <-]|].
  destruct (gzip_write _ s) as [s1 [e1|]] eqn:E; apply gzip_write_packing in E; try done; by intros [= <- <-].
Qed.

Lemma tar_close_packing s s' e : packing s -> tar_close s = (s', e) -> packing s'.
Proof.
  intros Hp. unfold tar_close. destruct (tar_flush s) as [s1 [e1|]] eqn:E1; apply tar_flush_packing in E1; try done; [by intros [= <- <-]|].
  destruct (gzip_write _ s1) as [s2 [e2|]] eqn:E2; apply gzip_write_packing in E2; try done; [by intros [= <- <-]|]. by apply gzip_write_packing.
Qed.

Lemma run_packing {A} (m : IO A) s s' r : reading m -> packing s -> aw_run m s = (s', r) -> packing s'.
Proof.
  intros Hm [(W & F & Hh) Hs]. unfold aw_run. destruct (m (aw_disk s)) as [d x] eqn:E. apply Hm in E. intros [= <- <-]. split; [|done]. rewrite E. split_and!; [|done|done].
  destruct W. by split.
Qed.

Lemma archive_copy_packing fuel rest hs s s' r : packing s -> archive_copy fuel rest hs s = (s', r) -> packing s'.
Proof.
  revert rest hs s. induction fuel as [|fuel IH]; intros rest hs s Hp; cbn [archive_copy]; [by intros [= <- <-]|].
  assert (reading (ctx_err ;;; FileSystem.attempt)) as Hr by (apply reading_bind; auto with reading).
  destruct (aw_run _ s) as [s1 [x|e]] eqn:E1; apply (run_packing _ _ _ _ Hr Hp) in E1; [|by intros [= <- <-]].
  destruct rest as [|y rest]; [by intros [= <- <-]|]. destruct (tar_write _ s1) as [s2 [e2|]] eqn:E2; apply tar_write_packing in E2; try done; [by intros [= <- <-]|]. by apply IH.
Qed.

Lemma reading_OpenContent ref : reading (OpenContent c ref).
Proof. unfold OpenContent. destruct (relativePathForKey _); [|auto with reading]. apply reading_bind; auto with reading. Qed.

Lemma archive_object_packing ref s s' e : 0 <= SizeBytes ref -> packing s -> archive_object c ref s = (s', e) -> packing s'.
Proof.
  intros Hz Hp. unfold archive_object. destruct (aw_run ctx_err s) as [s1 [x|e1]] eqn:E1; apply (run_packing _ _ _ _ reading_ctx_err Hp) in E1; [|by intros [= <- <-]].
  destruct (relativePathForKey _) as [rel|]; [|by intros [= <- <-]]. destruct (tar_header _ _ s1) as [s2 [e2|]] eqn:E2; apply tar_header_packing in E2; try done; [by intros [= <- <-]|].
  destruct (aw_run (OpenContent c ref) s2) as [s3 [f|e3]] eqn:E3; apply (run_packing _ _ _ _ (reading_OpenContent ref) E2) in E3; [|by intros [= <- <-]]. cbv zeta.
  destruct (archive_copy _ _ _ s3) as [s4 copied] eqn:E4. apply archive_copy_packing in E4; [|done].
  destruct (aw_run close_file s4) as [s5 closed] eqn:E5. apply (run_packing _ _ _ _ reading_close E4) in E5.
  destruct (join _ _); [by intros [= <- <-]|]. destruct copied as [written|e6]; [|by intros [= <- <-]]. do 2 (case_match; [by intros [= <- <-]|]). intros [= <- <-].
  destruct E5 as (Hh & G1 & G2). split; [done|]. cbn [aw_stats ar_Objects ar_Bytes]. pose proof (zlen_nonneg written). lia.
Qed.

Lemma walk_packing l s s' e : packing s -> visit_all (walk_entry c (@aw_run hashingWriter) aw_disk (archive_object c)) l s = (s', e) -> packing s'.
Proof.
  revert s. induction l as [|[parts n] l IH]; intros s Hp; cbn [visit_all]; [by intros [= <- <-]|].
  destruct (walk_entry _ _ _ _ _ s) as [s1 e1] eqn:E1. assert (packing s1) as H1; [|destruct e1; [by intros [= <- <-]|by apply IH]]. revert E1. unfold walk_entry.
  destruct (aw_run ctx_err s) as [s2 [x|e2]] eqn:E2; apply (run_packing _ _ _ _ reading_ctx_err Hp) in E2; [|by intros [= <- <-]].
  destruct n as [j|].
  - destruct parts as [|a [|b [|digest [|? ?]]]]; try by intros [= <- <-]. case_match; [by intros [= <- <-]|]. destruct (relativePathForKey _); [|by intros [= <- <-]].
    destruct (aw_run (stat _) s2) as [s3 [n|e3]] eqn:E3; apply (run_packing _ _ _ _ (reading_stat _) E2) in E3; [|by intros [= <- <-]].
    apply archive_object_packing; [apply zlen_nonneg|done].
  - case_match; [by intros [= <- <-]|]. destruct (aw_run FileSystem.attempt s2) as [s3 [x'|e3]] eqn:E3; apply (run_packing _ _ _ _ reading_attempt E2) in E3; by intros [= <- <-].
Qed.

Lemma write_archive_packing s e : data_of d0 i = [] -> WriteArchive c d0 (HashingWriter i []) = (s, e) -> packing s.
Proof.
  intros He. unfold WriteArchive. set (s0 := AWriter _ _ _ _ _ _ _ _). assert (packing s0) as H0 by (split; [split_and!; done|done]).
  destruct (walkObjects _ _ _ _ s0) as [s1 e1] eqn:E1. assert (packing s1) as H1.
  { revert E1. unfold walkObjects. destruct (aw_run (stat _) s0) as [s2 [n|e2]] eqn:E2; apply (run_packing _ _ _ _ (reading_stat _) H0) in E2; [|by intros [= <- <-]].
    destruct (aw_run ctx_err s2) as [s3 [x|e3]] eqn:E3; apply (run_packing _ _ _ _ reading_ctx_err E2) in E3; [|by intros [= <- <-]].
    destruct (aw_run FileSystem.attempt s3) as [s4 [x'|e4]] eqn:E4; apply (run_packing _ _ _ _ reading_attempt E3) in E4; [|by intros [= <- <-]]. by apply walk_packing. }
  destruct (tar_close s1) as [s2 e2] eqn:E2. apply tar_close_packing in E2; [|done]. destruct (gzip_close s2) as [s3 e3] eqn:E3. apply gzip_close_packing in E3; [|done]. by intros [= <- <-].
Qed.
End Archiving.

(** ** Components *)

Lemma finish_component_spec {A} i (r : res A) d d' x : finish_component i r d = (d', x) ->
  writes i d d' /\ forall a, x = Ok a -> r = Ok a /\ (is_Some (d_inodes d !! i) -> staged d' i (data_of d i)).
Proof.
  unfold finish_component. destruct (sync_file i d) as [d1 synced] eqn:E1. apply sync_file_spec in E1 as [W1 H1].
  destruct (close_file d1) as [d2 closed] eqn:E2. apply (close_file_writes _ _ _ i) in E2 as [W2 I2]. intros E.
  assert (d' = d2) as -> by (by destruct (join _ _); injection E). split; [by etrans|]. intros a ->.
  destruct r as [b|e], synced as [[]|e'], closed as [[]|e'']; try done. injection E as ->. split; [done|]. intros Hi.
  destruct (H1 Hi eq_refl) as (f & Hf & Gd & Gs). exists f. by rewrite I2.
Qed.

(** From the creation of a file to its end. *)
Lemma component_file {A} p i w (r : res A) d d1 d2 d3 a :
  create_file p d = (d1, Ok i) -> hashed i d1 w d2 -> finish_component i r d2 = (d3, Ok a) -> r = Ok a /\ new_file p (hw_hashed w) d d3.
Proof.
  intros (Hn & Hd & -> & T1 & D1 & N1 & f & I1 & F1)%create_file_ok (W & _ & Hh) [W2 H2]%finish_component_spec.
  assert (is_Some (d_inodes d1 !! d_next d)) as Hs1 by (rewrite I1, lookup_insert_eq; by eexists). destruct (H2 a eq_refl) as [-> Hst]. split; [done|].
  assert (writes (d_next d) d1 d3) as [T D N O _] by by etrans. split; [done|done|congruence..| |].
  - intros j Hj. rewrite O, I1 by done. by rewrite lookup_insert_ne.
  - rewrite Hh. apply Hst. by apply (wr_inode _ _ _ W).
Qed.

Lemma create_hashed p d d1 i : create_file p d = (d1, Ok i) -> is_Some (d_inodes d1 !! i) /\ data_of d1 i = [] /\ hashed i d1 (HashingWriter i []) d1.
Proof.
  intros (_ & _ & -> & _ & _ & _ & f & I1 & F1)%create_file_ok. assert (data_of d1 (d_next d) = []) as He by (unfold data_of, file_of; rewrite I1, lookup_insert_eq; done).
  split_and!; [rewrite I1, lookup_insert_eq; by eexists|done|]. by split_and!.
Qed.

Lemma within_writes r n i d d' : (n <= i)%nat -> writes i d d' -> within r n d d'.
Proof. intros Hi [T D N O _]. split; rewrite ?T, ?D, ?N; try done. intros j Hj. apply O. lia. Qed.

Lemma component_within {A} r n p i w (x : res A) d d1 d2 d3 y : (n <= d_next d)%nat -> r `suffix_of` p ->
  create_file p d = (d1, Ok i) -> hashed i d1 w d2 -> finish_component i x d2 = (d3, y) -> within r n d d3.
Proof.
  intros Hn Hp E1 (W & _) [W2 _]%finish_component_spec. pose proof (confines_create_file r n p Hp _ _ _ Hn E1). apply create_file_ok in E1 as (_ & _ & -> & _).
  etrans; [done|]. apply (within_writes _ _ (d_next d)); [lia|by etrans].
Qed.

Lemma component_described name w : described (component_of name w) (hw_hashed w) /\ cm_File (component_of name w) = name.
Proof. done. Qed.

Section Creating.
Context `{!GzipLib} `{!ManifestCodec} `{!CodecSpec _} {K : Type} `{!DatabaseDumper K} `{!DumperSpec K} (c : config) (root : path).

Lemma writeDatabase_spec n k d d' k' r : (n <= d_next d)%nat -> writeDatabase root k d = (d', k', r) ->
  within root n d d' /\ forall cm meta, r = Ok (cm, meta) -> exists data, new_file (databaseFileName :: root) data d d' /\ described cm data /\ cm_File cm = databaseFileName /\
    0 <= dm_MigrationVersion meta /\ Forall (λ s, plain s /\ trim_space s <> []) [dm_ServerVersion meta; dm_DumpVersion meta; dm_RestoreVersion meta].
Proof.
  intros Hn. unfold writeDatabase. assert (root `suffix_of` databaseFileName :: root) as Hp by by apply suffix_cons_r.
  destruct (wrap _ (create_file _) d) as [d1 [i|e]] eqn:E1.
  2:{ intros [= <- <- <-]. split; [|done]. eapply (confines_wrap root n), E1; [by apply confines_create_file|done]. }
  apply wrap_ok in E1. destruct (create_hashed _ _ _ _ E1) as (Hi & _ & Hh0).
  destruct (Dump _ _ _ k d1) as [[[d2 w] k2] dumped] eqn:E2. pose proof (hashed_steps _ _ _ _ _ _ Hi Hh0 (dump_wrote _ _ _ _ _ _ _ _ _ E2)) as Hh.
  destruct (finish_component i _ d2) as [d3 x] eqn:E3. intros [= <- <- <-]. split; [by eapply component_within|]. intros cm meta ->.
  destruct (component_file _ _ _ _ _ _ _ _ _ E1 Hh E3) as [Hr Hf]. destruct dumped as [m|]; [|done]. injection Hr as <- <-. exists (hw_hashed w).
  do 3 (split; [done|]). by eapply dump_metadata.
Qed.

Lemma writeContent_spec n d d' r : (n <= d_next d)%nat -> writeContent c root d = (d', r) ->
  within root n d d' /\ forall cm stats, r = Ok (cm, stats) -> exists data, new_file (contentFileName :: root) data d d' /\ described cm data /\ cm_File cm = contentFileName /\
    0 <= ar_Objects stats /\ 0 <= ar_Bytes stats.
Proof.
  intros Hn. unfold writeContent. assert (root `suffix_of` contentFileName :: root) as Hp by by apply suffix_cons_r.
  destruct (wrap _ (create_file _) d) as [d1 [i|e]] eqn:E1.
  2:{ intros [= <- <-]. split; [|done]. eapply (confines_wrap root n), E1; [by apply confines_create_file|done]. }
  apply wrap_ok in E1. destruct (create_hashed _ _ _ _ E1) as (Hi & He & Hh0).
  destruct (WriteArchive c d1 _) as [s archiveErr] eqn:E2. pose proof (write_archive_packing c i d1 Hi s archiveErr He E2) as (Hh & Hs).
  intros E3. split; [by eapply component_within|]. intros cm stats ->.
  destruct (component_file _ _ _ _ _ _ _ _ _ E1 Hh E3) as [Hr Hf]. destruct archiveErr as [e|]; [done|]. injection Hr as <- <-. exists (hw_hashed (aw_dest s)). by do 3 (split; [done|]).
Qed.

Lemma writeManifest_spec n m d d' r : (n <= d_next d)%nat -> writeManifest root m d = (d', r) ->
  within root n d d' /\ (r = Ok tt -> exists s, mc_encode m = Ok s /\ new_file (manifestFileName :: root) (s ++ [byte_of 10]) d d').
Proof.
  intros Hn. unfold writeManifest. destruct (mc_encode m) as [s|e]; [|by intros [= <- <-]]. assert (root `suffix_of` manifestFileName :: root) as Hp by by apply suffix_cons_r.
  unfold bind. destruct (wrap _ (create_file _) d) as [d1 [i|e]] eqn:E1.
  2:{ intros [= <- <-]. split; [|done]. eapply (confines_wrap root n), E1; [by apply confines_create_file|done]. }
  apply wrap_ok in E1. destruct (create_hashed _ _ _ _ E1) as (Hi & He & Hh0). destruct (write_file i _ d1) as [d2 written] eqn:E2.
  assert (hashed i d1 (match written with Ok _ => HashingWriter i (s ++ [byte_of 10]) | Err _ => HashingWriter i [] end) d2) as Hh.
  { destruct written; (eapply (hashed_write i d1 (HashingWriter i []) d1 (s ++ [byte_of 10])); [done|done|]); cbn [wr_write hashing_writer hw_file hw_hashed]; by rewrite E2. }
  intros E3. split; [by eapply component_within|]. intros ->. destruct (component_file _ _ _ _ _ _ _ _ _ E1 Hh E3) as [-> Hf]. by exists s.
Qed.

Lemma validate_described cm data name : described cm data -> cm_File cm = name -> validateComponent cm name = None.
Proof.
  intros [Hz Hs] Hn. unfold validateComponent. destruct (ref_of_canonical data) as [Hl Hx]. pose proof (zlen_nonneg data).
  rewrite bool_decide_eq_true_2, Hz, Hs by done. rewrite (proj2 (Z.ltb_ge _ _)), (proj2 (Z.eqb_eq _ _)) by (unfold zlen in *; lia).
  rewrite bool_decide_eq_true_2 by by apply lower_hex_lower. cbn [negb orb]. rewrite hex_decode_encode. rewrite (proj2 (Z.eqb_eq _ _)) by (unfold zlen; by rewrite sha256_length). done.
Qed.

Lemma plain_digest data : plain (hex_encode (sha256 data)).
Proof.
  destruct (ref_of_canonical data) as [Hl Hx]. split; [|unfold zlen; lia]. rewrite forallb_forall in Hx |- *. intros y Hy%Hx. unfold lower_hex, in_range in *. bool_to_prop. lia.
Qed.

(** The manifest of components that were written is valid and survives. *)
Lemma manifest_of_valid createdAt db meta ct stats dump archive :
  createdAt <> zero_time -> described db dump -> cm_File db = databaseFileName -> described ct archive -> cm_File ct = contentFileName ->
  0 <= dm_MigrationVersion meta -> Forall (λ s, plain s /\ trim_space s <> []) [dm_ServerVersion meta; dm_DumpVersion meta; dm_RestoreVersion meta] ->
  0 <= ar_Objects stats -> 0 <= ar_Bytes stats ->
  let m := manifest_of createdAt db meta ct stats in
  validateManifest m = None /\ plain_manifest m /\ mf_CreatedOffset m = 0.
Proof.
  intros Hc Hd Nd Ha Na Hm Hv Ho Hb m. rewrite !Forall_cons in Hv. destruct Hv as ([P1 T1] & [P2 T2] & [P3 T3] & _). split_and!.
  - unfold validateManifest. cbn [m manifest_of mf_Format mf_Version mf_CreatedAt mf_CreatedOffset mf_PostgreSQL mf_Database mf_Content pm_ServerVersion pm_DumpVersion pm_RestoreVersion pm_MigrationVersion cn_Component cn_Objects cn_UncompressedBytes].
    rewrite (bool_decide_eq_true_2 (formatName = formatName)), !bool_decide_eq_false_2 by done. cbn [negb orb Z.eqb formatVersion Pos.eqb].
    rewrite (proj2 (Z.ltb_ge _ _)) by lia. rewrite (validate_described db dump), (validate_described ct archive) by done. by rewrite !(proj2 (Z.ltb_ge _ _)) by lia.
  - destruct Hd as [_ Sd], Ha as [_ Sa]. assert (plain formatName /\ plain databaseFileName /\ plain contentFileName) as (? & ? & ?) by (split_and!; by vm_compute).
    unfold plain_manifest. cbn [m manifest_of mf_Format mf_PostgreSQL mf_Database mf_Content pm_ServerVersion pm_DumpVersion pm_RestoreVersion cn_Component].
    rewrite Nd, Na, Sd, Sa. pose proof (plain_digest dump). pose proof (plain_digest archive). by do 7 (split; [done|]).
  - done.
Qed.

Lemma staged_data d i data : staged d i data -> data_of d i = data.
Proof. intros (f & Hf & Hd & _). unfold data_of, file_of. by rewrite Hf. Qed.

(** Everything in the directory is on the medium. *)
Definition synced_files (d : disk) (r : path) : Prop := forall name n, d_tree d !! (name :: r) = Some n -> exists i data, n = NFile i /\ staged d i data.

(** A component stays while others are added. *)
Lemma new_file_kept p q x data d d' : new_file q x d d' -> p <> q ->
  (forall i, is_Some (d_inodes d !! i) -> (i < d_next d)%nat) ->
  (exists i, d_tree d !! p = Some (NFile i) /\ staged d i data) -> exists i, d_tree d' !! p = Some (NFile i) /\ staged d' i data.
Proof.
  intros [F1 F2 F3 F4 F5 F6 F7] Hne Hn (i & Ht & f & Hf & Hs). exists i. rewrite F3, lookup_insert_ne by done. split; [done|]. exists f. rewrite F6; [done|].
  assert (i < d_next d)%nat; [apply Hn; by eexists|lia].
Qed.

Lemma new_file_bound q x d d' : new_file q x d d' -> (forall i, is_Some (d_inodes d !! i) -> (i < d_next d)%nat) -> forall i, is_Some (d_inodes d' !! i) -> (i < d_next d')%nat.
Proof.
  intros [_ _ _ _ F5 F6 _] Hn i. rewrite F5. destruct (decide (i = d_next d)) as [->|Hi]; [lia|]. rewrite F6 by done. intros Hx%Hn. lia.
Qed.

Lemma new_file_there q x d d' : new_file q x d d' -> exists i, d_tree d' !! q = Some (NFile i) /\ staged d' i x.
Proof. intros [_ _ F3 _ _ _ F7]. exists (d_next d). split; [by rewrite F3, lookup_insert_eq|done]. Qed.

Lemma names_apart : databaseFileName <> contentFileName /\ databaseFileName <> manifestFileName /\ contentFileName <> manifestFileName.
Proof. split_and!; apply (bool_decide_unpack _); vm_compute; exact I. Qed.

(** The filled directory is a bundle. *)
Lemma filled_bundle createdAt db meta ct stats dump archive s d1 d2 d3 d4 (m := manifest_of createdAt db meta ct stats) :
  d_tree d1 !! root = Some NDir -> (forall name, d_tree d1 !! (name :: root) = None) -> (forall i, is_Some (d_inodes d1 !! i) -> (i < d_next d1)%nat) ->
  new_file (databaseFileName :: root) dump d1 d2 -> new_file (contentFileName :: root) archive d2 d3 -> new_file (manifestFileName :: root) (s ++ [byte_of 10]) d3 d4 ->
  validateManifest m = None -> plain_manifest m -> mf_CreatedOffset m = 0 -> mc_encode m = Ok s -> described db dump -> described ct archive ->
  holds_bundle d4 root m /\ synced_files d4 root.
Proof.
  intros Hr Hnone B1 N2 N3 N4 Hv Hp Ho He Hd Ha. destruct names_apart as (A1 & A2 & A3). destruct (mc_roundtrip m s He Ho Hp) as [Hm Hz].
  pose proof (new_file_bound _ _ _ _ N2 B1) as B2. pose proof (new_file_bound _ _ _ _ N3 B2) as B3.
  pose proof (new_file_kept (databaseFileName :: root) _ _ _ _ _ N4 ltac:(congruence) B3 (new_file_kept (databaseFileName :: root) _ _ _ _ _ N3 ltac:(congruence) B2 (new_file_there _ _ _ _ N2))) as (i1 & T1 & S1).
  pose proof (new_file_kept (contentFileName :: root) _ _ _ _ _ N4 ltac:(congruence) B3 (new_file_there _ _ _ _ N3)) as (i2 & T2 & S2).
  pose proof (new_file_there _ _ _ _ N4) as (i3 & T3 & S3).
  assert (forall name n, d_tree d4 !! (name :: root) = Some n -> name = manifestFileName \/ name = databaseFileName \/ name = contentFileName) as Honly.
  { intros name n. rewrite (nf_tree _ _ _ _ N4), (nf_tree _ _ _ _ N3), (nf_tree _ _ _ _ N2). rewrite !lookup_insert_Some. intros [[[= <-] _]|[_ [[[= <-] _]|[_ [[[= <-] _]|[_ Hx]]]]]]; auto.
    by rewrite Hnone in Hx. }
  split.
  - split; [|done|..].
    + rewrite (nf_tree _ _ _ _ N4), (nf_tree _ _ _ _ N3), (nf_tree _ _ _ _ N2), !lookup_insert_ne by (intros E%(f_equal length); cbn in E; lia). done.
    + exists (s ++ [byte_of 10]). split_and!; [exists i3; split; [done|by apply staged_data]|rewrite zlen_app, zlen_cons, zlen_nil; lia|done].
    + done.
    + exists dump. split; [exists i1; split; [done|by apply staged_data]|done].
    + exists archive. split; [exists i2; split; [done|by apply staged_data]|done].
  - intros name n Hx. destruct (Honly name n Hx) as [->|[->| ->]]; simplify_eq; eauto.
Qed.
End Creating.

(** ** Publishing *)

Lemma holds_moved `{!ManifestCodec} src dst d d' m : (forall k, d_tree d' !! (k ++ dst) = d_tree d !! (k ++ src)) -> d_inodes d' = d_inodes d ->
  holds_bundle d src m -> holds_bundle d' dst m.
Proof.
  intros Ht Hi [H1 H2 (text & (i & T1 & D1) & Hz & Hm) Hv (dump & (i2 & T2 & D2) & Hd) (archive & (i3 & T3 & D3) & Ha)].
  assert (forall name, d_tree d' !! (name :: dst) = d_tree d !! (name :: src)) as Ht1 by (intros name; apply (Ht [name])).
  assert (forall j, data_of d' j = data_of d j) as Hdata by (intros j; unfold data_of, file_of; by rewrite Hi).
  split.
  - rewrite <- H1. apply (Ht []).
  - intros name n. rewrite Ht1. apply H2.
  - exists text. split_and!; [exists i; split; [by rewrite Ht1|by rewrite Hdata]|done|done].
  - done.
  - exists dump. split; [exists i2; split; [by rewrite Ht1|by rewrite Hdata]|done].
  - exists archive. split; [exists i3; split; [by rewrite Ht1|by rewrite Hdata]|done].
Qed.

Lemma synced_moved src dst d d' : (forall k, d_tree d' !! (k ++ dst) = d_tree d !! (k ++ src)) -> d_inodes d' = d_inodes d -> synced_files d src -> synced_files d' dst.
Proof.
  intros Ht Hi Hs name n. assert (d_tree d' !! (name :: dst) = d_tree d !! (name :: src)) as Ht1 by apply (Ht [name]). rewrite Ht1. intros (j & data & -> & Hst)%Hs. exists j, data. split; [done|]. unfold staged. by rewrite Hi.
Qed.

Lemma holds_same `{!ManifestCodec} r d d' m : d_tree d' = d_tree d -> d_inodes d' = d_inodes d -> holds_bundle d r m -> holds_bundle d' r m.
Proof. intros T I. apply holds_moved; [|done]. intros k. by rewrite T. Qed.

Lemma synced_same r d d' : d_tree d' = d_tree d -> d_inodes d' = d_inodes d -> synced_files d r -> synced_files d' r.
Proof. intros T I. apply synced_moved; [|done]. intros k. by rewrite T. Qed.

Lemma rename_ok src dst d d' u : rename src dst d = (d', Ok u) ->
  d_tree d' = move_tree src dst (d_tree d) /\ d_durable d' = move_durable src dst (d_durable d) /\ d_inodes d' = d_inodes d /\ d_next d' = d_next d.
Proof.
  intros (d1 & ? & Ea & Hz)%bind_ok. destruct (quiet_writes_attempt _ _ _ 0 Ea) as [[T D N _ _] I]. destruct (_ || _); [done|].
  destruct (d_tree d1 !! dst); [done|]. injection Hz as <- _. cbn. by rewrite T, D, I, N.
Qed.

Lemma rename_err src dst d d' e : rename src dst d = (d', Err e) -> d_tree d' = d_tree d /\ d_durable d' = d_durable d /\ d_inodes d' = d_inodes d /\ d_next d' = d_next d.
Proof.
  intros [(d1 & Ea & Hz)|(x & Ea & _)]%bind_attempt; destruct (quiet_writes_attempt _ _ _ 0 Ea) as [[T D N _ _] I]; [|done].
  destruct (_ || _); [by injection Hz as <- _|]. destruct (d_tree d1 !! dst); [by injection Hz as <- _|done].
Qed.

Lemma sync_directory_same p d d' x : syncDirectory p d = (d', x) -> d_tree d' = d_tree d /\ d_inodes d' = d_inodes d /\ d_next d' = d_next d.
Proof. by intros (I & N & T)%looks_syncDirectory. Qed.

Lemma move_durable_dst (src dst : path) (t : gmap path node) (k : list bytes) (n : node) : ~ src `suffix_of` dst -> ~ dst `suffix_of` src -> k <> [] ->
  t !! (k ++ src) = Some n -> move_durable src dst t !! (k ++ dst) = Some n.
Proof.
  intros H1 H2 Hk Ht. unfold move_durable. apply lookup_union_Some_l. rewrite move_tree_dst.
  - apply map_lookup_filter_Some. split; [done|]. cbn. split; [by eexists|]. intros E%(f_equal length). rewrite length_app in E. destruct k; [done|]. cbn in E. lia.
  - intros q Hq. apply map_lookup_filter_None. right. intros x _ [Hs _]. cbn in Hs. by destruct (suffix_weak_total _ _ _ Hs Hq).
Qed.

Section Publishing.
Context `{!GzipLib} `{!ManifestCodec} `{!CodecSpec _} {K : Type} `{!DatabaseDumper K} `{!DumperSpec K} (c : config) (src dst : path).
Hypothesis (Hsrc : ~ src `suffix_of` dst) (Hdst : ~ dst `suffix_of` src).

(** Names outside of the two directories, and old files, stay. *)
Definition apart (n : nat) (d d' : disk) : Prop :=
  (forall q, ~ src `suffix_of` q -> ~ dst `suffix_of` q -> d_tree d' !! q = d_tree d !! q) /\
  (forall j, (j < n)%nat -> d_inodes d' !! j = d_inodes d !! j).

#[global] Instance apart_preorder n : PreOrder (apart n).
Proof.
  split; [by intros d|]. intros d1 d2 d3 [T1 I1] [T2 I2]. split; intros; [rewrite T2, T1 by done; done|rewrite I2, I1 by done; done].
Qed.

Lemma apart_within n d d' : within src n d d' -> apart n d d'.
Proof. intros [T _ I _ _]. split; [|done]. intros q Hq _. by apply T. Qed.

Lemma apart_same n d d' : d_tree d' = d_tree d -> d_inodes d' = d_inodes d -> apart n d d'.
Proof. intros T I. split; intros; [by rewrite T|by rewrite I]. Qed.

(** The bundle is on the medium, its name included. *)
Definition durable_bundle (d : disk) (root : path) : Prop :=
  stable d root NDir /\ synced_files d root /\ forall name n, d_tree d !! (name :: root) = Some n -> d_durable d !! (name :: root) = Some n.

(** The destination has nothing, or a complete bundle. *)
Definition whole (d : disk) : Prop := (forall q, dst `suffix_of` q -> d_tree d !! q = None) \/ exists m, holds_bundle d dst m.

Lemma suffix_both (q : path) : src `suffix_of` q -> ~ dst `suffix_of` q.
Proof. intros H1 H2. by destruct (suffix_weak_total _ _ _ H1 H2). Qed.

Lemma whole_within n d d' : within src n d d' -> d_inodes d' = d_inodes d -> whole d -> whole d'.
Proof.
  intros W I [Hn|[m Hm]]; [left|right].
  - intros q Hq. rewrite (wi_tree _ _ _ _ W); [by apply Hn|]. intros Hs. by apply (suffix_both q).
  - exists m. eapply holds_moved; [|exact I|exact Hm]. intros k. apply (wi_tree _ _ _ _ W). intros Hs. apply (suffix_both _ Hs). by eexists.
Qed.

(** The move, and back. *)
Lemma rename_published d d' u m : (forall q, dst `suffix_of` q -> d_tree d !! q = None) -> rename src dst d = (d', Ok u) ->
  holds_bundle d src m -> synced_files d src -> (forall name n, d_tree d !! (name :: src) = Some n -> d_durable d !! (name :: src) = Some n) ->
  holds_bundle d' dst m /\ synced_files d' dst /\ (forall name n, d_tree d' !! (name :: dst) = Some n -> d_durable d' !! (name :: dst) = Some n) /\
  (forall q, src `suffix_of` q -> d_tree d' !! q = None) /\ forall n, apart n d d'.
Proof.
  intros Hfree (T & D & I & N)%rename_ok Hb Hs Hd.
  assert (forall k, d_tree d' !! (k ++ dst) = d_tree d !! (k ++ src)) as Hmove by (intros k; rewrite T; by apply move_tree_dst).
  split_and!.
  - by eapply holds_moved.
  - by eapply synced_moved.
  - intros name n Hx. rewrite D. apply (move_durable_dst src dst _ [name]); [done..|]. apply Hd. rewrite <- Hx. symmetry. apply (Hmove [name]).
  - intros q [k ->]. rewrite T. apply move_tree_src; [done|]. apply suffix_both. by eexists.
  - intros n. split; intros q Hq; [intros Hq'; rewrite T; by apply move_tree_other|by rewrite I].
Qed.

Lemma rename_back n d d' x m : (forall q, src `suffix_of` q -> d_tree d !! q = None) -> rename dst src d = (d', x) -> holds_bundle d dst m ->
  apart n d d' /\ whole d'.
Proof.
  intros Hfree E Hb. destruct x as [u|e].
  - apply rename_ok in E as (T & D & I & N). split; [split; intros q Hq; [intros Hq'; rewrite T; by apply move_tree_other|by rewrite I]|].
    left. intros q [k ->]. rewrite T. apply move_tree_src; [done|]. intros Hq. apply (suffix_both _ Hq). by eexists.
  - apply rename_err in E as (T & D & I & N). split; [by apply apart_same|]. right. exists m. by eapply holds_same.
Qed.

Lemma publish_spec n m d d' r :
  (n <= d_next d)%nat -> (forall q, dst `suffix_of` q -> d_tree d !! q = None) ->
  (forall s d1, mc_encode m = Ok s -> new_file (manifestFileName :: src) (s ++ [byte_of 10]) d d1 -> holds_bundle d1 src m /\ synced_files d1 src) ->
  publish src dst m d = (d', r) ->
  apart n d d' /\ match r with Ok m' => m' = m /\ holds_bundle d' dst m /\ durable_bundle d' dst | Err _ => whole d' end.
Proof.
  intros Hn Hfree Hfill. unfold publish. destruct (writeManifest src m d) as [d1 written] eqn:E1. apply (writeManifest_spec src n) in E1 as [W1 H1]; [|done].
  destruct (FileSystem.attempt d1) as [d2 closed] eqn:E2. destruct (quiet_writes_attempt _ _ _ 0 E2) as [[T2 D2 N2 _ _] I2].
  assert (forall q, dst `suffix_of` q -> d_tree d2 !! q = None) as F2.
  { intros q Hq. rewrite T2, (wi_tree _ _ _ _ W1); [by apply Hfree|]. intros Hs. by apply (suffix_both q). }
  assert (apart n d d2) as A2 by (etrans; [by apply apart_within|by apply apart_same]).
  destruct (join _ _) eqn:Ej; [intros [= <- <-]; split; [done|by left]|]. destruct written as [[]|]; [|by destruct closed]. destruct closed as [[]|]; [|done]. clear Ej.
  destruct (H1 eq_refl) as (s & Es & Hnew). destruct (Hfill s d1 Es Hnew) as [B1 S1].
  assert (holds_bundle d2 src m /\ synced_files d2 src) as [B2 S2] by (split; [by eapply holds_same|by eapply synced_same]).
  unfold bind at 1, wrap at 1. destruct (syncDirectory src d2) as [d3 [[]|e3]] eqn:E3; pose proof (sync_directory_same _ _ _ _ E3) as (T3 & I3 & N3).
  2:{ intros [= <- <-]. split; [etrans; [done|by apply apart_same]|]. left. intros q Hq. rewrite T3. by apply F2. }
  apply syncDirectory_ok in E3 as (_ & _ & K3 & _). assert (apart n d d3) as A3 by (etrans; [done|by apply apart_same]).
  assert (holds_bundle d3 src m /\ synced_files d3 src) as [B3 S3] by (split; [by eapply holds_same|by eapply synced_same]).
  unfold bind at 1, wrap at 1. destruct (rename src dst d3) as [d4 [[]|e4]] eqn:E4.
  2:{ intros [= <- <-]. apply rename_err in E4 as (T4 & D4 & I4 & N4). split; [etrans; [done|by apply apart_same]|]. left. intros q Hq. rewrite T4, T3. by apply F2. }
  assert (forall q, dst `suffix_of` q -> d_tree d3 !! q = None) as F3 by (intros q Hq; rewrite T3; by apply F2).
  assert (forall name nd, d_tree d3 !! (name :: src) = Some nd -> d_durable d3 !! (name :: src) = Some nd) as P3 by (intros name nd Hx; rewrite K3 by done; by rewrite <- T3).
  destruct (rename_published d3 d4 tt m F3 E4 B3 S3 P3) as (B4 & S4 & P4 & F4 & A4).
  assert (apart n d d4) as A04 by (etrans; [done|apply A4]).
  destruct (syncDirectory (dir dst) d4) as [d5 [[]|e5]] eqn:E5; pose proof (sync_directory_same _ _ _ _ E5) as (T5 & I5 & N5).
  - intros [= <- <-]. apply syncDirectory_ok in E5 as (_ & _ & K5 & K5'). split; [etrans; [done|by apply apart_same]|]. split; [done|].
    assert (dst <> []) as Hne by (intros E; apply Hdst; rewrite E; apply suffix_nil).
    split; [by eapply holds_same|]. split_and!.
    + split; [rewrite T5; apply B4|]. rewrite K5 by done. apply B4.
    + by eapply synced_same.
    + intros name nd. rewrite T5. intros Hx. rewrite K5'; [done|]. rewrite Hx. by apply P4.
  - destruct (rename dst src d5) as [d6 x6] eqn:E6. destruct (syncDirectory (dir dst) d6) as [d7 x7] eqn:E7. apply sync_directory_same in E7 as (T7 & I7 & N7). intros [= <- <-].
    destruct (rename_back n d5 d6 x6 m) as [A6 W6]; [intros q Hq; rewrite T5; by apply F4|done|by eapply holds_same|].
    split; [etrans; [exact A04|]; etrans; [by apply apart_same|]; etrans; [exact A6|by apply apart_same]|].
    destruct W6 as [Hq|[m' Hm]]; [left; intros q; rewrite T7; apply Hq|right; exists m']. by eapply holds_same.
Qed.

Lemma free_within n d d' : within src n d d' -> (forall q, dst `suffix_of` q -> d_tree d !! q = None) -> forall q, dst `suffix_of` q -> d_tree d' !! q = None.
Proof. intros W Hf q Hq. rewrite (wi_tree _ _ _ _ W); [by apply Hf|]. intros Hs. by apply (suffix_both q). Qed.

Lemma fill_partial_spec n createdAt k d d' k' r :
  (n <= d_next d)%nat -> (forall i, is_Some (d_inodes d !! i) -> (i < d_next d)%nat) -> createdAt <> zero_time ->
  (forall q, dst `suffix_of` q -> d_tree d !! q = None) -> d_tree d !! src = Some NDir -> (forall name, d_tree d !! (name :: src) = None) ->
  fill_partial c src dst createdAt k d = (d', k', r) ->
  apart n d d' /\ match r with Ok m => mf_CreatedAt m = createdAt /\ holds_bundle d' dst m /\ durable_bundle d' dst | Err _ => whole d' end.
Proof.
  intros Hn Hb Hc Hfree Hdir Hnone. unfold fill_partial.
  destruct (wrap _ FileSystem.attempt d) as [d1 x1] eqn:E1. assert (FileSystem.attempt d = (d1, match x1 with Ok _ => Ok tt | Err _ => (FileSystem.attempt d).2 end)) as Ea.
  { unfold wrap in E1. by destruct (FileSystem.attempt d) as [d2 [[]|]]; injection E1 as <- <-. }
  destruct (quiet_writes_attempt _ _ _ 0 Ea) as [[T1 D1 N1 _ _] I1]. assert (apart n d d1) as A1 by by apply apart_same.
  destruct x1 as [u|e]; [|intros [= <- <- <-]; split; [done|]; left; intros q; rewrite T1; apply Hfree].
  destruct (writeDatabase src k d1) as [[d2 k2] x2] eqn:E2. apply (writeDatabase_spec src n) in E2 as [W2 H2]; [|lia]. assert (apart n d d2) as A2 by (etrans; [done|by apply apart_within]).
  assert (forall q, dst `suffix_of` q -> d_tree d1 !! q = None) as F1 by (intros q; rewrite T1; apply Hfree). pose proof (free_within _ _ _ W2 F1) as F2.
  destruct x2 as [[db meta]|e]; [|intros [= <- <- <-]; by split; [|left]]. destruct (H2 db meta eq_refl) as (dump & New2 & Ddb & Ndb & Hmig & Hver).
  destruct (writeContent c src d2) as [d3 x3] eqn:E3. apply (writeContent_spec c src n) in E3 as [W3 H3]; [|destruct W2; lia]. assert (apart n d d3) as A3 by (etrans; [done|by apply apart_within]).
  pose proof (free_within _ _ _ W3 F2) as F3. destruct x3 as [[ct stats]|e]; [|intros [= <- <- <-]; by split; [|left]]. destruct (H3 ct stats eq_refl) as (archive & New3 & Dct & Nct & Ho & Hby).
  destruct (manifest_of_valid createdAt db meta ct stats dump archive) as (V & P & O); try done.
  destruct (publish src dst _ d3) as [d4 x4] eqn:E4. apply (publish_spec n) in E4 as [A4 R4]; [|destruct W2, W3; lia|done|].
  - intros [= <- <- <-]. split; [by etrans|]. destruct x4 as [m|e]; [|done]. by destruct R4 as (-> & ? & ?).
  - intros s d5 Es New5. eapply (filled_bundle src createdAt db meta ct stats dump archive s d1 d2 d3 d5); try done; rewrite ?T1, ?I1, ?N1; done.
Qed.
End Publishing.

Lemma partial_apart destination random partial : destination <> [] -> partialPath destination random = Ok partial ->
  ~ partial `suffix_of` destination /\ ~ destination `suffix_of` partial /\ dir partial = dir destination.
Proof.
  intros Hne. unfold partialPath. destruct (zlen random <? 8); [done|]. destruct destination as [|name parent]; [done|]. intros [= <-]. cbn [dir tail head default]. split_and!; [..|done].
  all: intros Hs; apply suffix_length_eq in Hs; [|cbn; lia]; injection Hs as Hs; apply (f_equal length) in Hs; cbn in Hs; rewrite !length_app in Hs; cbn in Hs; lia.
Qed.

(** A call that fails does not pretend that a name is missing. *)
Definition truthful (d : disk) : Prop := forall e, Some e ∈ d_oracle d -> errors_is e OsErrNotExist = false.

Lemma inspect_destination_spec destination d d' r : truthful d -> inspect_destination destination d = (d', r) ->
  d_tree d' = d_tree d /\ d_inodes d' = d_inodes d /\ d_next d' = d_next d /\ (r = Ok tt -> d_tree d !! destination = None /\ d_tree d !! dir destination = Some NDir).
Proof.
  intros Hh. unfold inspect_destination. destruct (stat destination d) as [d1 [n|e]] eqn:E1; pose proof (reading_stat _ _ _ _ E1) as R1; [by intros [= <- <-]; rewrite R1|].
  destruct (errors_is e _) eqn:Ee; cbn [negb]; [|by intros [= <- <-]; rewrite R1]. destruct (stat (dir destination) d1) as [d2 x2] eqn:E2. pose proof (reading_stat _ _ _ _ E2) as R2. intros E.
  assert (d' = d2) as -> by (by destruct x2 as [[]|]; injection E). assert (d_tree d1 = d_tree d) as T1 by (by rewrite R1). rewrite R2, R1. split_and!; [done..|].
  intros ->. destruct x2 as [[i|]|]; try done. apply stat_ok in E2. rewrite T1 in E2. split; [|done]. clear E.
  apply bind_attempt in E1 as [(d3 & Ea & Hz)|(x & Ea & [= <-])]; [apply attempt_tree in Ea as [<- _]; by destruct (d_tree d3 !! destination)|].
  unfold FileSystem.attempt in Ea. destruct (d_oracle d) as [|[e'|] l] eqn:El; try done. injection Ea as _ <-. rewrite Hh in Ee; [done|]. rewrite El. by left.
Qed.

Section Created.
Context `{!GzipLib} `{!ManifestCodec} `{!CodecSpec _} {K : Type} `{!DatabaseDumper K} `{!DumperSpec K}.

(** C9: a backup is published whole or not at all.  Whatever fails, [Create]
    touches nothing but the destination and the partial directory beside it.
    When it returns a manifest, the destination was free before and is now a
    complete bundle, on the medium with its name.  When it returns an error, the
    destination is as it was, or, when the publication could not be taken back,
    a complete bundle: never a part of one. *)
Theorem create_atomic (c : config) destination createdAt random (k k' : K) d d' r :
  truthful d -> closed (dir destination) (d_tree d) -> (forall i, is_Some (d_inodes d !! i) -> (i < d_next d)%nat) ->
  Create c destination createdAt random k d = (d', k', r) ->
  (forall q, ~ destination `suffix_of` q -> (forall partial, partialPath destination random = Ok partial -> ~ partial `suffix_of` q) -> d_tree d' !! q = d_tree d !! q) /\
  (forall i, (i < d_next d)%nat -> d_inodes d' !! i = d_inodes d !! i) /\
  match r with
  | Ok m => d_tree d !! destination = None /\ mf_CreatedAt m = createdAt /\ holds_bundle d' destination m /\ durable_bundle d' destination
  | Err _ => (forall q, destination `suffix_of` q -> d_tree d' !! q = d_tree d !! q) \/ exists m, holds_bundle d' destination m
  end.
Proof.
  intros Hh Hcl Hb. unfold Create. destruct (bool_decide _) eqn:Ez; [intros [= <- <- <-]; split_and!; auto|]. apply bool_decide_eq_false in Ez.
  destruct (inspect_destination destination d) as [d1 [[]|e]] eqn:E1; apply inspect_destination_spec in E1 as (T1 & I1 & N1 & H1); try done.
  2:{ intros [= <- <- <-]. rewrite T1, I1. split_and!; auto. }
  destruct (H1 eq_refl) as [Hdst Hdir]. assert (destination <> []) as Hne by (intros ->; cbn in Hdir; congruence).
  destruct (partialPath destination random) as [src|e] eqn:Ep; [|intros [= <- <- <-]; rewrite T1, I1; split_and!; auto].
  destruct (partial_apart _ _ _ Hne Ep) as (A1 & A2 & Hdp). assert (forall q, destination `suffix_of` q -> d_tree d1 !! q = None) as F1.
  { intros q Hq. rewrite T1. destruct (decide (q = destination)) as [->|Hqd]; [done|]. apply (nothing_inside destination); [|intros name|done].
    - intros p [Hp1 Hp2] Hs. apply Hcl; [|done]. split; [etrans; [|done]; destruct destination; [done|]; by apply suffix_cons_r|]. intros ->.
      apply suffix_length in Hp1. destruct destination; [done|]. cbn in Hp1. lia.
    - destruct (d_tree d !! (name :: destination)) as [n|] eqn:En; [|done]. assert (d_tree d !! destination = Some NDir); [|congruence].
      apply (Hcl (name :: destination)); [|by eexists]. split; [destruct destination; [done|]; cbn; by do 2 apply suffix_cons_r|]. intros E%(f_equal length). destruct destination; [done|]. cbn in E. lia. }
  pose proof (confines_wrap src (d_next d) (EWrap "create partial backup directory") _ (confines_mkdir (MkConfig src 0 0) (d_next d) src ltac:(done))) as Cm.
  destruct (wrap _ (mkdir src) d1) as [d2 x2] eqn:E2. pose proof (Cm d1 _ _ ltac:(lia) E2) as W2. clear Cm.
  assert (apart src destination (d_next d) d d2) as B2 by (etrans; [by apply apart_same|by apply apart_within]).
  pose proof (free_within src destination A1 A2 _ _ _ W2 F1) as F2.
  assert (forall x, apart src destination (d_next d) d x -> (forall q, ~ destination `suffix_of` q -> (forall partial, Ok src = Ok (E:=goerr) partial -> ~ partial `suffix_of` q) -> d_tree x !! q = d_tree d !! q) /\
    (forall i, (i < d_next d)%nat -> d_inodes x !! i = d_inodes d !! i)) as Hap by (intros x [Ha1 Ha2]; split; [intros q Hq1 Hq2; apply Ha1; [by apply Hq2|done]|done]).
  assert (forall q, destination `suffix_of` q -> d_tree d !! q = None) as F0 by (intros q Hq; rewrite <- T1; by apply F1).
  destruct x2 as [u|e]; [|intros [= <- <- <-]; split; [by apply Hap|]; split; [by apply Hap|]; left; intros q Hq; rewrite F2, F0; done].
  apply wrap_ok, mkdir_ok in E2 as (Hs & T2 & I2 & N2). destruct (fill_partial c src destination createdAt k d2) as [[d3 k3] x3] eqn:E3.
  apply (fill_partial_spec c src destination A1 A2 (d_next d)) in E3 as [B3 R3]; [|lia|by rewrite I2, N2, I1, N1|done|done|by rewrite T2, lookup_insert_eq|].
  2:{ intros name. rewrite T2, lookup_insert_ne by (intros E%(f_equal length); cbn in E; lia). destruct (d_tree d1 !! (name :: src)) as [n|] eqn:En; [|done].
      assert (d_tree d !! src = Some NDir); [|congruence]. apply (Hcl (name :: src)); [|rewrite <- T1; by eexists]. rewrite <- Hdp. assert (src <> []) as Hsn by (intros ->; apply A1, suffix_nil).
      split; [destruct src; [done|]; cbn; by do 2 apply suffix_cons_r|]. intros E%(f_equal length). destruct src; [done|]. cbn in E. lia. }
  destruct x3 as [m|e].
  - intros [= <- <- <-]. split; [apply Hap; by etrans|]. split; [apply Hap; by etrans|]. by split.
  - destruct (remove_all src d3) as [d4 e4] eqn:E4. apply (remove_all_spec src (d_next d)) in E4 as (W4 & I4 & _). intros [= <- <- <-].
    assert (apart src destination (d_next d) d d4) as B4 by (etrans; [exact B2|]; etrans; [exact B3|by apply apart_within]). split; [by apply Hap|]. split; [by apply Hap|].
    destruct (whole_within src destination A1 A2 (d_next d) d3 d4 W4 I4 R3) as [Hq|Hm]; [left; intros q Hq'; rewrite Hq, F0; done|by right].
Qed.
End Created.

(** ** Restoring *)

(** What is installed moves with its root. *)
Lemma installed_moved c c' d d' l :
  (forall k, d_tree d' !! (k ++ root c') = d_tree d !! (k ++ root c)) ->
  (forall k n, k <> [] -> d_durable d !! (k ++ root c) = Some n -> d_durable d' !! (k ++ root c') = Some n) ->
  d_inodes d' = d_inodes d -> d_next d' = d_next d -> installed c d l -> installed c' d' l.
Proof.
  intros Ht Hd Hi Hn [Hk Ho Hu Hb].
  assert (forall key p, pathForKey c key = Ok p -> exists k, p = k ++ root c /\ pathForKey c' key = Ok (k ++ root c')) as Hp.
  { intros key p. unfold pathForKey. destruct (relativePathForKey key) as [rel|]; [|done]. intros [= <-]. exists (rel ++ [str "sha256"; str "objects"]).
    unfold objectsRoot. by rewrite <- !app_assoc. }
  assert (forall k n, k <> [] -> stable d (k ++ root c) n -> stable d' (k ++ root c') n) as Hs.
  { intros k n Hk' [H1 H2]. split; [by rewrite Ht|by apply Hd]. }
  assert (forall k : list bytes, k ++ root c <> root c -> k <> []) as Hnil by (by intros [|? ?]).
  split; [done|..|by rewrite Hi, Hn].
  - intros key data Hin. destruct (Ho key data Hin) as (-> & p & i & Hkp & Hst & Hsg & Hdirs). split; [done|]. destruct (object_below c _ _ Hkp) as [[_ Hne] _].
    destruct (Hp _ _ Hkp) as (k & -> & Hkp'). apply Hnil in Hne. exists (k ++ root c'), i. split_and!; [done|by apply Hs|unfold staged in *; by rewrite Hi|].
    intros q Hq [[j ->] Hj]. assert (j <> []) as Hjn by (by intros ->). apply Hs; [done|]. apply Hdirs; [|split; [by eexists|intros E; apply (f_equal length) in E; rewrite length_app in E; destruct j; [done|]; cbn in E; lia]].
    destruct k as [|y k]; [done|]. cbn [app dir tail] in Hq |- *. destruct Hq as [z Hz]. exists z. rewrite app_assoc in Hz |- *. apply app_inv_tail in Hz. by rewrite Hz.
  - intros p i [k ->] Htp. rewrite Ht in Htp. destruct (Hu (k ++ root c) i ltac:(by eexists) Htp) as (key & data & Hin & Hkp). exists key, data. split; [done|].
    destruct (Hp _ _ Hkp) as (k' & E & Hkp'). apply app_inv_tail in E. by subst k'.
Qed.

Section Restored.
Context `{!GzipLib} `{!TarLib} `{!ManifestCodec} {K : Type} `{!DatabaseRestorer K}.

Lemma open_components_spec root d d' r : open_components root d = (d', r) ->
  d' = set_oracle d (d_oracle d') /\ forall m archive dump, r = Ok (m, archive, dump) ->
    holds_bundle d root m /\ file_at d (contentFileName :: root) archive /\ file_at d (databaseFileName :: root) dump.
Proof.
  intros E. assert (reading (open_components root)) as Hr.
  { apply reading_bind; [apply reading_open_bundle|intros v]. do 2 (apply reading_bind; [auto with reading|intros ?]). apply (reading_look (λ d, Ok (vb_Manifest v, _, _))). }
  split; [by eapply Hr|]. intros m archive dump ->. apply bind_ok in E as (d1 & v & E1 & E). pose proof (reading_open_bundle _ _ _ _ E1) as R1. apply openVerifiedBundle_ok in E1 as [_ Hb].
  apply bind_ok in E as (d2 & i & E2%wrap_ok & E). pose proof (reading_component _ _ _ _ _ E2) as R2. apply openVerifiedComponent_ok in E2 as [T2 _].
  apply bind_ok in E as (d3 & j & E3%wrap_ok & E). pose proof (reading_component _ _ _ _ _ E3) as R3. apply openVerifiedComponent_ok in E3 as [T3 _].
  injection E as _ <- <- <-. destruct (validate_names _ (hb_valid _ _ _ Hb)) as [N1 N2]. rewrite N2 in T2. rewrite N1 in T3. split; [done|].
  assert (d_tree d1 = d_tree d /\ d_tree d2 = d_tree d /\ forall k, data_of d3 k = data_of d k) as (U1 & U2 & U3) by (rewrite R3, R2, R1; by split_and!).
  rewrite U1 in T2. rewrite U2 in T3. split; [exists i|exists j]; by rewrite U3.
Qed.

Lemma inspect_target_reading target : reading (inspect_target target).
Proof.
  intros d d' r. unfold inspect_target. destruct (match stat target d with (_, _) => _ end) as [d1 found] eqn:E1. assert (d1 = set_oracle d (d_oracle d1)) as R1.
  { destruct (stat target d) as [d2 [[i|]|e]] eqn:E2; apply reading_stat in E2; [by injection E1 as <- _| |destruct (errors_is e _); by injection E1 as <- _].
    destruct (read_dir target d2) as [d3 [[|? ?]|e]] eqn:E3; apply reading_read_dir in E3; injection E1 as <- _; by rewrite E3, E2. }
  destruct found as [b|e]; [|by intros [= <- <-]]. destruct (stat (dir target) d1) as [d2 x2] eqn:E2. apply reading_stat in E2. intros E.
  assert (d' = d2) as -> by (by destruct x2 as [[]|]; injection E). by rewrite E2, R1.
Qed.

Lemma closed_below (r q : path) (t : gmap path node) : closed r t -> r `suffix_of` q -> closed q t.
Proof.
  intros Hc Hq p [Hp Hne] Hs. apply Hc; [|done]. split; [by etrans|]. intros ->. apply Hne. by apply (anti_symm suffix).
Qed.

Lemma dir_suffix (p : path) : dir p `suffix_of` p.
Proof. destruct p; [done|]. by apply suffix_cons_r. Qed.

Lemma install_content_ok target random existed stats archive d d' u :
  closed (dir target) (d_tree d) -> (forall i, is_Some (d_inodes d !! i) -> (i < d_next d)%nat) ->
  install_content target random existed stats archive d = (d', Ok u) ->
  exists l, unpacks archive l /\ stats = stats_of l /\ installed (MkConfig target 1 0) d' l.
Proof.
  intros Hcl Hb. unfold install_content. destruct existed.
  { intros (d1 & st & E1 & E)%bind_ok. injection E as <- _. apply (restore_archive_spec (MkConfig target 1 0)) in E1 as (_ & -> & l & Hl1 & Hl2 & Hl3); [|by eapply closed_below, dir_suffix|done]. exists l. by split_and!. }
  destruct (partialPath target random) as [src|] eqn:Ep; [|done]. intros (d1 & st & E1 & E)%bind_ok.
  assert (target <> [] -> ~ src `suffix_of` target /\ ~ target `suffix_of` src /\ dir src = dir target) as Hap by (intros Hne; by eapply partial_apart).
  destruct (decide (target = [])) as [->|Hne].
  { exfalso. destruct (bind _ _ d1) as [d2 [[]|]] eqn:E2; [|by destruct (remove_all src d2)]. apply bind_ok in E2 as (d3 & ? & E3%wrap_ok & _).
    apply bind_ok in E3 as (d4 & ? & Ea & Hz). unfold is_dir in Hz. change (dir []) with ([] : path) in Hz. destruct (bool_decide (d_tree d4 !! [] = Some NDir)) eqn:Eb; [|by rewrite orb_true_r in Hz].
    apply bool_decide_eq_true in Eb. rewrite Eb in Hz. by destruct (_ || _). }
  destruct (Hap Hne) as (A1 & A2 & Hdp). clear Hap. apply (restore_archive_spec (MkConfig src 1 0)) in E1 as (W1 & -> & l & Hun & Hin & Hst); [|apply (closed_below (dir target)); [done|rewrite <- Hdp; apply dir_suffix]|done].
  destruct (bind _ _ d1) as [d2 [[]|]] eqn:E2; [|by destruct (remove_all src d2)]. injection E as <- _. apply bind_ok in E2 as (d3 & ? & E3%wrap_ok & E).
  assert (d_tree d1 !! target = None) as Hfree.
  { apply bind_ok in E3 as (d4 & ? & Ea & Hz). apply attempt_tree in Ea as [<- _]. destruct (_ || _); [done|]. by destruct (d_tree d4 !! target). }
  rewrite (wi_tree _ _ _ _ W1) in Hfree by done. assert (forall q, target `suffix_of` q -> d_tree d1 !! q = None) as F1.
  { intros q Hq. rewrite (wi_tree _ _ _ _ W1) by (intros Hs; by apply (suffix_both src target A1 A2 q)). destruct (decide (q = target)) as [->|Hqd]; [done|].
    apply (nothing_inside target); [by eapply closed_below, dir_suffix| |done]. intros name. destruct (d_tree d !! (name :: target)) as [n|] eqn:En; [|done].
    assert (d_tree d !! target = Some NDir); [|congruence]. apply (Hcl (name :: target)); [|by eexists]. split; [etrans; [apply dir_suffix|by apply suffix_cons_r]|].
    intros El%(f_equal length). destruct target; [done|]. cbn in El. lia. }
  pose proof (rename_ok _ _ _ _ _ E3) as (T3 & D3 & I3 & N3). assert (installed (MkConfig target 1 0) d3 l) as H3.
  { eapply (installed_moved (MkConfig src 1 0) (MkConfig target 1 0) d1 d3); [|..|done|done|done]; cbn [ContentStore.root].
    - intros k. rewrite T3. by apply move_tree_dst.
    - intros k n Hk Hkn. rewrite D3. by apply move_durable_dst. }
  destruct (syncDirectory (dir target) d3) as [d4 [[]|e4]] eqn:E4; [|by destruct (rename target src d4) as [d5 ?], (syncDirectory (dir target) d5)]. injection E as <-.
  pose proof (sync_directory_same _ _ _ _ E4) as (T4 & I4 & N4). apply syncDirectory_ok in E4 as (_ & _ & _ & K4). exists l. split_and!; [done|done|]. by eapply installed_kept.
Qed.

Abbreviation restored_store target := (MkConfig target 1 0).

(** What a restore that returned a manifest has done, in order. *)
Record restored (bundleRoot target : path) (k : K) (d d' : disk) (k' : K) (m : Manifest) : Prop := {
  rs_bundle : holds_bundle d bundleRoot m;
  rs_order : exists dump archive metadata l k1 k2 d1 d2 store s,
    file_at d (databaseFileName :: bundleRoot) dump /\ file_at d (contentFileName :: bundleRoot) archive /\
    Empty k = (k1, Ok true) /\
    unpacks archive l /\ MkStats (cn_Objects (mf_Content m)) (cn_UncompressedBytes (mf_Content m)) = stats_of l /\ installed (restored_store target) d1 l /\
    dr_Restore dump k1 = (k2, Ok metadata) /\ validateRestoredMetadata m metadata = None /\
    Open (restored_store target) d1 = (d2, Ok store) /\
    Reconcile (restored_store target) (MkReconcileOptions DefaultReconcileBatchSize false) d2 k2 = Some (s, None) /\
    Unresolved (sc_summary s) = 0 /\ d' = sc_disk s /\ k' = sc_catalog s
}.

(** C10: a restore verifies before it touches anything, and claims no more than it
    did.  Unless the bundle is complete and the database empty, names and files
    stay as they are and the database is not restored.  A restore that returns a
    manifest has installed exactly the objects of the verified archive, as many
    as the manifest says, then restored the verified dump with the versions of
    the manifest, and a scan of the installed store against the restored
    database has found nothing unresolved. *)
Theorem restore_guarded bundleRoot target random (k k' : K) d d' r :
  closed (dir target) (d_tree d) -> (forall i, is_Some (d_inodes d !! i) -> (i < d_next d)%nat) ->
  Restore bundleRoot target random k d = Some (d', k', r) ->
  (d_tree d' = d_tree d /\ d_inodes d' = d_inodes d /\ (k' = k \/ k' = (Empty k).1) \/ (exists m, holds_bundle d bundleRoot m) /\ (Empty k).2 = Ok true) /\
  forall m, r = Ok m -> restored bundleRoot target k d d' k' m.
Proof.
  intros Hcl Hb. unfold Restore. destruct (open_components bundleRoot d) as [d1 [[[m0 archive] dump]|e]] eqn:E1; apply open_components_spec in E1 as [R1 Hopen].
  2:{ intros [= <- <- <-]. split; [|done]. left. rewrite R1. split_and!; auto. }
  destruct (Hopen _ _ _ eq_refl) as (Hbun & Har & Hdu). destruct (Empty k) as [k1 [[]|e]] eqn:Ee.
  2,3: intros [= <- <- <-]; (split; [|done]); left; rewrite R1; split_and!; auto.
  intros E. split; [right; split; [by exists m0|done]|]. intros m ->. destruct (inspect_target target d1) as [d2 [existed|e]] eqn:E2; [|done]. apply inspect_target_reading in E2.
  destruct (install_content _ _ _ _ _ d2) as [d3 [[]|e]] eqn:E3; [|done]. apply install_content_ok in E3 as (l & Hun & Hst & Hin); [|by rewrite E2, R1..].
  unfold restore_database in E. destruct (dr_Restore dump k1) as [k2 [metadata|e]] eqn:E4; [|done]. destruct (validateRestoredMetadata m0 metadata) eqn:E5; [done|]. cbv zeta in E.
  destruct (wrap _ (Open _) d3) as [d4 [store|e]] eqn:E6; [|done]. apply wrap_ok in E6. destruct (Reconcile _ _ d4 k2) as [[s [e|]]|] eqn:E7; [done| |done].
  destruct (Unresolved (sc_summary s) =? 0) eqn:E8; cbn [negb] in E; [|done]. injection E as <- <- <-. apply Z.eqb_eq in E8. split; [done|].
  by exists dump, archive, metadata, l, k1, k2, d3, d4, store, s.
Qed.
End Restored.

(** C11: a bundle verifies exactly when it is complete.  Whatever fails, [Verify]
    accepts only a directory with the three files and nothing else, whose
    manifest is valid and describes the other two; when nothing fails, it accepts
    every such directory, and changes nothing. *)
Theorem verify_bundle_exact `{!ManifestCodec} (root : path) :
  (forall d d' v, Verify root d = (d', Ok v) -> v = MkVerified root (vb_Manifest v) (databaseFileName :: root) (contentFileName :: root) /\ holds_bundle d root (vb_Manifest v)) /\
  (forall d m, calm d -> holds_bundle d root m -> Verify root d = (d, Ok (MkVerified root m (databaseFileName :: root) (contentFileName :: root)))) /\
  (forall d d' r, Verify root d = (d', r) -> d' = set_oracle d (d_oracle d')).
Proof.
  split_and!.
  - intros d d' v (d1 & v' & E1 & E)%bind_ok. apply bind_ok in E as (d2 & ? & _ & E). injection E as _ <-. by eapply openVerifiedBundle_ok.
  - intros d m Hc Hb. unfold Verify, bind, wrap. rewrite (openVerifiedBundle_calm root d m) by done. by rewrite attempt_calm.
  - apply (reading_bind (openVerifiedBundle root)); [apply reading_open_bundle|intros v]. apply reading_bind; auto with reading.
Qed.
