(* ===== verification/BundleRun.v ===== *)
(** * A bundle, made and restored

    Instances of the interfaces of [Bundle]: a manifest as lines of text, and a
    database whose dump is a word.  With them the theorems on bundles are
    applied to a backup of a store with one message. *)

From S2P Require Import Prelude GoStrings Errors Codec Uuid FileSystem Message ContentStore ContentStoreFacts ContentStoreSpec Reconcile Tar FileTree Archive ArchiveFacts Database Catalog Bundle BundleFacts.

#[local] Opaque sha256.

Module Lines.
(** A number in binary. *)
Fixpoint bits (p : positive) : bytes :=
  match p with
  | xH => []
  | xO p => "0"%char :: bits p
  | xI p => "1"%char :: bits p
  end.

Fixpoint of_bits (s : bytes) : positive :=
  match s with
  | [] => xH
  | c :: s => if bool_decide (c = "0"%char) then xO (of_bits s) else xI (of_bits s)
  end.

Definition number (z : Z) : bytes := bits (countable.encode z).
Definition of_number (s : bytes) : Z := default 0 (countable.decode (of_bits s)).

Definition tab : ascii := byte_of 9.
Definition newline : ascii := byte_of 10.

Definition fields (m : Manifest) : list bytes :=
  let p := mf_PostgreSQL m in let db := mf_Database m in let ct := cn_Component (mf_Content m) in
  [mf_Format m; number (mf_Version m); number (mf_CreatedAt m);
   pm_ServerVersion p; pm_DumpVersion p; pm_RestoreVersion p; number (pm_MigrationVersion p);
   cm_File db; cm_SHA256 db; number (cm_SizeBytes db); cm_File ct; cm_SHA256 ct; number (cm_SizeBytes ct);
   number (cn_Objects (mf_Content m)); number (cn_UncompressedBytes (mf_Content m))].

Definition of_fields (l : list bytes) : option Manifest :=
  match l with
  | [f; v; t; ps; pd; pr; pv; df; ds; dz; cf; cs; cz; n; b] =>
    Some (MkManifest f (of_number v) (of_number t) 0 (MkPostgreSQL ps pd pr (of_number pv)) (MkComponent df ds (of_number dz))
      (MkContentManifest (MkComponent cf cs (of_number cz)) (of_number n) (of_number b)))
  | _ => None
  end.

Fixpoint line (l : list bytes) : bytes :=
  match l with
  | [] => []
  | [x] => x
  | x :: l => x ++ tab :: line l
  end.

#[global] Instance codec : ManifestCodec := {|
  mc_encode m := if zlen (line (fields m)) <? maxManifestBytes then Ok (line (fields m)) else Err (ENew "too long");
  mc_decode s :=
    match split_at newline s with
    | [l; []] => match of_fields (split_at tab l) with Some m => Ok (m, true) | None => Err (ENew "invalid manifest") end
    | _ => Err (ENew "invalid manifest")
    end
|}.
End Lines.

Lemma of_bits_bits p : Lines.of_bits (Lines.bits p) = p.
Proof. induction p as [p IH|p IH|]; cbn; [by rewrite IH..|done]. Qed.

Lemma of_number_number z : Lines.of_number (Lines.number z) = z.
Proof. unfold Lines.of_number, Lines.number. by rewrite of_bits_bits, decode_encode. Qed.

Lemma bits_free c p : c <> "0"%char -> c <> "1"%char -> c ∉ Lines.bits p.
Proof. intros H0 H1. induction p as [p IH|p IH|]; cbn; rewrite ?elem_of_cons; [by intros [?|?]..|apply not_elem_of_nil]. Qed.

Lemma plain_free c s : plain s -> code c < 32 -> c ∉ s.
Proof.
  intros [Hs _] Hc Hin. rewrite forallb_forall in Hs. apply list_elem_of_In, Hs in Hin. unfold in_range in Hin. bool_to_prop. lia.
Qed.

Lemma fields_free c m : plain_manifest m -> code c < 32 -> forall x, x ∈ Lines.fields m -> c ∉ x.
Proof.
  intros Hp Hc. apply Forall_forall. destruct Hp as (P1 & P2 & P3 & P4 & P5 & P6 & P7 & P8).
  assert (forall z, c ∉ Lines.number z) as Hn by (intros z; apply bits_free; intros ->; by vm_compute in Hc).
  unfold Lines.fields. repeat (apply Forall_cons; split; [first [apply Hn|by apply plain_free]|]). apply Forall_nil_2.
Qed.

Lemma line_free c l : c <> Lines.tab -> (forall x, x ∈ l -> c ∉ x) -> c ∉ Lines.line l.
Proof.
  intros Hc. induction l as [|x [|y l] IH]; intros Hl; cbn [Lines.line]; [apply not_elem_of_nil|apply Hl; by left|].
  rewrite elem_of_app, elem_of_cons. intros [Hx|[Hx|Hx]]; [by apply (Hl x ltac:(by left))|done|]. revert Hx. apply IH. intros z Hz. apply Hl. by right.
Qed.

Lemma split_line l : l <> [] -> (forall x, x ∈ l -> Lines.tab ∉ x) -> split_at Lines.tab (Lines.line l) = l.
Proof.
  intros Hne. induction l as [|x [|y l] IH]; intros Hl; [done|cbn [Lines.line]; apply split_at_last, Hl; by left|].
  change (Lines.line (x :: y :: l)) with (x ++ Lines.tab :: Lines.line (y :: l)). rewrite split_at_cons by (apply Hl; by left). rewrite IH; [done|done|].
  intros z Hz. apply Hl. by right.
Qed.

#[global] Instance lines_spec : CodecSpec Lines.codec.
Proof.
  split. intros m s. cbn [mc_encode mc_decode Lines.codec]. destruct (_ <? _) eqn:Ez; [|done]. intros E Ho Hp. assert (s = Lines.line (Lines.fields m)) as -> by congruence. clear E. apply Z.ltb_lt in Ez. split; [|done].
  change [byte_of 10] with [Lines.newline]. rewrite split_at_cons by (apply line_free; [by vm_compute|]; apply fields_free; [done|by vm_compute]). cbn [split_at].
  rewrite split_line by (done || (apply fields_free; [done|by vm_compute])). unfold Lines.fields, Lines.of_fields. rewrite !of_number_number.
  destruct m as [f v t o [] [] [[] ]]. cbn in *. by subst o.
Qed.

(** *** The database *)

Module Word.
Definition metadata : DatabaseMetadata := MkMetadata (str "17.5") (str "17.5") (str "17.5") 7.
Definition refs : list ContentRef := [ref_of ContentStoreSpec.Demo.hello].

#[global] Instance dumper : DatabaseDumper (list ContentRef) := {|
  Dump W wr w k d := let '(d, w, e) := wr_write (str "dump") w d in (d, w, k, match e with Some e => Err e | None => Ok metadata end)
|}.

#[global] Instance restorer : DatabaseRestorer (list ContentRef) := {|
  dr_catalog := Fixed.catalog;
  Empty k := (k, Ok (bool_decide (length k = 0%nat)));
  dr_Restore dump k := if bool_decide (dump = str "dump") then (refs, Ok metadata) else (k, Err (ENew "invalid dump"))
|}.
End Word.

#[global] Instance word_spec : DumperSpec (list ContentRef).
Proof.
  split.
  - intros W wr w k d d' w' k' r. cbn [Dump Word.dumper]. destruct (wr_write (str "dump") w d) as [[d1 w1] e] eqn:E. intros [= <- <- _ _]. apply rtc_once. by exists (str "dump"), e.
  - intros W wr w k d d' w' k' m. cbn [Dump Word.dumper]. destruct (wr_write (str "dump") w d) as [[d1 w1] [e|]]; [done|]. intros [= _ _ _ <-]. split; [done|].
    cbn [dm_ServerVersion dm_DumpVersion dm_RestoreVersion Word.metadata]. assert (plain (str "17.5") /\ trim_space (str "17.5") <> []) as Hv by (split; [by vm_compute|by vm_compute]).
    by repeat apply Forall_cons_2.
Qed.

(** *** A backup of the message *)

Module Backup.
Definition destination : path := [str "backup"].
Definition target : path := [str "restored"].
Definition random : bytes := str "12345678".
Definition d : disk := st_disk ContentStoreSpec.Demo.one.
Definition created : disk * list ContentRef * res Manifest := Create ContentStoreSpec.Demo.cfg destination 1700000000000000000 random Word.refs d.
Definition d1 : disk := created.1.1.
Definition back : option (disk * list ContentRef * res Manifest) := Restore destination target random ([] : list ContentRef) d1.
End Backup.

Lemma created_ok : is_Some (match Backup.created.2 with Ok m => Some m | Err _ => None end).
Proof. vm_compute. by eexists. Qed.

Definition manifest_back (r : option (disk * list ContentRef * res Manifest)) : option Manifest :=
  match r with Some (_, _, Ok m) => Some m | _ => None end.

Lemma back_ok : is_Some (manifest_back Backup.back).
Proof. vm_compute. by eexists. Qed.

Lemma closed_check (r : path) (t : gmap path node) : forallb (λ kv : path * node, bool_decide (t !! dir kv.1 = Some NDir)) (map_to_list t) = true -> closed r t.
Proof. rewrite forallb_forall. intros Hf p _ [n Hn]. apply (bool_decide_eq_true_1 _), (Hf (p, n)), list_elem_of_In. by apply elem_of_map_to_list. Qed.

Lemma inodes_check (d : disk) : forallb (λ kv : nat * file, (kv.1 <? d_next d)%nat) (map_to_list (d_inodes d)) = true -> forall i, is_Some (d_inodes d !! i) -> (i < d_next d)%nat.
Proof. rewrite forallb_forall. intros Hf i [f Hi]. apply Nat.ltb_lt. apply (Hf (i, f)), list_elem_of_In. by apply elem_of_map_to_list. Qed.

Lemma backup_tree : closed [] (d_tree Backup.d) /\ closed [] (d_tree Backup.d1) /\ (forall i, is_Some (d_inodes Backup.d1 !! i) -> (i < d_next Backup.d1)%nat).
Proof. split_and!; [apply closed_check; vm_compute; reflexivity..|apply inodes_check; vm_compute; reflexivity]. Qed.

Lemma calm_truthful d : calm d -> truthful d.
Proof. intros Hc e He. rewrite Hc in He. by apply elem_of_nil in He. Qed.

Lemma backup_calm : calm Backup.d.
Proof. vm_compute. reflexivity. Qed.

(** The two runs by name. *)
Lemma backup_created_run : Create ContentStoreSpec.Demo.cfg Backup.destination 1700000000000000000 Backup.random Word.refs Backup.d = Backup.created.
Proof. reflexivity. Qed.

Lemma back_run : Restore Backup.destination Backup.target Backup.random ([] : list ContentRef) Backup.d1 = Backup.back.
Proof. reflexivity. Qed.

#[local] Opaque Backup.d Backup.created Backup.d1 Backup.back.

Lemma create_atomic_witness : exists m, Backup.created.2 = Ok m /\ d_tree Backup.d !! Backup.destination = None /\
  holds_bundle Backup.d1 Backup.destination m /\ durable_bundle Backup.d1 Backup.destination.
Proof.
  destruct created_ok as [m Hm]. assert (Backup.created = (Backup.d1, Backup.created.1.2, Ok m)) as E.
  { change Backup.d1 with Backup.created.1.1. destruct Backup.created as [[d1 k1] [m'|]]; [|done]. cbn in Hm. by injection Hm as ->. }
  pose proof (calm_truthful _ backup_calm) as Hh.
  destruct (create_atomic ContentStoreSpec.Demo.cfg Backup.destination 1700000000000000000 Backup.random Word.refs Backup.created.1.2 Backup.d Backup.d1 (Ok m) Hh (proj1 backup_tree) (ok_next _ _ ContentStoreSpec.one_ok) (eq_trans backup_created_run E)) as (_ & _ & H1 & _ & H2 & H3).
  exists m. split; [by rewrite E|]. split; [exact H1|]. split; [exact H2|exact H3].
Defined.

Lemma restore_guarded_witness : exists m d' k', Backup.back = Some (d', k', Ok m) /\ restored Backup.destination Backup.target [] Backup.d1 d' k' m.
Proof.
  destruct back_ok as [m Hm]. assert (exists d' k', Backup.back = Some (d', k', Ok m)) as (d' & k' & E).
  { destruct Backup.back as [[[d' k'] [m'|]]|]; [|done..]. cbn in Hm. injection Hm as ->. by exists d', k'. }
  destruct (restore_guarded Backup.destination Backup.target Backup.random ([] : list ContentRef) k' Backup.d1 d' (Ok m) (proj1 (proj2 backup_tree)) (proj2 (proj2 backup_tree)) (eq_trans back_run E)) as [_ Hr]. exists m, d', k'. split; [exact E|]. by apply Hr.
Defined.
