(* ===== verification/BackupTool.v ===== *)
(** * PostgreSQL's backup tools: [internal/postgres/backup_tool.go]

    [pg_dump] and [pg_restore] are run with an environment of their own and
    their output is read for versions.  The tools, the server's version and the
    parsed DSN are parameters ([PgTools], [ConnConfig]); the adapter implements
    the two database interfaces of [Bundle]. *)

From S2P Require Import Prelude GoStrings Errors Codec NetIP Uuid FileSystem Message ContentStore ContentStoreFacts Reconcile Tar FileTree Archive Database DeliveryRepo Catalog Bundle.

Definition pgDumpExecutable : bytes := str "pg_dump".
Definition pgRestoreExecutable : bytes := str "pg_restore".
Definition restoreServiceName : bytes := str "mailwisp_restore".
Definition maxToolErrorBytes : Z := Z.shiftl 64 10.
Definition restoreServiceFileContent : bytes :=
  str "[" ++ restoreServiceName ++ str "]" ++ [byte_of 10] ++ str "application_name=mailwisp_restore" ++ [byte_of 10].

Definition postgresConnectionEnvironmentNames : list bytes := str <$>
  ["PGAPPNAME"; "PGCHANNELBINDING"; "PGCLIENTENCODING"; "PGCONNECT_TIMEOUT"; "PGDATABASE"; "PGGSSLIB"; "PGGSSENCMODE"; "PGHOST"; "PGHOSTADDR";
   "PGKRBSRVNAME"; "PGLOADBALANCEHOSTS"; "PGMAXPROTOCOLVERSION"; "PGMINPROTOCOLVERSION"; "PGOPTIONS"; "PGPASSFILE"; "PGPASSWORD"; "PGPORT"; "PGREALM";
   "PGREQUIREAUTH"; "PGREQUIREPEER"; "PGREQUIRESSL"; "PGSERVICE"; "PGSERVICEFILE"; "PGSSLCERT"; "PGSSLCOMPRESSION"; "PGSSLCRL"; "PGSSLCRLDIR"; "PGSSLKEY";
   "PGSSLMODE"; "PGSSLNEGOTIATION"; "PGSSLPASSWORD"; "PGSSLROOTCERT"; "PGSSLSNI"; "PGSYSCONFDIR"; "PGTARGETSESSIONATTRS"; "PGTZ"; "PGUSER"]%string.

(** ** Versions *)

(** A character of a word in a regular expression. *)
Definition is_word (c : ascii) : bool := in_range 48 57 c || in_range 65 90 c || in_range 97 122 c || (code c =? 95).

Fixpoint digit_run (s : bytes) : bytes * bytes :=
  match s with
  | c :: s' => if is_digit c then let '(run, rest) := digit_run s' in (c :: run, rest) else ([], s)
  | [] => ([], [])
  end.

(** As many groups of a dot and digits as there are; what follows them. *)
Fixpoint dotted_runs (fuel : nat) (s : bytes) : list bytes * bytes :=
  match fuel, s with
  | S fuel, c :: s' =>
    if bool_decide (c = "."%char) then
      match digit_run s' with
      | ([], _) => ([], s)
      | (run, rest) => let '(runs, rest) := dotted_runs fuel rest in (run :: runs, rest)
      end
    else ([], s)
  | _, _ => ([], s)
  end.

(** A match of [postgresVersionPattern] that begins here, behind a boundary.  The
    last group is given back when a word goes on behind it. *)
Definition version_here (s : bytes) : option bytes :=
  match digit_run s with
  | ([], _) => None
  | (first, rest) =>
    let '(runs, rest) := dotted_runs (length rest) rest in
    let runs := match rest with c :: _ => if is_word c then take (pred (length runs)) runs else runs | [] => runs end in
    match runs with
    | [] => None
    | _ => Some (first ++ concat ((λ run, "."%char :: run) <$> runs))
    end
  end.

(** [FindStringSubmatch]: the leftmost match. *)
Fixpoint find_version (behind_word : bool) (s : bytes) : option bytes :=
  match (if behind_word then None else version_here s) with
  | Some v => Some v
  | None => match s with [] => None | c :: s => find_version (is_word c) s end
  end.

Definition parsePostgreSQLVersion (value : bytes) : res bytes :=
  match find_version false value with
  | Some v => Ok v
  | None => Err (ENew "PostgreSQL version not found")
  end.

Definition postgreSQLMajor (version : bytes) : res bytes :=
  match split_at "."%char version with
  | major :: minor :: _ =>
    if bool_decide (major = []) || bool_decide (minor = []) then Err (ENew "major version not found")
    else if bool_decide (major = str "9") then Ok (major ++ str "." ++ minor)
    else Ok major
  | _ => Err (ENew "major version not found")
  end.

Definition validateToolMajors (m : DatabaseMetadata) : option goerr :=
  match postgreSQLMajor (dm_ServerVersion m) with
  | Err e => Some (EWrap "invalid postgres server version" e)
  | Ok serverMajor =>
    match postgreSQLMajor (dm_DumpVersion m) with
    | Err e => Some (EWrap "invalid pg_dump version" e)
    | Ok dumpMajor =>
      match postgreSQLMajor (dm_RestoreVersion m) with
      | Err e => Some (EWrap "invalid pg_restore version" e)
      | Ok restoreMajor =>
        if negb (bool_decide (serverMajor = dumpMajor)) || negb (bool_decide (serverMajor = restoreMajor))
        then Some (ENew "postgres server/pg_dump/pg_restore major mismatch") else None
      end
    end
  end.

(** ** The environment of the tools *)

Record environmentVariable := MkVariable { ev_name : bytes; ev_value : bytes }.

(** What [pgx.ParseConfig] returns, as far as it is used. *)
Record TLSConfig := MkTLS {
  tls_RootCAs : bool; tls_Certificates : nat; tls_InsecureSkipVerify : bool; tls_VerifyPeerCertificate : bool; tls_ServerName : bytes
}.
Record FallbackConfig := MkFallback { fb_Host : bytes; fb_Port : Z; fb_TLS : option TLSConfig }.
Record ConnConfig := MkConn {
  cc_Host : bytes; cc_Port : Z; cc_Database : bytes; cc_User : bytes; cc_Password : bytes; cc_TLS : option TLSConfig; cc_ConnectTimeout : Z;
  cc_Fallbacks : list FallbackConfig; cc_ValidateConnect : bool; cc_SSLNegotiation : bytes; cc_ChannelBinding : bytes; cc_RequireAuth : bytes;
  cc_MinProtocolVersion : bytes; cc_MaxProtocolVersion : bytes
}.

(** [net.JoinHostPort] *)
Definition JoinHostPort (host : bytes) (port : Z) : bytes :=
  if bool_decide (is_Some (index_byte host ":"%char)) then str "[" ++ host ++ str "]:" ++ format_int port
  else host ++ str ":" ++ format_int port.

Fixpoint add_endpoints (l : list FallbackConfig) (endpoints : list bytes) : list bytes :=
  match l with
  | [] => endpoints
  | fallback :: l =>
    let endpoint := JoinHostPort (fb_Host fallback) (fb_Port fallback) in
    add_endpoints l (if bool_decide (endpoint ∈ endpoints) then endpoints else endpoints ++ [endpoint])
  end.

Definition postgresCommandTLS (config : ConnConfig) : res (bytes * bytes * bytes) :=
  let custom := match cc_TLS config with Some t => tls_RootCAs t || negb (tls_Certificates t =? 0)%nat | None => false end in
  if custom then Err (ENew "postgres backup tool does not yet support custom TLS certificate files")
  else
    let same := filter (λ f, fb_Host f = cc_Host config /\ fb_Port f = cc_Port config) (cc_Fallbacks config) in
    let hasTLSFallback := existsb (λ f, bool_decide (is_Some (fb_TLS f))) same in
    let hasPlainFallback := existsb (λ f, bool_decide (fb_TLS f = None)) same in
    let '(mode, rootCert) :=
      match cc_TLS config with
      | None => (if hasTLSFallback then str "allow" else str "disable", [])
      | Some t =>
        if hasPlainFallback then (str "prefer", [])
        else if negb (tls_InsecureSkipVerify t) then (str "verify-full", str "system")
        else if tls_VerifyPeerCertificate t then (str "verify-ca", str "system")
        else (str "require", [])
      end in
    let sni := match cc_TLS config with
      | Some t => if bool_decide (tls_ServerName t = []) && bool_decide (ParseIP (cc_Host config) = None) then str "0" else []
      | None => [] end in
    Ok (mode, rootCert, sni).

Definition optional_variable (name : string) (value : bytes) : list environmentVariable :=
  if bool_decide (value = []) then [] else [MkVariable (str name) value].

Definition second : Z := 1000000000.

Definition postgresCommandEnvironment (config : ConnConfig) : res (list environmentVariable) :=
  if negb (length (add_endpoints (cc_Fallbacks config) [JoinHostPort (cc_Host config) (cc_Port config)]) =? 1)%nat
  then Err (ENew "postgres backup tool requires a single-host DSN")
  else if cc_ValidateConnect config then Err (ENew "postgres backup tool does not support target_session_attrs")
  else match postgresCommandTLS config with
  | Err e => Err e
  | Ok (sslMode, sslRootCert, sslSNI) =>
    Ok ([MkVariable (str "PGHOST") (cc_Host config); MkVariable (str "PGPORT") (format_int (cc_Port config)); MkVariable (str "PGDATABASE") (cc_Database config);
         MkVariable (str "PGUSER") (cc_User config); MkVariable (str "PGPASSWORD") (cc_Password config); MkVariable (str "PGSSLMODE") sslMode]
      ++ (if 0 <? cc_ConnectTimeout config
          then [MkVariable (str "PGCONNECT_TIMEOUT") (format_int (Z.quot (wrap64 (wrap64 (cc_ConnectTimeout config + second) - 1)) second))] else [])
      ++ optional_variable "PGSSLROOTCERT" sslRootCert ++ optional_variable "PGSSLSNI" sslSNI
      ++ optional_variable "PGSSLNEGOTIATION" (cc_SSLNegotiation config) ++ optional_variable "PGCHANNELBINDING" (cc_ChannelBinding config)
      ++ optional_variable "PGREQUIREAUTH" (cc_RequireAuth config) ++ optional_variable "PGMINPROTOCOLVERSION" (cc_MinProtocolVersion config)
      ++ optional_variable "PGMAXPROTOCOLVERSION" (cc_MaxProtocolVersion config))
  end.

(** An entry of the environment that names a connection parameter. *)
Definition reserved_entry (entry : bytes) : bool :=
  let '(name, _, found) := cut entry "="%char in found && bool_decide (to_upper name ∈ postgresConnectionEnvironmentNames).

Definition environmentWithPostgresConnection (environment : list bytes) (variables : list environmentVariable) : list bytes :=
  filter (λ entry, reserved_entry entry = false) environment ++ ((λ v, ev_name v ++ str "=" ++ ev_value v) <$> variables).

(** ** Running *)

(** [boundedBuffer.Write]: the first bytes are kept. *)
Definition boundedBuffer_Write (limit : Z) (buffer data : bytes) : bytes :=
  let remaining := limit - zlen buffer in
  if 0 <? remaining then buffer ++ (if remaining <? zlen data then take (Z.to_nat remaining) data else data) else buffer.

(** [strings.ReplaceAll] of a text that is not empty; [skip] bytes of a match are
    still to be passed. *)
Fixpoint replace_from (old new : bytes) (skip : nat) (s : bytes) : bytes :=
  match s with
  | [] => []
  | c :: s' =>
    match skip with
    | S skip => replace_from old new skip s'
    | O => if has_prefix s old then new ++ replace_from old new (pred (length old)) s' else c :: replace_from old new 0 s'
    end
  end.
Definition ReplaceAll (s old new : bytes) : bytes := replace_from old new 0 s.

(** The detail of an error, without the secrets. *)
Definition error_detail (redactions : list bytes) (stderr : list bytes) : bytes :=
  trim_space (foldl (λ detail secret, ReplaceAll detail secret (str "<redacted>")) (foldl (boundedBuffer_Write maxToolErrorBytes) [] stderr) redactions).

(** A server with its database, the version of its schema and the number of
    relations in the public one, and the directory for temporary files. *)
Record server := Server { sv_db : db; sv_schema : nat; sv_relations : nat; sv_tmp : disk }.

(** The tools: what they answer to [--version], what a dump writes, what a
    restore makes of its input; and the version the server reports. *)
Class PgTools := {
  pg_server_version : bytes;
  pg_version : bytes -> res bytes;
  pg_dump : list bytes -> server -> list bytes * list bytes * option goerr;
  pg_restore : list bytes -> bytes -> server -> (db * nat * nat) * list bytes * option goerr
}.

Record BackupTool := MkTool { bt_connectionEnvironment : list environmentVariable; bt_redactions : list bytes }.

Definition NewBackupTool (parse : bytes -> res ConnConfig) (dsn : bytes) : res BackupTool :=
  if bool_decide (trim_space dsn = []) then Err (ENew "postgres DSN is required")
  else match parse dsn with
  | Err e => Err (EWrap "parse postgres backup DSN" e)
  | Ok config =>
    match postgresCommandEnvironment config with
    | Err e => Err e
    | Ok environment => Ok (MkTool environment (dsn :: (if bool_decide (cc_Password config = []) then [] else [cc_Password config])))
    end
  end.

Section Tool.
Context `{!PgTools} (t : BackupTool) (environ : list bytes).

Definition on_server {A} (m : DB A) (s : server) : server * res A :=
  let '(d, r) := m (sv_db s) in (Server d (sv_schema s) (sv_relations s) (sv_tmp s), r).

Definition on_tmp {A} (m : IO A) (s : server) : server * res A :=
  let '(d, r) := m (sv_tmp s) in (Server (sv_db s) (sv_schema s) (sv_relations s) d, r).

(** The environment that [run] gives to a command. *)
Definition command_environment (extra : list environmentVariable) : list bytes :=
  environmentWithPostgresConnection environ (bt_connectionEnvironment t ++ extra).

(** The error of [run]. *)
Definition run_error (stderr : list bytes) (e : goerr) : goerr :=
  if bool_decide (error_detail (bt_redactions t) stderr = []) then e else EWrap "detail" e.

Definition commandVersion (name : bytes) : res bytes :=
  match pg_version name with
  | Err e => Err (EWrap "read version" e)
  | Ok output => match parsePostgreSQLVersion output with Ok v => Ok v | Err e => Err (EWrap "parse version" e) end
  end.

Definition pgDumpVersion : res bytes := commandVersion pgDumpExecutable.
Definition pgRestoreVersion : res bytes := commandVersion pgRestoreExecutable.

Definition migrationVersion (s : server) : server * res Z := on_server (query "read database migration version" (λ _, Z.of_nat (sv_schema s))) s.

Definition metadata (includeMigration : bool) (s : server) : server * res DatabaseMetadata :=
  match on_server (query "read postgres server version" (λ _, pg_server_version)) s with
  | (s, Err e) => (s, Err e)
  | (s, Ok serverRaw) =>
    match parsePostgreSQLVersion serverRaw with
    | Err e => (s, Err (EWrap "parse postgres server version" e))
    | Ok serverVersion =>
      match pgDumpVersion with
      | Err e => (s, Err e)
      | Ok dumpVersion =>
        match pgRestoreVersion with
        | Err e => (s, Err e)
        | Ok restoreVersion =>
          if includeMigration then
            match migrationVersion s with
            | (s, Err e) => (s, Err e)
            | (s, Ok v) => (s, Ok (MkMetadata serverVersion dumpVersion restoreVersion v))
            end
          else (s, Ok (MkMetadata serverVersion dumpVersion restoreVersion 0))
        end
      end
    end
  end.

(** The output of a command on its way to a writer. *)
Fixpoint copy_output {W} (wr : Writer W) (chunks : list bytes) (w : W) (d : disk) : disk * W * option goerr :=
  match chunks with
  | [] => (d, w, None)
  | chunk :: chunks =>
    match wr_write chunk w d with
    | (d, w, Some e) => (d, w, Some e)
    | (d, w, None) => copy_output wr chunks w d
    end
  end.

Definition tool_Dump W (wr : Writer W) (w : W) (s : server) (d : disk) : disk * W * server * res DatabaseMetadata :=
  match metadata true s with
  | (s, Err e) => (d, w, s, Err e)
  | (s, Ok m) =>
    match validateToolMajors m with
    | Some e => (d, w, s, Err e)
    | None =>
      let '(stdout, stderr, failed) := pg_dump (command_environment []) s in
      let '(d, w, copyErr) := copy_output wr stdout w d in
      match failed, copyErr with
      | Some e, _ | None, Some e => (d, w, s, Err (EWrap "run pg_dump" (run_error stderr e)))
      | None, None => (d, w, s, Ok m)
      end
    end
  end.

Definition tool_Empty (s : server) : server * res bool :=
  match on_server (query "count restore database objects" (λ _, Z.of_nat (sv_relations s))) s with
  | (s, Err e) => (s, Err e)
  | (s, Ok objects) => (s, Ok (objects =? 0))
  end.

(** The service file, which names no secret: written, synced and closed, or
    removed again. *)
Definition tmp_root : path := [str "tmp"].

Definition createRestoreServiceFile : IO path := λ d,
  match create_temp tmp_root (str "mailwisp-pgservice-") (str ".conf") d with
  | (d, Err e) => (d, Err (EWrap "create temporary postgres service file" e))
  | (d, Ok (p, i)) =>
    match
      (wrap (EWrap "restrict temporary postgres service file") chmod_file ;;;
       wrap (EWrap "write temporary postgres service file") (write_file i restoreServiceFileContent) ;;;
       wrap (EWrap "sync temporary postgres service file") (sync_file i) ;;;
       wrap (EWrap "close temporary postgres service file") close_file) d
    with
    | (d, Ok _) => (d, Ok p)
    | (d, Err e) =>
      let '(d, _) := close_file d in
      let '(d, _) := remove p d in
      (d, Err e)
    end
  end.

(** A path as text. *)
Definition path_text (p : path) : bytes := str "/" ++ to_slash p.

Definition tool_Restore (source : bytes) (s : server) : server * res DatabaseMetadata :=
  match tool_Empty s with
  | (s, Err e) => (s, Err e)
  | (s, Ok false) => (s, Err (ENew "restore database is not empty"))
  | (s, Ok true) =>
    match metadata false s with
    | (s, Err e) => (s, Err e)
    | (s, Ok m) =>
      match validateToolMajors m with
      | Some e => (s, Err e)
      | None =>
        match on_tmp createRestoreServiceFile s with
        | (s, Err e) => (s, Err e)
        | (s, Ok serviceFile) =>
          let '((database, schema, relations), stderr, failed) := pg_restore (command_environment [MkVariable (str "PGSERVICEFILE") (path_text serviceFile)]) source s in
          let s := Server database schema relations (sv_tmp s) in
          let '(s, removed) := on_tmp (remove serviceFile) s in
          match failed with
          | Some e =>
            let restoreErr := EWrap "run pg_restore" (run_error stderr e) in
            (s, Err match removed with Ok _ => restoreErr | Err e' => EWrap2 "join" restoreErr (EWrap "remove temporary postgres service file" e') end)
          | None =>
            match on_server (Ready (Z.of_nat (sv_schema s))) s with
            | (s, Err e) => (s, Err (EWrap "verify restored postgres schema" e))
            | (s, Ok _) =>
              match migrationVersion s with
              | (s, Err e) => (s, Err e)
              | (s, Ok v) => (s, Ok (MkMetadata (dm_ServerVersion m) (dm_DumpVersion m) (dm_RestoreVersion m) v))
              end
            end
          end
        end
      end
    end
  end.

(** The adapter is a dumper and a restorer, with the catalog of its repository. *)
#[export] Instance tool_dumper : DatabaseDumper server := {| Dump := tool_Dump |}.

#[export] Instance server_catalog : ContentCatalog server := {|
  cat_walk S n visit s v :=
    match cat_walk S n visit (sv_db s) v with
    | Some (d, v, e) => Some (Server d (sv_schema s) (sv_relations s) (sv_tmp s), v, e)
    | None => None
    end;
  cat_existing keys s := on_server (ExistingContentKeys keys) s
|}.

#[export] Instance tool_restorer : DatabaseRestorer server := {|
  dr_catalog := server_catalog; Empty := tool_Empty; dr_Restore := tool_Restore
|}.
End Tool.
