(* ===== verification/Lease.v ===== *)
(** * The singleton lease: [internal/postgres/maintenance_lease.go]

    A session-level advisory lock keeps two processes from working on one
    content root.  The model has the server's side of it (the sessions that are
    open and the one that holds the lock), the operations of the package, and
    the processes that use them, interleaved in any order. *)

From S2P Require Import Prelude GoStrings Errors.

(** ** The server *)

(** A statement may fail before it takes effect or after it ([true]). *)
Record locks := Locks {
  lk_next : nat;                                (* the next session *)
  lk_live : gset nat;                           (* the sessions that are open *)
  lk_holder : option nat;                       (* the session with the lock of the two keys *)
  lk_oracle : list (option (bool * goerr))
}.

Definition maintenanceLockClass : Z := 0x4d575350.
Definition maintenanceLockObject : Z := 0x434f4e54.

Definition pop (l : locks) : locks * option (bool * goerr) :=
  match lk_oracle l with
  | [] => (l, None)
  | x :: rest => (Locks (lk_next l) (lk_live l) (lk_holder l) rest, x)
  end.

Definition set_holder (l : locks) (h : option nat) : locks := Locks (lk_next l) (lk_live l) h (lk_oracle l).

(** [pgx.Connect] *)
Definition connect (l : locks) : locks * res nat :=
  match pop l with
  | (l, Some (_, e)) => (l, Err e)
  | (l, None) => (Locks (S (lk_next l)) ({[lk_next l]} ∪ lk_live l) (lk_holder l) (lk_oracle l), Ok (lk_next l))
  end.

(** A statement of a session: [act] is what the server does. *)
Definition session_query (act : locks -> locks * bool) (session : nat) (l : locks) : locks * res bool :=
  match pop l with
  | (l, Some (took, e)) => (if took && bool_decide (session ∈ lk_live l) then (act l).1 else l, Err e)
  | (l, None) =>
    if bool_decide (session ∈ lk_live l) then let '(l, b) := act l in (l, Ok b)
    else (l, Err (ENew "conn closed"))
  end.

(** [pg_try_advisory_lock], of a session that does not hold the lock. *)
Definition pg_try_advisory_lock (session : nat) : locks -> locks * res bool :=
  session_query (λ l, match lk_holder l with None => (set_holder l (Some session), true) | Some _ => (l, false) end) session.

Definition pg_advisory_unlock (session : nat) : locks -> locks * res bool :=
  session_query (λ l, if bool_decide (lk_holder l = Some session) then (set_holder l None, true) else (l, false)) session.

(** The end of a session frees its lock. *)
Definition end_session (session : nat) (l : locks) : locks :=
  Locks (lk_next l) (lk_live l ∖ {[session]}) (if bool_decide (lk_holder l = Some session) then None else lk_holder l) (lk_oracle l).

(** [Conn.Close] closes the connection whatever it returns. *)
Definition conn_close (session : nat) (l : locks) : locks * option goerr :=
  let '(l, x) := pop (end_session session l) in (l, snd <$> x).

(** ** The leases *)

(** The field [conn]. *)
Definition MaintenanceLease : Type := option nat.

(** [errors.Join] *)
Definition join_close (e : goerr) (other : option goerr) : goerr := match other with None => e | Some e' => EWrap2 "join" e e' end.

Definition acquire (text : string) (dsn : bytes) (l : locks) : locks * res MaintenanceLease :=
  if bool_decide (trim_space dsn = []) then (l, Err (ENew "postgres DSN is required"))
  else match connect l with
  | (l, Err e) => (l, Err (EWrap (text ++ " connection") e))
  | (l, Ok conn) =>
    match pg_try_advisory_lock conn l with
    | (l, Err e) => let '(l, closeErr) := conn_close conn l in (l, Err (join_close (EWrap text e) closeErr))
    | (l, Ok false) => let '(l, closeErr) := conn_close conn l in (l, Err (join_close (ESentinel ErrServiceActive) closeErr))
    | (l, Ok true) => (l, Ok (Some conn))
    end
  end.

Definition AcquireServiceLease : bytes -> locks -> locks * res MaintenanceLease := acquire "acquire service lease".
Definition TryAcquireMaintenanceLease : bytes -> locks -> locks * res MaintenanceLease := acquire "acquire maintenance lease".

(** [Release]: the connection is forgotten and closed whatever the server says. *)
Definition Release (lease : MaintenanceLease) (l : locks) : locks * MaintenanceLease * option goerr :=
  match lease with
  | None => (l, None, None)
  | Some conn =>
    let '(l, unlocked) := pg_advisory_unlock conn l in
    let '(l, closeErr) := conn_close conn l in
    (l, None,
     match unlocked with
     | Err e => Some (join_close (EWrap "release maintenance lease" e) closeErr)
     | Ok false => Some (join_close (ENew "maintenance lease was not held by this session") closeErr)
     | Ok true => closeErr
     end)
  end.

(** ** Processes *)

Record cluster := Cluster { cl_locks : locks; cl_leases : gmap nat MaintenanceLease }.

Inductive lease_step : cluster -> cluster -> Prop :=
| step_serve p dsn c l r : cl_leases c !! p = None -> AcquireServiceLease dsn (cl_locks c) = (l, r) ->
    lease_step c (Cluster l (match r with Ok lease => <[p := lease]> (cl_leases c) | Err _ => cl_leases c end))
| step_maintain p dsn c l r : cl_leases c !! p = None -> TryAcquireMaintenanceLease dsn (cl_locks c) = (l, r) ->
    lease_step c (Cluster l (match r with Ok lease => <[p := lease]> (cl_leases c) | Err _ => cl_leases c end))
| step_release p lease c l lease' e : cl_leases c !! p = Some lease -> Release lease (cl_locks c) = (l, lease', e) ->
    lease_step c (Cluster l (<[p := lease']> (cl_leases c)))
| step_exit p c : cl_leases c !! p = Some None -> lease_step c (Cluster (cl_locks c) (delete p (cl_leases c)))
| step_killed p conn c : cl_leases c !! p = Some (Some conn) ->
    lease_step c (Cluster (end_session conn (cl_locks c)) (delete p (cl_leases c)))
| step_lost session c : lease_step c (Cluster (end_session session (cl_locks c)) (cl_leases c)).

Definition cluster_start (oracle : list (option (bool * goerr))) : cluster := Cluster (Locks 0 ∅ None oracle) ∅.

(** A lease whose session the server still has. *)
Definition effective (c : cluster) (p : nat) : Prop := exists conn, cl_leases c !! p = Some (Some conn) /\ conn ∈ lk_live (cl_locks c).

(** ** The operations *)

Lemma pop_same l l' x : pop l = (l', x) -> lk_next l' = lk_next l /\ lk_live l' = lk_live l /\ lk_holder l' = lk_holder l.
Proof. unfold pop. destruct (lk_oracle l); by intros [= <- <-]. Qed.

Record locks_ok (l : locks) : Prop := {
  lo_fresh : forall s, s ∈ lk_live l -> (s < lk_next l)%nat;
  lo_holder : forall s, lk_holder l = Some s -> s ∈ lk_live l
}.

(** Two servers with the same sessions and the same holder. *)
Record same_locks (l l' : locks) : Prop := {
  sl_live : lk_live l' = lk_live l;
  sl_holder : lk_holder l' = lk_holder l;
  sl_next : (lk_next l <= lk_next l')%nat
}.

#[global] Instance same_locks_preorder : PreOrder same_locks.
Proof.
  split.
  - intros l. by split.
  - intros l1 l2 l3 [] []. split; [congruence..|lia].
Qed.

Lemma pop_locks l l' x : pop l = (l', x) -> same_locks l l'.
Proof. intros (Hn & Hl & Hh)%pop_same. split; [done..|lia]. Qed.

Lemma same_locks_ok l l' : same_locks l l' -> locks_ok l -> locks_ok l'.
Proof. intros [Hl Hh Hn] [H1 H2]. split; rewrite Hl; [intros s Hs%H1; lia|by rewrite Hh]. Qed.

(** A session that opens and ends leaves nothing, whatever it did. *)
Lemma close_spec conn l l' e : conn_close conn l = (l', e) -> same_locks (end_session conn l) l'.
Proof. unfold conn_close. destruct (pop _) as [l1 x] eqn:E. intros [= <- _]. by eapply pop_locks. Qed.

(** What a statement of a session does, if it does it. *)
Lemma session_query_spec act conn l l' r : session_query act conn l = (l', r) ->
  exists l1, same_locks l l1 /\ match r with Ok b => conn ∈ lk_live l /\ act l1 = (l', b) | Err _ => l' = l1 \/ l' = (act l1).1 end.
Proof.
  unfold session_query. destruct (pop l) as [l1 x] eqn:E. apply pop_locks in E. intros Hq. exists l1. split; [done|]. revert Hq.
  destruct x as [[took e]|].
  - intros [= <- <-]. destruct (took && _); [by right|by left].
  - destruct (bool_decide (conn ∈ lk_live l1)) eqn:Eb; [|by intros [= <- <-]; left]. apply bool_decide_eq_true in Eb. rewrite (sl_live _ _ E) in Eb.
    destruct (act l1) as [l2 b] eqn:Ea. by intros [= <- <-].
Qed.

(** A session that is in progress: what it may have done to the lock. *)
Record in_session (conn : nat) (l l' : locks) : Prop := {
  is_conn : conn = lk_next l;
  is_live : lk_live l' = {[conn]} ∪ lk_live l;
  is_next : lk_next l' = S (lk_next l);
  is_holder : lk_holder l' = lk_holder l \/ (lk_holder l = None /\ lk_holder l' = Some conn)
}.

Lemma in_session_end conn l l' : locks_ok l -> in_session conn l l' -> same_locks l (end_session conn l').
Proof.
  intros [Hf Hh] [-> Hl Hn Ho]. assert (lk_next l ∉ lk_live l) as Hnew by (intros Hin%Hf; lia). split; cbn.
  - rewrite Hl. apply set_eq. intros x. rewrite elem_of_difference, elem_of_union, elem_of_singleton. split; [tauto|].
    intros Hx. split; [by right|]. by intros ->.
  - destruct Ho as [->|[-> ->]]; [|by rewrite bool_decide_eq_true_2]. rewrite bool_decide_eq_false_2; [done|]. by intros Hx%Hh.
  - lia.
Qed.

Lemma in_session_same conn l l1 l2 : in_session conn l l1 -> same_locks l1 l2 -> lk_next l2 = lk_next l1 -> in_session conn l l2.
Proof. intros [-> Hl Hn Ho] [Hl' Hh' _] Hn'. split; [done|by rewrite Hl'|by rewrite Hn'|by rewrite Hh']. Qed.

Lemma connect_spec l l' r : connect l = (l', r) -> match r with Ok conn => in_session conn l l' /\ lk_holder l' = lk_holder l | Err _ => same_locks l l' end.
Proof.
  unfold connect. destruct (pop l) as [l1 [[b e]|]] eqn:E.
  - intros [= <- <-]. by eapply pop_locks.
  - apply pop_same in E as (Hn & Hl & Hh). intros [= <- <-]. split; [|done]. split; cbn; [by rewrite Hn|by rewrite Hl|by rewrite Hn|left; by rewrite Hh].
Qed.

Lemma session_next act conn l l' r : (forall l0, lk_next (act l0).1 = lk_next l0) -> session_query act conn l = (l', r) -> lk_next l' = lk_next l.
Proof.
  intros Ha. unfold session_query. destruct (pop l) as [l1 x] eqn:E. apply pop_same in E as (Hn & _ & _). rewrite <- Hn. destruct x as [[took e]|].
  - intros [= <- <-]. destruct (took && _); [apply Ha|done].
  - destruct (bool_decide _); [|by intros [= <- <-]]. specialize (Ha l1). destruct (act l1). by intros [= <- <-].
Qed.

Lemma try_lock_spec conn l l1 l2 r : in_session conn l l1 -> lk_holder l1 = lk_holder l -> pg_try_advisory_lock conn l1 = (l2, r) ->
  in_session conn l l2 /\ (r = Ok true -> lk_holder l = None /\ lk_holder l2 = Some conn).
Proof.
  intros Hs Hh Hq. assert (lk_next l2 = lk_next l1) as Hn by (eapply session_next; [|exact Hq]; intros l0; cbv beta; by destruct (lk_holder l0)).
  apply session_query_spec in Hq as (l3 & S3 & Hr). destruct Hs as [-> Hl Hnx _].
  assert (lk_holder l3 = lk_holder l) as H3 by (by rewrite (sl_holder _ _ S3)). assert (lk_live l3 = {[lk_next l]} ∪ lk_live l) as L3 by (by rewrite (sl_live _ _ S3)).
  rewrite H3 in Hr. destruct (lk_holder l) as [h|] eqn:Eh; cbn in Hr.
  - assert (l2 = l3 /\ r <> Ok true) as [-> Hne] by (destruct r as [b|]; [destruct Hr as [_ [= <- <-]]|destruct Hr as [->| ->]]; done).
    split; [|done]. split; [done|done|by rewrite Hn|left; by rewrite Eh].
  - assert ((l2 = l3 /\ r <> Ok true) \/ l2 = set_holder l3 (Some (lk_next l))) as [[-> Hne]| ->] by (destruct r as [b|]; [destruct Hr as [_ [= <- <-]]|destruct Hr as [->| ->]]; auto).
    + split; [|done]. split; [done|done|by rewrite Hn|left; by rewrite Eh].
    + split; [|done]. split; [done|done|by rewrite Hn|by right].
Qed.

(** A lease is the lock; a refusal or a failure leaves no trace. *)
Lemma acquire_spec text dsn l l' r : locks_ok l -> acquire text dsn l = (l', r) ->
  match r with
  | Ok lease => lease = Some (lk_next l) /\ lk_holder l = None /\ in_session (lk_next l) l l' /\ lk_holder l' = Some (lk_next l)
  | Err _ => same_locks l l'
  end.
Proof.
  intros Hok. unfold acquire. destruct (bool_decide _); [by intros [= <- <-]|]. destruct (connect l) as [l1 [conn|e]] eqn:E1; apply connect_spec in E1; [|by intros [= <- <-]].
  destruct E1 as [S1 H1]. destruct (pg_try_advisory_lock conn l1) as [l2 r2] eqn:E2. destruct (try_lock_spec _ _ _ _ _ S1 H1 E2) as [S2 Hb].
  assert (forall l3 ce, conn_close conn l2 = (l3, ce) -> same_locks l l3) as Hc.
  { intros l3 ce Hc%close_spec. etrans; [by apply in_session_end|done]. }
  destruct r2 as [[]|e]; [|destruct (conn_close conn l2) as [l3 ce] eqn:E3; intros [= <- <-]; by eapply Hc..].
  intros [= <- <-]. destruct (Hb eq_refl) as [Hh Ho]. pose proof (is_conn _ _ _ S2) as Hn. by rewrite <- Hn.
Qed.

Lemma release_spec conn l l' lease e : Release (Some conn) l = (l', lease, e) -> lease = None /\ same_locks (end_session conn l) l'.
Proof.
  unfold Release. destruct (pg_advisory_unlock conn l) as [l1 r] eqn:E1. destruct (conn_close conn l1) as [l2 ce] eqn:E2. intros [= <- <- _]. split; [done|].
  apply close_spec in E2. etrans; [|exact E2]. apply session_query_spec in E1 as (l3 & [Hl Hh Hn] & Hr).
  assert (l1 = l3 \/ (lk_holder l3 = Some conn /\ l1 = set_holder l3 None)) as Hx.
  { destruct (bool_decide (lk_holder l3 = Some conn)) eqn:Eb; [apply bool_decide_eq_true in Eb|]; destruct r as [b|]; [destruct Hr as [_ [= <- <-]]|destruct Hr as [->| ->]|destruct Hr as [_ [= <- <-]]|destruct Hr as [->| ->]]; auto. }
  destruct Hx as [->|[H3 ->]]; split; cbn; rewrite ?Hl; try done.
  - by rewrite Hh.
  - rewrite Hh in H3. by rewrite (bool_decide_eq_true_2 (lk_holder l = Some conn)).
Qed.

(** Without failures a free lock is granted, and given back without an error. *)
Lemma acquire_calm text dsn l : lk_oracle l = [] -> lk_holder l = None -> trim_space dsn <> [] ->
  acquire text dsn l = (Locks (S (lk_next l)) ({[lk_next l]} ∪ lk_live l) (Some (lk_next l)) [], Ok (Some (lk_next l))).
Proof.
  intros Ho Hh Hd. unfold acquire, connect, pg_try_advisory_lock, session_query, pop. rewrite bool_decide_eq_false_2 by done. rewrite Ho. cbn [lk_oracle lk_live lk_holder lk_next].
  rewrite Ho. cbn [lk_oracle lk_live lk_holder lk_next]. rewrite bool_decide_eq_true_2 by (apply elem_of_union_l, elem_of_singleton; done). by rewrite Hh.
Qed.

Lemma release_calm conn l : lk_oracle l = [] -> lk_holder l = Some conn -> conn ∈ lk_live l -> exists l', Release (Some conn) l = (l', None, None).
Proof.
  intros Ho Hh Hl. unfold Release, pg_advisory_unlock, session_query, conn_close, pop. rewrite Ho. rewrite bool_decide_eq_true_2 by done. rewrite bool_decide_eq_true_2 by done.
  cbn [lk_oracle end_session set_holder]. rewrite Ho. by eexists.
Qed.

(** ** Exclusion *)

Record cluster_ok (c : cluster) : Prop := {
  co_locks : locks_ok (cl_locks c);
  co_known : forall p conn, cl_leases c !! p = Some (Some conn) -> (conn < lk_next (cl_locks c))%nat;
  co_held : forall p conn, cl_leases c !! p = Some (Some conn) -> conn ∈ lk_live (cl_locks c) -> lk_holder (cl_locks c) = Some conn;
  co_own : forall p q conn, cl_leases c !! p = Some (Some conn) -> cl_leases c !! q = Some (Some conn) -> p = q
}.

Lemma end_session_ok conn l : locks_ok l -> locks_ok (end_session conn l).
Proof.
  intros [Hf Hh]. split; cbn.
  - intros s [Hs _]%elem_of_difference. by apply Hf.
  - intros s. destruct (bool_decide _) eqn:E; [done|]. apply bool_decide_eq_false in E. intros Hs. rewrite elem_of_difference, elem_of_singleton. split; [by apply Hh|congruence].
Qed.

(** The end of a session, and a loss of leases. *)
Lemma cluster_end conn c l (leases : gmap nat MaintenanceLease) : cluster_ok c -> same_locks (end_session conn (cl_locks c)) l ->
  (forall p x, leases !! p = Some (Some x) -> cl_leases c !! p = Some (Some x)) -> cluster_ok (Cluster l leases).
Proof.
  intros [Hok Hk Hh Ho] Hs Hl. pose proof (same_locks_ok _ _ Hs (end_session_ok conn _ Hok)) as Hok'. destruct Hs as [S1 S2 S3]. cbn in *. split; cbn; [done|..].
  - intros p x Hp%Hl%Hk. lia.
  - intros p x Hp%Hl. rewrite S1, S2. intros [Hlive Hne]%elem_of_difference. rewrite (Hh p x) by done. rewrite bool_decide_eq_false_2; [done|]. rewrite elem_of_singleton in Hne. congruence.
  - intros p q x Hp%Hl Hq%Hl. by eapply Ho.
Qed.

Lemma cluster_same c l (leases : gmap nat MaintenanceLease) : cluster_ok c -> same_locks (cl_locks c) l ->
  (forall p x, leases !! p = Some (Some x) -> cl_leases c !! p = Some (Some x)) -> cluster_ok (Cluster l leases).
Proof.
  intros [Hok Hk Hh Ho] Hs Hl. pose proof (same_locks_ok _ _ Hs Hok) as Hok'. destruct Hs as [S1 S2 S3]. split; cbn; [done|..].
  - intros p x Hp%Hl%Hk. lia.
  - intros p x Hp%Hl. rewrite S1, S2. by eapply Hh.
  - intros p q x Hp%Hl Hq%Hl. by eapply Ho.
Qed.

Lemma cluster_acquire text dsn p c l r : cluster_ok c -> cl_leases c !! p = None -> acquire text dsn (cl_locks c) = (l, r) ->
  cluster_ok (Cluster l (match r with Ok lease => <[p := lease]> (cl_leases c) | Err _ => cl_leases c end)).
Proof.
  intros Hc Hp Hq%acquire_spec; [|apply Hc]. destruct r as [lease|e]; [|by eapply cluster_same]. destruct Hq as (-> & Hnone & [_ Hl Hn _] & Hho).
  destruct Hc as [[Hf Hh0] Hk Hh Ho]. set (conn := lk_next (cl_locks c)) in *. split; cbn.
  - split; rewrite Hl; [|rewrite Hho; intros s [= <-]; by apply elem_of_union_l, elem_of_singleton].
    intros s [->%elem_of_singleton|Hs%Hf]%elem_of_union; lia.
  - intros q x. rewrite lookup_insert_Some. intros [[_ [= <-]]|[_ Hq%Hk]]; lia.
  - intros q x. rewrite lookup_insert_Some, Hl, Hho. intros [[_ [= <-]]|[_ Hq]]; [done|]. intros [->%elem_of_singleton|Hs]%elem_of_union; [done|].
    rewrite (Hh q x) in Hnone by done. done.
  - intros q1 q2 x. rewrite !lookup_insert_Some. intros [[<- [= <-]]|[_ H1]] [[<- Hx]|[_ H2]]; [done|apply Hk in H2; lia| |by eapply Ho].
    injection Hx as <-. apply Hk in H1. lia.
Qed.

Lemma lease_step_ok c c' : lease_step c c' -> cluster_ok c -> cluster_ok c'.
Proof.
  intros [p dsn c0 l r Hp Hq|p dsn c0 l r Hp Hq|p lease c0 l lease' e Hp Hq|p c0 Hp|p conn c0 Hp|session c0] Hok.
  - by eapply cluster_acquire.
  - by eapply cluster_acquire.
  - destruct lease as [conn|].
    + apply release_spec in Hq as [-> Hs]. eapply cluster_end; [done|exact Hs|]. intros q x. rewrite lookup_insert_Some. by intros [[_ [=]]|[_ Hq]].
    + injection Hq as <- <- <-. eapply cluster_same; [done|done|]. intros q x. rewrite lookup_insert_Some. by intros [[_ [=]]|[_ Hq]].
  - eapply cluster_same; [done|done|]. intros q x. rewrite lookup_delete_Some. by intros [_ Hq].
  - eapply cluster_end; [done|reflexivity|]. intros q x. rewrite lookup_delete_Some. by intros [_ Hq].
  - by eapply cluster_end.
Qed.

Lemma cluster_start_ok oracle : cluster_ok (cluster_start oracle).
Proof. split; cbn; [|by intros ? ? ?..]. split; cbn; [intros s Hs; by apply not_elem_of_empty in Hs|done]. Qed.

Lemma reachable_ok oracle c : rtc lease_step (cluster_start oracle) c -> cluster_ok c.
Proof. intros Hr. assert (cluster_ok (cluster_start oracle)) as Hs by apply cluster_start_ok. induction Hr as [|c1 c2 c3 H12 _ IH]; [done|]. by apply IH, (lease_step_ok _ _ H12). Qed.

(** C12: one process at a time.  However processes start to serve or to maintain,
    give their leases back, exit, are killed or lose their connections, and
    whatever of their statements fails before or after it took effect, at most
    one process has a lease whose session the server still has, and that session
    is the one with the lock.  Such a lease is granted only when nobody holds the
    lock, and a refused attempt leaves the sessions and the lock as they were. *)
Theorem lease_exclusive oracle c : rtc lease_step (cluster_start oracle) c ->
  (forall p q, effective c p -> effective c q -> p = q) /\
  (forall p conn, cl_leases c !! p = Some (Some conn) -> conn ∈ lk_live (cl_locks c) -> lk_holder (cl_locks c) = Some conn) /\
  (forall acquire_lease dsn l r, acquire_lease = AcquireServiceLease \/ acquire_lease = TryAcquireMaintenanceLease ->
     acquire_lease dsn (cl_locks c) = (l, r) ->
     match r with
     | Ok lease => lk_holder (cl_locks c) = None /\ lease = lk_holder l /\ is_Some lease /\ forall p, ~ effective c p
     | Err _ => lk_live l = lk_live (cl_locks c) /\ lk_holder l = lk_holder (cl_locks c)
     end).
Proof.
  intros Hok%reachable_ok. assert (forall p conn, cl_leases c !! p = Some (Some conn) -> conn ∈ lk_live (cl_locks c) -> lk_holder (cl_locks c) = Some conn) as Hh by apply Hok. split_and!; [|done|].
  - intros p q (x & Hp & Hx) (y & Hq & Hy). assert (x = y) as <-.
    { apply (Hh p x Hp) in Hx. apply (Hh q y Hq) in Hy. congruence. }
    by eapply (co_own c Hok).
  - intros f dsn l r Hf Hq. assert (exists text, acquire text dsn (cl_locks c) = (l, r)) as [text Ha] by (destruct Hf as [->| ->]; by eexists).
    apply acquire_spec in Ha; [|apply Hok]. destruct r as [lease|e]; [|by destruct Ha]. destruct Ha as (-> & Hn & _ & ->). split_and!; [done|done|done|].
    intros p (x & Hp & Hx). rewrite (Hh p x) in Hn by done. done.
Qed.

(** *** Runs *)

Module Processes.
Definition dsn : bytes := str "postgres://db/mail".
(** The service starts; a backup is refused; the session of the service ends on
    the server; the backup starts. *)
Definition c0 : cluster := cluster_start [].
Definition begin_serving (p : nat) (c : cluster) : cluster := let '(l, r) := AcquireServiceLease dsn (cl_locks c) in Cluster l (match r with Ok lease => <[p := lease]> (cl_leases c) | Err _ => cl_leases c end).
Definition begin_maintenance (p : nat) (c : cluster) : cluster := let '(l, r) := TryAcquireMaintenanceLease dsn (cl_locks c) in Cluster l (match r with Ok lease => <[p := lease]> (cl_leases c) | Err _ => cl_leases c end).
Definition c1 : cluster := begin_serving 1 c0.
Definition c2 : cluster := begin_maintenance 2 c1.
Definition c3 : cluster := Cluster (end_session 0 (cl_locks c2)) (cl_leases c2).
Definition c4 : cluster := begin_maintenance 2 c3.
End Processes.

Lemma serve_step p c : cl_leases c !! p = None -> lease_step c (Processes.begin_serving p c).
Proof. intros Hp. unfold Processes.begin_serving. destruct (AcquireServiceLease _ _) as [l r] eqn:E. by eapply step_serve. Qed.

Lemma maintain_step p c : cl_leases c !! p = None -> lease_step c (Processes.begin_maintenance p c).
Proof. intros Hp. unfold Processes.begin_maintenance. destruct (TryAcquireMaintenanceLease _ _) as [l r] eqn:E. by eapply step_maintain. Qed.

Lemma processes_run : rtc lease_step Processes.c0 Processes.c2 /\ rtc lease_step Processes.c0 Processes.c4.
Proof.
  assert (rtc lease_step Processes.c0 Processes.c2) as H2.
  { eapply rtc_l; [apply (serve_step 1); reflexivity|]. eapply rtc_once. apply (maintain_step 2). reflexivity. }
  split; [done|]. eapply rtc_r; [eapply rtc_r; [exact H2|apply (step_lost 0)]|]. apply (maintain_step 2). reflexivity.
Qed.

(** A service whose session is lost keeps its lease, and another process gets
    one too: nothing looks at the connection until the lease is released. *)
Lemma lost_lease_unnoticed : exists s1 s2, cl_leases Processes.c4 !! 1%nat = Some (Some s1) /\ cl_leases Processes.c4 !! 2%nat = Some (Some s2) /\ effective Processes.c4 2 /\ ~ effective Processes.c4 1.
Proof.
  exists 0%nat, 2%nat. split_and!; [reflexivity|reflexivity|exists 2%nat; split; [reflexivity|vm_compute; reflexivity]|].
  intros (x & Hx & Hl). vm_compute in Hx. injection Hx as <-. revert Hl. apply (bool_decide_unpack _). vm_compute. exact I.
Qed.

Lemma lease_exclusive_witness : (forall p, effective Processes.c2 p -> p = 1%nat) /\ lk_holder (cl_locks Processes.c2) = Some 0%nat /\
  exists e l, TryAcquireMaintenanceLease Processes.dsn (cl_locks Processes.c2) = (l, Err e) /\ errors_is e ErrServiceActive = true /\ lk_holder l = Some 0%nat.
Proof.
  destruct (lease_exclusive [] Processes.c2 (proj1 processes_run)) as (H1 & H2 & H3). assert (effective Processes.c2 1) as Hp by (exists 0%nat; split; [reflexivity|vm_compute; reflexivity]).
  split; [intros p Hq; by apply H1|]. split; [apply (H2 1%nat); [reflexivity|vm_compute; reflexivity]|].
  destruct (TryAcquireMaintenanceLease Processes.dsn (cl_locks Processes.c2)) as [l r] eqn:E. pose proof (H3 _ _ _ _ (or_intror eq_refl) E) as Hr.
  destruct r as [lease|e]; [by destruct Hr|]. exists e, l. split; [done|]. split; [|by destruct Hr as [_ ->]].
  vm_compute in E. by injection E as _ <-.
Defined.
