(* ===== verification/Supervisor.v ===== *)
(** * The life of the process: [App.Run] of [internal/app/app.go]

    The services run in goroutines of their own; what [Run] sees of them is the
    order in which the cases of its two [select] statements become ready.  That
    order is the argument [schedule], and the calls [Run] makes are a log. *)

From S2P Require Import Prelude GoStrings Errors Database DatabaseFacts DeliveryRepo Lease.

Record serviceResult := MkResult { sr_name : bytes; sr_err : option goerr }.

Definition unexpectedServiceError (result : serviceResult) : goerr :=
  match sr_err result with
  | None => ENew "service stopped unexpectedly"
  | Some e => EWrap "service" e
  end.

Definition stoppedServiceError (result : serviceResult) : option goerr :=
  match sr_err result with
  | None => None
  | Some e =>
    if bool_decide (sr_name result = str "http") && errors_is e HttpErrServerClosed then None
    else Some (EWrap "service during shutdown" e)
  end.

(** What ends the first [select]: the context, or a result, read when the
    context was ([true]) or was not yet cancelled. *)
Inductive first_event := Requested | Ended (result : serviceResult) (requested : bool).

(** What a round of the second [select] takes. *)
Inductive late_event := Stopped (result : serviceResult) | DeadlineReached.

Record schedule := MkSchedule {
  sd_listen : option goerr;        (* the error of [net.Listen] *)
  sd_first : first_event;
  sd_shutdown : option goerr;      (* the error of [Shutdown] *)
  sd_late : list late_event
}.

Inductive action :=
| AcquireLease | Start (name : bytes) | SetReady (ready : bool) | CancelServices | Shutdown | CloseHTTP | ReleaseLease | ClosePool.

#[global] Instance action_eq_dec : EqDecision action.
Proof. solve_decision. Defined.

(** [errors.Join(runError, e)] *)
Definition join_run (runError : option goerr) (e : goerr) : option goerr :=
  Some (match runError with None => e | Some r => EWrap2 "join" r e end).

(** The loop over the results that are still missing; [None] while it waits. *)
Fixpoint await_services (missing : nat) (events : list late_event) (runError : option goerr) : option (list action * option goerr) :=
  match missing, events with
  | O, _ => Some ([], runError)
  | S _, [] => None
  | S missing, Stopped result :: events =>
    await_services missing events (match stoppedServiceError result with None => runError | Some e => join_run runError e end)
  | S _, DeadlineReached :: _ => Some ([CloseHTTP], join_run runError (ENew "services did not stop before shutdown deadline"))
  end.

Definition services (retention : bool) : list bytes :=
  [str "http"; str "lmtp"; str "parser"] ++ (if retention then [str "retention"] else []).

(** The first [select]: how many results were received, and the error so far. *)
Definition first_result (first : first_event) : nat * option goerr :=
  match first with
  | Requested => (0%nat, None)
  | Ended _ true => (1%nat, None)
  | Ended result false => (1%nat, Some (unexpectedServiceError result))
  end.

(** From the start of the services to the result, with the deferred
    [cancelServices]. *)
Definition supervise (retention : bool) (s : schedule) : option (list action * option goerr) :=
  let '(received, runError) := first_result (sd_first s) in
  let '(closed, runError) :=
    match sd_shutdown s with
    | None => ([], runError)
    | Some e => ([CloseHTTP], join_run runError (EWrap "shutdown HTTP server" e))
    end in
  match await_services (length (services retention) - received) (sd_late s) runError with
  | None => None
  | Some (log, e) =>
    Some ((Start <$> services retention) ++ [SetReady true; SetReady false; CancelServices; Shutdown] ++ closed ++ log ++ [CancelServices], e)
  end.

(** [App.Run], on a database with the schema [schema]. *)
Definition Run (retention : bool) (dsn : bytes) (schema : Z) (s : schedule) (d : db) (l : locks) : option (db * locks * list action * option goerr) :=
  match Ready schema d with
  | (d, Err e) => Some (d, l, [ClosePool], Some (EWrap "verify postgres readiness" e))
  | (d, Ok _) =>
    match AcquireServiceLease dsn l with
    | (l, Err e) => Some (d, l, [ClosePool], Some (EWrap "acquire service maintenance lease" e))
    | (l, Ok lease) =>
      match (match sd_listen s with Some e => Some ([], Some (EWrap "listen for LMTP" e)) | None => supervise retention s end) with
      | None => None
      | Some (log, e) =>
        let '(l, _, releaseErr) := Release lease l in
        Some (d, l, AcquireLease :: log ++ [ReleaseLease; ClosePool],
              match releaseErr with None => e | Some x => join_run e (EWrap "release service maintenance lease" x) end)
      end
    end
  end.

(** ** Its end *)

(** A late event that is no error. *)
Definition clean (event : late_event) : Prop := exists result, event = Stopped result /\ stoppedServiceError result = None.

(** Enough happens for the loop to end: the deadline passes, or every service
    stops. *)
Definition settles (retention : bool) (s : schedule) : Prop :=
  DeadlineReached ∈ sd_late s \/ (length (services retention) <= (first_result (sd_first s)).1 + length (sd_late s))%nat.

Lemma await_ends missing events e : DeadlineReached ∈ events \/ (missing <= length events)%nat -> is_Some (await_services missing events e).
Proof.
  revert missing e. induction events as [|[r|] events IH]; intros [|missing] e Hs; cbn [await_services]; try done.
  - destruct Hs as [Hs|Hs]; [by apply not_elem_of_nil in Hs|cbn in Hs; lia].
  - apply IH. destruct Hs as [[Hs|Hs]%elem_of_cons|Hs]; [done|by left|right; cbn in Hs; lia].
Qed.

Lemma await_log missing events e log e' : await_services missing events e = Some (log, e') -> log = [] \/ log = [CloseHTTP].
Proof.
  revert events e. induction missing as [|missing IH]; intros events e; cbn [await_services]; [intros [= <- _]; by left|].
  destruct events as [|[r|] events]; [done|by apply IH|]. intros [= <- _]. by right.
Qed.

(** No error: there was none before and every service stopped cleanly. *)
Lemma await_clean missing events e log : await_services missing events e = Some (log, None) ->
  e = None /\ (missing <= length events)%nat /\ Forall clean (take missing events).
Proof.
  revert events e. induction missing as [|missing IH]; intros events e; cbn [await_services]; [intros [= _ ->]; cbn; split_and!; [done|lia|constructor]|].
  destruct events as [|[r|] events]; [done| |done]. intros (He & Hl & Hf)%IH. destruct (stoppedServiceError r) eqn:Er; [done|]. cbn.
  split_and!; [done|lia|]. constructor; [by exists r|done].
Qed.

Lemma await_quiet missing events : (missing <= length events)%nat -> Forall clean (take missing events) -> await_services missing events None = Some ([], None).
Proof.
  revert events. induction missing as [|missing IH]; intros events Hl Hf; cbn [await_services]; [done|].
  destruct events as [|ev events]; [cbn in Hl; lia|]. cbn in Hl, Hf. apply Forall_cons in Hf as [(r & -> & ->) Hf]. apply IH; [lia|done].
Qed.

(** A schedule of an orderly shutdown. *)
Record orderly (retention : bool) (s : schedule) : Prop := {
  od_listen : sd_listen s = None;
  od_first : forall result, sd_first s <> Ended result false;
  od_shutdown : sd_shutdown s = None;
  od_enough : (length (services retention) - (first_result (sd_first s)).1 <= length (sd_late s))%nat;
  od_late : Forall clean (take (length (services retention) - (first_result (sd_first s)).1) (sd_late s))
}.

Lemma supervise_clean retention s log : sd_listen s = None -> supervise retention s = Some (log, None) -> orderly retention s.
Proof.
  intros Hl. unfold supervise. destruct (first_result (sd_first s)) as [received e0] eqn:E1.
  set (x := match sd_shutdown s with None => _ | Some _ => _ end). destruct x as [closed e1] eqn:E2. subst x.
  destruct (await_services _ _ e1) as [[log' e2]|] eqn:E3; [|done]. intros [= _ ->]. apply await_clean in E3 as (-> & Hn & Hf).
  destruct (sd_shutdown s) as [e|] eqn:Es; [by injection E2 as _ E2|]. injection E2 as _ ->.
  split; [done| |done|by rewrite E1|by rewrite E1]. intros r Hr. rewrite Hr in E1. done.
Qed.

Lemma supervise_orderly retention s : orderly retention s -> exists log, supervise retention s = Some (log, None).
Proof.
  intros [Hl Hf Hs Hn Hc]. unfold supervise. rewrite Hs. destruct (first_result (sd_first s)) as [received e0] eqn:E1. cbn [fst] in *.
  assert (e0 = None) as -> by (destruct (sd_first s) as [|r []]; [by injection E1 as _ <-|by injection E1 as _ <-|by destruct (Hf r)]).
  rewrite await_quiet by done. by eexists.
Qed.

Lemma supervise_log retention s log e : supervise retention s = Some (log, e) -> exists rest,
  log = (Start <$> services retention) ++ [SetReady true; SetReady false; CancelServices] ++ rest /\ Forall (λ a, a ∈ [Shutdown; CloseHTTP; CancelServices]) rest.
Proof.
  unfold supervise. destruct (first_result _) as [received e0]. set (x := match sd_shutdown s with None => _ | Some _ => _ end).
  assert (x.1 = [] \/ x.1 = [CloseHTTP]) as Hx by (subst x; destruct (sd_shutdown s); auto). destruct x as [closed e1]. cbn in Hx.
  destruct (await_services _ _ e1) as [[log' e2]|] eqn:E; [|done]. apply await_log in E. intros [= <- _]. exists (Shutdown :: closed ++ log' ++ [CancelServices]).
  split; [reflexivity|]. destruct Hx as [->| ->], E as [->| ->]; apply (bool_decide_unpack _); vm_compute; exact I.
Qed.

Lemma run_settles retention dsn schema s d l : settles retention s -> is_Some (Run retention dsn schema s d l).
Proof.
  intros Hs. unfold Run. destruct (Ready schema d) as [d1 [[]|x]]; [|done]. destruct (AcquireServiceLease dsn l) as [l1 [lease|x]]; [|done].
  assert (is_Some (supervise retention s)) as [[log e] Hx].
  { unfold supervise, settles in *. destruct (first_result (sd_first s)) as [received e0]. cbn [fst] in Hs. destruct (match sd_shutdown s with None => _ | Some _ => _ end) as [closed e1].
    destruct (await_ends (length (services retention) - received) (sd_late s) e1) as [[log e] ->]; [|done]. destruct Hs as [|Hle]; [by left|right; lia]. }
  rewrite Hx. destruct (sd_listen s); by destruct (Release lease l1) as [[l2 m] re].
Qed.

Lemma run_orderly retention dsn s d l : orderly retention s -> db_oracle d = [] -> lk_oracle l = [] -> lk_holder l = None -> trim_space dsn <> [] ->
  exists l' log, Run retention dsn LatestVersion s d l = Some (d, l', log, None).
Proof.
  intros Ho Hd Hl Hh Hn. unfold Run, Ready, dbind. rewrite query_calm by done. rewrite Z.eqb_refl. cbn [negb dret]. unfold AcquireServiceLease. rewrite acquire_calm by done.
  rewrite (od_listen _ _ Ho). destruct (supervise_orderly _ _ Ho) as [log ->].
  destruct (release_calm (lk_next l) (Locks (S (lk_next l)) ({[lk_next l]} ∪ lk_live l) (Some (lk_next l)) [])) as [l' ->]; [done|done|cbn; by apply elem_of_union_l, elem_of_singleton|]. by do 2 eexists.
Qed.


(** *** A run *)

Module Shift.
Definition dsn : bytes := str "postgres://db/mail".
(** A shutdown is requested; the services stop, the HTTP server with the error
    that [Shutdown] causes. *)
Definition day : schedule :=
  MkSchedule None Requested None
    [Stopped (MkResult (str "lmtp") None); Stopped (MkResult (str "http") (Some (ESentinel HttpErrServerClosed)));
     Stopped (MkResult (str "retention") None); Stopped (MkResult (str "parser") None)].
Definition free : locks := Locks 3 ∅ None [].
Definition database : db := Db ∅ ∅ ∅ ∅ ∅ ∅ ∅ 1 1 false [].
Definition run_of (s : schedule) : option (db * locks * list action * option goerr) := Run true dsn LatestVersion s database free.

Lemma free_ok : locks_ok free.
Proof. split; [intros s Hs; by apply not_elem_of_empty in Hs|done]. Qed.
End Shift.

Definition run_error_of (r : option (db * locks * list action * option goerr)) : option goerr := match r with Some (_, _, _, e) => e | None => None end.

(** The run of the schedule, one in which the parser fails, and one in which the
    services hang. *)
Lemma shift_runs : (exists d l log, Shift.run_of Shift.day = Some (d, l, log, None)) /\
  is_Some (run_error_of (Shift.run_of (MkSchedule None (Ended (MkResult (str "parser") None) false) None [DeadlineReached]))) /\
  Shift.run_of (MkSchedule None Requested None []) = None.
Proof. split_and!; [vm_compute; by do 3 eexists|vm_compute; by eexists|vm_compute; reflexivity]. Qed.

