(* ===== verification/HttpApi.v ===== *)
(** * The canonical HTTP API: the handlers of [internal/httpapi/server.go]

    One definition per handler, on a process with its database, its content
    store, the creation limiter and the downloads in progress. *)

From S2P Require Import Prelude GoStrings GoTime Errors Codec NetIP Uuid FileSystem Message ContentStore ContentStoreFacts Mail Database DatabaseFacts Token Scope DeliveryRepo MailboxRepo CapabilityRepo Capability CapabilityDb Cursor LmtpCommand MailboxService BrowserSession CreateQuota Http.

#[local] Opaque sha256.

(** ** The server *)

Record Server := MkServer {
  s_ready : bool;
  s_readiness : option Z;   (* with the checker, the version of the schema it finds *)
  s_mailbox : option Service;
  s_authenticator : bool;
  s_sessions : option BrowserSessionManager;
  s_quota : option QuotaService;
  s_proxies : list (bytes * bytes);
  s_heavy : Z;
  s_content : config
}.

(** What the handlers change; [wb_heavy] counts the downloads of others. *)
Record web := Web { wb_host : host; wb_store : Store; wb_limiter : createLimiter; wb_heavy : Z }.

Definition on_host {A} (w : web) (x : host * A) : web * A := (Web x.1 (wb_store w) (wb_limiter w) (wb_heavy w), x.2).

Inductive payload (S : Type) : Type :=
| PNone
| PError (e : error_response)
| PStatus (status : string)
| PCreated (inbox : Inbox) (capability : IssuedCapability)
| PInbox (inbox : Inbox)
| PSession (inbox : Inbox) (expiresAt : Z) (csrf : bytes)
| PPage (items : list MessageSummary) (nextCursor : bytes)
| PMessage (detail : MessageDetail)
| PSource (source : RawSource)
| PAttachment (source : AttachmentSource S) (contentType : bytes).
Arguments PNone {S}.
Arguments PError {S}.
Arguments PStatus {S}.
Arguments PCreated {S}.
Arguments PInbox {S}.
Arguments PSession {S}.
Arguments PPage {S}.
Arguments PMessage {S}.
Arguments PSource {S}.
Arguments PAttachment {S}.

(** The quota headers: limit, remaining, seconds to the reset, retry. *)
Record quota_headers := QuotaHeaders { qh_limit : Z; qh_remaining : Z; qh_reset : Z; qh_retry : option Z }.

Record response (S : Type) := MkResponse {
  rs_status : Z; rs_body : payload S; rs_cookie : option set_cookie; rs_quota : option quota_headers; rs_retry : bool
}.
Arguments MkResponse {S}.
Arguments rs_status {S}.
Arguments rs_body {S}.
Arguments rs_cookie {S}.
Arguments rs_quota {S}.
Arguments rs_retry {S}.

Definition answer {S} (status : Z) (body : payload S) : response S := MkResponse status body None None false.
Definition write_error {S} (status : Z) (code message : string) : response S :=
  answer status (PError (MkError status code message)).
Definition write_mapped {S} (e : goerr) : response S := answer (er_status (mapped_error e)) (PError (mapped_error e)).

Definition second : Z := 1000000000.

Definition session_cookie (now : Z) (b : BrowserSession) : set_cookie :=
  SetCookie (bs_CookieValue b) (Z.max 1 (trunc (seconds (time_sub (bs_ExpiresAt b) now)))) (bs_ExpiresAt b).

Definition clear_cookie : set_cookie := SetCookie [] (-1) second.

(** [setCreateQuotaHeaders] *)
Definition create_quota_headers (now : Z) (decision : QuotaDecision) (err : option goerr) : option quota_headers :=
  if (de_Limit decision <=? 0) || bool_decide (de_ResetAt decision = zero_time) then None
  else
    let reset := Z.max 1 (trunc (seconds (time_sub (de_ResetAt decision) now))) in
    Some (QuotaHeaders (de_Limit decision) (Z.max 0 (de_Remaining decision)) reset
      (if errors_is_opt err ErrDailyCreateQuotaExceeded then Some reset else None)).

(** [strings.EqualFold(scheme, "Bearer")]; the letters of the word fold to
    ASCII letters only. *)
Definition is_bearer (scheme : bytes) : bool := bool_decide (to_lower scheme = str "bearer").

Section Handlers.
Context `{!UUIDLib} {S : Type} (parser : option (disk -> nat -> bytes -> disk * res S)) (parse_media : bytes -> option bytes).
Context (s : Server) (r : request).

Abbreviation reply := (web * response S)%type.

(** [authenticateBearer] *)
Definition authenticateBearer (w : web) (scopes : list Z) : web * res Principal :=
  let '(scheme, plaintext, found) := cut (rq_authorization r) " "%char in
  let plaintext := trim_space plaintext in
  if negb found || negb (is_bearer scheme) || bool_decide (plaintext = []) then (w, Err (ESentinel ErrUnauthenticated))
  else on_host w (Capability.Authenticate (wb_host w) plaintext scopes).

(** [requireBrowserPrincipal] *)
Definition requireBrowserPrincipal (w : web) (requireCSRF : bool) (scopes : list Z) : web * (Principal + response S) :=
  let refused := write_error 401 "unauthenticated" "a MailWisp capability or browser session is required" in
  match s_mailbox s, s_sessions s with
  | Some _, Some sessions =>
    match rq_cookie r with
    | None => (w, inr refused)
    | Some cookie =>
      if bool_decide (cookie = []) then (w, inr refused)
      else match BrowserSession.Authenticate sessions (rq_ctx r) (h_clock (wb_host w)) cookie (rq_csrf r) requireCSRF scopes with
      | Err e => (w, inr (write_mapped e))
      | Ok principal => (w, inl principal)
      end
    end
  | _, _ => (w, inr refused)
  end.

Definition safe_method (method : bytes) : bool :=
  bool_decide (method = str "GET") || bool_decide (method = str "HEAD") || bool_decide (method = str "OPTIONS").

(** [requirePrincipal], with the mailbox service it has checked. *)
Definition requirePrincipal (w : web) (scopes : list Z) : web * (Service * Principal + response S) :=
  match s_mailbox s, s_authenticator s with
  | Some service, true =>
    if negb (bool_decide (trim_space (rq_authorization r) = [])) then
      match authenticateBearer w scopes with
      | (w, Err e) => (w, inr (write_mapped e))
      | (w, Ok principal) => (w, inl (service, principal))
      end
    else
      match requireBrowserPrincipal w (negb (safe_method (rq_method r))) scopes with
      | (w, inr e) => (w, inr e)
      | (w, inl principal) => (w, inl (service, principal))
      end
  | _, _ => (w, inr (write_error 501 "not_configured" "Inbox API is not configured"))
  end.

(** A handler for an authenticated inbox. *)
Definition with_principal (scopes : list Z) (w : web) (k : web -> InboxID -> Principal -> reply) : reply :=
  match requirePrincipal w scopes with
  | (w, inr e) => (w, e)
  | (w, inl (_, principal)) => k w (pl_InboxID principal) principal
  end.

Definition parseMessageID (raw : bytes) : option bytes :=
  match uuid_parse raw with None => None | Some _ => Some raw end.

Definition with_message (w : web) (k : bytes -> reply) : reply :=
  match parseMessageID (rq_id r) with
  | None => (w, write_mapped (ESentinel ErrMessageNotFound))
  | Some messageID => k messageID
  end.

(** The result of a call that only reports an error. *)
Definition no_content (x : web * option goerr) (cookie : option set_cookie) : reply :=
  match x with
  | (w, Some e) => (w, write_mapped e)
  | (w, None) => (w, MkResponse 204 PNone cookie None false)
  end.

Definition handleLive (w : web) : reply := (w, answer 200 (PStatus "ok")).

(** The checker is the delivery repository. *)
Definition handleReady (w : web) : reply :=
  if negb (s_ready s) then (w, write_error 503 "service_unavailable" "service is not ready")
  else match s_readiness s with
  | None => (w, answer 200 (PStatus "ready"))
  | Some schema =>
    match on_host w (lift (Ready schema) (wb_host w)) with
    | (w, Err _) => (w, write_error 503 "service_unavailable" "service dependency is unavailable")
    | (w, Ok _) => (w, answer 200 (PStatus "ready"))
    end
  end.

(** [consumeCreateQuota] *)
Definition consumeCreateQuota (w : web) : web * (QuotaDecision * option goerr) :=
  match s_quota s with
  | None => (w, (no_decision, Some (ENew "persistent Inbox create quota is not configured")))
  | Some quota =>
    let h := wb_host w in
    let '(d, x) := Consume quota (Attempt (rq_ctx r) (clientIP (s_proxies s) r) (h_clock h) []) (h_db h) in
    (Web (Host d (h_random h) (h_clock h)) (wb_store w) (wb_limiter w) (wb_heavy w), x)
  end.

Definition maxTTLSeconds : Z := 365 * 24 * 3600.

(** The part of [handleCreateInbox] behind the checks of the body. *)
Definition create_admitted (service : Service) (w : web) (domain : bytes) (lifetime : Z) : reply :=
  match consumeCreateQuota w with
  | (w, (decision, err)) =>
    let headers := create_quota_headers (h_clock (wb_host w)) decision err in
    let quoted (resp : response S) := MkResponse (rs_status resp) (rs_body resp) (rs_cookie resp) headers (rs_retry resp) in
    match err with
    | Some e =>
      if errors_is e ErrDailyCreateQuotaExceeded
      then (w, quoted (write_error 429 "daily_quota_exceeded" "daily Inbox creation quota exceeded"))
      else (w, quoted (write_error 500 "internal_error" "persistent Inbox admission failed"))
    | None =>
      match on_host w (Create service (wb_host w) (MkCreateRequest domain [] lifetime)) with
      | (w, Err e) => (w, quoted (write_mapped e))
      | (w, Ok created) => (w, quoted (answer 201 (PCreated (ci_Inbox created) (ci_Capability created))))
      end
    end
  end.

Definition handleCreateInbox (w : web) : reply :=
  match s_mailbox s with
  | None => (w, write_error 501 "not_configured" "Inbox API is not configured")
  | Some service =>
    let '(limiter, allowed) := allow (clientIP (s_proxies s) r) (h_clock (wb_host w)) (wb_limiter w) in
    let w := Web (wb_host w) (wb_store w) limiter (wb_heavy w) in
    if negb allowed then (w, write_error 429 "rate_limited" "too many Inbox creation requests")
    else match rq_create r with
    | DecodeError => (w, write_error 400 "invalid_request" "request body is invalid")
    | first =>
      let '(domain, ttl) := match first with Decoded x => x | _ => ([], 0) end in
      match rq_more r with
      | DecodeEOF =>
        if (ttl <? 0) || (maxTTLSeconds <? ttl) then (w, write_error 400 "invalid_lifetime" "ttl_seconds is invalid")
        else create_admitted service w domain (ttl * second)
      | _ => (w, write_error 400 "invalid_request" "request body must contain one JSON object")
      end
    end
  end.

(** [Issue] with the process's clock and random source. *)
Definition issue_session (sessions : BrowserSessionManager) (w : web) (principal : Principal) : web * res BrowserSession :=
  let h := wb_host w in
  match BrowserSession.Issue sessions (rq_ctx r) (h_clock h) (h_random h) principal with
  | Err e => (w, Err e)
  | Ok (b, rest) => (Web (take_random h rest) (wb_store w) (wb_limiter w) (wb_heavy w), Ok b)
  end.

Definition handleCreateSession (w : web) : reply :=
  match s_mailbox s, s_authenticator s, s_sessions s with
  | Some _, true, Some sessions =>
    match authenticateBearer w [] with
    | (w, Err e) => (w, write_mapped e)
    | (w, Ok principal) =>
      match issue_session sessions w principal with
      | (w, Err e) => (w, write_mapped e)
      | (w, Ok session) =>
        match on_host w (Get (wb_host w) (pl_InboxID principal)) with
        | (w, Err e) => (w, write_mapped e)
        | (w, Ok inbox) =>
          (w, MkResponse 201 (PSession inbox (bs_ExpiresAt session) (bs_CSRFToken session))
                (Some (session_cookie (h_clock (wb_host w)) session)) None false)
        end
      end
    end
  | _, _, _ => (w, write_error 501 "not_configured" "browser sessions are not configured")
  end.

Definition handleGetSession (w : web) : reply :=
  match requireBrowserPrincipal w false [ScopeInboxRead] with
  | (w, inr e) => (w, e)
  | (w, inl principal) =>
    match on_host w (Get (wb_host w) (pl_InboxID principal)) with
    | (w, Err e) => (w, write_mapped e)
    | (w, Ok inbox) =>
      match s_sessions s with
      | None => (w, write_mapped (ESentinel ErrBrowserSessionDisabled))
      | Some sessions =>
        match issue_session sessions w principal with
        | (w, Err e) => (w, write_mapped e)
        | (w, Ok rotated) =>
          (w, MkResponse 200 (PSession inbox (bs_ExpiresAt rotated) (bs_CSRFToken rotated))
                (Some (session_cookie (h_clock (wb_host w)) rotated)) None false)
        end
      end
    end
  end.

Definition handleDeleteSession (w : web) : reply :=
  match requireBrowserPrincipal w true [ScopeInboxRead] with
  | (w, inr e) => (w, e)
  | (w, inl _) => (w, MkResponse 204 PNone (Some clear_cookie) None false)
  end.

Definition handleGetInbox (w : web) : reply :=
  with_principal [ScopeInboxRead] w (λ w inboxID _,
    match on_host w (Get (wb_host w) inboxID) with
    | (w, Err e) => (w, write_mapped e)
    | (w, Ok inbox) => (w, answer 200 (PInbox inbox))
    end).

Definition handleDeleteInbox (w : web) : reply :=
  with_principal [ScopeInboxDelete] w (λ w inboxID _,
    no_content (on_host w (Delete (wb_host w) inboxID)) (Some clear_cookie)).

Definition handleListMessages (w : web) : reply :=
  with_principal [ScopeMessageRead] w (λ w inboxID _,
    match (if bool_decide (rq_limit r = []) then Some 50
           else match parse_int64 (rq_limit r) with
           | Some n => if (n <? 1) || (100 <? n) then None else Some n
           | None => None end) with
    | None => (w, write_error 400 "invalid_pagination" "limit must be between 1 and 100")
    | Some limit =>
      match decodeMessageCursor (rq_cursor r) with
      | Err _ => (w, write_error 400 "invalid_pagination" "cursor is invalid")
      | Ok cursor =>
        match on_host w (lift (MailboxService.ListMessages inboxID (MkCursorPage limit cursor)) (wb_host w)) with
        | (w, Err e) => (w, write_mapped e)
        | (w, Ok page) =>
          match cm_Next page with
          | None => (w, answer 200 (PPage (cm_Items page) []))
          | Some next =>
            match encodeMessageCursor next with
            | Err _ => (w, write_error 500 "internal_error" "message page is unavailable")
            | Ok text => (w, answer 200 (PPage (cm_Items page) text))
            end
          end
        end
      end
    end).

Definition handleGetMessage (w : web) : reply :=
  with_principal [ScopeMessageRead] w (λ w inboxID _,
    with_message w (λ messageID,
      match on_host w (MailboxService.GetMessage (wb_host w) inboxID messageID) with
      | (w, Err e) => (w, write_mapped e)
      | (w, Ok detail) => (w, answer 200 (PMessage detail))
      end)).

Definition handleUpdateMessage (w : web) : reply :=
  with_principal [ScopeMessageUpdate] w (λ w inboxID _,
    with_message w (λ messageID,
      match rq_update r with
      | Decoded (Some true) =>
        match rq_more r with
        | DecodeEOF => no_content (on_host w (MailboxService.MarkMessageSeen (wb_host w) inboxID messageID)) None
        | _ => (w, write_error 400 "invalid_request" "request body must contain one JSON object")
        end
      | _ => (w, write_error 400 "invalid_request" "seen must be true")
      end)).

Definition handleDeleteMessage (w : web) : reply :=
  with_principal [ScopeMessageDelete] w (λ w inboxID _,
    with_message w (λ messageID,
      no_content (on_host w (MailboxService.DeleteMessage (wb_host w) inboxID messageID)) None)).

(** [beginHeavyRead]; the slot is given back when the handler returns. *)
Definition with_slot (w : web) (k : reply) : reply :=
  if wb_heavy w <? s_heavy s then k
  else (w, MkResponse 503 (PError (MkError 503 "service_busy" "message download capacity is busy")) None None true).

Definition on_store {A} (w : web) (x : host * Store * A) : web * A := (Web x.1.1 x.1.2 (wb_limiter w) (wb_heavy w), x.2).

Definition handleGetSource (w : web) : reply :=
  with_principal [ScopeMessageRead] w (λ w inboxID _,
    with_message w (λ messageID,
      with_slot w
        match on_store w (OpenSource (s_content s) (wb_host w) (wb_store w) inboxID messageID) with
        | (w, Err e) => (w, write_mapped e)
        | (w, Ok source) => (w, answer 200 (PSource source))
        end)).

Definition attachment_type (contentType : bytes) : bytes :=
  match parse_media contentType with
  | Some (_ :: _) => contentType
  | _ => str "application/octet-stream"
  end.

Definition handleGetAttachment (w : web) : reply :=
  with_principal [ScopeMessageRead] w (λ w inboxID _,
    with_message w (λ messageID,
      with_slot w
        match on_store w (OpenAttachment parser (s_content s) (wb_host w) (wb_store w) inboxID messageID (rq_part r)) with
        | (w, Err e) => (w, write_mapped e)
        | (w, Ok source) => (w, answer 200 (PAttachment source (attachment_type (as_ContentType _ source))))
        end)).

(** ** Routes *)

Inductive route : Type :=
| Live | ReadyRoute | CreateInboxRoute | CreateSession | GetSession | DeleteSession | GetInboxRoute | DeleteInboxRoute
| ListMessagesRoute | GetMessageRoute | UpdateMessage | GetSource | GetAttachment | DeleteMessageRoute.

(** The method of a route's pattern. *)
Definition route_method (x : route) : bytes :=
  match x with
  | CreateInboxRoute | CreateSession => str "POST"
  | DeleteSession | DeleteInboxRoute | DeleteMessageRoute => str "DELETE"
  | UpdateMessage => str "PATCH"
  | _ => str "GET"
  end.

(** The requests the multiplexer passes on: [GET] also matches [HEAD]. *)
Definition mux_accepts (x : route) (method : bytes) : bool :=
  bool_decide (method = route_method x) ||
  bool_decide (route_method x = str "GET") && bool_decide (method = str "HEAD").

Definition serve (x : route) (w : web) : reply :=
  match x with
  | Live => handleLive w
  | ReadyRoute => handleReady w
  | CreateInboxRoute => handleCreateInbox w
  | CreateSession => handleCreateSession w
  | GetSession => handleGetSession w
  | DeleteSession => handleDeleteSession w
  | GetInboxRoute => handleGetInbox w
  | DeleteInboxRoute => handleDeleteInbox w
  | ListMessagesRoute => handleListMessages w
  | GetMessageRoute => handleGetMessage w
  | UpdateMessage => handleUpdateMessage w
  | GetSource => handleGetSource w
  | GetAttachment => handleGetAttachment w
  | DeleteMessageRoute => handleDeleteMessage w
  end.
End Handlers.
