(* ===== verification/HttpFacts.v ===== *)
(** * Isolation of inboxes behind the HTTP API

    A request reads and changes rows of one inbox only: the one named by the
    credential it presents. *)

From S2P Require Import Prelude GoStrings Errors Codec NetIP Uuid FileSystem Message ContentStore ContentStoreFacts ContentStoreSpec Mail Database DatabaseFacts Token Scope DeliveryRepo MailboxRepo CapabilityRepo Capability CapabilityDb Cursor LmtpCommand MailboxService BrowserSession CreateQuota Http HttpApi.

#[local] Opaque sha256.

(** ** Whose data a request touches *)

(** Nothing but the rows of one inbox changes; without one, no row of an
    existing inbox and no message does. *)
Record confined (u : option uuid) (d d' : db) : Prop := {
  cf_inboxes : forall id row, Some id <> u -> inboxes d !! id = Some row -> inboxes d' !! id = Some row;
  cf_kept : forall mid m, Some (ms_inbox m) <> u -> messages d !! mid = Some m -> messages d' !! mid = Some m;
  cf_new : forall mid m', messages d' !! mid = Some m' -> exists m, messages d !! mid = Some m /\ ms_inbox m = ms_inbox m'
}.

Lemma confined_same u d d' : inboxes d' = inboxes d -> messages d' = messages d -> confined u d d'.
Proof. intros E1 E2. split; [by rewrite E1|by rewrite E2|rewrite E2; by eauto]. Qed.

Lemma confined_trans u d1 d2 d3 : confined u d1 d2 -> confined u d2 d3 -> confined u d1 d3.
Proof.
  intros [A1 A2 A3] [B1 B2 B3]. split; [by eauto..|]. intros mid m Hm.
  destruct (B3 _ _ Hm) as (m2 & Hm2 & <-). by apply A3.
Qed.

Lemma confined_tables u d d' : same_tables d d' -> confined u d d'.
Proof. intros []. by apply confined_same. Qed.

Lemma confined_removed v d d' : removed [v] d d' -> confined (Some v) d d'.
Proof.
  intros (E1 & E2 & _). split.
  - intros id row Hne Hr. rewrite E1. apply map_lookup_filter_Some. split; [done|]. cbn. rewrite list_elem_of_singleton. congruence.
  - intros mid m Hne Hm. rewrite E2. apply map_lookup_filter_Some. split; [done|]. cbn. rewrite list_elem_of_singleton. congruence.
  - intros mid m. rewrite E2, map_lookup_filter_Some. intros [? _]. by eauto.
Qed.

Section Effects.
Context `{!UUIDLib} `{!UUIDSpec _} (q : DeliveryLimits).

Lemma DeleteInbox_confined inboxID d d' x :
  healthy q d -> DeleteInbox inboxID d = (d', x) -> confined (uuid_parse inboxID) d d'.
Proof.
  intros Hh E. destruct (DeleteInbox_effect q inboxID d d' x Hh E) as [_ Hx]. destruct x as [orphans|e].
  - destruct Hx as (u & -> & _ & Hr & _). by apply confined_removed.
  - destruct Hx as [S|(u & o & -> & Hr & _)]; [by apply confined_tables|by apply confined_removed].
Qed.

Lemma owned_inv d id mid m : owned d id mid = Some m -> messages d !! mid = Some m /\ ms_inbox m = id.
Proof.
  unfold owned. destruct (messages d !! mid) as [m'|]; [|done]. destruct (bool_decide _) eqn:E; [|done]. bool_to_prop.
  destruct (inbox_live d id); [|done]. by intros [= <-].
Qed.

Lemma DeleteMessage_confined inboxID messageID d d' x :
  healthy q d -> MailboxRepo.DeleteMessage inboxID messageID d = (d', x) -> confined (uuid_parse inboxID) d d'.
Proof.
  intros Hh. unfold MailboxRepo.DeleteMessage, cast. destruct (uuid_parse inboxID) as [id|]; [|intros [= <- <-]; by apply confined_same].
  destruct (uuid_parse messageID) as [mid|]; [|intros [= <- <-]; by apply confined_same].
  intros [(S & _)|(d1 & d2 & orphan & S1 & _ & Hb & S2 & _)]%transaction_inv; [by apply confined_tables|].
  apply delete_message_body_ok in Hb as ((m & Hm) & _ & E1 & E2 & _); [|by eapply same_tables_ok; [|apply Hh]].
  apply owned_inv in Hm as [Hm Hi]. eapply confined_trans; [by apply confined_tables|].
  eapply confined_trans; [|by apply confined_tables]. split; [by rewrite E1|..]; intros k m'; rewrite E2, lookup_delete_Some.
  - intros Hne Hk. split; [|done]. intros <-. congruence.
  - intros [_ ?]. by eauto.
Qed.

Lemma MarkMessageSeen_confined inboxID messageID at_ d d' x :
  MailboxRepo.MarkMessageSeen inboxID messageID at_ d = (d', x) -> confined (uuid_parse inboxID) d d'.
Proof.
  unfold MailboxRepo.MarkMessageSeen, cast. destruct (uuid_parse inboxID) as [id|]; [|intros [= <- <-]; by apply confined_same].
  destruct (uuid_parse messageID) as [mid|]; [|intros [= <- <-]; by apply confined_same].
  intros [(d1 & u & E & Hx)|(e & E & ->)]%dbind_inv; apply statement_same in E as [S _]; [|by apply confined_tables].
  destruct (owned d1 id mid) as [m|] eqn:Eo; injection Hx as <- <-; [|by apply confined_tables].
  apply owned_inv in Eo as [Hm Hi]. eapply confined_trans; [by apply confined_tables|].
  split; [done|..]; intros k m'; cbn; rewrite lookup_insert_Some.
  - intros Hne Hk. right. split; [|done]. intros <-. congruence.
  - intros [[<- <-]|[_ ?]]; by eauto.
Qed.

(** Creation touches no existing row, whether it succeeds or not. *)
Lemma create_loop_messages n w w' localPart domain now expiresAt x :
  create_loop n w localPart domain now expiresAt = (w', x) -> messages (h_db w') = messages (h_db w).
Proof.
  revert w. induction n as [|n IH]; intros w; cbn [create_loop]; [by intros [= <- <-]|].
  destruct (match localPart with [] => _ | _ => _ end) as [[candidate w1]|e] eqn:Eg; [|by intros [= <- <-]].
  assert (h_db w1 = h_db w) as Hd.
  { destruct localPart; [|by injection Eg as <- <-]. destruct (generateLocalPart _) as [[c rest]|]; [|done]. by injection Eg as <- <-. }
  unfold lift. destruct (CreateInbox _ (h_db w1)) as [d y] eqn:E.
  assert (messages d = messages (h_db w)) as Hm.
  { rewrite <- Hd. revert E. unfold CreateInbox. intros [(d1 & u & E & Hx)|(e & E & ->)]%dbind_inv; apply statement_same in E as [S _]; [|apply S].
    rewrite <- (sm_messages _ _ S). destruct (negb _); [by injection Hx as <- <-|].
    destruct (find_address d1 _), (inboxes d1 !! new_uuid d1); by injection Hx as <- <-. }
  destruct y as [inbox|e]; [by intros [= <- <-]|].
  destruct (errors_is e _); [|by intros [= <- <-]]. intros Hl. by rewrite (IH _ Hl).
Qed.

Lemma Issue_mail (w w' : host) inboxID scopes expiresAt x u :
  sound q w -> uuid_parse inboxID = Some u -> Capability.Issue w inboxID scopes expiresAt = (w', x) ->
  mail_same (h_db w) (h_db w') /\ healthy q (h_db w').
Proof.
  intros [Hh Hi] Hu. unfold Capability.Issue, issue. rewrite Hu.
  destruct (ScopeSetFromMask _); [|by intros [= <- <-]]. destruct (_ || _); [by intros [= <- <-]|].
  intros E. apply (issue_frame _ w w' _ x u Hi) in E as (Hi' & Hm & _); [|done]. split; [done|].
  eapply mail_same_healthy; [apply Hi'|done|done].
Qed.

(** An inbox that was not there before owns no message. *)
Lemma fresh_no_messages d id : db_ok d -> inboxes d !! id = None -> forall mid m, messages d !! mid = Some m -> ms_inbox m <> id.
Proof. intros Hok Hn mid m Hm <-. destruct (proj1 (ok_refs _ Hok) mid m Hm) as [[? Hx] _]. congruence. Qed.

Lemma Create_confined (s : Service) w w' request x :
  sound q w -> Create s w request = (w', x) ->
  confined None (h_db w) (h_db w') /\
  forall created, x = Ok created -> exists id row, ci_Inbox created = inbox_of id row /\ inboxes (h_db w) !! id = None /\
    length id = 16%nat /\ healthy q (h_db w').
Proof.
  intros Hs. unfold Create.
  assert (confined None (h_db w) (h_db w)) as Hrefl by (by apply confined_same).
  destruct (negb _); [by intros [= <- <-]|]. destruct (_ || _); [by intros [= <- <-]|].
  destruct (negb (bool_decide (to_lower _ = [])) && _) eqn:Ev; [by intros [= <- <-]|].
  destruct (create_loop _ w _ _ _ _) as [w1 y] eqn:E1.
  pose proof (create_loop_messages _ _ _ _ _ _ _ _ E1) as Hm1.
  apply (create_loop_spec q) in E1 as (Hs1 & _ & Hy); [|done|].
  2:{ intros Hne. rewrite bool_decide_eq_false_2 in Ev by done. cbn in Ev. by destruct (ValidInboxLocalPart _). }
  destruct y as [inbox|e]; [|intros [= <- <-]; split; [by apply confined_same|done]].
  destruct Hy as (candidate & _ & _ & id & row & -> & Hlen & Hfree & _ & Hdb & _).
  assert (confined None (h_db w) (h_db w1)) as HC1.
  { split; [|by rewrite Hm1|rewrite Hm1; by eauto]. intros k r0 _ Hk. rewrite Hdb, lookup_insert_ne; congruence. }
  destruct (bool_decide (ib_ID _ = [])); [intros [= <- <-]; by split|].
  unfold issue_owner. destruct (NewScopeSet allScopes) as [scopes|]; [|intros [= <- <-]; by split].
  assert (uuid_parse (ib_ID (inbox_of id row)) = Some id) as Hu by (by apply uuid_parse_string).
  destruct (Capability.Issue w1 _ scopes _) as [w2 z] eqn:E2. destruct (Issue_mail _ _ _ _ _ _ _ Hs1 Hu E2) as [[M1 M2 M3] Hh2].
  assert (confined None (h_db w) (h_db w2)) as HC2 by (eapply confined_trans; [done|by apply confined_same]).
  destruct z as [capability|e]; [intros [= <- <-]; split; [done|intros created [= <-]; by exists id, row]|].
  unfold lift. destruct (DeleteInbox _ (h_db w2)) as [d3 v] eqn:E3.
  apply DeleteInbox_confined in E3 as [D1 D2 D3]; [|done]. rewrite Hu in D1, D2.
  assert (confined None (h_db w) d3) as HC3.
  { pose proof (fresh_no_messages _ _ (proj1 (proj1 Hs)) Hfree) as Hno. split.
    - intros k r0 Hk Hr. apply D1; [congruence|]. by apply HC2.
    - intros mid m _ Hm. apply D2; [intros [= Heq]; by eapply Hno|]. by apply HC2.
    - intros mid m Hm. destruct (D3 _ _ Hm) as (m2 & Hm2 & <-). by apply HC2. }
  destruct v as [|]; intros [= <- <-]; by split.
Qed.

(** The daily allowance is counted in a table of its own. *)
Lemma set_quotas_inv d m : (forall k n, m !! k = Some n -> 0 < n) -> inv_db d -> inv_db (set_quotas d m).
Proof. intros Hm ([] & Hwf & Hf). split; [|by split]. by split. Qed.

Lemma upsert_mail digest date limit d d' x : upsert_quota digest date limit d = (d', x) -> mail_same d d'.
Proof.
  intros [(d1 & u & E & Hx)|(e & E & ->)]%dbind_inv; apply statement_same in E as [S _]; [|by apply mail_same_tables].
  destruct S. destruct (quotas d1 !! (digest, date)) as [n|]; [destruct (n <? limit)|]; by injection Hx as <- <-.
Qed.

Lemma upsert_inv digest date limit d d' x : inv_db d -> upsert_quota digest date limit d = (d', x) -> inv_db d'.
Proof.
  intros Hi [(d1 & u & E & Hx)|(e & E & ->)]%dbind_inv; apply statement_view in E as (Hi1 & _); try done.
  assert (forall n, 0 < n -> inv_db (set_quotas d1 (<[(digest, date) := n]> (quotas d1)))) as Hset.
  { intros n Hn. apply set_quotas_inv; [|done]. intros k z [[_ <-]|[_ Hz]]%lookup_insert_Some; [done|].
    by eapply ok_quotas; [apply Hi1|]. }
  destruct (quotas d1 !! (digest, date)) as [n|] eqn:En; [destruct (n <? limit)|]; injection Hx as <- <-; [|done|by apply Hset].
  apply Hset. pose proof (ok_quotas _ (proj1 Hi1) _ _ En). lia.
Qed.

(** The body runs up to its cleanup, or through it. *)
Lemma consume_body_run locked digest date limit d d' x :
  consume_body locked digest date limit d = (d', x) ->
  exists d1 y, statement "cleanup stale create quotas" d = (d1, y) /\
    (d' = d1 \/ exists z, upsert_quota digest date limit (delete_stale locked date d1) = (d', z)).
Proof.
  unfold consume_body, exec, dbind. destruct (statement _ d) as [d1 [u|e]]; [|intros [= <- <-]; by eauto 6].
  destruct (upsert_quota _ _ _ _) as [d2 z] eqn:E. intros Hx. exists d1, (Ok u). split; [done|]. right. exists z.
  destruct z as [n|e]; [|destruct (errors_is e _)]; by injection Hx as <- <-.
Qed.

Lemma Consume_frame s a d d' x : inv_db d -> Consume s a d = (d', x) -> inv_db d' /\ mail_same d d'.
Proof.
  intros Hi. unfold Consume, ConsumeInboxCreate. destruct (at_ctx a); [by intros [= <- <-]|].
  destruct (ParseIP _) as [ip|]; [|by intros [= <- <-]]. destruct (_ || _); [by intros [= <- <-]|].
  destruct (transaction _ _ _ d) as [d1 y] eqn:E. intros Hx.
  assert (d' = d1) as -> by (destruct y; by injection Hx as <- <-). clear Hx. split.
  - apply (transaction_view _ _ _ (λ _ _ _, True)) in E as [Hi' _]; [done| |done].
    intros d2 d3 r Hi2 _ (d4 & y' & E4 & Hd)%consume_body_run. apply statement_view in E4 as (Hi4 & _); [|done].
    assert (inv_db d3) as Hi3; [|split; [apply Hi3|by destruct r]]. destruct Hd as [->|(z & Hu)]; [done|].
    eapply upsert_inv, Hu. apply set_quotas_inv; [|done]. intros k n [Hk _]%map_lookup_filter_Some.
    by eapply ok_quotas; [apply Hi4|].
  - apply transaction_inv in E as [[S _]|(d2 & d3 & n & S2 & _ & Hb & S3 & _)]; [by apply mail_same_tables|].
    apply consume_body_run in Hb as (d4 & y' & E4 & Hd). apply statement_same in E4 as [S4 _].
    assert (mail_same d d4) as Hm by (by apply mail_same_tables; etrans).
    eapply mail_same_trans; [|by apply mail_same_tables]. destruct Hd as [->|(z & Hu)]; [done|].
    apply upsert_mail in Hu. eapply mail_same_trans; [|done]. by destruct Hm.
Qed.
End Effects.

(** ** What a response shows *)

Section Isolation.
Context `{!UUIDLib} `{!UUIDSpec _} (q : DeliveryLimits).
Context {S : Type} (parser : option (disk -> nat -> bytes -> disk * res S)) (parse_media : bytes -> option bytes).
Context (s : Server) (r : request).

(** The message of the path, which belongs to the inbox [u]. *)
Definition addressed (u : option uuid) (d : db) (mid : uuid) (m : message_row) : Prop :=
  uuid_parse (rq_id r) = Some mid /\ messages d !! mid = Some m /\ Some (ms_inbox m) = u.

(** The stored source of a message, source_open. *)
Definition source_open (d : db) (st : Store) (m : message_row) (size : Z) (k : disk) (i : nat) : Prop :=
  exists row, contents d !! ms_content m = Some row /\ size = ct_size row /\
    OpenRaw (s_content s) (MkContentRef (ms_content m) (ct_size row)) (st_disk st) = (k, Ok i).

Definition shows (u : option uuid) (d : db) (st : Store) (body : payload S) : Prop :=
  match body with
  | PNone | PError _ | PStatus _ => True
  | PCreated inbox _ => exists id row, inbox = inbox_of id row /\ inboxes d !! id = None
  | PInbox inbox | PSession inbox _ _ => exists id row, u = Some id /\ inboxes d !! id = Some row /\ inbox = inbox_of id row
  | PPage items _ => Forall (λ item, exists mid m, messages d !! mid = Some m /\ Some (ms_inbox m) = u /\ item = summary_of d (mid, m)) items
  | PMessage detail => exists mid m, addressed u d mid m /\ detail = detail_of d mid m
  | PSource source => exists mid m k, addressed u d mid m /\ source_open d st m (rs_Size source) k (rs_Reader source)
  | PAttachment source _ => exists mid m a size k k' i open, addressed u d mid m /\ source_open d st m size k i /\
      a ∈ md_Attachments (detail_of d mid m) /\ at_PartPath a = rq_part r /\
      parser = Some open /\ open k i (rq_part r) = (k', Ok (as_Reader _ source)) /\
      as_FileName _ source = at_FileName a /\ as_ContentType _ source = at_ContentType a /\ as_Size _ source = at_SizeBytes a
  end.

(** What is shown depends on the tables only. *)
Lemma shows_same u d d' st body : same_tables d d' -> shows u d' st body -> shows u d st body.
Proof. intros []. destruct d, d'. cbn in * |-. subst. by destruct body. Qed.

(** ** Reads *)

Lemma query_reads {A B} t (f : db -> A) (k : A -> DB B) d d' x :
  dbind (query t f) k d = (d', x) -> exists d1, same_tables d d1 /\ (k (f d1) d1 = (d', x) \/ d' = d1 /\ exists e, x = Err e).
Proof.
  intros [(d1 & found & E & Hx)|(e & E & ->)]%dbind_inv; apply query_inv in E as (HS & _ & E); [|by eauto 6].
  destruct E as [[= ->]|(? & [=])]. by eauto.
Qed.

Lemma inbox_row_of d id row : (if inbox_live d id then inboxes d !! id else None) = Some row -> inboxes d !! id = Some row.
Proof. by destruct (inbox_live d id). Qed.

Lemma GetInbox_reads inboxID d d' x :
  GetInbox inboxID d = (d', x) -> same_tables d d' /\
  forall inbox, x = Ok inbox -> exists id row, uuid_parse inboxID = Some id /\ inboxes d' !! id = Some row /\ inbox = inbox_of id row.
Proof.
  unfold GetInbox, cast. destruct (uuid_parse inboxID) as [id|]; [|by intros [= <- <-]].
  intros (d1 & HS & [Hx|(-> & e & ->)])%query_reads; [|done].
  destruct (if inbox_live d1 id then _ else _) as [row|] eqn:Er; injection Hx as <- <-; [|done]. split; [done|].
  intros inbox [= <-]. apply inbox_row_of in Er. by eauto.
Qed.

Lemma listing_owner d id b x : x ∈ listing d id b -> messages d !! x.1 = Some x.2 /\ ms_inbox x.2 = id.
Proof. unfold listing. rewrite newest_first_perm, list_elem_of_filter. intros [_ Hx]. by apply messages_of_in in Hx. Qed.

Definition items_of (d : db) (u : option uuid) (items : list MessageSummary) : Prop :=
  Forall (λ item, exists mid m, messages d !! mid = Some m /\ Some (ms_inbox m) = u /\ item = summary_of d (mid, m)) items.

Lemma repository_reads inboxID page d d' x :
  MailboxRepo.ListMessages inboxID page d = (d', x) -> same_tables d d' /\
  forall p, x = Ok p -> items_of d' (uuid_parse inboxID) (mp_Items p).
Proof.
  unfold MailboxRepo.ListMessages. destruct (_ || _); [by intros [= <- <-]|]. unfold cast at 1.
  destruct (uuid_parse inboxID) as [id|]; [|by intros [= <- <-]].
  intros (d1 & S1 & [Hx|(-> & e & ->)])%query_reads; [|done].
  destruct (match pg_Before page with Some _ => _ | None => _ end) as [before|e]; [|by injection Hx as <- <-].
  apply query_reads in Hx as (d2 & S2 & [Hx|(-> & e & ->)]); [|split; [by etrans|done]]. injection Hx as <- <-.
  split; [by etrans|]. intros p [= <-]. cbn. apply Forall_forall. intros item (kv & -> & Hkv)%list_elem_of_fmap.
  eapply elem_of_sublist in Hkv; [|apply sublist_take]. eapply elem_of_sublist in Hkv; [|apply sublist_drop].
  apply listing_owner in Hkv as [Hm Hi].
  destruct kv as [mid m]. exists mid, m. cbn in *. by subst.
Qed.

Lemma ListMessages_reads inboxID page d d' x :
  MailboxService.ListMessages inboxID page d = (d', x) -> same_tables d d' /\
  forall p, x = Ok p -> items_of d' (uuid_parse inboxID) (cm_Items p).
Proof.
  unfold MailboxService.ListMessages. destruct (match cg_Before page with Some _ => _ | None => _ end); [by intros [= <- <-]|].
  intros [(d1 & p & E & Hx)|(e & E & ->)]%dbind_inv; apply repository_reads in E as [HS Hp]; [|done].
  specialize (Hp _ eq_refl). destruct (_ <? _); injection Hx as <- <-; (split; [done|]); intros p' [= <-]; [|done].
  by apply Forall_take.
Qed.

Lemma GetMessage_reads inboxID messageID d d' x :
  MailboxRepo.GetMessage inboxID messageID d = (d', x) -> same_tables d d' /\
  forall detail, x = Ok detail -> exists mid m, uuid_parse messageID = Some mid /\ messages d' !! mid = Some m /\
    Some (ms_inbox m) = uuid_parse inboxID /\ detail = detail_of d' mid m.
Proof.
  unfold MailboxRepo.GetMessage, cast. destruct (uuid_parse inboxID) as [id|]; [|by intros [= <- <-]].
  destruct (uuid_parse messageID) as [mid|]; [|by intros [= <- <-]].
  intros (d1 & HS & [Hx|(-> & e & ->)])%query_reads; [|done].
  destruct (owned d1 id mid) as [m|] eqn:Eo; injection Hx as <- <-; [|done]. split; [done|].
  apply owned_inv in Eo as [Hm Hi]. intros detail [= <-]. exists mid, m. by rewrite Hi.
Qed.

Lemma GetMessageContent_reads inboxID messageID d d' x :
  GetMessageContent inboxID messageID d = (d', x) -> same_tables d d' /\
  forall ref, x = Ok ref -> exists mid m row, uuid_parse messageID = Some mid /\ messages d' !! mid = Some m /\
    Some (ms_inbox m) = uuid_parse inboxID /\ contents d' !! ms_content m = Some row /\ ref = MkContentRef (ms_content m) (ct_size row).
Proof.
  unfold GetMessageContent, cast. destruct (uuid_parse inboxID) as [id|]; [|by intros [= <- <-]].
  destruct (uuid_parse messageID) as [mid|]; [|by intros [= <- <-]].
  intros (d1 & HS & [Hx|(-> & e & ->)])%query_reads; [|done].
  destruct (owned d1 id mid) as [m|] eqn:Eo; [|by injection Hx as <- <-]. apply owned_inv in Eo as [Hm Hi].
  destruct (contents d1 !! ms_content m) as [row|] eqn:Ec; injection Hx as <- <-; [|done]. split; [done|].
  intros ref [= <-]. exists mid, m, row. by rewrite Hi.
Qed.

(** ** Credentials *)

(** The principal of a request: a bearer capability, or a session cookie,
    with the anti-forgery token where the route changes something. *)
Inductive presents (w : web) (scopes : list Z) (csrf : bool) : Principal -> Prop :=
| ByBearer scheme plaintext h p :
    cut (rq_authorization r) " "%char = (scheme, plaintext, true) -> is_bearer scheme = true ->
    Capability.Authenticate (wb_host w) (trim_space plaintext) scopes = (h, Ok p) -> presents w scopes csrf p
| ByCookie m cookie p :
    s_sessions s = Some m -> rq_cookie r = Some cookie ->
    BrowserSession.Authenticate m (rq_ctx r) (h_clock (wb_host w)) cookie (rq_csrf r) csrf scopes = Ok p -> presents w scopes csrf p.

(** The state after a check: only statements were run. *)
Record checked (w w' : web) : Prop := {
  ck_tables : same_tables (h_db (wb_host w)) (h_db (wb_host w')); ck_store : wb_store w' = wb_store w
}.

#[global] Instance checked_preorder : PreOrder checked.
Proof. split; [intros w; by split|]. intros w1 w2 w3 [] []. split; [by etrans|congruence]. Qed.

Lemma find_same kid d d' x : FindCapabilityByKID kid d = (d', x) -> same_tables d d'.
Proof.
  unfold FindCapabilityByKID. destruct (negb _); [by intros [= <- <-]|].
  intros (d1 & HS & [Hx|(-> & e & ->)])%query_reads; [|done].
  repeat case_match; by injection Hx as <- <-.
Qed.

Lemma Authenticate_same (h h' : host) plaintext scopes x :
  Capability.Authenticate h plaintext scopes = (h', x) -> same_tables (h_db h) (h_db h').
Proof.
  unfold Capability.Authenticate, resolve. destruct (ParseToken plaintext) as [token|]; [|by intros [= <- <-]].
  destruct (negb (bool_decide _)); [by intros [= <- <-]|]. cbn [cap_find db_capability_repository]. unfold lift.
  destruct (FindCapabilityByKID _ _) as [d y] eqn:E. apply find_same in E. intros Hx.
  repeat case_match; by simplify_eq.
Qed.

Lemma bearer_presents w w' scopes csrf x :
  authenticateBearer r w scopes = (w', x) -> checked w w' /\ forall p, x = Ok p -> presents w scopes csrf p.
Proof.
  unfold authenticateBearer. destruct (cut _ _) as [[scheme plaintext] found] eqn:Ec.
  destruct (negb found || _ || _) eqn:Eb; [by intros [= <- <-]|]. apply orb_false_iff in Eb as [[Ef Es]%orb_false_iff _].
  destruct (Capability.Authenticate _ _ _) as [h y] eqn:Ea. intros [= <- <-].
  split; [split; [by eapply Authenticate_same|done]|]. cbn. intros p ->. destruct found; [|done].
  eapply ByBearer; [done|by destruct (is_bearer scheme)|done].
Qed.

Lemma browser_presents w w' csrf scopes x :
  requireBrowserPrincipal (S := S) s r w csrf scopes = (w', x) -> w' = w /\
  match x with inl p => presents w scopes csrf p | inr e => exists er, rs_body e = PError er end.
Proof.
  unfold requireBrowserPrincipal. destruct (s_mailbox s); [|intros [= <- <-]; by eauto].
  destruct (s_sessions s) as [m|] eqn:Em; [|intros [= <- <-]; by eauto].
  destruct (rq_cookie r) as [cookie|] eqn:Ec; [|intros [= <- <-]; by eauto].
  destruct (bool_decide _); [intros [= <- <-]; by eauto|].
  destruct (BrowserSession.Authenticate _ _ _ _ _ _ _) as [p|e] eqn:Ea; intros [= <- <-]; (split; [done|]); [|by eauto].
  by eapply ByCookie.
Qed.

Lemma principal_presents w w' scopes x :
  requirePrincipal (S := S) s r w scopes = (w', x) -> checked w w' /\
  match x with inl (_, p) => presents w scopes (negb (safe_method (rq_method r))) p | inr e => exists er, rs_body e = PError er end.
Proof.
  unfold requirePrincipal. destruct (s_mailbox s) as [service|] eqn:Em; [|intros [= <- <-]; split; [done|by eauto]].
  destruct (s_authenticator s); [|intros [= <- <-]; split; [done|by eauto]].
  destruct (negb (bool_decide (trim_space _ = []))).
  - destruct (authenticateBearer r w scopes) as [w1 y] eqn:E. eapply bearer_presents in E as [HC Hp].
    destruct y as [p|e]; intros [= <- <-]; (split; [done|]); [by apply Hp|by eauto].
  - destruct (requireBrowserPrincipal s r w _ scopes) as [w1 y] eqn:E. apply browser_presents in E as [-> Hp].
    destruct y as [p|e]; intros [= <- <-]; by split.
Qed.

(** ** Handlers *)

Definition db_of (w : web) : db := h_db (wb_host w).

Record isolated (u : option uuid) (w w' : web) (resp : response S) : Prop := {
  is_confined : confined u (db_of w) (db_of w'); is_shown : shows u (db_of w) (wb_store w) (rs_body resp)
}.

Lemma isolated_after u w w1 w' resp : checked w w1 -> isolated u w1 w' resp -> isolated u w w' resp.
Proof.
  intros [HT Hst] [HC HS]. split; [eapply confined_trans; [by apply confined_tables|done]|].
  rewrite <- Hst. by eapply shows_same.
Qed.

Definition silent (body : payload S) : Prop := match body with PNone | PError _ | PStatus _ => True | _ => False end.

Lemma silent_shows u d st body : silent body -> shows u d st body.
Proof. by destruct body. Qed.

Lemma isolated_silent u w w' resp : checked w w' -> silent (rs_body resp) -> isolated u w w' resp.
Proof. intros [HT _] Hs. split; [by apply confined_tables|by apply silent_shows]. Qed.

(** Whose request it is, and what follows. *)
Definition serves (scopes : list Z) (csrf : bool) (w w' : web) (resp : response S) : Prop :=
  isolated None w w' resp \/ exists p, presents w scopes csrf p /\ isolated (uuid_parse (pl_InboxID p)) w w' resp.

Lemma with_principal_serves scopes csrf w w' resp (k : web -> InboxID -> Principal -> web * response S) :
  csrf = negb (safe_method (rq_method r)) -> healthy q (db_of w) ->
  (forall w1 inboxID p, healthy q (db_of w1) -> k w1 inboxID p = (w', resp) -> isolated (uuid_parse inboxID) w1 w' resp) ->
  with_principal s r scopes w k = (w', resp) -> serves scopes csrf w w' resp.
Proof.
  intros -> Hh Hk. unfold with_principal. destruct (requirePrincipal s r w scopes) as [w1 y] eqn:E.
  apply principal_presents in E as [HC Hp]. destruct y as [[service p]|e].
  - intros Hx. right. exists p. split; [done|]. eapply isolated_after; [done|]. apply (Hk w1 _ p); [|done].
    eapply same_tables_healthy; [apply HC|done].
  - destruct Hp as (er & He). intros [= <- <-]. left. apply isolated_silent; [done|]. by rewrite He.
Qed.

(** A handler that reads on the host. *)
Lemma host_reads {A} (w : web) (m : DB A) (w1 : web) (x : res A) :
  on_host w (lift m (wb_host w)) = (w1, x) ->
  exists d, m (db_of w) = (d, x) /\ db_of w1 = d /\ wb_store w1 = wb_store w.
Proof.
  unfold on_host, lift. fold (db_of w). destruct (m (db_of w)) as [d y] eqn:E. intros [= <- <-]. cbn. by eauto.
Qed.

Lemma checked_host w (w1 : web) d : db_of w1 = d -> same_tables (db_of w) d -> wb_store w1 = wb_store w -> checked w w1.
Proof. intros <- HS Hst. by split. Qed.

Lemma read_isolated {A} (u : option uuid) (w w1 : web) (m : DB A) (x : res A) (resp : response S) :
  on_host w (lift m (wb_host w)) = (w1, x) -> same_tables (db_of w) (db_of w1) ->
  shows u (db_of w1) (wb_store w) (rs_body resp) -> isolated u w w1 resp.
Proof. intros (d & E & <- & Hst)%host_reads HS Hb. split; [by apply confined_tables|by eapply shows_same]. Qed.

Lemma Get_isolated w w1 x inboxID :
  on_host w (Get (wb_host w) inboxID) = (w1, x) -> checked w w1 /\
  forall inbox, x = Ok inbox -> exists id row, uuid_parse inboxID = Some id /\ inboxes (db_of w) !! id = Some row /\ inbox = inbox_of id row.
Proof.
  intros (d & E & Hd & Hst)%host_reads. apply GetInbox_reads in E as [HS Hx]. split; [by eapply checked_host|].
  rewrite <- (sm_inboxes _ _ HS). done.
Qed.

Lemma with_message_isolated u w w' resp k :
  (forall mid, uuid_parse (rq_id r) = Some mid -> k (rq_id r) = (w', resp) -> isolated u w w' resp) ->
  with_message (S := S) r w k = (w', resp) -> isolated u w w' resp.
Proof.
  intros Hk. unfold with_message, parseMessageID. destruct (uuid_parse (rq_id r)) as [mid|]; [by eapply Hk|].
  intros [= <- <-]. by apply isolated_silent.
Qed.

(** A handler whose call reports only an error. *)
Lemma no_content_isolated {A} u w (m : DB A) cookie w' resp :
  (forall d x, m (db_of w) = (d, x) -> confined u (db_of w) d) ->
  no_content (S := S) (on_host w (discard (lift m (wb_host w)))) cookie = (w', resp) -> isolated u w w' resp.
Proof.
  intros Hm. unfold discard, lift, on_host. fold (db_of w). destruct (m (db_of w)) as [d x] eqn:E. specialize (Hm _ _ eq_refl).
  cbn. destruct x; intros [= <- <-]; (split; [done|by apply silent_shows]).
Qed.

Lemma GetInbox_serves w w' resp csrf :
  csrf = negb (safe_method (rq_method r)) -> healthy q (db_of w) ->
  handleGetInbox s r w = (w', resp) -> serves [ScopeInboxRead] csrf w w' resp.
Proof.
  intros Hc Hh. apply with_principal_serves; [done..|]. intros w1 inboxID p Hh1.
  destruct (on_host w1 _) as [w2 x] eqn:E. apply Get_isolated in E as [HC Hx].
  destruct x as [inbox|e]; intros [= <- <-]; [|by apply isolated_silent].
  split; [by apply confined_tables, HC|]. destruct (Hx _ eq_refl) as (id & row & -> & Hr & ->). by exists id, row.
Qed.

Lemma DeleteInbox_serves w w' resp csrf :
  csrf = negb (safe_method (rq_method r)) -> healthy q (db_of w) ->
  handleDeleteInbox s r w = (w', resp) -> serves [ScopeInboxDelete] csrf w w' resp.
Proof.
  intros Hc Hh. apply with_principal_serves; [done..|]. intros w1 inboxID p Hh1.
  apply no_content_isolated. intros d x. by apply (DeleteInbox_confined q).
Qed.

Lemma DeleteMessage_serves w w' resp csrf :
  csrf = negb (safe_method (rq_method r)) -> healthy q (db_of w) ->
  handleDeleteMessage s r w = (w', resp) -> serves [ScopeMessageDelete] csrf w w' resp.
Proof.
  intros Hc Hh. apply with_principal_serves; [done..|]. intros w1 inboxID p Hh1. apply with_message_isolated. intros mid _.
  apply no_content_isolated. intros d x. by apply (DeleteMessage_confined q).
Qed.

Lemma UpdateMessage_serves w w' resp csrf :
  csrf = negb (safe_method (rq_method r)) -> healthy q (db_of w) ->
  handleUpdateMessage s r w = (w', resp) -> serves [ScopeMessageUpdate] csrf w w' resp.
Proof.
  intros Hc Hh. apply with_principal_serves; [done..|]. intros w1 inboxID p Hh1. apply with_message_isolated. intros mid _.
  destruct (rq_update r) as [| |[[]|]]; try (intros [= <- <-]; by apply isolated_silent).
  destruct (rq_more r); try (intros [= <- <-]; by apply isolated_silent).
  apply no_content_isolated. intros d x. by apply MarkMessageSeen_confined.
Qed.

Lemma ListMessages_serves w w' resp csrf :
  csrf = negb (safe_method (rq_method r)) -> healthy q (db_of w) ->
  handleListMessages s r w = (w', resp) -> serves [ScopeMessageRead] csrf w w' resp.
Proof.
  intros Hc Hh. apply with_principal_serves; [done..|]. intros w1 inboxID p Hh1.
  destruct (if bool_decide _ then _ else _) as [limit|]; [|intros [= <- <-]; by apply isolated_silent].
  destruct (decodeMessageCursor _) as [cursor|]; [|intros [= <- <-]; by apply isolated_silent].
  destruct (on_host w1 _) as [w2 x] eqn:E. pose proof (host_reads _ _ _ _ E) as (d & Ed & Hd & Hst). subst d.
  apply ListMessages_reads in Ed as [HS Hx].
  destruct x as [page|e]; [|intros [= <- <-]; by apply isolated_silent]. specialize (Hx _ eq_refl).
  destruct (cm_Next page) as [next|]; [destruct (encodeMessageCursor next)|]; intros [= <- <-];
    eapply read_isolated; [done..|exact Hx|done|done|done|done|done|exact Hx].
Qed.

Lemma GetMessage_serves w w' resp csrf :
  csrf = negb (safe_method (rq_method r)) -> healthy q (db_of w) ->
  handleGetMessage s r w = (w', resp) -> serves [ScopeMessageRead] csrf w w' resp.
Proof.
  intros Hc Hh. apply with_principal_serves; [done..|]. intros w1 inboxID p Hh1. apply with_message_isolated. intros mid Hmid.
  destruct (on_host w1 _) as [w2 x] eqn:E. pose proof (host_reads _ _ _ _ E) as (d & Ed & Hd & Hst). subst d.
  apply GetMessage_reads in Ed as [HS Hx].
  destruct x as [detail|e]; intros [= <- <-]; [|by apply isolated_silent]. destruct (Hx _ eq_refl) as (k & m & Hk & Hm & Hi & ->).
  eapply read_isolated; [done..|]. exists k, m. by repeat split.
Qed.

(** The content of a message, read and source_open. *)
Lemma content_reads (h : host) (st : Store) inboxID h1 x :
  lift (GetMessageContent inboxID (rq_id r)) h = (h1, x) -> same_tables (h_db h) (h_db h1) /\
  forall ref k i, x = Ok ref -> OpenRaw (s_content s) ref (st_disk st) = (k, Ok i) ->
    exists mid m, addressed (uuid_parse inboxID) (h_db h1) mid m /\ source_open (h_db h1) st m (SizeBytes ref) k i.
Proof.
  unfold lift. destruct (GetMessageContent _ _ _) as [d y] eqn:E. intros [= <- <-]. apply GetMessageContent_reads in E as [HS Hx].
  split; [done|]. intros ref k i -> Ho. destruct (Hx _ eq_refl) as (mid & m & row & Hmid & Hm & Hi & Hc & ->).
  exists mid, m. split; [by repeat split|]. by exists row.
Qed.

Lemma slot_isolated u w w' resp k :
  (k = (w', resp) -> isolated u w w' resp) -> with_slot s w k = (w', resp) -> isolated u w w' resp.
Proof. intros Hk. unfold with_slot. destruct (_ <? _); [done|]. intros [= <- <-]. by apply isolated_silent. Qed.

Lemma OpenSource_reads (w : web) inboxID h1 st1 x :
  OpenSource (s_content s) (wb_host w) (wb_store w) inboxID (rq_id r) = (h1, st1, x) -> same_tables (db_of w) (h_db h1) /\
  forall source, x = Ok source -> shows (uuid_parse inboxID) (h_db h1) (wb_store w) (PSource source).
Proof.
  unfold OpenSource. destruct (lift _ (wb_host w)) as [h y] eqn:E. apply (content_reads _ (wb_store w)) in E as [HS Hx].
  destruct y as [ref|]; [|by intros [= <- <- <-]]. destruct (OpenRaw _ _ _) as [k [i|]] eqn:Eo; intros [= <- <- <-]; [|done].
  split; [done|]. intros source [= <-]. destruct (Hx _ _ _ eq_refl Eo) as (mid & m & Ha & Hop). by exists mid, m, k.
Qed.

Lemma store_isolated {A} u w (x : host * Store * res A) (body : A -> payload S) w' resp :
  same_tables (db_of w) (h_db x.1.1) -> (forall a, x.2 = Ok a -> shows u (h_db x.1.1) (wb_store w) (body a)) ->
  match on_store w x with
  | (w, Err e) => (w, write_mapped e)
  | (w, Ok a) => (w, answer 200 (body a))
  end = (w', resp) -> isolated u w w' resp.
Proof.
  destruct x as [[h st] y]. cbn. intros HS Hb. destruct y as [a|e]; intros [= <- <-];
    (split; [by apply confined_tables|]); [|by apply silent_shows]. eapply shows_same; [done|]. by apply Hb.
Qed.

Lemma GetSource_serves w w' resp csrf :
  csrf = negb (safe_method (rq_method r)) -> healthy q (db_of w) ->
  handleGetSource s r w = (w', resp) -> serves [ScopeMessageRead] csrf w w' resp.
Proof.
  intros Hc Hh. apply with_principal_serves; [done..|]. intros w1 inboxID p Hh1. apply with_message_isolated. intros mid Hmid.
  apply slot_isolated. destruct (OpenSource _ _ _ _ _) as [[h st] x] eqn:E. apply OpenSource_reads in E as [HS Hx].
  by apply (store_isolated _ _ (h, st, x) PSource).
Qed.

Lemma addressed_unique u d mid mid' m m' : addressed u d mid m -> addressed u d mid' m' -> mid' = mid /\ m' = m.
Proof. intros (A1 & A2 & _) (B1 & B2 & _). assert (mid' = mid) as -> by congruence. split; congruence. Qed.

Lemma OpenAttachment_reads (w : web) inboxID h1 st1 x :
  OpenAttachment parser (s_content s) (wb_host w) (wb_store w) inboxID (rq_id r) (rq_part r) = (h1, st1, x) ->
  same_tables (db_of w) (h_db h1) /\
  forall source, x = Ok source -> shows (uuid_parse inboxID) (h_db h1) (wb_store w) (PAttachment source (attachment_type parse_media (as_ContentType _ source))).
Proof.
  unfold OpenAttachment. destruct parser as [open|] eqn:Ep; [|by intros [= <- <- <-]].
  unfold lift at 1. fold (db_of w). destruct (MailboxRepo.GetMessage _ _ (db_of w)) as [d y] eqn:Ed. apply GetMessage_reads in Ed as [HS Hy].
  destruct y as [detail|]; [|by intros [= <- <- <-]]. specialize (Hy _ eq_refl) as (mid & m & Hmid & Hm & Hi & ->).
  destruct (list_find _ _) as [[j a]|] eqn:Ef; [|by intros [= <- <- <-]]. apply list_find_Some in Ef as (Ha & Hpath & _).
  cbn [fmap option_fmap option_map snd]. destruct (lift _ (Host d _ _)) as [h z] eqn:E. apply (content_reads _ (wb_store w)) in E as [HS2 Hx].
  cbn in HS2. assert (same_tables (db_of w) (h_db h)) as HS3 by (by etrans).
  destruct z as [ref|]; [|by intros [= <- <- <-]]. destruct (OpenRaw _ _ _) as [k [i|]] eqn:Eo; [|by intros [= <- <- <-]].
  rewrite Hpath. destruct (open k i (rq_part r)) as [k' [stream|]] eqn:Es; intros [= <- <- <-]; [|done].
  split; [done|]. intros source [= <-]. destruct (Hx _ _ _ eq_refl Eo) as (mid2 & m2 & Ha2 & Hop).
  assert (addressed (uuid_parse inboxID) (h_db h) mid m) as Had.
  { split; [done|]. split; [by rewrite (sm_messages _ _ HS2)|done]. }
  destruct (addressed_unique _ _ _ _ _ _ Had Ha2) as [-> ->]. exists mid, m, a, (SizeBytes ref), k, k', i, open. rewrite <- Ep.
  split; [done|]. split; [done|]. split; [|by repeat split]. apply list_elem_of_lookup_2 in Ha.
  destruct HS2. destruct d, h as [[] ? ?]. cbn in * |-. by subst.
Qed.

Lemma GetAttachment_serves w w' resp csrf :
  csrf = negb (safe_method (rq_method r)) -> healthy q (db_of w) ->
  handleGetAttachment parser parse_media s r w = (w', resp) -> serves [ScopeMessageRead] csrf w w' resp.
Proof.
  intros Hc Hh. apply with_principal_serves; [done..|]. intros w1 inboxID p Hh1. apply with_message_isolated. intros mid Hmid.
  apply slot_isolated. destruct (OpenAttachment _ _ _ _ _ _ _) as [[h st] x] eqn:E. apply OpenAttachment_reads in E as [HS Hx].
  by apply (store_isolated _ _ (h, st, x) (λ source, PAttachment source (attachment_type parse_media (as_ContentType _ source)))).
Qed.

Lemma issue_session_checked sessions w w1 p x : issue_session r sessions w p = (w1, x) -> checked w w1.
Proof. unfold issue_session. destruct (BrowserSession.Issue _ _ _ _ _) as [[b rest]|]; by intros [= <- <-]. Qed.

Lemma session_isolated inboxID w w' status inbox expires csrf cookie :
  checked w w' -> (exists id row, uuid_parse inboxID = Some id /\ inboxes (db_of w) !! id = Some row /\ inbox = inbox_of id row) ->
  isolated (uuid_parse inboxID) w w' (MkResponse status (PSession inbox expires csrf) cookie None false).
Proof. intros [HT _] (id & row & E & Hr). split; [by apply confined_tables|]. cbn. exists id, row. by rewrite E. Qed.

Lemma CreateSession_serves w w' resp csrf : handleCreateSession s r w = (w', resp) -> serves [] csrf w w' resp.
Proof.
  unfold handleCreateSession. assert (serves [] csrf w w (write_error 501 "not_configured" "browser sessions are not configured")) as H0.
  { left. by apply isolated_silent. }
  destruct (s_mailbox s), (s_authenticator s), (s_sessions s) as [sessions|]; try (by intros [= <- <-]). clear H0.
  destruct (authenticateBearer r w []) as [w1 y] eqn:Ea. apply (bearer_presents _ _ _ csrf) in Ea as [HC Hp].
  destruct y as [p|e]; [|intros [= <- <-]; left; by apply isolated_silent]. intros Hx. right. exists p. split; [by apply Hp|].
  eapply isolated_after; [done|]. destruct (issue_session r sessions w1 p) as [w2 b] eqn:Ei. apply issue_session_checked in Ei as HC2.
  eapply isolated_after; [done|]. destruct b as [b|e]; [|injection Hx as <- <-; by apply isolated_silent].
  destruct (on_host w2 _) as [w3 z] eqn:Eg. apply Get_isolated in Eg as [HC3 Hz].
  destruct z as [inbox|e]; injection Hx as <- <-; [|by apply isolated_silent]. apply session_isolated; [done|by apply Hz].
Qed.

Lemma GetSession_serves w w' resp : handleGetSession s r w = (w', resp) -> serves [ScopeInboxRead] false w w' resp.
Proof.
  unfold handleGetSession. destruct (requireBrowserPrincipal s r w false _) as [w1 y] eqn:E. apply browser_presents in E as [-> Hp].
  destruct y as [p|e]; [|intros [= <- <-]; left; destruct Hp as (er & He); apply isolated_silent; [done|by rewrite He]].
  destruct (on_host w _) as [w2 z] eqn:Eg. apply Get_isolated in Eg as [HC Hz]. intros Hx. right. exists p. split; [done|].
  destruct z as [inbox|e]; [|injection Hx as <- <-; by apply isolated_silent].
  destruct (s_sessions s) as [sessions|]; [|injection Hx as <- <-; by apply isolated_silent].
  destruct (issue_session r sessions w2 p) as [w3 b] eqn:Ei. apply issue_session_checked in Ei as HC3.
  assert (checked w w3) as HC' by (by etrans).
  destruct b as [b|e]; injection Hx as <- <-; [|by apply isolated_silent]. apply session_isolated; [done|by apply Hz].
Qed.

Lemma DeleteSession_serves w w' resp : handleDeleteSession s r w = (w', resp) -> serves [ScopeInboxRead] true w w' resp.
Proof.
  unfold handleDeleteSession. destruct (requireBrowserPrincipal s r w true _) as [w1 y] eqn:E. apply browser_presents in E as [-> Hp].
  destruct y as [p|e]; intros [= <- <-]; left; (apply isolated_silent; [done|]); [done|]. destruct Hp as (er & He). by rewrite He.
Qed.

Lemma quota_frame w w1 x :
  sound q (wb_host w) -> consumeCreateQuota s r w = (w1, x) ->
  sound q (wb_host w1) /\ mail_same (db_of w) (db_of w1) /\ wb_store w1 = wb_store w.
Proof.
  intros Hs. unfold consumeCreateQuota. destruct (s_quota s) as [quota|]; [|by intros [= <- <-]].
  destruct (Consume _ _ _) as [d y] eqn:E. intros [= <- <-]. apply Consume_frame in E as [Hi Hm]; [|apply Hs].
  split; [|done]. split; [|done]. eapply mail_same_healthy; [apply Hi|done|apply Hs].
Qed.

Lemma shows_created d d' st st' inbox capability :
  mail_same d d' -> shows None d' st' (PCreated inbox capability) -> shows None d st (PCreated inbox capability).
Proof. intros [E _ _]. cbn. by rewrite E. Qed.

Lemma create_admitted_isolated service w w' resp domain lifetime :
  sound q (wb_host w) -> create_admitted s r service w domain lifetime = (w', resp) -> isolated None w w' resp.
Proof.
  intros Hs. unfold create_admitted. destruct (consumeCreateQuota s r w) as [w1 [decision err]] eqn:Eq.
  destruct (quota_frame _ _ _ Hs Eq) as (Hs1 & Hm & Hst). set (headers := create_quota_headers _ _ _). clearbody headers.
  assert (confined None (db_of w) (db_of w1)) as HC by (destruct Hm; by apply confined_same).
  destruct err as [e|]; [destruct (errors_is e _); intros [= <- <-]; (split; [done|by apply silent_shows])|].
  destruct (on_host w1 _) as [w2 y] eqn:Ec. unfold on_host in Ec. destruct (Create _ _ _) as [h z] eqn:E. injection Ec as <- <-.
  apply (Create_confined q) in E as [HC2 Hz]; [|done].
  destruct z as [created|e]; intros [= <- <-]; (split; [by eapply confined_trans|]); [|by apply silent_shows].
  eapply shows_created; [done|]. destruct (Hz _ eq_refl) as (id & row & ? & ? & _). by exists id, row.
Unshelve. exact (wb_store w).
Qed.

Lemma CreateInbox_isolated w w' resp : sound q (wb_host w) -> handleCreateInbox s r w = (w', resp) -> isolated None w w' resp.
Proof.
  intros Hs. unfold handleCreateInbox. destruct (s_mailbox s) as [service|]; [|intros [= <- <-]; by apply isolated_silent].
  destruct (allow _ _ _) as [limiter allowed]. set (w1 := Web (wb_host w) (wb_store w) limiter (wb_heavy w)).
  assert (checked w w1) as HC by (by split). destruct (negb allowed); [intros [= <- <-]; by apply isolated_silent|].
  intros Hx. eapply isolated_after; [done|].
  destruct (rq_create r) as [| |[domain ttl]]; [|by injection Hx as <- <-; apply isolated_silent|];
    (destruct (rq_more r); [|by injection Hx as <- <-; apply isolated_silent..]);
    (destruct (_ || _); [by injection Hx as <- <-; apply isolated_silent|]); by eapply create_admitted_isolated.
Qed.

Lemma Ready_isolated w w' resp : handleReady s w = (w', resp) -> isolated None w w' resp.
Proof.
  unfold handleReady. destruct (negb _); [intros [= <- <-]; by apply isolated_silent|].
  destruct (s_readiness s) as [schema|]; [|intros [= <- <-]; by apply isolated_silent].
  destruct (on_host w _) as [w1 x] eqn:E. apply host_reads in E as (d & E & Hd & Hst).
  assert (checked w w1) as HC; [|destruct x; intros [= <- <-]; by apply isolated_silent].
  eapply checked_host; [done| |done]. apply query_reads in E as (d1 & HS & [Hx|(-> & _)]); [|done].
  destruct (negb _); by injection Hx as <- <-.
Qed.

(** ** The theorem *)

Definition route_scopes (x : route) : list Z :=
  match x with
  | GetSession | DeleteSession | GetInboxRoute => [ScopeInboxRead]
  | DeleteInboxRoute => [ScopeInboxDelete]
  | ListMessagesRoute | GetMessageRoute | GetSource | GetAttachment => [ScopeMessageRead]
  | UpdateMessage => [ScopeMessageUpdate]
  | DeleteMessageRoute => [ScopeMessageDelete]
  | Live | ReadyRoute | CreateInboxRoute | CreateSession => []
  end.

(** A route that changes something for its inbox. *)
Definition route_changes (x : route) : bool :=
  match x with DeleteSession | DeleteInboxRoute | UpdateMessage | DeleteMessageRoute => true | _ => false end.

Lemma mux_safe x :
  mux_accepts x (rq_method r) = true ->
  match x with CreateInboxRoute | CreateSession => True | _ => route_changes x = negb (safe_method (rq_method r)) end.
Proof.
  unfold mux_accepts. intros [Hm|[Hg Hm]%andb_true_iff]%orb_true_iff; apply bool_decide_eq_true in Hm; rewrite Hm.
  - by destruct x.
  - apply bool_decide_eq_true in Hg. by destruct x.
Qed.

(** C3: requests are isolated.  Whatever a request holds, it is served on
    behalf of nobody, or of the inbox of the principal that its bearer token
    or its session cookie was accepted for, with the scopes of the route and,
    for a cookie on a route that changes something, the anti-forgery token.
    No row of any other inbox and no other inbox's message is changed or
    removed and no message appears; the response shows rows of that inbox
    only, and of its messages only the one the path names; on behalf of
    nobody it shows at most an inbox that did not exist before. *)
Theorem inbox_isolation x w w' resp :
  sound q (wb_host w) -> mux_accepts x (rq_method r) = true -> serve parser parse_media s r x w = (w', resp) ->
  exists u, (u = None \/ exists p, presents w (route_scopes x) (route_changes x) p /\ u = uuid_parse (pl_InboxID p)) /\
    confined u (h_db (wb_host w)) (h_db (wb_host w')) /\ shows u (h_db (wb_host w)) (wb_store w) (rs_body resp).
Proof.
  intros Hs Hx%mux_safe E. assert (serves (route_scopes x) (route_changes x) w w' resp) as [[HC HS]|(p & Hp & HC & HS)].
  2:{ exists None. split; [by left|done]. }
  2:{ exists (uuid_parse (pl_InboxID p)). split; [right; by eauto|done]. }
  pose proof (proj1 Hs) as Hh. destruct x; cbn [serve] in E;
    eauto using GetInbox_serves, DeleteInbox_serves, ListMessages_serves, GetMessage_serves, UpdateMessage_serves, GetSource_serves,
      GetAttachment_serves, DeleteMessage_serves, CreateSession_serves, GetSession_serves, DeleteSession_serves.
  - injection E as <- <-. left. by apply isolated_silent.
  - left. by apply Ready_isolated.
  - left. by apply CreateInbox_isolated.
Qed.
End Isolation.

(** ** A request *)

Module Runs.
Definition server : Server := MkServer true (Some LatestVersion) (Some MailboxService.Runs.service) true None None [] 4 ContentStoreSpec.Demo.cfg.
Definition asked : request :=
  Request None (str "DELETE") (str "bearer " ++ ic_Plaintext CapabilityDb.Demo.issued) None [] (str "192.0.2.7:4711") [] [] [] [] []
    DecodeEOF DecodeEOF DecodeEOF.
Definition before : web := Web CapabilityDb.Demo.w1 ContentStoreSpec.Demo.store (newCreateLimiter 12 4) 0.
Definition parser : option (disk -> nat -> bytes -> disk * res unit) := None.
Definition served : web * response unit := serve parser Some server asked DeleteInboxRoute before.

Lemma served_status : rs_status served.2 = 204.
Proof. vm_compute. reflexivity. Qed.

Lemma inbox_gone : inboxes (db_of served.1) !! DeliveryRepo.Demo.alice = None.
Proof. vm_compute. reflexivity. Qed.

Lemma before_sound : sound DeliveryRepo.Demo.limits (wb_host before).
Proof.
  split; [|apply CapabilityDb.Demo.w1_inv].
  assert (uuid_parse CapabilityDb.Demo.inbox = Some DeliveryRepo.Demo.alice) as Hu by (vm_compute; reflexivity).
  exact (proj2 (Issue_mail _ _ _ _ _ _ _ _ MailboxService.Runs.w0_sound Hu CapabilityDb.Demo.issued_run)).
Qed.
End Runs.

Lemma inbox_isolation_witness :
  exists u, (u = None \/ exists p, presents Runs.server Runs.asked Runs.before [ScopeInboxDelete] true p /\ u = uuid_parse (pl_InboxID p)) /\
    confined u (h_db (wb_host Runs.before)) (h_db (wb_host Runs.served.1)) /\
    shows Runs.parser Runs.server Runs.asked u (h_db (wb_host Runs.before)) (wb_store Runs.before) (rs_body Runs.served.2).
Proof.
  refine (inbox_isolation DeliveryRepo.Demo.limits Runs.parser Some Runs.server Runs.asked DeleteInboxRoute Runs.before Runs.served.1
    Runs.served.2 Runs.before_sound _ (surjective_pairing _)).
  vm_compute. reflexivity.
Defined.
