(* ===== verification/CompatRepo.v ===== *)
(** * The tables of the compatibility APIs

    [internal/postgres/duckmail_repository.go] and
    [internal/postgres/cloudflare_temp_repository.go]: password accounts and
    stable integer identifiers, in tables that refer to inboxes and messages
    and lose their rows with them. *)

From S2P Require Import Prelude GoStrings Errors Codec Uuid FileSystem Message Mail Database DatabaseFacts DeliveryRepo MailboxRepo.

(** ** State *)

Record account_row := AccountRow { ac_hash : bytes; ac_created : Z }.

(** [duckmail_credentials], [cloudflare_temp_inbox_ids] and
    [cloudflare_temp_message_ids], with the identity sequences of the last two. *)
Record tables := Tables {
  tb_accounts : gmap uuid account_row;
  tb_inbox_ids : gmap uuid Z;
  tb_message_ids : gmap uuid (uuid * Z);
  tb_inbox_seq : Z;
  tb_message_seq : Z
}.

Record compat := Compat { cm_db : db; cm_tables : tables }.

Definition no_tables : tables := Tables ∅ ∅ ∅ 1 1.

(** [ON DELETE CASCADE]: rows live as long as what they refer to. *)
Definition cascade (d : db) (t : tables) : tables :=
  Tables (filter (λ kv : uuid * account_row, is_Some (inboxes d !! kv.1)) (tb_accounts t))
    (filter (λ kv : uuid * Z, is_Some (inboxes d !! kv.1)) (tb_inbox_ids t))
    (filter (λ kv : uuid * (uuid * Z), is_Some (inboxes d !! kv.2.1) /\ is_Some (messages d !! kv.1)) (tb_message_ids t))
    (tb_inbox_seq t) (tb_message_seq t).

Definition set_accounts (t : tables) (m : gmap uuid account_row) : tables :=
  Tables m (tb_inbox_ids t) (tb_message_ids t) (tb_inbox_seq t) (tb_message_seq t).

Definition CDB (A : Type) : Type := compat -> compat * res A.

Definition cbind {A B} (m : CDB A) (k : A -> CDB B) : CDB B := λ s,
  match m s with
  | (s', Ok a) => k a s'
  | (s', Err e) => (s', Err e)
  end.
Definition cret {A} (a : A) : CDB A := λ s, (s, Ok a).
Definition cthrow {A} (e : goerr) : CDB A := λ s, (s, Err e).

Notation "x <~ m ;; k" := (cbind m (λ x, k)) (at level 100, m at next level, right associativity, only parsing) : mailwisp_scope.

Definition cstatement (text : string) : CDB unit := λ s,
  let '(d, x) := statement text (cm_db s) in (Compat d (cm_tables s), x).

Definition cquery {A} (text : string) (f : compat -> A) : CDB A := cbind (cstatement text) (λ _ s, (s, Ok (f s))).

(** An operation on the tables of the mailboxes, and its cascades. *)
Definition on_db {A} (m : DB A) : CDB A := λ s,
  let '(d, x) := m (cm_db s) in (Compat d (cascade d (cm_tables s)), x).

(** A rollback does not give identifiers back. *)
Definition crollback (s s' : compat) : compat :=
  Compat (rollback (cm_db s) (cm_db s'))
    (Tables (tb_accounts (cm_tables s)) (tb_inbox_ids (cm_tables s)) (tb_message_ids (cm_tables s))
      (tb_inbox_seq (cm_tables s')) (tb_message_seq (cm_tables s'))).

(** As [transaction]. *)
Definition ctransaction {A} (begin_text commit_text : string) (m : CDB A) : CDB A := λ s,
  match cstatement begin_text s with
  | (s1, Err e) => (s1, Err e)
  | (s1, Ok _) =>
    match m s1 with
    | (s2, Err e) => (crollback s s2, Err e)
    | (s2, Ok a) =>
      match cstatement commit_text s2 with
      | (s3, Err e) => (crollback s s3, Err e)
      | (s3, Ok _) =>
        match cstatement commit_text s3 with
        | (s4, Err e) => (s4, Err e)
        | (s4, Ok _) => (s4, Ok a)
        end
      end
    end
  end.

(** ** DuckMail accounts *)

Record NewAccount := MkNewAccount { na_Address : bytes; na_PasswordHash : bytes; na_CreatedAt : Z; na_ExpiresAt : Z }.
Record Account := MkAccount { an_Inbox : Inbox; an_PasswordHash : bytes }.

Definition std_char (c : ascii) : bool :=
  in_range 65 90 c || in_range 97 122 c || is_digit c || bool_decide (c = "+"%char) || bool_decide (c = "/"%char).

(** One [x=[0-9]+] of the check's pattern. *)
Definition numbered (prefix s : bytes) : bool :=
  bool_decide (take (length prefix) s = prefix) && negb (bool_decide (drop (length prefix) s = [])) &&
  forallb is_digit (drop (length prefix) s).

(** [duckmail_credentials_password_hash_valid] *)
Definition hash_check (h : bytes) : bool :=
  (zlen h <=? 512) &&
  match split_at "$"%char h with
  | [e; alg; version; params; salt; key] =>
    bool_decide (e = []) && bool_decide (alg = str "argon2id") && bool_decide (version = str "v=19") &&
    match split_at ","%char params with
    | [m; t; p] => numbered (str "m=") m && numbered (str "t=") t && numbered (str "p=") p
    | _ => false
    end &&
    negb (bool_decide (salt = [])) && forallb std_char salt && negb (bool_decide (key = [])) && forallb std_char key
  | _ => false
  end.

Section Repo.
Context `{!UUIDLib}.

(** The [INSERT INTO inboxes]; any unique violation is a conflict. *)
Definition insert_account_inbox (account : NewAccount) : CDB Inbox :=
  cbind (cstatement "insert DuckMail Inbox") (λ _ s,
    let d := cm_db s in
    if negb (address_check (na_Address account)) then (s, Err (EWrap "insert DuckMail Inbox" (ENew "23514")))
    else match find_address d (na_Address account), inboxes d !! new_uuid d with
    | None, None =>
      let row := InboxRow (na_Address account) Active (pg_time (na_ExpiresAt account)) (pg_time (na_CreatedAt account)) (pg_time (na_CreatedAt account)) in
      (Compat (set_next (set_inboxes d (<[new_uuid d := row]> (inboxes d))) (S (db_next d))) (cm_tables s), Ok (inbox_of (new_uuid d) row))
    | _, _ => (s, Err (ESentinel ErrAccountConflict))
    end).

Definition insert_credential (inboxID : InboxID) (account : NewAccount) : CDB unit :=
  match cast "insert DuckMail credential" inboxID with
  | Err e => cthrow e
  | Ok id => cbind (cstatement "insert DuckMail credential") (λ _ s,
    let t := cm_tables s in
    if negb (hash_check (na_PasswordHash account)) then (s, Err (EWrap "insert DuckMail credential" (ENew "23514")))
    else match inboxes (cm_db s) !! id, tb_accounts t !! id with
    | Some _, None =>
      (Compat (cm_db s) (set_accounts t (<[id := AccountRow (na_PasswordHash account) (pg_time (na_CreatedAt account))]> (tb_accounts t))), Ok tt)
    | None, _ => (s, Err (EWrap "insert DuckMail credential" (ENew "23503")))
    | Some _, Some _ => (s, Err (EWrap "insert DuckMail credential" (ENew "23505")))
    end)
  end.

Definition create_account_body (account : NewAccount) : CDB Inbox :=
  inbox <~ insert_account_inbox account ;;
  _ <~ insert_credential (ib_ID inbox) account ;;
  cret inbox.

(** [CreateAccount] *)
Definition CreateAccount (account : NewAccount) : CDB Inbox :=
  ctransaction "begin DuckMail account creation" "commit DuckMail account creation" (create_account_body account).

(** The join of credential and live inbox at an address. *)
Definition live_account (s : compat) (address : bytes) : option Account :=
  match live_address (cm_db s) address with
  | None => None
  | Some id =>
    match inboxes (cm_db s) !! id, tb_accounts (cm_tables s) !! id with
    | Some row, Some credential => Some (MkAccount (inbox_of id row) (ac_hash credential))
    | _, _ => None
    end
  end.

(** [FindAccountByAddress] *)
Definition FindAccountByAddress (address : bytes) : CDB Account :=
  found <~ cquery "find DuckMail account" (λ s, live_account s address) ;;
  match found with
  | None => cthrow (ESentinel ErrLoginFailed)
  | Some account => cret account
  end.

(** ** Cloudflare Temp Email identifiers *)

(** [EnsureInboxID]; [between] is what others do between its statements. *)
Definition EnsureInboxID (between : compat -> compat) (inboxID : InboxID) : CDB Z := λ s,
  match cast "find Cloudflare Temp Email Inbox ID" inboxID with
  | Err e => (s, Err e)
  | Ok id =>
    match cquery "find Cloudflare Temp Email Inbox ID" (λ s, tb_inbox_ids (cm_tables s) !! id) s with
    | (s, Err e) => (s, Err e)
    | (s, Ok (Some n)) => (s, Ok n)
    | (s, Ok None) =>
      match cstatement "ensure Cloudflare Temp Email Inbox ID" (between s) with
      | (s, Err e) => (s, Err e)
      | (s, Ok _) =>
        let t := cm_tables s in
        let n := tb_inbox_seq t in
        match inboxes (cm_db s) !! id, tb_inbox_ids t !! id with
        | None, _ =>
          (Compat (cm_db s) (Tables (tb_accounts t) (tb_inbox_ids t) (tb_message_ids t) (n + 1) (tb_message_seq t)),
           Err (EWrap "ensure Cloudflare Temp Email Inbox ID" (ENew "23503")))
        | Some _, None =>
          (Compat (cm_db s) (Tables (tb_accounts t) (<[id := n]> (tb_inbox_ids t)) (tb_message_ids t) (n + 1) (tb_message_seq t)), Ok n)
        | Some _, Some _ =>
          let s := Compat (cm_db s) (Tables (tb_accounts t) (tb_inbox_ids t) (tb_message_ids t) (n + 1) (tb_message_seq t)) in
          match cquery "ensure Cloudflare Temp Email Inbox ID" (λ s, tb_inbox_ids (cm_tables s) !! id) (between s) with
          | (s, Err e) => (s, Err e)
          | (s, Ok (Some m)) => (s, Ok m)
          | (s, Ok None) => (s, Err (EWrap "ensure Cloudflare Temp Email Inbox ID" PgxErrNoRows))
          end
        end
      end
    end
  end.

(** The mapping of a message, for its inbox. *)
Definition message_id_of (id mid : uuid) (s : compat) : option Z :=
  match tb_message_ids (cm_tables s) !! mid with
  | Some (owner, n) => if bool_decide (owner = id) then Some n else None
  | None => None
  end.

(** [INSERT ... SELECT ... ON CONFLICT (message_id) DO NOTHING RETURNING id] *)
Definition insert_message_id (id mid : uuid) : CDB (option Z) :=
  cbind (cstatement "ensure Cloudflare Temp Email message ID") (λ _ s,
    let t := cm_tables s in
    let n := tb_message_seq t in
    match messages (cm_db s) !! mid with
    | None => (s, Ok None)
    | Some m =>
      if negb (bool_decide (ms_inbox m = id)) then (s, Ok None)
      else
        let used ids := Compat (cm_db s) (Tables (tb_accounts t) (tb_inbox_ids t) ids (tb_inbox_seq t) (n + 1)) in
        match tb_message_ids t !! mid with
        | Some _ => (used (tb_message_ids t), Ok None)
        | None => (used (<[mid := (id, n)]> (tb_message_ids t)), Ok (Some n))
        end
    end).

(** [ensureCloudflareTempMessageID] *)
Definition ensureCloudflareTempMessageID (inboxID : InboxID) (messageID : MessageID) : CDB Z :=
  match cast "find Cloudflare Temp Email message ID" inboxID, cast "find Cloudflare Temp Email message ID" messageID with
  | Ok id, Ok mid =>
    found <~ cquery "find Cloudflare Temp Email message ID" (message_id_of id mid) ;;
    match found with
    | Some n => cret n
    | None =>
      inserted <~ insert_message_id id mid ;;
      match inserted with
      | Some n => cret n
      | None =>
        found <~ cquery "ensure Cloudflare Temp Email message ID" (message_id_of id mid) ;;
        match found with
        | Some n => cret n
        | None => cthrow (ESentinel ErrMessageIDNotFound)
        end
      end
    end
  | Err e, _ | _, Err e => cthrow e
  end.

Fixpoint ensure_all (inboxID : InboxID) (messageIDs : list MessageID) (result : gmap bytes Z) : CDB (gmap bytes Z) :=
  match messageIDs with
  | [] => cret result
  | messageID :: l =>
    n <~ ensureCloudflareTempMessageID inboxID messageID ;;
    ensure_all inboxID l (<[messageID := n]> result)
  end.

(** [EnsureMessageIDs] *)
Definition EnsureMessageIDs (inboxID : InboxID) (messageIDs : list MessageID) : CDB (gmap bytes Z) :=
  match messageIDs with
  | [] => cret ∅
  | _ => ctransaction "begin Cloudflare Temp Email message ID assignment" "commit Cloudflare Temp Email message ID assignment"
           (ensure_all inboxID messageIDs ∅)
  end.

(** The join of mapping and message. *)
Definition mapped_message (s : compat) (id : uuid) (n : Z) : option uuid :=
  fst <$> head (filter (λ kv : uuid * (uuid * Z), kv.2 = (id, n) /\ (ms_inbox <$> messages (cm_db s) !! kv.1) = Some id)
                 (map_to_list (tb_message_ids (cm_tables s)))).

(** [FindMessageID] *)
Definition FindMessageID (inboxID : InboxID) (compatibilityID : Z) : CDB MessageID :=
  if compatibilityID <=? 0 then cthrow (ESentinel ErrMessageIDNotFound)
  else match cast "find Cloudflare Temp Email message ID" inboxID with
  | Err e => cthrow e
  | Ok id =>
    found <~ cquery "find Cloudflare Temp Email message ID" (λ s, mapped_message s id compatibilityID) ;;
    match found with
    | None => cthrow (ESentinel ErrMessageIDNotFound)
    | Some mid => cret (uuid_string mid)
    end
  end.
End Repo.
