(* ===== verification/CompatFacts.v ===== *)
(** * Stable integer identifiers

    The identifiers that the Cloudflare Temp Email API shows for inboxes and
    messages: assigned once, never shared, and resolved for their inbox only,
    however other operations interleave. *)

From S2P Require Import Prelude GoStrings Errors Codec Uuid FileSystem Message Mail Database DatabaseFacts DeliveryRepo MailboxRepo CapabilityRepo Capability CapabilityDb MailboxService CompatRepo.

(** ** The invariant of the tables *)

Record ids_ok (s : compat) : Prop := {
  io_range : forall mid u n, tb_message_ids (cm_tables s) !! mid = Some (u, n) -> 0 < n < tb_message_seq (cm_tables s);
  io_inj : forall a b u v n, tb_message_ids (cm_tables s) !! a = Some (u, n) -> tb_message_ids (cm_tables s) !! b = Some (v, n) -> a = b;
  io_owner : forall mid u n, tb_message_ids (cm_tables s) !! mid = Some (u, n) ->
    exists m, messages (cm_db s) !! mid = Some m /\ ms_inbox m = u;
  io_inbox_range : forall id n, tb_inbox_ids (cm_tables s) !! id = Some n -> 0 < n < tb_inbox_seq (cm_tables s);
  io_inbox_inj : forall a b n, tb_inbox_ids (cm_tables s) !! a = Some n -> tb_inbox_ids (cm_tables s) !! b = Some n -> a = b;
  io_seqs : 0 < tb_message_seq (cm_tables s) /\ 0 < tb_inbox_seq (cm_tables s)
}.

(** States that differ in pending failures only. *)
Definition same_state (s s' : compat) : Prop := same_tables (cm_db s) (cm_db s') /\ cm_tables s' = cm_tables s.

#[global] Instance same_state_preorder : PreOrder same_state.
Proof. split; [intros s; by split|]. intros s1 s2 s3 [] []. split; [by etrans|congruence]. Qed.

Lemma same_state_ok s s' : same_state s s' -> ids_ok s -> ids_ok s'.
Proof. intros [HS HT] []. split; rewrite HT; try done. by rewrite (sm_messages _ _ HS). Qed.

(** The identifiers of [s] are kept in [s']. *)
Record extends (s s' : compat) : Prop := {
  ex_messages : tb_message_ids (cm_tables s) ⊆ tb_message_ids (cm_tables s');
  ex_inboxes : tb_inbox_ids (cm_tables s) ⊆ tb_inbox_ids (cm_tables s')
}.

#[global] Instance extends_preorder : PreOrder extends.
Proof. split; [intros s; by split|]. intros s1 s2 s3 [] []. split; by etrans. Qed.

Lemma same_state_extends s s' : same_state s s' -> extends s s'.
Proof. intros [_ E]. by split; rewrite E. Qed.

Lemma cstatement_same t s s' x : cstatement t s = (s', x) -> same_state s s'.
Proof.
  unfold cstatement. destruct (statement t (cm_db s)) as [d y] eqn:E. intros [= <- <-]. apply statement_same in E as [HS _]. by split.
Qed.

Lemma cbind_inv {A B} (m : CDB A) (k : A -> CDB B) s s' x :
  cbind m k s = (s', x) -> (exists s1 a, m s = (s1, Ok a) /\ k a s1 = (s', x)) \/ exists e, m s = (s', Err e) /\ x = Err e.
Proof. unfold cbind. destruct (m s) as [s1 [a|e]]; [by eauto|]. intros [= <- <-]. by eauto. Qed.

Lemma cquery_inv {A} t (f : compat -> A) s s' x :
  cquery t f s = (s', x) -> same_state s s' /\ (x = Ok (f s') \/ exists e, x = Err e).
Proof.
  intros [(s1 & u & E & Hx)|(e & E & ->)]%cbind_inv; apply cstatement_same in E; [|by eauto]. injection Hx as <- <-. by eauto.
Qed.

Lemma cquery_bind_inv {A B} t (f : compat -> A) (k : A -> CDB B) s s' x :
  cbind (cquery t f) k s = (s', x) -> exists s1, same_state s s1 /\ (k (f s1) s1 = (s', x) \/ s' = s1 /\ exists e, x = Err e).
Proof.
  intros [(s1 & a & E & Hx)|(e & E & ->)]%cbind_inv; apply cquery_inv in E as [HS E]; [|by eauto 6].
  destruct E as [[= ->]|(? & [=])]. by eauto.
Qed.

(** A failed transaction leaves at most a gap in the sequences. *)
Definition gap (s s' : compat) : Prop :=
  same_tables (cm_db s) (cm_db s') /\ tb_accounts (cm_tables s') = tb_accounts (cm_tables s) /\
  tb_inbox_ids (cm_tables s') = tb_inbox_ids (cm_tables s) /\ tb_message_ids (cm_tables s') = tb_message_ids (cm_tables s).

Definition seqs_le (s s' : compat) : Prop :=
  tb_message_seq (cm_tables s) <= tb_message_seq (cm_tables s') /\ tb_inbox_seq (cm_tables s) <= tb_inbox_seq (cm_tables s').

Lemma gap_ok s s' : gap s s' -> seqs_le s s' -> ids_ok s -> ids_ok s'.
Proof.
  intros (HS & _ & E2 & E3) [L1 L2] []. split; rewrite ?E2, ?E3; try done; [..|lia].
  - intros mid u n Hn. specialize (io_range0 _ _ _ Hn). lia.
  - by rewrite (sm_messages _ _ HS).
  - intros id n Hn. specialize (io_inbox_range0 _ _ Hn). lia.
Qed.

Lemma ctransaction_inv {A} bt ct (m : CDB A) s s' x :
  ctransaction bt ct m s = (s', x) ->
  (exists e, x = Err e) /\ gap s s' /\
    (same_state s s' \/ exists s1 s2 y, same_state s s1 /\ m s1 = (s2, y) /\
      tb_message_seq (cm_tables s') = tb_message_seq (cm_tables s2) /\ tb_inbox_seq (cm_tables s') = tb_inbox_seq (cm_tables s2)) \/
  exists s1 s2 a, same_state s s1 /\ m s1 = (s2, Ok a) /\ same_state s2 s' /\ (x = Ok a \/ exists e, x = Err e).
Proof.
  unfold ctransaction. destruct (cstatement bt s) as [s1 [u|e]] eqn:E1; apply cstatement_same in E1 as S1.
  2:{ intros [= <- <-]. left. split; [by eauto|]. split; [|by left]. destruct S1 as [HS HT]. split; [done|]. by rewrite HT. }
  destruct (m s1) as [s2 [a|e]] eqn:E2.
  2:{ intros [= <- <-]. left. split; [by eauto|]. split; [split; [apply rollback_same|done]|]. right. by exists s1, s2, (Err e). }
  destruct (cstatement ct s2) as [s3 [u3|e]] eqn:E3; apply cstatement_same in E3 as S3.
  2:{ intros [= <- <-]. left. split; [by eauto|]. split; [split; [apply rollback_same|done]|]. right. exists s1, s2, (Ok a).
      destruct S3 as [_ HT]. cbn. by rewrite HT. }
  destruct (cstatement ct s3) as [s4 [u4|e]] eqn:E4; apply cstatement_same in E4 as S4; intros [= <- <-]; right; exists s1, s2, a;
    (split; [done|]); (split; [done|]); (split; [by etrans|]); by eauto.
Qed.

(** ** Assigning identifiers *)

Section Ids.
Context `{!UUIDLib}.

Lemma insert_id_ok s mid id m :
  ids_ok s -> messages (cm_db s) !! mid = Some m -> ms_inbox m = id -> tb_message_ids (cm_tables s) !! mid = None ->
  let t := cm_tables s in let n := tb_message_seq t in
  ids_ok (Compat (cm_db s) (Tables (tb_accounts t) (tb_inbox_ids t) (<[mid := (id, n)]> (tb_message_ids t)) (tb_inbox_seq t) (n + 1))).
Proof.
  intros [] Hm Hi Hn t n. subst t n. split; cbn; try done; [..|lia].
  - intros k u z [[<- [= <- <-]]|[_ Hk]]%lookup_insert_Some; [lia|]. specialize (io_range0 _ _ _ Hk).  lia.
  - intros a b u v z. rewrite !lookup_insert_Some. intros [[<- Ea]|[Ha Hk]] [[<- Eb]|[Hb Hl]]; simplify_eq; try done.
    + specialize (io_range0 _ _ _ Hl). lia.
    + specialize (io_range0 _ _ _ Hk). lia.
    + by eapply io_inj0.
  - intros k u z [[<- [= <- <-]]|[_ Hk]]%lookup_insert_Some; [by eauto|by eauto].
Qed.

Lemma used_id_ok s :
  ids_ok s -> let t := cm_tables s in
  ids_ok (Compat (cm_db s) (Tables (tb_accounts t) (tb_inbox_ids t) (tb_message_ids t) (tb_inbox_seq t) (tb_message_seq t + 1))).
Proof.
  intros Hok t. apply (gap_ok s); [|subst t; split; cbn; lia|done]. by split.
Qed.

(** What a step of an assignment keeps. *)
Record assigns (s s' : compat) : Prop := {
  as_ok : ids_ok s'; as_ext : extends s s'; as_seqs : seqs_le s s'; as_tables : same_tables (cm_db s) (cm_db s')
}.

Lemma assigns_same s s1 s' : same_state s s1 -> assigns s1 s' -> assigns s s'.
Proof.
  intros HS [A1 A2 A3 A4]. split; [done|etrans; [by apply same_state_extends|done]| |]; destruct HS as [HS HT]; [|by etrans].
  unfold seqs_le in *. by rewrite HT in A3.
Qed.

Lemma assigns_trans s s1 s' : assigns s s1 -> assigns s1 s' -> assigns s s'.
Proof.
  intros [A1 A2 A3 A4] [B1 B2 B3 B4]. split; [done|by etrans| |by etrans]. unfold seqs_le in *. lia.
Qed.

Lemma same_assigns s s' : ids_ok s -> same_state s s' -> assigns s s'.
Proof.
  intros Hok HS. split; [by eapply same_state_ok|by apply same_state_extends| |apply HS]. destruct HS as [_ HT]. unfold seqs_le. rewrite HT. lia.
Qed.

Lemma insert_message_id_ok id mid s s' x :
  ids_ok s -> insert_message_id id mid s = (s', x) ->
  assigns s s' /\ forall n, x = Ok (Some n) -> tb_message_ids (cm_tables s') !! mid = Some (id, n).
Proof.
  intros Hok [(s1 & u & E & Hx)|(e & E & ->)]%cbind_inv; apply cstatement_same in E; [|split; [by apply same_assigns|done]].
  pose proof (same_state_ok _ _ E Hok) as Hok1.
  assert (assigns s1 s' /\ forall n, x = Ok (Some n) -> tb_message_ids (cm_tables s') !! mid = Some (id, n)) as [HA Hn].
  2:{ split; [by eapply assigns_same|done]. }
  destruct (messages (cm_db s1) !! mid) as [m|] eqn:Em; [|injection Hx as <- <-; split; [by apply same_assigns|done]].
  destruct (bool_decide (ms_inbox m = id)) eqn:Ei; cbn [negb] in Hx; [|injection Hx as <- <-; split; [by apply same_assigns|done]].
  bool_to_prop. destruct (tb_message_ids (cm_tables s1) !! mid) as [[u' n]|] eqn:Et; injection Hx as <- <-.
  - split; [|done]. split; [by apply used_id_ok|by split|split; cbn; lia|done].
  - split; [|intros n [= <-]; apply lookup_insert_eq]. split; [by eapply insert_id_ok| |split; cbn; lia|done].
    split; cbn; [|done]. by apply insert_subseteq.
Qed.

Lemma message_id_of_Some id mid s n : message_id_of id mid s = Some n -> tb_message_ids (cm_tables s) !! mid = Some (id, n).
Proof. unfold message_id_of. destruct (tb_message_ids _ !! mid) as [[u k]|]; [|done]. case_bool_decide; [|done]. subst. by intros [= ->]. Qed.

Lemma ensure_message_ok inboxID messageID s s' x :
  ids_ok s -> ensureCloudflareTempMessageID inboxID messageID s = (s', x) ->
  assigns s s' /\ forall n, x = Ok n -> exists id mid, uuid_parse inboxID = Some id /\ uuid_parse messageID = Some mid /\
    tb_message_ids (cm_tables s') !! mid = Some (id, n).
Proof.
  intros Hok. unfold ensureCloudflareTempMessageID, cast. destruct (uuid_parse inboxID) as [id|]; [|intros [= <- <-]; split; [by apply same_assigns|done]].
  destruct (uuid_parse messageID) as [mid|]; [|intros [= <- <-]; split; [by apply same_assigns|done]].
  intros (s1 & S1 & [Hx|(-> & e & ->)])%cquery_bind_inv; [|split; [by apply same_assigns|done]].
  pose proof (same_state_ok _ _ S1 Hok) as Hok1.
  destruct (message_id_of id mid s1) as [n|] eqn:E1.
  { injection Hx as <- <-. split; [by apply same_assigns|]. intros k [= <-]. exists id, mid. by apply message_id_of_Some in E1. }
  apply cbind_inv in Hx as [(s2 & inserted & Ei & Hx)|(e & Ei & ->)];
    apply insert_message_id_ok in Ei as [A2 Hn]; try done; [|split; [by eapply assigns_same|done]].
  pose proof (assigns_same _ _ _ S1 A2) as A. destruct inserted as [n|].
  { injection Hx as <- <-. split; [done|]. intros k [= <-]. exists id, mid. by rewrite (Hn n). }
  apply cquery_bind_inv in Hx as (s3 & S3 & Hx). pose proof (assigns_trans _ _ _ A (same_assigns _ _ (as_ok _ _ A) S3)) as A3.
  destruct Hx as [Hx|(-> & e & ->)]; [|done].
  destruct (message_id_of id mid s3) as [n|] eqn:E3; injection Hx as <- <-; [|done].
  split; [done|]. intros k [= <-]. exists id, mid. by apply message_id_of_Some in E3.
Qed.

(** The entry that a request for [key] is answered from. *)
Definition assigned (inboxID key : bytes) (s : compat) (n : Z) : Prop :=
  exists id mid, uuid_parse inboxID = Some id /\ uuid_parse key = Some mid /\ tb_message_ids (cm_tables s) !! mid = Some (id, n).

Lemma assigned_extends inboxID key s s' n : extends s s' -> assigned inboxID key s n -> assigned inboxID key s' n.
Proof. intros [Hm _] (id & mid & Hi & Hk & Hn). exists id, mid. split; [done|]. split; [done|]. by eapply lookup_weaken. Qed.

Lemma ensure_all_ok inboxID l : forall result s s' x,
  ids_ok s -> ensure_all inboxID l result s = (s', x) ->
  assigns s s' /\ forall r, x = Ok r ->
    (forall k, k ∈ l -> exists n, r !! k = Some n /\ assigned inboxID k s' n) /\ forall k, k ∉ l -> r !! k = result !! k.
Proof.
  induction l as [|key l IH]; intros result s s' x Hok; cbn [ensure_all].
  { intros [= <- <-]. split; [by apply same_assigns|]. intros r [= <-]. split; [|done]. intros k Hk. by apply not_elem_of_nil in Hk. }
  intros [(s1 & n & E & Hx)|(e & E & ->)]%cbind_inv; apply ensure_message_ok in E as [A1 Hn]; try done.
  apply IH in Hx as [A2 Hr]; [|apply A1]. split; [by eapply assigns_trans|]. intros r ->. destruct (Hr r eq_refl) as [H1 H2].
  split.
  - intros k Hk. destruct (decide (k ∈ l)) as [Hin|Hnin]; [by apply H1|]. apply elem_of_cons in Hk as [->|Hk]; [|done].
    exists n. rewrite H2 by done. split; [apply lookup_insert_eq|]. eapply assigned_extends; [apply A2|by apply Hn].
  - intros k [Hne Hnin]%not_elem_of_cons. rewrite H2 by done. by apply lookup_insert_ne.
Qed.

Lemma gap_extends s s' : gap s s' -> extends s s'.
Proof. intros (_ & _ & E2 & E3). by split; rewrite ?E2, ?E3. Qed.

Lemma EnsureMessageIDs_ok inboxID l s s' x :
  ids_ok s -> EnsureMessageIDs inboxID l s = (s', x) ->
  assigns s s' /\ forall r, x = Ok r -> forall k, k ∈ l -> exists n, r !! k = Some n /\ assigned inboxID k s' n.
Proof.
  intros Hok. unfold EnsureMessageIDs. destruct l as [|k0 l0].
  { intros [= <- <-]. split; [by apply same_assigns|]. intros r _ k Hk. by apply not_elem_of_nil in Hk. }
  intros [((e & ->) & HG & Hseq)|(s1 & s2 & r & S1 & Hb & S2 & Hx)]%ctransaction_inv.
  - split; [|done]. destruct Hseq as [HS|(s1 & s2 & y & S1 & Hb & Q1 & Q2)]; [by apply same_assigns|].
    apply ensure_all_ok in Hb as [A _]; [|by eapply same_state_ok]. apply (assigns_same _ _ _ S1) in A.
    assert (seqs_le s s') as HL by (destruct A as [_ _ [L1 L2] _]; split; congruence || lia).
    split; [by eapply gap_ok|by apply gap_extends|done|apply HG].
  - apply ensure_all_ok in Hb as [A Hr]; [|by eapply same_state_ok]. apply (assigns_same _ _ _ S1) in A.
    split; [eapply assigns_trans; [done|apply same_assigns; [apply A|done]]|]. intros r' ->.
    destruct Hx as [[= ->]|(? & [=])]. intros k Hk. destruct (proj1 (Hr r eq_refl) k Hk) as (n & Hn & Ha). exists n. split; [done|].
    eapply assigned_extends; [by apply same_state_extends|done].
Qed.

(** ** Resolving identifiers *)

Lemma mapped_message_spec s id n mid :
  ids_ok s -> tb_message_ids (cm_tables s) !! mid = Some (id, n) -> mapped_message s id n = Some mid.
Proof.
  intros Hok Hn. unfold mapped_message. set (l := filter _ _).
  assert (forall kv, kv ∈ l <-> kv = (mid, (id, n))) as Hl.
  { intros [k [u z]]. unfold l. rewrite list_elem_of_filter, elem_of_map_to_list. cbn. split.
    - intros [[[= -> ->] _] Hk]. by rewrite (io_inj _ Hok _ _ _ _ _ Hk Hn).
    - intros [= -> -> ->]. split; [|done]. split; [done|]. destruct (io_owner _ Hok _ _ _ Hn) as (m & -> & Hm). cbn. by rewrite Hm. }
  destruct l as [|kv l]; [exfalso; by eapply not_elem_of_nil, Hl|]. by rewrite (proj1 (Hl kv) (list_elem_of_here _ _)).
Qed.

Lemma mapped_message_owner s id n mid : mapped_message s id n = Some mid -> tb_message_ids (cm_tables s) !! mid = Some (id, n).
Proof.
  unfold mapped_message. destruct (filter _ _) as [|[k v] l] eqn:E; [done|]. intros [= <-].
  assert ((k, v) ∈ (k, v) :: l) as Hin by apply list_elem_of_here. rewrite <- E, list_elem_of_filter, elem_of_map_to_list in Hin.
  by destruct Hin as [[<- _] ?].
Qed.

Lemma cquery_calm {A} t (f : compat -> A) s : db_oracle (cm_db s) = [] -> cquery t f s = (s, Ok (f s)).
Proof. intros Hc. unfold cquery, cbind, cstatement. rewrite statement_calm by done. by destruct s. Qed.

(** ** Other operations in between *)

(** What others do: the mailboxes change under their foreign keys, with no
    message moving to another inbox, identifiers are assigned, accounts are
    created. *)
Inductive id_step : compat -> compat -> Prop :=
| step_mail s d :
    (forall mid m m', messages (cm_db s) !! mid = Some m -> messages d !! mid = Some m' -> ms_inbox m' = ms_inbox m) ->
    (forall mid m, messages d !! mid = Some m -> is_Some (inboxes d !! ms_inbox m)) ->
    id_step s (Compat d (cascade d (cm_tables s)))
| step_messages inboxID l s s' x : EnsureMessageIDs inboxID l s = (s', x) -> id_step s s'
| step_inbox inboxID s s' x : EnsureInboxID (λ s, s) inboxID s = (s', x) -> id_step s s'
| step_account account s s' x : CreateAccount account s = (s', x) -> id_step s s'.

Lemma inbox_gap_ok s : ids_ok s -> let t := cm_tables s in
  assigns s (Compat (cm_db s) (Tables (tb_accounts t) (tb_inbox_ids t) (tb_message_ids t) (tb_inbox_seq t + 1) (tb_message_seq t))).
Proof.
  intros Hok t. subst t. assert (seqs_le s (Compat (cm_db s) (Tables (tb_accounts (cm_tables s)) (tb_inbox_ids (cm_tables s))
    (tb_message_ids (cm_tables s)) (tb_inbox_seq (cm_tables s) + 1) (tb_message_seq (cm_tables s))))) as HL by (split; cbn; lia).
  split; [|by split|done|done]. by apply (gap_ok s).
Qed.

Lemma insert_inbox_id_ok s id : ids_ok s -> tb_inbox_ids (cm_tables s) !! id = None -> let t := cm_tables s in
  assigns s (Compat (cm_db s) (Tables (tb_accounts t) (<[id := tb_inbox_seq t]> (tb_inbox_ids t)) (tb_message_ids t) (tb_inbox_seq t + 1) (tb_message_seq t))).
Proof.
  intros [] Hn t. subst t. split; [|split; cbn; [done|by apply insert_subseteq]|split; cbn; lia|done]. split; cbn; try done; [..|lia].
  - intros k z [[<- <-]|[_ Hk]]%lookup_insert_Some; [lia|]. specialize (io_inbox_range0 _ _ Hk). lia.
  - intros a b z. rewrite !lookup_insert_Some. intros [[<- Ea]|[Ha Hk]] [[<- Eb]|[Hb Hl]]; simplify_eq; try done.
    + specialize (io_inbox_range0 _ _ Hl). lia.
    + specialize (io_inbox_range0 _ _ Hk). lia.
    + by eapply io_inbox_inj0.
Qed.

(** [EnsureInboxID] among others, for anything [R] that they and it keep. *)
Lemma EnsureInboxID_run (R : compat -> compat -> Prop) `{!PreOrder R} between inboxID s s' x :
  (forall a b, assigns a b -> R a b) -> (forall a, ids_ok a -> ids_ok (between a) /\ R a (between a)) ->
  ids_ok s -> EnsureInboxID between inboxID s = (s', x) ->
  ids_ok s' /\ R s s' /\ forall n, x = Ok n -> exists id, uuid_parse inboxID = Some id /\ tb_inbox_ids (cm_tables s') !! id = Some n.
Proof.
  intros HR Hb Hok. unfold EnsureInboxID, cast. destruct (uuid_parse inboxID) as [id|]; [|by intros [= <- <-]].
  assert (forall a b, ids_ok a -> same_state a b -> ids_ok b /\ R a b) as Hsame.
  { intros a b Ha HS. split; [by eapply same_state_ok|]. by apply HR, same_assigns. }
  destruct (cquery _ _ s) as [s1 y] eqn:E1. apply cquery_inv in E1 as [S1 E1]. destruct (Hsame _ _ Hok S1) as [Hok1 R1].
  destruct y as [[n|]|e]; [| |by intros [= <- <-]].
  { intros [= <- <-]. split; [done|]. split; [done|]. intros k [= <-]. exists id. destruct E1 as [[= ->]|(? & [=])]. done. }
  destruct (Hb _ Hok1) as [Hok2 R2]. destruct (cstatement _ (between s1)) as [s3 y] eqn:E3. apply cstatement_same in E3.
  destruct (Hsame _ _ Hok2 E3) as [Hok3 R3]. assert (R s s3) as R03 by (etrans; [done|by etrans]).
  destruct y as [u|e]; [|by intros [= <- <-]].
  destruct (inboxes (cm_db s3) !! id) as [row|] eqn:Ei.
  2:{ intros [= <- <-]. pose proof (inbox_gap_ok _ Hok3) as HA. split; [apply HA|]. split; [etrans; [done|by apply HR]|done]. }
  destruct (tb_inbox_ids (cm_tables s3) !! id) as [k|] eqn:Ek.
  2:{ intros [= <- <-]. pose proof (insert_inbox_id_ok _ _ Hok3 Ek) as HA. split; [apply HA|]. split; [etrans; [done|by apply HR]|].
      intros n [= <-]. exists id. split; [done|]. apply lookup_insert_eq. }
  set (s4 := Compat _ _). assert (assigns s3 s4) as HA by (by apply inbox_gap_ok). destruct (Hb _ (as_ok _ _ HA)) as [Hok5 R5].
  destruct (cquery _ _ (between s4)) as [s6 y] eqn:E6. apply cquery_inv in E6 as [S6 E6]. destruct (Hsame _ _ Hok5 S6) as [Hok6 R6].
  assert (R s s6) as R06 by (etrans; [done|]; etrans; [by apply HR|]; by etrans).
  destruct y as [[n|]|e]; intros [= <- <-]; (split; [done|]); (split; [done|]); try done.
  intros m [= <-]. exists id. destruct E6 as [[= ->]|(? & [=])]. done.
Qed.

#[local] Instance tables_kept : PreOrder (λ a b, extends a b /\ same_tables (cm_db a) (cm_db b)).
Proof. split; [intros a; by split|]. intros a b c [] []. split; by etrans. Qed.

Lemma EnsureInboxID_alone inboxID s s' x :
  ids_ok s -> EnsureInboxID (λ s, s) inboxID s = (s', x) -> ids_ok s' /\ extends s s' /\ same_tables (cm_db s) (cm_db s').
Proof.
  intros Hok E. apply (EnsureInboxID_run (λ a b, extends a b /\ same_tables (cm_db a) (cm_db b))) in E as (Hok' & HR & _); [done| | |done].
  - intros a b []. done.
  - done.
Qed.

(** An account is created beside the identifiers. *)
Record beside (s s' : compat) : Prop := {
  bs_messages : messages (cm_db s') = messages (cm_db s);
  bs_inboxes : inboxes (cm_db s) ⊆ inboxes (cm_db s');
  bs_message_ids : tb_message_ids (cm_tables s') = tb_message_ids (cm_tables s);
  bs_inbox_ids : tb_inbox_ids (cm_tables s') = tb_inbox_ids (cm_tables s);
  bs_message_seq : tb_message_seq (cm_tables s') = tb_message_seq (cm_tables s);
  bs_inbox_seq : tb_inbox_seq (cm_tables s') = tb_inbox_seq (cm_tables s)
}.

#[local] Instance beside_preorder : PreOrder beside.
Proof. split; [intros s; by split|]. intros s1 s2 s3 [] []. split; congruence || by etrans. Qed.

Lemma same_beside s s' : same_state s s' -> beside s s'.
Proof. intros [HS HT]. split; rewrite ?HT; try done; [apply HS|]. by rewrite (sm_inboxes _ _ HS). Qed.

Lemma insert_account_inbox_beside account s s' x : insert_account_inbox account s = (s', x) -> beside s s'.
Proof.
  intros [(s1 & u & E & Hx)|(e & E & ->)]%cbind_inv; apply cstatement_same, same_beside in E; [|done]. etrans; [done|].
  cbv zeta in Hx. destruct (negb _); [by injection Hx as <- <-|]. destruct (find_address (cm_db s1) _); [by injection Hx as <- <-|].
  destruct (inboxes (cm_db s1) !! new_uuid (cm_db s1)) eqn:En; injection Hx as <- <-; [done|]. split; try done. cbn. by apply insert_subseteq.
Qed.

Lemma insert_credential_beside inboxID account s s' x : insert_credential inboxID account s = (s', x) -> beside s s'.
Proof.
  unfold insert_credential, cast. destruct (uuid_parse inboxID) as [id|]; [|by intros [= <- <-]].
  intros [(s1 & u & E & Hx)|(e & E & ->)]%cbind_inv; apply cstatement_same, same_beside in E; [|done]. etrans; [done|].
  destruct (negb _); [by injection Hx as <- <-|]. repeat case_match; by injection Hx as <- <-.
Qed.

Lemma create_account_beside account s s' x : create_account_body account s = (s', x) -> beside s s'.
Proof.
  intros [(s1 & inbox & E & Hx)|(e & E & ->)]%cbind_inv; apply insert_account_inbox_beside in E; [|done]. etrans; [done|].
  apply cbind_inv in Hx as [(s2 & u & E2 & Hx)|(e & E2 & ->)]; apply insert_credential_beside in E2; [|done]. by injection Hx as <- <-.
Qed.

Lemma CreateAccount_beside account s s' x : CreateAccount account s = (s', x) -> beside s s'.
Proof.
  intros [(_ & HG & HS)|(s1 & s2 & a & S1 & Hb & S2 & _)]%ctransaction_inv.
  - destruct HS as [HS|(s1 & s2 & y & S1 & Hb & Q1 & Q2)]; [by apply same_beside|]. apply create_account_beside in Hb.
    destruct HG as (HS & _ & E2 & E3). apply same_beside in S1. assert (beside s s2) as [] by (by etrans).
    split; try done; [apply HS|by rewrite (sm_inboxes _ _ HS)|congruence..].
  - apply create_account_beside in Hb. etrans; [by apply same_beside|]. etrans; [done|by apply same_beside].
Qed.

Lemma beside_ok s s' : beside s s' -> ids_ok s -> ids_ok s'.
Proof. intros [E1 _ E3 E4 E5 E6] []. by split; rewrite ?E1, ?E3, ?E4, ?E5, ?E6. Qed.

(** ** Any sequence of operations *)

Lemma cascade_ok s d :
  (forall mid m m', messages (cm_db s) !! mid = Some m -> messages d !! mid = Some m' -> ms_inbox m' = ms_inbox m) ->
  ids_ok s -> ids_ok (Compat d (cascade d (cm_tables s))).
Proof.
  intros Hi []. split; cbn; try done.
  - intros mid u n [Hk _]%map_lookup_filter_Some. by eapply io_range0.
  - intros a b u v n [Ha _]%map_lookup_filter_Some [Hb _]%map_lookup_filter_Some. by eapply io_inj0.
  - intros mid u n [Hk [_ [m' Hm']]]%map_lookup_filter_Some. cbn in Hm'. exists m'. split; [done|].
    destruct (io_owner0 _ _ _ Hk) as (m & Hm & <-). by eapply Hi.
  - intros id n [Hk _]%map_lookup_filter_Some. by eapply io_inbox_range0.
  - intros a b n [Ha _]%map_lookup_filter_Some [Hb _]%map_lookup_filter_Some. by eapply io_inbox_inj0.
Qed.

Lemma id_step_ok s s' : id_step s s' -> ids_ok s -> ids_ok s'.
Proof.
  intros [] Hok.
  - by apply cascade_ok.
  - by eapply EnsureMessageIDs_ok.
  - by eapply EnsureInboxID_alone.
  - by eapply beside_ok; [eapply CreateAccount_beside|].
Qed.

(** Steps that keep a message, or an inbox. *)
Definition keeping (mid : uuid) (s s' : compat) : Prop := id_step s s' /\ is_Some (messages (cm_db s') !! mid).
Definition keeping_inbox (id : uuid) (s s' : compat) : Prop := id_step s s' /\ is_Some (inboxes (cm_db s') !! id).

Lemma keeping_id mid s s' u n :
  keeping mid s s' -> ids_ok s -> tb_message_ids (cm_tables s) !! mid = Some (u, n) -> tb_message_ids (cm_tables s') !! mid = Some (u, n).
Proof.
  intros [Hst [m' Hm']] Hok Hn. destruct Hst as [s d Hi Hfk|? ? ? ? ? E|? ? ? ? E|? ? ? ? E].
  - cbn in *. apply map_lookup_filter_Some. cbn. split; [done|]. split; [|done]. destruct (io_owner _ Hok _ _ _ Hn) as (m & Hm & <-).
    rewrite <- (Hi _ _ _ Hm Hm'). by eapply Hfk.
  - apply EnsureMessageIDs_ok in E as [A _]; [|done]. eapply lookup_weaken; [done|apply A].
  - apply EnsureInboxID_alone in E as (_ & [] & _); [|done]. by eapply lookup_weaken.
  - apply CreateAccount_beside in E as []. congruence.
Qed.

Lemma keeping_inbox_id id s s' n :
  keeping_inbox id s s' -> ids_ok s -> tb_inbox_ids (cm_tables s) !! id = Some n -> tb_inbox_ids (cm_tables s') !! id = Some n.
Proof.
  intros [Hst Hi'] Hok Hn. destruct Hst as [s d Hi Hfk|? ? ? ? ? E|? ? ? ? E|? ? ? ? E].
  - cbn in *. by apply map_lookup_filter_Some.
  - apply EnsureMessageIDs_ok in E as [A _]; [|done]. eapply lookup_weaken; [done|apply A].
  - apply EnsureInboxID_alone in E as (_ & [] & _); [|done]. by eapply lookup_weaken.
  - apply CreateAccount_beside in E as []. congruence.
Qed.

Lemma kept_id mid s s' u n :
  rtc (keeping mid) s s' -> ids_ok s -> tb_message_ids (cm_tables s) !! mid = Some (u, n) ->
  ids_ok s' /\ tb_message_ids (cm_tables s') !! mid = Some (u, n).
Proof.
  induction 1 as [|s1 s2 s3 Hst _ IH]; [done|]. intros Hok Hn. apply IH; [by eapply id_step_ok; [apply Hst|]|by eapply keeping_id].
Qed.

Lemma kept_inbox_id id s s' :
  rtc (keeping_inbox id) s s' -> ids_ok s ->
  ids_ok s' /\ forall n, tb_inbox_ids (cm_tables s) !! id = Some n -> tb_inbox_ids (cm_tables s') !! id = Some n.
Proof.
  induction 1 as [|s1 s2 s3 Hst _ IH]; [done|]. intros Hok. destruct IH as [Hok' IH]; [by eapply id_step_ok; [apply Hst|]|].
  split; [done|]. intros n Hn. by eapply IH, keeping_inbox_id.
Qed.

(** C38: message identifiers are stable.  The identifier that
    [EnsureMessageIDs] returns for a message is positive; as long as the
    message exists, whatever else happens, every later request gets the same
    one, [FindMessageID] resolves it back to that message without failures,
    and never to another message or for another inbox. *)
Theorem message_ids_stable inboxID l s s1 ids messageID :
  ids_ok s -> EnsureMessageIDs inboxID l s = (s1, Ok ids) -> messageID ∈ l ->
  exists id mid n, uuid_parse inboxID = Some id /\ uuid_parse messageID = Some mid /\ ids !! messageID = Some n /\ 0 < n /\
  forall s2, rtc (keeping mid) s1 s2 ->
    (forall l' s3 ids', EnsureMessageIDs inboxID l' s2 = (s3, Ok ids') -> messageID ∈ l' -> ids' !! messageID = Some n) /\
    (forall owner s3 found, FindMessageID owner n s2 = (s3, Ok found) -> found = uuid_string mid /\ uuid_parse owner = Some id) /\
    (db_oracle (cm_db s2) = [] -> FindMessageID inboxID n s2 = (s2, Ok (uuid_string mid))).
Proof.
  intros Hok E Hl. apply EnsureMessageIDs_ok in E as [A Hr]; [|done]. destruct (Hr _ eq_refl _ Hl) as (n & Hn & id & mid & Hid & Hmid & Ht).
  exists id, mid, n. do 3 (split; [done|]). assert (0 < n) as Hpos by (by destruct (io_range _ (as_ok _ _ A) _ _ _ Ht)). split; [done|].
  intros s2 Hs. destruct (kept_id _ _ _ _ _ Hs (as_ok _ _ A) Ht) as [Hok2 Ht2]. split; [|split].
  - intros l' s3 ids' E2 Hl'. apply EnsureMessageIDs_ok in E2 as [A2 Hr2]; [|done].
    destruct (Hr2 _ eq_refl _ Hl') as (k & Hk & id' & mid' & Hid' & Hmid' & Hk'). assert (mid' = mid) as -> by congruence.
    eapply lookup_weaken in Ht2; [|apply A2]. congruence.
  - intros owner s3 found. unfold FindMessageID, cast. destruct (n <=? 0); [done|].
    destruct (uuid_parse owner) as [o|]; [|done]. intros (s4 & S4 & [Hx|(_ & e & [=])])%cquery_bind_inv.
    destruct (mapped_message s4 o n) as [k|] eqn:Em; [|done]. injection Hx as <- <-. apply mapped_message_owner in Em.
    destruct S4 as [_ HT]. rewrite HT in Em. pose proof (io_inj _ Hok2 _ _ _ _ _ Em Ht2) as ->. split; congruence.
  - intros Hc. unfold FindMessageID, cast. rewrite (proj2 (Z.leb_gt n 0)) by done. rewrite Hid. unfold cbind.
    rewrite cquery_calm by done. by rewrite (mapped_message_spec _ _ _ mid).
Qed.

(** Two requests for an inbox, each with any operations of others between its
    statements and any between the two, get the same positive identifier. *)
Theorem inbox_id_stable between between' inboxID id s s1 s2 s3 n n' :
  (forall a, rtc (keeping_inbox id) a (between a)) -> (forall a, rtc (keeping_inbox id) a (between' a)) ->
  uuid_parse inboxID = Some id -> ids_ok s -> EnsureInboxID between inboxID s = (s1, Ok n) -> rtc (keeping_inbox id) s1 s2 ->
  EnsureInboxID between' inboxID s2 = (s3, Ok n') -> 0 < n /\ n' = n.
Proof.
  set (R := λ a b, forall n, tb_inbox_ids (cm_tables a) !! id = Some n -> tb_inbox_ids (cm_tables b) !! id = Some n).
  assert (PreOrder R) as HR by (split; [by intros a k|intros a b c Hab Hbc k Hk; by apply Hbc, Hab]).
  assert (forall a b, assigns a b -> R a b) as HA by (intros a b [_ [] _ _] k Hk; by eapply lookup_weaken).
  intros Hb Hb' Hid Hok E1 Hs E2. apply (EnsureInboxID_run R) in E1 as (Hok1 & _ & H1); [|done|by intros; apply kept_inbox_id|done].
  destruct (kept_inbox_id _ _ _ Hs Hok1) as [Hok2 Hk2].
  apply (EnsureInboxID_run R) in E2 as (Hok3 & R3 & H3); [|done|by intros; apply kept_inbox_id|done].
  destruct (H1 _ eq_refl) as (i & Hi & Hn). destruct (H3 _ eq_refl) as (j & Hj & Hn'). simplify_eq. split.
  - by apply (io_inbox_range _ Hok1) in Hn as [? _].
  - apply Hk2, R3 in Hn. congruence.
Qed.
End Ids.

(** ** A run *)

Module Runs.
Definition start : compat := Compat MailboxService.Runs.three no_tables.
Definition inboxID : InboxID := uuid_string DeliveryRepo.Demo.alice.
Definition asked : list MessageID := [uuid_string (be_encode 16 5); uuid_string (be_encode 16 7)].
Definition assigning : compat * res (gmap bytes Z) := EnsureMessageIDs inboxID asked start.
Definition ids : gmap bytes Z := match assigning.2 with Ok r => r | Err _ => ∅ end.

Lemma no_ids_ok : ids_ok start.
Proof. by split; cbn. Qed.

Lemma ids_assigned_run : EnsureMessageIDs inboxID asked start = (assigning.1, Ok ids).
Proof.
  assert (is_ok assigning.2 = true) as E by (vm_compute; reflexivity). unfold ids.
  change (EnsureMessageIDs inboxID asked start) with assigning. revert E. generalize assigning. by intros [w [a|e]].
Qed.

Lemma ids_run : (λ k, ids !! k) <$> asked = [Some 1; Some 2].
Proof. vm_compute. reflexivity. Qed.
End Runs.

Lemma message_ids_stable_witness :
  exists id mid n, uuid_parse Runs.inboxID = Some id /\ uuid_parse (uuid_string (be_encode 16 5)) = Some mid /\
    Runs.ids !! uuid_string (be_encode 16 5) = Some n /\ 0 < n /\
  forall s2, rtc (keeping mid) Runs.assigning.1 s2 ->
    (forall l' s3 ids', EnsureMessageIDs Runs.inboxID l' s2 = (s3, Ok ids') -> uuid_string (be_encode 16 5) ∈ l' -> ids' !! uuid_string (be_encode 16 5) = Some n) /\
    (forall owner s3 found, FindMessageID owner n s2 = (s3, Ok found) -> found = uuid_string mid /\ uuid_parse owner = Some id) /\
    (db_oracle (cm_db s2) = [] -> FindMessageID Runs.inboxID n s2 = (s2, Ok (uuid_string mid))).
Proof.
  exact (message_ids_stable Runs.inboxID Runs.asked Runs.start Runs.assigning.1 Runs.ids (uuid_string (be_encode 16 5)) Runs.no_ids_ok
    Runs.ids_assigned_run (list_elem_of_here _ _)).
Defined.
