(* ===== verification/DuckMail.v ===== *)
(** * The DuckMail adapter: [internal/duckmail]

    Password accounts on top of inboxes: Argon2id hashes in their textual
    form, account creation, and login, which issues a capability.  The key
    derivation itself is a library function. *)

From S2P Require Import Prelude GoStrings Errors Codec Uuid FileSystem Message Mail Database DatabaseFacts Token Scope DeliveryRepo MailboxRepo CapabilityRepo Capability CapabilityDb LmtpCommand MailboxService CompatRepo CompatFacts.

#[local] Opaque sha256.

(** [argon2.IDKey]: password, salt, time, memory, threads, key length. *)
Class Argon2Lib := { IDKey : bytes -> bytes -> Z -> Z -> Z -> Z -> bytes }.

(** Its documented behaviour: a key of the requested length. *)
Class Argon2Spec (A : Argon2Lib) : Prop := {
  IDKey_length : forall password salt time memory threads n, 0 <= n -> zlen (IDKey password salt time memory threads n) = n
}.

(** ** Passwords *)

Definition passwordMemoryKiB : Z := 19 * 1024.
Definition passwordIterations : Z := 2.
Definition passwordParallelism : Z := 1.
Definition passwordSaltBytes : Z := 16.
Definition passwordKeyBytes : Z := 32.
Definition argon2_Version : Z := 19.

Definition parseParameter (raw prefix : bytes) : option Z :=
  if negb (has_prefix raw prefix) then None
  else match parse_int64 (trim_prefix raw prefix) with
  | Some value => if 0 <? value then Some value else None
  | None => None
  end.

Section Passwords.
Context `{!Argon2Lib}.

Definition password_key (password salt : bytes) : bytes :=
  IDKey password salt passwordIterations passwordMemoryKiB passwordParallelism passwordKeyBytes.

(** The text of a hash. *)
Definition hash_text (salt key : bytes) : bytes :=
  str "$argon2id$v=" ++ format_int argon2_Version ++ str "$m=" ++ format_int passwordMemoryKiB ++ str ",t=" ++ format_int passwordIterations ++
  str ",p=" ++ format_int passwordParallelism ++ str "$" ++ b64std_encode salt ++ str "$" ++ b64std_encode key.

(** [hashPassword]: the hash and the rest of the random source. *)
Definition hashPassword (random password : bytes) : res (bytes * bytes) :=
  match read_full random passwordSaltBytes with
  | None => Err (EWrap "generate DuckMail password salt" (ENew "unexpected EOF"))
  | Some (salt, rest) => Ok (hash_text salt (password_key password salt), rest)
  end.

Definition verifyPassword (encoded password : bytes) : bool :=
  match split_at "$"%char encoded with
  | [_; algorithm; version; params; salt; key] =>
    if negb (bool_decide (algorithm = str "argon2id")) || negb (bool_decide (version = str "v=19")) then false
    else match split_at ","%char params with
    | [m; t; p] =>
      match parseParameter m (str "m="), parseParameter t (str "t="), parseParameter p (str "p=") with
      | Some memory, Some iterations, Some parallelism =>
        if negb (memory =? passwordMemoryKiB) || negb (iterations =? passwordIterations) || negb (parallelism =? passwordParallelism) then false
        else match b64std_decode salt, b64std_decode key with
        | Some salt, Some want =>
          if negb (zlen salt =? passwordSaltBytes) || negb (zlen want =? passwordKeyBytes) then false
          else bool_decide (IDKey password salt iterations memory parallelism passwordKeyBytes = want)
        | _, _ => false
        end
      | _, _, _ => false
      end
    | _ => false
    end
  | _ => false
  end.
End Passwords.

(** ** The service *)

(** A process together with the tables of the adapters. *)
Record site := Site { si_host : host; si_tables : tables }.

Definition on_compat {A} (m : CDB A) (w : site) : site * res A :=
  let '(s, x) := m (Compat (h_db (si_host w)) (si_tables w)) in
  (Site (Host (cm_db s) (h_random (si_host w)) (h_clock (si_host w))) (cm_tables s), x).

Definition on_mailbox {A} (f : host -> host * A) (w : site) : site * A :=
  let '(h, x) := f (si_host w) in (Site h (cascade (h_db h) (si_tables w)), x).

Record DuckOptions := MkDuckOptions { do_PublicDomains : list bytes; do_DefaultTTL : Z; do_MaxTTL : Z }.
Record DuckService := MkDuckService { ds_domains : list bytes; ds_defaultTTL : Z; ds_maxTTL : Z; ds_dummyHash : bytes }.
Record CreateAccountRequest := MkCreateAccountRequest { ca_Address : bytes; ca_Password : bytes; ca_ExpiresIn : option Z }.

Section Service.
Context `{!UUIDLib} `{!Argon2Lib}.

(** [NewService], with the random source for the dummy hash. *)
Definition NewDuckService (options : DuckOptions) (random : bytes) : res (DuckService * bytes) :=
  if bool_decide (do_PublicDomains options = []) || (do_DefaultTTL options <=? 0) || (do_MaxTTL options <? do_DefaultTTL options)
  then Err (ENew "DuckMail options are invalid")
  else match hashPassword random (str "mailwisp-dummy-password") with
  | Err e => Err e
  | Ok (dummyHash, rest) =>
    Ok (MkDuckService ((λ domain, to_lower (trim_space domain)) <$> do_PublicDomains options) (do_DefaultTTL options) (do_MaxTTL options) dummyHash, rest)
  end.

Context (s : DuckService).

Definition validateAddress (raw : bytes) : res bytes :=
  let address := to_lower (trim_space raw) in
  let '(local, domain, found) := cut address "@"%char in
  if negb found || (zlen local <? 3) || negb (ValidInboxLocalPart local) then Err (ESentinel ErrInvalidAccount)
  else if negb (bool_decide (domain ∈ ds_domains s)) then Err (ESentinel ErrInvalidAccount)
  else Ok address.

(** The lifetime that is asked for. *)
Definition account_lifetime (expiresIn : option Z) : res Z :=
  match expiresIn with
  | None => Ok (ds_defaultTTL s)
  | Some n =>
    if (n =? 0) || (n =? -1) then Err (ESentinel ErrPermanentUnsupported)
    else if (n <? 0) || (Z.quot (ds_maxTTL s) 1000000000 <? n) then Err (ESentinel ErrInvalidAccount)
    else Ok (n * 1000000000)
  end.

(** [CreateAccount]; [kdf] is the error of a context that ends the wait for a
    slot of the key derivation. *)
Definition DuckCreateAccount (kdf : option goerr) (request : CreateAccountRequest) (w : site) : site * res Inbox :=
  match validateAddress (ca_Address request) with
  | Err _ => (w, Err (ESentinel ErrInvalidAccount))
  | Ok address =>
    if (zlen (ca_Password request) <? 6) || (128 <? zlen (ca_Password request)) then (w, Err (ESentinel ErrInvalidAccount))
    else match account_lifetime (ca_ExpiresIn request) with
    | Err e => (w, Err e)
    | Ok lifetime =>
      match kdf with
      | Some e => (w, Err e)
      | None =>
        match hashPassword (h_random (si_host w)) (ca_Password request) with
        | Err e => (w, Err e)
        | Ok (hash, rest) =>
          let now := h_clock (si_host w) in
          on_compat (CreateAccount (MkNewAccount address hash now (now + lifetime))) (Site (take_random (si_host w) rest) (si_tables w))
        end
      end
    end
  end.

(** [Login]; a missing account costs a derivation too. *)
Definition DuckLogin (kdf : option goerr) (address password : bytes) (w : site) : site * res IssuedCapability :=
  let normalized := to_lower (trim_space address) in
  match on_compat (FindAccountByAddress normalized) w with
  | (w, Err e) =>
    match kdf with
    | Some kdfErr => (w, Err kdfErr)
    | None => let _ := verifyPassword (ds_dummyHash s) password in
      (w, Err (if errors_is e ErrLoginFailed then ESentinel ErrLoginFailed else e))
    end
  | (w, Ok account) =>
    match kdf with
    | Some e => (w, Err e)
    | None =>
      if negb (verifyPassword (an_PasswordHash account) password) then (w, Err (ESentinel ErrLoginFailed))
      else match NewScopeSet allScopes with
      | Err e => (w, Err e)
      | Ok scopes =>
        match on_mailbox (λ h, Issue h (ib_ID (an_Inbox account)) scopes (ib_ExpiresAt (an_Inbox account))) w with
        | (w, Err e) => (w, Err (EWrap "issue DuckMail compatibility token" e))
        | (w, Ok issued) => (w, Ok issued)
        end
      end
    end
  end.
End Service.

(** ** Hashes and passwords *)

Definition b64_alpha (c : ascii) : bool := match b64_value c with Some _ => true | None => false end.

Lemma b64_encode_alpha s : forallb b64_alpha (b64_encode s) = true.
Proof.
  induction s as [|a|a b|a b c s IH] using list_ind3; cbn [b64_encode forallb]; [done|..];
    unfold b64_alpha in *; code_facts; rewrite !b64_value_char by div_mod_lia; rewrite ?IH; done.
Qed.

Lemma to_std_alpha c : b64_alpha c = true ->
  std_char (to_std c) = true /\ of_std (to_std c) = c /\ bool_decide (to_std c = "-"%char) || bool_decide (to_std c = "_"%char) = false /\
  to_std c <> "$"%char.
Proof.
  intros Hc. assert (implb (b64_alpha c) (std_char (to_std c) && bool_decide (of_std (to_std c) = c) &&
    negb (bool_decide (to_std c = "-"%char) || bool_decide (to_std c = "_"%char)) && negb (bool_decide (to_std c = "$"%char))) = true) as Hx.
  { clear Hc. byte_check (λ c, implb (b64_alpha c) (std_char (to_std c) && bool_decide (of_std (to_std c) = c) &&
      negb (bool_decide (to_std c = "-"%char) || bool_decide (to_std c = "_"%char)) && negb (bool_decide (to_std c = "$"%char)))) c. }
  rewrite Hc in Hx. cbn [implb] in Hx. rewrite !andb_true_iff, !negb_true_iff in Hx. destruct Hx as [[[H1 H2] H3] H4].
  apply bool_decide_eq_true in H2. apply bool_decide_eq_false in H4. done.
Qed.

Lemma std_map s : forallb b64_alpha s = true ->
  forallb std_char (to_std <$> s) = true /\ of_std <$> (to_std <$> s) = s /\
  existsb (λ c, bool_decide (c = "-"%char) || bool_decide (c = "_"%char)) (to_std <$> s) = false /\ "$"%char ∉ to_std <$> s.
Proof.
  induction s as [|c s IH]; [intros _; by repeat split; try apply not_elem_of_nil|].
  cbn [forallb]. intros [Hc Hs]%andb_true_iff. destruct (IH Hs) as (I1 & I2 & I3 & I4). destruct (to_std_alpha c Hc) as (J1 & J2 & J3 & J4).
  cbn [fmap list_fmap forallb existsb]. unfold fmap in *. rewrite J1, I1, J3, I3, J2, I2. repeat (split; [done|]).
  by apply not_elem_of_cons.
Qed.

Lemma b64std_roundtrip s : b64std_decode (b64std_encode s) = Some s.
Proof.
  destruct (std_map _ (b64_encode_alpha s)) as (_ & H2 & H3 & _). unfold b64std_decode, b64std_encode. rewrite H3, H2. apply b64_decode_encode.
Qed.

Section Hashes.
Context `{!Argon2Lib} `{!Argon2Spec _}.

Lemma hash_text_split salt key :
  split_at "$"%char (hash_text salt key) =
    [[]; str "argon2id"; str "v=19"; str "m=19456,t=2,p=1"; b64std_encode salt; b64std_encode key].
Proof.
  change (hash_text salt key) with ([] ++ "$"%char :: str "argon2id" ++ "$"%char :: str "v=19" ++ "$"%char :: str "m=19456,t=2,p=1" ++ "$"%char ::
    b64std_encode salt ++ "$"%char :: b64std_encode key).
  rewrite !split_at_cons; [|apply std_map, b64_encode_alpha|apply free_of; reflexivity..].
  rewrite split_at_last by apply std_map, b64_encode_alpha. done.
Qed.

(** The text of a hash verifies exactly the passwords with its key. *)
Lemma verify_hash salt key password :
  zlen salt = passwordSaltBytes -> zlen key = passwordKeyBytes ->
  verifyPassword (hash_text salt key) password = bool_decide (password_key password salt = key).
Proof.
  intros Hs Hk. unfold verifyPassword. rewrite hash_text_split.
  assert (negb (bool_decide (str "argon2id" = str "argon2id")) || negb (bool_decide (str "v=19" = str "v=19")) = false) as -> by reflexivity.
  assert (split_at "," (str "m=19456,t=2,p=1") = [str "m=19456"; str "t=2"; str "p=1"]) as -> by reflexivity.
  assert (parseParameter (str "m=19456") (str "m=") = Some passwordMemoryKiB) as -> by (vm_compute; reflexivity).
  assert (parseParameter (str "t=2") (str "t=") = Some passwordIterations) as -> by (vm_compute; reflexivity).
  assert (parseParameter (str "p=1") (str "p=") = Some passwordParallelism) as -> by (vm_compute; reflexivity).
  rewrite !Z.eqb_refl. cbn [negb orb]. rewrite !b64std_roundtrip, Hs, Hk, !Z.eqb_refl. done.
Qed.
End Hashes.

(** ** Accounts *)

Section Accounts.
Context `{!UUIDLib} `{!UUIDSpec _} `{!Argon2Lib} `{!Argon2Spec _}.

Definition account_row_of (account : NewAccount) : inbox_row :=
  InboxRow (na_Address account) Active (pg_time (na_ExpiresAt account)) (pg_time (na_CreatedAt account)) (pg_time (na_CreatedAt account)).

Lemma insert_account_inbox_ok account s s' inbox :
  insert_account_inbox account s = (s', Ok inbox) ->
  exists id, length id = 16%nat /\ inbox = inbox_of id (account_row_of account) /\ inboxes (cm_db s) !! id = None /\
    inboxes (cm_db s') = <[id := account_row_of account]> (inboxes (cm_db s)) /\ cm_tables s' = cm_tables s.
Proof.
  intros [(s1 & u & E & Hx)|(e & E & [=])]%cbind_inv; apply cstatement_same in E as [HS HT]. cbv zeta in Hx.
  destruct (negb _); [done|]. destruct (find_address (cm_db s1) _); [done|].
  destruct (inboxes (cm_db s1) !! new_uuid (cm_db s1)) eqn:En; [done|]. injection Hx as <- <-. exists (new_uuid (cm_db s1)).
  rewrite <- (sm_inboxes _ _ HS), <- HT. split; [apply length_be_encode|done].
Qed.

Lemma insert_credential_ok id account s s' :
  length id = 16%nat -> insert_credential (uuid_string id) account s = (s', Ok tt) ->
  inboxes (cm_db s') = inboxes (cm_db s) /\
  tb_accounts (cm_tables s') = <[id := AccountRow (na_PasswordHash account) (pg_time (na_CreatedAt account))]> (tb_accounts (cm_tables s)).
Proof.
  intros Hl. unfold insert_credential, cast. rewrite uuid_parse_string by done.
  intros [(s1 & u & E & Hx)|(e & E & [=])]%cbind_inv; apply cstatement_same in E as [HS HT]. cbv zeta in Hx.
  destruct (negb _); [done|]. rewrite <- HT, <- (sm_inboxes _ _ HS).
  destruct (inboxes (cm_db s1) !! id), (tb_accounts (cm_tables s1) !! id); try done. by injection Hx as <-.
Qed.

(** What a created account is. *)
Definition account_created (account : NewAccount) (s s' : compat) (inbox : Inbox) (id : uuid) : Prop :=
  length id = 16%nat /\ inbox = inbox_of id (account_row_of account) /\ inboxes (cm_db s) !! id = None /\
  inboxes (cm_db s') = <[id := account_row_of account]> (inboxes (cm_db s)) /\
  tb_accounts (cm_tables s') = <[id := AccountRow (na_PasswordHash account) (pg_time (na_CreatedAt account))]> (tb_accounts (cm_tables s)).

Lemma CreateAccount_ok account s s' inbox :
  CreateAccount account s = (s', Ok inbox) -> exists id, account_created account s s' inbox id.
Proof.
  intros [((e & [=]) & _)|(s1 & s2 & a & [S1 T1] & Hb & [S2 T2] & Hx)]%ctransaction_inv. destruct Hx as [[= <-]|(? & [=])].
  apply cbind_inv in Hb as [(s3 & ib & E1 & Hb)|(e & _ & [=])]. apply insert_account_inbox_ok in E1 as (id & Hl & -> & Hn & Hi & HT).
  apply cbind_inv in Hb as [(s4 & [] & E2 & Hb)|(e & _ & [=])]. injection Hb as <- <-.
  apply insert_credential_ok in E2 as [Hi2 Ha2]; [|done]. exists id. split; [done|]. split; [done|].
  rewrite (sm_inboxes _ _ S1) in Hn, Hi. split; [done|]. split; [by rewrite (sm_inboxes _ _ S2), Hi2|]. by rewrite T2, Ha2, HT, T1.
Qed.

Lemma find_address_Some d id row :
  db_ok d -> inboxes d !! id = Some row -> find_address d (in_address row) = Some (id, row).
Proof.
  intros Hok Hr. destruct (find_address d (in_address row)) as [[j r]|] eqn:E; [|by destruct (find_address_None _ _ E _ _ Hr)].
  unfold find_address in E. apply bind_Some in E as ([i kv] & (Hi & Ha & _)%list_find_Some & [= ->]).
  apply list_elem_of_lookup_2, elem_of_map_to_list in Hi. cbn in Ha. assert (j = id) as -> by (by eapply (ok_addresses _ Hok)). congruence.
Qed.

Lemma live_account_of (s : compat) id row credential :
  db_ok (cm_db s) -> inboxes (cm_db s) !! id = Some row -> in_status row = Active -> db_now (cm_db s) < in_expires row ->
  tb_accounts (cm_tables s) !! id = Some credential ->
  live_account s (in_address row) = Some (MkAccount (inbox_of id row) (ac_hash credential)).
Proof.
  intros Hok Hr Ha He Hc. unfold live_account, live_address. rewrite (find_address_Some _ _ _ Hok Hr).
  unfold inbox_live. rewrite Hr, Ha, bool_decide_eq_true_2, (proj2 (Z.ltb_lt _ _)) by done. cbn. by rewrite Hr, Hc.
Qed.

(** The service of valid options. *)
Definition duck_wf (s : DuckService) : Prop := 0 < ds_defaultTTL s <= ds_maxTTL s.

Lemma NewDuckService_wf options random s rest : NewDuckService options random = Ok (s, rest) -> duck_wf s.
Proof.
  unfold NewDuckService. destruct (_ || _) eqn:E; [done|]. apply orb_false_iff in E as [[_ E1]%orb_false_iff E2].
  destruct (hashPassword _ _) as [[h r]|]; [|done]. intros [= <- _]. unfold duck_wf. cbn. bool_to_prop. lia.
Qed.

Lemma account_lifetime_range s expiresIn lifetime : duck_wf s -> account_lifetime s expiresIn = Ok lifetime -> 0 < lifetime <= ds_maxTTL s.
Proof.
  unfold duck_wf, account_lifetime. intros Hwf. destruct expiresIn as [n|]; [|by intros [= <-]].
  destruct (_ || _) eqn:E1; [done|]. destruct (_ || _) eqn:E2 in |- *; [done|]. intros [= <-].
  apply orb_false_iff in E1 as [E1 _], E2 as [E2 E3]. bool_to_prop. rewrite Z.quot_div_nonneg in E3 by lia.
  pose proof (Z.mul_div_le (ds_maxTTL s) 1000000000). lia.
Qed.

(** A site in which an account still stands. *)
Record account_stands (w : site) (id : uuid) (row : inbox_row) (credential : account_row) : Prop := {
  st_ok : db_ok (h_db (si_host w)); st_calm : db_oracle (h_db (si_host w)) = [];
  st_inbox : inboxes (h_db (si_host w)) !! id = Some row; st_live : db_now (h_db (si_host w)) < in_expires row;
  st_account : tb_accounts (si_tables w) !! id = Some credential
}.

Lemma find_account_calm w address :
  db_oracle (h_db (si_host w)) = [] ->
  on_compat (FindAccountByAddress address) w =
    (w, match live_account (Compat (h_db (si_host w)) (si_tables w)) address with
        | Some account => Ok account | None => Err (ESentinel ErrLoginFailed) end).
Proof.
  intros Hc. unfold on_compat, FindAccountByAddress, cbind. rewrite cquery_calm by done.
  destruct w as [[d rnd k] t]. cbn. by destruct (live_account _ _).
Qed.

(** The outcome of issuing the token of a login. *)
Definition issue_login (w : site) (inbox : Inbox) : site * res IssuedCapability :=
  match on_mailbox (λ h, Issue h (ib_ID inbox) 31 (ib_ExpiresAt inbox)) w with
  | (w, Err e) => (w, Err (EWrap "issue DuckMail compatibility token" e))
  | (w, Ok issued) => (w, Ok issued)
  end.

(** C39: password accounts.  A created account is a new live inbox with the
    requested address and a lifetime within the limit; as long as inbox and
    credential stand, logging in under any spelling of the address issues a
    capability for that inbox with all scopes until it expires for exactly the
    passwords that derive the key of the chosen one, and every other attempt,
    for this or for an address without an account, gets the same refusal. *)
Theorem account_login (s : DuckService) kdf request (w w1 : site) inbox :
  duck_wf s -> DuckCreateAccount s kdf request w = (w1, Ok inbox) ->
  exists id row credential salt lifetime,
    inbox = inbox_of id row /\ inboxes (h_db (si_host w)) !! id = None /\ inboxes (h_db (si_host w1)) !! id = Some row /\
    tb_accounts (si_tables w1) !! id = Some credential /\
    in_address row = to_lower (trim_space (ca_Address request)) /\ in_status row = Active /\
    0 < lifetime <= ds_maxTTL s /\ in_expires row = pg_time (h_clock (si_host w) + lifetime) /\
    (forall w2 address password, account_stands w2 id row credential -> to_lower (trim_space address) = in_address row ->
      DuckLogin s None address password w2 =
        if bool_decide (password_key password salt = password_key (ca_Password request) salt)
        then issue_login w2 inbox else (w2, Err (ESentinel ErrLoginFailed))) /\
    (forall w2 address password, db_oracle (h_db (si_host w2)) = [] ->
      live_account (Compat (h_db (si_host w2)) (si_tables w2)) (to_lower (trim_space address)) = None ->
      DuckLogin s None address password w2 = (w2, Err (ESentinel ErrLoginFailed))).
Proof.
  intros Hwf. unfold DuckCreateAccount. destruct (validateAddress s _) as [address|] eqn:Ev; [|done].
  destruct (_ || _); [done|]. destruct (account_lifetime s _) as [lifetime|] eqn:El; [|done]. destruct kdf; [done|].
  destruct (hashPassword _ _) as [[hash rest]|] eqn:Eh; [|done]. unfold on_compat. cbn [si_host si_tables take_random h_db h_random h_clock].
  set (account := MkNewAccount _ _ _ _). destruct (CreateAccount account _) as [c x] eqn:Ec. intros [= <- ->].
  apply CreateAccount_ok in Ec as (id & Hlen & -> & Hn & Hi & Ha). cbn [cm_db cm_tables] in *.
  unfold hashPassword in Eh. destruct (read_full _ _) as [[salt rest']|] eqn:Es; [|done]. injection Eh as <- <-.
  assert (zlen salt = passwordSaltBytes) as Hs.
  { unfold read_full in Es. destruct (zlen _ <? _) eqn:Ez; [done|]. injection Es as <- <-. bool_to_prop. unfold zlen, passwordSaltBytes in *.
    rewrite length_take. lia. }
  exists id, (account_row_of account), (AccountRow (na_PasswordHash account) (pg_time (na_CreatedAt account))), salt, lifetime.
  split; [done|]. split; [done|]. split; [cbn; rewrite Hi; apply lookup_insert_eq|]. split; [cbn; rewrite Ha; apply lookup_insert_eq|].
  split.
  { unfold validateAddress in Ev. destruct (cut _ _) as [[local domain] found]. destruct (negb found || _ || _); [done|].
    destruct (negb _); [done|]. by injection Ev as <-. }
  split; [done|]. split; [by eapply account_lifetime_range|]. split; [done|]. split.
  - intros w2 addr password [Hok Hc Hr Hl Hcr] Haddr. unfold DuckLogin. rewrite find_account_calm, Haddr by done.
    rewrite (live_account_of (Compat _ _) id _ _ Hok Hr eq_refl Hl Hcr). cbn [an_PasswordHash an_Inbox ac_hash na_PasswordHash account].
    rewrite verify_hash; [|done|by apply IDKey_length]. case_bool_decide; [|done].
    assert (NewScopeSet allScopes = Ok 31) as -> by (vm_compute; reflexivity). done.
  - intros w2 addr password Hc Hnone. unfold DuckLogin. rewrite find_account_calm, Hnone by done. done.
Qed.
End Accounts.

(** The hash satisfies the check of its column. *)
Lemma hash_accepted salt key : zlen salt = passwordSaltBytes -> zlen key = passwordKeyBytes -> hash_check (hash_text salt key) = true.
Proof.
  intros Hs Hk. unfold hash_check. rewrite hash_text_split.
  assert (forall b, zlen b = passwordSaltBytes \/ zlen b = passwordKeyBytes ->
    zlen (b64std_encode b) <= 43 /\ negb (bool_decide (b64std_encode b = [])) = true /\ forallb std_char (b64std_encode b) = true) as Hb.
  { intros b Hb. pose proof (length_b64_encode b) as Hl. unfold b64std_encode.
    assert (zlen (to_std <$> b64_encode b) = zlen (b64_encode b)) as Hz by (unfold zlen; by rewrite length_fmap). split; [|split].
    - rewrite Hz, Hl. by destruct Hb as [->| ->].
    - rewrite bool_decide_eq_false_2; [done|]. intros En. rewrite En in Hz. cbn in Hz. rewrite Hl in Hz. by destruct Hb as [Hb|Hb]; rewrite Hb in Hz.
    - by apply std_map, b64_encode_alpha. }
  destruct (Hb salt (or_introl Hs)) as (L1 & N1 & C1), (Hb key (or_intror Hk)) as (L2 & N2 & C2). rewrite N1, C1, N2, C2.
  apply andb_true_iff. split; [|vm_compute; reflexivity]. apply Z.leb_le.
  change (hash_text salt key) with (str "$argon2id$v=19$m=19456,t=2,p=1$" ++ b64std_encode salt ++ str "$" ++ b64std_encode key).
  rewrite !zlen_app. change (zlen (str "$argon2id$v=19$m=19456,t=2,p=1$")) with 31. change (zlen (str "$")) with 1. lia.
Qed.

(** ** A run *)

Module Runs.
(** A stand-in for the key derivation. *)
#[local] Instance lib : Argon2Lib := {| IDKey password salt time memory threads n := take (Z.to_nat n) (sha256 (salt ++ password) ++ replicate (Z.to_nat n) "0"%char) |}.
#[local] Instance lib_spec : Argon2Spec lib.
Proof. split. intros. cbn. unfold zlen. rewrite length_take, length_app, length_replicate. lia. Qed.

Definition options : DuckOptions := MkDuckOptions [str "Example.com"] 3600000000000 86400000000000.
Definition service : DuckService := match NewDuckService options (replicate 16 "r"%char) with Ok (s, _) => s | Err _ => MkDuckService [] 0 0 [] end.
Definition asked : CreateAccountRequest := MkCreateAccountRequest (str " Duck.User@example.com ") (str "quack-quack") (Some 7200).
Definition before : site := Site CapabilityDb.Demo.w0 no_tables.
Definition creating : site * res Inbox := DuckCreateAccount service None asked before.
Definition after : site := creating.1.
Definition inbox : Inbox := CapabilityDb.Demo.value (MkInbox [] [] Active 0 0) creating.2.

Lemma service_made : NewDuckService options (replicate 16 "r"%char) = Ok (service, []).
Proof. vm_compute. reflexivity. Qed.

Lemma account_created_run : DuckCreateAccount service None asked before = (after, Ok inbox).
Proof.
  assert (is_ok creating.2 = true) as E by (vm_compute; reflexivity). unfold after, inbox.
  change (DuckCreateAccount service None asked before) with creating. revert E. generalize creating. by intros [w [a|e]].
Qed.

(** The right and a wrong password. *)
Lemma logins : (is_ok (DuckLogin service None (str "DUCK.USER@example.com") (str "quack-quack") after).2,
                (DuckLogin service None (str "duck.user@example.com") (str "moo") after).2) = (true, Err (ESentinel ErrLoginFailed)).
Proof. vm_compute. reflexivity. Qed.
End Runs.

Lemma account_login_witness :
  exists id row credential salt lifetime,
    Runs.inbox = inbox_of id row /\ inboxes (h_db (si_host Runs.before)) !! id = None /\ inboxes (h_db (si_host Runs.after)) !! id = Some row /\
    tb_accounts (si_tables Runs.after) !! id = Some credential /\
    in_address row = to_lower (trim_space (ca_Address Runs.asked)) /\ in_status row = Active /\
    0 < lifetime <= ds_maxTTL Runs.service /\ in_expires row = pg_time (h_clock (si_host Runs.before) + lifetime) /\
    (forall w2 address password, account_stands w2 id row credential -> to_lower (trim_space address) = in_address row ->
      @DuckLogin _ Runs.lib Runs.service None address password w2 =
        if bool_decide (@password_key Runs.lib password salt = @password_key Runs.lib (ca_Password Runs.asked) salt)
        then issue_login w2 Runs.inbox else (w2, Err (ESentinel ErrLoginFailed))) /\
    (forall w2 address password, db_oracle (h_db (si_host w2)) = [] ->
      live_account (Compat (h_db (si_host w2)) (si_tables w2)) (to_lower (trim_space address)) = None ->
      @DuckLogin _ Runs.lib Runs.service None address password w2 = (w2, Err (ESentinel ErrLoginFailed))).
Proof.
  exact (account_login (Argon2Spec0 := Runs.lib_spec) Runs.service None Runs.asked Runs.before Runs.after Runs.inbox
    (NewDuckService_wf _ _ _ _ Runs.service_made) Runs.account_created_run).
Defined.
