(* ===== verification/Adapters.v ===== *)
(** * The YYDS and Cloudflare Temp Email adapters

    [internal/yyds/service.go] and [internal/cloudflaretemp/service.go]: other
    products' address and token semantics on top of the mailbox service. *)

From S2P Require Import Prelude GoStrings Errors Codec Uuid FileSystem Message Mail Database DatabaseFacts Token Scope DeliveryRepo MailboxRepo CapabilityRepo Capability CapabilityDb LmtpCommand MailboxService HttpFacts CompatRepo CompatFacts DuckMail.

#[local] Opaque sha256.

(** ** YYDS *)

Record YydsRequest := MkYydsRequest { yq_Address : bytes; yq_LocalPart : bytes; yq_Domain : bytes }.

(** [NewService] of the package: its domains. *)
Fixpoint yyds_domains (l : list bytes) : res (list bytes) :=
  match l with
  | [] => Ok []
  | domain :: l =>
    let domain := to_lower (trim_space domain) in
    if bool_decide (domain = []) then Err (ENew "YYDS domain is empty")
    else match yyds_domains l with Err e => Err e | Ok rest => Ok (domain :: rest) end
  end.

Definition NewYydsService (domains : list bytes) : res (list bytes) :=
  if bool_decide (domains = []) then Err (ENew "YYDS mailbox, credential service, and domains are required") else yyds_domains domains.

(** The local part and the domain that a request means. *)
Definition yyds_names (request : YydsRequest) : res (bytes * bytes) :=
  let localPart := to_lower (trim_space (yq_LocalPart request)) in
  let domain := to_lower (trim_space (yq_Domain request)) in
  let address := to_lower (trim_space (yq_Address request)) in
  let names :=
    if bool_decide (address = []) then Ok (localPart, domain)
    else
      let '(addressLocal, addressDomain, found) := cut address "@"%char in
      let addressLocal := if found then addressLocal else address in
      if found && (bool_decide (addressLocal = []) || bool_decide (addressDomain = []) || bool_decide ("@"%char ∈ addressDomain))
      then Err (ESentinel ErrInvalidRequest)
      else if negb (bool_decide (localPart = [])) && negb (bool_decide (localPart = addressLocal)) ||
              found && negb (bool_decide (domain = [])) && negb (bool_decide (domain = addressDomain))
      then Err (ESentinel ErrInvalidRequest)
      else Ok (addressLocal, if found then addressDomain else domain) in
  match names with
  | Err e => Err e
  | Ok (localPart, domain) =>
    if negb (bool_decide (localPart = [])) && negb (ValidInboxLocalPart localPart) then Err (ESentinel ErrInvalidRequest)
    else Ok (localPart, domain)
  end.

(** [strings.EqualFold] against ASCII text: the two non-ASCII runes that fold
    to ASCII letters are the Kelvin sign and the long s. *)
Definition fold_seg (g : seg) : bytes :=
  if seg_rune g =? 8490 then ["k"%char] else if seg_rune g =? 383 then ["s"%char] else lower_byte <$> seg_raw g.
Definition equal_fold_ascii (s t : bytes) : bool := bool_decide (concat (fold_seg <$> runes s) = lower_byte <$> t).

Section Yyds.
Context `{!UUIDLib} (service : Service).

(** [CreateAccount] *)
Definition YydsCreateAccount (request : YydsRequest) (w : host) : host * res CreatedInbox :=
  match yyds_names request with
  | Err e => (w, Err e)
  | Ok (localPart, domain) => Create service w (MkCreateRequest domain localPart 0)
  end.

(** [RefreshToken]; addresses are ASCII, as configured domains are. *)
Definition RefreshToken (plaintext address : bytes) (w : host) : host * res (IssuedCapability * Inbox) :=
  match Authenticate w plaintext [ScopeInboxRead] with
  | (w, Err e) => (w, Err e)
  | (w, Ok principal) =>
    match Get w (pl_InboxID principal) with
    | (w, Err e) => (w, Err e)
    | (w, Ok inbox) =>
      if negb (equal_fold_ascii (trim_space address) (ib_Address inbox)) then (w, Err (ESentinel ErrAddressMismatch))
      else match Rotate w plaintext with
      | (w, Err e) => (w, Err e)
      | (w, Ok rotated) => (w, Ok (rotated, inbox))
      end
    end
  end.
End Yyds.

(** ** Cloudflare Temp Email *)

Record CreatedAddress := MkCreatedAddress { cd_Inbox : Inbox; cd_Capability : IssuedCapability; cd_AddressID : Z }.

(** [NewService] of the package: its domains. *)
Fixpoint cf_domains (seen l : list bytes) : res (list bytes) :=
  match l with
  | [] => Ok seen
  | domain :: l =>
    let domain := to_lower (trim_space domain) in
    if bool_decide (domain = []) then Err (ENew "Cloudflare Temp Email domain is empty")
    else if bool_decide (domain ∈ seen) then Err (ENew "duplicate Cloudflare Temp Email domain")
    else cf_domains (seen ++ [domain]) l
  end.

Definition NewCfService (domains : list bytes) : res (list bytes) :=
  if bool_decide (domains = []) then Err (ENew "Cloudflare Temp Email mailbox service, ID repository, and domains are required")
  else cf_domains [] domains.

Definition name_rune (r : Z) : bool := (97 <=? r) && (r <=? 122) || (48 <=? r) && (r <=? 57).

Definition normalizeAddressName (name : bytes) : bytes :=
  concat (seg_raw <$> filter (λ g, name_rune (seg_rune g) = true) (runes (to_lower (trim_space name)))).

Section Cloudflare.
Context `{!UUIDLib} (service : Service).

(** [CreateAddress], with what others do while the identifier is assigned. *)
Definition CreateAddress (between : compat -> compat) (name domain : bytes) (w : site) : site * res CreatedAddress :=
  let localPart := normalizeAddressName name in
  if negb (bool_decide (trim_space name = [])) && bool_decide (localPart = []) then (w, Err (ESentinel ErrInvalidAddressName))
  else match on_mailbox (λ h, Create service h (MkCreateRequest domain localPart 0)) w with
  | (w, Err e) => (w, Err e)
  | (w, Ok created) =>
    match on_compat (EnsureInboxID between (ib_ID (ci_Inbox created))) w with
    | (w, Err e) =>
      let mappingErr := EWrap "assign Cloudflare Temp Email Inbox ID" e in
      match on_mailbox (λ h, Delete h (ib_ID (ci_Inbox created))) w with
      | (w, Some cleanupErr) => (w, Err (EWrap2 "join" mappingErr (EWrap "compensate Inbox creation" cleanupErr)))
      | (w, None) => (w, Err mappingErr)
      end
    | (w, Ok addressID) => (w, Ok (MkCreatedAddress (ci_Inbox created) (ci_Capability created) addressID))
    end
  end.
End Cloudflare.

(** ** Names *)

Lemma small_rune s g : g ∈ runes s -> seg_rune g < 128 -> exists c, seg_raw g = [c] /\ code c = seg_rune g.
Proof.
  runes_ind s IH; cbn -[runes]; [intros Hg; by apply not_elem_of_nil in Hg|..];
    (intros [->|Hg]%elem_of_cons Hs; [cbn in Hs |- *; try (eexists; split; reflexivity)|by (eapply IH; [|exact Hg|exact Hs]; cbn; lia)]);
    exfalso; unfold rune_error in *;
    repeat match goal with
    | Hx : utf8_two _ _ = true |- _ => apply rune2_big in Hx
    | Hx : utf8_three _ _ _ = true |- _ => apply rune3_big in Hx
    | Hx : utf8_four _ _ _ _ = true |- _ => apply rune4_big in Hx
    end; lia.
Qed.

(** A normalized name is made of lower case letters and digits, so one of at
    most 64 is a local part that the mail server accepts. *)
Lemma normalized_plain name : forallb plain_char (normalizeAddressName name) = true.
Proof.
  unfold normalizeAddressName. set (t := to_lower _). apply forallb_forall. intros c (l & Hl & Hc)%in_concat.
  apply list_elem_of_In, list_elem_of_fmap in Hl as (g & -> & [Hn Hg]%list_elem_of_filter). unfold name_rune in Hn.
  assert (seg_rune g < 128) as Hs by (rewrite orb_true_iff, !andb_true_iff, !Z.leb_le in Hn; lia).
  destruct (small_rune _ _ Hg Hs) as (d & Hd & Hcd). rewrite Hd in Hc. destruct Hc as [<-|[]]. unfold plain_char, in_range. by rewrite Hcd.
Qed.

Theorem normalized_valid name : normalizeAddressName name <> [] -> zlen (normalizeAddressName name) <= 64 ->
  ValidInboxLocalPart (normalizeAddressName name) = true.
Proof.
  intros Hne Hl. apply plain_valid; [apply normalized_plain|]. split; [|done]. destruct (normalizeAddressName name) as [|c l]; [done|].
  rewrite zlen_cons. pose proof (zlen_nonneg l). lia.
Qed.

(** ** Token rotation *)

Section Refresh.
Context `{!UUIDLib} `{!UUIDSpec _}.

Lemma Get_view w w' inboxID x :
  cap_inv w -> Get w inboxID = (w', x) -> cap_inv w' /\ cap_view w' = cap_view w /\
  forall inbox, x = Ok inbox -> exists id row, uuid_parse inboxID = Some id /\ inboxes (h_db w) !! id = Some row /\ inbox = inbox_of id row.
Proof.
  intros Hi. unfold Get, lift, GetInbox, cast. destruct (uuid_parse inboxID) as [id|]; [|by destruct w; intros [= <- <-]].
  destruct (dbind _ _ (h_db w)) as [d y] eqn:E. intros [= <- <-].
  apply dbind_inv in E as [(d1 & found & E & Hx)|(e & E & ->)]; apply query_view in E as (Hi1 & HS & HV & Hf); try done.
  subst found. rewrite (sm_inboxes _ _ HS) in Hx. destruct (if inbox_live d1 id then _ else _) as [row|] eqn:Er; injection Hx as <- <-; [|done].
  split; [done|]. split; [done|]. intros inbox [= <-]. exists id, row. split; [done|]. split; [|done]. by destruct (inbox_live d1 id).
Qed.

Lemma denotes_same v plaintext r r' : denotes v plaintext r -> denotes v plaintext r' -> r' = r.
Proof. intros (t & Ht & _ & Hv & _) (t' & Ht' & _ & Hv' & _). assert (t' = t) as -> by congruence. congruence. Qed.

(** A token is refreshed only for the address of its own live inbox, and is
    replaced by the new one; for another address every
    credential stays as it was. *)
Theorem refresh_own_token plaintext address (w w' : host) x :
  cap_inv w -> RefreshToken plaintext address w = (w', x) ->
  match x with
  | Ok (issued, inbox) => exists r id row t r' now,
      denotes (cap_view w) plaintext r /\ record_live (host_now w) r = true /\ Has (cr_Scopes r) [ScopeInboxRead] = true /\
      uuid_parse (cr_InboxID r) = Some id /\ inboxes (h_db w) !! id = Some row /\ inbox = inbox_of id row /\
      equal_fold_ascii (trim_space address) (in_address row) = true /\ Encode t = Ok (ic_Plaintext issued) /\
      rotated_to (cap_view w) (cap_view w') (cr_ID r) (MkReplacementCapability (t_kid t) (sha256 (digest_input t)) now) r'
  | Err _ => forall r id row, denotes (cap_view w) plaintext r -> uuid_parse (cr_InboxID r) = Some id -> inboxes (h_db w) !! id = Some row ->
      equal_fold_ascii (trim_space address) (in_address row) = false -> cap_view w' = cap_view w
  end.
Proof.
  intros Hi. unfold RefreshToken. destruct (Authenticate w plaintext _) as [w1 y] eqn:E1. pose proof (Authenticate_same _ _ _ _ _ E1) as HS.
  unfold Authenticate in E1. destruct (resolve w plaintext) as [w0 z] eqn:E0.
  apply resolve_sound in E0 as (Hi0 & V0 & _ & Hz); [|done]. destruct z as [r|e].
  2:{ injection E1 as <- <-. by intros [= <- <-]. }
  destruct (Has (cr_Scopes r) _) eqn:Eh; cbn [negb] in E1; injection E1 as <- <-; [|by intros [= <- <-]]. destruct Hz as [Hd Hl].
  destruct (Get w0 _) as [w2 y] eqn:E2. apply Get_view in E2 as (Hi2 & V2 & Hy); [|done]. rewrite V0 in V2.
  destruct y as [inbox|e]; [|by intros [= <- <-]]. destruct (Hy _ eq_refl) as (id & row & Hid & Hrow & ->). clear Hy. cbn [inbox_of ib_Address].
  rewrite (sm_inboxes _ _ HS) in Hrow.
  destruct (equal_fold_ascii _ _) eqn:Ef; cbn [negb]; [|by intros [= <- <-]].
  unfold Rotate. destruct (resolve w2 plaintext) as [w3 z] eqn:E3. apply resolve_sound in E3 as (Hi3 & V3 & _ & Hz); [|done]. rewrite V2 in V3.
  destruct z as [r'|e]; [|by intros [= <- <-]]. destruct Hz as [Hd' _]. rewrite V2 in Hd'. rewrite (denotes_same _ _ _ _ Hd Hd').
  destruct (rotate_loop _ w3 _) as [w4 z] eqn:E4. destruct z as [issued|e]; intros [= <- <-].
  - apply rotate_loop_ok in E4 as (_ & t & rr & now & _ & _ & He & _ & Hr); [|done|rewrite V3; by eapply denotes_known].
    rewrite V3 in Hr. by exists r, id, row, t, rr, now.
  - intros r0 id0 row0 Hd0 Hid0 Hrow0 Hf. rewrite (denotes_same _ _ _ _ Hd Hd0) in Hid0. cbn in Hid. congruence.
Qed.
End Refresh.
