(* ===== verification/CompatView.v ===== *)
(** * What the compatibility APIs write

    The responses of [internal/httpapi/duckmail.go], [internal/httpapi/yyds.go]
    and [internal/httpapi/cloudflare_temp.go]: the values their handlers
    present, the JSON the values become, and the mapping of errors. *)

From S2P Require Import Prelude GoStrings Errors Codec Uuid FileSystem Json Message Mail Database MailboxRepo Token Capability MailboxService CompatRepo DuckMail Adapters.

(** ** DuckMail *)

Definition presentDuckAccount (inbox : Inbox) : json :=
  JObject [field "id" (JString (ib_ID inbox)); field "address" (JString (ib_Address inbox)); field "authType" (JString (str "email"));
    field "createdAt" (JTime (ib_CreatedAt inbox)); field "updatedAt" (JTime (ib_CreatedAt inbox))].

Record duckAttachment := DuckAttachment {
  dk_ID : bytes; dk_Filename : bytes; dk_ContentType : bytes; dk_Disposition : bytes; dk_TransferEncoding : bytes; dk_Related : bool;
  dk_Size : Z; dk_DownloadURL : bytes
}.

Record duckMailMessage := DuckMailMessage {
  dm_ID : bytes; dm_MessageID : bytes; dm_AccountID : bytes; dm_From : Address; dm_To : list Address; dm_Subject : bytes; dm_Text : bytes;
  dm_HTML : list bytes; dm_Seen : bool; dm_Deleted : bool; dm_HasAttachments : bool; dm_Size : Z; dm_DownloadURL : bytes;
  dm_Attachments : list duckAttachment; dm_CreatedAt : Z; dm_UpdatedAt : Z
}.

Definition duck_address (a : Address) : json := JObject [field "name" (JString (ad_Name a)); field "address" (JString (ad_Address a))].

Definition duck_attachment (a : duckAttachment) : json :=
  JObject [field "id" (JString (dk_ID a)); field "filename" (JString (dk_Filename a)); field "contentType" (JString (dk_ContentType a));
    field "disposition" (JString (dk_Disposition a)); field "transferEncoding" (JString (dk_TransferEncoding a)); field "related" (JBool (dk_Related a));
    field "size" (JInt (dk_Size a)); field "downloadUrl" (JString (dk_DownloadURL a))].

(** The struct with its tags. *)
Definition duck_message (m : duckMailMessage) : json :=
  JObject ([field "id" (JString (dm_ID m)); field "msgid" (JString (dm_MessageID m)); field "accountId" (JString (dm_AccountID m));
    field "from" (duck_address (dm_From m)); field "to" (JArray (duck_address <$> dm_To m)); field "subject" (JString (dm_Subject m))] ++
    optional (negb (bool_decide (dm_Text m = []))) "text" (JString (dm_Text m)) ++
    optional (negb (bool_decide (dm_HTML m = []))) "html" (JArray (JString <$> dm_HTML m)) ++
    [field "seen" (JBool (dm_Seen m)); field "isDeleted" (JBool (dm_Deleted m)); field "hasAttachments" (JBool (dm_HasAttachments m));
     field "size" (JInt (dm_Size m)); field "downloadUrl" (JString (dm_DownloadURL m))] ++
    optional (0 <? zlen (dm_Attachments m)) "attachments" (JArray (duck_attachment <$> dm_Attachments m)) ++
    [field "createdAt" (JTime (dm_CreatedAt m)); field "updatedAt" (JTime (dm_UpdatedAt m))]).

Definition presentDuckSummary (summary : MessageSummary) (inbox : Inbox) : duckMailMessage :=
  DuckMailMessage (su_ID summary) (su_ID summary) (ib_ID inbox) (MkAddress [] (su_EnvelopeSender summary)) [MkAddress [] (ib_Address inbox)]
    (su_Subject summary) [] [] (su_Seen summary) false (su_HasAttachments summary) (su_SizeBytes summary)
    (str "/compat/duckmail/sources/" ++ su_ID summary) [] (su_ReceivedAt summary) (su_ReceivedAt summary).

Definition presentDuckFrom (addresses : list Address) (fallback : bytes) : Address :=
  match addresses with [] => MkAddress [] fallback | a :: _ => MkAddress (ad_Name a) (ad_Address a) end.

Definition presentDuckAddresses (addresses : list Address) (fallback : bytes) : list Address :=
  match addresses with [] => [MkAddress [] fallback] | _ => (λ a, MkAddress (ad_Name a) (ad_Address a)) <$> addresses end.

Definition presentDuckDetail (detail : MessageDetail) (inbox : Inbox) : duckMailMessage :=
  let p := presentDuckSummary (md_Summary detail) inbox in
  DuckMailMessage (dm_ID p) (md_HeaderMessageID detail) (dm_AccountID p)
    (presentDuckFrom (md_From detail) (su_EnvelopeSender (md_Summary detail))) (presentDuckAddresses (md_To detail) (ib_Address inbox))
    (dm_Subject p) (md_Text detail) (if bool_decide (md_HTMLSource detail = []) then dm_HTML p else [md_HTMLSource detail])
    (dm_Seen p) (dm_Deleted p) (dm_HasAttachments p) (dm_Size p) (dm_DownloadURL p)
    ((λ a, DuckAttachment (at_PartPath a) (at_FileName a) (at_ContentType a) (at_Disposition a) [] false (at_SizeBytes a) []) <$> md_Attachments detail)
    (dm_CreatedAt p) (dm_UpdatedAt p).

(** [writeDuckHydra], and the number of its last page. *)
Definition duck_last (total : Z) : Z :=
  let last := Z.quot (total + 29) 30 in
  if last <? 1 then 1 else last.

Definition duck_hydra (path : bytes) (page : Z) (members : list json) (total : Z) : json :=
  let last := duck_last total in
  let view := jmap [field "@id" (JString (path ++ str "?page=" ++ format_int page)); field "@type" (JString (str "PartialCollectionView"));
    field "hydra:first" (JString (path ++ str "?page=1")); field "hydra:last" (JString (path ++ str "?page=" ++ format_int last))] in
  jmap [field "hydra:member" (JArray members); field "hydra:totalItems" (JInt total); field "hydra:view" view].

(** [uuid.NewSHA1(uuid.NameSpaceDNS, domain).String()], a library function. *)
Class DomainIDs := { domain_id : bytes -> bytes }.

Definition duck_domain `{!DomainIDs} (domain : bytes) : json :=
  jmap [field "id" (JString (domain_id domain)); field "domain" (JString domain); field "ownerId" JNull; field "isVerified" (JBool true);
    field "verificationToken" (JString []); field "createdAt" (JTime 0); field "updatedAt" (JTime 0)].

(** ** YYDS *)

Abbreviation fields_of := (list (bytes * json)).

(** [writeYYDS] *)
Definition yyds_json (data : json) : json :=
  jmap [field "success" (JBool true); field "data" data; field "error" (JString []); field "errorCode" (JString [])].

Definition yyds_domain `{!DomainIDs} (domain : bytes) : json :=
  jmap [field "id" (JString (domain_id domain)); field "domain" (JString domain); field "isPublic" (JBool true); field "isVerified" (JBool true);
    field "isMxValid" (JBool true); field "sourceType" (JString (str "mailwisp"))].

Definition presentYYDSAccount (inbox : Inbox) (token : bytes) : json :=
  let '(_, domain, _) := cut (ib_Address inbox) "@"%char in
  let result := [field "id" (JString (ib_ID inbox)); field "address" (JString (ib_Address inbox)); field "domain" (JString domain);
    field "createdAt" (JTime (ib_CreatedAt inbox)); field "expiresAt" (JTime (ib_ExpiresAt inbox));
    field "isActive" (JBool (bool_decide (ib_Status inbox = Active))); field "inboxType" (JString (str "temporary"));
    field "mode" (JString (str "fixed")); field "source" (JString (str "mailwisp"))] in
  jmap (if bool_decide (token = []) then result else jset "token" (JString token) result).

Definition yyds_address (a : Address) : json := jmap [field "name" (JString (ad_Name a)); field "address" (JString (ad_Address a))].

Definition presentYYDSSummary (summary : MessageSummary) (inbox : Inbox) : fields_of :=
  [field "id" (JString (su_ID summary)); field "inboxId" (JString (ib_ID inbox)); field "inbox_id" (JString (ib_ID inbox));
   field "from" (yyds_address (MkAddress [] (su_EnvelopeSender summary)));
   field "to" (JArray [yyds_address (MkAddress [] (ib_Address inbox))]);
   field "subject" (JString (su_Subject summary)); field "seen" (JBool (su_Seen summary)); field "size" (JInt (su_SizeBytes summary));
   field "hasAttachments" (JBool (su_HasAttachments summary)); field "createdAt" (JTime (su_ReceivedAt summary))].

Definition presentYYDSAddress (addresses : list Address) (fallback : bytes) : json :=
  match addresses with [] => yyds_address (MkAddress [] fallback) | a :: _ => yyds_address a end.

Definition presentYYDSAddresses (addresses : list Address) (fallback : bytes) : json :=
  match addresses with [] => JArray [yyds_address (MkAddress [] fallback)] | _ => JArray (yyds_address <$> addresses) end.

Definition yydsAddressStrings (addresses : list Address) : json := JArray ((λ a, JString (ad_Address a)) <$> addresses).

Definition yyds_attachment (messageID : bytes) (a : Attachment) : json :=
  jmap [field "id" (JString (at_PartPath a)); field "filename" (JString (at_FileName a)); field "contentType" (JString (at_ContentType a));
    field "disposition" (JString (at_Disposition a)); field "contentId" (JString (at_ContentID a)); field "size" (JInt (at_SizeBytes a));
    field "downloadUrl" (JString (str "/compat/yyds/v1/messages/" ++ messageID ++ str "/attachments/" ++ at_PartPath a))].

Definition presentYYDSDetail (detail : MessageDetail) (inbox : Inbox) : fields_of :=
  let summary := md_Summary detail in
  let result := presentYYDSSummary summary inbox in
  let result := jset "messageId" (JString (md_HeaderMessageID detail)) result in
  let result := jset "intro" (JString (su_Preview summary)) result in
  let result := jset "text" (JString (md_Text detail)) result in
  let result := jset "html" (JArray (if bool_decide (md_HTMLSource detail = []) then [] else [JString (md_HTMLSource detail)])) result in
  let result := jset "from" (presentYYDSAddress (md_From detail) (su_EnvelopeSender summary)) result in
  let result := jset "to" (presentYYDSAddresses (md_To detail) (ib_Address inbox)) result in
  let result := jset "cc" (yydsAddressStrings (md_Cc detail)) result in
  let result := jset "bcc" (JArray []) result in
  jset "attachments" (JArray (yyds_attachment (su_ID summary) <$> md_Attachments detail)) result.

(** ** Cloudflare Temp Email *)

Definition cloudflareTempMaxPageItems : Z := 20.
Definition cloudflareTempMaxPayloadBytes : Z := Z.shiftl 32 20.

Definition cloudflareTempTime (t : Z) : bytes := date_time t.

Record cloudflareTempRawMail := CfRawMail {
  crm_ID : Z; crm_MessageID : bytes; crm_Source : bytes; crm_Address : bytes; crm_Raw : bytes; crm_Metadata : bytes; crm_CreatedAt : bytes
}.

Record cloudflareTempAttachment := CfAttachment { cat_Filename : bytes; cat_MIMEType : bytes; cat_Disposition : bytes; cat_Size : Z }.

Record cloudflareTempParsedMail := CfParsedMail {
  cpm_ID : Z; cpm_MessageID : bytes; cpm_Source : bytes; cpm_Address : bytes; cpm_Metadata : bytes; cpm_CreatedAt : bytes;
  cpm_Sender : bytes; cpm_Subject : bytes; cpm_Text : bytes; cpm_HTML : bytes; cpm_Attachments : list cloudflareTempAttachment
}.

Definition presentCloudflareTempRawMail (compatibilityID : Z) (detail : MessageDetail) (address raw : bytes) : cloudflareTempRawMail :=
  CfRawMail compatibilityID (md_HeaderMessageID detail) (su_EnvelopeSender (md_Summary detail)) address raw (str "{}")
    (cloudflareTempTime (su_ReceivedAt (md_Summary detail))).

Definition cloudflareTempSender (detail : MessageDetail) : bytes :=
  match md_From detail with
  | [] => su_EnvelopeSender (md_Summary detail)
  | a :: _ => if bool_decide (ad_Name a = []) then ad_Address a else ad_Name a ++ str " <" ++ ad_Address a ++ str ">"
  end.

Definition presentCloudflareTempParsedMail (compatibilityID : Z) (detail : MessageDetail) (address : bytes) : cloudflareTempParsedMail :=
  CfParsedMail compatibilityID (md_HeaderMessageID detail) (su_EnvelopeSender (md_Summary detail)) address (str "{}")
    (cloudflareTempTime (su_ReceivedAt (md_Summary detail))) (cloudflareTempSender detail) (su_Subject (md_Summary detail))
    (md_Text detail) (md_HTMLSource detail)
    ((λ a, CfAttachment (at_FileName a) (at_ContentType a) (at_Disposition a) (at_SizeBytes a)) <$> md_Attachments detail).

Definition cf_raw_json (m : cloudflareTempRawMail) : json :=
  JObject [field "id" (JInt (crm_ID m)); field "message_id" (JString (crm_MessageID m)); field "source" (JString (crm_Source m));
    field "address" (JString (crm_Address m)); field "raw" (JString (crm_Raw m)); field "metadata" (JString (crm_Metadata m));
    field "created_at" (JString (crm_CreatedAt m))].

Definition cf_attachment_json (a : cloudflareTempAttachment) : json :=
  JObject [field "filename" (JString (cat_Filename a)); field "mimeType" (JString (cat_MIMEType a)); field "disposition" (JString (cat_Disposition a));
    field "size" (JInt (cat_Size a))].

Definition cf_parsed_json (m : cloudflareTempParsedMail) : json :=
  JObject [field "id" (JInt (cpm_ID m)); field "message_id" (JString (cpm_MessageID m)); field "source" (JString (cpm_Source m));
    field "address" (JString (cpm_Address m)); field "metadata" (JString (cpm_Metadata m)); field "created_at" (JString (cpm_CreatedAt m));
    field "sender" (JString (cpm_Sender m)); field "subject" (JString (cpm_Subject m)); field "text" (JString (cpm_Text m));
    field "html" (JString (cpm_HTML m)); field "attachments" (JArray (cf_attachment_json <$> cpm_Attachments m))].

Definition cf_open_settings (domains : list bytes) : json :=
  let flag name b := field name (JBool b) in
  let text name s := field name (JString (str s)) in
  let names := JArray (JString <$> domains) in
  let proxy port := jmap [text "host" ""; field "port" (JInt port); flag "starttls" false] in
  jmap [text "title" "MailWisp"; text "announcement" ""; flag "alwaysShowAnnouncement" false; text "prefix" ""; text "addressRegex" "";
    field "minAddressLen" (JInt 1); field "maxAddressLen" (JInt 64); field "defaultDomains" names; field "domains" names;
    field "randomSubdomainDomains" (JArray []); field "domainLabels" (JArray []); flag "needAuth" false; text "adminContact" "";
    flag "enableUserCreateEmail" true; flag "disableAnonymousUserCreateEmail" false; flag "disableCustomAddressName" false;
    flag "enableUserDeleteEmail" true; flag "enableAutoReply" false; flag "enableIndexAbout" false; text "copyright" "MailWisp";
    text "cfTurnstileSiteKey" ""; flag "enableWebhook" false; flag "isS3Enabled" false; flag "enableSendMail" false;
    text "version" "v1.10.0-mailwisp.1"; flag "showGithub" false; flag "showGithubForUser" false; flag "disableAdminPasswordCheck" false;
    flag "enableAddressPassword" false; flag "enableAgentEmailInfo" false;
    field "smtpImapProxyConfig" (jmap [field "smtp" (proxy 8025); field "imap" (proxy 11143)]);
    text "statusUrl" ""; flag "enableGlobalTurnstileCheck" false].

Definition cf_user_open_settings : json :=
  jmap [field "enable" (JBool false); field "enableMailVerify" (JBool false); field "oauth2ClientIDs" (JArray [])].

(** [writeCloudflareTempBoundedJSON] with its limited writer: the text of
    the value when it fits. *)
Record limitedWriter := LimitedWriter { lw_destination : bytes; lw_remaining : Z }.

Definition lw_Write (data : bytes) (w : limitedWriter) : limitedWriter * res Z :=
  if lw_remaining w <? zlen data then (w, Err (ESentinel ErrCloudflareTempPayloadTooLarge))
  else (LimitedWriter (lw_destination w ++ data) (lw_remaining w - zlen data), Ok (zlen data)).

(** No time is written by this API, so their texts do not matter. *)
Definition bounded_text (value : json) : option bytes :=
  match lw_Write (encoder_text (λ _, []) value) (LimitedWriter [] cloudflareTempMaxPayloadBytes) with
  | (_, Err _) => None
  | (w, Ok _) => Some (lw_destination w)
  end.

Lemma bounded_text_spec value :
  match bounded_text value with
  | Some text => text = encoder_text (λ _, []) value /\ zlen text <= cloudflareTempMaxPayloadBytes
  | None => cloudflareTempMaxPayloadBytes < zlen (encoder_text (λ _, []) value)
  end.
Proof. unfold bounded_text, lw_Write. cbn [lw_remaining]. destruct (_ <? _) eqn:E; bool_to_prop; cbn; [lia|]. split; [done|lia]. Qed.

(** ** Responses *)

(** What a handler writes, by the values it presents; [S] is the type of an
    open attachment. *)
Inductive view (S : Type) : Type :=
| VNone
| VNull
| VText (text : string)
| VDuckError (error_type : string) (message : string)
| VDuckDomains (page : Z) (domains : list bytes)
| VDuckAccount (inbox : Inbox)
| VDuckToken (issued : IssuedCapability)
| VDuckMessages (page : Z) (inbox : Inbox) (items : list MessageSummary) (total : Z)
| VDuckMessage (detail : MessageDetail) (inbox : Inbox)
| VDuckSeen
| VDuckSource (messageID data : bytes)
| VYydsError (error_code text : string)
| VYydsDomains (domains : list bytes)
| VYydsAccount (inbox : Inbox) (token : bytes)
| VYydsToken (inbox : Inbox) (rotated : IssuedCapability)
| VYydsMessages (inbox : Inbox) (page : MessagePage)
| VYydsMessage (detail : MessageDetail) (inbox : Inbox)
| VYydsSeen (messageID : bytes)
| VYydsSource (messageID data : bytes)
| VYydsAttachment (source : AttachmentSource S) (contentType : bytes)
| VCfOpenSettings (domains : list bytes)
| VCfUserOpenSettings
| VCfAddress (created : CreatedAddress)
| VCfSettings (inbox : Inbox)
| VCfRawMails (inbox : Inbox) (mails : list (Z * MessageDetail * bytes)) (count : Z)
| VCfRawMail (inbox : Inbox) (mail : Z * MessageDetail * bytes)
| VCfParsedMails (inbox : Inbox) (mails : list (Z * MessageDetail)) (count : Z)
| VCfParsedMail (inbox : Inbox) (mail : Z * MessageDetail)
| VCfSuccess.
Arguments VNone {S}.
Arguments VNull {S}.
Arguments VText {S}.
Arguments VDuckError {S}.
Arguments VDuckDomains {S}.
Arguments VDuckAccount {S}.
Arguments VDuckToken {S}.
Arguments VDuckMessages {S}.
Arguments VDuckMessage {S}.
Arguments VDuckSeen {S}.
Arguments VDuckSource {S}.
Arguments VYydsError {S}.
Arguments VYydsDomains {S}.
Arguments VYydsAccount {S}.
Arguments VYydsToken {S}.
Arguments VYydsMessages {S}.
Arguments VYydsMessage {S}.
Arguments VYydsSeen {S}.
Arguments VYydsSource {S}.
Arguments VYydsAttachment {S}.
Arguments VCfOpenSettings {S}.
Arguments VCfUserOpenSettings {S}.
Arguments VCfAddress {S}.
Arguments VCfSettings {S}.
Arguments VCfRawMails {S}.
Arguments VCfRawMail {S}.
Arguments VCfParsedMails {S}.
Arguments VCfParsedMail {S}.
Arguments VCfSuccess {S}.

Definition cf_raw_of (inbox : Inbox) (mail : Z * MessageDetail * bytes) : cloudflareTempRawMail :=
  presentCloudflareTempRawMail mail.1.1 mail.1.2 (ib_Address inbox) mail.2.
Definition cf_parsed_of (inbox : Inbox) (mail : Z * MessageDetail) : cloudflareTempParsedMail :=
  presentCloudflareTempParsedMail mail.1 mail.2 (ib_Address inbox).
Definition cf_results (results : list json) (count : Z) : json := jmap [field "results" (JArray results); field "count" (JInt count)].

(** The JSON of a view; plain texts, empty bodies and streams have none. *)
Definition view_json `{!DomainIDs} {S} (v : view S) : option json :=
  match v with
  | VNone | VText _ | VYydsAttachment _ _ => None
  | VNull => Some JNull
  | VDuckError error_type message => Some (jmap [field "error" (JString (str error_type)); field "message" (JString (str message))])
  | VDuckDomains page domains => Some (duck_hydra (str "/compat/duckmail/domains") page (duck_domain <$> domains) (zlen domains))
  | VDuckAccount inbox => Some (presentDuckAccount inbox)
  | VDuckToken issued => Some (jmap [field "id" (JString (ic_InboxID issued)); field "token" (JString (ic_Plaintext issued))])
  | VDuckMessages page inbox items total =>
    Some (duck_hydra (str "/compat/duckmail/messages") page ((λ x, duck_message (presentDuckSummary x inbox)) <$> items) total)
  | VDuckMessage detail inbox => Some (duck_message (presentDuckDetail detail inbox))
  | VDuckSeen => Some (jmap [field "seen" (JBool true)])
  | VDuckSource messageID data =>
    Some (jmap [field "id" (JString messageID); field "downloadUrl" (JString (str "/compat/duckmail/sources/" ++ messageID)); field "data" (JString data)])
  | VYydsError error_code text =>
    Some (jmap [field "success" (JBool false); field "error" (JString (str text)); field "errorCode" (JString (str error_code))])
  | VYydsDomains domains => Some (yyds_json (JArray (yyds_domain <$> domains)))
  | VYydsAccount inbox token => Some (yyds_json (presentYYDSAccount inbox token))
  | VYydsToken inbox rotated =>
    Some (yyds_json (jmap [field "id" (JString (ib_ID inbox)); field "address" (JString (ib_Address inbox)); field "token" (JString (ic_Plaintext rotated))]))
  | VYydsMessages inbox page =>
    Some (yyds_json (jmap [field "messages" (JArray ((λ x, jmap (presentYYDSSummary x inbox)) <$> mp_Items page)); field "total" (JInt (mp_Total page));
      field "unreadCount" (JInt (mp_Unread page))]))
  | VYydsMessage detail inbox => Some (yyds_json (jmap (presentYYDSDetail detail inbox)))
  | VYydsSeen messageID => Some (yyds_json (jmap [field "id" (JString messageID); field "seen" (JBool true)]))
  | VYydsSource messageID data => Some (yyds_json (jmap [field "id" (JString messageID); field "data" (JString data)]))
  | VCfOpenSettings domains => Some (cf_open_settings domains)
  | VCfUserOpenSettings => Some cf_user_open_settings
  | VCfAddress created =>
    Some (jmap [field "jwt" (JString (ic_Plaintext (cd_Capability created))); field "address" (JString (ib_Address (cd_Inbox created)));
      field "address_id" (JInt (cd_AddressID created))])
  | VCfSettings inbox => Some (jmap [field "address" (JString (ib_Address inbox)); field "send_balance" (JInt 0)])
  | VCfRawMails inbox mails count => Some (cf_results ((λ m, cf_raw_json (cf_raw_of inbox m)) <$> mails) count)
  | VCfRawMail inbox mail => Some (cf_raw_json (cf_raw_of inbox mail))
  | VCfParsedMails inbox mails count => Some (cf_results ((λ m, cf_parsed_json (cf_parsed_of inbox m)) <$> mails) count)
  | VCfParsedMail inbox mail => Some (cf_parsed_json (cf_parsed_of inbox mail))
  | VCfSuccess => Some (jmap [field "success" (JBool true)])
  end.
