(* ===== verification/CompatApi.v ===== *)
(** * The handlers of the compatibility APIs

    [internal/httpapi/duckmail.go], [internal/httpapi/yyds.go] and
    [internal/httpapi/cloudflare_temp.go]: one definition per handler, on a
    process with its database, the tables of the adapters, its content store
    and the creation limiter that the canonical API shares.  A body is given
    by what the JSON decoder returns for the struct a handler decodes. *)

From S2P Require Import Prelude GoStrings GoTime Errors Codec NetIP Uuid FileSystem Json Message ContentStore Mail Database Token Scope DeliveryRepo MailboxRepo CapabilityRepo Capability CapabilityDb MailboxService CreateQuota Http HttpApi CompatRepo DuckMail Adapters CompatView.

#[local] Opaque sha256.

(** ** The server *)

(** The services for other products' clients, when they are enabled. *)
Record adapters := MkAdapters { ad_duck : option DuckService; ad_yyds : option (list bytes); ad_cloudflare : option (list bytes); ad_legacy : bool }.

(** [xs_service] is the mailbox service that every adapter was made with. *)
Record CServer := MkCServer { xs_base : Server; xs_service : Service; xs_adapters : adapters }.

Record crequest := CRequest {
  xq_base : request;
  xq_path : bytes;
  xq_page : bytes; xq_offset : bytes;                            (* query parameters *)
  xq_account : decoded (bytes * bytes * option Z);               (* [address], [password], [expiresIn] *)
  xq_login : decoded (bytes * bytes);                            (* [address], [password] *)
  xq_create : decoded (YydsRequest * (bytes * bytes * bytes));   (* with [wildcardRuleId], [subdomain], [subdomainLabel] *)
  xq_refresh : decoded bytes;                                    (* [address] *)
  xq_patch : decoded (option bool * option bool);                (* [seen], [starred] *)
  xq_address : decoded (bytes * bytes * bool);                   (* [name], [domain], [enableRandomSubdomain] *)
  xq_kdf : option goerr                                          (* a context that ends the wait for a key derivation *)
}.

(** What the handlers change; [cw_heavy] counts the mail requests of others. *)
Record cweb := CWeb { cw_web : web; cw_tables : tables; cw_heavy : Z }.

Record cresponse (S : Type) := MkCResponse { xr_status : Z; xr_view : view S; xr_quota : option quota_headers; xr_retry : bool }.
Arguments MkCResponse {S}.
Arguments xr_status {S}.
Arguments xr_view {S}.
Arguments xr_quota {S}.
Arguments xr_retry {S}.

Definition reply_with {S} (status : Z) (v : view S) : cresponse S := MkCResponse status v None false.

Definition duck_error {S} (status : Z) (error_type message : string) : cresponse S := reply_with status (VDuckError error_type message).
Definition yyds_error {S} (status : Z) (error_code text : string) : cresponse S := reply_with status (VYydsError error_code text).
Definition cf_text {S} (status : Z) (text : string) : cresponse S := reply_with status (VText text).

(** [http.NotFound] *)
Definition not_found {S} : cresponse S := cf_text 404 "404 page not found
".

(** [writeDuckMappedError]; the adapter returns the first two errors as they
    are, so their texts are [err.Error()]. *)
Definition duck_mapped {S} (e : goerr) : cresponse S :=
  if errors_is e ErrInvalidAccount then duck_error 422 "Unprocessable Entity" "invalid DuckMail account"
  else if errors_is e ErrPermanentUnsupported then duck_error 422 "Unprocessable Entity" "permanent DuckMail accounts are unsupported"
  else if errors_is e ErrAccountConflict then duck_error 409 "Conflict" "Email address already exists"
  else if errors_is e ErrLoginFailed || errors_is e ErrUnauthenticated
  then duck_error 401 "Unauthorized" "Invalid address, password, or token"
  else if errors_is e ErrForbidden then duck_error 403 "Forbidden" "Token scope does not allow this action"
  else if errors_is e ErrMailboxInboxNotFound || errors_is e ErrMessageNotFound then duck_error 404 "Not Found" "Resource not found"
  else duck_error 500 "Internal Server Error" "Internal server error".

(** [writeYYDSMappedError] *)
Definition yyds_mapped {S} (e : goerr) : cresponse S :=
  if errors_is e ErrUnauthenticated || errors_is e ErrAddressMismatch then yyds_error 401 "token_invalid_or_expired" "登录凭证无效或已过期"
  else if errors_is e ErrForbidden then yyds_error 403 "permission_denied" "没有权限"
  else if errors_is e ErrInvalidRequest || errors_is e ErrInvalidDomain || errors_is e ErrInvalidLifetime || errors_is e ErrInvalidLocalPart
  then yyds_error 400 "address_invalid_or_missing" "缺少地址或地址无效"
  else if errors_is e ErrAddressConflict then yyds_error 409 "address_already_in_use" "该邮箱地址已被使用"
  else if errors_is e ErrMailboxInboxNotFound then yyds_error 404 "account_not_found" "邮箱账号不存在"
  else if errors_is e ErrMessageNotFound then yyds_error 404 "message_not_found" "邮件不存在"
  else yyds_error 500 "request_failed" "请求失败".

(** [writeCloudflareTempMappedError] *)
Definition cf_mapped {S} (e : goerr) : cresponse S :=
  if errors_is e ErrUnauthenticated || errors_is e ErrForbidden then cf_text 401 "Invalid address credential"
  else if errors_is e ErrInvalidAddressName || errors_is e ErrInvalidDomain || errors_is e ErrInvalidLocalPart
  then cf_text 400 "Failed to create address"
  else if errors_is e ErrAddressConflict then cf_text 400 "Address already exists"
  else if errors_is e ErrCloudflareTempPayloadTooLarge then cf_text 413 "Mail response exceeds the MailWisp compatibility limit"
  else if errors_is e ErrMailboxInboxNotFound then cf_text 400 "Invalid address"
  else if errors_is e ErrMessageNotFound then reply_with 200 VNull
  else cf_text 500 "Internal server error".

(** The value of a body, or whether it failed behind the first value; an
    optional body may be empty. *)
Definition decode_body {A} (optional : bool) (zero : A) (first : decoded A) (more : decoded unit) : A + bool :=
  match first with
  | DecodeError => inr false
  | DecodeEOF => if optional then inl zero else inr false
  | Decoded a => match more with DecodeEOF => inl a | _ => inr true end
  end.

(** A query parameter that is a number in a range. *)
Definition query_number (raw : bytes) (zero low high : Z) : option Z :=
  if bool_decide (raw = []) then Some zero
  else match parse_int64 raw with Some n => if (n <? low) || (high <? n) then None else Some n | None => None end.

(** [io.ReadAll(io.LimitReader(file, limit))] of an open file. *)
Definition read_limited (limit : Z) (i : nat) : IO bytes :=
  FileSystem.attempt ;;; λ d, (d, Ok (take (Z.to_nat limit) (f_data (file_of d (NFile i))))).

Section Handlers.
Context `{!UUIDLib} `{!Argon2Lib} `{!DomainIDs}.
Context {S : Type} (parser : option (disk -> nat -> bytes -> disk * res S)) (parse_media : bytes -> option bytes).
Context (s : CServer) (r : crequest).

Abbreviation creply := (cweb * cresponse S)%type.

(** ** Calls *)

Definition with_web (w : cweb) (x : web) : cweb := CWeb x (cw_tables w) (cw_heavy w).

(** A call of the mailbox service or of the authenticator. *)
Definition call {A} (w : cweb) (f : host -> host * A) : cweb * A :=
  let x := on_host (cw_web w) (f (wb_host (cw_web w))) in
  (CWeb x.1 (cascade (h_db (wb_host x.1)) (cw_tables w)) (cw_heavy w), x.2).

Definition call_store {A} (w : cweb) (f : host -> Store -> host * Store * A) : cweb * A :=
  let x := on_store (cw_web w) (f (wb_host (cw_web w)) (wb_store (cw_web w))) in
  (CWeb x.1 (cascade (h_db (wb_host x.1)) (cw_tables w)) (cw_heavy w), x.2).

(** A call of an adapter. *)
Definition call_site {A} (w : cweb) (f : site -> site * A) : cweb * A :=
  let x := f (Site (wb_host (cw_web w)) (cw_tables w)) in
  (CWeb (Web (si_host x.1) (wb_store (cw_web w)) (wb_limiter (cw_web w)) (wb_heavy (cw_web w))) (si_tables x.1) (cw_heavy w), x.2).

Definition call_disk {A} (w : cweb) (m : IO A) : cweb * res A :=
  let '(d, x) := m (st_disk (wb_store (cw_web w))) in
  (with_web w (Web (wb_host (cw_web w)) (with_disk (wb_store (cw_web w)) d) (wb_limiter (cw_web w)) (wb_heavy (cw_web w))), x).

(** [if err != nil { write...MappedError(w, err); return }] *)
Definition try {A} (mapped : goerr -> cresponse S) (x : cweb * res A) (k : cweb -> A -> creply) : creply :=
  match x with
  | (w, Err e) => (w, mapped e)
  | (w, Ok a) => k w a
  end.

Definition try_error (mapped : goerr -> cresponse S) (x : cweb * option goerr) (k : cweb -> creply) : creply :=
  match x with
  | (w, Some e) => (w, mapped e)
  | (w, None) => k w
  end.

Definition limited (w : cweb) (refused : cresponse S) (k : cweb -> creply) : creply :=
  let '(limiter, allowed) := allow (clientIP (s_proxies (xs_base s)) (xq_base r)) (h_clock (wb_host (cw_web w))) (wb_limiter (cw_web w)) in
  let w := with_web w (Web (wb_host (cw_web w)) (wb_store (cw_web w)) limiter (wb_heavy (cw_web w))) in
  if negb allowed then (w, refused) else k w.

(** [consumeCreateQuota] and its headers. *)
Definition admitted (w : cweb) (exceeded failed : cresponse S) (k : cweb -> creply) : creply :=
  let '(x, (decision, err)) := consumeCreateQuota (xs_base s) (xq_base r) (cw_web w) in
  let w := with_web w x in
  let headers := create_quota_headers (h_clock (wb_host x)) decision err in
  let quoted (y : creply) := (y.1, MkCResponse (xr_status y.2) (xr_view y.2) headers (xr_retry y.2)) in
  match err with
  | Some e => quoted (w, if errors_is e ErrDailyCreateQuotaExceeded then exceeded else failed)
  | None => quoted (k w)
  end.

(** The token of the header [Authorization]. *)
Definition bearer : option bytes :=
  let '(scheme, plaintext, found) := cut (rq_authorization (xq_base r)) " "%char in
  let plaintext := trim_space plaintext in
  if negb found || negb (is_bearer scheme) || bool_decide (plaintext = []) then None else Some plaintext.

Definition message_id : option MessageID :=
  match uuid_parse (rq_id (xq_base r)) with None => None | Some _ => Some (rq_id (xq_base r)) end.

(** ** DuckMail *)

Definition duck_disabled : cresponse S := duck_error 404 "Not Found" "DuckMail compatibility is disabled".

Definition duckMailEnabled (w : cweb) (k : DuckService -> creply) : creply :=
  match ad_duck (xs_adapters s) with None => (w, duck_disabled) | Some service => k service end.

(** [duckPrincipal]; without an authenticator nothing is written. *)
Definition duckPrincipal (scopes : list Z) (w : cweb) (k : cweb -> Principal -> creply) : creply :=
  duckMailEnabled w (λ _,
    if negb (s_authenticator (xs_base s)) then (w, reply_with 200 VNone)
    else match bearer with
    | None => (w, duck_error 401 "Unauthorized" "A Bearer token is required")
    | Some plaintext => try duck_mapped (call w (λ h, Capability.Authenticate h plaintext scopes)) k
    end).

Definition duckMessagePrincipal (scope : Z) (w : cweb) (k : cweb -> Principal -> MessageID -> creply) : creply :=
  duckPrincipal [scope] w (λ w principal,
    match message_id with
    | None => (w, duck_error 404 "Not Found" "Message not found")
    | Some messageID => k w principal messageID
    end).

Definition duckPage : option Z := query_number (xq_page r) 1 1 10000.
Definition duck_bad_page : cresponse S := duck_error 400 "Bad Request" "page must be a positive integer".

Definition decodeDuckJSON {A} (zero : A) (first : decoded A) (w : cweb) (k : A -> creply) : creply :=
  match decode_body false zero first (rq_more (xq_base r)) with
  | inr false => (w, duck_error 400 "Bad Request" "Request body is invalid")
  | inr true => (w, duck_error 400 "Bad Request" "Request body must contain one JSON object")
  | inl a => k a
  end.

Definition handleDuckMailDomains (w : cweb) : creply :=
  duckMailEnabled w (λ service,
    match duckPage with
    | None => (w, duck_bad_page)
    | Some page => (w, reply_with 200 (VDuckDomains page (ds_domains service)))
    end).

Definition handleDuckMailCreateAccount (w : cweb) : creply :=
  duckMailEnabled w (λ service,
    limited w (duck_error 429 "Too Many Requests" "Too many account requests") (λ w,
      decodeDuckJSON ([], [], None) (xq_account r) w (λ '(address, password, expiresIn),
        admitted w (duck_error 429 "Too Many Requests" "Daily account quota exceeded")
          (duck_error 500 "Internal Server Error" "Persistent account admission failed") (λ w,
            try duck_mapped (call_site w (DuckCreateAccount service (xq_kdf r) (MkCreateAccountRequest address password expiresIn)))
              (λ w inbox, (w, reply_with 201 (VDuckAccount inbox))))))).

Definition handleDuckMailToken (w : cweb) : creply :=
  duckMailEnabled w (λ service,
    limited w (duck_error 429 "Too Many Requests" "Too many login requests") (λ w,
      decodeDuckJSON ([], []) (xq_login r) w (λ '(address, password),
        try duck_mapped (call_site w (DuckLogin service (xq_kdf r) address password))
          (λ w issued, (w, reply_with 200 (VDuckToken issued)))))).

Definition handleDuckMailMe (w : cweb) : creply :=
  duckPrincipal [ScopeInboxRead] w (λ w principal,
    try duck_mapped (call w (λ h, Get h (pl_InboxID principal))) (λ w inbox, (w, reply_with 200 (VDuckAccount inbox)))).

Definition handleDuckMailDeleteAccount (w : cweb) : creply :=
  duckPrincipal [ScopeInboxDelete] w (λ w principal,
    if negb (bool_decide (rq_id (xq_base r) = pl_InboxID principal))
    then (w, duck_error 403 "Forbidden" "You can only delete your own account")
    else try_error duck_mapped (call w (λ h, Delete h (pl_InboxID principal))) (λ w, (w, reply_with 204 VNone))).

Definition handleDuckMailMessages (w : cweb) : creply :=
  duckPrincipal [ScopeMessageRead] w (λ w principal,
    match duckPage with
    | None => (w, duck_bad_page)
    | Some page =>
      try duck_mapped (call w (λ h, Get h (pl_InboxID principal))) (λ w inbox,
        try duck_mapped (call w (lift (ListMessagePage (pl_InboxID principal) 30 ((page - 1) * 30)))) (λ w result,
          (w, reply_with 200 (VDuckMessages page inbox (mp_Items result) (mp_Total result)))))
    end).

Definition handleDuckMailMessage (w : cweb) : creply :=
  duckMessagePrincipal ScopeMessageRead w (λ w principal messageID,
    try duck_mapped (call w (λ h, MailboxService.GetMessage h (pl_InboxID principal) messageID)) (λ w detail,
      try duck_mapped (call w (λ h, Get h (pl_InboxID principal))) (λ w inbox,
        (w, reply_with 200 (VDuckMessage detail inbox))))).

Definition handleDuckMailSeen (w : cweb) : creply :=
  duckMessagePrincipal ScopeMessageUpdate w (λ w principal messageID,
    try_error duck_mapped (call w (λ h, MailboxService.MarkMessageSeen h (pl_InboxID principal) messageID))
      (λ w, (w, reply_with 200 VDuckSeen))).

Definition handleDuckMailDeleteMessage (w : cweb) : creply :=
  duckMessagePrincipal ScopeMessageDelete w (λ w principal messageID,
    try_error duck_mapped (call w (λ h, MailboxService.DeleteMessage h (pl_InboxID principal) messageID))
      (λ w, (w, reply_with 204 VNone))).

(** The whole source of a message, when the file has the recorded size. *)
Definition whole_source (failed : cresponse S) (source : RawSource) (w : cweb) (k : cweb -> bytes -> creply) : creply :=
  match call_disk w (read_limited (rs_Size source + 1) (rs_Reader source)) with
  | (w, Err _) => (w, failed)
  | (w, Ok data) => if negb (zlen data =? rs_Size source) then (w, failed) else k w data
  end.

Definition open_source (w : cweb) (inboxID : InboxID) (messageID : MessageID) : cweb * res RawSource :=
  call_store w (λ h st, OpenSource (s_content (xs_base s)) h st inboxID messageID).

Definition handleDuckMailSource (w : cweb) : creply :=
  duckMessagePrincipal ScopeMessageRead w (λ w principal messageID,
    try duck_mapped (open_source w (pl_InboxID principal) messageID) (λ w source,
      whole_source (duck_error 500 "Internal Server Error" "Raw message source is unavailable") source w (λ w data,
        (w, reply_with 200 (VDuckSource messageID data))))).

(** ** YYDS *)

Definition yydsEnabled (w : cweb) (k : list bytes -> creply) : creply :=
  match ad_yyds (xs_adapters s) with
  | None => (w, yyds_error 404 "request_failed" "YYDS兼容接口未启用")
  | Some domains => k domains
  end.

Definition yydsBearer (w : cweb) (k : bytes -> creply) : creply :=
  match bearer with
  | None => (w, yyds_error 401 "temp_token_required" "缺少临时邮箱访问凭证")
  | Some plaintext => k plaintext
  end.

Definition yydsPrincipal (scopes : list Z) (w : cweb) (k : cweb -> Principal -> creply) : creply :=
  yydsEnabled w (λ _,
    if negb (s_authenticator (xs_base s)) then (w, reply_with 200 VNone)
    else yydsBearer w (λ plaintext, try yyds_mapped (call w (λ h, Capability.Authenticate h plaintext scopes)) k)).

Definition yydsMessagePrincipal (scope : Z) (w : cweb) (k : cweb -> Principal -> MessageID -> creply) : creply :=
  yydsPrincipal [scope] w (λ w principal,
    match message_id with
    | None => (w, yyds_error 404 "message_not_found" "邮件不存在")
    | Some messageID => k w principal messageID
    end).

Definition decodeYYDSJSON {A} (optional : bool) (zero : A) (first : decoded A) (w : cweb) (k : A -> creply) : creply :=
  match decode_body optional zero first (rq_more (xq_base r)) with
  | inr false => (w, yyds_error 400 "request_body_read_failed" "读取请求内容失败")
  | inr true => (w, yyds_error 400 "request_body_read_failed" "请求只能包含一个JSON对象")
  | inl a => k a
  end.

Definition yydsPage (w : cweb) (k : Z -> Z -> creply) : creply :=
  match query_number (rq_limit (xq_base r)) 50 1 200 with
  | None => (w, yyds_error 400 "request_failed" "limit必须在1到200之间")
  | Some limit =>
    match query_number (xq_offset r) 0 0 100000 with
    | None => (w, yyds_error 400 "request_failed" "offset无效")
    | Some offset => k limit offset
    end
  end.

Definition handleYYDSDomains (w : cweb) : creply := yydsEnabled w (λ domains, (w, reply_with 200 (VYydsDomains domains))).

Definition handleYYDSCreateAccount (w : cweb) : creply :=
  yydsEnabled w (λ _,
    limited w (yyds_error 429 "rate_limit_slow_down" "请求过于频繁，请稍后再试") (λ w,
      decodeYYDSJSON true (MkYydsRequest [] [] [], ([], [], [])) (xq_create r) w (λ '(request, (wildcardRuleID, subdomain, subdomainLabel)),
        if negb (bool_decide (wildcardRuleID = [])) || negb (bool_decide (subdomain = [])) || negb (bool_decide (subdomainLabel = []))
        then (w, yyds_error 400 "wildcard_rule_unavailable" "MailWisp未启用YYDS泛子域名兼容")
        else admitted w (yyds_error 429 "daily_quota_exceeded" "今日临时邮箱创建额度已用完")
          (yyds_error 500 "internal_error" "持久化创建准入失败") (λ w,
            try yyds_mapped (call w (YydsCreateAccount (xs_service s) request))
              (λ w created, (w, reply_with 201 (VYydsAccount (ci_Inbox created) (ic_Plaintext (ci_Capability created))))))))).

Definition handleYYDSRefreshToken (w : cweb) : creply :=
  yydsEnabled w (λ _,
    yydsBearer w (λ plaintext,
      decodeYYDSJSON false [] (xq_refresh r) w (λ address,
        if bool_decide (trim_space address = []) then (w, yyds_error 400 "address_required" "请输入邮箱地址")
        else try yyds_mapped (call w (RefreshToken plaintext address)) (λ w '(rotated, inbox),
          (w, reply_with 200 (VYydsToken inbox rotated)))))).

Definition yyds_account (w : cweb) (inboxID : InboxID) : creply :=
  try yyds_mapped (call w (λ h, Get h inboxID)) (λ w inbox, (w, reply_with 200 (VYydsAccount inbox []))).

Definition handleYYDSAccountMe (w : cweb) : creply :=
  yydsPrincipal [ScopeInboxRead] w (λ w principal, yyds_account w (pl_InboxID principal)).

Definition method_is (method : string) : bool := bool_decide (rq_method (xq_base r) = str method).

Definition handleYYDSAccount (w : cweb) : creply :=
  yydsPrincipal [if method_is "DELETE" then ScopeInboxDelete else ScopeInboxRead] w (λ w principal,
    if negb (bool_decide (rq_id (xq_base r) = pl_InboxID principal)) then (w, yyds_error 404 "account_not_found" "邮箱账号不存在")
    else if method_is "DELETE"
    then try_error yyds_mapped (call w (λ h, Delete h (pl_InboxID principal))) (λ w, (w, reply_with 204 VNone))
    else yyds_account w (pl_InboxID principal)).

Definition handleYYDSMessages (w : cweb) : creply :=
  yydsPrincipal [ScopeMessageRead] w (λ w principal,
    yydsPage w (λ limit offset,
      try yyds_mapped (call w (λ h, Get h (pl_InboxID principal))) (λ w inbox,
        try yyds_mapped (call w (lift (ListMessagePage (pl_InboxID principal) limit offset))) (λ w page,
          (w, reply_with 200 (VYydsMessages inbox page)))))).

(** The cases of [handleYYDSMessage]. *)
Definition yyds_get_message (w : cweb) (inboxID : InboxID) (messageID : MessageID) : creply :=
  try yyds_mapped (call w (λ h, MailboxService.GetMessage h inboxID messageID)) (λ w detail,
    try yyds_mapped (call w (λ h, Get h inboxID)) (λ w inbox, (w, reply_with 200 (VYydsMessage detail inbox)))).

Definition yyds_patch_message (w : cweb) (inboxID : InboxID) (messageID : MessageID) : creply :=
  decodeYYDSJSON true (None, None) (xq_patch r) w (λ '(seen, starred),
    if bool_decide (is_Some starred) || match seen with Some b => negb b | None => false end
    then (w, yyds_error 403 "permission_denied" "Temporary Token不支持Starred或恢复未读")
    else try_error yyds_mapped (call w (λ h, MailboxService.MarkMessageSeen h inboxID messageID))
      (λ w, (w, reply_with 200 (VYydsSeen messageID)))).

Definition yyds_delete_message (w : cweb) (inboxID : InboxID) (messageID : MessageID) : creply :=
  try_error yyds_mapped (call w (λ h, MailboxService.DeleteMessage h inboxID messageID)) (λ w, (w, reply_with 204 VNone)).

(** A [HEAD] request passes the checks and nothing is written for it. *)
Definition handleYYDSMessage (w : cweb) : creply :=
  let required := if method_is "PATCH" then ScopeMessageUpdate else if method_is "DELETE" then ScopeMessageDelete else ScopeMessageRead in
  yydsMessagePrincipal required w (λ w principal messageID,
    if method_is "GET" then yyds_get_message w (pl_InboxID principal) messageID
    else if method_is "PATCH" then yyds_patch_message w (pl_InboxID principal) messageID
    else if method_is "DELETE" then yyds_delete_message w (pl_InboxID principal) messageID
    else (w, reply_with 200 VNone)).

Definition handleYYDSSource (w : cweb) : creply :=
  yydsMessagePrincipal ScopeMessageRead w (λ w principal messageID,
    try yyds_mapped (open_source w (pl_InboxID principal) messageID) (λ w source,
      whole_source (yyds_error 500 "message_source_read_failed" "读取邮件原文失败") source w (λ w data,
        (w, reply_with 200 (VYydsSource messageID data))))).

Definition handleYYDSAttachment (w : cweb) : creply :=
  yydsMessagePrincipal ScopeMessageRead w (λ w principal messageID,
    try yyds_mapped (call_store w (λ h st, OpenAttachment parser (s_content (xs_base s)) h st (pl_InboxID principal) messageID (rq_part (xq_base r))))
      (λ w source, (w, reply_with 200 (VYydsAttachment source (attachment_type parse_media (as_ContentType _ source)))))).

(** ** Cloudflare Temp Email *)

Definition cloudflareTempEnabled (w : cweb) (k : list bytes -> creply) : creply :=
  let legacyPath := negb (has_prefix (xq_path r) (str "/compat/cloudflare-temp/")) in
  match ad_cloudflare (xs_adapters s) with
  | None => (w, not_found)
  | Some domains => if legacyPath && negb (ad_legacy (xs_adapters s)) then (w, not_found) else k domains
  end.

Definition cloudflareTempPrincipal (scopes : list Z) (w : cweb) (k : cweb -> Principal -> creply) : creply :=
  cloudflareTempEnabled w (λ _,
    match bearer, s_authenticator (xs_base s) with
    | Some plaintext, true => try cf_mapped (call w (λ h, Capability.Authenticate h plaintext scopes)) k
    | _, _ => (w, cf_text 401 "Invalid address credential")
    end).

(** [beginCloudflareTempHeavyRequest]: a channel of two slots, given back when
    the handler returns. *)
Definition cloudflareTempHeavy : Z := 2.

Definition heavy_request (w : cweb) (k : creply) : creply :=
  if cw_heavy w <? cloudflareTempHeavy then k
  else (w, MkCResponse 503 (VText "Cloudflare Temp Email compatibility worker is busy") None true).

Definition cloudflareTempPage (w : cweb) (k : Z -> Z -> creply) : creply :=
  match parse_int64 (rq_limit (xq_base r)) with
  | Some limit =>
    if (limit <? 1) || (cloudflareTempMaxPageItems <? limit) then (w, cf_text 400 "Invalid limit")
    else match parse_int64 (xq_offset r) with
    | Some offset => if (offset <? 0) || (100000 <? offset) then (w, cf_text 400 "Invalid offset") else k limit offset
    | None => (w, cf_text 400 "Invalid offset")
    end
  | None => (w, cf_text 400 "Invalid limit")
  end.

Definition decodeCloudflareTempJSON {A} (zero : A) (first : decoded A) (w : cweb) (k : A -> creply) : creply :=
  match decode_body true zero first (rq_more (xq_base r)) with
  | inr _ => (w, cf_text 400 "Invalid JSON body")
  | inl a => k a
  end.

Definition bounded_json (w : cweb) (v : view S) : creply :=
  match view_json v ≫= bounded_text with
  | None => (w, cf_text 413 "Mail response exceeds the MailWisp compatibility limit")
  | Some _ => (w, reply_with 200 v)
  end.

Definition handleCloudflareTempOpenSettings (w : cweb) : creply :=
  cloudflareTempEnabled w (λ domains, (w, reply_with 200 (VCfOpenSettings domains))).

Definition handleCloudflareTempUserOpenSettings (w : cweb) : creply :=
  cloudflareTempEnabled w (λ _, (w, reply_with 200 VCfUserOpenSettings)).

Definition handleCloudflareTempCreateAddress (w : cweb) : creply :=
  cloudflareTempEnabled w (λ _,
    limited w (cf_text 429 "Rate limit exceeded") (λ w,
      decodeCloudflareTempJSON ([], [], false) (xq_address r) w (λ '(name, domain, enableRandomSubdomain),
        if enableRandomSubdomain : bool then (w, cf_text 400 "Random subdomain is not supported")
        else admitted w (cf_text 429 "Daily address quota exceeded") (cf_text 500 "Persistent address admission failed") (λ w,
          try cf_mapped (call_site w (CreateAddress (xs_service s) id name domain))
            (λ w created, (w, reply_with 200 (VCfAddress created))))))).

Definition handleCloudflareTempSettings (w : cweb) : creply :=
  cloudflareTempPrincipal [ScopeInboxRead] w (λ w principal,
    try cf_mapped (call w (λ h, Get h (pl_InboxID principal))) (λ w inbox, (w, reply_with 200 (VCfSettings inbox)))).

(** [cloudflareTempMessagePage] *)
Definition cloudflareTempMessagePage (w : cweb) (inboxID : InboxID) (limit offset : Z) (k : cweb -> Inbox -> MessagePage -> gmap bytes Z -> creply) : creply :=
  try cf_mapped (call w (λ h, Get h inboxID)) (λ w inbox,
    try cf_mapped (call w (lift (ListMessagePage inboxID limit offset))) (λ w page,
      try cf_mapped (call_site w (on_compat (EnsureMessageIDs inboxID (su_ID <$> mp_Items page)))) (λ w compatibilityIDs,
        k w inbox page compatibilityIDs))).

(** [cloudflareTempMessageID]: the integer and the message, when there is one. *)
Definition cloudflareTempMessageID (w : cweb) (inboxID : InboxID) : cweb * res (option (Z * MessageID)) :=
  match parse_int64 (rq_id (xq_base r)) with
  | None => (w, Ok None)
  | Some compatibilityID =>
    if compatibilityID <=? 0 then (w, Ok None)
    else match call_site w (on_compat (FindMessageID inboxID compatibilityID)) with
    | (w, Err e) => if errors_is e ErrMessageIDNotFound then (w, Ok None) else (w, Err e)
    | (w, Ok messageID) => (w, Ok (Some (compatibilityID, messageID)))
    end
  end.

(** [readCloudflareTempRaw]: the source and the payload with it. *)
Definition readCloudflareTempRaw (w : cweb) (inboxID : InboxID) (messageID : MessageID) (payloadBytes : Z) : cweb * res (bytes * Z) :=
  match open_source w inboxID messageID with
  | (w, Err e) => (w, Err e)
  | (w, Ok source) =>
    if (rs_Size source <? 0) || (cloudflareTempMaxPayloadBytes - payloadBytes <? rs_Size source)
    then (w, Err (ESentinel ErrCloudflareTempPayloadTooLarge))
    else match call_disk w (read_limited (rs_Size source + 1) (rs_Reader source)) with
    | (w, Err e) => (w, Err (EWrap "read Cloudflare Temp Email Raw MIME" e))
    | (w, Ok data) =>
      if negb (zlen data =? rs_Size source) then (w, Err (ENew "Cloudflare Temp Email Raw MIME size mismatch"))
      else (w, Ok (data, payloadBytes + zlen data))
    end
  end.

(** The loops over a page. *)
Fixpoint raw_mails (inboxID : InboxID) (ids : gmap bytes Z) (items : list MessageSummary) (payloadBytes : Z) (w : cweb) :
    cweb * res (list (Z * MessageDetail * bytes)) :=
  match items with
  | [] => (w, Ok [])
  | summary :: items =>
    match call w (λ h, MailboxService.GetMessage h inboxID (su_ID summary)) with
    | (w, Err e) => (w, Err e)
    | (w, Ok detail) =>
      match readCloudflareTempRaw w inboxID (su_ID summary) payloadBytes with
      | (w, Err e) => (w, Err e)
      | (w, Ok (raw, payloadBytes)) =>
        match raw_mails inboxID ids items payloadBytes w with
        | (w, Err e) => (w, Err e)
        | (w, Ok results) => (w, Ok ((default 0 (ids !! su_ID summary), detail, raw) :: results))
        end
      end
    end
  end.

Definition parsed_size (p : cloudflareTempParsedMail) : Z := zlen (cpm_Text p) + zlen (cpm_HTML p) + zlen (cpm_Subject p) + zlen (cpm_Sender p).

Fixpoint parsed_mails (inboxID : InboxID) (inbox : Inbox) (ids : gmap bytes Z) (items : list MessageSummary) (payloadBytes : Z) (w : cweb) :
    cweb * res (list (Z * MessageDetail)) :=
  match items with
  | [] => (w, Ok [])
  | summary :: items =>
    match call w (λ h, MailboxService.GetMessage h inboxID (su_ID summary)) with
    | (w, Err e) => (w, Err e)
    | (w, Ok detail) =>
      let mail := (default 0 (ids !! su_ID summary), detail) in
      let payloadBytes := payloadBytes + parsed_size (cf_parsed_of inbox mail) in
      if cloudflareTempMaxPayloadBytes <? payloadBytes then (w, Err (ESentinel ErrCloudflareTempPayloadTooLarge))
      else match parsed_mails inboxID inbox ids items payloadBytes w with
      | (w, Err e) => (w, Err e)
      | (w, Ok results) => (w, Ok (mail :: results))
      end
    end
  end.

Definition page_count (offset : Z) (page : MessagePage) : Z := if offset =? 0 then mp_Total page else 0.

Definition handleCloudflareTempRawMails (w : cweb) : creply :=
  cloudflareTempPrincipal [ScopeMessageRead] w (λ w principal,
    heavy_request w (cloudflareTempPage w (λ limit offset,
      cloudflareTempMessagePage w (pl_InboxID principal) limit offset (λ w inbox page ids,
        try cf_mapped (raw_mails (pl_InboxID principal) ids (mp_Items page) 0 w) (λ w results,
          bounded_json w (VCfRawMails inbox results (page_count offset page))))))).

Definition handleCloudflareTempParsedMails (w : cweb) : creply :=
  cloudflareTempPrincipal [ScopeMessageRead] w (λ w principal,
    heavy_request w (cloudflareTempPage w (λ limit offset,
      cloudflareTempMessagePage w (pl_InboxID principal) limit offset (λ w inbox page ids,
        try cf_mapped (parsed_mails (pl_InboxID principal) inbox ids (mp_Items page) 0 w) (λ w results,
          bounded_json w (VCfParsedMails inbox results (page_count offset page))))))).

(** The part that the two handlers of one mail share: a mail that is not
    there, or no longer, is [null]. *)
Definition one_mail (w : cweb) (inboxID : InboxID) (k : cweb -> Inbox -> Z -> MessageID -> MessageDetail -> creply) : creply :=
  heavy_request w (try cf_mapped (cloudflareTempMessageID w inboxID) (λ w found,
    match found with
    | None => (w, reply_with 200 VNull)
    | Some (compatibilityID, messageID) =>
      try cf_mapped (call w (λ h, Get h inboxID)) (λ w inbox,
        match call w (λ h, MailboxService.GetMessage h inboxID messageID) with
        | (w, Err e) => if errors_is e ErrMessageNotFound then (w, reply_with 200 VNull) else (w, cf_mapped e)
        | (w, Ok detail) => k w inbox compatibilityID messageID detail
        end)
    end)).

Definition handleCloudflareTempRawMail (w : cweb) : creply :=
  cloudflareTempPrincipal [ScopeMessageRead] w (λ w principal,
    one_mail w (pl_InboxID principal) (λ w inbox compatibilityID messageID detail,
      try cf_mapped (readCloudflareTempRaw w (pl_InboxID principal) messageID 0) (λ w '(raw, _),
        bounded_json w (VCfRawMail inbox (compatibilityID, detail, raw))))).

Definition handleCloudflareTempParsedMail (w : cweb) : creply :=
  cloudflareTempPrincipal [ScopeMessageRead] w (λ w principal,
    one_mail w (pl_InboxID principal) (λ w inbox compatibilityID messageID detail,
      if cloudflareTempMaxPayloadBytes <? parsed_size (cf_parsed_of inbox (compatibilityID, detail))
      then (w, cf_mapped (ESentinel ErrCloudflareTempPayloadTooLarge))
      else bounded_json w (VCfParsedMail inbox (compatibilityID, detail)))).

Definition handleCloudflareTempDeleteMail (w : cweb) : creply :=
  cloudflareTempPrincipal [ScopeMessageDelete] w (λ w principal,
    try cf_mapped (cloudflareTempMessageID w (pl_InboxID principal)) (λ w found,
      match found with
      | None => (w, reply_with 200 VCfSuccess)
      | Some (_, messageID) =>
        match call w (λ h, MailboxService.DeleteMessage h (pl_InboxID principal) messageID) with
        | (w, Some e) => if errors_is e ErrMessageNotFound then (w, reply_with 200 VCfSuccess) else (w, cf_mapped e)
        | (w, None) => (w, reply_with 200 VCfSuccess)
        end
      end)).

Definition handleCloudflareTempDeleteAddress (w : cweb) : creply :=
  cloudflareTempPrincipal [ScopeInboxDelete] w (λ w principal,
    try_error cf_mapped (call w (λ h, Delete h (pl_InboxID principal))) (λ w, (w, reply_with 200 VCfSuccess))).
End Handlers.

(** ** Routes *)

Inductive croute : Type :=
| RDuckDomains | RDuckCreateAccount | RDuckToken | RDuckMe | RDuckDeleteAccount | RDuckMessages | RDuckMessage | RDuckSeen | RDuckDeleteMessage | RDuckSource
| RYydsDomains | RYydsCreate | RYydsToken | RYydsMe | RYydsGetAccount | RYydsDeleteAccount | RYydsMessages | RYydsGetMessage | RYydsPatchMessage
| RYydsDeleteMessage | RYydsSource | RYydsAttachment
| RCfOpenSettings | RCfUserOpenSettings | RCfNewAddress | RCfSettings | RCfMails | RCfMail | RCfParsedMails | RCfParsedMail | RCfDeleteMail | RCfDeleteAddress.

Definition croute_method (x : croute) : bytes :=
  match x with
  | RDuckCreateAccount | RDuckToken | RYydsCreate | RYydsToken | RCfNewAddress => str "POST"
  | RDuckDeleteAccount | RDuckDeleteMessage | RYydsDeleteAccount | RYydsDeleteMessage | RCfDeleteMail | RCfDeleteAddress => str "DELETE"
  | RDuckSeen | RYydsPatchMessage => str "PATCH"
  | _ => str "GET"
  end.

Definition cmux_accepts (x : croute) (method : bytes) : bool :=
  bool_decide (method = croute_method x) || bool_decide (croute_method x = str "GET") && bool_decide (method = str "HEAD").

Definition cserve `{!UUIDLib} `{!Argon2Lib} `{!DomainIDs} {S} (parser : option (disk -> nat -> bytes -> disk * res S))
    (parse_media : bytes -> option bytes) (s : CServer) (r : crequest) (x : croute) (w : cweb) : cweb * cresponse S :=
  match x with
  | RDuckDomains => handleDuckMailDomains s r w
  | RDuckCreateAccount => handleDuckMailCreateAccount s r w
  | RDuckToken => handleDuckMailToken s r w
  | RDuckMe => handleDuckMailMe s r w
  | RDuckDeleteAccount => handleDuckMailDeleteAccount s r w
  | RDuckMessages => handleDuckMailMessages s r w
  | RDuckMessage => handleDuckMailMessage s r w
  | RDuckSeen => handleDuckMailSeen s r w
  | RDuckDeleteMessage => handleDuckMailDeleteMessage s r w
  | RDuckSource => handleDuckMailSource s r w
  | RYydsDomains => handleYYDSDomains s w
  | RYydsCreate => handleYYDSCreateAccount s r w
  | RYydsToken => handleYYDSRefreshToken s r w
  | RYydsMe => handleYYDSAccountMe s r w
  | RYydsGetAccount | RYydsDeleteAccount => handleYYDSAccount s r w
  | RYydsMessages => handleYYDSMessages s r w
  | RYydsGetMessage | RYydsPatchMessage | RYydsDeleteMessage => handleYYDSMessage s r w
  | RYydsSource => handleYYDSSource s r w
  | RYydsAttachment => handleYYDSAttachment parser parse_media s r w
  | RCfOpenSettings => handleCloudflareTempOpenSettings s r w
  | RCfUserOpenSettings => handleCloudflareTempUserOpenSettings s r w
  | RCfNewAddress => handleCloudflareTempCreateAddress s r w
  | RCfSettings => handleCloudflareTempSettings s r w
  | RCfMails => handleCloudflareTempRawMails s r w
  | RCfMail => handleCloudflareTempRawMail s r w
  | RCfParsedMails => handleCloudflareTempParsedMails s r w
  | RCfParsedMail => handleCloudflareTempParsedMail s r w
  | RCfDeleteMail => handleCloudflareTempDeleteMail s r w
  | RCfDeleteAddress => handleCloudflareTempDeleteAddress s r w
  end.
