(* ===== verification/CompatApiFacts.v ===== *)
(** * Isolation of inboxes behind the compatibility APIs

    A request of any of the three APIs reads and changes what belongs to one
    inbox only: the one its bearer token was issued for.  This covers the rows
    of the mailboxes, the accounts and stable identifiers of the adapters, and
    the stored sources of messages. *)

From S2P Require Import Prelude GoStrings GoTime Errors Codec NetIP Uuid FileSystem Json Message ContentStore ContentStoreFacts Mail Database DatabaseFacts Token Scope DeliveryRepo MailboxRepo CapabilityRepo Capability CapabilityDb MailboxService CreateQuota Http HttpApi HttpFacts CompatRepo CompatFacts DuckMail Adapters CompatView CompatApi.

#[local] Opaque sha256.

Definition cdb (w : cweb) : db := h_db (wb_host (cw_web w)).
Definition cstate (w : cweb) : compat := Compat (cdb w) (cw_tables w).
Definition cstore (w : cweb) : Store := wb_store (cw_web w).
Definition cdisk (w : cweb) : disk := st_disk (cstore w).

(** ** The adapters' tables *)

(** Accounts and inbox identifiers refer to inboxes, and message identifiers
    to UUIDs; [ids_ok] and the foreign
    keys of the mailboxes cover the identifiers of messages. *)
Record refs_ok (s : compat) : Prop := {
  rf_accounts : forall id a, tb_accounts (cm_tables s) !! id = Some a -> is_Some (inboxes (cm_db s) !! id);
  rf_inbox_ids : forall id n, tb_inbox_ids (cm_tables s) !! id = Some n -> is_Some (inboxes (cm_db s) !! id);
  rf_uuids : forall mid x, tb_message_ids (cm_tables s) !! mid = Some x -> length mid = 16%nat
}.

(** Rows of other inboxes than [u] are kept. *)
Record tconfined (u : option uuid) (t t' : tables) : Prop := {
  tc_accounts : forall id a, Some id <> u -> tb_accounts t !! id = Some a -> tb_accounts t' !! id = Some a;
  tc_inbox_ids : forall id n, Some id <> u -> tb_inbox_ids t !! id = Some n -> tb_inbox_ids t' !! id = Some n;
  tc_message_ids : forall mid v n, Some v <> u -> tb_message_ids t !! mid = Some (v, n) -> tb_message_ids t' !! mid = Some (v, n)
}.

#[global] Instance tconfined_preorder u : PreOrder (tconfined u).
Proof. split; [intros t; by split|]. intros t1 t2 t3 [] []. split; by eauto. Qed.

Lemma cascade_confined u s d :
  db_ok (cm_db s) -> ids_ok s -> refs_ok s -> confined u (cm_db s) d -> tconfined u (cm_tables s) (cascade d (cm_tables s)).
Proof.
  intros Hd Hi [R1 R2 _] [C1 C2 _]. split.
  - intros id a Hne Ha. apply map_lookup_filter_Some. split; [done|]. cbn. destruct (R1 _ _ Ha) as [row Hr]. exists row. by apply C1.
  - intros id n Hne Hn. apply map_lookup_filter_Some. split; [done|]. cbn. destruct (R2 _ _ Hn) as [row Hr]. exists row. by apply C1.
  - intros mid v n Hne Hn. apply map_lookup_filter_Some. split; [done|]. cbn. destruct (io_owner _ Hi _ _ _ Hn) as (m & Hm & <-).
    destruct (proj1 (ok_refs _ Hd) mid m Hm) as [[row Hr] _]. split; [exists row; by apply C1|exists m; by apply C2].
Qed.

(** What is referred to stays, and so does what refers to it. *)
Lemma cascade_id s d :
  db_ok (cm_db s) -> ids_ok s -> refs_ok s -> inboxes d = inboxes (cm_db s) -> messages d = messages (cm_db s) ->
  cascade d (cm_tables s) = cm_tables s.
Proof.
  intros Hd Hi [R1 R2 _] E1 E2. unfold cascade. destruct s as [d0 [t1 t2 t3 n1 n2]]. cbn in *. f_equal; apply map_filter_id; rewrite E1, ?E2.
  - intros id a Ha. by eapply R1.
  - intros id n Hn. by eapply R2.
  - intros mid [v n] Hn. destruct (io_owner _ Hi _ _ _ Hn) as (m & Hm & <-). cbn in *. split; [|by eauto]. by apply (ok_refs _ Hd) in Hm as [? _].
Qed.

Section Isolation.
Context `{!UUIDLib} `{!UUIDSpec _} `{!Argon2Lib} `{!DomainIDs} (q : DeliveryLimits).
Context {S : Type} (parser : option (disk -> nat -> bytes -> disk * res S)) (parse_media : bytes -> option bytes).
Context (s : CServer) (r : crequest).

Record cok (w : cweb) : Prop := { co_healthy : healthy q (cdb w); co_ids : ids_ok (cstate w); co_refs : refs_ok (cstate w) }.

(** What a read leaves: only statements were run, and only directories of the
    store looked at. *)
Record kept (w w' : cweb) : Prop := {
  kp_tables : same_tables (cdb w) (cdb w'); kp_rows : cw_tables w' = cw_tables w; kp_disk : quiet (cdisk w) (cdisk w')
}.

#[global] Instance kept_preorder : PreOrder kept.
Proof. split; [intros w; by split|]. intros w1 w2 w3 [] []. split; [by etrans|congruence|by etrans]. Qed.

Lemma kept_ok w w' : kept w w' -> cok w -> cok w'.
Proof.
  intros [HS HT _] [Hh Hi [R1 R2 R3]]. assert (same_state (cstate w) (cstate w')) as HSS by done.
  split; [by eapply same_tables_healthy|by eapply same_state_ok|].
  split; cbn; rewrite HT, ?(sm_inboxes _ _ HS); done.
Qed.

(** Everything but the rows of one inbox stays. *)
Record touches (u : option uuid) (w w' : cweb) : Prop := {
  th_mail : confined u (cdb w) (cdb w'); th_rows : tconfined u (cw_tables w) (cw_tables w')
}.

Lemma kept_touches u w w' : kept w w' -> touches u w w'.
Proof. intros [HS HT _]. split; [by apply confined_tables|by rewrite HT]. Qed.

Lemma touches_after u w w1 w' : kept w w1 -> touches u w1 w' -> touches u w w'.
Proof. intros HK [C T]. apply (kept_touches u) in HK as [C0 T0]. split; [by eapply confined_trans|by etrans]. Qed.

(** ** What is shown *)

Definition own_inbox (u : option uuid) (d : db) (inbox : Inbox) : Prop :=
  exists id row, u = Some id /\ inboxes d !! id = Some row /\ inbox = inbox_of id row.

Definition fresh_inbox (d : db) (inbox : Inbox) : Prop := exists id row, inboxes d !! id = None /\ inbox = inbox_of id row.

(** An account that is created, or the one of the token. *)
Definition account_shown (u : option uuid) (d : db) (inbox : Inbox) : Prop := own_inbox u d inbox \/ u = None /\ fresh_inbox d inbox.

Definition own_message (u : option uuid) (d : db) (mid : uuid) (m : message_row) : Prop :=
  messages d !! mid = Some m /\ Some (ms_inbox m) = u.

(** The message that the path names. *)
Definition path_message (u : option uuid) (d : db) (mid : uuid) (m : message_row) : Prop :=
  uuid_parse (rq_id (xq_base r)) = Some mid /\ own_message u d mid m.

(** The bytes of the object of a key. *)
Definition stored (k : disk) (key : bytes) : option bytes :=
  match relativePathForKey key with
  | Err _ => None
  | Ok relative =>
    match d_tree k !! (relative ++ objectsRoot (s_content (xs_base s))) with
    | Some (NFile i) => Some (f_data (file_of k (NFile i)))
    | _ => None
    end
  end.

(** The whole stored source of a message. *)
Definition source_of (d : db) (k : disk) (m : message_row) (data : bytes) : Prop :=
  stored k (ms_content m) = Some data /\ ct_size <$> contents d !! ms_content m = Some (zlen data).

(** A message of [u] under the number that the tables [t] map to it. *)
Definition numbered_mail (u : option uuid) (d : db) (t : tables) (mail : Z * MessageDetail) (m : message_row) : Prop :=
  exists id mid, u = Some id /\ own_message u d mid m /\ mail.2 = detail_of d mid m /\ tb_message_ids t !! mid = Some (id, mail.1).

(** What a response to a request in [d], [k] and [t] shows; [t'] are the tables
    after it. *)
Definition cshows (u : option uuid) (d : db) (st : Store) (t t' : tables) (v : view S) : Prop :=
  match v with
  | VNone | VNull | VText _ | VDuckError _ _ | VDuckDomains _ _ | VDuckSeen | VYydsError _ _ | VYydsDomains _ | VYydsSeen _
  | VCfOpenSettings _ | VCfUserOpenSettings | VCfSuccess => True
  | VDuckAccount inbox | VYydsAccount inbox _ => account_shown u d inbox
  | VDuckToken issued => exists address password account id,
      xq_login r = Decoded (address, password) /\ live_account (Compat d t) (to_lower (trim_space address)) = Some account /\
      verifyPassword (an_PasswordHash account) password = true /\
      uuid_parse (ib_ID (an_Inbox account)) = Some id /\ ic_InboxID issued = uuid_string id
  | VDuckMessages _ inbox items _ => own_inbox u d inbox /\ items_of d u items
  | VYydsMessages inbox page => own_inbox u d inbox /\ items_of d u (mp_Items page)
  | VDuckMessage detail inbox | VYydsMessage detail inbox =>
      own_inbox u d inbox /\ exists mid m, path_message u d mid m /\ detail = detail_of d mid m
  | VDuckSource messageID data | VYydsSource messageID data =>
      messageID = rq_id (xq_base r) /\ exists mid m, path_message u d mid m /\ source_of d (st_disk st) m data
  | VYydsAttachment source contentType => shows parser (xs_base s) (xq_base r) u d st (PAttachment source contentType)
  | VYydsToken inbox _ | VCfSettings inbox => own_inbox u d inbox
  | VCfAddress created => u = None /\ fresh_inbox d (cd_Inbox created)
  | VCfRawMails inbox mails _ => own_inbox u d inbox /\
      Forall (λ mail, exists m, numbered_mail u d t' mail.1 m /\ source_of d (st_disk st) m mail.2) mails
  | VCfRawMail inbox mail => own_inbox u d inbox /\ exists m, numbered_mail u d t' mail.1 m /\ source_of d (st_disk st) m mail.2
  | VCfParsedMails inbox mails _ => own_inbox u d inbox /\ Forall (λ mail, exists m, numbered_mail u d t' mail m) mails
  | VCfParsedMail inbox mail => own_inbox u d inbox /\ exists m, numbered_mail u d t' mail m
  end.

Definition csilent (v : view S) : Prop :=
  match v with
  | VNone | VNull | VText _ | VDuckError _ _ | VDuckDomains _ _ | VDuckSeen | VYydsError _ _ | VYydsDomains _ | VYydsSeen _
  | VCfOpenSettings _ | VCfUserOpenSettings | VCfSuccess => True
  | _ => False
  end.

Lemma csilent_shows u d st t t' v : csilent v -> cshows u d st t t' v.
Proof. by destruct v. Qed.

Lemma cshows_same u d d' st t t' v : same_tables d d' -> cshows u d' st t t' v -> cshows u d st t t' v.
Proof. intros HS. destruct v; first [done|by apply shows_same|destruct HS, d, d'; cbn in * |-; by subst]. Qed.

Record cisolated (u : option uuid) (w w' : cweb) (resp : cresponse S) : Prop := {
  ci_touches : touches u w w'; ci_shown : cshows u (cdb w) (cstore w) (cw_tables w) (cw_tables w') (xr_view resp)
}.

Lemma cisolated_silent u w w' resp : touches u w w' -> csilent (xr_view resp) -> cisolated u w w' resp.
Proof. intros HT Hs. split; [done|by apply csilent_shows]. Qed.

(** A step of the database before. *)
Lemma cisolated_after u w w1 w' resp : kept w w1 -> cstore w1 = cstore w -> cisolated u w1 w' resp -> cisolated u w w' resp.
Proof.
  intros HK Hst [HT HS]. split; [by eapply touches_after|]. rewrite <- Hst, <- (kp_rows _ _ HK).
  eapply cshows_same; [apply HK|done].
Qed.

(** ** Calls *)

Lemma call_inv {A} w (f : host -> host * A) w1 x :
  call w f = (w1, x) -> exists h, f (wb_host (cw_web w)) = (h, x) /\ cdb w1 = h_db h /\
    cw_tables w1 = cascade (h_db h) (cw_tables w) /\ cstore w1 = cstore w.
Proof. unfold call, on_host. destruct (f _) as [h y]. intros [= <- <-]. by exists h. Qed.

Lemma call_reads {A} w (f : host -> host * A) w1 x h :
  cok w -> call w f = (w1, x) -> f (wb_host (cw_web w)) = (h, x) -> same_tables (cdb w) (h_db h) ->
  kept w w1 /\ cstore w1 = cstore w /\ cdb w1 = h_db h.
Proof.
  intros [Hh Hi Hr] (h' & E & Hd & Ht & Hst)%call_inv Ef HS. assert (h' = h) as -> by congruence. split; [|done].
  split; [by rewrite Hd| |unfold cdisk; by rewrite Hst].
  rewrite Ht. apply (cascade_id (cstate w)); [apply Hh|done|done|apply HS|apply HS].
Qed.

(** A call that changes rows of one inbox. *)
Lemma call_touches {A} u w (f : host -> host * A) w1 x h :
  cok w -> call w f = (w1, x) -> f (wb_host (cw_web w)) = (h, x) -> confined u (cdb w) (h_db h) -> touches u w w1.
Proof.
  intros [Hh Hi Hr] (h' & E & Hd & Ht & Hst)%call_inv Ef HC. assert (h' = h) as -> by congruence.
  split; [by rewrite Hd|]. rewrite Ht. by apply (cascade_confined u (cstate w)); [apply Hh|..].
Qed.

(** A service call on the database. *)
Lemma call_lift {A} w (m : DB A) w1 x :
  cok w -> call w (lift m) = (w1, x) -> exists d, m (cdb w) = (d, x) /\ (same_tables (cdb w) d -> kept w w1 /\ cstore w1 = cstore w /\ cdb w1 = d).
Proof.
  intros Hok E. pose proof (call_inv _ _ _ _ E) as (h & Ef & _). exists (h_db h). split.
  - revert Ef. unfold lift. fold (cdb w). destruct (m (cdb w)) as [d y]. by intros [= <- <-].
  - intros HS. by eapply call_reads.
Qed.

Lemma call_discard {A} u w (m : host -> DB A) w1 x :
  cok w -> call w (λ h, discard (lift (m h) h)) = (w1, x) ->
  (forall d y, m (wb_host (cw_web w)) (cdb w) = (d, y) -> confined u (cdb w) d) -> touches u w w1.
Proof.
  intros Hok E Hm. pose proof (call_inv _ _ _ _ E) as (h & Ef & _). eapply call_touches; [done..|].
  revert Ef. unfold discard, lift. fold (cdb w). destruct (m _ (cdb w)) as [d y] eqn:Em. intros [= <- <-]. by apply (Hm d y).
Qed.

Lemma call_Get w w1 inboxID x :
  cok w -> call w (λ h, Get h inboxID) = (w1, x) -> kept w w1 /\ cstore w1 = cstore w /\
  forall inbox, x = Ok inbox -> own_inbox (uuid_parse inboxID) (cdb w) inbox.
Proof.
  intros Hok (d & E & HK)%call_lift; [|done]. apply GetInbox_reads in E as [HS Hx]. destruct (HK HS) as (K & Hst & _).
  split; [done|]. split; [done|]. intros inbox ->. destruct (Hx _ eq_refl) as (id & row & -> & Hr & ->). exists id, row.
  by rewrite (sm_inboxes _ _ HS) in Hr.
Qed.

Lemma items_of_same u d d' l : same_tables d d' -> items_of d' u l -> items_of d u l.
Proof. intros []. destruct d, d'. cbn in * |-. by subst. Qed.

Lemma call_page w w1 inboxID limit offset x :
  cok w -> call w (lift (ListMessagePage inboxID limit offset)) = (w1, x) -> kept w w1 /\ cstore w1 = cstore w /\
  forall page, x = Ok page -> items_of (cdb w) (uuid_parse inboxID) (mp_Items page).
Proof.
  intros Hok (d & E & HK)%call_lift; [|done]. unfold ListMessagePage in E.
  assert (same_tables (cdb w) d /\ forall page, x = Ok page -> items_of d (uuid_parse inboxID) (mp_Items page)) as [HS Hx].
  { destruct (_ || _); [by injection E as <- <-|]. by apply repository_reads in E. }
  destruct (HK HS) as (K & Hst & _). split; [done|]. split; [done|]. intros page ->. eapply items_of_same; [done|by apply Hx].
Qed.

Lemma detail_of_same d d' mid m : same_tables d d' -> detail_of d' mid m = detail_of d mid m.
Proof. intros []. destruct d, d'. cbn in * |-. by subst. Qed.

Lemma call_message w w1 inboxID messageID x :
  cok w -> call w (λ h, MailboxService.GetMessage h inboxID messageID) = (w1, x) -> kept w w1 /\ cstore w1 = cstore w /\
  forall detail, x = Ok detail -> exists mid m, uuid_parse messageID = Some mid /\ own_message (uuid_parse inboxID) (cdb w) mid m /\
    detail = detail_of (cdb w) mid m.
Proof.
  intros Hok (d & E & HK)%call_lift; [|done]. apply GetMessage_reads in E as [HS Hx]. destruct (HK HS) as (K & Hst & _).
  split; [done|]. split; [done|]. intros detail ->. destruct (Hx _ eq_refl) as (mid & m & Hmid & Hm & Hi & ->). exists mid, m.
  rewrite (detail_of_same _ _ _ _ HS). split; [done|]. split; [|done]. split; [by rewrite <- (sm_messages _ _ HS)|done].
Qed.

(** ** Credentials *)

(** The principal that the token of the request was accepted for. *)
Definition cpresents (w : cweb) (scopes : list Z) (p : Principal) : Prop :=
  exists plaintext h, bearer r = Some plaintext /\ Capability.Authenticate (wb_host (cw_web w)) plaintext scopes = (h, Ok p).

Definition cserves (scopes : list Z) (w w' : cweb) (resp : cresponse S) : Prop :=
  cisolated None w w' resp \/ exists p, cpresents w scopes p /\ cisolated (uuid_parse (pl_InboxID p)) w w' resp.

(** The errors of an API show nothing. *)
Definition mute (mapped : goerr -> cresponse S) : Prop := forall e, csilent (xr_view (mapped e)).

Lemma duck_mute : mute duck_mapped.
Proof. intros e. unfold duck_mapped. by repeat case_match. Qed.
Lemma yyds_mute : mute yyds_mapped.
Proof. intros e. unfold yyds_mapped. by repeat case_match. Qed.
Lemma cf_mute : mute cf_mapped.
Proof. intros e. unfold cf_mapped. by repeat case_match. Qed.

Lemma authenticated_serves mapped plaintext scopes w k w' resp :
  mute mapped -> cok w -> bearer r = Some plaintext ->
  (forall w1 p, cok w1 -> k w1 p = (w', resp) -> cisolated (uuid_parse (pl_InboxID p)) w1 w' resp) ->
  try mapped (call w (λ h, Capability.Authenticate h plaintext scopes)) k = (w', resp) -> cserves scopes w w' resp.
Proof.
  intros Hm Hok Hb Hk. unfold try. destruct (call w _) as [w1 x] eqn:E. pose proof (call_inv _ _ _ _ E) as (h & Ef & _).
  destruct (call_reads _ _ _ _ _ Hok E Ef (Authenticate_same _ _ _ _ _ Ef)) as (HK & Hst & _).
  destruct x as [p|e]; [|intros [= <- <-]; left; apply cisolated_silent; [by apply kept_touches|apply Hm]].
  intros Hx. right. exists p. split; [by exists plaintext, h|]. eapply cisolated_after; [done..|]. apply Hk; [by eapply kept_ok|done].
Qed.

Lemma silent_serves scopes w w' resp : kept w w' -> csilent (xr_view resp) -> cserves scopes w w' resp.
Proof. intros HK Hs. left. apply cisolated_silent; [by apply kept_touches|done]. Qed.

Abbreviation creply := (cweb * cresponse S)%type.

Lemma duck_serves scopes w (k : cweb -> Principal -> creply) w' resp :
  cok w -> (forall w1 p, cok w1 -> k w1 p = (w', resp) -> cisolated (uuid_parse (pl_InboxID p)) w1 w' resp) ->
  duckPrincipal s r scopes w k = (w', resp) -> cserves scopes w w' resp.
Proof.
  intros Hok Hk. unfold duckPrincipal, duckMailEnabled. destruct (ad_duck _); [|intros [= <- <-]; by apply silent_serves].
  destruct (negb _); [intros [= <- <-]; by apply silent_serves|].
  destruct (bearer r) as [plaintext|] eqn:Eb; [|intros [= <- <-]; by apply silent_serves].
  apply authenticated_serves; [apply duck_mute|done..].
Qed.

Lemma yyds_serves scopes w (k : cweb -> Principal -> creply) w' resp :
  cok w -> (forall w1 p, cok w1 -> k w1 p = (w', resp) -> cisolated (uuid_parse (pl_InboxID p)) w1 w' resp) ->
  yydsPrincipal s r scopes w k = (w', resp) -> cserves scopes w w' resp.
Proof.
  intros Hok Hk. unfold yydsPrincipal, yydsEnabled. destruct (ad_yyds _); [|intros [= <- <-]; by apply silent_serves].
  destruct (negb _); [intros [= <- <-]; by apply silent_serves|]. unfold yydsBearer.
  destruct (bearer r) as [plaintext|] eqn:Eb; [|intros [= <- <-]; by apply silent_serves].
  apply authenticated_serves; [apply yyds_mute|done..].
Qed.

Lemma cf_enabled w (k : list bytes -> creply) w' resp (P : Prop) :
  (kept w w' -> csilent (xr_view resp) -> P) -> (forall domains, k domains = (w', resp) -> P) -> cloudflareTempEnabled s r w k = (w', resp) -> P.
Proof.
  intros Hs Hk. unfold cloudflareTempEnabled. destruct (ad_cloudflare _); [|intros [= <- <-]; by apply Hs].
  destruct (_ && _); [intros [= <- <-]; by apply Hs|apply Hk].
Qed.

Lemma cf_serves scopes w (k : cweb -> Principal -> creply) w' resp :
  cok w -> (forall w1 p, cok w1 -> k w1 p = (w', resp) -> cisolated (uuid_parse (pl_InboxID p)) w1 w' resp) ->
  cloudflareTempPrincipal s r scopes w k = (w', resp) -> cserves scopes w w' resp.
Proof.
  intros Hok Hk. apply cf_enabled; [by apply silent_serves|]. intros _.
  destruct (bearer r) as [plaintext|] eqn:Eb; [|intros [= <- <-]; by apply silent_serves].
  destruct (s_authenticator _); [|intros [= <- <-]; by apply silent_serves].
  apply authenticated_serves; [apply cf_mute|done..].
Qed.

(** ** Handlers *)

Lemma silent_isolated u w w' resp : kept w w' -> csilent (xr_view resp) -> cisolated u w w' resp.
Proof. intros HK. apply cisolated_silent. by apply kept_touches. Qed.

Lemma try_isolated {A} u mapped (x : cweb * res A) k w w' resp :
  mute mapped -> kept w x.1 -> (forall a, x.2 = Ok a -> k x.1 a = (w', resp) -> cisolated u w w' resp) ->
  try mapped x k = (w', resp) -> cisolated u w w' resp.
Proof.
  intros Hm HK Hk. destruct x as [w1 [a|e]]; cbn in *; [by apply Hk|]. intros [= <- <-]. apply silent_isolated; [done|apply Hm].
Qed.

Lemma try_error_isolated u mapped (x : cweb * option goerr) resp1 w w' resp :
  mute mapped -> touches u w x.1 -> csilent (xr_view resp1) -> try_error mapped x (λ w, (w, resp1)) = (w', resp) -> cisolated u w w' resp.
Proof. intros Hm HT Hs. destruct x as [w1 [e|]]; cbn in *; intros [= <- <-]; apply cisolated_silent; done || apply Hm. Qed.

Lemma shown u w w' v status : kept w w' -> cshows u (cdb w) (cstore w) (cw_tables w) (cw_tables w') v -> cisolated u w w' (reply_with status v).
Proof. intros HK Hs. split; [by apply kept_touches|done]. Qed.

Lemma own_inbox_same u d d' inbox : same_tables d d' -> own_inbox u d' inbox -> own_inbox u d inbox.
Proof. intros [E _ _ _ _ _ _ _]. unfold own_inbox. by rewrite E. Qed.

(** Reading the inbox of the token. *)
Lemma get_isolated u mapped inboxID w (body : Inbox -> view S) w' resp :
  mute mapped -> cok w -> u = uuid_parse inboxID ->
  (forall w' inbox, own_inbox u (cdb w) inbox -> cshows u (cdb w) (cstore w) (cw_tables w) (cw_tables w') (body inbox)) ->
  try mapped (call w (λ h, Get h inboxID)) (λ w inbox, (w, reply_with 200 (body inbox))) = (w', resp) -> cisolated u w w' resp.
Proof.
  intros Hm Hok -> Hb. destruct (call w _) as [w1 x] eqn:E. apply call_Get in E as (HK & Hst & Hx); [|done].
  apply try_isolated; [done..|]. cbn [fst snd]. intros inbox ->. intros [= <- <-]. apply shown; [done|]. apply Hb. by apply Hx.
Qed.

(** Reading the inbox and then a page. *)
Lemma page_isolated u mapped inboxID limit offset w (body : Inbox -> MessagePage -> view S) w' resp :
  mute mapped -> cok w -> u = uuid_parse inboxID ->
  (forall w' inbox page, own_inbox u (cdb w) inbox -> items_of (cdb w) u (mp_Items page) ->
    cshows u (cdb w) (cstore w) (cw_tables w) (cw_tables w') (body inbox page)) ->
  try mapped (call w (λ h, Get h inboxID)) (λ w inbox,
    try mapped (call w (lift (ListMessagePage inboxID limit offset))) (λ w page, (w, reply_with 200 (body inbox page)))) = (w', resp) ->
  cisolated u w w' resp.
Proof.
  intros Hm Hok -> Hb. destruct (call w _) as [w1 x] eqn:E. apply call_Get in E as (HK & Hst & Hx); [|done].
  apply try_isolated; [done..|]. cbn [fst snd]. intros inbox ->. specialize (Hx _ eq_refl).
  destruct (call w1 _) as [w2 y] eqn:E2. apply call_page in E2 as (HK2 & Hst2 & Hy); [|by eapply kept_ok].
  apply try_isolated; [done|by etrans|]. cbn [fst snd]. intros page ->. intros [= <- <-]. apply shown; [by etrans|]. apply Hb; [done|].
  eapply items_of_same; [apply HK|by apply Hy].
Qed.

(** Reading the message of the path and then the inbox. *)
Lemma message_isolated u mapped inboxID w (body : MessageDetail -> Inbox -> view S) w' resp :
  mute mapped -> cok w -> u = uuid_parse inboxID ->
  (forall w' detail inbox, own_inbox u (cdb w) inbox -> (exists mid m, path_message u (cdb w) mid m /\ detail = detail_of (cdb w) mid m) ->
    cshows u (cdb w) (cstore w) (cw_tables w) (cw_tables w') (body detail inbox)) ->
  try mapped (call w (λ h, MailboxService.GetMessage h inboxID (rq_id (xq_base r)))) (λ w detail,
    try mapped (call w (λ h, Get h inboxID)) (λ w inbox, (w, reply_with 200 (body detail inbox)))) = (w', resp) ->
  cisolated u w w' resp.
Proof.
  intros Hm Hok -> Hb. destruct (call w _) as [w1 x] eqn:E. apply call_message in E as (HK & Hst & Hx); [|done].
  apply try_isolated; [done..|]. cbn [fst snd]. intros detail ->. specialize (Hx _ eq_refl) as (mid & m & Hmid & Hown & Hd).
  destruct (call w1 _) as [w2 y] eqn:E2. apply call_Get in E2 as (HK2 & Hst2 & Hy); [|by eapply kept_ok].
  apply try_isolated; [done|by etrans|]. cbn [fst snd]. intros inbox ->. intros [= <- <-]. apply shown; [by etrans|]. apply Hb.
  - eapply own_inbox_same; [apply HK|by apply Hy].
  - by exists mid, m.
Qed.

Lemma message_id_path : message_id r = Some (rq_id (xq_base r)) \/ message_id r = None.
Proof. unfold message_id. destruct (uuid_parse _); by eauto. Qed.

(** A handler for the message of the path. *)
Lemma duck_message_serves scope w (k : cweb -> Principal -> MessageID -> creply) w' resp :
  cok w -> (forall w1 p, cok w1 -> k w1 p (rq_id (xq_base r)) = (w', resp) -> cisolated (uuid_parse (pl_InboxID p)) w1 w' resp) ->
  duckMessagePrincipal s r scope w k = (w', resp) -> cserves [scope] w w' resp.
Proof.
  intros Hok Hk. apply duck_serves; [done|]. intros w1 p Hok1. destruct message_id_path as [->| ->]; [by apply Hk|].
  intros [= <- <-]. by apply silent_isolated.
Qed.

Lemma yyds_message_serves scope w (k : cweb -> Principal -> MessageID -> creply) w' resp :
  cok w -> (forall w1 p, cok w1 -> k w1 p (rq_id (xq_base r)) = (w', resp) -> cisolated (uuid_parse (pl_InboxID p)) w1 w' resp) ->
  yydsMessagePrincipal s r scope w k = (w', resp) -> cserves [scope] w w' resp.
Proof.
  intros Hok Hk. apply yyds_serves; [done|]. intros w1 p Hok1. destruct message_id_path as [->| ->]; [by apply Hk|].
  intros [= <- <-]. by apply silent_isolated.
Qed.

(** Calls that change something. *)
Lemma delete_inbox_isolated mapped inboxID resp1 w w' resp :
  mute mapped -> cok w -> csilent (xr_view resp1) ->
  try_error mapped (call w (λ h, Delete h inboxID)) (λ w, (w, resp1)) = (w', resp) -> cisolated (uuid_parse inboxID) w w' resp.
Proof.
  intros Hm Hok Hs. apply try_error_isolated; [done| |done]. eapply (call_discard _ _ (λ _, DeleteInbox inboxID)); [done|apply surjective_pairing|].
  intros d y. by apply (DeleteInbox_confined q), Hok.
Qed.

Lemma delete_message_touches inboxID messageID w w1 x :
  cok w -> call w (λ h, MailboxService.DeleteMessage h inboxID messageID) = (w1, x) -> touches (uuid_parse inboxID) w w1.
Proof.
  intros Hok E. eapply (call_discard _ _ (λ _, MailboxRepo.DeleteMessage inboxID messageID)); [done..|].
  intros d y. by apply (DeleteMessage_confined q), Hok.
Qed.

Lemma delete_message_isolated mapped inboxID messageID resp1 w w' resp :
  mute mapped -> cok w -> csilent (xr_view resp1) ->
  try_error mapped (call w (λ h, MailboxService.DeleteMessage h inboxID messageID)) (λ w, (w, resp1)) = (w', resp) ->
  cisolated (uuid_parse inboxID) w w' resp.
Proof.
  intros Hm Hok Hs. apply try_error_isolated; [done| |done]. eapply delete_message_touches; [done|apply surjective_pairing].
Qed.

Lemma seen_isolated mapped inboxID messageID resp1 w w' resp :
  mute mapped -> cok w -> csilent (xr_view resp1) ->
  try_error mapped (call w (λ h, MailboxService.MarkMessageSeen h inboxID messageID)) (λ w, (w, resp1)) = (w', resp) ->
  cisolated (uuid_parse inboxID) w w' resp.
Proof.
  intros Hm Hok Hs. apply try_error_isolated; [done| |done].
  eapply (call_discard _ _ (λ h, MailboxRepo.MarkMessageSeen inboxID messageID (h_clock h))); [done|apply surjective_pairing|].
  intros d y. apply MarkMessageSeen_confined.
Qed.

(** ** Sources *)

Lemma file_of_quiet k k' i : quiet k k' -> file_of k' (NFile i) = file_of k (NFile i).
Proof. intros (E & _). unfold file_of. by rewrite E. Qed.

Lemma stored_quiet k k' key data : quiet k k' -> stored k' key = Some data -> stored k key = Some data.
Proof.
  intros HQ. unfold stored. destruct (relativePathForKey key) as [relative|]; [|done].
  destruct (d_tree k' !! _) as [[i|]|] eqn:E; [|done..]. pose proof HQ as (_ & _ & HT & _). apply HT in E. rewrite E.
  by rewrite (file_of_quiet _ _ _ HQ).
Qed.

Lemma source_of_same d d' k k' m data : same_tables d d' -> quiet k k' -> source_of d' k' m data -> source_of d k m data.
Proof. intros HS HQ [Hs1 Hs2]. split; [by eapply stored_quiet|]. by rewrite <- (sm_contents _ _ HS). Qed.

Lemma OpenRaw_stored ref k k' i :
  OpenRaw (s_content (xs_base s)) ref k = (k', Ok i) -> stored k (Key ref) = Some (f_data (file_of k (NFile i))).
Proof.
  unfold OpenRaw, OpenContent, stored. intros (k1 & ? & E1 & E)%bind_ok. apply quietly_ctx_err in E1.
  destruct (relativePathForKey (Key ref)) as [relative|]; [|done]. apply bind_ok in E as (k2 & ? & E2 & E).
  apply (quietly_wrap _ _ quietly_attempt) in E2. unfold wrap in E. destruct (open_file _ k2) as [k3 [j|]] eqn:Eo; [|done]. injection E as <- <-.
  apply open_file_ok in Eo. assert (quiet k k2) as (_ & _ & HT & _) by (by etrans). apply HT in Eo. by rewrite Eo.
Qed.

Lemma OpenRaw_quiet ref : quietly (OpenRaw (s_content (xs_base s)) ref).
Proof. unfold OpenRaw, OpenContent. quiet_io. Qed.

Lemma call_store_inv {A} w (f : host -> Store -> host * Store * A) w1 x :
  call_store w f = (w1, x) -> exists h st, f (wb_host (cw_web w)) (cstore w) = (h, st, x) /\ cdb w1 = h_db h /\
    cw_tables w1 = cascade (h_db h) (cw_tables w) /\ cstore w1 = st.
Proof.
  unfold call_store, on_store. fold (cstore w). destruct (f _ _) as [[h st] y]. intros [= <- <-]. by exists h, st.
Qed.

(** An open source of [u]: its recorded size, and the bytes of its object. *)
Definition opened (u : option uuid) (w : cweb) (messageID : MessageID) (source : RawSource) : Prop :=
  exists mid m, uuid_parse messageID = Some mid /\ own_message u (cdb w) mid m /\
    ct_size <$> contents (cdb w) !! ms_content m = Some (rs_Size source) /\
    stored (cdisk w) (ms_content m) = Some (f_data (file_of (cdisk w) (NFile (rs_Reader source)))).

Lemma open_source_reads w w1 inboxID messageID x :
  cok w -> open_source s w inboxID messageID = (w1, x) ->
  kept w w1 /\ forall source, x = Ok source -> opened (uuid_parse inboxID) w messageID source.
Proof.
  intros [Hh Hi Hr] (h & st & E & Hd & Ht & Hst)%call_store_inv. unfold OpenSource, lift in E. fold (cdb w) in E.
  destruct (GetMessageContent _ _ (cdb w)) as [d y] eqn:Ec. apply GetMessageContent_reads in Ec as [HS Hx].
  assert (h_db h = d /\ quiet (cdisk w) (st_disk st) /\ forall source, x = Ok source -> opened (uuid_parse inboxID) w messageID source) as (<- & HQ & Hs).
  { destruct y as [ref|e]; [|by injection E as <- <- <-]. destruct (OpenRaw _ _ _) as [k [i|e]] eqn:Eo; injection E as <- <- <-.
    - split; [done|]. split; [by eapply OpenRaw_quiet|]. intros source [= <-]. destruct (Hx _ eq_refl) as (mid & m & row & Hmid & Hm & Ho & Hrow & ->).
      apply OpenRaw_stored in Eo. exists mid, m. split; [done|]. split; [split; [by rewrite <- (sm_messages _ _ HS)|done]|].
      split; [by rewrite <- (sm_contents _ _ HS), Hrow|done].
    - split; [done|]. split; [by eapply OpenRaw_quiet|done]. }
  split; [|done]. split; [by rewrite Hd| |unfold cdisk; by rewrite Hst].
  rewrite Ht. apply (cascade_id (cstate w)); [apply Hh|done|done|apply HS|apply HS].
Qed.

Lemma call_disk_reads w w1 n i x :
  call_disk w (read_limited n i) = (w1, x) ->
  kept w w1 /\ forall data, x = Ok data -> data = take (Z.to_nat n) (f_data (file_of (cdisk w) (NFile i))).
Proof.
  unfold call_disk. fold (cstore w). fold (cdisk w). destruct (read_limited n i (cdisk w)) as [k y] eqn:E. intros [= <- <-].
  assert (quiet (cdisk w) k /\ forall data, y = Ok data -> data = take (Z.to_nat n) (f_data (file_of (cdisk w) (NFile i)))) as [HQ Hy].
  { unfold read_limited, bind in E. destruct (FileSystem.attempt (cdisk w)) as [k1 [u|e]] eqn:Ea; apply quietly_attempt in Ea; injection E as <- <-; [|done].
    split; [done|]. intros data [= <-]. unfold file_of. by rewrite (proj1 Ea). }
  split; [|done]. by split.
Qed.

(** A read of one byte more that has the recorded size read everything. *)
Lemma read_whole (f : bytes) (size : Z) : zlen (take (Z.to_nat (size + 1)) f) = size -> take (Z.to_nat (size + 1)) f = f.
Proof. unfold zlen. rewrite length_take. intros E. apply take_ge. lia. Qed.

(** The source of a message, read in full. *)
Lemma read_source_of u w w1 w2 messageID source x :
  opened u w messageID source -> kept w w1 -> call_disk w1 (read_limited (rs_Size source + 1) (rs_Reader source)) = (w2, x) ->
  kept w1 w2 /\ forall data, x = Ok data -> zlen data = rs_Size source ->
    exists mid m, uuid_parse messageID = Some mid /\ own_message u (cdb w) mid m /\ source_of (cdb w) (cdisk w) m data.
Proof.
  intros (mid & m & Hmid & Hm & Hc & Hst) HK [HK2 Hx]%call_disk_reads. split; [done|]. intros data -> Hz. specialize (Hx _ eq_refl).
  rewrite (file_of_quiet _ _ _ (kp_disk _ _ HK)) in Hx. exists mid, m. split; [done|]. split; [done|].
  rewrite Hx in Hz. apply read_whole in Hz as Hw. rewrite Hx. split; [by rewrite Hw|]. by rewrite Hz.
Qed.

Lemma source_isolated mapped failed inboxID w (body : bytes -> view S) w' resp :
  mute mapped -> csilent (xr_view failed) -> cok w ->
  (forall w' data, (exists mid m, path_message (uuid_parse inboxID) (cdb w) mid m /\ source_of (cdb w) (cdisk w) m data) ->
    cshows (uuid_parse inboxID) (cdb w) (cstore w) (cw_tables w) (cw_tables w') (body data)) ->
  try mapped (open_source s w inboxID (rq_id (xq_base r))) (λ w source,
    whole_source failed source w (λ w data, (w, reply_with 200 (body data)))) = (w', resp) ->
  cisolated (uuid_parse inboxID) w w' resp.
Proof.
  intros Hm Hf Hok Hb. destruct (open_source s w _ _) as [w1 x] eqn:E. apply open_source_reads in E as [HK Hx]; [|done].
  apply try_isolated; [done..|]. cbn [fst snd]. intros source ->. specialize (Hx _ eq_refl). unfold whole_source.
  destruct (call_disk w1 _) as [w2 y] eqn:E2. eapply read_source_of in E2 as [HK2 Hy]; [|done..].
  assert (kept w w2) as HK3 by (by etrans). destruct y as [data|e]; [|intros [= <- <-]; by apply silent_isolated].
  destruct (zlen data =? rs_Size source) eqn:Ez; cbn [negb]; [|intros [= <- <-]; by apply silent_isolated].
  intros [= <- <-]. apply shown; [done|]. apply Hb. apply Z.eqb_eq in Ez. destruct (Hy _ eq_refl Ez) as (mid & m & ? & ? & ?). by exists mid, m.
Qed.

(** ** Stable identifiers *)

Definition rows_same (a b : compat) : Prop :=
  tb_accounts (cm_tables b) = tb_accounts (cm_tables a) /\ tb_inbox_ids (cm_tables b) = tb_inbox_ids (cm_tables a) /\
  forall mid x, tb_message_ids (cm_tables b) !! mid = Some x -> tb_message_ids (cm_tables a) !! mid = Some x \/ length mid = 16%nat.

#[global] Instance rows_same_preorder : PreOrder rows_same.
Proof.
  split; [intros a; split; [done|]; split; [done|]; by left|]. intros a b c (A1 & A2 & A3) (B1 & B2 & B3). split; [congruence|].
  split; [congruence|]. intros mid x [Hx|Hx]%B3; [by apply A3|by right].
Qed.

Lemma state_rows a b : same_state a b -> rows_same a b.
Proof. intros [_ E]. unfold rows_same. rewrite E. split; [done|]. split; [done|]. by left. Qed.

Lemma insert_message_rows id mid a b x : length mid = 16%nat -> insert_message_id id mid a = (b, x) -> rows_same a b.
Proof.
  intros Hl [(a1 & u & E & Hx)|(e & E & ->)]%cbind_inv; apply cstatement_same, state_rows in E; [|done]. etrans; [done|].
  cbv zeta in Hx. destruct (messages (cm_db a1) !! mid) as [m|]; [|by injection Hx as <- <-]. destruct (negb _); [by injection Hx as <- <-|].
  destruct (tb_message_ids (cm_tables a1) !! mid); injection Hx as <- <-; (split; [done|]); (split; [done|]); cbn; [by left|].
  intros k y [[<- _]|[_ Hk]]%lookup_insert_Some; [by right|by left].
Qed.

Lemma ensure_message_rows inboxID messageID a b x : ensureCloudflareTempMessageID inboxID messageID a = (b, x) -> rows_same a b.
Proof.
  unfold ensureCloudflareTempMessageID, cast. destruct (uuid_parse inboxID) as [id|]; [|by intros [= <- <-]].
  destruct (uuid_parse messageID) as [mid|] eqn:Em; [|by intros [= <- <-]]. apply uuid_parse_length in Em.
  intros (a1 & E1%state_rows & [Hx|(-> & _)])%cquery_bind_inv; [|done]. etrans; [done|].
  destruct (message_id_of id mid a1); [by injection Hx as <- <-|].
  apply cbind_inv in Hx as [(a2 & inserted & E2 & Hx)|(e & E2 & ->)]; apply insert_message_rows in E2; try done. etrans; [done|].
  destruct inserted; [by injection Hx as <- <-|]. apply cquery_bind_inv in Hx as (a3 & E3%state_rows & [Hx|(-> & _)]); [|done].
  etrans; [done|]. destruct (message_id_of id mid a3); by injection Hx as <- <-.
Qed.

Lemma ensure_all_rows inboxID l : forall result a b x, ensure_all inboxID l result a = (b, x) -> rows_same a b.
Proof.
  induction l as [|key l IH]; intros result a b x; cbn [ensure_all]; [by intros [= <- <-]|].
  intros [(a1 & n & E & Hx)|(e & E & ->)]%cbind_inv; apply ensure_message_rows in E; [|done]. etrans; [done|by eapply IH].
Qed.

Lemma EnsureMessageIDs_rows inboxID l a b x : EnsureMessageIDs inboxID l a = (b, x) -> rows_same a b.
Proof.
  unfold EnsureMessageIDs. destruct l as [|k0 l0]; [by intros [= <- <-]|].
  intros [(_ & (_ & G1 & G2 & G3) & _)|(a1 & a2 & y & S1%state_rows & Hb & S2%state_rows & _)]%ctransaction_inv.
  - split; [done|]. split; [done|]. rewrite G3. by left.
  - apply ensure_all_rows in Hb. etrans; [done|]. by etrans.
Qed.

Lemma call_site_compat {A} w (m : CDB A) w1 x :
  call_site w (on_compat m) = (w1, x) -> m (cstate w) = (cstate w1, x) /\ cstore w1 = cstore w.
Proof.
  unfold call_site, on_compat. cbn [si_host si_tables]. fold (cdb w). fold (cstate w). destruct (m (cstate w)) as [[d t] y]. by intros [= <- <-].
Qed.

Lemma rows_refs a b : rows_same a b -> inboxes (cm_db b) = inboxes (cm_db a) -> refs_ok a -> refs_ok b.
Proof.
  intros (E1 & E2 & E3) E4 [R1 R2 R3]. split; rewrite ?E1, ?E2, ?E4; try done. intros mid x [Hx|Hx]%E3; [by eapply R3|done].
Qed.

Lemma assign_ids w w1 inboxID l x :
  cok w -> call_site w (on_compat (EnsureMessageIDs inboxID l)) = (w1, x) ->
  cok w1 /\ (forall u, touches u w w1) /\ same_tables (cdb w) (cdb w1) /\ cstore w1 = cstore w /\
  forall ids, x = Ok ids -> forall k, k ∈ l -> exists n, ids !! k = Some n /\ assigned inboxID k (cstate w1) n.
Proof.
  intros [Hh Hi Hr] [E Hst]%call_site_compat. pose proof (EnsureMessageIDs_rows _ _ _ _ _ E) as Hrows.
  apply EnsureMessageIDs_ok in E as [[A1 [A2 A2'] _ A4] Hx]; [|done]. cbn in A4.
  split; [split; [by eapply same_tables_healthy|done|]|]. { eapply rows_refs; [done|apply A4|done]. }
  split; [|done]. intros u. split; [by apply confined_tables|]. destruct Hrows as (R1 & R2 & _). cbn in R1, R2. split; rewrite ?R1, ?R2; try done.
  intros mid v n _ Hn. by eapply lookup_weaken.
Qed.

(** A number is resolved for the inbox it belongs to. *)
Lemma find_number w w1 inboxID n x :
  cok w -> call_site w (on_compat (FindMessageID inboxID n)) = (w1, x) -> kept w w1 /\ cstore w1 = cstore w /\
  forall messageID, x = Ok messageID -> exists id mid, uuid_parse inboxID = Some id /\ uuid_parse messageID = Some mid /\
    tb_message_ids (cw_tables w) !! mid = Some (id, n).
Proof.
  intros [Hh Hi Hr] [E Hst]%call_site_compat.
  assert (same_state (cstate w) (cstate w1) /\ forall messageID, x = Ok messageID -> exists id mid, uuid_parse inboxID = Some id /\ messageID = uuid_string mid /\
    tb_message_ids (cw_tables w) !! mid = Some (id, n)) as [HS Hx].
  { revert E. generalize (cstate w1) as b. intros b E. unfold FindMessageID, cast in E. destruct (n <=? 0); [by injection E as <- <-|].
    destruct (uuid_parse inboxID) as [id|]; [|by injection E as <- <-].
    apply cquery_bind_inv in E as (a1 & HS & [Hx|(-> & e & ->)]); [|done].
    destruct (mapped_message a1 id n) as [mid|] eqn:Em; injection Hx as <- <-; (split; [done|]); [|done].
    intros messageID [= <-]. exists id, mid. apply mapped_message_owner in Em. by rewrite (proj2 HS) in Em. }
  destruct HS as [HS HT]. split; [split; [done|done|unfold cdisk; by rewrite Hst]|]. split; [done|]. intros messageID ->.
  destruct (Hx _ eq_refl) as (id & mid & Hid & -> & Hn). exists id, mid. split; [done|]. split; [|done].
  apply uuid_parse_string. by eapply (rf_uuids _ Hr).
Qed.

(** ** Mails by number *)

Lemma read_raw_reads w w1 inboxID messageID payload x :
  cok w -> readCloudflareTempRaw s w inboxID messageID payload = (w1, x) -> kept w w1 /\
  forall raw total, x = Ok (raw, total) -> exists mid m, uuid_parse messageID = Some mid /\ own_message (uuid_parse inboxID) (cdb w) mid m /\
    source_of (cdb w) (cdisk w) m raw.
Proof.
  intros Hok. unfold readCloudflareTempRaw. destruct (open_source s w inboxID messageID) as [w2 y] eqn:E.
  apply open_source_reads in E as [HK Hy]; [|done]. destruct y as [source|e]; [|by intros [= <- <-]]. specialize (Hy _ eq_refl).
  destruct (_ || _); [by intros [= <- <-]|]. destruct (call_disk w2 _) as [w3 z] eqn:E2. eapply read_source_of in E2 as [HK2 Hz]; [|done..].
  assert (kept w w3) as HK3 by (by etrans). destruct z as [data|e]; [|by intros [= <- <-]].
  destruct (zlen data =? rs_Size source) eqn:Ez; cbn [negb]; intros [= <- <-]; (split; [done|]); [|done].
  intros raw total [= <- <-]. apply Z.eqb_eq in Ez. by apply Hz.
Qed.

(** Numbers for the messages of a page. *)
Definition page_numbers (inboxID : InboxID) (items : list MessageSummary) (ids : gmap bytes Z) (t : compat) : Prop :=
  forall item, item ∈ items -> exists n, ids !! su_ID item = Some n /\ assigned inboxID (su_ID item) t n.

Lemma page_numbers_kept inboxID items ids w w' : kept w w' -> page_numbers inboxID items ids (cstate w) -> page_numbers inboxID items ids (cstate w').
Proof. intros HK Hn item Hi. destruct (Hn item Hi) as (n & Hx & Ha). exists n. split; [done|]. unfold assigned in *. cbn in *. by rewrite (kp_rows _ _ HK). Qed.

Lemma numbered_item inboxID (items : list MessageSummary) ids w mid m item :
  page_numbers inboxID items ids (cstate w) -> item ∈ items -> uuid_parse (su_ID item) = Some mid ->
  own_message (uuid_parse inboxID) (cdb w) mid m ->
  numbered_mail (uuid_parse inboxID) (cdb w) (cw_tables w) (default 0 (ids !! su_ID item), detail_of (cdb w) mid m) m.
Proof.
  intros Hn Hi Hmid Hown. destruct (Hn item Hi) as (n & -> & id & mid' & Hid & Hmid' & Ht). assert (mid' = mid) as -> by congruence.
  exists id, mid. by rewrite Hid in *.
Qed.

Lemma numbered_mail_kept u w w' mail m :
  kept w w' -> numbered_mail u (cdb w') (cw_tables w') mail m -> numbered_mail u (cdb w) (cw_tables w) mail m.
Proof.
  intros [HS HT _] (id & mid & Hu & [Hm Ho] & Hd & Ht). exists id, mid. split; [done|]. split; [split; [by rewrite <- (sm_messages _ _ HS)|done]|].
  split; [by rewrite Hd, (detail_of_same _ _ _ _ HS)|]. by rewrite <- HT.
Qed.

Lemma raw_mails_shown inboxID ids items : forall payload w w' x,
  cok w -> page_numbers inboxID items ids (cstate w) -> raw_mails s inboxID ids items payload w = (w', x) -> kept w w' /\
  forall mails, x = Ok mails -> Forall (λ mail, exists m, numbered_mail (uuid_parse inboxID) (cdb w) (cw_tables w) mail.1 m /\
    source_of (cdb w) (cdisk w) m mail.2) mails.
Proof.
  induction items as [|item items IH]; intros payload w w' x Hok Hn; cbn [raw_mails].
  { intros [= <- <-]. split; [done|]. intros mails [= <-]. constructor. }
  destruct (call w _) as [w1 y] eqn:E1. apply call_message in E1 as (HK1 & _ & Hy); [|done].
  destruct y as [detail|e]; [|by intros [= <- <-]]. destruct (Hy _ eq_refl) as (mid & m & Hmid & Hown & ->). clear Hy.
  destruct (readCloudflareTempRaw s w1 _ _ _) as [w2 z] eqn:E2. apply read_raw_reads in E2 as [HK2 Hz]; [|by eapply kept_ok].
  assert (kept w w2) as HK by (by etrans). destruct z as [[raw total]|e]; [|by intros [= <- <-]].
  destruct (Hz _ _ eq_refl) as (mid2 & m2 & Hmid2 & [Hm2 _] & Hsrc). assert (mid2 = mid) as -> by congruence.
  assert (m2 = m) as -> by (rewrite (sm_messages _ _ (kp_tables _ _ HK1)) in Hm2; destruct Hown; congruence).
  destruct (raw_mails s inboxID ids items total w2) as [w3 v] eqn:E3. apply IH in E3 as [HK3 Hv]; [|by eapply kept_ok|].
  2:{ intros item' Hi. eapply page_numbers_kept; [done| |exact Hi]. intros i Hi'. apply Hn. by right. }
  assert (kept w w3) as HK4 by (by etrans). destruct v as [mails|e]; intros [= <- <-]; (split; [done|]); [|done].
  intros mails' [= <-]. constructor.
  - exists m. split; [eapply numbered_item; [done|by left|done|done]|]. eapply source_of_same; [apply HK1|apply HK1|done].
  - eapply Forall_impl; [by apply Hv|]. intros mail (m' & Hm' & Hs'). exists m'. split; [by eapply numbered_mail_kept; [exact HK|]|].
    eapply source_of_same; [apply HK|apply HK|done].
Qed.

Lemma parsed_mails_shown inboxID inbox ids items : forall payload w w' x,
  cok w -> page_numbers inboxID items ids (cstate w) -> parsed_mails inboxID inbox ids items payload w = (w', x) -> kept w w' /\
  forall mails, x = Ok mails -> Forall (λ mail, exists m, numbered_mail (uuid_parse inboxID) (cdb w) (cw_tables w) mail m) mails.
Proof.
  induction items as [|item items IH]; intros payload w w' x Hok Hn; cbn [parsed_mails].
  { intros [= <- <-]. split; [done|]. intros mails [= <-]. constructor. }
  destruct (call w _) as [w1 y] eqn:E1. apply call_message in E1 as (HK1 & _ & Hy); [|done].
  destruct y as [detail|e]; [|by intros [= <- <-]]. destruct (Hy _ eq_refl) as (mid & m & Hmid & Hown & ->). clear Hy. cbv zeta.
  destruct (_ <? _); [by intros [= <- <-]|].
  destruct (parsed_mails inboxID inbox ids items _ w1) as [w3 v] eqn:E3. apply IH in E3 as [HK3 Hv]; [|by eapply kept_ok|].
  2:{ intros item' Hi. eapply page_numbers_kept; [done| |exact Hi]. intros i Hi'. apply Hn. by right. }
  assert (kept w w3) as HK4 by (by etrans). destruct v as [mails|e]; intros [= <- <-]; (split; [done|]); [|done].
  intros mails' [= <-]. constructor; [exists m; eapply numbered_item; [done|by left|done|done]|].
  eapply Forall_impl; [by apply Hv|]. intros mail (m' & Hm'). exists m'. by eapply numbered_mail_kept; [exact HK1|].
Qed.

Lemma ctouches_trans u w w1 w' : touches u w w1 -> touches u w1 w' -> touches u w w'.
Proof. intros [C T] [C' T']. split; [by eapply confined_trans|by etrans]. Qed.

Lemma bounded_isolated u w w1 v w' resp :
  touches u w w1 -> cshows u (cdb w) (cstore w) (cw_tables w) (cw_tables w1) v -> bounded_json w1 v = (w', resp) -> cisolated u w w' resp.
Proof. intros HT Hs. unfold bounded_json. destruct (view_json v ≫= bounded_text); intros [= <- <-]; [by split|by apply cisolated_silent]. Qed.

(** A page of numbered mails. *)
Lemma mail_page_isolated {A : Type} (inboxID : InboxID) (limit offset : Z) (w : cweb) (load : cweb -> Inbox -> MessagePage -> gmap bytes Z -> cweb * res A)
    (body : Inbox -> MessagePage -> A -> view S) (w' : cweb) (resp : cresponse S) :
  cok w ->
  (forall w1 w2 inbox page ids x, cok w1 -> page_numbers inboxID (mp_Items page) ids (cstate w1) -> load w1 inbox page ids = (w2, x) ->
    kept w1 w2 /\ forall a d st, x = Ok a -> same_tables d (cdb w1) -> cstore w1 = st -> own_inbox (uuid_parse inboxID) d inbox ->
      cshows (uuid_parse inboxID) d st (cw_tables w) (cw_tables w1) (body inbox page a)) ->
  cloudflareTempMessagePage w inboxID limit offset (λ w inbox page ids,
    try cf_mapped (load w inbox page ids) (λ w a, bounded_json w (body inbox page a))) = (w', resp) ->
  cisolated (uuid_parse inboxID) w w' resp.
Proof.
  intros Hok Hl. unfold cloudflareTempMessagePage. destruct (call w _) as [w1 x] eqn:E1. apply call_Get in E1 as (HK1 & Hst1 & Hx); [|done].
  apply try_isolated; [apply cf_mute|done|]. cbn [fst snd]. intros inbox ->. specialize (Hx _ eq_refl).
  assert (cok w1) as Hok1 by (by eapply kept_ok).
  destruct (call w1 _) as [w2 y] eqn:E2. apply call_page in E2 as (HK2 & Hst2 & Hy); [|done]. assert (kept w w2) as HK by (by etrans).
  apply try_isolated; [apply cf_mute|done|]. cbn [fst snd]. intros page ->.
  destruct (call_site w2 _) as [w3 z] eqn:E3. apply assign_ids in E3 as (Hok3 & HT & HS3 & Hst3 & Hz); [|by eapply kept_ok].
  pose proof (touches_after (uuid_parse inboxID) _ _ _ HK (HT _)) as HT3. unfold try.
  destruct z as [ids|e]; [|intros [= <- <-]; apply cisolated_silent; [done|apply cf_mute]].
  destruct (load w3 inbox page ids) as [w4 v] eqn:E4. destruct (Hl _ _ _ _ _ _ Hok3 ltac:(intros item Hi; apply (Hz _ eq_refl), list_elem_of_fmap; by eauto) E4) as [HK4 Hv].
  assert (touches (uuid_parse inboxID) w w4) as HT4 by (eapply ctouches_trans; [done|by apply kept_touches]).
  destruct v as [a|e]; [|intros [= <- <-]; apply cisolated_silent; [done|apply cf_mute]].
  apply bounded_isolated; [done|]. rewrite (kp_rows _ _ HK4). apply Hv; [done| |congruence|done].
  etrans; [apply HK|done].
Qed.

(** One numbered mail. *)
Lemma one_mail_isolated inboxID w (k : cweb -> Inbox -> Z -> MessageID -> MessageDetail -> creply) w' resp :
  cok w ->
  (forall w1 inbox n messageID mid m, cok w1 -> kept w w1 -> cstore w1 = cstore w -> own_inbox (uuid_parse inboxID) (cdb w1) inbox ->
    uuid_parse messageID = Some mid -> own_message (uuid_parse inboxID) (cdb w1) mid m ->
    numbered_mail (uuid_parse inboxID) (cdb w1) (cw_tables w1) (n, detail_of (cdb w1) mid m) m ->
    k w1 inbox n messageID (detail_of (cdb w1) mid m) = (w', resp) -> cisolated (uuid_parse inboxID) w1 w' resp) ->
  one_mail r w inboxID k = (w', resp) -> cisolated (uuid_parse inboxID) w w' resp.
Proof.
  intros Hok Hk. unfold one_mail, heavy_request. destruct (_ <? _); [|intros [= <- <-]; by apply silent_isolated].
  unfold cloudflareTempMessageID. destruct (parse_int64 _) as [n|]; [|intros [= <- <-]; by apply silent_isolated].
  destruct (n <=? 0); [intros [= <- <-]; by apply silent_isolated|].
  destruct (call_site w _) as [w1 x] eqn:E1. apply find_number in E1 as (HK1 & Hst1 & Hx); [|done].
  destruct x as [messageID|e]; [|destruct (errors_is e _); intros [= <- <-]; apply silent_isolated; try done; apply cf_mute].
  destruct (Hx _ eq_refl) as (id & mid & Hid & Hmid & Hn). clear Hx. cbn [try].
  destruct (call w1 _) as [w2 y] eqn:E2. apply call_Get in E2 as (HK2 & Hst2 & Hy); [|by eapply kept_ok].
  assert (kept w w2) as HK by (by etrans). apply try_isolated; [apply cf_mute|done|]. cbn [fst snd]. intros inbox ->. specialize (Hy _ eq_refl).
  destruct (call w2 _) as [w3 z] eqn:E3. apply call_message in E3 as (HK3 & Hst3 & Hz); [|by eapply kept_ok].
  assert (kept w w3) as HK4 by (by etrans).
  destruct z as [detail|e]; [|destruct (errors_is e _); intros [= <- <-]; apply silent_isolated; try done; apply cf_mute].
  destruct (Hz _ eq_refl) as (mid2 & m & Hmid2 & Hown & Hd). assert (mid2 = mid) as -> by congruence.
  assert (cstore w3 = cstore w) as Hst by congruence.
  intros Hx. eapply cisolated_after; [exact HK4|done|].
  rewrite Hd, <- (detail_of_same _ _ _ _ (kp_tables _ _ HK3)) in Hx.
  assert (own_message (uuid_parse inboxID) (cdb w3) mid m) as Hown3 by (destruct Hown; split; [by rewrite (sm_messages _ _ (kp_tables _ _ HK3))|done]).
  eapply Hk; [by eapply kept_ok|done..| |done|done| |done].
  - eapply own_inbox_same; [|exact Hy]. symmetry. etrans; [apply HK2|apply HK3].
  - exists id, mid. split; [done|]. split; [done|]. split; [done|]. cbn. by rewrite (kp_rows _ _ HK4).
Qed.

(** ** Creation *)

(** An inbox that is not there has no rows, so keeping the rows of all others
    keeps every row. *)
Lemma fresh_touches id w w' : cok w -> inboxes (cdb w) !! id = None -> touches (Some id) w w' -> touches None w w'.
Proof.
  intros [Hh Hi [R1 R2 R3]] Hf [[C1 C2 C3] [T1 T2 T3]]. pose proof (fresh_no_messages _ _ (proj1 Hh) Hf) as Hno. cbn in R1, R2. split; split.
  - intros k row _ Hk. apply C1; [congruence|done].
  - intros mid m _ Hm. apply C2; [intros [= E]; by eapply Hno|done].
  - done.
  - intros k a _ Ha. apply T1; [|done]. intros [= ->]. destruct (R1 _ _ Ha). congruence.
  - intros k n _ Hn. apply T2; [|done]. intros [= ->]. destruct (R2 _ _ Hn). congruence.
  - intros mid v n _ Hn. apply T3; [|done]. intros [= ->]. destruct (io_owner _ Hi _ _ _ Hn) as (m & Hm & Ho). by eapply Hno.
Qed.

Lemma confined_weaken u d d' : confined None d d' -> confined u d d'.
Proof. intros [C1 C2 C3]. split; [intros k row _; by apply C1|intros mid m _; by apply C2|done]. Qed.

Lemma confined_owner u d d' mid m m' :
  confined u d d' -> messages d !! mid = Some m -> messages d' !! mid = Some m' -> ms_inbox m' = ms_inbox m.
Proof. intros [_ _ C3] Hm Hm'. destruct (C3 _ _ Hm') as (m0 & Hm0 & <-). congruence. Qed.

(** The state after a call that changes rows of one inbox. *)
Lemma call_ok {A} u w (f : host -> host * A) w1 x h :
  cok w -> call w f = (w1, x) -> f (wb_host (cw_web w)) = (h, x) -> confined u (cdb w) (h_db h) -> healthy q (h_db h) -> cok w1.
Proof.
  intros [Hh Hi Hr] (h' & E & Hd & Ht & Hst)%call_inv Ef HC Hh1. assert (h' = h) as -> by congruence.
  unfold cstate. split; unfold cstate; rewrite Hd, ?Ht; [done| |].
  - apply (cascade_ok (cstate w)); [|done]. intros mid m m'. by eapply confined_owner.
  - destruct Hr as [R1 R2 R3]. split; cbn; intros k x0 [Hk Hx]%map_lookup_filter_Some; [done..|]. by eapply R3.
Qed.

(** The site of the adapters, and back. *)
Definition site_of (w : cweb) : site := Site (wb_host (cw_web w)) (cw_tables w).
Definition at_site (w : cweb) (si : site) : cweb :=
  CWeb (Web (si_host si) (wb_store (cw_web w)) (wb_limiter (cw_web w)) (wb_heavy (cw_web w))) (si_tables si) (cw_heavy w).

Lemma site_at w si : site_of (at_site w si) = si.
Proof. by destruct si. Qed.

Lemma on_mailbox_call {A} w (f : host -> host * A) si x : on_mailbox f (site_of w) = (si, x) -> call w f = (at_site w si, x).
Proof. unfold on_mailbox, call, on_host. cbn. destruct (f _) as [h y]. by intros [= <- <-]. Qed.

Lemma on_compat_call {A} w (m : CDB A) si x : on_compat m (site_of w) = (si, x) -> call_site w (on_compat m) = (at_site w si, x).
Proof. unfold call_site. intros E. unfold site_of in E. by rewrite E. Qed.

Lemma EnsureInboxID_rows inboxID a b x : EnsureInboxID id inboxID a = (b, x) ->
  tb_accounts (cm_tables b) = tb_accounts (cm_tables a) /\ tb_message_ids (cm_tables b) = tb_message_ids (cm_tables a) /\
  forall k n, tb_inbox_ids (cm_tables b) !! k = Some n -> tb_inbox_ids (cm_tables a) !! k = Some n \/ is_Some (inboxes (cm_db b) !! k).
Proof.
  unfold EnsureInboxID, cast. destruct (uuid_parse inboxID) as [u|]; [|intros [= <- <-]; by eauto].
  destruct (cquery _ _ a) as [a1 y] eqn:E1. apply cquery_inv in E1 as [[_ T1] _].
  destruct y as [[n|]|e]; [intros [= <- <-]; rewrite T1; by eauto| |intros [= <- <-]; rewrite T1; by eauto].
  cbn [id]. destruct (cstatement _ a1) as [a2 y] eqn:E2. apply cstatement_same in E2 as [_ T2].
  destruct y as [v|e]; [|intros [= <- <-]; rewrite T2, T1; by eauto]. cbv zeta.
  destruct (inboxes (cm_db a2) !! u) as [row|] eqn:Ei; [|intros [= <- <-]; cbn; rewrite T2, T1; by eauto].
  destruct (tb_inbox_ids (cm_tables a2) !! u) as [n|] eqn:En.
  - cbn [id]. destruct (cquery _ _ (Compat _ _)) as [a3 y] eqn:E3. apply cquery_inv in E3 as [[_ T3] _]. cbn in T3.
    intros Hx. assert (b = a3) as -> by (destruct y as [[m|]|e]; by injection Hx as <- <-). rewrite T3. cbn. rewrite T2, T1. by eauto.
  - intros [= <- <-]. cbn. rewrite T2, T1. split; [done|]. split; [done|]. intros k n [[<- _]|[_ Hk]]%lookup_insert_Some; [right; by rewrite Ei|by left].
Qed.

Lemma assign_inbox_id u w w1 inboxID x :
  cok w -> call_site w (on_compat (EnsureInboxID id inboxID)) = (w1, x) -> cok w1 /\ touches u w w1.
Proof.
  intros [Hh Hi Hr] [E _]%call_site_compat. pose proof (EnsureInboxID_rows _ _ _ _ E) as (R1 & R2 & R3).
  apply EnsureInboxID_alone in E as (Hi1 & [X1 X2] & HS); [|done]. cbn in HS, R1, R2, R3, X2. destruct Hr as [Q1 Q2 Q3]. cbn in Q1, Q2, Q3. split.
  - split; [by eapply same_tables_healthy|done|]. split; cbn.
    + rewrite R1, (sm_inboxes _ _ HS). done.
    + intros k n [Hk|Hk]%R3; [|done]. rewrite (sm_inboxes _ _ HS). by eapply Q2.
    + by rewrite R2.
  - split; [by apply confined_tables|]. split; rewrite ?R1, ?R2; try done. intros k n _ Hk. by eapply lookup_weaken.
Qed.

Lemma CreateAddress_touches w w1 name domain x :
  sound q (wb_host (cw_web w)) -> cok w -> call_site w (CreateAddress (xs_service s) id name domain) = (w1, x) ->
  touches None w w1 /\ forall created, x = Ok created -> fresh_inbox (cdb w) (cd_Inbox created).
Proof.
  intros Hs Hok. unfold call_site. fold (site_of w). intros E. apply pair_equal_spec in E as [E1 E2]. fold (at_site w (CreateAddress (xs_service s) id name domain (site_of w)).1) in E1.
  destruct (CreateAddress _ _ _ _ _) as [si y] eqn:E. cbn [fst snd] in E1, E2. subst w1 y.
  assert (touches None w w) as Hrefl by (by apply kept_touches). assert (at_site w (site_of w) = w) as Hid by (by destruct w as [[] ? ?]).
  unfold CreateAddress in E. cbv zeta in E. destruct (_ && _); [by injection E as <- <-; rewrite Hid|].
  destruct (on_mailbox _ (site_of w)) as [si1 y] eqn:E1. apply on_mailbox_call in E1. set (w1 := at_site w si1) in *.
  pose proof (call_inv _ _ _ _ E1) as (h & Ef & _). pose proof (Create_confined q _ _ _ _ _ Hs Ef) as [HC Hc].
  pose proof (call_touches None _ _ _ _ _ Hok E1 Ef HC) as HT1. destruct y as [created|e]; [|by injection E as <- <-].
  destruct (Hc _ eq_refl) as (u & row & Hib & Hfresh & Hlen & Hh1). pose proof (call_ok None _ _ _ _ _ Hok E1 Ef HC Hh1) as Hok1.
  rewrite <- (site_at w si1) in E. fold w1 in E. destruct (on_compat _ (site_of w1)) as [si2 y] eqn:E2. apply on_compat_call in E2.
  set (w2 := at_site w1 si2) in *. apply (assign_inbox_id (Some u)) in E2 as [Hok2 HT2]; [|done].
  assert (touches (Some u) w w2) as HT.
  { eapply ctouches_trans; [|done]. destruct HT1 as [C [T1 T2 T3]]. split; [by apply confined_weaken|]. split; by eauto. }
  destruct y as [addressID|e].
  { injection E as <- <-. split; [by apply (fresh_touches u)|]. intros c [= <-]. exists u, row. by rewrite <- Hib. }
  rewrite <- (site_at w1 si2) in E. fold w2 in E. destruct (on_mailbox _ (site_of w2)) as [si3 z] eqn:E3. apply on_mailbox_call in E3.
  assert (touches (Some u) w2 (at_site w2 si3)) as HT3.
  { rewrite Hib in E3. cbn [ib_ID inbox_of] in E3. rewrite <- (uuid_parse_string u Hlen).
    eapply (call_discard _ _ (λ _, DeleteInbox (uuid_string u))); [done..|]. intros d v. by apply (DeleteInbox_confined q), Hok2. }
  assert (touches None w (at_site w2 si3)) as HT4 by (apply (fresh_touches u); [done|done|by eapply ctouches_trans]).
  destruct z; by injection E as <- <-.
Qed.

(** An account is added beside the others. *)
Lemma insert_inbox_rows account a b x : insert_account_inbox account a = (b, x) -> cm_tables b = cm_tables a.
Proof.
  intros [(a1 & u & E & Hx)|(e & E & ->)]%cbind_inv; apply cstatement_same in E as [_ T]; [|done]. rewrite <- T. cbv zeta in Hx.
  destruct (negb _); [by injection Hx as <- <-|]. destruct (find_address (cm_db a1) _); [by injection Hx as <- <-|].
  destruct (inboxes (cm_db a1) !! _); by injection Hx as <- <-.
Qed.

Lemma insert_credential_rows inboxID account a b x :
  insert_credential inboxID account a = (b, x) -> tb_accounts (cm_tables a) ⊆ tb_accounts (cm_tables b).
Proof.
  unfold insert_credential, cast. destruct (uuid_parse inboxID) as [id|]; [|by intros [= <- <-]].
  intros [(a1 & u & E & Hx)|(e & E & ->)]%cbind_inv; apply cstatement_same in E as [_ T]; rewrite <- T; [|done]. cbv zeta in Hx.
  destruct (negb _); [by injection Hx as <- <-|]. destruct (inboxes (cm_db a1) !! id); [|by injection Hx as <- <-].
  destruct (tb_accounts (cm_tables a1) !! id) eqn:Eu; injection Hx as <- <-; [done|]. cbn. by apply insert_subseteq.
Qed.

Lemma create_account_rows account a b x : create_account_body account a = (b, x) -> tb_accounts (cm_tables a) ⊆ tb_accounts (cm_tables b).
Proof.
  intros [(a1 & inbox & E & Hx)|(e & E & ->)]%cbind_inv; apply insert_inbox_rows in E as <-; [|done].
  apply cbind_inv in Hx as [(a2 & v & E2 & Hx)|(e & E2 & ->)]; apply insert_credential_rows in E2; [|done]. by injection Hx as <- <-.
Qed.

Lemma CreateAccount_rows account a b x : CreateAccount account a = (b, x) -> tb_accounts (cm_tables a) ⊆ tb_accounts (cm_tables b).
Proof.
  intros [(_ & (_ & -> & _) & _)|(a1 & a2 & y & [_ T1] & Hb & [_ T2] & _)]%ctransaction_inv; [done|].
  apply create_account_rows in Hb. by rewrite T2, <- T1.
Qed.

Lemma DuckCreateAccount_touches service w w1 request x :
  call_site w (DuckCreateAccount service (xq_kdf r) request) = (w1, x) ->
  touches None w w1 /\ forall inbox, x = Ok inbox -> fresh_inbox (cdb w) inbox.
Proof.
  unfold call_site. fold (site_of w). intros E. apply pair_equal_spec in E as [E1 E2].
  fold (at_site w (DuckCreateAccount service (xq_kdf r) request (site_of w)).1) in E1.
  destruct (DuckCreateAccount _ _ _ _) as [si y] eqn:E. cbn [fst snd] in E1, E2. subst w1 y.
  assert (touches None w (at_site w (site_of w))) as Hrefl by (by apply kept_touches).
  unfold DuckCreateAccount in E. destruct (validateAddress _ _) as [address|]; [|by injection E as <- <-].
  destruct (_ || _); [by injection E as <- <-|]. destruct (account_lifetime _ _) as [lifetime|]; [|by injection E as <- <-].
  destruct (xq_kdf r); [by injection E as <- <-|]. destruct (hashPassword _ _) as [[hash rest]|]; [|by injection E as <- <-].
  unfold on_compat in E. cbn [si_host si_tables site_of take_random h_db] in E. fold (cdb w) in E. fold (cstate w) in E.
  destruct (CreateAccount _ (cstate w)) as [b y] eqn:Ec. injection E as <- <-.
  pose proof (CreateAccount_rows _ _ _ _ Ec) as HR. pose proof (CreateAccount_beside _ _ _ _ Ec) as [B1 B2 B3 B4 _ _]. cbn in HR, B1, B2, B3, B4. split.
  - split; split; cbn.
    + intros k row _ Hk. by eapply lookup_weaken.
    + unfold cdb. cbn. by rewrite B1.
    + unfold cdb. cbn. rewrite B1. by eauto.
    + intros k a _ Ha. by eapply lookup_weaken.
    + by rewrite B4.
    + by rewrite B3.
  - intros inbox ->. apply CreateAccount_ok in Ec as (u & _ & -> & Hn & _). by eexists _, _.
Qed.

(** ** Tokens *)

(** Rotation writes capabilities only. *)
Lemma rotate_body_mail u c t d d' x : rotate_body u c t d = (d', x) -> mail_same d d'.
Proof.
  unfold rotate_body. intros (d1 & S1%mail_same_tables & [Hx|(-> & _)])%query_reads; [|done]. eapply mail_same_trans; [done|]. clear S1 d.
  destruct (match capabilities d1 !! u with Some _ => _ | None => _ end) as [[current ib]|]; [|by injection Hx as <- <-].
  destruct (cp_revoked current); [by injection Hx as <- <-|]. destruct (_ || _); [by injection Hx as <- <-|].
  destruct (scopeSetFromDatabase _) as [scopes|]; [|by injection Hx as <- <-]. cbv zeta in Hx.
  apply dbind_inv in Hx as [(d2 & v & E2 & Hx)|(e & E2 & ->)]; apply statement_same in E2 as [S2%mail_same_tables _]; [|done].
  eapply mail_same_trans; [done|]. apply dbind_inv in Hx as [(d3 & v3 & E3 & Hx)|(e & E3 & ->)].
  - assert (mail_same d2 d3) as M3 by (destruct (negb _); by simplify_eq). eapply mail_same_trans; [done|].
    apply dbind_inv in Hx as [(d4 & v4 & E4 & Hx)|(e & E4 & ->)]; apply statement_same in E4 as [S4%mail_same_tables _]; [|done].
    eapply mail_same_trans; [done|]. destruct (insert_capability _ d4) as [d5 y] eqn:E5. apply insert_capability_frame in E5.
    destruct y; by injection Hx as <- <-.
  - destruct (negb _); by simplify_eq.
Qed.

Lemma RotateCapability_mail id c t d d' x : RotateCapability id c t d = (d', x) -> mail_same d d'.
Proof.
  unfold RotateCapability. destruct (uuid_parse id) as [u|]; [|by intros [= <- <-]].
  destruct (validateReplacementCapability _ _); [by intros [= <- <-]|].
  intros [(S0 & _)|(d1 & d2 & y & S1 & _ & Hb & S2 & _)]%transaction_inv; [by apply mail_same_tables|].
  apply rotate_body_mail in Hb. eapply mail_same_trans; [by apply mail_same_tables|]. eapply mail_same_trans; [done|by apply mail_same_tables].
Qed.

Lemma rotate_loop_mail n (h h' : host) id x : rotate_loop n h id = (h', x) -> mail_same (h_db h) (h_db h').
Proof.
  revert h. induction n as [|n IH]; intros h; cbn [rotate_loop]; [by intros [= <- <-]|].
  destruct (host_generate h TokenCapability) as [h1 y] eqn:Eg.
  assert (h_db h1 = h_db h) as <-. { cbn in Eg. unfold GenerateToken in Eg. destruct (generateToken _ _) as [[t rest]|]; by injection Eg as <- <-. }
  destruct y as [t|e]; [|by intros [= <- <-]]. destruct (Token.Digest t) as [digest|]; [|by intros [= <- <-]]. cbv zeta.
  destruct (cap_rotate h1 _ _ _) as [h2 z] eqn:Er.
  assert (mail_same (h_db h1) (h_db h2)) as M.
  { cbn in Er. unfold lift in Er. destruct (RotateCapability _ _ _ _) as [d v] eqn:E. injection Er as <- <-. by eapply RotateCapability_mail. }
  destruct z as [record|e]; [destruct (Encode t); by intros [= <- <-]|]. destruct (errors_is e _); [|by intros [= <- <-]].
  intros Hx%IH. by eapply mail_same_trans.
Qed.

Lemma resolve_same (h h' : host) plaintext x : resolve h plaintext = (h', x) -> same_tables (h_db h) (h_db h').
Proof.
  unfold resolve. destruct (ParseToken plaintext) as [token|]; [|by intros [= <- <-]]. destruct (negb (bool_decide _)); [by intros [= <- <-]|].
  cbn [cap_find db_capability_repository]. unfold lift. destruct (FindCapabilityByKID _ _) as [d y] eqn:E. apply find_same in E.
  intros Hx. repeat case_match; by simplify_eq.
Qed.

(** A refresh is a request of the token's inbox. *)
Lemma RefreshToken_reads (h h' : host) plaintext address x :
  RefreshToken plaintext address h = (h', x) -> mail_same (h_db h) (h_db h') /\
  forall issued inbox, x = Ok (issued, inbox) -> exists h1 p, Capability.Authenticate h plaintext [ScopeInboxRead] = (h1, Ok p) /\
    own_inbox (uuid_parse (pl_InboxID p)) (h_db h) inbox.
Proof.
  unfold RefreshToken. destruct (Capability.Authenticate h plaintext _) as [h1 y] eqn:E1. pose proof (Authenticate_same _ _ _ _ _ E1) as S1.
  destruct y as [p|e]; [|intros [= <- <-]; split; [by apply mail_same_tables|done]].
  unfold Get, lift. destruct (GetInbox _ _) as [d z] eqn:E2. apply GetInbox_reads in E2 as [S2 Hz].
  assert (same_tables (h_db h) d) as S3 by (by etrans).
  destruct z as [inbox|e]; [|intros [= <- <-]; split; [by apply mail_same_tables|done]].
  destruct (negb _); [intros [= <- <-]; split; [by apply mail_same_tables|done]|].
  unfold Rotate. destruct (resolve _ plaintext) as [h2 v] eqn:E3. apply resolve_same in E3. cbn in E3.
  assert (same_tables (h_db h) (h_db h2)) as S4 by (by etrans).
  destruct v as [record|e]; [|intros [= <- <-]; split; [by apply mail_same_tables|done]].
  destruct (rotate_loop _ h2 _) as [h3 v] eqn:E4. apply rotate_loop_mail in E4.
  assert (mail_same (h_db h) (h_db h3)) as M by (eapply mail_same_trans; [by apply mail_same_tables|done]).
  destruct v as [issued|e]; intros [= <- <-]; (split; [done|]); [|done]. intros i ib [= <- <-]. exists h1, p. split; [done|].
  destruct (Hz _ eq_refl) as (id & row & -> & Hr & ->). exists id, row. by rewrite (sm_inboxes _ _ S3) in Hr.
Qed.

Lemma FindAccount_reads address a b x : inv_db (cm_db a) -> FindAccountByAddress address a = (b, x) ->
  same_state a b /\ inv_db (cm_db b) /\ forall account, x = Ok account -> live_account a address = Some account.
Proof.
  intros Hi E. unfold FindAccountByAddress, cquery in E.
  apply cbind_inv in E as [(a1 & found & E & Hx)|(e & E & ->)].
  - apply cbind_inv in E as [(a2 & v & E & Hy)|(e & E & [=])]. injection Hy as <- <-. pose proof (cstatement_same _ _ _ _ E) as HS.
    unfold cstatement in E. destruct (statement _ (cm_db a)) as [d y] eqn:Es. apply statement_view in Es as (Hi' & _); [|done]. injection E as <- ->.
    destruct (live_account _ _) as [account|] eqn:El; injection Hx as <- <-; (split; [done|]); (split; [done|]); [|done].
    intros ? [= <-]. rewrite <- El. destruct HS as [HS HT]. cbn in HS. unfold live_account. cbn [cm_db cm_tables].
    destruct HS, a as [da t], da, d. cbn in * |-. by subst.
  - apply cbind_inv in E as [(a2 & v & E & Hy)|(e' & E & [= ->])]; [done|]. pose proof (cstatement_same _ _ _ _ E) as HS.
    unfold cstatement in E. destruct (statement _ (cm_db a)) as [d y] eqn:Es. apply statement_view in Es as (Hi' & _); [|done]. by injection E as <- ->.
Qed.

(** A token for the account whose password was given. *)
Lemma DuckLogin_reads service address password w w1 x :
  sound q (wb_host (cw_web w)) -> cok w -> call_site w (DuckLogin service (xq_kdf r) address password) = (w1, x) ->
  touches None w w1 /\ forall issued, x = Ok issued -> exists account id,
    live_account (cstate w) (to_lower (trim_space address)) = Some account /\ verifyPassword (an_PasswordHash account) password = true /\
    uuid_parse (ib_ID (an_Inbox account)) = Some id /\ ic_InboxID issued = uuid_string id.
Proof.
  intros Hs Hok. unfold call_site. fold (site_of w). intros E. apply pair_equal_spec in E as [E1 E2].
  fold (at_site w (DuckLogin service (xq_kdf r) address password (site_of w)).1) in E1.
  destruct (DuckLogin _ _ _ _ _) as [si y] eqn:E. cbn [fst snd] in E1, E2. subst w1 y. unfold DuckLogin in E. cbv zeta in E.
  destruct (on_compat _ (site_of w)) as [si1 y] eqn:E1. apply on_compat_call, call_site_compat in E1 as [E1 Hst]. set (w1 := at_site w si1) in *.
  apply FindAccount_reads in E1 as ([HS HT] & Hi1 & Hy); [|apply Hs]. cbn in HS, HT, Hi1.
  assert (kept w w1) as HK by (split; [done|done|unfold cdisk; by rewrite Hst]). pose proof (kept_touches None _ _ HK) as HT1.
  destruct y as [account|e]; [|destruct (xq_kdf r); by injection E as <- <-]. specialize (Hy _ eq_refl).
  destruct (xq_kdf r); [by injection E as <- <-|]. destruct (verifyPassword _ _) eqn:Ev; cbn [negb] in E; [|by injection E as <- <-].
  destruct (NewScopeSet allScopes) as [scopes|]; [|by injection E as <- <-].
  rewrite <- (site_at w si1) in E. fold w1 in E. destruct (on_mailbox _ (site_of w1)) as [si2 z] eqn:E2. apply on_mailbox_call in E2.
  pose proof (call_inv _ _ _ _ E2) as (h & Ef & _). pose proof (kept_ok _ _ HK Hok) as Hok1.
  assert (mail_same (cdb w1) (h_db h) /\ forall issued, z = Ok issued -> exists id, uuid_parse (ib_ID (an_Inbox account)) = Some id /\ ic_InboxID issued = uuid_string id) as [[M1 M2 _] Hz].
  { unfold Issue, issue in Ef. destruct (uuid_parse (ib_ID _)) as [id|] eqn:Eu; [|by injection Ef as <- <-].
    destruct (ScopeSetFromMask _); [|by injection Ef as <- <-]. destruct (_ || _); [by injection Ef as <- <-|].
    apply (issue_frame _ _ _ _ _ id) in Ef as (_ & HM & _ & Hx); [|exact Hi1|done]. split; [done|]. intros issued ->. exists id. split; [done|by apply Hx]. }
  assert (touches None w (at_site w1 si2)) as HT2.
  { eapply touches_after; [done|]. by eapply (call_touches None _ _ _ _ h); [done..|apply confined_same]. }
  destruct z as [issued|e]; injection E as <- <-; (split; [done|]); [|done]. intros i [= <-]. destruct (Hz _ eq_refl) as (id & Hu & Hid).
  by exists account, id.
Qed.

(** ** Admission *)

Lemma limited_isolated u w refused k w' resp :
  csilent (xr_view refused) ->
  (forall w1, kept w w1 -> cstore w1 = cstore w -> wb_host (cw_web w1) = wb_host (cw_web w) -> k w1 = (w', resp) -> cisolated u w1 w' resp) ->
  limited s r w refused k = (w', resp) -> cisolated u w w' resp.
Proof.
  intros Hr Hk. unfold limited. destruct (allow _ _ _) as [limiter allowed]. set (w1 := with_web _ _).
  assert (kept w w1) as HK by (by split). destruct (negb allowed); [intros [= <- <-]; by apply silent_isolated|].
  intros Hx. eapply cisolated_after; [done|done|]. by apply Hk.
Qed.

(** What the answer to a creation shows. *)
Definition created_view (d : db) (v : view S) : Prop :=
  match v with
  | VDuckAccount inbox | VYydsAccount inbox _ => fresh_inbox d inbox
  | VCfAddress created => fresh_inbox d (cd_Inbox created)
  | _ => csilent v
  end.

Lemma created_shows d st t t' v : created_view d v -> cshows None d st t t' v.
Proof. destruct v; try done; intros Hv; first [by right|by split]. Qed.

Lemma created_same d d' v : inboxes d' = inboxes d -> created_view d' v -> created_view d v.
Proof. intros E. destruct v; try done; unfold created_view, fresh_inbox; by rewrite E. Qed.

Lemma silent_created d v : csilent v -> created_view d v.
Proof. by destruct v. Qed.

Lemma create_try {A} mapped (x : cweb * res A) status (body : A -> view S) w w' resp :
  mute mapped -> touches None w x.1 -> (forall a, x.2 = Ok a -> created_view (cdb w) (body a)) ->
  try mapped x (λ w a, (w, reply_with status (body a))) = (w', resp) -> touches None w w' /\ created_view (cdb w) (xr_view resp).
Proof.
  intros Hm HT Hb. destruct x as [w1 [a|e]]; cbn in *; intros [= <- <-]; (split; [done|]); [by apply Hb|]. apply silent_created, Hm.
Qed.

Lemma admitted_isolated w exceeded failed k w' resp :
  csilent (xr_view exceeded) -> csilent (xr_view failed) -> sound q (wb_host (cw_web w)) -> cok w ->
  (forall w1 resp1, sound q (wb_host (cw_web w1)) -> cok w1 -> k w1 = (w', resp1) -> touches None w1 w' /\ created_view (cdb w1) (xr_view resp1)) ->
  admitted s r w exceeded failed k = (w', resp) -> cisolated None w w' resp.
Proof.
  intros He Hf Hs Hok Hk. unfold admitted. destruct (consumeCreateQuota _ _ _) as [x [decision err]] eqn:Eq.
  destruct (quota_frame q _ _ _ _ _ Hs Eq) as (Hs1 & [M1 M2 _] & Hst). set (w1 := with_web w x). fold (cdb w) in M1, M2.
  change (HttpFacts.db_of x) with (cdb w1) in M1, M2. destruct Hok as [Hh Hi [R1 R2 R3]].
  assert (cok w1) as Hok1.
  { split; [apply Hs1| |]; [|split; cbn; unfold cdb in *; rewrite ?M1; done].
    destruct Hi. split; try done. cbn in *. by rewrite M2. }
  assert (touches None w w1) as HT by (split; [by apply confined_same|done]). destruct err as [e|].
  { intros [= <- <-]. apply cisolated_silent; [done|]. cbn. by destruct (errors_is e _). }
  destruct (k w1) as [w2 resp1] eqn:Ek. intros [= <- <-]. destruct (Hk w1 _ Hs1 Hok1 Ek) as [HT2 Hv]. split; [by eapply ctouches_trans|].
  cbn. apply created_shows. by eapply created_same.
Qed.

(** ** The routes *)

Lemma duck_accounts_isolated w w' resp :
  sound q (wb_host (cw_web w)) -> cok w -> handleDuckMailCreateAccount s r w = (w', resp) -> cisolated None w w' resp.
Proof.
  intros Hs Hok. unfold handleDuckMailCreateAccount, duckMailEnabled. destruct (ad_duck _) as [service|]; [|intros [= <- <-]; by apply silent_isolated].
  apply limited_isolated; [done|]. intros w1 HK _ Hh. unfold decodeDuckJSON.
  destruct (decode_body _ _ _ _) as [[[address password] expiresIn]|[]]; [|intros [= <- <-]; by apply silent_isolated..].
  apply admitted_isolated; [done|done|by rewrite Hh|by eapply kept_ok|]. intros w2 resp1 Hs2 Hok2.
  destruct (call_site w2 _) as [w3 x] eqn:E. apply DuckCreateAccount_touches in E as [HT Hx].
  apply create_try; [apply duck_mute|done|exact Hx].
Qed.

Lemma yyds_accounts_isolated w w' resp :
  sound q (wb_host (cw_web w)) -> cok w -> handleYYDSCreateAccount s r w = (w', resp) -> cisolated None w w' resp.
Proof.
  intros Hs Hok. unfold handleYYDSCreateAccount, yydsEnabled. destruct (ad_yyds _) as [service|]; [|intros [= <- <-]; by apply silent_isolated].
  apply limited_isolated; [done|]. intros w1 HK _ Hh. unfold decodeYYDSJSON.
  destruct (decode_body _ _ _ _) as [[request [[a b] c]]|[]]; [|intros [= <- <-]; by apply silent_isolated..].
  destruct (_ || _); [intros [= <- <-]; by apply silent_isolated|].
  apply admitted_isolated; [done|done|by rewrite Hh|by eapply kept_ok|]. intros w2 resp1 Hs2 Hok2.
  destruct (call w2 _) as [w3 x] eqn:E. pose proof (call_inv _ _ _ _ E) as (h & Ef & _).
  assert (confined None (cdb w2) (h_db h) /\ forall created, x = Ok created -> fresh_inbox (cdb w2) (ci_Inbox created)) as [HC Hx].
  { unfold YydsCreateAccount in Ef. destruct (yyds_names request) as [[localPart domain]|]; [|injection Ef as <- <-; split; [by apply confined_same|done]].
    apply (Create_confined q) in Ef as [HC Hc]; [|done]. split; [done|]. intros created ->. destruct (Hc _ eq_refl) as (id & row & ? & ? & _). by exists id, row. }
  apply create_try; [apply yyds_mute| |exact Hx]. by eapply call_touches.
Qed.

Lemma cf_addresses_isolated w w' resp :
  sound q (wb_host (cw_web w)) -> cok w -> handleCloudflareTempCreateAddress s r w = (w', resp) -> cisolated None w w' resp.
Proof.
  intros Hs Hok. apply cf_enabled; [by apply silent_isolated|]. intros _.
  apply limited_isolated; [done|]. intros w1 HK _ Hh. unfold decodeCloudflareTempJSON.
  destruct (decode_body _ _ _ _) as [[[name domain] []]|]; [intros [= <- <-]; by apply silent_isolated| |intros [= <- <-]; by apply silent_isolated].
  apply admitted_isolated; [done|done|by rewrite Hh|by eapply kept_ok|]. intros w2 resp1 Hs2 Hok2.
  destruct (call_site w2 _) as [w3 x] eqn:E. apply CreateAddress_touches in E as [HT Hx]; [|done..].
  apply create_try; [apply cf_mute|done|exact Hx].
Qed.

Lemma login_isolated w w' resp :
  sound q (wb_host (cw_web w)) -> cok w -> handleDuckMailToken s r w = (w', resp) -> cisolated None w w' resp.
Proof.
  intros Hs Hok. unfold handleDuckMailToken, duckMailEnabled. destruct (ad_duck _) as [service|]; [|intros [= <- <-]; by apply silent_isolated].
  apply limited_isolated; [done|]. intros w1 HK _ Hh. unfold decodeDuckJSON.
  destruct (xq_login r) as [| |[address password]] eqn:El; cbn [decode_body]; [intros [= <- <-]; by apply silent_isolated..|].
  destruct (rq_more _); [|intros [= <- <-]; by apply silent_isolated..].
  destruct (call_site w1 _) as [w2 x] eqn:E. apply DuckLogin_reads in E as [HT Hx]; [|by rewrite Hh|by eapply kept_ok].
  destruct x as [issued|e]; intros [= <- <-]; [|apply cisolated_silent; [done|apply duck_mute]].
  split; [done|]. destruct (Hx _ eq_refl) as (account & id & Hl & Hv & Hu & Hid). by exists address, password, account, id.
Qed.

Lemma refresh_serves w w' resp : cok w -> handleYYDSRefreshToken s r w = (w', resp) -> cserves [ScopeInboxRead] w w' resp.
Proof.
  intros Hok. unfold handleYYDSRefreshToken, yydsEnabled. destruct (ad_yyds _) as [service|]; [|intros [= <- <-]; by apply silent_serves].
  unfold yydsBearer. destruct (bearer r) as [plaintext|] eqn:Eb; [|intros [= <- <-]; by apply silent_serves]. unfold decodeYYDSJSON.
  destruct (decode_body _ _ _ _) as [address|[]]; [|intros [= <- <-]; by apply silent_serves..].
  destruct (bool_decide _); [intros [= <- <-]; by apply silent_serves|].
  destruct (call w _) as [w1 x] eqn:E. pose proof (call_inv _ _ _ _ E) as (h & Ef & _). pose proof (RefreshToken_reads _ _ _ _ _ Ef) as [[M1 M2 _] Hx].
  assert (forall u, touches u w w1) as HT by (intros u; by eapply call_touches; [done..|apply confined_same]).
  destruct x as [[issued inbox]|e]; intros [= <- <-]; [|left; apply cisolated_silent; [done|apply yyds_mute]].
  destruct (Hx _ _ eq_refl) as (h1 & p & Ha & Ho). right. exists p. split; [by exists plaintext, h1|]. by split.
Qed.

Lemma yyds_account_isolated inboxID w w' resp :
  cok w -> yyds_account w inboxID = (w', resp) -> cisolated (uuid_parse inboxID) w w' resp.
Proof. intros Hok. apply get_isolated; [apply yyds_mute|done|done|]. intros w2 inbox Ho. by left. Qed.

Lemma attachment_serves w w' resp : cok w -> handleYYDSAttachment parser parse_media s r w = (w', resp) -> cserves [ScopeMessageRead] w w' resp.
Proof.
  intros Hok. apply yyds_message_serves; [done|]. intros w1 p Hok1. destruct (call_store w1 _) as [w2 x] eqn:E.
  apply call_store_inv in E as (h & st & E & Hd & Ht & Hst). destruct Hok1 as [Hh Hi Hr].
  apply (OpenAttachment_reads _ parse_media _ _ (cw_web w1)) in E as [HS Hx]. change (HttpFacts.db_of (cw_web w1)) with (cdb w1) in HS.
  assert (touches (uuid_parse (pl_InboxID p)) w1 w2) as HT.
  { split; [rewrite Hd; by apply confined_tables|]. rewrite Ht.
    rewrite (cascade_id (cstate w1)); [done|apply Hh|done|done|apply HS|apply HS]. }
  destruct x as [source|e]; intros [= <- <-]; [|apply cisolated_silent; [done|apply yyds_mute]].
  split; [done|]. eapply cshows_same; [done|]. by apply Hx.
Qed.

Lemma delete_mail_isolated inboxID w w' resp :
  cok w ->
  try cf_mapped (cloudflareTempMessageID r w inboxID) (λ w found,
    match found with
    | None => (w, reply_with 200 VCfSuccess)
    | Some (_, messageID) =>
      match call w (λ h, MailboxService.DeleteMessage h inboxID messageID) with
      | (w, Some e) => if errors_is e ErrMessageNotFound then (w, reply_with 200 VCfSuccess) else (w, cf_mapped e)
      | (w, None) => (w, reply_with 200 VCfSuccess)
      end
    end) = (w', resp) -> cisolated (uuid_parse inboxID) w w' resp.
Proof.
  intros Hok. unfold cloudflareTempMessageID. destruct (parse_int64 _) as [n|]; [|intros [= <- <-]; by apply silent_isolated].
  destruct (n <=? 0); [intros [= <- <-]; by apply silent_isolated|].
  destruct (call_site w _) as [w1 x] eqn:E1. apply find_number in E1 as (HK1 & _); [|done].
  destruct x as [messageID|e]; [|destruct (errors_is e _); intros [= <- <-]; apply silent_isolated; try done; apply cf_mute]. cbn [try].
  destruct (call w1 _) as [w2 y] eqn:E2. apply delete_message_touches in E2; [|by eapply kept_ok].
  pose proof (touches_after _ _ _ _ HK1 E2) as HT.
  destruct y as [e|]; [destruct (errors_is e _)|]; intros [= <- <-]; apply cisolated_silent; done || apply cf_mute.
Qed.

Lemma page_guard u w w' resp (k : Z -> Z -> creply) :
  (forall limit offset, k limit offset = (w', resp) -> cisolated u w w' resp) -> heavy_request w (cloudflareTempPage r w k) = (w', resp) -> cisolated u w w' resp.
Proof.
  intros Hk. unfold heavy_request, cloudflareTempPage. destruct (_ <? _); [|intros [= <- <-]; by apply silent_isolated].
  destruct (parse_int64 _) as [limit|]; [|intros [= <- <-]; by apply silent_isolated]. destruct (_ || _); [intros [= <- <-]; by apply silent_isolated|].
  destruct (parse_int64 _) as [offset|]; [|intros [= <- <-]; by apply silent_isolated]. destruct (_ || _); [intros [= <- <-]; by apply silent_isolated|]. apply Hk.
Qed.

Lemma raw_page_serves w w' resp : cok w -> handleCloudflareTempRawMails s r w = (w', resp) -> cserves [ScopeMessageRead] w w' resp.
Proof.
  intros Hok. apply cf_serves; [done|]. intros w1 p Hok1. apply page_guard. intros limit offset.
  apply (mail_page_isolated _ _ _ _ (λ w _ page ids, raw_mails s (pl_InboxID p) ids (mp_Items page) 0 w)
    (λ inbox page results, VCfRawMails inbox results (page_count offset page))); [done|].
  intros w2 w3 inbox page ids x Hok2 Hn E. apply raw_mails_shown in E as [HK Hx]; [|done..]. split; [done|].
  intros mails d st -> HS <- Ho. split; [done|]. eapply Forall_impl; [by apply Hx|]. intros mail (m & (id & mid & Hu & [Hm Hown] & Hd & Ht) & Hsrc).
  exists m. split; [|by eapply source_of_same]. exists id, mid. split; [done|]. split; [split; [by rewrite <- (sm_messages _ _ HS)|done]|].
  by rewrite <- (detail_of_same _ _ _ _ HS).
Qed.

Lemma numbered_mail_same u d d' t mail m : same_tables d d' -> numbered_mail u d' t mail m -> numbered_mail u d t mail m.
Proof.
  intros HS (id & mid & Hu & [Hm Hown] & Hd & Ht). exists id, mid. split; [done|]. split; [split; [by rewrite <- (sm_messages _ _ HS)|done]|].
  by rewrite <- (detail_of_same _ _ _ _ HS).
Qed.

Lemma parsed_page_serves w w' resp : cok w -> handleCloudflareTempParsedMails s r w = (w', resp) -> cserves [ScopeMessageRead] w w' resp.
Proof.
  intros Hok. apply cf_serves; [done|]. intros w1 p Hok1. apply page_guard. intros limit offset.
  apply (mail_page_isolated _ _ _ _ (λ w inbox page ids, parsed_mails (pl_InboxID p) inbox ids (mp_Items page) 0 w)
    (λ inbox page results, VCfParsedMails inbox results (page_count offset page))); [done|].
  intros w2 w3 inbox page ids x Hok2 Hn E. apply parsed_mails_shown in E as [HK Hx]; [|done..]. split; [done|].
  intros mails d st -> HS _ Ho. split; [done|]. eapply Forall_impl; [by apply Hx|]. intros mail (m & Hm). exists m. by eapply numbered_mail_same.
Qed.

Lemma raw_mail_serves w w' resp : cok w -> handleCloudflareTempRawMail s r w = (w', resp) -> cserves [ScopeMessageRead] w w' resp.
Proof.
  intros Hok. apply cf_serves; [done|]. intros w1 p Hok1. apply one_mail_isolated; [done|].
  intros w2 inbox n messageID mid m Hok2 _ _ Ho Hmid Hown Hn. destruct (readCloudflareTempRaw s w2 _ _ _) as [w3 x] eqn:E.
  apply read_raw_reads in E as [HK Hx]; [|done]. apply try_isolated; [apply cf_mute|done|]. cbn [fst snd]. intros [raw total] ->.
  destruct (Hx _ _ eq_refl) as (mid2 & m2 & Hmid2 & [Hm2 _] & Hsrc). assert (mid2 = mid) as -> by congruence.
  assert (m2 = m) as -> by (destruct Hown; congruence).
  apply bounded_isolated; [by apply kept_touches|]. split; [done|]. exists m. split; [|done]. by rewrite (kp_rows _ _ HK).
Qed.

Lemma parsed_mail_serves w w' resp : cok w -> handleCloudflareTempParsedMail s r w = (w', resp) -> cserves [ScopeMessageRead] w w' resp.
Proof.
  intros Hok. apply cf_serves; [done|]. intros w1 p Hok1. apply one_mail_isolated; [done|].
  intros w2 inbox n messageID mid m Hok2 _ _ Ho Hmid Hown Hn. destruct (_ <? _); [intros [= <- <-]; by apply silent_isolated|].
  apply bounded_isolated; [by apply kept_touches|]. split; [done|]. by exists m.
Qed.

(** The scopes a route asks the token for. *)
Definition croute_scopes (x : croute) : list Z :=
  match x with
  | RDuckMe | RYydsMe | RYydsGetAccount | RCfSettings | RYydsToken => [ScopeInboxRead]
  | RDuckDeleteAccount | RYydsDeleteAccount | RCfDeleteAddress => [ScopeInboxDelete]
  | RDuckMessages | RDuckMessage | RDuckSource | RYydsMessages | RYydsGetMessage | RYydsSource | RYydsAttachment
  | RCfMails | RCfMail | RCfParsedMails | RCfParsedMail => [ScopeMessageRead]
  | RDuckSeen | RYydsPatchMessage => [ScopeMessageUpdate]
  | RDuckDeleteMessage | RYydsDeleteMessage | RCfDeleteMail => [ScopeMessageDelete]
  | RDuckDomains | RDuckCreateAccount | RDuckToken | RYydsDomains | RYydsCreate | RCfOpenSettings | RCfUserOpenSettings | RCfNewAddress => []
  end.

Lemma cmux_method x : cmux_accepts x (rq_method (xq_base r)) = true ->
  rq_method (xq_base r) = croute_method x \/ croute_method x = str "GET" /\ rq_method (xq_base r) = str "HEAD".
Proof.
  unfold cmux_accepts. intros [Hm|[Hg Hm]%andb_true_iff]%orb_true_iff; apply bool_decide_eq_true in Hm; [by left|].
  apply bool_decide_eq_true in Hg. by right.
Qed.

Lemma account_route_serves x w w' resp :
  x = RYydsGetAccount \/ x = RYydsDeleteAccount -> cmux_accepts x (rq_method (xq_base r)) = true -> cok w ->
  handleYYDSAccount s r w = (w', resp) -> cserves (croute_scopes x) w w' resp.
Proof.
  intros Hx Hm%cmux_method Hok. unfold handleYYDSAccount.
  assert (croute_scopes x = [if method_is r "DELETE" then ScopeInboxDelete else ScopeInboxRead]) as ->.
  { unfold method_is. destruct Hx as [->| ->], Hm as [->|[? ->]]; done. }
  apply yyds_serves; [done|]. intros w1 p Hok1. destruct (negb _); [intros [= <- <-]; by apply silent_isolated|].
  destruct (method_is r "DELETE"); [|by apply yyds_account_isolated]. apply delete_inbox_isolated; [apply yyds_mute|done|done].
Qed.

Lemma message_route_serves x w w' resp :
  x = RYydsGetMessage \/ x = RYydsPatchMessage \/ x = RYydsDeleteMessage -> cmux_accepts x (rq_method (xq_base r)) = true -> cok w ->
  handleYYDSMessage s r w = (w', resp) -> cserves (croute_scopes x) w w' resp.
Proof.
  intros Hx Hm%cmux_method Hok. unfold handleYYDSMessage. cbv zeta.
  assert (croute_scopes x = [if method_is r "PATCH" then ScopeMessageUpdate else if method_is r "DELETE" then ScopeMessageDelete else ScopeMessageRead]) as ->.
  { unfold method_is. destruct Hx as [->|[->| ->]], Hm as [->|[? ->]]; done. }
  apply yyds_message_serves; [done|]. intros w1 p Hok1. destruct (method_is r "GET").
  { apply message_isolated; [apply yyds_mute|done|done|]. by split. }
  destruct (method_is r "PATCH").
  { unfold yyds_patch_message, decodeYYDSJSON. destruct (decode_body _ _ _ _) as [[seen starred]|[]]; [|intros [= <- <-]; by apply silent_isolated..].
    destruct (_ || _); [intros [= <- <-]; by apply silent_isolated|]. apply seen_isolated; [apply yyds_mute|done|done]. }
  destruct (method_is r "DELETE"); [|intros [= <- <-]; by apply silent_isolated]. apply delete_message_isolated; [apply yyds_mute|done|done].
Qed.

Lemma duck_routes_serve x w w' resp :
  cok w ->
  match x with RDuckMe | RDuckDeleteAccount | RDuckMessages | RDuckMessage | RDuckSeen | RDuckDeleteMessage | RDuckSource => True | _ => False end ->
  cserve parser parse_media s r x w = (w', resp) -> cserves (croute_scopes x) w w' resp.
Proof.
  intros Hok Hx. destruct x; try done; cbn [cserve croute_scopes];
    (apply duck_message_serves || apply duck_serves); try done; intros w1 p Hok1.
  - apply get_isolated; [apply duck_mute|done|done|]. intros w2 inbox Ho. by left.
  - destruct (negb _); [intros [= <- <-]; by apply silent_isolated|]. apply delete_inbox_isolated; [apply duck_mute|done|done].
  - destruct (duckPage r) as [page|]; [|intros [= <- <-]; by apply silent_isolated].
    apply (page_isolated _ _ _ _ _ _ (λ inbox result, VDuckMessages page inbox (mp_Items result) (mp_Total result)));
      [apply duck_mute|done|done|]. by split.
  - apply message_isolated; [apply duck_mute|done|done|]. by split.
  - apply seen_isolated; [apply duck_mute|done|done].
  - apply delete_message_isolated; [apply duck_mute|done|done].
  - apply source_isolated; [apply duck_mute|done|done|]. by split.
Qed.

Lemma other_routes_serve x w w' resp :
  cok w ->
  match x with RYydsMe | RYydsMessages | RYydsSource | RCfSettings | RCfDeleteMail | RCfDeleteAddress => True | _ => False end ->
  cserve parser parse_media s r x w = (w', resp) -> cserves (croute_scopes x) w w' resp.
Proof.
  intros Hok Hx. destruct x; try done; cbn [cserve croute_scopes];
    (apply yyds_message_serves || apply yyds_serves || apply cf_serves); try done; intros w1 p Hok1.
  - by apply yyds_account_isolated.
  - unfold yydsPage. destruct (query_number _ _ _ _) as [limit|]; [|intros [= <- <-]; by apply silent_isolated].
    destruct (query_number (xq_offset r) _ _ _) as [offset|]; [|intros [= <- <-]; by apply silent_isolated].
    apply page_isolated; [apply yyds_mute|done|done|]. by split.
  - apply source_isolated; [apply yyds_mute|done|done|]. by split.
  - apply get_isolated; [apply cf_mute|done|done|done].
  - by apply delete_mail_isolated.
  - apply delete_inbox_isolated; [apply cf_mute|done|done].
Qed.

Lemma open_routes_isolated x w w' resp :
  match x with RDuckDomains | RYydsDomains | RCfOpenSettings | RCfUserOpenSettings => True | _ => False end ->
  cserve parser parse_media s r x w = (w', resp) -> cisolated None w w' resp.
Proof.
  intros Hx. destruct x; try done; cbn [cserve];
    try (apply cf_enabled; [apply silent_isolated|intros ? [= <- <-]; by apply silent_isolated]).
  - unfold handleDuckMailDomains, duckMailEnabled. destruct (ad_duck _) as [service|]; [destruct (duckPage r)|]; intros [= <- <-]; by apply silent_isolated.
  - unfold handleYYDSDomains, yydsEnabled. destruct (ad_yyds _); intros [= <- <-]; by apply silent_isolated.
Qed.

(** C4: the compatibility APIs are isolated.  Whatever a DuckMail, YYDS or
    Cloudflare Temp Email request holds, it is served on behalf of nobody, or
    of the inbox of the principal that its bearer token was accepted for with
    the scopes of the route.  Rows of other inboxes, their messages, accounts
    and stable identifiers stay as they are and no message appears.  The
    response shows the inbox and messages of that principal only, each mail of
    the Cloudflare API under the number that the tables map to it for that
    inbox, and a source only in full as it is stored; on behalf of nobody it
    shows at most an inbox that did not exist before, or a token for the
    account whose password the request gave. *)
Theorem compat_isolation x w w' resp :
  sound q (wb_host (cw_web w)) -> ids_ok (cstate w) -> refs_ok (cstate w) -> cmux_accepts x (rq_method (xq_base r)) = true ->
  cserve parser parse_media s r x w = (w', resp) ->
  exists u, (u = None \/ exists p, cpresents w (croute_scopes x) p /\ u = uuid_parse (pl_InboxID p)) /\
    touches u w w' /\ cshows u (cdb w) (cstore w) (cw_tables w) (cw_tables w') (xr_view resp).
Proof.
  intros Hs Hi Hr Hm E. assert (cok w) as Hok by (split; [apply Hs|done|done]).
  assert (cserves (croute_scopes x) w w' resp) as [[HT HS]|(p & Hp & HT & HS)].
  2:{ exists None. split; [by left|done]. }
  2:{ exists (uuid_parse (pl_InboxID p)). split; [right; by eauto|done]. }
  destruct x; try solve [refine (duck_routes_serve _ _ _ _ Hok _ E); exact I|refine (other_routes_serve _ _ _ _ Hok _ E); exact I|
    left; refine (open_routes_isolated _ _ _ _ _ E); exact I]; cbn [cserve] in E.
  - left. by apply duck_accounts_isolated.
  - left. by apply login_isolated.
  - left. by apply yyds_accounts_isolated.
  - by apply refresh_serves.
  - apply account_route_serves; auto.
  - apply account_route_serves; auto.
  - apply message_route_serves; auto.
  - apply message_route_serves; auto.
  - apply message_route_serves; auto.
  - by apply attachment_serves.
  - left. by apply cf_addresses_isolated.
  - by apply raw_page_serves.
  - by apply raw_mail_serves.
  - by apply parsed_page_serves.
  - by apply parsed_mail_serves.
Qed.
End Isolation.

Lemma no_refs (d : db) : refs_ok (Compat d no_tables).
Proof. split; intros *; cbn; by rewrite lookup_empty. Qed.

Lemma no_numbers (d : db) : ids_ok (Compat d no_tables).
Proof. by split. Qed.

#[local] Existing Instance DuckMail.Runs.lib.

(** A mailbox with one message, whose source is stored, read over the API. *)
Module MailRuns.
#[global] Instance names : DomainIDs := {| domain_id domain := domain |}.

Definition h0 : host := Host MailboxRepo.Inhabited.full ((λ n, ascii_of_nat n) <$> seq 0 200) DeliveryRepo.Demo.now.
Definition issuing : host * res IssuedCapability := Capability.Issue h0 CapabilityDb.Demo.inbox 31 CapabilityDb.Demo.later.
Definition token : bytes := ic_Plaintext (CapabilityDb.Demo.value CapabilityDb.Demo.nothing issuing.2).
Definition content : Store := (put ContentStoreSpec.Demo.cfg ContentStoreSpec.Demo.store (str "hi")).1.1.
Definition before : cweb := CWeb (Web issuing.1 content (newCreateLimiter 12 4) 0) no_tables 0.

Definition server : CServer :=
  MkCServer HttpFacts.Runs.server MailboxService.Runs.service
    (MkAdapters (Some DuckMail.Runs.service) (Some [str "example.com"]) (Some [str "example.com"]) false).
Definition get : request :=
  Request None (str "GET") (str "bearer " ++ token) None [] (str "192.0.2.7:4711") [] (str "20") [] [] [] DecodeEOF DecodeEOF DecodeEOF.
Definition asked : crequest :=
  CRequest get (str "/compat/cloudflare-temp/api/mails") [] (str "0") DecodeEOF DecodeEOF DecodeEOF DecodeEOF DecodeEOF DecodeEOF None.
Definition served : cweb * cresponse unit := cserve None Some server asked RCfMails before.

Lemma served_raw : match xr_view served.2 with VCfRawMails _ mails count => Some (mails.*1.*1, mails.*2, count) | _ => None end = Some ([1], [str "hi"], 1).
Proof. vm_compute. reflexivity. Qed.

Lemma mail_issued_run : Capability.Issue h0 CapabilityDb.Demo.inbox 31 CapabilityDb.Demo.later = (issuing.1, Ok (CapabilityDb.Demo.value CapabilityDb.Demo.nothing issuing.2)).
Proof. apply CapabilityDb.Demo.run_value. vm_compute. reflexivity. Qed.

Lemma mail_before_sound : sound DeliveryRepo.Demo.limits (wb_host (cw_web before)).
Proof.
  assert (cap_inv h0) as Hi.
  { split; [apply MailboxRepo.Inhabited.full_healthy|]. split; [|constructor]. intros id row Hr. cbn in Hr. vm_compute in Hr. done. }
  assert (uuid_parse CapabilityDb.Demo.inbox = Some DeliveryRepo.Demo.alice) as Hu by (vm_compute; reflexivity).
  assert (sound DeliveryRepo.Demo.limits h0) as Hs by (split; [exact MailboxRepo.Inhabited.full_healthy|exact Hi]).
  split; [exact (proj2 (Issue_mail DeliveryRepo.Demo.limits h0 _ _ _ _ _ _ Hs Hu mail_issued_run))|].
  apply (cap_step_keeps h0 _ Hi). eapply step_issue, mail_issued_run.
Qed.

Lemma before_ids : ids_ok (cstate before).
Proof. apply no_numbers. Qed.

Lemma before_refs : refs_ok (cstate before).
Proof. apply no_refs. Qed.
End MailRuns.

Lemma compat_isolation_witness :
  exists u, (u = None \/ exists p, cpresents MailRuns.asked MailRuns.before [ScopeMessageRead] p /\ u = uuid_parse (pl_InboxID p)) /\
    touches u MailRuns.before MailRuns.served.1 /\
    cshows (S := unit) None MailRuns.server MailRuns.asked u (cdb MailRuns.before) (cstore MailRuns.before) (cw_tables MailRuns.before) (cw_tables MailRuns.served.1)
      (xr_view MailRuns.served.2).
Proof.
  refine (compat_isolation DeliveryRepo.Demo.limits None Some MailRuns.server MailRuns.asked RCfMails MailRuns.before MailRuns.served.1
    MailRuns.served.2 MailRuns.mail_before_sound MailRuns.before_ids MailRuns.before_refs _ (surjective_pairing _)).
  vm_compute. reflexivity.
Defined.
