(* ===== verification/CompatPages.v ===== *)
(** * Pages of the compatibility APIs

    The numbered pages of DuckMail, and the bounds on what the Cloudflare Temp
    Email API answers. *)

From S2P Require Import Prelude GoStrings GoTime Errors Codec NetIP Uuid FileSystem Json Message ContentStore ContentStoreFacts ContentStoreSpec Mail Database DatabaseFacts Token Scope DeliveryRepo MailboxRepo CapabilityRepo Capability CapabilityDb MailboxService CreateQuota Http HttpApi HttpFacts CompatRepo CompatFacts DuckMail Adapters CompatView CompatApi CompatApiFacts.

#[local] Opaque sha256.

(** ** Numbered pages *)

(** The request for a page. *)
Definition at_page (r : crequest) (page : Z) : crequest :=
  CRequest (xq_base r) (xq_path r) (format_int page) (xq_offset r) (xq_account r) (xq_login r) (xq_create r) (xq_refresh r) (xq_patch r)
    (xq_address r) (xq_kdf r).

Lemma duckPage_at r page : 1 <= page <= 10000 -> duckPage (at_page r page) = Some page.
Proof.
  intros Hp. unfold duckPage, query_number. cbn [xq_page at_page]. destruct (format_int_nonneg page) as (E & _ & Hne & _); [unfold max_int64; lia|].
  rewrite bool_decide_eq_false_2 by done. rewrite E. replace (_ || _) with false by (symmetry; apply orb_false_iff; lia). done.
Qed.

(** Consecutive slices of a list. *)
Lemma slices {A} (l : list A) (k n : nat) :
  concat ((λ i, take k (drop (i * k) l)) <$> seq 0 n) = take (n * k) l.
Proof.
  induction n as [|n IH]; [done|]. rewrite seq_S, fmap_app, concat_app, IH. cbn. rewrite app_nil_r.
  replace (k + n * k)%nat with (n * k + k)%nat by lia. by rewrite take_take_drop.
Qed.

Lemma duck_last_covers total : 0 <= total -> total <= duck_last total * 30 /\ 1 <= duck_last total.
Proof.
  intros Ht. unfold duck_last. rewrite Z.quot_div_nonneg by lia. cbv zeta. destruct (_ <? 1) eqn:E; bool_to_prop; div_mod_lia.
Qed.

Section Pages.
Context `{!UUIDLib} `{!UUIDSpec _} (q : DeliveryLimits) {S : Type} (s : CServer) (r : crequest).

(** The rows of a page. *)
Definition duck_page (d : db) (id : uuid) (page : Z) : list MessageSummary :=
  summary_of d <$> take 30 (drop (Z.to_nat (page - 1) * 30) (listing d id None)).

(** A call that leaves the state as it is. *)
Lemma call_same {A} w (f : host -> host * A) x : cok q w -> f (wb_host (cw_web w)) = (wb_host (cw_web w), x) -> call w f = (w, x).
Proof.
  intros [Hh Hi Hr] E. unfold call, on_host. rewrite E. cbn. fold (cdb w).
  rewrite (cascade_id (cstate w)); [|apply Hh|done|done|done|done]. by destruct w as [[] ? ?].
Qed.

Lemma lift_same {A} (m : DB A) (h : host) x : m (h_db h) = (h_db h, x) -> lift m h = (h, x).
Proof. intros E. unfold lift. rewrite E. by destruct h. Qed.

Lemma Get_calm (h : host) inboxID id row :
  db_oracle (h_db h) = [] -> uuid_parse inboxID = Some id -> inboxes (h_db h) !! id = Some row -> inbox_live (h_db h) id = true ->
  Get h inboxID = (h, Ok (inbox_of id row)).
Proof.
  intros Hc Hu Hr Hl. apply lift_same. unfold GetInbox, cast. rewrite Hu. unfold dbind. rewrite query_calm by done. by rewrite Hl, Hr.
Qed.

Lemma list_page_calm inboxID id d limit offset :
  db_oracle d = [] -> uuid_parse inboxID = Some id -> 0 < limit <= 200 -> 0 <= offset ->
  ListMessagePage inboxID limit offset d = (d, Ok (MkMessagePage
    (summary_of d <$> take (Z.to_nat limit) (drop (Z.to_nat offset) (listing d id None))) (zlen (listing d id None))
    (zlen (filter (λ kv, ms_seen kv.2 = None) (listing d id None))))).
Proof.
  intros Hc Hu Hl Ho. unfold ListMessagePage. replace (_ || _ || _) with false by (symmetry; rewrite !orb_false_iff; lia).
  unfold MailboxRepo.ListMessages. cbn [pg_Limit pg_Offset pg_Before]. replace (_ || _ || _) with false by (symmetry; rewrite !orb_false_iff; lia).
  unfold cast. rewrite Hu. unfold dbind. rewrite query_calm by done. cbv zeta. rewrite query_calm by done. done.
Qed.

(** C22: the numbered pages.  For a token accepted for a live inbox of at most
    300000 messages, the pages from 1 to the one named [hydra:last] are each
    answered, and put together they are the messages of the inbox, newest
    first, each once; a later page within the limit is empty. *)
Theorem duck_pages_complete w service plaintext p id row :
  ad_duck (xs_adapters s) = Some service -> s_authenticator (xs_base s) = true -> bearer r = Some plaintext ->
  Capability.Authenticate (wb_host (cw_web w)) plaintext [ScopeMessageRead] = (wb_host (cw_web w), Ok p) ->
  cok q w -> db_oracle (cdb w) = [] -> uuid_parse (pl_InboxID p) = Some id -> inboxes (cdb w) !! id = Some row -> inbox_live (cdb w) id = true ->
  zlen (listing (cdb w) id None) <= 300000 ->
  let total := zlen (listing (cdb w) id None) in
  (forall page, 1 <= page <= 10000 ->
    handleDuckMailMessages s (at_page r page) w =
      (w, reply_with (S := S) 200 (VDuckMessages page (inbox_of id row) (duck_page (cdb w) id page) total))) /\
  1 <= duck_last total <= 10000 /\
  concat (duck_page (cdb w) id <$> seqZ 1 (duck_last total)) = summary_of (cdb w) <$> listing (cdb w) id None /\
  forall page, duck_last total < page -> duck_page (cdb w) id page = [].
Proof.
  intros Hd Ha Hb Hauth Hok Hc Hu Hr Hl Hsize. set (l := listing (cdb w) id None) in *. cbv zeta.
  destruct (duck_last_covers (zlen l)) as [Hcover Hone]; [apply zlen_nonneg|]. split_and!; [|done| |..].
  - intros page Hp. unfold handleDuckMailMessages, duckPrincipal, duckMailEnabled. rewrite Hd, Ha. change (bearer (at_page r page)) with (bearer r). rewrite Hb.
    cbn [negb]. rewrite (call_same _ _ _ Hok Hauth). cbn [try]. rewrite duckPage_at by done.
    rewrite (call_same _ (λ h, Get h (pl_InboxID p)) _ Hok (Get_calm _ _ _ _ Hc Hu Hr Hl)). cbn [try].
    rewrite (call_same _ _ _ Hok (lift_same _ _ _ (list_page_calm _ _ _ 30 ((page - 1) * 30) Hc Hu ltac:(lia) ltac:(lia)))). cbn [try].
    unfold duck_page. fold (cdb w). fold l. change (Z.to_nat 30) with 30%nat. by replace (Z.to_nat ((page - 1) * 30)) with (Z.to_nat (page - 1) * 30)%nat by lia.
  - unfold duck_last. rewrite Z.quot_div_nonneg by (pose proof (zlen_nonneg l); lia). cbv zeta. destruct (_ <? 1); div_mod_lia.
  - unfold duck_page, seqZ. rewrite <- list_fmap_compose. fold l.
    assert (concat (((λ page, summary_of (cdb w) <$> take 30 (drop (Z.to_nat (page - 1) * 30) l)) ∘ (λ i : nat, Z.add (Z.of_nat i) 1)) <$> seq 0 (Z.to_nat (duck_last (zlen l))))
      = summary_of (cdb w) <$> concat ((λ i, take 30 (drop (i * 30) l)) <$> seq 0 (Z.to_nat (duck_last (zlen l))))) as ->.
    { induction (seq 0 _) as [|i l0 IH]; [done|]. cbn [fmap list_fmap concat]. rewrite fmap_app. f_equal; [|exact IH].
      cbn. by replace (Z.to_nat (Z.of_nat i + 1 - 1)) with i by lia. }
    rewrite slices, take_ge; [done|]. unfold zlen in *. lia.
  - intros page Hp. unfold duck_page. rewrite drop_ge; [done|]. fold l. unfold zlen in *. lia.
Qed.
End Pages.

(** ** Bounded answers *)

Definition total_of {A} (f : A -> Z) (l : list A) : Z := foldr (λ a n, f a + n) 0 l.

Section Bounds.
Context `{!UUIDLib} `{!Argon2Lib} `{!DomainIDs} {S : Type}.
Context (parser : option (disk -> nat -> bytes -> disk * res S)) (parse_media : bytes -> option bytes) (s : CServer) (r : crequest).

(** The text of the response is within the limit. *)
Definition fits (v : view S) : Prop :=
  exists j, view_json v = Some j /\ zlen (encoder_text (λ _, []) j) <= cloudflareTempMaxPayloadBytes.

(** What a mail request answers: nothing of a mail, or few mails with few bytes. *)
Definition view_bounded (v : view S) : Prop :=
  match v with
  | VCfRawMails _ mails _ => zlen mails <= cloudflareTempMaxPageItems /\
      total_of (λ mail : Z * MessageDetail * bytes, zlen mail.2) mails <= cloudflareTempMaxPayloadBytes /\ fits v
  | VCfRawMail _ mail => zlen mail.2 <= cloudflareTempMaxPayloadBytes /\ fits v
  | VCfParsedMails inbox mails _ => zlen mails <= cloudflareTempMaxPageItems /\
      total_of (λ mail, parsed_size (cf_parsed_of inbox mail)) mails <= cloudflareTempMaxPayloadBytes /\ fits v
  | VCfParsedMail inbox mail => parsed_size (cf_parsed_of inbox mail) <= cloudflareTempMaxPayloadBytes /\ fits v
  | _ => csilent v
  end.

(** Such an answer, which shows a mail only with one of the two slots. *)
Definition mail_answer (w : cweb) (resp : cresponse S) : Prop :=
  view_bounded (xr_view resp) /\ (csilent (xr_view resp) \/ cw_heavy w < cloudflareTempHeavy).

Lemma silent_answer w resp : csilent (xr_view resp) -> mail_answer w resp.
Proof. intros Hs. split; [by destruct (xr_view resp)|by left]. Qed.

Lemma mapped_answer w e : mail_answer w (cf_mapped e).
Proof. apply silent_answer, cf_mute. Qed.

Lemma principal_answer scopes w k w' resp :
  (forall w1 p, cw_heavy w1 = cw_heavy w -> k w1 p = (w', resp) -> mail_answer w resp) ->
  cloudflareTempPrincipal s r scopes w k = (w', resp) -> mail_answer w resp.
Proof.
  intros Hk. unfold cloudflareTempPrincipal. apply cf_enabled; [intros _; apply silent_answer|]. intros _.
  destruct (bearer r) as [plaintext|]; [|intros [= <- <-]; by apply silent_answer]. destruct (s_authenticator _); [|intros [= <- <-]; by apply silent_answer].
  destruct (call w _) as [w1 x] eqn:E. assert (cw_heavy w1 = cw_heavy w) as Hw by (by injection E as <- <-).
  destruct x as [p|e]; [by apply Hk|]. intros [= <- <-]. apply mapped_answer.
Qed.

Lemma heavy_answer (w w1 : cweb) k w' resp :
  cw_heavy w1 = cw_heavy w -> (cw_heavy w < cloudflareTempHeavy -> k = (w', resp) -> mail_answer w resp) ->
  heavy_request (S := S) w1 k = (w', resp) -> mail_answer w resp.
Proof.
  intros Hw Hk. unfold heavy_request. rewrite Hw. destruct (_ <? _) eqn:E; [apply Z.ltb_lt in E; by apply Hk|].
  intros [= <- <-]. by apply silent_answer.
Qed.

Lemma bounded_fits w v w' resp : bounded_json w v = (w', resp) -> csilent (xr_view resp) \/ xr_view resp = v /\ fits v.
Proof.
  unfold bounded_json. destruct (view_json v) as [j|] eqn:Ej; cbn; [|intros [= <- <-]; by left].
  pose proof (bounded_text_spec j) as Hb. destruct (bounded_text j) as [text|]; intros [= <- <-]; [|by left].
  right. split; [done|]. exists j. destruct Hb as [-> ?]. done.
Qed.

Lemma read_raw_size w w1 inboxID messageID payload raw total :
  readCloudflareTempRaw s w inboxID messageID payload = (w1, Ok (raw, total)) -> total = payload + zlen raw /\ total <= cloudflareTempMaxPayloadBytes.
Proof.
  unfold readCloudflareTempRaw. destruct (open_source _ _ _ _) as [w2 [source|]]; [|done]. destruct (_ || _) eqn:Eb; [done|].
  apply orb_false_iff in Eb as [_ Eb]. destruct (call_disk _ _) as [w3 [data|]]; [|done]. destruct (zlen data =? _) eqn:Ez; cbn [negb]; [|done].
  intros [= <- <- <-]. apply Z.eqb_eq in Ez. bool_to_prop. split; [done|]. lia.
Qed.

Lemma raw_mails_size inboxID ids items : forall payload w w' mails,
  payload <= cloudflareTempMaxPayloadBytes -> raw_mails s inboxID ids items payload w = (w', Ok mails) ->
  length mails = length items /\ payload + total_of (λ mail : Z * MessageDetail * bytes, zlen mail.2) mails <= cloudflareTempMaxPayloadBytes.
Proof.
  induction items as [|item items IH]; intros payload w w' mails Hp; cbn [raw_mails].
  { intros [= <- <-]. cbn. split; [done|lia]. }
  destruct (call w _) as [w1 [detail|]]; [|done]. destruct (readCloudflareTempRaw s w1 _ _ _) as [w2 [[raw total]|]] eqn:E2; [|done].
  apply read_raw_size in E2 as [-> Hsize]. destruct (raw_mails s _ _ _ _ w2) as [w3 [results|]] eqn:E3; [|done]. intros [= <- <-].
  apply IH in E3 as [Hlen Htot]; [|done]. cbn [length total_of foldr snd]. fold (total_of (λ mail : Z * MessageDetail * bytes, zlen mail.2) results).
  split; [by rewrite Hlen|lia].
Qed.

Lemma parsed_mails_size inboxID inbox ids items : forall payload w w' mails,
  payload <= cloudflareTempMaxPayloadBytes -> parsed_mails inboxID inbox ids items payload w = (w', Ok mails) ->
  length mails = length items /\ payload + total_of (λ mail, parsed_size (cf_parsed_of inbox mail)) mails <= cloudflareTempMaxPayloadBytes.
Proof.
  induction items as [|item items IH]; intros payload w w' mails Hp; cbn [parsed_mails].
  { intros [= <- <-]. cbn. split; [done|lia]. }
  destruct (call w _) as [w1 [detail|]]; [|done]. cbv zeta. destruct (_ <? _) eqn:Eb; [done|]. apply Z.ltb_ge in Eb.
  destruct (parsed_mails _ _ _ _ _ w1) as [w3 [results|]] eqn:E3; [|done]. intros [= <- <-]. apply IH in E3 as [Hlen Htot]; [|done].
  cbn [length total_of foldr]. fold (total_of (λ mail, parsed_size (cf_parsed_of inbox mail)) results). split; [by rewrite Hlen|lia].
Qed.

Lemma page_size w w1 inboxID limit offset page :
  call w (lift (ListMessagePage inboxID limit offset)) = (w1, Ok page) -> zlen (mp_Items page) <= limit.
Proof.
  intros (h & E & _)%call_inv. unfold lift in E. destruct (ListMessagePage _ _ _ _) as [d x] eqn:El. injection E as <- ->.
  unfold ListMessagePage in El. destruct (_ || _) eqn:Eb; [done|]. rewrite !orb_false_iff in Eb. destruct Eb as [[Hl _] _]. apply Z.leb_gt in Hl.
  unfold MailboxRepo.ListMessages in El. destruct (_ || _); [done|]. destruct (cast _ inboxID) as [id|]; [|done]. cbn [pg_Before] in El.
  apply query_reads in El as (d1 & _ & [El|(_ & e & [=])]). apply query_reads in El as (d2 & _ & [El|(_ & e & [=])]). injection El as _ <-.
  cbn [mp_Items pg_Limit]. unfold zlen. rewrite length_fmap, length_take. lia.
Qed.

Lemma page_answer {A : Type} (inboxID : InboxID) (w w1 : cweb) (load : cweb -> Inbox -> MessagePage -> gmap bytes Z -> cweb * res A)
    (body : Z -> Inbox -> MessagePage -> A -> view S) (w' : cweb) (resp : cresponse S) :
  cw_heavy w1 = cw_heavy w ->
  (forall w2 w3 inbox page ids offset a, zlen (mp_Items page) <= cloudflareTempMaxPageItems -> load w2 inbox page ids = (w3, Ok a) ->
    fits (body offset inbox page a) -> view_bounded (body offset inbox page a)) ->
  heavy_request w1 (cloudflareTempPage r w1 (λ limit offset, cloudflareTempMessagePage w1 inboxID limit offset (λ w inbox page ids,
    try cf_mapped (load w inbox page ids) (λ w a, bounded_json w (body offset inbox page a))))) = (w', resp) ->
  mail_answer w resp.
Proof.
  intros Hw Hl. apply heavy_answer; [done|]. intros Hslot. unfold cloudflareTempPage.
  destruct (parse_int64 _) as [limit|]; [|intros [= <- <-]; by apply silent_answer].
  destruct (_ || _) eqn:El; [intros [= <- <-]; by apply silent_answer|]. apply orb_false_iff in El as [_ El]. apply Z.ltb_ge in El.
  destruct (parse_int64 _) as [offset|]; [|intros [= <- <-]; by apply silent_answer]. destruct (_ || _); [intros [= <- <-]; by apply silent_answer|].
  unfold cloudflareTempMessagePage, try.
  destruct (call w1 _) as [w2 [inbox|]]; [|intros [= <- <-]; apply mapped_answer].
  destruct (call w2 _) as [w3 [page|]] eqn:E3; [|intros [= <- <-]; apply mapped_answer]. apply page_size in E3.
  destruct (call_site w3 _) as [w4 [ids|]]; [|intros [= <- <-]; apply mapped_answer].
  destruct (load w4 _ _ _) as [w5 [a|]] eqn:E5; [|intros [= <- <-]; apply mapped_answer].
  intros [Hs|[Hv Hf]]%bounded_fits; [by apply silent_answer|]. split; [|by right]. rewrite Hv. eapply Hl; [lia|done|done].
Qed.

Lemma one_answer (inboxID : InboxID) (w w1 : cweb) (k : cweb -> Inbox -> Z -> MessageID -> MessageDetail -> cweb * cresponse S) (w' : cweb) (resp : cresponse S) :
  cw_heavy w1 = cw_heavy w ->
  (forall w2 inbox n messageID detail, k w2 inbox n messageID detail = (w', resp) -> csilent (xr_view resp) \/ view_bounded (xr_view resp)) ->
  one_mail r w1 inboxID k = (w', resp) -> mail_answer w resp.
Proof.
  intros Hw Hk. unfold one_mail. apply heavy_answer; [done|]. intros Hslot. unfold try.
  destruct (cloudflareTempMessageID _ _ _) as [w2 [[[n messageID]|]|]]; [|intros [= <- <-]; first [by apply silent_answer|apply mapped_answer]..].
  destruct (call w2 _) as [w3 [inbox|]]; [|intros [= <- <-]; apply mapped_answer].
  destruct (call w3 _) as [w4 [detail|e]].
  - intros [Hs|Hv]%Hk; [by apply silent_answer|]. split; [done|by right].
  - destruct (errors_is e _); intros [= <- <-]; [by apply silent_answer|apply mapped_answer].
Qed.

Definition mail_route (x : croute) : bool :=
  match x with RCfMails | RCfMail | RCfParsedMails | RCfParsedMail => true | _ => false end.

(** C23: mail answers are bounded.  Whatever is stored, a mail request of the
    Cloudflare Temp Email API answers with no mail, or, holding one of two
    slots, with at most twenty, whose sources or texts have at most 32 MiB
    together and whose JSON text has at most 32 MiB. *)
Theorem mail_answers_bounded x w w' resp :
  mail_route x = true -> cserve parser parse_media s r x w = (w', resp) -> mail_answer w resp.
Proof.
  intros Hx E. destruct x; try done; cbn [cserve] in E; revert E; apply principal_answer; intros w1 p Hw.
  - apply (page_answer _ _ _ (λ w _ page ids, raw_mails s (pl_InboxID p) ids (mp_Items page) 0 w)
      (λ offset inbox page results, VCfRawMails inbox results (page_count offset page))); [done|].
    intros w2 w3 inbox page ids offset mails Hp [Hlen Htot]%raw_mails_size Hf; [|done]. split; [unfold zlen in *; lia|by split].
  - apply one_answer; [done|]. intros w2 inbox n messageID detail. unfold try.
    destruct (readCloudflareTempRaw s w2 _ _ _) as [w3 [[raw total]|]] eqn:Er; [|intros [= <- <-]; left; apply cf_mute].
    apply read_raw_size in Er as [-> Ht]. intros [Hs|[-> Hf]]%bounded_fits; [by left|]. right. by split.
  - apply (page_answer _ _ _ (λ w inbox page ids, parsed_mails (pl_InboxID p) inbox ids (mp_Items page) 0 w)
      (λ offset inbox page results, VCfParsedMails inbox results (page_count offset page))); [done|].
    intros w2 w3 inbox page ids offset mails Hp [Hlen Htot]%parsed_mails_size Hf; [|done]. split; [unfold zlen in *; lia|by split].
  - apply one_answer; [done|]. intros w2 inbox n messageID detail. destruct (_ <? _) eqn:Eb; [intros [= <- <-]; by left|].
    intros [Hs|[-> Hf]]%bounded_fits; [by left|]. right. apply Z.ltb_ge in Eb. by split.
Qed.
End Bounds.

(** ** Runs *)

#[local] Existing Instance DuckMail.Runs.lib.

Module PageRuns.

(** The pages of the mailbox of one message. *)
Definition asked : crequest := at_page MailRuns.asked 1.
Definition authenticating : host * res Principal := Capability.Authenticate (wb_host (cw_web MailRuns.before)) MailRuns.token [ScopeMessageRead].
Definition principal : Principal := CapabilityDb.Demo.value (MkPrincipal [] [] [] 0 0) authenticating.2.
Definition row : inbox_row := InboxRow (str "alice@example.com") Active (DeliveryRepo.Demo.now + 3600000000000) DeliveryRepo.Demo.now DeliveryRepo.Demo.now.

Lemma bearer_given : bearer MailRuns.asked = Some MailRuns.token.
Proof. vm_compute. reflexivity. Qed.

Lemma authenticated : Capability.Authenticate (wb_host (cw_web MailRuns.before)) MailRuns.token [ScopeMessageRead] = (wb_host (cw_web MailRuns.before), Ok principal).
Proof. vm_compute. reflexivity. Qed.

Lemma before_ok : cok DeliveryRepo.Demo.limits MailRuns.before.
Proof. split; [apply MailRuns.mail_before_sound|apply no_numbers|apply no_refs]. Qed.
End PageRuns.

Lemma duck_pages_complete_witness :
  zlen (listing (cdb MailRuns.before) DeliveryRepo.Demo.alice None) = 1 /\
  concat (duck_page (cdb MailRuns.before) DeliveryRepo.Demo.alice <$> seqZ 1 (duck_last 1)) =
    summary_of (cdb MailRuns.before) <$> listing (cdb MailRuns.before) DeliveryRepo.Demo.alice None.
Proof.
  assert (zlen (listing (cdb MailRuns.before) DeliveryRepo.Demo.alice None) = 1) as Hone by (vm_compute; reflexivity).
  split; [exact Hone|]. rewrite <- Hone.
  refine (proj1 (proj2 (proj2 (duck_pages_complete (S := unit) DeliveryRepo.Demo.limits MailRuns.server MailRuns.asked MailRuns.before DuckMail.Runs.service
    MailRuns.token PageRuns.principal DeliveryRepo.Demo.alice PageRuns.row eq_refl eq_refl PageRuns.bearer_given PageRuns.authenticated
    PageRuns.before_ok _ _ _ _ _)))); [vm_compute; reflexivity..|rewrite Hone; lia].
Defined.

Lemma mail_answers_bounded_witness : mail_answer MailRuns.before MailRuns.served.2.
Proof.
  refine (mail_answers_bounded None Some MailRuns.server MailRuns.asked RCfMails MailRuns.before MailRuns.served.1 MailRuns.served.2
    eq_refl (surjective_pairing _)).
Defined.
