(* ===== verification/Config.v ===== *)
(** * Configuration: [internal/config/config.go]

    The settings of the process, how they are read from the environment and
    from files of secrets, and their validation. *)

From S2P Require Import Prelude GoStrings GoTime Errors Codec NetIP.

Definition hour : Z := 3600000000000.
Definition minute : Z := 60000000000.
Definition sec : Z := 1000000000.
Definition milli : Z := 1000000.

Record HTTPConfig := MkHTTPConfig {
  hc_Addr : bytes; hc_ReadHeaderTimeout : Z; hc_ReadTimeout : Z; hc_WriteTimeout : Z; hc_IdleTimeout : Z; hc_MaxHeaderBytes : Z;
  hc_ReadinessTimeout : Z; hc_HeavyReadConcurrency : Z; hc_CreateRatePerMinute : Z; hc_CreateRateBurst : Z; hc_TrustedProxyCIDRs : list bytes
}.

Record InboxConfig := MkInboxConfig {
  ic_PublicDomains : list bytes; ic_DefaultTTL : Z; ic_MaxTTL : Z; ic_MaxMessages : Z; ic_MaxStorageBytes : Z
}.

Record QuotaConfig := MkQuotaConfig { qc_DailyLimit : Z; qc_HMACKey : bytes }.

Record CompatConfig := MkCompatConfig {
  cc_DuckMailEnabled : bool; cc_YYDSEnabled : bool; cc_CloudflareTempEnabled : bool; cc_CloudflareLegacyPathsEnabled : bool
}.

Record SessionConfig := MkSessionConfig { sc_Key : bytes; sc_Lifetime : Z }.
Record CleanupConfig := MkCleanupConfig { cl_BatchSize : Z; cl_Interval : Z; cl_Timeout : Z }.

Record LMTPConfig := MkLMTPConfig {
  lc_Addr : bytes; lc_Hostname : bytes; lc_MaxMessageBytes : Z; lc_MaxCommandBytes : Z; lc_MaxDataLineBytes : Z; lc_MaxRecipients : Z;
  lc_MaxSessions : Z; lc_SessionTimeout : Z; lc_DeliveryTimeout : Z
}.

Record ParserConfig := MkParserConfig {
  pc_Workers : Z; pc_PollInterval : Z; pc_ParseTimeout : Z; pc_LeaseDuration : Z; pc_MaxAttempts : Z; pc_RetryBase : Z; pc_RetryMax : Z
}.

Record PostgresConfig := MkPostgresConfig { pg_DSN : bytes; pg_MinConnections : Z; pg_MaxConnections : Z; pg_ConnectTimeout : Z }.
Record ContentConfig := MkContentConfig { co_Root : bytes; co_MaxBytes : Z; co_MinFreeBytes : Z }.

Record Config := MkConfig {
  cf_HTTP : HTTPConfig; cf_LMTP : LMTPConfig; cf_Parser : ParserConfig; cf_Postgres : PostgresConfig; cf_Content : ContentConfig;
  cf_Inbox : InboxConfig; cf_CreateQuota : QuotaConfig; cf_Compatibility : CompatConfig; cf_BrowserSession : SessionConfig;
  cf_Cleanup : CleanupConfig; cf_LogLevel : Z; cf_ShutdownTimeout : Z
}.

(** ** [net.ParseCIDR] *)

(** [dtoi] on the whole text. *)
Definition dtoi (s : bytes) : option Z :=
  if bool_decide (s = []) || negb (forallb is_digit s) then None
  else if 16777215 <=? digits_value s then None else Some (digits_value s).

(** [CIDRMask] *)
Definition cidr_mask (ones : Z) (bytes_ : nat) : bytes :=
  (λ i, byte_of (256 - 2 ^ (8 - Z.max 0 (Z.min 8 (ones - 8 * Z.of_nat i))))) <$> seq 0 bytes_.

Definition mask_ip (ip mask : bytes) : bytes := zip_with (λ a m, byte_of (Z.land (code a) (code m))) ip mask.

(** The network number and its mask, as [IPNet.Contains] compares them. *)
Definition ParseCIDR (s : bytes) : option (bytes * bytes) :=
  let '(addr, mask, found) := cut s "/"%char in
  if negb found then None
  else match ParseIP addr, dtoi mask with
  | Some ip, Some n =>
    let v4 := negb (bool_decide (":"%char ∈ addr)) in
    if (if v4 then 32 else 128) <? n then None
    else if v4 then let m := cidr_mask n 4 in Some (mask_ip (drop 12 ip) m, m)
    else
      let m := cidr_mask n 16 in
      let ip := mask_ip ip m in
      match To4 ip with Some ip4 => Some (ip4, drop 12 m) | None => Some (ip, m) end
  | _, _ => None
  end.

(** ** Validation *)

(** A check of [Validate]: its complaint when the condition holds. *)
Definition complain (condition : bool) (text : string) : list goerr := if condition then [ENew text] else [].

Definition domain_rune (r : Z) : bool := (97 <=? r) && (r <=? 122) || (48 <=? r) && (r <=? 57) || (r =? 45).

Definition validLabel (label : bytes) : bool :=
  negb (bool_decide (label = [])) && (zlen label <=? 63) && negb (bool_decide (head label = Some "-"%char)) &&
  negb (bool_decide (last label = Some "-"%char)) && forallb (λ g, domain_rune (seg_rune g)) (runes label).

Definition validDomain (domain : bytes) : bool :=
  if (zlen domain <? 3) || (253 <? zlen domain) || has_prefix domain (str ".") || has_suffix domain (str ".") then false
  else forallb validLabel (split_at "."%char domain).

(** The loop over the public domains. *)
Fixpoint check_domains (seen l : list bytes) : list goerr :=
  match l with
  | [] => []
  | domain :: l =>
    if negb (validDomain domain) then ENew "MAILWISP_PUBLIC_DOMAINS contains invalid domain" :: check_domains seen l
    else complain (bool_decide (domain ∈ seen)) "MAILWISP_PUBLIC_DOMAINS contains duplicate domain" ++ check_domains (domain :: seen) l
  end.

(** Outside the interval. *)
Definition outside (lo hi x : Z) : bool := (x <? lo) || (hi <? x).

Definition validate_http (c : HTTPConfig) : list goerr :=
  complain (bool_decide (trim_space (hc_Addr c) = [])) "MAILWISP_HTTP_ADDR must not be empty" ++
  complain (hc_ReadHeaderTimeout c <=? 0) "MAILWISP_READ_HEADER_TIMEOUT must be positive" ++
  complain (hc_ReadTimeout c <=? 0) "MAILWISP_READ_TIMEOUT must be positive" ++
  complain (hc_WriteTimeout c <=? 0) "MAILWISP_WRITE_TIMEOUT must be positive" ++
  complain (hc_IdleTimeout c <=? 0) "MAILWISP_IDLE_TIMEOUT must be positive" ++
  complain (outside (Z.shiftl 8 10) (Z.shiftl 4 20) (hc_MaxHeaderBytes c)) "MAILWISP_MAX_HEADER_BYTES must be between 8192 and 4194304" ++
  complain ((hc_ReadinessTimeout c <=? 0) || (10 * sec <? hc_ReadinessTimeout c)) "MAILWISP_READINESS_TIMEOUT must be between 1ns and 10s" ++
  complain ((hc_HeavyReadConcurrency c <=? 0) || (128 <? hc_HeavyReadConcurrency c)) "MAILWISP_HEAVY_READ_CONCURRENCY must be between 1 and 128" ++
  complain ((hc_CreateRatePerMinute c <=? 0) || (10000 <? hc_CreateRatePerMinute c)) "MAILWISP_CREATE_RATE_PER_MINUTE must be between 1 and 10000" ++
  complain ((hc_CreateRateBurst c <=? 0) || (hc_CreateRatePerMinute c <? hc_CreateRateBurst c))
    "MAILWISP_CREATE_RATE_BURST must be positive and not exceed MAILWISP_CREATE_RATE_PER_MINUTE" ++
  concat ((λ cidr, complain (bool_decide (ParseCIDR cidr = None)) "MAILWISP_TRUSTED_PROXY_CIDRS contains invalid CIDR") <$> hc_TrustedProxyCIDRs c).

Definition host_space (c : ascii) : bool := (code c =? 13) || (code c =? 10) || (code c =? 9) || (code c =? 32).

Definition validate_lmtp (c : LMTPConfig) : list goerr :=
  complain (bool_decide (trim_space (lc_Addr c) = [])) "MAILWISP_LMTP_ADDR must not be empty" ++
  complain (bool_decide (trim_space (lc_Hostname c) = []) || existsb host_space (lc_Hostname c))
    "MAILWISP_LMTP_HOSTNAME must be a non-empty hostname without whitespace" ++
  complain (lc_MaxMessageBytes c <=? 0) "MAILWISP_LMTP_MAX_MESSAGE_BYTES must be positive" ++
  complain (outside 512 (Z.shiftl 64 10) (lc_MaxCommandBytes c)) "MAILWISP_LMTP_MAX_COMMAND_BYTES must be between 512 and 65536" ++
  complain (outside 998 (Z.shiftl 1 20) (lc_MaxDataLineBytes c)) "MAILWISP_LMTP_MAX_DATA_LINE_BYTES must be between 998 and 1048576" ++
  complain ((lc_MaxRecipients c <=? 0) || (1000 <? lc_MaxRecipients c)) "MAILWISP_LMTP_MAX_RECIPIENTS must be between 1 and 1000" ++
  complain ((lc_MaxSessions c <=? 0) || (10000 <? lc_MaxSessions c)) "MAILWISP_LMTP_MAX_SESSIONS must be between 1 and 10000" ++
  complain ((lc_SessionTimeout c <=? 0) || (lc_DeliveryTimeout c <=? 0)) "MAILWISP_LMTP timeouts must be positive" ++
  complain (lc_SessionTimeout c <? lc_DeliveryTimeout c)
    "MAILWISP_LMTP_SESSION_TIMEOUT must not be shorter than MAILWISP_LMTP_DELIVERY_TIMEOUT".

Definition validate_parser (c : ParserConfig) : list goerr :=
  complain ((pc_Workers c <=? 0) || (64 <? pc_Workers c)) "MAILWISP_PARSER_WORKERS must be between 1 and 64" ++
  complain (outside (100 * milli) minute (pc_PollInterval c)) "MAILWISP_PARSER_POLL_INTERVAL must be between 100ms and 1m" ++
  complain ((pc_ParseTimeout c <=? 0) || (5 * minute <? pc_ParseTimeout c)) "MAILWISP_PARSER_TIMEOUT must be between 1ns and 5m" ++
  complain ((pc_LeaseDuration c <=? pc_ParseTimeout c) || (10 * minute <? pc_LeaseDuration c))
    "MAILWISP_PARSER_LEASE_DURATION must exceed parser timeout and be at most 10m" ++
  complain ((pc_MaxAttempts c <=? 0) || (100 <? pc_MaxAttempts c)) "MAILWISP_PARSER_MAX_ATTEMPTS must be between 1 and 100" ++
  complain ((pc_RetryBase c <=? 0) || (pc_RetryMax c <? pc_RetryBase c) || (24 * hour <? pc_RetryMax c))
    "MAILWISP_PARSER_RETRY_BASE and MAILWISP_PARSER_RETRY_MAX must define a positive range up to 24h".

Definition validate_postgres (c : PostgresConfig) : list goerr :=
  complain (bool_decide (trim_space (pg_DSN c) = [])) "MAILWISP_POSTGRES_DSN must not be empty" ++
  complain (pg_MinConnections c <? 0) "MAILWISP_POSTGRES_MIN_CONNECTIONS must not be negative" ++
  complain ((pg_MaxConnections c <=? 0) || (1000 <? pg_MaxConnections c)) "MAILWISP_POSTGRES_MAX_CONNECTIONS must be between 1 and 1000" ++
  complain (pg_MaxConnections c <? pg_MinConnections c) "MAILWISP_POSTGRES_MIN_CONNECTIONS must not exceed MAILWISP_POSTGRES_MAX_CONNECTIONS" ++
  complain (pg_ConnectTimeout c <=? 0) "MAILWISP_POSTGRES_CONNECT_TIMEOUT must be positive".

Definition validate_content (max_message : Z) (c : ContentConfig) : list goerr :=
  complain (bool_decide (trim_space (co_Root c) = [])) "MAILWISP_CONTENT_ROOT must not be empty" ++
  complain (outside max_message (Z.shiftl 1 50) (co_MaxBytes c))
    "MAILWISP_CONTENT_MAX_BYTES must be at least MAILWISP_LMTP_MAX_MESSAGE_BYTES and at most 1125899906842624" ++
  complain (outside max_message (Z.shiftl 1 50) (co_MinFreeBytes c))
    "MAILWISP_CONTENT_MIN_FREE_BYTES must be at least MAILWISP_LMTP_MAX_MESSAGE_BYTES and at most 1125899906842624".

Definition validate_inbox (max_message : Z) (c : InboxConfig) : list goerr :=
  complain (bool_decide (ic_PublicDomains c = [])) "MAILWISP_PUBLIC_DOMAINS must contain at least one domain" ++
  check_domains [] (ic_PublicDomains c) ++
  complain ((ic_DefaultTTL c <=? 0) || (ic_MaxTTL c <=? 0) || (ic_MaxTTL c <? ic_DefaultTTL c))
    "MAILWISP_INBOX_DEFAULT_TTL and MAILWISP_INBOX_MAX_TTL must define a positive ordered range" ++
  complain ((ic_MaxMessages c <=? 0) || (1000000 <? ic_MaxMessages c)) "MAILWISP_INBOX_MAX_MESSAGES must be between 1 and 1000000" ++
  complain (outside max_message (Z.shiftl 1 50) (ic_MaxStorageBytes c))
    "MAILWISP_INBOX_MAX_STORAGE_BYTES must be at least MAILWISP_LMTP_MAX_MESSAGE_BYTES and at most 1125899906842624".

(** The checks of the smaller sections, in the order of the code. *)
Definition validate_rest (c : Config) : list goerr :=
  complain ((qc_DailyLimit (cf_CreateQuota c) <=? 0) || (1000000 <? qc_DailyLimit (cf_CreateQuota c)))
    "MAILWISP_CREATE_DAILY_LIMIT must be between 1 and 1000000" ++
  complain (negb (zlen (qc_HMACKey (cf_CreateQuota c)) =? 0) && negb (zlen (qc_HMACKey (cf_CreateQuota c)) =? 32))
    "MAILWISP_CREATE_QUOTA_HMAC_KEY must decode to exactly 32 bytes" ++
  complain (cc_CloudflareLegacyPathsEnabled (cf_Compatibility c) && negb (cc_CloudflareTempEnabled (cf_Compatibility c)))
    "MAILWISP_CLOUDFLARE_LEGACY_PATHS_ENABLED requires MAILWISP_CLOUDFLARE_TEMP_ENABLED" ++
  complain (negb (zlen (sc_Key (cf_BrowserSession c)) =? 0) && negb (zlen (sc_Key (cf_BrowserSession c)) =? 32))
    "MAILWISP_BROWSER_SESSION_KEY must decode to exactly 32 bytes" ++
  complain ((sc_Lifetime (cf_BrowserSession c) <=? 0) || (7 * 24 * hour <? sc_Lifetime (cf_BrowserSession c)))
    "MAILWISP_BROWSER_SESSION_LIFETIME must be between 1ns and 168h" ++
  complain (cf_ShutdownTimeout c <=? 0) "MAILWISP_SHUTDOWN_TIMEOUT must be positive" ++
  complain ((cl_BatchSize (cf_Cleanup c) <=? 0) || (1000 <? cl_BatchSize (cf_Cleanup c))) "MAILWISP_CLEANUP_BATCH_SIZE must be between 1 and 1000" ++
  complain (outside 0 (24 * hour) (cl_Interval (cf_Cleanup c))) "MAILWISP_CLEANUP_INTERVAL must be between 0 and 24h" ++
  complain ((0 <? cl_Interval (cf_Cleanup c)) && ((cl_Timeout (cf_Cleanup c) <=? 0) || (cl_Interval (cf_Cleanup c) <=? cl_Timeout (cf_Cleanup c))))
    "MAILWISP_CLEANUP_TIMEOUT must be positive and shorter than MAILWISP_CLEANUP_INTERVAL".

(** [Validate]: the errors it joins. *)
Definition Validate (c : Config) : list goerr :=
  let max_message := lc_MaxMessageBytes (cf_LMTP c) in
  validate_http (cf_HTTP c) ++ validate_lmtp (cf_LMTP c) ++ validate_parser (cf_Parser c) ++ validate_postgres (cf_Postgres c) ++
  validate_content max_message (cf_Content c) ++ validate_inbox max_message (cf_Inbox c) ++ validate_rest c.

(** ** The environment *)

Section Environment.
(** [os.Getenv]; the content of a file, as far as it is read; and what
    [net/url] makes of a DSN whose password is replaced: [None] when it is no
    URL with a scheme and a user name. *)
Context (env : bytes -> bytes) (file : bytes -> res bytes) (url_with_password : bytes -> bytes -> option bytes).

Definition prefix : bytes := str "MAILWISP_".

Definition value (name : string) (fallback : bytes) : bytes :=
  let raw := trim_space (env (prefix ++ str name)) in if bool_decide (raw = []) then fallback else raw.

Definition commaSeparated (name : string) (fallback : bytes) : list bytes :=
  filter (λ normalized, normalized <> []) ((λ part, to_lower (trim_space part)) <$> split_at ","%char (value name fallback)).

Definition duration (name : string) (fallback : Z) : Z := default 0 (ParseDuration (value name (duration_string fallback))).
Definition integer (name : string) (fallback : Z) : Z := default 0 (parse_int64 (value name (format_int fallback))).
Definition integer64 (name : string) (fallback : Z) : Z := default 0 (parse_int64 (value name (format_int fallback))).

Definition integer32 (name : string) (fallback : Z) : Z :=
  match parse_int64 (value name (format_int fallback)) with
  | Some n => if outside (- 2 ^ 31) (2 ^ 31 - 1) n then 0 else n
  | None => 0
  end.

(** [strconv.ParseBool] *)
Definition ParseBool (s : bytes) : option bool :=
  if bool_decide (s ∈ [str "1"; str "t"; str "T"; str "TRUE"; str "true"; str "True"]) then Some true
  else if bool_decide (s ∈ [str "0"; str "f"; str "F"; str "FALSE"; str "false"; str "False"]) then Some false
  else None.

Definition parseBoolean (name : string) (fallback : bool) : res bool :=
  match ParseBool (value name (if fallback then str "true" else str "false")) with
  | None => Err (EWrap "MAILWISP flag" (ENew "invalid syntax"))
  | Some b => Ok b
  end.

(** [slog.Level.UnmarshalText] *)
Definition level_name (name : bytes) : option Z :=
  let name := to_upper name in
  if bool_decide (name = str "DEBUG") then Some (-4)
  else if bool_decide (name = str "INFO") then Some 0
  else if bool_decide (name = str "WARN") then Some 4
  else if bool_decide (name = str "ERROR") then Some 8
  else None.

Definition sign_char (c : ascii) : bool := bool_decide (c = "+"%char) || bool_decide (c = "-"%char).

Definition parseLogLevel (raw : bytes) : res Z :=
  let level :=
    match list_find (λ c, sign_char c = true) raw with
    | None => level_name raw
    | Some (i, _) =>
      match parse_int64 (drop i raw), level_name (take i raw) with
      | Some offset, Some level => Some (wrap64 (level + offset))
      | _, _ => None
      end
    end in
  match level with
  | None => Err (EWrap "MAILWISP_LOG_LEVEL" (ENew "slog: level string: unknown name"))
  | Some level => Ok level
  end.

(** The loop over the two encodings. *)
Definition decode_key (raw : bytes) (length_error encoding_error : string) : res bytes :=
  match (match b64_decode true raw with Some d => Some d | None => b64pad_decode raw end) with
  | Some decoded => if negb (zlen decoded =? 32) then Err (ENew length_error) else Ok decoded
  | None => Err (ENew encoding_error)
  end.

Definition decodeSecretKey (name : string) : res bytes :=
  let raw := trim_space (env (prefix ++ str name)) in
  if bool_decide (raw = []) then Ok []
  else decode_key raw "MAILWISP key must decode to exactly 32 bytes" "MAILWISP key must be base64 or base64url".

(** [readConfiguredFile]: one byte more than the limit. *)
Definition readConfiguredFile (path : bytes) (maxBytes : Z) : res bytes :=
  match file path with
  | Err e => Err e
  | Ok content => Ok (take (Z.to_nat (maxBytes + 1)) content)
  end.

Definition secretKeyFromEnvironment (name : string) : res bytes :=
  let keyFile := trim_space (env (prefix ++ str name ++ str "_FILE")) in
  let keyValue := trim_space (env (prefix ++ str name)) in
  if negb (bool_decide (keyFile = [])) && negb (bool_decide (keyValue = []))
  then Err (ENew "MAILWISP key and MAILWISP key_FILE must not both be configured")
  else if bool_decide (keyFile = []) then decodeSecretKey name
  else match readConfiguredFile keyFile 4096 with
  | Err e => Err (EWrap "read MAILWISP key_FILE" e)
  | Ok raw =>
    if 4096 <? zlen raw then Err (ENew "MAILWISP key_FILE must not exceed 4096 bytes")
    else
      let value := trim_space raw in
      if bool_decide (value = []) then Err (ENew "MAILWISP key_FILE must not be empty")
      else decode_key value "MAILWISP key_FILE must decode to exactly 32 bytes" "MAILWISP key_FILE must contain base64 or base64url"
  end.

Definition postgresDSNWithPasswordFile (dsn passwordFile : bytes) : res bytes :=
  if bool_decide (passwordFile = []) then Ok dsn
  else match readConfiguredFile passwordFile 4096 with
  | Err e => Err (EWrap "read MAILWISP_POSTGRES_PASSWORD_FILE" e)
  | Ok passwordBytes =>
    let password := trim_space passwordBytes in
    if bool_decide (password = []) || (4096 <? zlen passwordBytes) || bool_decide (byte_of 0 ∈ password)
    then Err (ENew "MAILWISP_POSTGRES_PASSWORD_FILE must contain 1 to 4096 non-NUL bytes")
    else match url_with_password dsn password with
    | None => Err (ENew "MAILWISP_POSTGRES_DSN must be a URL with a username when password file is configured")
    | Some dsn => Ok dsn
    end
  end.

Definition load_http : HTTPConfig :=
  MkHTTPConfig (value "HTTP_ADDR" (str ":8080")) (duration "READ_HEADER_TIMEOUT" (5 * sec)) (duration "READ_TIMEOUT" (10 * sec))
    (duration "WRITE_TIMEOUT" (15 * sec)) (duration "IDLE_TIMEOUT" (60 * sec)) (integer "MAX_HEADER_BYTES" (Z.shiftl 1 20))
    (duration "READINESS_TIMEOUT" (2 * sec)) (integer "HEAVY_READ_CONCURRENCY" 4) (integer "CREATE_RATE_PER_MINUTE" 12)
    (integer "CREATE_RATE_BURST" 4) (commaSeparated "TRUSTED_PROXY_CIDRS" (str "127.0.0.1/32,::1/128")).

Definition load_lmtp : LMTPConfig :=
  MkLMTPConfig (value "LMTP_ADDR" (str "127.0.0.1:2525")) (value "LMTP_HOSTNAME" (str "mailwisp.local"))
    (integer64 "LMTP_MAX_MESSAGE_BYTES" (Z.shiftl 25 20)) (integer "LMTP_MAX_COMMAND_BYTES" (Z.shiftl 4 10))
    (integer "LMTP_MAX_DATA_LINE_BYTES" (Z.shiftl 64 10)) (integer "LMTP_MAX_RECIPIENTS" 100) (integer "LMTP_MAX_SESSIONS" 64)
    (duration "LMTP_SESSION_TIMEOUT" (5 * minute)) (duration "LMTP_DELIVERY_TIMEOUT" (30 * sec)).

Definition load_parser : ParserConfig :=
  MkParserConfig (integer "PARSER_WORKERS" 2) (duration "PARSER_POLL_INTERVAL" sec) (duration "PARSER_TIMEOUT" (30 * sec))
    (duration "PARSER_LEASE_DURATION" minute) (integer "PARSER_MAX_ATTEMPTS" 5) (duration "PARSER_RETRY_BASE" (5 * sec))
    (duration "PARSER_RETRY_MAX" (5 * minute)).

(** [Load] *)
Definition Load : res Config :=
  match parseLogLevel (value "LOG_LEVEL" (str "info")) with Err e => Err e | Ok logLevel =>
  match parseBoolean "DUCKMAIL_ENABLED" false with Err e => Err e | Ok duckMailEnabled =>
  match parseBoolean "YYDS_ENABLED" false with Err e => Err e | Ok yydsEnabled =>
  match parseBoolean "CLOUDFLARE_TEMP_ENABLED" false with Err e => Err e | Ok cloudflareTempEnabled =>
  match parseBoolean "CLOUDFLARE_LEGACY_PATHS_ENABLED" false with Err e => Err e | Ok cloudflareLegacyPathsEnabled =>
  match postgresDSNWithPasswordFile (value "POSTGRES_DSN" []) (trim_space (env (prefix ++ str "POSTGRES_PASSWORD_FILE"))) with Err e => Err e | Ok postgresDSN =>
  match secretKeyFromEnvironment "BROWSER_SESSION_KEY" with Err e => Err e | Ok browserSessionKey =>
  match secretKeyFromEnvironment "CREATE_QUOTA_HMAC_KEY" with Err e => Err e | Ok createQuotaKey =>
    let cfg := MkConfig load_http load_lmtp load_parser
      (MkPostgresConfig postgresDSN (integer32 "POSTGRES_MIN_CONNECTIONS" 1) (integer32 "POSTGRES_MAX_CONNECTIONS" 10)
        (duration "POSTGRES_CONNECT_TIMEOUT" (5 * sec)))
      (MkContentConfig (value "CONTENT_ROOT" (str "./data/content")) (integer64 "CONTENT_MAX_BYTES" (Z.shiftl 25 20))
        (integer64 "CONTENT_MIN_FREE_BYTES" (Z.shiftl 1 30)))
      (MkInboxConfig (commaSeparated "PUBLIC_DOMAINS" (str "mailwisp.local")) (duration "INBOX_DEFAULT_TTL" (24 * hour))
        (duration "INBOX_MAX_TTL" (7 * 24 * hour)) (integer "INBOX_MAX_MESSAGES" 500) (integer64 "INBOX_MAX_STORAGE_BYTES" (Z.shiftl 256 20)))
      (MkQuotaConfig (integer "CREATE_DAILY_LIMIT" 100) createQuotaKey)
      (MkCompatConfig duckMailEnabled yydsEnabled cloudflareTempEnabled cloudflareLegacyPathsEnabled)
      (MkSessionConfig browserSessionKey (duration "BROWSER_SESSION_LIFETIME" (12 * hour)))
      (MkCleanupConfig (integer "CLEANUP_BATCH_SIZE" 100) (duration "CLEANUP_INTERVAL" (5 * minute)) (duration "CLEANUP_TIMEOUT" (2 * minute)))
      logLevel (duration "SHUTDOWN_TIMEOUT" (10 * sec)) in
    match errors_join (Validate cfg) with
    | None => Ok cfg
    | Some e => Err e
    end
  end end end end end end end end.
End Environment.
