(* ===== verification/App.v ===== *)
(** * The application: [internal/app/app.go], [internal/app/postgres.go], [internal/postgres/pool.go]

    The construction of the process from its configuration, in the order of
    the code, with the checks of every constructor.  The connection pool and
    the file system are parameters. *)

From S2P Require Import Prelude GoStrings GoTime Errors Codec NetIP Uuid FileSystem Message ContentStore ContentStoreFacts Mail Database DatabaseFacts DeliveryRepo MailboxRepo ParseRepo ParserJob MailParser MailParserFacts Retention Token Scope CapabilityRepo Capability CapabilityDb LmtpCommand LmtpSession MailboxService BrowserSession CreateQuota Http HttpApi DuckMail Adapters CompatView CompatApi Config.

#[local] Opaque sha256.

(** ** The pool *)

Record PoolOptions := MkPoolOptions {
  pl_DSN : bytes; pl_MinConnections : Z; pl_MaxConnections : Z; pl_ConnectTimeout : Z; pl_HealthCheckPeriod : Z; pl_MaxConnectionIdle : Z
}.

(** [OpenPool]; [driver] is what [pgxpool] says of the options. *)
Definition OpenPool (driver : PoolOptions -> option goerr) (o : PoolOptions) : option goerr :=
  if bool_decide (pl_DSN o = []) then Some (ENew "postgres DSN is required")
  else if (pl_MaxConnections o <=? 0) || (pl_MinConnections o <? 0) || (pl_MaxConnections o <? pl_MinConnections o)
  then Some (ENew "invalid postgres connection bounds")
  else if (pl_ConnectTimeout o <=? 0) || (pl_HealthCheckPeriod o <=? 0) || (pl_MaxConnectionIdle o <=? 0)
  then Some (ENew "postgres pool durations must be positive")
  else match driver o with Some e => Some (EWrap "create postgres pool" e) | None => None end.

Definition openPostgresPool (driver : PoolOptions -> option goerr) (c : PostgresConfig) : option goerr :=
  match OpenPool driver (MkPoolOptions (pg_DSN c) (pg_MinConnections c) (pg_MaxConnections c) (pg_ConnectTimeout c) (30 * sec) (5 * minute)) with
  | Some e => Some (EWrap "open postgres pool" e)
  | None => None
  end.

(** ** The HTTP server *)

(** [NewServer] of the package [httpapi]: its limiter, the networks of trusted
    proxies, and how many downloads may run. *)
Definition NewServer (c : HTTPConfig) : createLimiter * list (bytes * bytes) * Z :=
  let heavy := if hc_HeavyReadConcurrency c <=? 0 then 4 else hc_HeavyReadConcurrency c in
  let rate := if hc_CreateRatePerMinute c <=? 0 then 12 else hc_CreateRatePerMinute c in
  let burst := if hc_CreateRateBurst c <=? 0 then 4 else hc_CreateRateBurst c in
  (newCreateLimiter rate burst, omap ParseCIDR (hc_TrustedProxyCIDRs c), heavy).

(** ** Composition *)

Record App := MkApp {
  ap_store : Store;
  ap_content : ContentStore.config;
  ap_limits : limits_opt;
  ap_parser : Limits;
  ap_worker : ParserOptions;
  ap_retention : option RetentionOptions;
  ap_lmtp : Options;
  ap_http : HttpApi.Server;
  ap_limiter : createLimiter;
  ap_adapters : adapters
}.

(** A constructor that may fail, with the text its error is wrapped in. *)
Definition attempt {A B} (text : string) (m : res A) (k : A -> res B) : res B :=
  match m with Err e => Err (EWrap text e) | Ok a => k a end.

Definition checked {A} (value : A) (e : option goerr) : res A := match e with Some e => Err e | None => Ok value end.

Section Compose.
Context `{!UUIDLib} `{!Argon2Lib}.
(** The driver, where the content root is, the disk, [crypto/rand], and the
    version of the schema that the readiness check finds. *)
Context (driver : PoolOptions -> option goerr) (at_path : bytes -> path) (d : disk) (random : bytes) (schema : Z).

Definition open_store (name : bytes) (c : ContentStore.config) : res Store :=
  match Open_check name c with Some text => Err (ENew text) | None => (Open c d).2 end.

Definition parser_limits (cfg : Config) : Limits :=
  let l := DefaultLimits in
  MkLimits (lc_MaxMessageBytes (cf_LMTP cfg)) (MaxHeaderBytes l) (MaxTotalHeaderBytes l) (MaxHeaders l) (MaxParts l) (MaxDepth l) (MaxDecodedBytes l)
    (MaxPartBytes l) (MaxTextBytes l) (MaxHTMLBytes l) (MaxSubjectBytes l) (MaxFilenameBytes l) (MaxAddresses l) (MaxWarnings l).

Definition worker_options (c : ParserConfig) : ParserOptions :=
  MkParserOptions (pc_Workers c) (pc_PollInterval c) (pc_ParseTimeout c) (pc_LeaseDuration c) (pc_MaxAttempts c) (pc_RetryBase c) (pc_RetryMax c).

Definition lmtp_options (c : LMTPConfig) : Options :=
  MkOptions (lc_Hostname c) (lc_MaxMessageBytes c) (lc_MaxCommandBytes c) (lc_MaxDataLineBytes c) (lc_MaxRecipients c) (lc_MaxSessions c)
    (lc_SessionTimeout c) (lc_DeliveryTimeout c).

(** The sweeps, unless the interval is zero. *)
Definition new_retention (c : CleanupConfig) : res (option RetentionOptions) :=
  if 0 <? cl_Interval c then
    match NewRetention (MkRetentionOptions (cl_BatchSize c) (cl_Interval c) (cl_Timeout c)) with Err e => Err e | Ok r => Ok (Some r) end
  else Ok None.

Definition new_sessions (c : SessionConfig) : res (option BrowserSessionManager) :=
  if negb (zlen (sc_Key c) =? 0) then
    match NewBrowserSessionManager (sc_Key c) (sc_Lifetime c) with Err e => Err e | Ok m => Ok (Some m) end
  else Ok None.

(** An adapter that is enabled or not. *)
Definition enabled {A} (flag : bool) (m : res A) : res (option A) :=
  if flag then match m with Err e => Err e | Ok a => Ok (Some a) end else Ok None.

Definition new_adapters (cfg : Config) : res adapters :=
  let c := cf_Compatibility cfg in
  let inbox := cf_Inbox cfg in
  attempt "create DuckMail service"
    (enabled (cc_DuckMailEnabled c) (match NewDuckService (MkDuckOptions (ic_PublicDomains inbox) (ic_DefaultTTL inbox) (ic_MaxTTL inbox)) random with
                                     | Err e => Err e | Ok (s, _) => Ok s end)) (λ duck,
  attempt "create YYDS compatibility service" (enabled (cc_YYDSEnabled c) (NewYydsService (ic_PublicDomains inbox))) (λ yyds,
  attempt "create Cloudflare Temp Email compatibility service" (enabled (cc_CloudflareTempEnabled c) (NewCfService (ic_PublicDomains inbox))) (λ cloudflare,
  Ok (MkAdapters duck yyds cloudflare (cc_CloudflareTempEnabled c && cc_CloudflareLegacyPathsEnabled c))))).

(** [New], with a logger. *)
Definition New (cfg : Config) : res App :=
  match openPostgresPool driver (cf_Postgres cfg) with
  | Some e => Err e
  | None =>
    let content := ContentStore.MkConfig (at_path (co_Root (cf_Content cfg))) (co_MaxBytes (cf_Content cfg)) (co_MinFreeBytes (cf_Content cfg)) in
    attempt "open content store" (open_store (co_Root (cf_Content cfg)) content) (λ store,
    attempt "create delivery repository"
      (NewDeliveryRepositoryWithLimits (MkDeliveryLimits (ic_MaxMessages (cf_Inbox cfg)) (ic_MaxStorageBytes (cf_Inbox cfg)))) (λ limits,
    attempt "create persistent Inbox admission" (NewQuotaService (qc_HMACKey (cf_CreateQuota cfg)) (qc_DailyLimit (cf_CreateQuota cfg))) (λ quota,
    attempt "create MIME parser" (NewParser (parser_limits cfg)) (λ parser,
    attempt "create Inbox service"
      (NewService (MkServiceOptions (ic_PublicDomains (cf_Inbox cfg)) (ic_DefaultTTL (cf_Inbox cfg)) (ic_MaxTTL (cf_Inbox cfg)))) (λ mailbox,
    attempt "create parser worker" (checked (worker_options (cf_Parser cfg)) (NewParserWorker (worker_options (cf_Parser cfg)))) (λ worker,
    attempt "create retention job" (new_retention (cf_Cleanup cfg)) (λ retention,
    attempt "create LMTP server"
      (checked (lmtp_options (cf_LMTP cfg)) (option_map ENew (NewServer_check (lmtp_options (cf_LMTP cfg))))) (λ lmtp,
    let '(limiter, proxies, heavy) := NewServer (cf_HTTP cfg) in
    attempt "create browser session manager" (new_sessions (cf_BrowserSession cfg)) (λ sessions,
    match new_adapters cfg with
    | Err e => Err e
    | Ok others =>
      Ok (MkApp store content limits parser worker retention lmtp
        (MkServer false (Some schema) (Some mailbox) true sessions (Some quota) proxies heavy content) limiter others)
    end)))))))))
  end.
End Compose.

(** ** A validated configuration *)

Lemma complain_nil b text : complain b text = [] <-> b = false.
Proof. by destruct b. Qed.

(** The complaints of a list of checks. *)
Ltac no_complaints H :=
  repeat match type of H with
  | _ ++ _ = [] => let H' := fresh H in apply app_nil in H as [H' H]; rewrite ?complain_nil in H'
  end; rewrite ?complain_nil in H.

Lemma outside_false lo hi x : outside lo hi x = false -> lo <= x <= hi.
Proof. unfold outside. rewrite orb_false_iff, !Z.ltb_ge. lia. Qed.

(** A domain the validation accepts is written in lower-case ASCII. *)
Lemma valid_label_lower l : validLabel l = true -> forallb (λ c, is_ascii c && bool_decide (lower_byte c = c) && negb (ascii_space c)) l = true.
Proof.
  unfold validLabel. intros [_ Hr]%andb_prop.
  assert (forallb is_ascii l = true) as Ha.
  { apply runes_small, forallb_forall. intros g Hg. apply (proj1 (forallb_forall _ _) Hr) in Hg. apply Z.ltb_lt.
    unfold domain_rune in Hg. rewrite !orb_true_iff, !andb_true_iff, !Z.leb_le, Z.eqb_eq in Hg. lia. }
  rewrite runes_ascii in Hr by done. apply forallb_forall. intros c Hc. apply (in_map ascii_seg) in Hc.
  apply (proj1 (forallb_forall _ _) Hr) in Hc. cbn [seg_rune ascii_seg] in Hc. revert Hc.
  assert (implb (domain_rune (code c)) (is_ascii c && bool_decide (lower_byte c = c) && negb (ascii_space c)) = true) as Hi
    by byte_check (λ c, implb (domain_rune (code c)) (is_ascii c && bool_decide (lower_byte c = c) && negb (ascii_space c))) c.
  by destruct (domain_rune (code c)).
Qed.

Lemma split_at_in c s x : x ∈ s -> x = c \/ exists p, p ∈ split_at c s /\ x ∈ p.
Proof.
  induction s as [|d s IH]; [by intros ?%not_elem_of_nil|]. intros [->|Hx]%elem_of_cons; cbn [split_at]; destruct (bool_decide (d = c)) eqn:E.
  - apply bool_decide_eq_true in E. by left.
  - right. destruct (split_at c s) as [|p l]; [exists [d]|exists (d :: p)]; split; by left.
  - destruct (IH Hx) as [|(p & Hp & Hin)]; [by left|]. right. exists p. split; [by right|done].
  - destruct (IH Hx) as [|(p & Hp & Hin)]; [by left|]. right. destruct (split_at c s) as [|p' l]; [by apply not_elem_of_nil in Hp|].
    apply elem_of_cons in Hp as [->|Hp]; [exists (d :: p'); split; [by left|by right]|exists p; split; [by right|done]].
Qed.

Lemma valid_domain_fixed domain : validDomain domain = true -> to_lower (trim_space domain) = domain /\ domain <> [].
Proof.
  unfold validDomain. destruct (_ || _) eqn:E; [done|]. rewrite !orb_false_iff in E. destruct E as [[[Hlen _] _] _]. intros Hl.
  assert (forall c, In c domain -> is_ascii c && bool_decide (lower_byte c = c) && negb (ascii_space c) = true) as Hc.
  { intros c Hc%list_elem_of_In. destruct (split_at_in "."%char domain c Hc) as [->|(p & Hp & Hin)]; [done|].
    apply list_elem_of_In in Hp. apply (proj1 (forallb_forall _ _) Hl) in Hp. apply valid_label_lower in Hp.
    apply list_elem_of_In in Hin. by apply (proj1 (forallb_forall _ _) Hp) in Hin. }
  assert (forallb is_ascii domain = true) as Ha by (apply forallb_forall; intros c Hin%Hc; by destruct (is_ascii c)).
  assert (forall c, In c domain -> negb (ascii_space c) = true) as Hs by (intros c Hin%Hc; apply andb_prop in Hin; tauto).
  split; [|intros ->; by vm_compute in Hlen].
  rewrite trim_space_clean; [|done| |].
  - rewrite to_lower_ascii by done. rewrite <- (list_fmap_id domain) at 2. apply list_fmap_ext. intros i c Hi.
    apply list_elem_of_lookup_2, list_elem_of_In, Hc, andb_prop in Hi as [[_ Hi]%andb_prop _]. by apply bool_decide_eq_true in Hi.
  - destruct domain as [|c s]; [done|]. apply Hs. by left.
  - destruct (last domain) as [c|] eqn:El; [|done]. apply Hs, list_elem_of_In. by apply last_Some_elem_of.
Qed.

Lemma check_domains_nil seen l : check_domains seen l = [] ->
  Forall (λ domain, validDomain domain = true) l /\ NoDup l /\ forall domain, domain ∈ l -> domain ∉ seen.
Proof.
  revert seen. induction l as [|x l IH]; intros seen; cbn [check_domains].
  { intros _. split_and!; [constructor|constructor|by intros ? ?%not_elem_of_nil]. }
  destruct (validDomain x) eqn:Ev; [|done]. cbn [negb]. intros [Hx Hl]%app_nil. apply complain_nil, bool_decide_eq_false in Hx.
  destruct (IH _ Hl) as (Hv & Hn & Hs). split_and!; [by constructor| |].
  - constructor; [|done]. intros Hin. by apply (Hs _ Hin); left.
  - intros y [->|Hy]%elem_of_cons; [done|]. intros Hin. by apply (Hs _ Hy); right.
Qed.

(** The services keep the validated domains as they are. *)
Lemma normalize_fixed l : Forall (λ domain, validDomain domain = true) l -> forall seen, NoDup (seen ++ l) ->
  normalize_domains seen l = Ok (seen ++ l) /\ cf_domains seen l = Ok (seen ++ l).
Proof.
  induction 1 as [|x l Hx _ IH]; intros seen Hn; cbn [normalize_domains cf_domains]; [by rewrite app_nil_r|].
  destruct (valid_domain_fixed x Hx) as [-> Hne]. rewrite (bool_decide_false (x = [])) by done.
  assert (x ∉ seen) as Hs by (intros Hin; apply NoDup_app in Hn as (_ & Hd & _); by apply (Hd x Hin); left).
  rewrite (bool_decide_false (x ∈ seen)) by done. specialize (IH (seen ++ [x])). rewrite <- app_assoc in IH. by apply IH.
Qed.

Lemma yyds_fixed l : Forall (λ domain, validDomain domain = true) l -> yyds_domains l = Ok l.
Proof.
  induction 1 as [|x l Hx _ IH]; [done|]. cbn [yyds_domains]. destruct (valid_domain_fixed x Hx) as [-> Hne].
  rewrite bool_decide_false by done. by rewrite IH.
Qed.

Lemma lower_fixed l : Forall (λ domain, validDomain domain = true) l -> (λ domain, to_lower (trim_space domain)) <$> l = l.
Proof.
  induction 1 as [|x l Hx _ IH]; [done|]. cbn [fmap list_fmap]. destruct (valid_domain_fixed x Hx) as [-> _]. by f_equal.
Qed.

(** No trusted network is dropped. *)
Lemma proxies_complete l :
  concat ((λ cidr, complain (bool_decide (ParseCIDR cidr = None)) "MAILWISP_TRUSTED_PROXY_CIDRS contains invalid CIDR") <$> l) = [] ->
  Some <$> omap ParseCIDR l = ParseCIDR <$> l.
Proof.
  induction l as [|x l IH]; [done|]. cbn [fmap list_fmap concat]. intros [Hx Hl]%app_nil. apply complain_nil, bool_decide_eq_false in Hx.
  cbn [omap list_omap]. destruct (ParseCIDR x); [|done]. cbn [fmap list_fmap]. f_equal. by apply IH.
Qed.

Lemma trim_nonempty s : trim_space s <> [] -> s <> [].
Proof. by intros Hs ->. Qed.

Section Validated.
Context `{!UUIDLib} `{!Argon2Lib}.
Context (cfg : Config) (Hcfg : Validate cfg = []).

Record valid_parts : Prop := {
  vp_http : validate_http (cf_HTTP cfg) = [];
  vp_lmtp : validate_lmtp (cf_LMTP cfg) = [];
  vp_parser : validate_parser (cf_Parser cfg) = [];
  vp_postgres : validate_postgres (cf_Postgres cfg) = [];
  vp_content : validate_content (lc_MaxMessageBytes (cf_LMTP cfg)) (cf_Content cfg) = [];
  vp_inbox : validate_inbox (lc_MaxMessageBytes (cf_LMTP cfg)) (cf_Inbox cfg) = [];
  vp_rest : validate_rest cfg = []
}.

Lemma validate_parts : valid_parts.
Proof. unfold Validate in Hcfg. cbv zeta in Hcfg. do 6 (apply app_nil in Hcfg as [? Hcfg]). by split. Qed.

Lemma valid_pool driver : (forall o, driver o = None) -> openPostgresPool driver (cf_Postgres cfg) = None.
Proof.
  intros Hd. pose proof (vp_postgres validate_parts) as Hp. unfold validate_postgres in Hp. no_complaints Hp. unfold openPostgresPool, OpenPool.
  cbn [pl_DSN pl_MinConnections pl_MaxConnections pl_ConnectTimeout pl_HealthCheckPeriod pl_MaxConnectionIdle].
  apply bool_decide_eq_false, trim_nonempty in Hp0. rewrite bool_decide_false by done. rewrite !orb_false_iff in *.
  destruct (_ <=? 0) eqn:E1; [lia|]. destruct (_ <? 0) eqn:E2; [lia|]. destruct (_ <? pg_MinConnections _) eqn:E3; [lia|].
  cbn [orb]. destruct (pg_ConnectTimeout _ <=? 0) eqn:E4; [lia|]. cbn [orb]. change ((30 * sec <=? 0) || (5 * minute <=? 0)) with false. cbn iota. by rewrite Hd.
Qed.

(** The sizes fit into each other. *)
Lemma valid_sizes : 0 < lc_MaxMessageBytes (cf_LMTP cfg) /\
  lc_MaxMessageBytes (cf_LMTP cfg) <= co_MaxBytes (cf_Content cfg) <= 2 ^ 50 /\
  lc_MaxMessageBytes (cf_LMTP cfg) <= co_MinFreeBytes (cf_Content cfg) <= 2 ^ 50 /\
  lc_MaxMessageBytes (cf_LMTP cfg) <= ic_MaxStorageBytes (cf_Inbox cfg) <= 2 ^ 50 /\
  0 < ic_MaxMessages (cf_Inbox cfg) <= 1000000.
Proof.
  destruct validate_parts as [_ Hl _ _ Hc Hi _]. unfold validate_lmtp in Hl. unfold validate_content in Hc. unfold validate_inbox in Hi.
  no_complaints Hl. no_complaints Hc. no_complaints Hi.
  repeat match goal with E : outside _ _ _ = false |- _ => apply outside_false in E end.
  change (Z.shiftl 1 50) with (2 ^ 50) in *. rewrite !orb_false_iff in *. lia.
Qed.

Lemma valid_open name c : maxBytes c = co_MaxBytes (cf_Content cfg) -> minFreeBytes c = co_MinFreeBytes (cf_Content cfg) ->
  name = co_Root (cf_Content cfg) -> Open_check name c = None.
Proof.
  intros Em Ef ->. pose proof valid_sizes as Hs. pose proof (vp_content validate_parts) as Hc. unfold validate_content in Hc. no_complaints Hc.
  unfold Open_check. rewrite Hc0, Em, Ef. destruct (_ <=? 0) eqn:E1; [lia|]. destruct (_ <? 0) eqn:E2; [lia|]. done.
Qed.

Lemma valid_limits : fitting (parser_limits cfg).
Proof.
  pose proof valid_sizes as Hs. split; [|split; [cbn [parser_limits MaxRawBytes]; lia|by vm_compute]].
  unfold validate. cbn [parser_limits existsb MaxRawBytes].
  replace (lc_MaxMessageBytes (cf_LMTP cfg) <=? 0) with false by lia. reflexivity.
Qed.

Lemma valid_domains : Forall (λ domain, validDomain domain = true) (ic_PublicDomains (cf_Inbox cfg)) /\ NoDup (ic_PublicDomains (cf_Inbox cfg)) /\
  ic_PublicDomains (cf_Inbox cfg) <> [] /\ 0 < ic_DefaultTTL (cf_Inbox cfg) <= ic_MaxTTL (cf_Inbox cfg).
Proof.
  pose proof (vp_inbox validate_parts) as Hi. unfold validate_inbox in Hi. no_complaints Hi.
  apply check_domains_nil in Hi1 as (Hv & Hn & _). apply bool_decide_eq_false in Hi0. rewrite !orb_false_iff in *. split_and!; try done; lia.
Qed.

Lemma valid_service : NewService (MkServiceOptions (ic_PublicDomains (cf_Inbox cfg)) (ic_DefaultTTL (cf_Inbox cfg)) (ic_MaxTTL (cf_Inbox cfg))) =
  Ok (MkService (ic_PublicDomains (cf_Inbox cfg)) (ic_DefaultTTL (cf_Inbox cfg)) (ic_MaxTTL (cf_Inbox cfg))).
Proof.
  destruct valid_domains as (Hv & Hn & Hne & Ht). unfold NewService. cbn [so_PublicDomains so_DefaultTTL so_MaxTTL].
  rewrite bool_decide_false by done. destruct (_ <=? 0) eqn:E1; [lia|]. destruct (ic_MaxTTL _ <=? 0) eqn:E2; [lia|].
  destruct (_ <? _) eqn:E3; [lia|]. cbn [orb]. by destruct (normalize_fixed _ Hv [] Hn) as [-> _].
Qed.

Lemma valid_worker : NewParserWorker (worker_options (cf_Parser cfg)) = None.
Proof.
  pose proof (vp_parser validate_parts) as Hp. unfold validate_parser in Hp. no_complaints Hp.
  apply outside_false in Hp1. unfold milli, minute in *. rewrite !orb_false_iff in *. unfold NewParserWorker. cbn [worker_options po_Workers po_PollInterval po_ParseTimeout po_LeaseDuration po_MaxAttempts po_RetryBase po_RetryMax].
  repeat match goal with |- context [if ?b then _ else _] => replace b with false by (symmetry; rewrite ?orb_false_iff; lia) end. done.
Qed.

Lemma valid_retention : new_retention (cf_Cleanup cfg) =
  Ok (if 0 <? cl_Interval (cf_Cleanup cfg)
      then Some (MkRetentionOptions (cl_BatchSize (cf_Cleanup cfg)) (cl_Interval (cf_Cleanup cfg)) (cl_Timeout (cf_Cleanup cfg))) else None).
Proof.
  pose proof (vp_rest validate_parts) as Hr. unfold validate_rest in Hr. no_complaints Hr. unfold new_retention.
  destruct (0 <? _) eqn:E; [|done]. cbn [andb] in Hr. rewrite !orb_false_iff in *. unfold NewRetention, NewRetentionSweeper.
  cbn [ro_BatchSize ro_Interval ro_Timeout].
  replace ((cl_BatchSize (cf_Cleanup cfg) <=? 0) || (1000 <? cl_BatchSize (cf_Cleanup cfg))) with false by (symmetry; rewrite orb_false_iff; lia).
  cbn [ro_BatchSize]. by replace (_ || _ || _) with false by (symmetry; rewrite !orb_false_iff; lia).
Qed.

Lemma valid_lmtp : NewServer_check (lmtp_options (cf_LMTP cfg)) = None.
Proof.
  pose proof (vp_lmtp validate_parts) as Hl. unfold validate_lmtp in Hl. no_complaints Hl.
  repeat match goal with E : outside _ _ _ = false |- _ => apply outside_false in E end. rewrite !orb_false_iff in *. unfold NewServer_check.
  cbn [lmtp_options Hostname MaxMessageBytes MaxCommandBytes MaxDataLineBytes MaxRecipients MaxSessions SessionTimeout DeliveryTimeout].
  destruct Hl1 as [Hh _]. rewrite Hh.
  repeat match goal with |- context [if ?b then _ else _] => replace b with false by (symmetry; rewrite ?orb_false_iff; lia) end. done.
Qed.

Lemma valid_sessions : exists m, new_sessions (cf_BrowserSession cfg) = Ok m /\ (is_Some m <-> sc_Key (cf_BrowserSession cfg) <> []).
Proof.
  pose proof (vp_rest validate_parts) as Hr. unfold validate_rest in Hr. no_complaints Hr. unfold new_sessions, NewBrowserSessionManager.
  destruct (zlen (sc_Key _) =? 0) eqn:E; cbn [negb] in *.
  { exists None. split; [done|]. split; [by intros [? [=]]|]. intros Hk. destruct Hk. apply nil_length_inv. unfold zlen in E. lia. }
  cbn [andb] in Hr3. rewrite Hr3. unfold hour, nanoseconds in *. rewrite orb_false_iff in Hr4.
  replace (_ || _) with false by (symmetry; rewrite !orb_false_iff; lia). eexists. split; [reflexivity|]. split; [|done]. intros _ Hk. by rewrite Hk in E.
Qed.

Lemma enabled_ok {A} flag (m : res A) a : m = Ok a -> enabled flag m = Ok (if flag then Some a else None).
Proof. intros ->. by destruct flag. Qed.

(** Every service for other clients that is enabled serves the same domains. *)
Record same_domains (domains : list bytes) (a : adapters) : Prop := {
  sd_duck : forall s, ad_duck a = Some s -> ds_domains s = domains;
  sd_yyds : forall l, ad_yyds a = Some l -> l = domains;
  sd_cloudflare : forall l, ad_cloudflare a = Some l -> l = domains
}.

Lemma valid_adapters random : passwordSaltBytes <= zlen random ->
  exists a, new_adapters random cfg = Ok a /\ same_domains (ic_PublicDomains (cf_Inbox cfg)) a /\
    (is_Some (ad_duck a) <-> cc_DuckMailEnabled (cf_Compatibility cfg) = true) /\
    (is_Some (ad_yyds a) <-> cc_YYDSEnabled (cf_Compatibility cfg) = true) /\
    (is_Some (ad_cloudflare a) <-> cc_CloudflareTempEnabled (cf_Compatibility cfg) = true).
Proof.
  intros Hr. destruct valid_domains as (Hv & Hn & Hne & Ht). unfold new_adapters. cbv zeta.
  assert (exists s rest, NewDuckService (MkDuckOptions (ic_PublicDomains (cf_Inbox cfg)) (ic_DefaultTTL (cf_Inbox cfg)) (ic_MaxTTL (cf_Inbox cfg))) random = Ok (s, rest) /\
    ds_domains s = ic_PublicDomains (cf_Inbox cfg)) as (s & rest & -> & Hs).
  { unfold NewDuckService. cbn [do_PublicDomains do_DefaultTTL do_MaxTTL]. rewrite bool_decide_false by done.
    replace (ic_DefaultTTL (cf_Inbox cfg) <=? 0) with false by lia. replace (_ <? _) with false by lia. cbn [orb].
    unfold hashPassword, read_full. replace (zlen random <? passwordSaltBytes) with false by lia.
    eexists _, _. split; [reflexivity|]. cbn [ds_domains]. by apply lower_fixed. }
  assert (NewYydsService (ic_PublicDomains (cf_Inbox cfg)) = Ok (ic_PublicDomains (cf_Inbox cfg))) as ->.
  { unfold NewYydsService. rewrite bool_decide_false by done. by apply yyds_fixed. }
  assert (NewCfService (ic_PublicDomains (cf_Inbox cfg)) = Ok (ic_PublicDomains (cf_Inbox cfg))) as ->.
  { unfold NewCfService. rewrite bool_decide_false by done. by apply normalize_fixed. }
  rewrite !(enabled_ok _ (Ok _) _ eq_refl). cbn [attempt]. eexists. split; [reflexivity|].
  cbn [ad_duck ad_yyds ad_cloudflare].
  split; [split; cbn [ad_duck ad_yyds ad_cloudflare]; intros x;
    [destruct (cc_DuckMailEnabled _)|destruct (cc_YYDSEnabled _)|destruct (cc_CloudflareTempEnabled _)]; intros Hx; simplify_eq; done|].
  by destruct (cc_DuckMailEnabled _), (cc_YYDSEnabled _), (cc_CloudflareTempEnabled _); split_and!; (split; [try by intros [? [=]]|done]).
Qed.

Lemma valid_proxies : Some <$> omap ParseCIDR (hc_TrustedProxyCIDRs (cf_HTTP cfg)) = ParseCIDR <$> hc_TrustedProxyCIDRs (cf_HTTP cfg).
Proof. pose proof (vp_http validate_parts) as Hh. unfold validate_http in Hh. no_complaints Hh. by apply proxies_complete. Qed.

Lemma valid_heavy : exists limiter proxies, NewServer (cf_HTTP cfg) = (limiter, proxies, hc_HeavyReadConcurrency (cf_HTTP cfg)) /\
  limiter = newCreateLimiter (hc_CreateRatePerMinute (cf_HTTP cfg)) (hc_CreateRateBurst (cf_HTTP cfg)) /\
  Some <$> proxies = ParseCIDR <$> hc_TrustedProxyCIDRs (cf_HTTP cfg).
Proof.
  pose proof (vp_http validate_parts) as Hh. unfold validate_http in Hh. no_complaints Hh. rewrite !orb_false_iff in *. unfold NewServer.
  replace (hc_HeavyReadConcurrency (cf_HTTP cfg) <=? 0) with false by lia. replace (hc_CreateRatePerMinute (cf_HTTP cfg) <=? 0) with false by lia.
  replace (hc_CreateRateBurst (cf_HTTP cfg) <=? 0) with false by lia. eexists _, _. split; [reflexivity|]. split; [done|apply valid_proxies].
Qed.

Lemma valid_daily : 0 < qc_DailyLimit (cf_CreateQuota cfg) <= 1000000.
Proof. pose proof (vp_rest validate_parts) as Hr. unfold validate_rest in Hr. no_complaints Hr. rewrite !orb_false_iff in *. lia. Qed.
End Validated.

Lemma load_valid env file url cfg : Load env file url = Ok cfg -> Validate cfg = [].
Proof.
  unfold Load. intros Hl. repeat match type of Hl with
  | match ?m with Ok _ => _ | Err _ => _ end = _ => destruct m as [?|?]; [|discriminate Hl]
  end. cbv zeta in Hl. destruct (errors_join _) eqn:E in Hl; [discriminate Hl|]. injection Hl as <-. by apply join_None in E.
Qed.

(** The wiring of an application. *)
Record wired (cfg : Config) (app : App) : Prop := {
  wi_message : MaxMessageBytes (ap_lmtp app) = MaxRawBytes (ap_parser app);
  wi_parser : fitting (ap_parser app);
  wi_store : MaxMessageBytes (ap_lmtp app) <= maxBytes (ap_content app) /\ MaxMessageBytes (ap_lmtp app) <= minFreeBytes (ap_content app);
  wi_quota : exists l, ap_limits app = Some l /\ MaxMessageBytes (ap_lmtp app) <= MaxInboxStorageBytes l /\ 0 < MaxInboxMessages l;
  wi_lease : po_ParseTimeout (ap_worker app) < po_LeaseDuration (ap_worker app) /\ NewParserWorker (ap_worker app) = None;
  wi_retention : is_Some (ap_retention app) <-> 0 < cl_Interval (cf_Cleanup cfg);
  wi_domains : exists m, s_mailbox (ap_http app) = Some m /\ sv_domains m = ic_PublicDomains (cf_Inbox cfg) /\ NoDup (sv_domains m) /\
    same_domains (sv_domains m) (ap_adapters app);
  wi_proxies : Some <$> s_proxies (ap_http app) = ParseCIDR <$> hc_TrustedProxyCIDRs (cf_HTTP cfg);
  wi_sessions : is_Some (s_sessions (ap_http app)) <-> sc_Key (cf_BrowserSession cfg) <> [];
  wi_admission : exists quota, s_quota (ap_http app) = Some quota /\ qs_key quota = qc_HMACKey (cf_CreateQuota cfg)
}.

Lemma worker_lease o : NewParserWorker o = None -> po_ParseTimeout o < po_LeaseDuration o.
Proof. unfold NewParserWorker. destruct (_ || _); [done|]. destruct (_ || _ || _); [done|]. destruct (_ <=? _) eqn:E; [done|]. intros _. lia. Qed.

(** C20: a configuration that loads is one the process can be built from: every
    constructor accepts it as soon as the quota key is there, the database
    driver and the content root can be opened and the random source works,
    and without the key none of it starts.  The parts then fit together: a
    message LMTP accepts may be stored, fits the free space that is kept and
    the quota of an inbox, and is within what the parser reads, whose limits
    are those [parse_bounded] needs; a parse lease outlives the parse; every
    API serves the configured domains, each once; no trusted proxy network is
    dropped; and retention and browser sessions run exactly when configured. *)
Theorem loaded_configuration_composes `{!Argon2Lib} env file url driver at_path d random schema cfg d' store :
  Load env file url = Ok cfg ->
  (forall o, driver o = None) ->
  Open (ContentStore.MkConfig (at_path (co_Root (cf_Content cfg))) (co_MaxBytes (cf_Content cfg)) (co_MinFreeBytes (cf_Content cfg))) d = (d', Ok store) ->
  passwordSaltBytes <= zlen random ->
  (zlen (qc_HMACKey (cf_CreateQuota cfg)) = 32 -> exists app, New driver at_path d random schema cfg = Ok app /\ wired cfg app) /\
  (zlen (qc_HMACKey (cf_CreateQuota cfg)) <> 32 -> exists e, New driver at_path d random schema cfg = Err e).
Proof.
  intros Hload%load_valid Hdriver Hopen Hrandom. unfold New. rewrite (valid_pool cfg Hload driver Hdriver). cbv zeta. set (content := ContentStore.MkConfig _ _ _) in *.
  assert (open_store d (co_Root (cf_Content cfg)) content = Ok store) as ->.
  { unfold open_store. rewrite (valid_open cfg Hload) by done. by rewrite Hopen. }
  pose proof (valid_sizes cfg Hload) as Hsizes. cbn [attempt].
  assert (NewDeliveryRepositoryWithLimits (MkDeliveryLimits (ic_MaxMessages (cf_Inbox cfg)) (ic_MaxStorageBytes (cf_Inbox cfg))) =
    Ok (Some (MkDeliveryLimits (ic_MaxMessages (cf_Inbox cfg)) (ic_MaxStorageBytes (cf_Inbox cfg))))) as ->.
  { unfold NewDeliveryRepositoryWithLimits. cbn [MaxInboxMessages MaxInboxStorageBytes]. by replace (_ || _) with false by (symmetry; rewrite orb_false_iff; lia). }
  cbn [attempt]. unfold NewQuotaService. pose proof (valid_daily cfg Hload) as Hdaily.
  destruct (zlen (qc_HMACKey (cf_CreateQuota cfg)) =? 32) eqn:Ek; cbn [negb]; (split; [intros Hk|intros Hk; try lia]); [|lia|by eexists].
  replace (_ || _) with false by (symmetry; rewrite orb_false_iff; lia). cbn [attempt]. pose proof (valid_limits cfg Hload) as Hfit.
  unfold NewParser. rewrite (proj1 Hfit). cbn [attempt]. rewrite (valid_service cfg Hload). cbn [attempt].
  pose proof (valid_worker cfg Hload) as Hworker. rewrite Hworker. cbn [attempt checked]. rewrite (valid_retention cfg Hload). cbn [attempt].
  rewrite (valid_lmtp cfg Hload). cbn [option_map checked attempt].
  destruct (valid_heavy cfg Hload) as (limiter & proxies & -> & _ & Hproxies). destruct (valid_sessions cfg Hload) as (sessions & -> & Hsessions). cbn [attempt].
  destruct (valid_adapters cfg Hload random Hrandom) as (others & -> & Hothers & _). destruct (valid_domains cfg Hload) as (_ & Hnodup & _).
  eexists. split; [reflexivity|]. split; cbn; try done; try lia.
  - eexists. split; [reflexivity|]. cbn. lia.
  - split; [exact (worker_lease _ Hworker)|done].
  - destruct (0 <? cl_Interval _) eqn:E; split; intros Hx; first [lia|done|by destruct Hx].
  - by eexists.
  - by eexists.
Qed.

(** A process with the defaults, a data source, a quota key, two domains and
    the adapters enabled. *)
Module Deployment.
Definition variables : list (bytes * bytes) :=
  [(str "MAILWISP_POSTGRES_DSN", str " postgres://mail@db/mail "); (str "MAILWISP_CREATE_QUOTA_HMAC_KEY", b64_encode (replicate 32 "q"%char));
   (str "MAILWISP_PUBLIC_DOMAINS", str "Mail.Example.COM , example.org,"); (str "MAILWISP_DUCKMAIL_ENABLED", str "true");
   (str "MAILWISP_YYDS_ENABLED", str "1"); (str "MAILWISP_CLOUDFLARE_TEMP_ENABLED", str "T"); (str "MAILWISP_CLEANUP_INTERVAL", str "1.5h");
   (str "MAILWISP_LMTP_MAX_MESSAGE_BYTES", str "1048576")].
Definition env (name : bytes) : bytes := default [] (snd <$> head (filter (λ kv, kv.1 = name) variables)).
Definition file (_ : bytes) : res bytes := Err (ESentinel OsErrNotExist).
Definition url (_ _ : bytes) : option bytes := None.
Definition loaded : res Config := Load env file url.
Definition cfg : Config :=
  match loaded with
  | Ok c => c
  | Err _ => MkConfig (MkHTTPConfig [] 0 0 0 0 0 0 0 0 0 []) (MkLMTPConfig [] [] 0 0 0 0 0 0 0) (MkParserConfig 0 0 0 0 0 0 0) (MkPostgresConfig [] 0 0 0)
      (MkContentConfig [] 0 0) (MkInboxConfig [] 0 0 0 0) (MkQuotaConfig 0 []) (MkCompatConfig false false false false) (MkSessionConfig [] 0)
      (MkCleanupConfig 0 0 0) 0 0
  end.
Definition content : ContentStore.config := ContentStore.MkConfig [str "data"] (co_MaxBytes (cf_Content cfg)) (co_MinFreeBytes (cf_Content cfg)).
Definition blank : disk := Disk ∅ ∅ ∅ 0 5 (4096, 1000) [].
Definition opened : disk * res Store := Open content blank.
Definition store : Store := match opened.2 with Ok s => s | Err _ => MkStore blank 0 0 end.

Lemma load_run : Load env file url = Ok cfg.
Proof.
  assert (is_ok loaded = true) as E by (vm_compute; reflexivity). unfold cfg. change (Load env file url) with loaded.
  revert E. generalize loaded. by intros [c|e].
Qed.

Lemma open_run : Open content blank = (opened.1, Ok store).
Proof.
  assert (is_ok opened.2 = true) as E by (vm_compute; reflexivity). unfold store. change (Open content blank) with opened.
  revert E. generalize opened. by intros [d [s|e]].
Qed.

(** What was read. *)
Lemma load_values : ic_PublicDomains (cf_Inbox cfg) = [str "mail.example.com"; str "example.org"] /\
  pg_DSN (cf_Postgres cfg) = str "postgres://mail@db/mail" /\ cl_Interval (cf_Cleanup cfg) = 5400 * sec /\
  qc_HMACKey (cf_CreateQuota cfg) = replicate 32 "q"%char /\ pc_LeaseDuration (cf_Parser cfg) = minute.
Proof. vm_compute. split_and!; reflexivity. Qed.
End Deployment.

(** Witness of [loaded_configuration_composes]. *)
Lemma loaded_configuration_composes_witness :
  exists app, New (H0 := DuckMail.Runs.lib) (λ _, None) (λ _, [str "data"]) Deployment.blank (replicate 16 "r"%char) 8 Deployment.cfg = Ok app /\ wired Deployment.cfg app.
Proof.
  destruct Deployment.load_values as (_ & _ & _ & Hkey & _).
  assert (passwordSaltBytes <= zlen (replicate 16 "r"%char)) as Hrandom by (vm_compute; discriminate).
  apply (loaded_configuration_composes Deployment.env Deployment.file Deployment.url (λ _, None) (λ _, [str "data"]) Deployment.blank
    (replicate 16 "r"%char) 8 Deployment.cfg Deployment.opened.1 Deployment.store Deployment.load_run (λ _, eq_refl) Deployment.open_run Hrandom).
  rewrite Hkey. reflexivity.
Defined.
