(* ===== verification/Commands.v ===== *)
(** * Maintenance commands: [internal/app/backup.go], [internal/app/reconcile.go], [internal/app/cleanup.go]

    The commands that work on the content root and the database while nobody
    serves: each takes the exclusive lease, does its work with the components of
    the other files, and gives the lease back whatever came of it. *)

From S2P Require Import Prelude GoStrings Errors Codec NetIP Uuid FileSystem Message ContentStore ContentStoreFacts Reconcile Tar FileTree Archive Mail Database DatabaseFacts DeliveryRepo MailboxRepo ParseRepo System Retention Catalog Bundle BackupTool BackupToolFacts Lease Config App.

#[local] Opaque sha256.

(** The deferred function of a command: an error of the release joins the one
    that is returned. *)
Definition release_lease (lease : MaintenanceLease) (l : locks) (returnError : option goerr) : locks * option goerr :=
  let '(l, _, e) := Release lease l in
  (l, match e with
      | None => returnError
      | Some e =>
        let e := EWrap "release exclusive maintenance lease" e in
        Some (match returnError with None => e | Some r => EWrap2 "join" r e end)
      end).

(** A command's work [body] under the lease; [zero] is the result of one that
    did not start.  [None] when the work does not end. *)
Definition exclusive {W B} (dsn : bytes) (zero : B) (body : W -> option (W * B * option goerr)) (w : W) (l : locks) : option (W * locks * B * option goerr) :=
  match TryAcquireMaintenanceLease dsn l with
  | (l, Err e) => Some (w, l, zero, Some (EWrap "acquire exclusive maintenance lease" e))
  | (l, Ok lease) =>
    match body w with
    | None => None
    | Some (w, b, e) => let '(l, e) := release_lease lease l e in Some (w, l, b, e)
    end
  end.

Section Commands.
Context `{!UUIDLib} `{!GzipLib} `{!TarLib} `{!ManifestCodec} `{!PgTools}.
Context (driver : PoolOptions -> option goerr) (parse : bytes -> res ConnConfig) (at_path : bytes -> path) (environ : list bytes) (cfg : Config).

Definition dsn : bytes := pg_DSN (cf_Postgres cfg).

(** [contentstore.Open] with the options of a command. *)
Definition command_store (minFree : Z) : ContentStore.config :=
  ContentStore.MkConfig (at_path (co_Root (cf_Content cfg))) (co_MaxBytes (cf_Content cfg)) minFree.

Definition open_command_store (minFree : Z) : IO Store := λ d,
  match Open_check (co_Root (cf_Content cfg)) (command_store minFree) with
  | Some text => (d, Err (ENew text))
  | None => Open (command_store minFree) d
  end.

(** ** Backups *)

Definition backup_world : Type := server * disk.

(** The part of [CreateBackup] that the lease protects. *)
Definition backup_body (tool : BackupTool) (destination : path) (createdAt : Z) (random : bytes) (w : backup_world) : option (backup_world * option Manifest * option goerr) :=
  let '(s, d) := w in
  match open_command_store 0 d with
  | (d, Err e) => Some ((s, d), None, Some (EWrap "open content store" e))
  | (d, Ok _) =>
    match Reconcile (command_store 0) (MkReconcileOptions DefaultReconcileBatchSize false) d s with
    | None => None
    | Some (scan, Some e) => Some ((sc_catalog scan, sc_disk scan), None, Some (EWrap "reconcile content before backup" e))
    | Some (scan, None) =>
      if negb (Unresolved (sc_summary scan) =? 0)
      then Some ((sc_catalog scan, sc_disk scan), None, Some (EWrap "backup has unresolved finding(s)" ErrInconsistentContent))
      else match @Create _ _ server (tool_dumper tool environ) (command_store 0) destination createdAt random (sc_catalog scan) (sc_disk scan) with
      | (d, s, Err e) => Some ((s, d), None, Some (EWrap "create backup bundle" e))
      | (d, s, Ok m) => Some ((s, d), Some m, None)
      end
    end
  end.

Definition CreateBackup (destination : path) (createdAt : Z) (random : bytes) (w : backup_world) (l : locks) : option (backup_world * locks * option Manifest * option goerr) :=
  match openPostgresPool driver (cf_Postgres cfg) with
  | Some e => Some (w, l, None, Some e)
  | None =>
    match NewBackupTool parse dsn with
    | Err e => Some (w, l, None, Some (EWrap "create postgres backup tool" e))
    | Ok tool =>
      match on_server (Ready (Z.of_nat (sv_schema w.1))) w.1 with
      | (s, Err e) => Some ((s, w.2), l, None, Some (EWrap "verify postgres readiness" e))
      | (s, Ok _) => exclusive dsn None (backup_body tool destination createdAt random) (s, w.2) l
      end
    end
  end.

Definition VerifyBackup (bundleRoot : path) : IO Manifest := λ d,
  match Bundle.Verify bundleRoot d with
  | (d, Err e) => (d, Err (EWrap "verify backup bundle" e))
  | (d, Ok verified) => (d, Ok (vb_Manifest verified))
  end.

Definition restore_command_body (bundleRoot : path) (random : bytes) (w : backup_world) : option (backup_world * option Manifest * option goerr) :=
  match NewBackupTool parse dsn with
  | Err e => Some (w, None, Some (EWrap "create postgres restore tool" e))
  | Ok tool =>
    match @Restore _ _ _ server (tool_restorer tool environ) bundleRoot (at_path (co_Root (cf_Content cfg))) random w.1 w.2 with
    | None => None
    | Some (d, s, Err e) => Some ((s, d), None, Some (EWrap "restore backup bundle" e))
    | Some (d, s, Ok m) => Some ((s, d), Some m, None)
    end
  end.

Definition RestoreBackup (bundleRoot : path) (random : bytes) (w : backup_world) (l : locks) : option (backup_world * locks * option Manifest * option goerr) :=
  match openPostgresPool driver (cf_Postgres cfg) with
  | Some e => Some (w, l, None, Some e)
  | None => exclusive dsn None (restore_command_body bundleRoot random) w l
  end.

(** ** Reconciliation and cleanup *)

Definition data_world : Type := disk * db.

(** The process has no delivery in flight. *)
Definition reconcile_command_body (repairOrphans : bool) (w : data_world) : option (data_world * unit * option goerr) :=
  match open_command_store 0 w.1 with
  | (d, Err e) => Some ((d, w.2), tt, Some (EWrap "open content store" e))
  | (_, Ok store) =>
    match Catalog.ReconcileContent (command_store 0) repairOrphans (Sys store w.2 []) with
    | None => None
    | Some (y, e) => Some ((st_disk (y_store y), y_db y), tt, e)
    end
  end.

Definition reconcile_command (schema : Z) (repairOrphans : bool) (w : data_world) (l : locks) : option (data_world * locks * unit * option goerr) :=
  match openPostgresPool driver (cf_Postgres cfg) with
  | Some e => Some (w, l, tt, Some e)
  | None =>
    match Ready schema w.2 with
    | (k, Err e) => Some ((w.1, k), l, tt, Some (EWrap "verify postgres readiness" e))
    | (k, Ok _) => exclusive dsn tt (reconcile_command_body repairOrphans) (w.1, k) l
    end
  end.

Definition no_cleanup : RetentionSummary := MkRetentionSummary 0 0 0.

Definition cleanup_command_body (w : data_world) : option (data_world * RetentionSummary * option goerr) :=
  match open_command_store (co_MinFreeBytes (cf_Content cfg)) w.1 with
  | (d, Err e) => Some ((d, w.2), no_cleanup, Some (EWrap "open cleanup content store" e))
  | (d, Ok store) =>
    match NewRetentionSweeper (cl_BatchSize (cf_Cleanup cfg)) with
    | Err e => Some ((d, w.2), no_cleanup, Some (EWrap "create cleanup sweep" e))
    | Ok sweeper =>
      match Sweep (command_store (co_MinFreeBytes (cf_Content cfg))) (ro_BatchSize sweeper) (Sys store w.2 []) with
      | None => None
      | Some (y, summary, e) => Some ((st_disk (y_store y), y_db y), summary, e)
      end
    end
  end.

Definition CleanupExpired (schema : Z) (w : data_world) (l : locks) : option (data_world * locks * RetentionSummary * option goerr) :=
  match openPostgresPool driver (cf_Postgres cfg) with
  | Some e => Some (w, l, no_cleanup, Some e)
  | None =>
    match Ready schema w.2 with
    | (k, Err e) => Some ((w.1, k), l, no_cleanup, Some (EWrap "verify postgres readiness" e))
    | (k, Ok _) => exclusive dsn no_cleanup cleanup_command_body (w.1, k) l
    end
  end.
End Commands.

(** ** Exclusion *)

(** A command leaves the sessions and the lock as it found them; and while
    another session holds the lock it reports an error and changes nothing. *)
Definition guarded {W B} (same : W -> W -> Prop) (command : W -> locks -> option (W * locks * B * option goerr)) : Prop :=
  forall w l w' l' b e, locks_ok l -> command w l = Some (w', l', b, e) ->
    lk_live l' = lk_live l /\ lk_holder l' = lk_holder l /\ (is_Some (lk_holder l) -> same w w' /\ is_Some e).

Lemma release_after text dsn l l1 lease l2 e r : locks_ok l -> acquire text dsn l = (l1, Ok lease) -> release_lease lease l1 r = (l2, e) -> same_locks l l2.
Proof.
  intros Hok Ha%acquire_spec; [|done]. destruct Ha as (-> & _ & Hs & _). unfold release_lease. destruct (Release _ l1) as [[l3 m] x] eqn:Er. intros [= <- _].
  apply release_spec in Er as [_ Er]. etrans; [|exact Er]. by apply in_session_end.
Qed.

Lemma exclusive_guarded {W B} (same : W -> W -> Prop) dsn (zero : B) (body : W -> option (W * B * option goerr)) : (forall w, same w w) -> guarded same (exclusive dsn zero body).
Proof.
  intros Hsame w l w' l' b e Hok. unfold exclusive. destruct (TryAcquireMaintenanceLease dsn l) as [l1 [lease|x]] eqn:E.
  - destruct (body w) as [[[w1 b1] e1]|]; [|done]. destruct (release_lease lease l1 e1) as [l2 e2] eqn:Er. intros [= <- <- <- <-].
    destruct (release_after _ _ _ _ _ _ _ _ Hok E Er) as [Hl Hh _]. split_and!; [done|done|]. apply acquire_spec in E as (_ & Hn & _); [|done]. rewrite Hn. by intros [].
  - intros [= <- <- <- <-]. apply acquire_spec in E as [Hl Hh _]; [|done]. split_and!; [done|done|]. intros _. by split.
Qed.

(** Stages before the lease, which only read. *)
Lemma guarded_stop {W B} (same : W -> W -> Prop) (w w1 : W) (l : locks) (zero : B) (x : goerr) w' l' b e : same w w1 -> Some (w1, l, zero, Some x) = Some (w', l', b, e) ->
  lk_live l' = lk_live l /\ lk_holder l' = lk_holder l /\ (is_Some (lk_holder l) -> same w w' /\ is_Some e).
Proof. intros Hs [= <- <- <- <-]. split_and!; [done|done|]. intros _. by split. Qed.

Lemma guarded_after {W B} (same : W -> W -> Prop) `{!PreOrder same} (command : W -> locks -> option (W * locks * B * option goerr)) (w w1 : W) (l : locks) w' l' b e :
  guarded same command -> same w w1 -> locks_ok l -> command w1 l = Some (w', l', b, e) ->
  lk_live l' = lk_live l /\ lk_holder l' = lk_holder l /\ (is_Some (lk_holder l) -> same w w' /\ is_Some e).
Proof. intros Hg Hs Hok (Hl & Hh & Hx)%Hg; [|done]. split_and!; [done|done|]. intros [H1 H2]%Hx. split; [by etrans|done]. Qed.

Definition same_world (w w' : server * disk) : Prop := same_server w.1 w'.1 /\ w'.2 = w.2.
Definition same_data (w w' : disk * db) : Prop := w'.1 = w.1 /\ same_tables w.2 w'.2.

#[global] Instance same_world_preorder : PreOrder same_world.
Proof. split; [by intros w|]. intros w1 w2 w3 [S1 D1] [S2 D2]. split; [by etrans|congruence]. Qed.

#[global] Instance same_data_preorder : PreOrder same_data.
Proof. split; [by intros w|]. intros w1 w2 w3 [D1 S1] [D2 S2]. split; [congruence|by etrans]. Qed.

Section Exclusion.
Context `{!GzipLib} `{!TarLib} `{!ManifestCodec} `{!PgTools}.
Context (driver : PoolOptions -> option goerr) (parse : bytes -> res ConnConfig) (at_path : bytes -> path) (environ : list bytes) (cfg : Config).

(** C13: maintenance is exclusive and tidy.  Each of the four commands that change
    the content root or the database leaves the sessions of the server and the
    holder of the lock as it found them, whatever happened in between; and when
    another process holds the lock, the command reports an error and neither a
    file nor a row has changed. *)
Theorem commands_exclusive destination createdAt random bundleRoot schema repairOrphans :
  guarded same_world (CreateBackup driver parse at_path environ cfg destination createdAt random) /\
  guarded same_world (RestoreBackup driver parse at_path environ cfg bundleRoot random) /\
  guarded same_data (reconcile_command driver at_path cfg schema repairOrphans) /\
  guarded same_data (CleanupExpired driver at_path cfg schema).
Proof.
  split_and!; intros w l w' l' b e Hok.
  - unfold CreateBackup. destruct (openPostgresPool _ _); [by apply guarded_stop|]. destruct (NewBackupTool _ _) as [tool|]; [|by apply guarded_stop].
    destruct (on_server _ _) as [s [[]|x]] eqn:E; apply ready_same in E as [Hs _]; [|by apply guarded_stop].
    apply guarded_after; [apply _|by apply exclusive_guarded|done|done].
  - unfold RestoreBackup. destruct (openPostgresPool _ _); [by apply guarded_stop|]. by apply exclusive_guarded.
  - unfold reconcile_command. destruct (openPostgresPool _ _); [by apply guarded_stop|]. destruct (Ready _ _) as [k [[]|x]] eqn:E; apply ready_tables in E; [|by apply guarded_stop].
    apply guarded_after; [apply _|by apply exclusive_guarded|done|done].
  - unfold CleanupExpired. destruct (openPostgresPool _ _); [by apply guarded_stop|]. destruct (Ready _ _) as [k [[]|x]] eqn:E; apply ready_tables in E; [|by apply guarded_stop].
    apply guarded_after; [apply _|by apply exclusive_guarded|done|done].
Qed.
End Exclusion.

(** *** Runs *)

(** Expired inboxes are cleaned up when nobody serves, and not otherwise. *)
Module Night.
Definition path_of (name : bytes) : path := [str "data"].
Definition night_run (l : locks) : option (disk * db * locks * RetentionSummary * option goerr) :=
  CleanupExpired (λ _, None) path_of Deployment.cfg LatestVersion (Deployment.blank, Tools.empty_db) l.
Definition error_of {W B} (r : option (W * locks * B * option goerr)) : option goerr := match r with Some (_, _, _, e) => e | None => None end.
Definition ended {W B} (r : option (W * locks * B * option goerr)) : bool := match r with Some (_, _, _, None) => true | _ => false end.
End Night.

Lemma cleanup_runs : Night.ended (Night.night_run (Locks 3 ∅ None [])) = true /\
  errors_is_opt (Night.error_of (Night.night_run (Locks 3 {[2%nat]} (Some 2%nat) []))) ErrServiceActive = true.
Proof. vm_compute. by split. Qed.
